(* ===== verification/_CoqProject ===== *)
-Q . S2P
Prelude.v
Numeric.v
Plan.v
Snapshot.v
Wac.v
StandardCost.v
SpecificId.v
Method.v
CostLaws.v
StdLaws.v
SpecificLaws.v
Coalesce.v
Strict.v
Db.v
BulkWrite.v
Cte.v
Submit.v
Recalc.v
Close.v
PgOutput.v
Feed.v
Frame.v
Footprint.v
Scenario.v
RecalcLaws.v
RecalcConverge.v
WorkList.v
FeedLaws.v
CloseLaws.v
SubmitLaws.v
System.v
V3Plan.v
V3Layered.v
V3Wac.v
V3Method.v
V3Books.v
V3Db.v
V3Hydrate.v
V3Refine.v
V3Commit.v
V3Safe.v
V3Sim.v
V3Direct.v
V3Arena.v
V3Payload.v
V3Group.v
V3Equiv.v
V3Scenario.v
V3ArenaScenario.v
V3Affinity.v
V3PoolSeq.v
V3Shmem.v
V3Router.v
V3Crash.v
V3Slots.v
V3QueueScenario.v
V3Journal.v
V3Close.v
V3Ledger.v
V3CloseSafe.v
V3LedgerScenario.v
ExtTable.v
ExtBalance.v
ExtNested.v
ExtTransactions.v
ExtDurable.v
ExtDispatch.v
ExtWac.v
ExtScenario.v
ExtRing.v
ExtShadow.v
ExtDeferred.v
ExtFifoBatch.v
ExtFifoBooks.v
ExtFifoTies.v
ExtFifoRecon.v
ExtFifoReplay.v
ExtFifoDispatch.v
ExtFifoInline.v
ExtFifoWorld.v
