(* ===== verification/Prelude.v ===== *)
(** * A verified model of an inventory-accounting ledger

    The program is an ERP inventory ledger written as PostgreSQL extensions in
    Rust.  This development models three programs of it that live side by side in
    the repository:

    - [src/poc/ledger-v3.2], the current ledger: a synchronous submission path, a
      staging inbox, a change feed, a background engine that recosts FIFO and LIFO
      pools from the physical events, and the period close (first part, files
      Numeric to System);
    - [src/poc/ledger-v3], the two-path ledger: the same core reached either
      directly (Path A, ledger-direct) or through a shared-memory queue with a
      router and committers (Path B, ledger-routed), and its period close (second
      part, files V3Plan to V3LedgerScenario);
    - [src/poc/ledger-extension], balances and FIFO layers kept in shared memory,
      staged per transaction and drained to durable tables in the background
      (third part, files ExtTable to ExtFifoWorld).

    Quantities and amounts are [i64] values as integers with the source's checked,
    wrapping or panicking arithmetic written out; [u16], [u32] and [u64] wrap where
    the source wraps.  SQL statements are transformers of tables kept as finite
    maps.  Code that may fail runs in the state-and-error monad [SE] of this file;
    an error keeps the state reached, and whoever opened the transaction rolls back.

    ** Part one: ledger-v3.2

    - Numeric: [ledger-core/src/numeric.rs] [banker_div] and the SQL function of
      migration 0010.
    - Plan, Snapshot: [plan.rs], [error.rs], [snapshot.rs], [line_type.rs]: the
      request and plan rows, the snapshot with its accessors, the enum texts.
    - Wac, StandardCost, SpecificId, Method: the cost methods ([wac.rs],
      [standard.rs], [specific.rs], the guards of [fifo.rs] and [lifo.rs]) and
      [plan_apply] of [method.rs].  CostLaws, StdLaws, SpecificLaws, Coalesce:
      what whole submissions do to quantity, value and postings.
    - Strict: [strict.rs], the layer walk of FIFO and LIFO, refined to a queue of
      single units.  The inner loop runs on fuel (the number of layers plus one),
      proved sufficient.
    - Db: the tables, keys, checks, period guards and sequences of
      [db/migrations]; Frame: a calculus of what a transaction may change.
    - BulkWrite, Cte, Submit: [bulk_write.rs], [hydration.rs],
      [pool_row_lock.rs], [cte.rs], [submit.rs], [drain.rs].
    - Recalc, Close, PgOutput, Feed: [recalc.rs], [close.rs], [pgoutput.rs],
      [consumer.rs] and migration 0028.  The loops keep the bounds of the source
      ([MAX_DRAIN_PASSES], [MAX_RECHECK_ROUNDS]); draining is proved to need one
      pass.
    - Footprint, WorkList, RecalcLaws, RecalcConverge, FeedLaws, CloseLaws,
      SubmitLaws: the theorems about those components.
    - System: every entry point as a step; the invariants along all runs.
    - Scenario: a worked ledger for the concrete instances.

    What the theorems show: closed history is final and the ledger is append-only
    along every run; a submission takes effect at most once; the hot-path SQL
    statements refine the planner; the layer walk costs units as a queue or a
    stack would; a recalc pass settles its pool and replays converge; the
    divergence detector mirrors the trigger; escalation halts a pool; the feed
    loses no event and its cursor is safe; a close leaves every pool settled and
    force cannot bypass the gate; periods close in order; the wire parser inverts
    the wire format.

    ** Part two: ledger-v3

    - V3Plan, V3Layered, V3Wac, V3Method: the core of [ledger-core/src]
      ([plan.rs], [snapshot.rs], [seq.rs], [layered.rs], [fifo.rs], [lifo.rs],
      [specific.rs], [wac.rs], [wac_periodic.rs], [standard.rs], [method.rs]).
      V3Books, V3Safe, V3Sim: index discipline of plans, absence of panics,
      insensitivity to what is not read.
    - V3Db: the tables of migrations 0001 to 0007, [bulk_write.rs],
      [hydration.rs], [pool_lock.rs] (the two extensions carry the same copies).
      V3Hydrate, V3Refine, V3Commit: hydration shows the table, the batched write
      of a deduplicated plan brings the table to the planning snapshot.
    - V3Direct: Path A, [ledger-direct/src/submit.rs] and [ledger_error_map.rs].
    - V3Arena, V3Payload: [ledger-routed/src/arena.rs] and [payload.rs], the block
      allocation of [enqueue.rs] and the release of [cleanup.rs].  The payload code
      is proved against the class [Allocator], which the arena implements.  A walk
      of the freelist has fuel for one visit per header position below the
      high-water mark, proved sufficient.
    - V3Group, V3Equiv: the database half of [committer.rs], with the replay caps
      of the source (one more than the submissions), and the equivalence of the
      two paths.
    - V3Affinity: the union-find and grouping of [router.rs]; walks to the root
      have fuel for one visit per node, proved sufficient.
    - V3PoolSeq: the sequence table of [shmem.rs] with its users in [router.rs] and
      [committer.rs], and the ordering protocol as interleaved events.
    - V3Shmem, V3Router, V3Crash, V3Slots: the queues of [shmem.rs] and the
      programs over them ([router.rs], [enqueue.rs], [identity.rs],
      [committer.rs], [cleanup.rs]); a process can be killed between any two of
      its writes.  Ring scans make one round over the slots, emission one round
      per candidate.
    - V3Journal: what the postings say a pool is worth.  V3Close:
      [ledger-direct/src/close_period.rs], the variance transaction, the adjusted
      pool values and the finalized rows.  V3Ledger: runs of submissions and
      closes.  V3CloseSafe: what a close does to its period.
    - V3Scenario, V3ArenaScenario, V3QueueScenario, V3LedgerScenario: concrete
      instances, and runs that exhibit defects.

    What the theorems show: Path A writes what the plan says and keeps the
    database well formed; a depletion takes units off a queue or a stack; the two
    paths leave the same books; the replay loops converge before their caps; the
    arena keeps its clients' blocks apart and their contents intact, and a
    submission survives it; grouping computes connected components; groups of an
    order-sensitive pool commit in emission order and drain; a killed router loses
    and duplicates nothing; slots follow their life cycle; the value of
    every pool is what its postings add up to, through submissions and closes; a
    close restates each provisional issue of its period at the final average.  Some theorems record
    where the code falls short of its comments: the cleanup leaks the lines block,
    a group that ends early blocks its pools, a roll-forward breaks the order, a
    group claimed before it was stamped can be routed twice.

    ** Part three: ledger-extension

    - ExtTable: the open-addressing table of [lib.rs] and the packed keys.  A probe
      makes [N_BUCKETS] turns at most, as in the source.
    - ExtBalance: the balance cells, the stack of pending frames of a transaction,
      the transaction and subtransaction callbacks, the drain into the rollup
      table, [balance] and the restart.  ExtNested: the net delta of a stack.
    - ExtTransactions: interleaved backends against an abstract map of balances.
      ExtDurable: drain and restart.
    - ExtDispatch, ExtWac: [ledger_apply_batch] and [ledger_dispatch_wac_batch].
    - ExtRing, ExtShadow: the ring of layers of [fifo.rs] with its pending drains,
      and the shadow of a cell with its log of operations and the callbacks that
      replay it.  The consume loop has fuel for one turn per layer and one more,
      proved sufficient.  ExtDeferred: the ring against a list of
      layers, and replaying the log against applying the operations at once.
    - ExtFifoBatch: the tables of the batch-ledger migrations the FIFO batch uses
      and all phases of [fifo_apply_batch_maximal], from decoded envelopes to audit
      rows and staged balances; text conversions of the server are the class
      [PgText].  Also [do_fifo_drain_tick], the reset, the sentinels,
      [fifo_arena_recon], [fifo_overconsume_check] of migration 0025, and
      transactions of batches with savepoints, one after the other.
    - ExtFifoBooks, ExtFifoTies, ExtFifoRecon: the books of the arena (per layer:
      durable remainder, ring, staged drains, depletions) and that every phase,
      callback and tick keeps them.  ExtFifoReplay: running a batch again.
    - ExtFifoDispatch: [ledger_dispatch_fifo_batch] against queues of layers.
      ExtFifoInline: [fifo_apply_batch_inline] and the books.
    - ExtScenario, ExtFifoWorld: concrete instances, and runs that exhibit
      defects.

    What the theorems show: the balances that sessions see are those of an
    abstract map to which every committed transaction adds its deltas at once and
    an aborted one nothing; the check before commit leaves no delta behind; a
    restart after a drain changes no balance; the cost of a WAC batch is that of
    its running totals; the ring is a queue of layers and an issue takes the oldest
    first; the log of a transaction with subtransactions has the effect of the
    operations that survived.  However FIFO
    batches, savepoints, rollbacks, failures and drains follow one another, a
    loaded cell that never overflowed holds exactly the stock its layers have left,
    the reconciliation query finds no drift in it and no layer of it is consumed
    beyond what it received; a batch that ran is answered as a replay ever after.
    The FIFO dispatcher is a queue of layers; the batch without shared layers keeps
    the books of old layers.

    ** Parameters

    JSON and timestamp parsing, [pg_xact_status], process liveness, clocks, the
    iteration order of hash maps, what the server returns for a peek of the
    logical slot and rows locked by other sessions are arguments of the
    definitions that use them; what the code relies on is a hypothesis or a class
    law (the accuracy of SQL numeric division), with a concrete instance in the
    scenario files.

    ** Not modelled

    Row and advisory locks (a transaction is one step; interleavings are those of
    whole transactions, of the pool-order protocol and of killed processes);
    condition variables; most foreign keys of v3.2; the movement of the WAL within
    a step; the inbox admission trigger; prepared-plan caches; error hints and
    message texts beyond what tells errors apart; the background-worker main
    loops and settings; statistics views and test hooks; the load generators and
    the comparison harness; the earlier prototypes (v3.1, batch-ledger, the
    two queue extensions), which are separate programs.  Of ledger-extension: the
    SQL wrappers around the dispatchers,
    the alternative arenas and what two backends may do to one cell at the same
    time. *)
From stdpp Require Export sorting pretty strings.
From stdpp Require Export base numbers option list gmap.
From stdpp Require Import tactics.

#[global] Open Scope Z_scope.

(** * Machine integers

    [i64] values are integers [z] with [in_i64 z]; the operations below are the
    checked, converting and wrapping operations the sources use on them.  An
    [i128] intermediate is an unbounded [Z]: [i128_of_i64_products] below and the
    component files show that no intermediate the code forms leaves [i128]. *)
Definition i64_min : Z := - 2 ^ 63.
Definition i64_max : Z := 2 ^ 63 - 1.
Definition in_i64 (z : Z) : Prop := i64_min ≤ z ≤ i64_max.
Definition in_i128 (z : Z) : Prop := - 2 ^ 127 ≤ z ≤ 2 ^ 127 - 1.
#[global] Instance in_i64_dec z : Decision (in_i64 z).
Proof. unfold in_i64. apply _. Defined.

(** [i64::try_from] / [TryInto<i64>] on an [i128]. *)
Definition i64_try_from (z : Z) : option Z :=
  if decide (in_i64 z) then Some z else None.
Definition checked_add (a b : Z) : option Z := i64_try_from (a + b).
Definition checked_sub (a b : Z) : option Z := i64_try_from (a - b).
Definition checked_abs (a : Z) : option Z := i64_try_from (Z.abs a).
(** Two's-complement wrap-around: what unchecked [i64] arithmetic and [as i64]
    casts compute in the release profile. *)
Definition wrap_i64 (z : Z) : Z := (z + 2 ^ 63) `mod` 2 ^ 64 - 2 ^ 63.
Definition wadd (a b : Z) : Z := wrap_i64 (a + b).
Definition wsub (a b : Z) : Z := wrap_i64 (a - b).

Lemma i64_try_from_Some z y : i64_try_from z = Some y ↔ y = z ∧ in_i64 z.
Proof. unfold i64_try_from. case_decide; split; try intros [-> ?]; naive_solver. Qed.
Lemma i64_try_from_None z : i64_try_from z = None ↔ ¬ in_i64 z.
Proof. unfold i64_try_from. case_decide; naive_solver. Qed.
Lemma i64_try_from_in z : in_i64 z → i64_try_from z = Some z.
Proof. intros. by apply i64_try_from_Some. Qed.
Lemma checked_add_Some a b c : checked_add a b = Some c ↔ c = a + b ∧ in_i64 (a + b).
Proof. apply i64_try_from_Some. Qed.
Lemma checked_sub_Some a b c : checked_sub a b = Some c ↔ c = a - b ∧ in_i64 (a - b).
Proof. apply i64_try_from_Some. Qed.
Lemma checked_abs_Some a c : checked_abs a = Some c ↔ c = Z.abs a ∧ in_i64 (Z.abs a).
Proof. apply i64_try_from_Some. Qed.

Lemma wrap_i64_id z : in_i64 z → wrap_i64 z = z.
Proof.
  unfold in_i64, wrap_i64, i64_min, i64_max. intros.
  rewrite Z.mod_small; lia.
Qed.

Lemma wrap_i64_add a b : wrap_i64 (wrap_i64 a + b) = wrap_i64 (a + b).
Proof.
  unfold wrap_i64. f_equal. replace ((a + 2 ^ 63) `mod` 2 ^ 64 - 2 ^ 63 + b + 2 ^ 63) with ((a + 2 ^ 63) `mod` 2 ^ 64 + b) by lia.
  rewrite Zplus_mod_idemp_l. f_equal. lia.
Qed.
Lemma wrap_i64_range z : in_i64 (wrap_i64 z).
Proof.
  unfold in_i64, wrap_i64, i64_min, i64_max. pose proof (Z.mod_pos_bound (z + 2 ^ 63) (2 ^ 64)). lia.
Qed.

Lemma i128_of_i64_products a b c :
  in_i64 a → in_i64 b → in_i64 c → in_i128 (a + b * c).
Proof.
  unfold in_i64, in_i128, i64_min, i64_max. intros Ha Hb Hc.
  assert (-(2 ^ 126) ≤ b * c ≤ 2 ^ 126) by nia. lia.
Qed.

(** * Results and stateful computations

    [Res E] is Rust's [Result].  [SE S E] threads a mutable state [S] through
    fallible code: as with [&mut] arguments, what was written before an error
    stays written. *)
Inductive Res (E A : Type) : Type :=
| Ok (a : A)
| Err (e : E).
Arguments Ok {E A} a.
Arguments Err {E A} e.

Definition SE (S E A : Type) : Type := S → Res E A * S.

#[global] Instance Res_ret E : MRet (Res E) := λ A a, Ok a.
#[global] Instance Res_bind E : MBind (Res E) :=
  λ A B f m, match m with Ok a => f a | Err e => Err e end.
#[global] Instance SE_ret S E : MRet (SE S E) := λ A a s, (Ok a, s).
#[global] Instance SE_bind S E : MBind (SE S E) :=
  λ A B f m s, match m s with
               | (Ok a, s') => f a s'
               | (Err e, s') => (Err e, s')
               end.

(** What a Rust function can end in besides a value: a returned error, or a
    panic (which unwinds with a message). *)
Inductive Fault (E : Type) : Type :=
| Returned (e : E)
| Panicked (msg : string).
Arguments Returned {E} e.
Arguments Panicked {E} msg.

Definition throw {S E A} (e : E) : SE S E A := λ s, (Err e, s).
Definition gets {S E A} (f : S → A) : SE S E A := λ s, (Ok (f s), s).
Definition modify {S E} (f : S → S) : SE S E unit := λ s, (Ok tt, f s).
Definition ok_or {E A} (o : option A) (e : E) : Res E A :=
  match o with Some a => Ok a | None => Err e end.
Definition lift {S E A} (r : Res E A) : SE S E A := λ s, (r, s).
(** Calling a function whose only failure is a panic. *)
Definition or_panic {E A} (r : Res string A) : Res (Fault E) A :=
  match r with Ok a => Ok a | Err msg => Err (Panicked msg) end.

(** Running a stateful step over a list, stopping at the first error. *)
Fixpoint iterM {S E A} (f : A → SE S E unit) (l : list A) : SE S E unit :=
  match l with
  | [] => mret tt
  | a :: l => f a ≫= λ _, iterM f l
  end.
Fixpoint foldM {E A B} (f : B → A → Res E B) (b : B) (l : list A) : Res E B :=
  match l with
  | [] => Ok b
  | a :: l => b' ← f b a; foldM f b' l
  end.

Declare Scope ledger_scope.
Delimit Scope ledger_scope with ledger.
Notation "'ensure' b 'else' e ; k" := (if (b : bool) then k else throw e)
  (at level 20, b at level 20, e at level 20, k at level 200,
   right associativity) : ledger_scope.
#[global] Open Scope ledger_scope.

Section laws.
Context {S E : Type}.

Lemma SE_bind_Ok {A B} (m : SE S E A) (f : A → SE S E B) s b s' :
  (m ≫= f) s = (Ok b, s') ↔ ∃ a s1, m s = (Ok a, s1) ∧ f a s1 = (Ok b, s').
Proof.
  unfold mbind, SE_bind. destruct (m s) as [[a|e] s1]; split.
  - eauto.
  - intros (?&?&[= -> ->]&?). done.
  - done.
  - intros (?&?&?&?). done.
Qed.

Lemma SE_bind_run {A B} (m : SE S E A) (f : A → SE S E B) s a s' :
  m s = (Ok a, s') → (m ≫= f) s = f a s'.
Proof. unfold mbind, SE_bind. by intros ->. Qed.

Lemma SE_bind_Err {A B} (m : SE S E A) (f : A → SE S E B) s e s' :
  (m ≫= f) s = (Err e, s') ↔
    m s = (Err e, s') ∨ ∃ a s1, m s = (Ok a, s1) ∧ f a s1 = (Err e, s').
Proof.
  unfold mbind, SE_bind. destruct (m s) as [[a|e'] s1]; split.
  - eauto.
  - intros [[=]|(?&?&[= -> ->]&?)]. done.
  - intros [= -> ->]. by left.
  - intros [[= -> ->]|(?&?&?&?)]; done.
Qed.

Lemma Res_bind_Ok {A B} (m : Res E A) (f : A → Res E B) b :
  (m ≫= f) = Ok b ↔ ∃ a, m = Ok a ∧ f a = Ok b.
Proof.
  unfold mbind, Res_bind. destruct m as [a|e]; split.
  - eauto.
  - intros (?&[= ->]&?). done.
  - done.
  - intros (?&[=]&?).
Qed.

Lemma ok_or_Ok {A} (o : option A) (e : E) a : ok_or o e = Ok a ↔ o = Some a.
Proof. destruct o; naive_solver. Qed.

Lemma or_panic_Ok {A} (r : Res string A) a :
  or_panic (E:=E) r = Ok a ↔ r = Ok a.
Proof. destruct r; naive_solver. Qed.

Lemma iterM_app {A} (f : A → SE S E unit) l k s :
  iterM f (l ++ k) s = (iterM f l ≫= λ _, iterM f k) s.
Proof.
  revert s. induction l as [|a l IH]; intros s; [done|].
  cbn. unfold mbind, SE_bind. destruct (f a s) as [[[]|?] ?]; [|done].
  apply IH.
Qed.

Lemma foldM_app {A B} (f : B → A → Res E B) b l k :
  foldM f b (l ++ k) = b' ← foldM f b l; foldM f b' k.
Proof.
  revert b. induction l as [|a l IH]; intros b; [done|].
  cbn. destruct (f b a); cbn; [apply IH|done].
Qed.

(** A run of steps that only look. *)
Lemma iterM_reads {A} (f : A → SE S E unit) l s :
  (∀ a, a ∈ l → f a s = (Ok tt, s)) → iterM f l s = (Ok tt, s).
Proof.
  induction l as [|a l IH]; intros Hf; [done|]. cbn.
  rewrite (SE_bind_run _ _ _ _ _ (Hf a ltac:(by left))). apply IH.
  intros b Hb. apply Hf. by right.
Qed.

(** An invariant of the step is an invariant of the run. *)
Lemma iterM_inv {A} (P : S → Prop) (f : A → SE S E unit) l s s' :
  (∀ a s s', a ∈ l → f a s = (Ok tt, s') → P s → P s') →
  iterM f l s = (Ok tt, s') → P s → P s'.
Proof.
  revert s. induction l as [|a l IH]; intros s Hstep; cbn.
  - intros [= <-]. done.
  - intros ([] & s1 & H1 & H2)%SE_bind_Ok HP.
    eapply IH; [|exact H2|].
    + intros ??? Hin. apply Hstep. by right.
    + eapply Hstep; [by left|exact H1|done].
Qed.

(** Induction over a successful run, with the processed prefix at hand. *)
Lemma iterM_ind {A} (P : list A → S → Prop) (f : A → SE S E unit) l s s' :
  P [] s →
  (∀ k a s1 s2, a ∈ l → P k s1 → f a s1 = (Ok tt, s2) → P (k ++ [a]) s2) →
  iterM f l s = (Ok tt, s') → P l s'.
Proof.
  revert P s. induction l as [|a l IH]; intros P s H0 Hstep; cbn.
  - intros [= <-]. done.
  - intros ([] & s1 & H1 & H2)%SE_bind_Ok.
    refine (IH (λ k, P (a :: k)) _ _ _ H2).
    + refine (Hstep [] a _ _ _ H0 H1). by left.
    + intros k b s2 s3 Hin. apply (Hstep (a :: k)). by right.
Qed.

Lemma foldM_inv {A B} (P : B → Prop) (f : B → A → Res E B) l b b' :
  (∀ a b b', a ∈ l → f b a = Ok b' → P b → P b') →
  foldM f b l = Ok b' → P b → P b'.
Proof.
  revert b. induction l as [|a l IH]; intros b Hstep; cbn.
  - intros [= <-]. done.
  - intros (b1 & H1 & H2)%Res_bind_Ok HP.
    eapply IH; [|exact H2|].
    + intros ??? Hin. apply Hstep. by right.
    + eapply Hstep; [by left|exact H1|done].
Qed.
End laws.

(** * Sums over lists *)
Definition sumZ {A} (f : A → Z) (l : list A) : Z := foldr (λ a z, f a + z) 0 l.

Arguments sumZ : simpl never.

Section sums.
Context {A : Type}.
Implicit Types (f g : A → Z) (l : list A).

Lemma sumZ_nil f : sumZ f [] = 0.
Proof. done. Qed.
Lemma sumZ_cons f a l : sumZ f (a :: l) = f a + sumZ f l.
Proof. done. Qed.
Lemma sumZ_app f l k : sumZ f (l ++ k) = sumZ f l + sumZ f k.
Proof. induction l as [|a l IH]; cbn [app]; rewrite ?sumZ_nil, ?sumZ_cons, ?IH; lia. Qed.
Lemma sumZ_snoc f l a : sumZ f (l ++ [a]) = sumZ f l + f a.
Proof. rewrite sumZ_app, sumZ_cons, sumZ_nil. lia. Qed.
Lemma sumZ_ext f g l : (∀ a, a ∈ l → f a = g a) → sumZ f l = sumZ g l.
Proof.
  induction l as [|a l IH]; intros H; [done|].
  rewrite !sumZ_cons, H, IH; [done| |by left]. intros; apply H; by right.
Qed.
Lemma sumZ_nonneg f l : (∀ a, a ∈ l → 0 ≤ f a) → 0 ≤ sumZ f l.
Proof.
  induction l as [|a l IH]; intros H; [done|]. rewrite sumZ_cons.
  assert (0 ≤ f a) by (apply H; by left).
  assert (0 ≤ sumZ f l) by (apply IH; intros; apply H; by right). lia.
Qed.
Lemma sumZ_add f g l : sumZ (λ a, f a + g a) l = sumZ f l + sumZ g l.
Proof. induction l as [|a l IH]; [done|]. rewrite !sumZ_cons, IH. lia. Qed.
Lemma sumZ_opp f l : sumZ (λ a, - f a) l = - sumZ f l.
Proof. induction l as [|a l IH]; [done|]. rewrite !sumZ_cons, IH. lia. Qed.
#[global] Instance sumZ_perm f : Proper ((≡ₚ) ==> (=)) (sumZ f).
Proof. induction 1; rewrite ?sumZ_cons in *; lia. Qed.
End sums.
Lemma sumZ_map {A} (f : A → Z) l : sumZ id (map f l) = sumZ f l.
Proof. induction l as [|a l IH]; [done|]. cbn [map]. by rewrite !sumZ_cons, IH. Qed.

(** * Updates that change nothing *)
Lemma list_alter_id_at {A} (f : A → A) (i : nat) (l : list A) :
  (∀ x, l !! i = Some x → f x = x) → alter f i l = l.
Proof. intros H. rewrite <-(list_alter_id id l i) at 2 by done. by apply list_alter_ext. Qed.

(** * Sorting by an integer key ([slice::sort_by_key], a stable sort) *)
Definition key_le {A} (key : A → Z) (a b : A) : Prop := key a ≤ key b.
#[global] Instance key_le_dec {A} (key : A → Z) : RelDecision (key_le key).
Proof. intros a b. unfold key_le. apply _. Defined.
#[global] Instance key_le_total {A} (key : A → Z) : Total (key_le key).
Proof. intros a b. unfold key_le. lia. Qed.
#[global] Instance key_le_trans {A} (key : A → Z) : Transitive (key_le key).
Proof. intros a b c. unfold key_le. lia. Qed.
Definition sort_by_key {A} (key : A → Z) (l : list A) : list A := merge_sort (key_le key) l.

Lemma sort_by_key_Permutation {A} (key : A → Z) l : sort_by_key key l ≡ₚ l.
Proof. apply merge_sort_Permutation. Qed.
Lemma sort_by_key_sorted {A} (key : A → Z) l : StronglySorted (key_le key) (sort_by_key key l).
Proof. apply StronglySorted_merge_sort; apply _. Qed.

(** With distinct keys the sorted arrangement is unique. *)
Lemma sort_by_key_unique {A} (key : A → Z) l k :
  (∀ a b, a ∈ l → b ∈ l → key a = key b → a = b) →
  l ≡ₚ k → StronglySorted (key_le key) k → sort_by_key key l = k.
Proof.
  intros Hinj Hperm Hk. apply (StronglySorted_unique_strong (key_le key)); [|by apply sort_by_key_sorted|done|].
  - intros a b Ha Hb Hab Hba. rewrite sort_by_key_Permutation in Ha. rewrite <-Hperm in Hb.
    apply Hinj; [done|done|]. unfold key_le in *. lia.
  - by rewrite sort_by_key_Permutation.
Qed.

(** The sort only looks at the keys. *)
Section sort_ext.
Context {A : Type} (f g : A → Z) (Hfg : ∀ a, f a = g a).

Lemma list_merge_key_ext (l k : list A) : list_merge (key_le f) l k = list_merge (key_le g) l k.
Proof.
  revert k. induction l as [|a l IH]; intros k; [by destruct k|].
  induction k as [|b k IHk]; [done|]. cbn [list_merge].
  destruct (decide (key_le f a b)) as [H|H]; unfold key_le in H; rewrite !Hfg in H.
  - rewrite decide_True by done. by rewrite IH.
  - rewrite decide_False by done. f_equal. exact IHk.
Qed.
Lemma merge_to_stack_key_ext st (l : list A) :
  merge_list_to_stack (key_le f) st l = merge_list_to_stack (key_le g) st l.
Proof.
  revert l. induction st as [|[k|] st IH]; intros l; cbn; [done| |done].
  by rewrite list_merge_key_ext, IH.
Qed.
Lemma merge_stack_key_ext (st : list (option (list A))) :
  merge_stack (key_le f) st = merge_stack (key_le g) st.
Proof.
  induction st as [|[k|] st IH]; cbn; [done| |done]. by rewrite IH, list_merge_key_ext.
Qed.
Lemma sort_by_key_ext (l : list A) : sort_by_key f l = sort_by_key g l.
Proof.
  unfold sort_by_key, merge_sort. generalize (@nil (option (list A))).
  induction l as [|a l IH]; intros st; cbn; [apply merge_stack_key_ext|].
  by rewrite merge_to_stack_key_ext, IH.
Qed.
End sort_ext.

(** * Prefixes *)
Lemma prefix_snoc_inv {A} (k l : list A) x :
  k `prefix_of` l ++ [x] → k `prefix_of` l ∨ k = l ++ [x].
Proof.
  intros [m Hm]. destruct m as [|y m' _] using rev_ind.
  - right. by rewrite app_nil_r in Hm.
  - left. rewrite app_assoc in Hm. apply app_inj_2 in Hm as [-> _]; [by exists m'|done].
Qed.

(** * Automation *)
Create HintDb ledger discriminated.
Create Rewrite HintDb ledger.
#[export] Hint Rewrite @sumZ_nil @sumZ_cons @sumZ_app : ledger.
#[export] Hint Resolve i64_try_from_in wrap_i64_id : ledger.

(** Range side conditions. *)
Ltac solve_i64 := unfold in_i64, i64_min, i64_max in *; first [lia | nia].

(** Inverts a successful monadic run into its steps, one hypothesis per step. *)
Ltac inv_step :=
  match goal with
  | H : (_ ≫= _) _ = (Ok _, _) |- _ =>
      apply SE_bind_Ok in H; destruct H as (? & ? & ? & ?)
  | H : (_ ≫= _) = Ok _ |- _ =>
      apply Res_bind_Ok in H; destruct H as (? & ? & ?)
  | H : gets _ _ = (Ok _, _) |- _ => injection H; clear H; intros; subst
  | H : modify _ _ = (Ok _, _) |- _ => injection H; clear H; intros; subst
  | H : mret _ _ = (Ok _, _) |- _ => injection H; clear H; intros; subst
  | H : lift _ _ = (Ok _, _) |- _ => unfold lift in H; injection H as H <-
  | H : throw _ _ = (Ok _, _) |- _ => discriminate H
  | H : ok_or _ _ = Ok _ |- _ => apply ok_or_Ok in H
  | H : or_panic _ = Ok _ |- _ => apply or_panic_Ok in H
  | H : Ok _ = Ok _ |- _ => injection H; clear H; intros; subst
  | H : Err _ = Ok _ |- _ => discriminate H
  | H : (if ?b then _ else throw _) _ = (Ok _, _) |- _ =>
      let E := fresh "Hcond" in destruct b eqn:E; [|discriminate H]
  | H : i64_try_from _ = Some _ |- _ =>
      apply i64_try_from_Some in H; destruct H as [-> H]
  | H : checked_add _ _ = Some _ |- _ =>
      apply checked_add_Some in H; destruct H as [-> H]
  | H : checked_sub _ _ = Some _ |- _ =>
      apply checked_sub_Some in H; destruct H as [-> H]
  | H : checked_abs _ = Some _ |- _ =>
      apply checked_abs_Some in H; destruct H as [-> H]
  | u : unit |- _ => destruct u
  end.
Ltac inv_run := repeat (inv_step; cbn beta iota zeta in *); simplify_eq.
