(* ===== verification/Numeric.v ===== *)
(** Rounding division: [ledger_core::numeric::banker_div] and the SQL function
    of the same name that the single-statement hot path calls. *)
From S2P Require Import Prelude.

(** * The Rust function (ledger-core/src/numeric.rs)

    [/] and [%] on [i128] truncate towards zero, so they are [Z.quot] and
    [Z.rem]; dividing by zero and a quotient outside [i64] panic. *)
Definition banker_div (numerator denominator : Z) : Res string Z :=
  if denominator =? 0 then Err "attempt to divide by zero"%string else
  let q := Z.quot numerator denominator in
  let r := Z.rem numerator denominator in
  let rounded :=
    if r =? 0 then q else
    let abs_r := Z.abs r in
    let abs_d := Z.abs denominator in
    let sign := if xorb (numerator <? 0) (denominator <? 0) then -1 else 1 in
    let twice_r := abs_r * 2 in
    if twice_r <? abs_d then q
    else if abs_d <? twice_r then q + sign
    else if Z.rem q 2 =? 0 then q else q + sign in
  match i64_try_from rounded with
  | Some x => Ok x
  | None => Err "banker_div: result overflows i64; pool value out of range"%string
  end.

(** * Specification: round to nearest, ties to even *)
Definition rounds_half_even (n d q : Z) : Prop :=
  2 * Z.abs (n - q * d) ≤ Z.abs d ∧
  (2 * Z.abs (n - q * d) = Z.abs d → Z.Even q).

Lemma rem_2_Even q : Z.rem q 2 = 0 ↔ Z.Even q.
Proof.
  rewrite Z.rem_divide by lia. split; intros [k Hk]; exists k; lia.
Qed.

Lemma not_Even_next q s : s = 1 ∨ s = -1 → ¬ Z.Even q → Z.Even (q + s).
Proof.
  intros Hs Hq. destruct (Z.Even_or_Odd q) as [?|[k ->]]; [done|].
  destruct Hs as [-> | ->]; [exists (k + 1) | exists k]; lia.
Qed.

(** At most one integer is the half-even rounding of a quotient. *)
Lemma rounds_half_even_unique n d q1 q2 :
  d ≠ 0 → rounds_half_even n d q1 → rounds_half_even n d q2 → q1 = q2.
Proof.
  intros Hd [H1 T1] [H2 T2]. destruct (decide (q1 = q2)) as [|Hne]; [done|].
  assert (Z.abs ((q1 - q2) * d) = Z.abs (q1 - q2) * Z.abs d) as Habs by apply Z.abs_mul.
  assert (Z.abs (q1 - q2) = 1) as Hdiff by nia.
  assert (2 * Z.abs (n - q1 * d) = Z.abs d) as E1 by nia.
  assert (2 * Z.abs (n - q2 * d) = Z.abs d) as E2 by nia.
  destruct (T1 E1) as [k1 ->], (T2 E2) as [k2 ->]. lia.
Qed.

(** The rounding step of the code, before the [i64] conversion. *)
Definition banker_round (n d : Z) : Z :=
  let q := Z.quot n d in
  let r := Z.rem n d in
  if r =? 0 then q else
  let sign := if xorb (n <? 0) (d <? 0) then -1 else 1 in
  if Z.abs r * 2 <? Z.abs d then q
  else if Z.abs d <? Z.abs r * 2 then q + sign
  else if Z.rem q 2 =? 0 then q else q + sign.

Lemma banker_div_unfold n d :
  banker_div n d =
    if d =? 0 then Err "attempt to divide by zero"%string else
    match i64_try_from (banker_round n d) with
    | Some x => Ok x
    | None => Err "banker_div: result overflows i64; pool value out of range"%string
    end.
Proof. done. Qed.

(** A choice between the truncated quotient and its neighbour away from zero
    that is right about the remainder is the half-even rounding. *)
Lemma neighbour_rounds_half_even n d q r s :
  d ≠ 0 → n = d * q + r → Z.abs r ≤ Z.abs d →
  s = (if xorb (n <? 0) (d <? 0) then -1 else 1) →
  (n < 0 → r ≤ 0) → (0 ≤ n → 0 ≤ r) →
  (Z.abs r * 2 ≤ Z.abs d → (Z.abs r * 2 = Z.abs d → Z.Even q) → rounds_half_even n d q) ∧
  (r ≠ 0 → Z.abs d ≤ Z.abs r * 2 → (Z.abs r * 2 = Z.abs d → ¬ Z.Even q) →
   rounds_half_even n d (q + s)).
Proof.
  intros Hd Hn Hr Hs Hneg Hpos. unfold rounds_half_even.
  assert (n - q * d = r) as -> by lia. split; [intros ? Heven; split; [lia|intros; apply Heven; lia]|].
  intros Hr0 Hge Hodd.
  assert (n - (q + s) * d = r - s * d) as -> by lia.
  assert (Z.abs (r - s * d) = Z.abs d - Z.abs r) as ->.
  { destruct (Z.ltb_spec n 0), (Z.ltb_spec d 0); cbn in Hs; subst s; lia. }
  split; [lia|]. intros. apply not_Even_next.
  - destruct (xorb _ _); lia.
  - apply Hodd. lia.
Qed.

Lemma banker_round_spec n d : d ≠ 0 → rounds_half_even n d (banker_round n d).
Proof.
  intros Hd. unfold banker_round.
  pose proof (Z.quot_rem' n d) as Hqr.
  pose proof (Z.rem_bound_abs n d Hd) as Hb.
  edestruct (neighbour_rounds_half_even n d (Z.quot n d) (Z.rem n d)) as [Hkeep Hmove];
    [done|exact Hqr|lia|reflexivity
    |intros; apply Z.rem_nonpos; lia|intros; apply Z.rem_nonneg; lia|].
  repeat case_match; rewrite ?Z.eqb_eq, ?Z.eqb_neq, ?Z.ltb_lt, ?Z.ltb_ge in *;
    first [apply Hkeep | apply Hmove]; try lia; rewrite <-?rem_2_Even; lia.
Qed.

Lemma banker_div_Ok n d q :
  banker_div n d = Ok q ↔ d ≠ 0 ∧ rounds_half_even n d q ∧ in_i64 q.
Proof.
  rewrite banker_div_unfold. destruct (Z.eqb_spec d 0) as [->|Hd].
  { split; [done|]. intros [? _]. done. }
  pose proof (banker_round_spec n d Hd) as Hspec. split.
  - destruct (i64_try_from _) eqn:E; [|done]. intros [= ->].
    apply i64_try_from_Some in E as [-> ?]. done.
  - intros (_ & Hq & Hin).
    rewrite (rounds_half_even_unique n d _ _ Hd Hspec Hq).
    by rewrite i64_try_from_in.
Qed.

Lemma banker_div_round n d :
  d ≠ 0 → in_i64 (banker_round n d) → banker_div n d = Ok (banker_round n d).
Proof. intros. apply banker_div_Ok. eauto using banker_round_spec. Qed.

(** The rounding never leaves an interval with integer ends that holds the
    exact quotient: an average of unit costs is between the least and the
    greatest of them. *)
Lemma rounds_half_even_between n d q lo hi :
  0 < d → rounds_half_even n d q → lo * d ≤ n → n ≤ hi * d → lo ≤ q ≤ hi.
Proof. intros Hd [Hq _] Hlo Hhi. nia. Qed.

Lemma banker_round_between n d lo hi :
  0 < d → lo * d ≤ n → n ≤ hi * d → lo ≤ banker_round n d ≤ hi.
Proof.
  intros Hd. apply rounds_half_even_between; [done|]. apply banker_round_spec. lia.
Qed.

Lemma banker_div_between n d lo hi :
  0 < d → in_i64 lo → in_i64 hi → lo * d ≤ n → n ≤ hi * d →
  ∃ q, banker_div n d = Ok q ∧ lo ≤ q ≤ hi.
Proof.
  intros Hd Hlo Hhi H1 H2. pose proof (banker_round_between n d lo hi Hd H1 H2).
  exists (banker_round n d). split; [|done]. apply banker_div_round; [lia|].
  unfold in_i64 in *. lia.
Qed.

Lemma banker_div_exact q d : d ≠ 0 → in_i64 q → banker_div (q * d) d = Ok q.
Proof.
  intros Hd Hq. apply banker_div_Ok. split; [done|]. split; [|done].
  unfold rounds_half_even. rewrite Z.sub_diag. lia.
Qed.

(** C40: for a nonzero divisor [banker_div] returns exactly the nearest integer
    to the quotient, ties to even, when that integer fits an [i64]; it panics
    with the range message when it does not, and on a zero divisor. *)
Theorem banker_div_correct n d :
  (∀ q, banker_div n d = Ok q ↔ d ≠ 0 ∧ rounds_half_even n d q ∧ in_i64 q) ∧
  (∀ msg, banker_div n d = Err msg ↔
     (d = 0 ∧ msg = "attempt to divide by zero"%string) ∨
     (d ≠ 0 ∧ (∀ q, rounds_half_even n d q → ¬ in_i64 q) ∧
      msg = "banker_div: result overflows i64; pool value out of range"%string)).
Proof.
  split; [apply banker_div_Ok|]. intros msg. rewrite banker_div_unfold.
  destruct (Z.eqb_spec d 0) as [->|Hd]; [naive_solver|].
  pose proof (banker_round_spec n d Hd) as Hspec.
  unfold i64_try_from. case_decide as Hin; split; [done| |intros [= <-]; right|].
  - intros [[? _]|(_ & Hout & _)]; [done|]. by destruct (Hout _ Hspec).
  - split_and!; [done| |done]. intros q Hq.
    by rewrite <-(rounds_half_even_unique n d _ _ Hd Hspec Hq).
  - intros [[? _]|(_ & _ & ->)]; done.
Qed.

(** * The SQL function (db/migrations/0010_banker_div.up.sql)

    [trunc(numerator / denominator)] is PostgreSQL's [numeric] division, which
    rounds the quotient to a finite scale before [trunc] cuts it.  What the
    function relies on is stated as a law: below [10^15] the quotient keeps
    fractional digits, so truncating it gives the truncated quotient, except
    that a fraction above one half may have been rounded up to the next
    integer. *)
Class PgNumeric := numeric_div_trunc : Z → Z → Z.
Class PgNumericLaws `{PgNumeric} : Prop :=
  numeric_div_trunc_law n d :
    d ≠ 0 → Z.abs n < 10 ^ 15 * Z.abs d →
    numeric_div_trunc n d = Z.quot n d ∨
    (Z.abs d < 2 * Z.abs (Z.rem n d) ∧
     numeric_div_trunc n d = Z.quot n d + (if xorb (n <? 0) (d <? 0) then -1 else 1)).

(** SQLSTATE codes raised by arithmetic: [22012] division by zero, [22003]
    bigint out of range. *)
Definition to_bigint (z : Z) : Res string Z := ok_or (i64_try_from z) "22003"%string.

Definition sql_banker_div `{PgNumeric} (numerator denominator : Z) : Res string Z :=
  if denominator =? 0 then Err "22012"%string else
  let q := numeric_div_trunc numerator denominator in
  let r := numerator - numeric_div_trunc numerator denominator * denominator in
  let abs_d := Z.abs denominator in
  let sgn := if xorb (numerator <? 0) (denominator <? 0) then -1 else 1 in
  to_bigint
    (if r =? 0 then q
     else if Z.abs r * 2 <? abs_d then q
     else if abs_d <? Z.abs r * 2 then q + sgn
     else if Z.rem q 2 =? 0 then q
     else q + sgn).

Lemma sql_banker_div_round `{PgNumericLaws} n d :
  d ≠ 0 → Z.abs n < 10 ^ 15 * Z.abs d →
  sql_banker_div n d = to_bigint (banker_round n d).
Proof.
  intros Hd Hn. unfold sql_banker_div. destruct (Z.eqb_spec d 0) as [|_]; [done|].
  f_equal. pose proof (Z.quot_rem' n d) as Hqr.
  destruct (numeric_div_trunc_law n d Hd Hn) as [Hq|[Hbig Hq]].
  - rewrite Hq. unfold banker_round.
    replace (n - Z.quot n d * d) with (Z.rem n d) by lia. done.
  - apply (rounds_half_even_unique n d); [done| |by apply banker_round_spec].
    pose proof (Z.rem_bound_abs n d Hd) as Hb.
    pose proof (Z.rem_nonpos n d Hd). pose proof (Z.rem_nonneg n d Hd).
    set (sgn := if xorb _ _ then -1 else 1) in *.
    assert (Z.abs (n - numeric_div_trunc n d * d) = Z.abs d - Z.abs (Z.rem n d)) as Hr.
    { rewrite Hq. replace (n - (Z.quot n d + sgn) * d) with (Z.rem n d - sgn * d) by lia.
      subst sgn. destruct (Z.ltb_spec n 0), (Z.ltb_spec d 0); cbn; lia. }
    rewrite Hr. destruct (Z.eqb_spec (n - numeric_div_trunc n d * d) 0) as [E|_];
      [|destruct (Z.ltb_spec ((Z.abs d - Z.abs (Z.rem n d)) * 2) (Z.abs d)); [|lia]];
      unfold rounds_half_even; rewrite ?Hr; try lia.
Qed.

(** The SQL [banker_div] gives the same quotient as the Rust one, and raises
    [22003] exactly where the Rust one panics, whenever the quotient is below
    [10^15] in absolute value. *)
Theorem sql_banker_div_faithful `{PgNumericLaws} n d :
  d ≠ 0 → Z.abs n < 10 ^ 15 * Z.abs d →
  (∀ q, sql_banker_div n d = Ok q ↔ banker_div n d = Ok q) ∧
  ((∃ m, banker_div n d = Err m) ↔ sql_banker_div n d = Err "22003"%string).
Proof.
  intros Hd Hn. rewrite (sql_banker_div_round n d Hd Hn), banker_div_unfold.
  destruct (Z.eqb_spec d 0) as [|_]; [done|]. unfold to_bigint.
  destruct (i64_try_from _); cbn; naive_solver.
Qed.

(** Exact truncating division satisfies the law. *)
#[local] Instance exact_numeric : PgNumeric := Z.quot.
#[local] Instance exact_numeric_laws : PgNumericLaws.
Proof. intros n d _ _. by left. Qed.

Lemma sql_banker_div_faithful_witness :
  sql_banker_div 7 2 = Ok 4 ∧
  ((∀ q, sql_banker_div 7 2 = Ok q ↔ banker_div 7 2 = Ok q) ∧
   ((∃ m, banker_div 7 2 = Err m) ↔ sql_banker_div 7 2 = Err "22003"%string)).
Proof.
  split; [reflexivity|]. apply (sql_banker_div_faithful 7 2); lia.
Defined.
