(* ===== verification/Plan.v ===== *)
(** The vocabulary of ledger-core: line and event types, cost methods, errors,
    the submission's input lines and the plan that [plan_apply] returns, with
    the text codecs of the SQL enums and [PlanResult::coalesce_aggregates]. *)
From S2P Require Import Prelude.

(** * Cost methods and errors (method.rs, error.rs) *)
Inductive PoolMethod : Type := Fifo | Lifo | Wac | Std | Specific.
#[global] Instance PoolMethod_eq_dec : EqDecision PoolMethod.
Proof. solve_decision. Defined.

Inductive ProvisionalBasis : Type := RunningAvg | Standard.
#[global] Instance ProvisionalBasis_eq_dec : EqDecision ProvisionalBasis.
Proof. solve_decision. Defined.

Inductive LedgerError : Type :=
| InsufficientInventory (pool_id requested available : Z)
| MethodMismatch (pool_id : Z) (expected got : PoolMethod)
| UnknownPool (pool_id : Z)
| MissingStandardCost (sku_id location_id : Z)
| MissingPostingAccounts (sku_id location_id : Z)
| MissingVarianceAccount (pool_id : Z)
| SpecificPoolOccupied (pool_id existing_qty : Z)
| Overflow (detail : string).
#[global] Instance LedgerError_eq_dec : EqDecision LedgerError.
Proof. solve_decision. Defined.

(** * Line types and their SQL text (plan.rs, ledger-spi-common/line_type.rs) *)
Inductive LineType : Type :=
| PoReceiptLine | WoOutput | WoBackflush | WoScrap | InvAdjustmentLine
| TransferShipmentLine | TransferReceiptLine | ManualAdjustmentLine | RevaluationLine.
#[global] Instance LineType_eq_dec : EqDecision LineType.
Proof. solve_decision. Defined.

Definition line_type_as_sql (t : LineType) : string :=
  match t with
  | PoReceiptLine => "po_receipt_line"
  | WoOutput => "wo_output"
  | WoBackflush => "wo_backflush"
  | WoScrap => "wo_scrap"
  | InvAdjustmentLine => "inv_adjustment_line"
  | TransferShipmentLine => "transfer_shipment_line"
  | TransferReceiptLine => "transfer_receipt_line"
  | ManualAdjustmentLine => "manual_adjustment_line"
  | RevaluationLine => "revaluation_line"
  end%string.

Definition decode_line_type (s : string) : option LineType :=
  if decide (s = "po_receipt_line"%string) then Some PoReceiptLine
  else if decide (s = "wo_output"%string) then Some WoOutput
  else if decide (s = "wo_backflush"%string) then Some WoBackflush
  else if decide (s = "wo_scrap"%string) then Some WoScrap
  else if decide (s = "inv_adjustment_line"%string) then Some InvAdjustmentLine
  else if decide (s = "transfer_shipment_line"%string) then Some TransferShipmentLine
  else if decide (s = "transfer_receipt_line"%string) then Some TransferReceiptLine
  else if decide (s = "manual_adjustment_line"%string) then Some ManualAdjustmentLine
  else if decide (s = "revaluation_line"%string) then Some RevaluationLine
  else None.

Inductive PostingEventType : Type :=
| InventoryReceipt | InventoryDepletion | WipMovement | Variance | Scrap
| Adjustment | Revaluation.
#[global] Instance PostingEventType_eq_dec : EqDecision PostingEventType.
Proof. solve_decision. Defined.

Definition posting_event_type_as_sql (t : PostingEventType) : string :=
  match t with
  | InventoryReceipt => "inventory_receipt"
  | InventoryDepletion => "inventory_depletion"
  | WipMovement => "wip_movement"
  | Variance => "variance"
  | Scrap => "scrap"
  | Adjustment => "adjustment"
  | Revaluation => "revaluation"
  end%string.

Lemma decode_as_sql t : decode_line_type (line_type_as_sql t) = Some t.
Proof. by destruct t. Qed.

(** [decode_line_type] inverts [LineType::as_sql] in both directions: a text
    decodes to [t] exactly when it is the SQL label of [t], so every label
    round-trips and every other text is rejected. *)
Theorem decode_line_type_iff s t : decode_line_type s = Some t ↔ s = line_type_as_sql t.
Proof.
  split; [|intros ->; apply decode_as_sql].
  unfold decode_line_type. repeat case_decide; intros [= <-]; done.
Qed.

(** * Submission lines and plans (plan.rs)

    [DateTime<Utc>] values are only carried along and compared; they are
    integers (microseconds since the epoch, PostgreSQL's resolution). *)
Abbreviation Timestamp := Z (only parsing).

Record TrxLineRequest := {
  req_pool_id : Z;
  req_line_type : LineType;
  req_source_id : option Z;
  req_qty : Z;
  req_unit_cost : Z;
}.

Record TrxLineOutput := {
  out_pool_id : Z;
  out_qty : Z;
  out_unit_cost : Z;
  out_source_trx_line_id : option Z;
  out_line_type : LineType;
  out_source_id : option Z;
}.

Inductive PoolStateMutation : Type :=
| UpsertAggregate (pool_id qty unit_cost value_sum : Z)
| InsertLayer (pool_id : Z) (layer_trx_line_idx : nat) (qty unit_cost value_sum : Z)
| DeleteLayer (pool_id layer_id : Z).
#[global] Instance PoolStateMutation_eq_dec : EqDecision PoolStateMutation.
Proof. solve_decision. Defined.

Record PostingLineRequest := {
  pst_trx_line_idx : nat;
  pst_event_type : PostingEventType;
  pst_amount : Z;
  pst_debit_account : Z;
  pst_credit_account : Z;
  pst_posted_at : Timestamp;
}.

Record PlanResult := {
  trx_lines : list TrxLineOutput;
  pool_state_mutations : list PoolStateMutation;
  posting_lines : list PostingLineRequest;
}.
Definition plan_default : PlanResult :=
  {| trx_lines := []; pool_state_mutations := []; posting_lines := [] |}.

Definition push_trx_line (o : TrxLineOutput) (r : PlanResult) : PlanResult :=
  {| trx_lines := trx_lines r ++ [o];
     pool_state_mutations := pool_state_mutations r;
     posting_lines := posting_lines r |}.
Definition push_mutation (m : PoolStateMutation) (r : PlanResult) : PlanResult :=
  {| trx_lines := trx_lines r;
     pool_state_mutations := pool_state_mutations r ++ [m];
     posting_lines := posting_lines r |}.
Definition push_posting (p : PostingLineRequest) (r : PlanResult) : PlanResult :=
  {| trx_lines := trx_lines r;
     pool_state_mutations := pool_state_mutations r;
     posting_lines := posting_lines r ++ [p] |}.

(** * [PlanResult::coalesce_aggregates]

    The code first records, per pool, the index of its last [UpsertAggregate]
    (the [last_idx] map), returns early when there is nothing to drop, and
    otherwise keeps every layer mutation and the aggregates at their recorded
    index. *)
Definition mutation_aggregate_pool (m : PoolStateMutation) : option Z :=
  match m with UpsertAggregate p _ _ _ => Some p | _ => None end.

Fixpoint last_idx_from (i : nat) (ms : list PoolStateMutation) (acc : gmap Z nat) : gmap Z nat :=
  match ms with
  | [] => acc
  | m :: ms =>
      last_idx_from (S i) ms
        (match mutation_aggregate_pool m with
         | Some p => <[p := i]> acc
         | None => acc
         end)
  end.

Fixpoint keep_last_from (i : nat) (last_idx : gmap Z nat) (ms : list PoolStateMutation)
    : list PoolStateMutation :=
  match ms with
  | [] => []
  | m :: ms =>
      let kept := keep_last_from (S i) last_idx ms in
      match mutation_aggregate_pool m with
      | Some p => if decide (last_idx !! p = Some i) then m :: kept else kept
      | None => m :: kept
      end
  end.

Definition coalesce_mutations (ms : list PoolStateMutation) : list PoolStateMutation :=
  let last_idx := last_idx_from 0 ms ∅ in
  if bool_decide (size last_idx = length ms) &&
     forallb (λ m, bool_decide (is_Some (mutation_aggregate_pool m))) ms
  then ms
  else keep_last_from 0 last_idx ms.

Definition coalesce_aggregates (r : PlanResult) : PlanResult :=
  {| trx_lines := trx_lines r;
     pool_state_mutations := coalesce_mutations (pool_state_mutations r);
     posting_lines := posting_lines r |}.

(** The pools that have an aggregate upsert in a mutation list. *)
Definition aggregate_pools (ms : list PoolStateMutation) : list Z :=
  omap mutation_aggregate_pool ms.

(** Reference definition: drop an upsert when a later one targets its pool. *)
Fixpoint keep_last (ms : list PoolStateMutation) : list PoolStateMutation :=
  match ms with
  | [] => []
  | m :: ms =>
      match mutation_aggregate_pool m with
      | Some p => if decide (p ∈ aggregate_pools ms) then keep_last ms else m :: keep_last ms
      | None => m :: keep_last ms
      end
  end.

Lemma last_idx_from_notin i ms acc p :
  p ∉ aggregate_pools ms → last_idx_from i ms acc !! p = acc !! p.
Proof.
  revert i acc. induction ms as [|m ms IH]; intros i acc Hp; [done|]. cbn in *.
  destruct (mutation_aggregate_pool m) as [p'|]; cbn in Hp.
  - apply not_elem_of_cons in Hp as [Hne Hp]. rewrite IH by done.
    by rewrite lookup_insert_ne.
  - by apply IH.
Qed.

Lemma last_idx_from_in i ms acc p :
  p ∈ aggregate_pools ms → ∃ j, (i ≤ j)%nat ∧ last_idx_from i ms acc !! p = Some j.
Proof.
  revert i acc. induction ms as [|m ms IH]; intros i acc Hp; cbn in *.
  { by apply not_elem_of_nil in Hp. }
  destruct (decide (p ∈ aggregate_pools ms)) as [Hin|Hout].
  { destruct (IH (S i) (match mutation_aggregate_pool m with
                        | Some p => <[p := i]> acc | None => acc end) Hin) as (j&?&?).
    exists j. split; [lia|done]. }
  rewrite last_idx_from_notin by done.
  destruct (mutation_aggregate_pool m) as [p'|]; [|done].
  apply elem_of_cons in Hp as [->|]; [|done].
  exists i. by rewrite lookup_insert_eq.
Qed.

Lemma keep_last_from_keep_last i ms acc :
  keep_last_from i (last_idx_from i ms acc) ms = keep_last ms.
Proof.
  revert i acc. induction ms as [|m ms IH]; intros i acc; [done|]. cbn.
  destruct (mutation_aggregate_pool m) as [p|] eqn:Em; rewrite IH; [|done].
  case_decide as Hl; case_decide as Hin; try done; exfalso.
  - destruct (last_idx_from_in (S i) ms (<[p:=i]> acc) p Hin) as (j&?&Hj).
    rewrite Hj in Hl. injection Hl as ->. lia.
  - apply Hl. rewrite last_idx_from_notin by done. apply lookup_insert_eq.
Qed.

Lemma dom_last_idx_from i ms acc :
  dom (last_idx_from i ms acc) = list_to_set (aggregate_pools ms) ∪ dom acc.
Proof.
  revert i acc. induction ms as [|m ms IH]; intros i acc; cbn; [set_solver|].
  rewrite IH. destruct (mutation_aggregate_pool m) as [p|]; cbn; [|done].
  rewrite dom_insert_L. set_solver.
Qed.

Lemma size_list_to_set_le (l : list Z) : (size (list_to_set l : gset Z) ≤ length l)%nat.
Proof.
  induction l as [|x l IH]; [apply Nat.le_refl|].
  change (list_to_set (x :: l)) with ({[x]} ∪ list_to_set l : gset Z).
  rewrite size_union_alt, size_singleton. cbn [length].
  assert (size (list_to_set l ∖ {[x]} : gset Z) ≤ size (list_to_set l : gset Z))%nat
    by (apply subseteq_size; set_solver). lia.
Qed.

Lemma size_list_to_set_NoDup (l : list Z) :
  size (list_to_set l : gset Z) = length l → NoDup l.
Proof.
  induction l as [|x l IH]; [constructor|].
  change (list_to_set (x :: l)) with ({[x]} ∪ list_to_set l : gset Z).
  cbn [length]. intros Hsz. pose proof (size_list_to_set_le l) as Hle.
  assert (x ∉ l) as Hx.
  { intros Hin. replace ({[x]} ∪ list_to_set l : gset Z)
      with (list_to_set l : gset Z) in Hsz by set_solver. lia. }
  constructor; [done|]. apply IH. rewrite size_union in Hsz by set_solver.
  rewrite size_singleton in Hsz. lia.
Qed.

Lemma keep_last_NoDup ms : NoDup (aggregate_pools ms) → keep_last ms = ms.
Proof.
  induction ms as [|m ms IH]; [done|]. cbn.
  destruct (mutation_aggregate_pool m) as [p|]; cbn; intros Hnd.
  - apply NoDup_cons in Hnd as [Hp Hnd]. rewrite decide_False by done. by rewrite IH.
  - by rewrite IH.
Qed.

Lemma forallb_aggregate_length ms :
  forallb (λ m, bool_decide (is_Some (mutation_aggregate_pool m))) ms = true →
  length (aggregate_pools ms) = length ms.
Proof.
  induction ms as [|m ms IH]; [done|]. cbn. intros [[p Hp]%bool_decide_eq_true ?]%andb_prop.
  rewrite Hp. cbn. f_equal. by apply IH.
Qed.

Lemma coalesce_mutations_keep_last ms : coalesce_mutations ms = keep_last ms.
Proof.
  unfold coalesce_mutations. destruct (_ && _) eqn:E; [|apply keep_last_from_keep_last].
  apply andb_prop in E as [Hsz%bool_decide_eq_true Hall].
  symmetry. apply keep_last_NoDup, size_list_to_set_NoDup.
  rewrite (forallb_aggregate_length ms Hall), <-Hsz.
  rewrite <-(size_dom (D:=gset Z)), dom_last_idx_from, dom_empty_L, union_empty_r_L. done.
Qed.
