(* ===== verification/Snapshot.v ===== *)
(** [ledger_core::snapshot]: the pre-apply state of the touched pools, its
    accessors, and the state-and-error monad the cost methods run in. *)
From S2P Require Import Prelude Plan.

(** * Posting accounts *)
Record PostingAccounts := {
  acc_receipt : Z * Z;
  acc_transfer : Z * Z;
  acc_build : Z * Z;
  acc_scrap : Z * Z;
  acc_adjustment : Z * Z;
  acc_revaluation : Z * Z;
  acc_variance : option Z;
}.

(** [PostingAccounts::pair_for]: the (debit, credit) pair in receipt direction. *)
Definition pair_for (a : PostingAccounts) (t : LineType) : Z * Z :=
  match t with
  | PoReceiptLine => acc_receipt a
  | TransferReceiptLine | TransferShipmentLine => acc_transfer a
  | WoOutput | WoBackflush => acc_build a
  | WoScrap => acc_scrap a
  | InvAdjustmentLine | ManualAdjustmentLine => acc_adjustment a
  | RevaluationLine => acc_revaluation a
  end.

(** * Pool rows and snapshots *)
Record PoolStateRow := {
  row_layer_id : Z;
  row_qty : Z;
  row_unit_cost : Z;
  row_value_sum : Z;
}.

Record Snapshot := {
  pools : gmap Z (list PoolStateRow);
  method_of : gmap Z PoolMethod;
  sku_location_of : gmap Z (Z * Z);
  standard_cost_of : gmap Z Z;
  posting_accounts_of : gmap Z PostingAccounts;
}.

Definition snapshot_default : Snapshot :=
  {| pools := ∅; method_of := ∅; sku_location_of := ∅;
     standard_cost_of := ∅; posting_accounts_of := ∅ |}.

Definition with_pools (s : Snapshot) (ps : gmap Z (list PoolStateRow)) : Snapshot :=
  {| pools := ps; method_of := method_of s; sku_location_of := sku_location_of s;
     standard_cost_of := standard_cost_of s; posting_accounts_of := posting_accounts_of s |}.

Definition is_aggregate_row (r : PoolStateRow) : bool := row_layer_id r =? 0.

(** [Snapshot::aggregate]: the first row with [layer_id = 0]. *)
Definition aggregate (s : Snapshot) (pool_id : Z) : option PoolStateRow :=
  rows ← pools s !! pool_id; List.find is_aggregate_row rows.

(** [Snapshot::read_aggregate]: (qty, unit_cost, value_sum, existed). *)
Definition read_aggregate (s : Snapshot) (pool_id : Z) : Z * Z * Z * bool :=
  match aggregate s pool_id with
  | Some r => (row_qty r, row_unit_cost r, row_value_sum r, true)
  | None => (0, 0, 0, false)
  end.

Definition sku_location (s : Snapshot) (pool_id : Z) : Z * Z :=
  default (0, 0) (sku_location_of s !! pool_id).

(** [Snapshot::resolve_posting_accounts]. *)
Definition resolve_posting_accounts (s : Snapshot) (pool_id : Z)
    : Res LedgerError PostingAccounts :=
  match posting_accounts_of s !! pool_id with
  | Some a => Ok a
  | None =>
      let '(sku_id, location_id) := sku_location s pool_id in
      Err (MissingPostingAccounts sku_id location_id)
  end.

(** The row update of [put_aggregate]: overwrite the first aggregate row in
    place, or push one at the end. *)
Fixpoint put_aggregate_row (qty unit_cost value_sum : Z) (rows : list PoolStateRow)
    : list PoolStateRow :=
  match rows with
  | [] => [{| row_layer_id := 0; row_qty := qty; row_unit_cost := unit_cost;
              row_value_sum := value_sum |}]
  | r :: rows =>
      if is_aggregate_row r
      then {| row_layer_id := row_layer_id r; row_qty := qty; row_unit_cost := unit_cost;
              row_value_sum := value_sum |} :: rows
      else r :: put_aggregate_row qty unit_cost value_sum rows
  end.

(** [Snapshot::put_aggregate]. *)
Definition put_aggregate (pool_id qty unit_cost value_sum : Z) (s : Snapshot) : Snapshot :=
  with_pools s
    (<[pool_id := put_aggregate_row qty unit_cost value_sum
                    (default [] (pools s !! pool_id))]> (pools s)).

(** * The monad of the cost methods

    The state is the pair of [&mut] arguments (snapshot, result); the error is
    a returned [LedgerError] or a panic. *)
Abbreviation Core := (SE (Snapshot * PlanResult) (Fault LedgerError)).

Definition snapshot : Core Snapshot := gets fst.
Definition trx_line_count : Core nat := gets (λ st, length (trx_lines st.2)).
Definition update_snapshot (f : Snapshot → Snapshot) : Core unit :=
  modify (λ st, (f st.1, st.2)).
Definition update_result (f : PlanResult → PlanResult) : Core unit :=
  modify (λ st, (st.1, f st.2)).
Definition fails {A} (e : LedgerError) : Core A := throw (Returned e).
Definition returns {A} (r : Res LedgerError A) : Core A :=
  lift (match r with Ok a => Ok a | Err e => Err (Returned e) end).
Definition some_or {A} (o : option A) (e : LedgerError) : Core A :=
  match o with Some a => mret a | None => fails e end.
Definition overflow (detail : string) (pool_id : Z) : LedgerError :=
  Overflow (detail +:+ " on pool " +:+ pretty pool_id).

Lemma returns_Ok {A} (r : Res LedgerError A) st a st' :
  returns r st = (Ok a, st') ↔ r = Ok a ∧ st' = st.
Proof. unfold returns, lift. destruct r; naive_solver. Qed.
Lemma some_or_Ok {A} (o : option A) e (st : Snapshot * PlanResult) a st' :
  some_or o e st = (Ok a, st') ↔ o = Some a ∧ st' = st.
Proof.
  destruct o; cbn; (split; [intros [=]; by simplify_eq|intros [[=] ->]; by subst]).
Qed.

(** * Lemmas on the accessors *)
Lemma find_put_aggregate_row q u v rows :
  List.find is_aggregate_row (put_aggregate_row q u v rows) =
    Some {| row_layer_id := 0; row_qty := q; row_unit_cost := u; row_value_sum := v |}.
Proof.
  induction rows as [|r rows IH]; [done|]. cbn.
  destruct (is_aggregate_row r) eqn:Er; cbn [List.find].
  - unfold is_aggregate_row in *. cbn. rewrite Er. by apply Z.eqb_eq in Er as ->.
  - by rewrite Er.
Qed.

Lemma aggregate_put_eq p q u v s :
  aggregate (put_aggregate p q u v s) p =
    Some {| row_layer_id := 0; row_qty := q; row_unit_cost := u; row_value_sum := v |}.
Proof.
  unfold aggregate, put_aggregate. cbn. rewrite lookup_insert_eq. apply find_put_aggregate_row.
Qed.

Lemma aggregate_put_ne p p' q u v s :
  p ≠ p' → aggregate (put_aggregate p q u v s) p' = aggregate s p'.
Proof. intros. unfold aggregate, put_aggregate. cbn. by rewrite lookup_insert_ne. Qed.

Lemma read_put_aggregate_eq p q u v s :
  read_aggregate (put_aggregate p q u v s) p = (q, u, v, true).
Proof. unfold read_aggregate. by rewrite aggregate_put_eq. Qed.

Lemma read_put_aggregate_ne p p' q u v s :
  p ≠ p' → read_aggregate (put_aggregate p q u v s) p' = read_aggregate s p'.
Proof. intros. unfold read_aggregate. by rewrite aggregate_put_ne. Qed.

(** The rows other than the aggregate are left alone. *)
Definition layer_rows (s : Snapshot) (p : Z) : list PoolStateRow :=
  List.filter (λ r, negb (is_aggregate_row r)) (default [] (pools s !! p)).

Lemma layer_rows_put p p' q u v s :
  layer_rows (put_aggregate p q u v s) p' = layer_rows s p'.
Proof.
  unfold layer_rows, put_aggregate. cbn. rewrite lookup_insert.
  case_decide; [subst p'|done]. cbn.
  induction (default [] (pools s !! p)) as [|r rows IH]; [done|]. cbn.
  destruct (is_aggregate_row r) eqn:Er; cbn.
  - unfold is_aggregate_row in *. cbn. by rewrite Er.
  - rewrite Er. cbn. by rewrite IH.
Qed.

(** Everything but [pools] is configuration: no method changes it. *)
Definition same_config (s s' : Snapshot) : Prop :=
  method_of s' = method_of s ∧ sku_location_of s' = sku_location_of s ∧
  standard_cost_of s' = standard_cost_of s ∧
  posting_accounts_of s' = posting_accounts_of s.
#[global] Instance same_config_equiv : Equivalence same_config.
Proof.
  split; unfold same_config.
  - done.
  - intros ?? (?&?&?&?). auto.
  - intros ??? (?&?&?&?) (?&?&?&?). split_and!; congruence.
Qed.
Lemma same_config_put p q u v s : same_config s (put_aggregate p q u v s).
Proof. done. Qed.
Lemma same_config_with_pools s ps : same_config s (with_pools s ps).
Proof. done. Qed.
#[export] Hint Resolve same_config_put same_config_with_pools : ledger.

(** Inverts a successful run of a cost method. *)
Ltac core_step :=
  match goal with
  | H : mret _ _ = (Ok _, _) |- _ => injection H; clear H; intros; subst
  | H : snapshot _ = (Ok _, _) |- _ => injection H; clear H; intros; subst
  | H : trx_line_count _ = (Ok _, _) |- _ => injection H; clear H; intros; subst
  | H : update_snapshot _ _ = (Ok _, _) |- _ => injection H; clear H; intros; subst
  | H : update_result _ _ = (Ok _, _) |- _ => injection H; clear H; intros; subst
  | H : fails _ _ = (Ok _, _) |- _ => discriminate H
  | H : returns _ _ = (Ok _, _) |- _ => apply returns_Ok in H; destruct H as [H ->]
  | H : some_or _ _ _ = (Ok _, _) |- _ => apply some_or_Ok in H; destruct H as [H ->]
  | H : (if ?b then fails _ else _) _ = (Ok _, _) |- _ =>
      let E := fresh "Hcond" in destruct b eqn:E; [discriminate H|]
  | H : match ?x with (_, _) => _ end _ = (Ok _, _) |- _ => destruct x eqn:?
  | H : match ?x with Eq => _ | Lt => _ | Gt => _ end _ = (Ok _, _) |- _ =>
      let E := fresh "Hcmp" in destruct x eqn:E
  | H : match ?x with Some _ => _ | None => _ end _ = (Ok _, _) |- _ =>
      let E := fresh "Hopt" in destruct x eqn:E
  | H : (if ?b then _ else _) _ = (Ok _, _) |- _ =>
      let E := fresh "Hcond" in destruct b eqn:E
  end.
Ltac core_inv := repeat (first [core_step | inv_step]; cbn beta iota zeta in *); simplify_eq.
