(* ===== verification/Wac.v ===== *)
(** [ledger_core::wac]: the running-average method.  One aggregate row per pool
    carries quantity, exact cumulative book value and the derived average. *)
From S2P Require Import Prelude Numeric Plan Snapshot.

(** * Operations (wac.rs) *)
Definition expect_method (s : Snapshot) (pool_id : Z) (expected : PoolMethod)
    : Res LedgerError unit :=
  match method_of s !! pool_id with
  | None => Err (UnknownPool pool_id)
  | Some got =>
      if decide (got = expected) then Ok tt
      else Err (MethodMismatch pool_id expected got)
  end.

Definition aggregate_receipt (line : TrxLineRequest) (posted_at : Timestamp) : Core unit :=
  let p := req_pool_id line in
  s ← snapshot;
  accounts ← returns (resolve_posting_accounts s p);
  let '(debit_account, credit_account) := pair_for accounts (req_line_type line) in
  let '(old_qty, old_unit_cost, old_value_sum, _) := read_aggregate s p in
  new_qty ← some_or (checked_add old_qty (req_qty line)) (overflow "receipt qty" p);
  let new_value_sum_i128 := old_value_sum + req_qty line * req_unit_cost line in
  new_value_sum ← some_or (i64_try_from new_value_sum_i128) (overflow "receipt value_sum" p);
  new_unit_cost ← (if 0 <? new_qty
                   then lift (or_panic (banker_div new_value_sum_i128 new_qty))
                   else mret old_unit_cost);
  trx_line_idx ← trx_line_count;
  update_result (push_trx_line
    {| out_pool_id := p; out_qty := req_qty line; out_unit_cost := req_unit_cost line;
       out_source_trx_line_id := None; out_line_type := req_line_type line;
       out_source_id := req_source_id line |});;
  update_result (push_mutation (UpsertAggregate p new_qty new_unit_cost new_value_sum));;
  update_snapshot (put_aggregate p new_qty new_unit_cost new_value_sum);;
  amount ← some_or (i64_try_from (req_qty line * req_unit_cost line))
             (overflow "receipt amount" p);
  update_result (push_posting
    {| pst_trx_line_idx := trx_line_idx; pst_event_type := InventoryReceipt;
       pst_amount := amount; pst_debit_account := debit_account;
       pst_credit_account := credit_account; pst_posted_at := posted_at |}).

Definition aggregate_deplete (line : TrxLineRequest) (posted_at : Timestamp)
    (applied_unit_cost : Z) : Core unit :=
  let p := req_pool_id line in
  s ← snapshot;
  accounts ← returns (resolve_posting_accounts s p);
  let '(rcv_debit, rcv_credit) := pair_for accounts (req_line_type line) in
  let debit_account := rcv_credit in
  let credit_account := rcv_debit in
  qty_to_deplete ← some_or (checked_abs (req_qty line)) (overflow "deplete qty.abs()" p);
  let '(current_qty, current_unit_cost, current_value_sum, _) := read_aggregate s p in
  if current_qty <? qty_to_deplete
  then fails (InsufficientInventory p qty_to_deplete current_qty) else
  let new_qty := wsub current_qty qty_to_deplete in
  trx_line_idx ← trx_line_count;
  update_result (push_trx_line
    {| out_pool_id := p; out_qty := req_qty line; out_unit_cost := applied_unit_cost;
       out_source_trx_line_id := None; out_line_type := req_line_type line;
       out_source_id := req_source_id line |});;
  amount ← some_or (i64_try_from (qty_to_deplete * applied_unit_cost))
             (overflow "deplete amount" p);
  new_value_sum ← (if new_qty =? 0 then mret 0
                   else some_or (checked_sub current_value_sum amount)
                          (overflow "deplete value_sum" p));
  new_unit_cost ← (if 0 <? new_qty
                   then lift (or_panic (banker_div new_value_sum new_qty))
                   else mret current_unit_cost);
  update_result (push_mutation (UpsertAggregate p new_qty new_unit_cost new_value_sum));;
  update_snapshot (put_aggregate p new_qty new_unit_cost new_value_sum);;
  update_result (push_posting
    {| pst_trx_line_idx := trx_line_idx; pst_event_type := InventoryDepletion;
       pst_amount := amount; pst_debit_account := debit_account;
       pst_credit_account := credit_account; pst_posted_at := posted_at |}).

Definition apply_wac (line : TrxLineRequest) (posted_at : Timestamp) : Core unit :=
  s ← snapshot;
  returns (expect_method s (req_pool_id line) Wac);;
  match req_qty line ?= 0 with
  | Eq => mret tt
  | Gt => aggregate_receipt line posted_at
  | Lt =>
      let '(_, applied_unit_cost, _, _) := read_aggregate s (req_pool_id line) in
      aggregate_deplete line posted_at applied_unit_cost
  end.

(** * Abstract specification of the running-average aggregate

    The state of one pool, and what a receipt and an issue do to it.  Both the
    Rust method here and the single-statement SQL of the hot path implement
    this specification. *)
Record Agg := { agg_qty : Z; agg_unit_cost : Z; agg_value : Z }.
Definition agg_empty : Agg := {| agg_qty := 0; agg_unit_cost := 0; agg_value := 0 |}.

(** The average shown next to a book value: derived while there is stock. *)
Definition derived_cost (qty value prior : Z) : Z :=
  if 0 <? qty then banker_round value qty else prior.

Definition wac_receive (a : Agg) (q c : Z) : Agg :=
  {| agg_qty := agg_qty a + q;
     agg_unit_cost := derived_cost (agg_qty a + q) (agg_value a + q * c) (agg_unit_cost a);
     agg_value := agg_value a + q * c |}.

(** Issue [q > 0] units at unit cost [c]. *)
Definition wac_issue (a : Agg) (q c : Z) : Agg :=
  let value := if agg_qty a - q =? 0 then 0 else agg_value a - q * c in
  {| agg_qty := agg_qty a - q;
     agg_unit_cost := derived_cost (agg_qty a - q) value (agg_unit_cost a);
     agg_value := value |}.

Definition agg_of (s : Snapshot) (p : Z) : Agg :=
  let '(q, u, v, _) := read_aggregate s p in
  {| agg_qty := q; agg_unit_cost := u; agg_value := v |}.

(** Every stored quantity fits its [i64] column. *)
Definition agg_in_i64 (a : Agg) : Prop :=
  in_i64 (agg_qty a) ∧ in_i64 (agg_unit_cost a) ∧ in_i64 (agg_value a).

Definition put_agg (p : Z) (a : Agg) (s : Snapshot) : Snapshot :=
  put_aggregate p (agg_qty a) (agg_unit_cost a) (agg_value a) s.

Lemma agg_of_put p a s : agg_of (put_agg p a s) p = a.
Proof. unfold agg_of, put_agg. rewrite read_put_aggregate_eq. by destruct a. Qed.
Lemma agg_of_put_ne p p' a s : p ≠ p' → agg_of (put_agg p a s) p' = agg_of s p'.
Proof. intros. unfold agg_of, put_agg. by rewrite read_put_aggregate_ne. Qed.

Lemma banker_div_derived v q u :
  0 < q → banker_div v q = Ok u → u = banker_round v q ∧ in_i64 u.
Proof.
  intros Hq (Hd & Hr & Hin)%banker_div_Ok. split; [|done].
  eapply rounds_half_even_unique; [done|exact Hr|]. by apply banker_round_spec.
Qed.

(** The plan entries of a receipt and of an issue. *)
Definition line_out (line : TrxLineRequest) (c : Z) (src : option Z) : TrxLineOutput :=
  {| out_pool_id := req_pool_id line; out_qty := req_qty line; out_unit_cost := c;
     out_source_trx_line_id := src; out_line_type := req_line_type line;
     out_source_id := req_source_id line |}.
Definition posting (i : nat) (e : PostingEventType) (amount : Z) (accts : Z * Z) (t : Timestamp)
    : PostingLineRequest :=
  {| pst_trx_line_idx := i; pst_event_type := e; pst_amount := amount;
     pst_debit_account := accts.1; pst_credit_account := accts.2; pst_posted_at := t |}.
Definition upsert (p : Z) (a : Agg) : PoolStateMutation :=
  UpsertAggregate p (agg_qty a) (agg_unit_cost a) (agg_value a).
Definition add_line (o : TrxLineOutput) (ms : list PoolStateMutation)
    (ps : list PostingLineRequest) (r : PlanResult) : PlanResult :=
  {| trx_lines := trx_lines r ++ [o];
     pool_state_mutations := pool_state_mutations r ++ ms;
     posting_lines := posting_lines r ++ ps |}.
Definition swap_pair (p : Z * Z) : Z * Z := (p.2, p.1).

Lemma resolve_posting_accounts_Ok s p a :
  resolve_posting_accounts s p = Ok a ↔ posting_accounts_of s !! p = Some a.
Proof.
  unfold resolve_posting_accounts.
  destruct (posting_accounts_of s !! p); [naive_solver|].
  by destruct (sku_location s p).
Qed.

(** Closes the state equation of a method specification. *)
Ltac finish_postings :=
  unfold posting, add_line, push_posting, push_mutation, push_trx_line; cbn;
  repeat match goal with H : pair_for _ _ = _ |- _ => rewrite H; clear H end;
  cbn; rewrite <-?app_assoc; cbn; done.

(** A receipt implements [wac_receive]: it succeeds exactly when the accounts
    are configured and no stored or posted amount leaves [i64], and then records
    the line at its asserted cost, the new aggregate and one posting. *)
Lemma aggregate_receipt_spec line t s r st' :
  let p := req_pool_id line in
  let a' := wac_receive (agg_of s p) (req_qty line) (req_unit_cost line) in
  aggregate_receipt line t (s, r) = (Ok tt, st') ↔
  ∃ accts, posting_accounts_of s !! p = Some accts ∧
    in_i64 (agg_qty a') ∧ in_i64 (agg_value a') ∧ (0 < agg_qty a' → in_i64 (agg_unit_cost a')) ∧
    in_i64 (req_qty line * req_unit_cost line) ∧
    st' = (put_agg p a' s,
           add_line (line_out line (req_unit_cost line) None) [upsert p a']
             [posting (length (trx_lines r)) InventoryReceipt (req_qty line * req_unit_cost line)
                (pair_for accts (req_line_type line)) t] r).
Proof.
  cbn. unfold agg_of. destruct (read_aggregate s (req_pool_id line)) as [[[q u] v] ex] eqn:Eread.
  unfold wac_receive, derived_cost. cbn. split.
  - unfold aggregate_receipt. intros H. core_inv;
      match goal with H : resolve_posting_accounts _ _ = _ |- _ =>
        apply resolve_posting_accounts_Ok in H end; cbn in *; simplify_eq.
    + apply Z.ltb_lt in Hcond as Hpos. apply banker_div_derived in H2 as [-> Hin]; [|done].
      eexists. rewrite Hcond. split_and!; try done.
      finish_postings.
    + eexists. rewrite Hcond. split_and!; try done.
      { intros. apply Z.ltb_ge in Hcond. lia. }
      finish_postings.
  - intros (accts & Hacc & Hq & Hv & Hu & Hamt & ->).
    apply resolve_posting_accounts_Ok in Hacc.
    unfold aggregate_receipt.
    unfold mbind, SE_bind, snapshot, gets, returns, lift. cbn -[banker_div i64_try_from checked_add].
    rewrite Hacc, Eread. destruct (pair_for accts _) as [d c].
    unfold checked_add. rewrite !i64_try_from_in by done. cbn -[banker_div].
    destruct (0 <? q + req_qty line) eqn:Epos; [|done].
    apply Z.ltb_lt in Epos. rewrite banker_div_round; [done|lia|auto].
Qed.

Lemma wsub_in q d : 0 ≤ d → in_i64 d → d ≤ q → in_i64 q → wsub q d = q - d.
Proof. intros. apply wrap_i64_id. solve_i64. Qed.

(** A depletion of [n = |qty|] units implements [wac_issue] at the applied cost;
    it succeeds exactly when the accounts are configured, there is enough stock
    and no amount leaves [i64]. *)
Lemma aggregate_deplete_spec line t c s r st' :
  let p := req_pool_id line in
  let n := Z.abs (req_qty line) in
  let a := agg_of s p in
  let a' := wac_issue a n c in
  in_i64 (agg_qty a) →
  aggregate_deplete line t c (s, r) = (Ok tt, st') ↔
  ∃ accts, posting_accounts_of s !! p = Some accts ∧
    in_i64 n ∧ n ≤ agg_qty a ∧ in_i64 (n * c) ∧ (agg_qty a ≠ n → in_i64 (agg_value a')) ∧
    (agg_qty a ≠ n → in_i64 (agg_unit_cost a')) ∧
    st' = (put_agg p a' s,
           add_line (line_out line c None) [upsert p a']
             [posting (length (trx_lines r)) InventoryDepletion (n * c)
                (swap_pair (pair_for accts (req_line_type line))) t] r).
Proof.
  cbn. unfold agg_of. destruct (read_aggregate s (req_pool_id line)) as [[[q u] v] ex] eqn:Eread.
  cbn. intros Hqi. unfold wac_issue, derived_cost. cbn. split.
  - unfold aggregate_deplete. intros H. core_inv;
      match goal with H : resolve_posting_accounts _ _ = _ |- _ =>
        apply resolve_posting_accounts_Ok in H end; cbn in *; simplify_eq;
      rewrite ?Z.ltb_ge in Hcond; rewrite wsub_in in * by (done || lia).
    all: eexists; split; [done|].
    all: repeat match goal with H : (_ =? _) = _ |- _ => rewrite H end.
    all: repeat match goal with H : (_ <? _) = _ |- _ => rewrite H end.
    all: rewrite ?Z.eqb_eq, ?Z.eqb_neq, ?Z.ltb_lt, ?Z.ltb_ge in *; try lia.
    all: try match goal with H : banker_div _ _ = _ |- _ =>
           apply banker_div_derived in H as [-> ?]; [|done] end.
    all: split_and!; try done; try lia; finish_postings.
  - intros (accts & Hacc & Hn & Hle & Hamt & Hv & Hu & ->).
    apply resolve_posting_accounts_Ok in Hacc. unfold aggregate_deplete.
    unfold mbind, SE_bind, snapshot, gets, returns, lift.
    cbn -[banker_div i64_try_from checked_sub checked_abs wsub].
    rewrite Hacc. unfold checked_abs. rewrite i64_try_from_in by done.
    destruct (pair_for accts _) as [d k]. cbn -[banker_div i64_try_from checked_sub wsub].
    rewrite Eread. destruct (Z.ltb_spec q (Z.abs (req_qty line))); [lia|].
    rewrite wsub_in by (done || lia). unfold checked_sub.
    destruct (Z.eqb_spec (q - Z.abs (req_qty line)) 0) as [E|E];
      cbn -[banker_div i64_try_from]; rewrite !i64_try_from_in by (done || (apply Hv; lia));
      cbn -[banker_div]; destruct (0 <? _) eqn:Epos; try lia; try done;
      rewrite ?Z.ltb_lt, ?Z.ltb_ge in Epos; try lia.
    rewrite i64_try_from_in by (apply Hv; lia). cbn -[banker_div].
    rewrite banker_div_round; [done|lia|apply Hu; lia].
Qed.

(** * Folding a submission's lines over one running-average pool *)
Definition wac_line (a : Agg) (l : TrxLineRequest) : Agg :=
  match req_qty l ?= 0 with
  | Eq => a
  | Gt => wac_receive a (req_qty l) (req_unit_cost l)
  | Lt => wac_issue a (Z.abs (req_qty l)) (agg_unit_cost a)
  end.

(** What the line moves through the general ledger, and the rounding residue an
    issue leaves behind when it empties the pool. *)
Definition wac_amount (a : Agg) (l : TrxLineRequest) : Z :=
  if 0 <? req_qty l then req_qty l * req_unit_cost l else req_qty l * agg_unit_cost a.
Definition wac_residue (a : Agg) (l : TrxLineRequest) : Z :=
  if (req_qty l <? 0) && (agg_qty a + req_qty l =? 0)
  then agg_value a - agg_qty a * agg_unit_cost a else 0.

(** No stock means no value; with stock the unit cost is the rounded average. *)
Record wac_inv (a : Agg) : Prop := {
  wi_qty : 0 ≤ agg_qty a;
  wi_zero : agg_qty a = 0 → agg_value a = 0;
  wi_cost : 0 < agg_qty a → agg_unit_cost a = banker_round (agg_value a) (agg_qty a);
}.

Lemma wac_inv_empty : wac_inv agg_empty.
Proof. split; cbn; lia. Qed.

Lemma derived_cost_pos q v u : 0 < q → derived_cost q v u = banker_round v q.
Proof. intros. unfold derived_cost. by rewrite (proj2 (Z.ltb_lt 0 q)). Qed.

Lemma wac_inv_line a l : wac_inv a → 0 ≤ agg_qty a + req_qty l → wac_inv (wac_line a l).
Proof.
  intros [Hq Hz Hc] Hnew. unfold wac_line.
  destruct (Z.compare_spec (req_qty l) 0); [done| |].
  - split; cbn; [lia| |intros; apply derived_cost_pos; lia].
    intros E. by rewrite (proj2 (Z.eqb_eq _ _) E).
  - split; cbn; [lia|lia|intros; apply derived_cost_pos; lia].
Qed.

Lemma wac_line_qty a l : agg_qty (wac_line a l) = agg_qty a + req_qty l.
Proof. unfold wac_line. destruct (Z.compare_spec (req_qty l) 0); cbn; lia. Qed.

Lemma wac_line_value a l :
  agg_value (wac_line a l) = agg_value a + wac_amount a l - wac_residue a l.
Proof.
  unfold wac_line, wac_amount, wac_residue.
  destruct (Z.compare_spec (req_qty l) 0) as [E|E|E]; cbn.
  - rewrite E. cbn. lia.
  - destruct (Z.ltb_spec 0 (req_qty l)), (Z.ltb_spec (req_qty l) 0); try lia. cbn.
    destruct (Z.eqb_spec (agg_qty a - Z.abs (req_qty l)) 0),
      (Z.eqb_spec (agg_qty a + req_qty l) 0); nia.
  - destruct (Z.ltb_spec 0 (req_qty l)), (Z.ltb_spec (req_qty l) 0); try lia. cbn. lia.
Qed.

(** The residue absorbed when a pool empties is at most half a unit of money per
    unit of stock. *)
Lemma wac_residue_bound a l : wac_inv a → 2 * Z.abs (wac_residue a l) ≤ agg_qty a.
Proof.
  intros [Hq Hz Hc]. unfold wac_residue. destruct (_ && _) eqn:E; [|lia].
  apply andb_prop in E as [E1%Z.ltb_lt E2%Z.eqb_eq].
  rewrite Hc by lia.
  destruct (banker_round_spec (agg_value a) (agg_qty a)) as [Hb _]; lia.
Qed.
