(* ===== verification/StandardCost.v ===== *)
(** [ledger_core::standard]: the standard-cost method.  Receipts and depletions
    are booked at the configured standard; a receipt whose actual cost differs
    posts the purchase-price variance as a second leg. *)
From S2P Require Import Prelude Numeric Plan Snapshot Wac.

(** * Operations (standard.rs) *)
Module standard.

Definition resolve_standard_cost (s : Snapshot) (pool_id : Z) : Res LedgerError Z :=
  match standard_cost_of s !! pool_id with
  | Some c => Ok c
  | None =>
      let '(sku_id, location_id) := sku_location s pool_id in
      Err (MissingStandardCost sku_id location_id)
  end.

(** The variance leg of [receipt]: nothing at a zero unit difference, else one
    posting of [|q * (c_actual - c_std)|] whose direction follows the sign. *)
Definition post_variance (accounts : PostingAccounts) (p q c_actual c_std credit_account : Z)
    (trx_line_idx : nat) (posted_at : Timestamp) : Core unit :=
  let delta_unit := c_actual - c_std in
  if delta_unit =? 0 then mret tt else
  variance_account ← some_or (acc_variance accounts) (MissingVarianceAccount p);
  let variance := q * delta_unit in
  let '(var_debit, var_credit, amount) :=
    if 0 <? variance then (variance_account, credit_account, variance)
    else (credit_account, variance_account, - variance) in
  amount ← some_or (i64_try_from amount) (overflow "std variance" p);
  update_result (push_posting
    {| pst_trx_line_idx := trx_line_idx; pst_event_type := Variance; pst_amount := amount;
       pst_debit_account := var_debit; pst_credit_account := var_credit;
       pst_posted_at := posted_at |}).

Definition receipt (line : TrxLineRequest) (posted_at : Timestamp) (c_std old_qty : Z)
    : Core unit :=
  let p := req_pool_id line in
  s ← snapshot;
  accounts ← returns (resolve_posting_accounts s p);
  let '(debit_account, credit_account) := pair_for accounts (req_line_type line) in
  let q := req_qty line in
  let c_actual := req_unit_cost line in
  new_qty ← some_or (checked_add old_qty q) (overflow "std receipt qty" p);
  trx_line_idx ← trx_line_count;
  update_result (push_trx_line
    {| out_pool_id := p; out_qty := q; out_unit_cost := c_std;
       out_source_trx_line_id := None; out_line_type := req_line_type line;
       out_source_id := req_source_id line |});;
  value_sum ← some_or (i64_try_from (new_qty * c_std)) (overflow "std receipt value_sum" p);
  update_result (push_mutation (UpsertAggregate p new_qty c_std value_sum));;
  update_snapshot (put_aggregate p new_qty c_std value_sum);;
  std_value ← some_or (i64_try_from (q * c_std)) (overflow "std value" p);
  update_result (push_posting
    {| pst_trx_line_idx := trx_line_idx; pst_event_type := InventoryReceipt;
       pst_amount := std_value; pst_debit_account := debit_account;
       pst_credit_account := credit_account; pst_posted_at := posted_at |});;
  post_variance accounts p q c_actual c_std credit_account trx_line_idx posted_at.

Definition deplete (line : TrxLineRequest) (posted_at : Timestamp) (c_std old_qty : Z)
    : Core unit :=
  let p := req_pool_id line in
  s ← snapshot;
  accounts ← returns (resolve_posting_accounts s p);
  let '(rcv_debit, rcv_credit) := pair_for accounts (req_line_type line) in
  let debit_account := rcv_credit in
  let credit_account := rcv_debit in
  qty_to_deplete ← some_or (checked_abs (req_qty line)) (overflow "std deplete qty.abs()" p);
  if old_qty <? qty_to_deplete
  then fails (InsufficientInventory p qty_to_deplete old_qty) else
  let new_qty := wsub old_qty qty_to_deplete in
  trx_line_idx ← trx_line_count;
  update_result (push_trx_line
    {| out_pool_id := p; out_qty := req_qty line; out_unit_cost := c_std;
       out_source_trx_line_id := None; out_line_type := req_line_type line;
       out_source_id := req_source_id line |});;
  value_sum ← some_or (i64_try_from (new_qty * c_std)) (overflow "std deplete value_sum" p);
  update_result (push_mutation (UpsertAggregate p new_qty c_std value_sum));;
  update_snapshot (put_aggregate p new_qty c_std value_sum);;
  amount ← some_or (i64_try_from (qty_to_deplete * c_std)) (overflow "std deplete amount" p);
  update_result (push_posting
    {| pst_trx_line_idx := trx_line_idx; pst_event_type := InventoryDepletion;
       pst_amount := amount; pst_debit_account := debit_account;
       pst_credit_account := credit_account; pst_posted_at := posted_at |}).

Definition apply_std (line : TrxLineRequest) (posted_at : Timestamp) : Core unit :=
  s ← snapshot;
  returns (expect_method s (req_pool_id line) Std);;
  if req_qty line =? 0 then mret tt else
  c_std ← returns (resolve_standard_cost s (req_pool_id line));
  let '(old_qty, _, _, _) := read_aggregate s (req_pool_id line) in
  if 0 <? req_qty line
  then receipt line posted_at c_std old_qty
  else deplete line posted_at c_std old_qty.

End standard.
