(* ===== verification/SpecificId.v ===== *)
(** [ledger_core::specific]: the specific-identification method.  A pool holds at
    most one materialized layer; a depletion consumes it whole. *)
From S2P Require Import Prelude Numeric Plan Snapshot Wac.

(** * Operations (specific.rs) *)
Module specific.

Definition receipt (line : TrxLineRequest) (posted_at : Timestamp) : Core unit :=
  let p := req_pool_id line in
  s ← snapshot;
  accounts ← returns (resolve_posting_accounts s p);
  let '(debit_account, credit_account) := pair_for accounts (req_line_type line) in
  let '(old_qty, _, _, _) := read_aggregate s p in
  if 0 <? old_qty then fails (SpecificPoolOccupied p old_qty) else
  new_qty ← some_or (checked_add old_qty (req_qty line)) (overflow "specific receipt qty" p);
  trx_line_idx ← trx_line_count;
  update_result (push_trx_line
    {| out_pool_id := p; out_qty := req_qty line; out_unit_cost := req_unit_cost line;
       out_source_trx_line_id := None; out_line_type := req_line_type line;
       out_source_id := req_source_id line |});;
  layer_value_sum ← some_or (i64_try_from (req_qty line * req_unit_cost line))
                      (overflow "specific layer value_sum" p);
  update_result (push_mutation
    (InsertLayer p trx_line_idx (req_qty line) (req_unit_cost line) layer_value_sum));;
  value_sum ← some_or (i64_try_from (new_qty * req_unit_cost line))
                (overflow "specific receipt value_sum" p);
  update_result (push_mutation (UpsertAggregate p new_qty (req_unit_cost line) value_sum));;
  update_snapshot (put_aggregate p new_qty (req_unit_cost line) value_sum);;
  amount ← some_or (i64_try_from (req_qty line * req_unit_cost line))
             (overflow "specific receipt amount" p);
  update_result (push_posting
    {| pst_trx_line_idx := trx_line_idx; pst_event_type := InventoryReceipt;
       pst_amount := amount; pst_debit_account := debit_account;
       pst_credit_account := credit_account; pst_posted_at := posted_at |}).

(** [rows.iter().filter(|r| r.layer_id > 0).min_by_key(|r| r.layer_id)]: the
    first row with the least positive layer id. *)
Definition min_layer (rows : list PoolStateRow) : option PoolStateRow :=
  foldl (λ best r,
    if 0 <? row_layer_id r then
      match best with
      | None => Some r
      | Some b => if row_layer_id r <? row_layer_id b then Some r else best
      end
    else best) None rows.

(** [rows.retain(|r| r.layer_id != layer_id)] on an existing pool entry. *)
Definition retain_other_layers (pool_id layer_id : Z) (s : Snapshot) : Snapshot :=
  match pools s !! pool_id with
  | Some rows =>
      with_pools s (<[pool_id :=
        List.filter (λ r, negb (row_layer_id r =? layer_id)) rows]> (pools s))
  | None => s
  end.

Definition deplete (line : TrxLineRequest) (posted_at : Timestamp) : Core unit :=
  let p := req_pool_id line in
  s ← snapshot;
  accounts ← returns (resolve_posting_accounts s p);
  let '(rcv_debit, rcv_credit) := pair_for accounts (req_line_type line) in
  let debit_account := rcv_credit in
  let credit_account := rcv_debit in
  qty_to_deplete ← some_or (checked_abs (req_qty line)) (overflow "specific deplete qty.abs()" p);
  layer ← (match pools s !! p ≫= min_layer with
           | Some l =>
               if qty_to_deplete <=? row_qty l then mret l
               else fails (InsufficientInventory p qty_to_deplete (row_qty l))
           | None => fails (InsufficientInventory p qty_to_deplete 0)
           end);
  trx_line_idx ← trx_line_count;
  update_result (push_trx_line
    {| out_pool_id := p; out_qty := req_qty line; out_unit_cost := row_unit_cost layer;
       out_source_trx_line_id := Some (row_layer_id layer);
       out_line_type := req_line_type line; out_source_id := req_source_id line |});;
  update_result (push_mutation (DeleteLayer p (row_layer_id layer)));;
  let '(agg_qty, agg_uc, _, _) := read_aggregate s p in
  let new_agg_qty := Z.max (wsub agg_qty qty_to_deplete) 0 in
  new_value_sum ← some_or (i64_try_from (new_agg_qty * agg_uc))
                    (overflow "specific deplete value_sum" p);
  update_result (push_mutation (UpsertAggregate p new_agg_qty agg_uc new_value_sum));;
  update_snapshot (retain_other_layers p (row_layer_id layer));;
  update_snapshot (put_aggregate p new_agg_qty agg_uc new_value_sum);;
  amount ← some_or (i64_try_from (qty_to_deplete * row_unit_cost layer))
             (overflow "specific deplete amount" p);
  update_result (push_posting
    {| pst_trx_line_idx := trx_line_idx; pst_event_type := InventoryDepletion;
       pst_amount := amount; pst_debit_account := debit_account;
       pst_credit_account := credit_account; pst_posted_at := posted_at |}).

Definition apply_specific (line : TrxLineRequest) (posted_at : Timestamp) : Core unit :=
  s ← snapshot;
  returns (expect_method s (req_pool_id line) Specific);;
  match req_qty line ?= 0 with
  | Eq => mret tt
  | Gt => receipt line posted_at
  | Lt => deplete line posted_at
  end.

End specific.
