(* ===== verification/Method.v ===== *)
(** [ledger_core::method::plan_apply]: the strict dispatcher, with the fail-loud
    FIFO/LIFO guards of fifo.rs and lifo.rs, and the theorems about whole plans. *)
From S2P Require Import Prelude Numeric Plan Snapshot Wac StandardCost SpecificId.

(** * Operations *)
Definition apply_fifo (line : TrxLineRequest) (posted_at : Timestamp) : Core unit :=
  s ← snapshot;
  got ← some_or (method_of s !! req_pool_id line) (UnknownPool (req_pool_id line));
  fails (MethodMismatch (req_pool_id line) Fifo got).

Definition apply_lifo (line : TrxLineRequest) (posted_at : Timestamp) : Core unit :=
  s ← snapshot;
  got ← some_or (method_of s !! req_pool_id line) (UnknownPool (req_pool_id line));
  fails (MethodMismatch (req_pool_id line) Lifo got).

(** One iteration of the loop of [plan_apply]. *)
Definition apply_line (posted_at : Timestamp) (line : TrxLineRequest) : Core unit :=
  s ← snapshot;
  method ← some_or (method_of s !! req_pool_id line) (UnknownPool (req_pool_id line));
  match method with
  | Wac => apply_wac line posted_at
  | Std => standard.apply_std line posted_at
  | Specific => specific.apply_specific line posted_at
  | Fifo => apply_fifo line posted_at
  | Lifo => apply_lifo line posted_at
  end.

(** [plan_apply]: the snapshot is mutated in place (also when an error ends the
    loop); the result is the plan or the first line's error. *)
Definition plan_apply (s : Snapshot) (lines : list TrxLineRequest) (posted_at : Timestamp)
    : Res (Fault LedgerError) PlanResult * Snapshot :=
  match iterM (apply_line posted_at) lines (s, plan_default) with
  | (Ok _, (s', r)) => (Ok r, s')
  | (Err e, (s', _)) => (Err e, s')
  end.

(** * What a successful line contributes to the plan

    [snapshot_mutation] is the in-memory counterpart of a mutation: what the
    code does to the snapshot next to pushing it.  A receipt's [InsertLayer] has
    none (the layer's id is unknown until the row is inserted). *)
Definition snapshot_mutation (s : Snapshot) (m : PoolStateMutation) : Snapshot :=
  match m with
  | UpsertAggregate p q u v => put_aggregate p q u v s
  | InsertLayer _ _ _ _ _ => s
  | DeleteLayer p l => specific.retain_other_layers p l s
  end.

(** The mutation is on pool [p], and a layer it inserts belongs to line [i]. *)
Definition mutation_of (p : Z) (i : nat) (m : PoolStateMutation) : Prop :=
  match m with
  | UpsertAggregate p' _ _ _ | DeleteLayer p' _ => p' = p
  | InsertLayer p' i' _ _ _ => p' = p ∧ i' = i
  end.

Record emits (line : TrxLineRequest) (t : Timestamp) (st st' : Snapshot * PlanResult)
    (o : TrxLineOutput) (ms : list PoolStateMutation) (ps : list PostingLineRequest) : Prop := {
  em_trx : trx_lines st'.2 = trx_lines st.2 ++ [o];
  em_mut : pool_state_mutations st'.2 = pool_state_mutations st.2 ++ ms;
  em_post : posting_lines st'.2 = posting_lines st.2 ++ ps;
  em_snap : st'.1 = foldl snapshot_mutation st.1 ms;
  em_line : out_pool_id o = req_pool_id line ∧ out_qty o = req_qty line ∧
            out_line_type o = req_line_type line ∧ out_source_id o = req_source_id line;
  em_ms : Forall (mutation_of (req_pool_id line) (length (trx_lines st.2))) ms;
  em_ps : Forall (λ p, pst_trx_line_idx p = length (trx_lines st.2) ∧ pst_posted_at p = t) ps;
}.

Ltac solve_emits :=
  eexists _, _, _; split; cbn; rewrite <-?app_assoc;
  try reflexivity; repeat constructor; done.

Lemma aggregate_receipt_emits line t st st' :
  aggregate_receipt line t st = (Ok tt, st') → ∃ o ms ps, emits line t st st' o ms ps.
Proof. unfold aggregate_receipt. intros H. core_inv. all: solve_emits. Qed.

Lemma aggregate_deplete_emits line t c st st' :
  aggregate_deplete line t c st = (Ok tt, st') → ∃ o ms ps, emits line t st st' o ms ps.
Proof. unfold aggregate_deplete. intros H. core_inv. all: solve_emits. Qed.

Lemma std_receipt_emits line t c q st st' :
  standard.receipt line t c q st = (Ok tt, st') → ∃ o ms ps, emits line t st st' o ms ps.
Proof. unfold standard.receipt, standard.post_variance. intros H. core_inv. all: solve_emits. Qed.

Lemma std_deplete_emits line t c q st st' :
  standard.deplete line t c q st = (Ok tt, st') → ∃ o ms ps, emits line t st st' o ms ps.
Proof. unfold standard.deplete. intros H. core_inv. all: solve_emits. Qed.

Lemma specific_receipt_emits line t st st' :
  specific.receipt line t st = (Ok tt, st') → ∃ o ms ps, emits line t st st' o ms ps.
Proof. unfold specific.receipt. intros H. core_inv. all: solve_emits. Qed.

Lemma specific_deplete_emits line t st st' :
  specific.deplete line t st = (Ok tt, st') → ∃ o ms ps, emits line t st st' o ms ps.
Proof. unfold specific.deplete. intros H. core_inv. all: solve_emits. Qed.

Create HintDb emits discriminated.
#[export] Hint Resolve aggregate_receipt_emits aggregate_deplete_emits std_receipt_emits
  std_deplete_emits specific_receipt_emits specific_deplete_emits : emits.

(** A zero-quantity line is a no-op; any other successful line emits exactly one
    transaction line and mutations and postings of its own pool. *)
Lemma apply_line_emits line t st st' :
  apply_line t line st = (Ok tt, st') →
  (req_qty line = 0 ∧ st' = st) ∨
  (req_qty line ≠ 0 ∧ ∃ o ms ps, emits line t st st' o ms ps).
Proof.
  unfold apply_line. intros H. core_inv.
  unfold apply_fifo, apply_lifo, apply_wac, standard.apply_std, specific.apply_specific in *.
  destruct x; core_inv;
    rewrite ?Z.compare_eq_iff, ?Z.compare_lt_iff, ?Z.compare_gt_iff, ?Z.eqb_eq, ?Z.eqb_neq in *;
    first [by left | right; split; [lia|eauto with emits]].
Qed.

(** * Whole plans *)
Definition nonzero_lines (lines : list TrxLineRequest) : list TrxLineRequest :=
  filter (λ l, req_qty l ≠ 0) lines.

Definition line_output (l : TrxLineRequest) (o : TrxLineOutput) : Prop :=
  out_pool_id o = req_pool_id l ∧ out_qty o = req_qty l ∧
  out_line_type o = req_line_type l ∧ out_source_id o = req_source_id l.

(** The mutation is on the pool of some transaction line; a layer it inserts
    names that very line. *)
Definition mutation_grounded (outs : list TrxLineOutput) (m : PoolStateMutation) : Prop :=
  match m with
  | UpsertAggregate p _ _ _ | DeleteLayer p _ => ∃ i o, outs !! i = Some o ∧ out_pool_id o = p
  | InsertLayer p i _ _ _ => ∃ o, outs !! i = Some o ∧ out_pool_id o = p
  end.

Lemma mutation_of_grounded outs o outs' m :
  mutation_of (out_pool_id o) (length outs) m → mutation_grounded ((outs ++ [o]) ++ outs') m.
Proof.
  assert (((outs ++ [o]) ++ outs') !! length outs = Some o) as Hlk.
  { by rewrite <-app_assoc, lookup_app_r, Nat.sub_diag by lia. }
  destruct m; cbn; [intros ->|intros [-> ->]|intros ->]; eauto.
Qed.

Record emits_all (t : Timestamp) (lines : list TrxLineRequest) (st st' : Snapshot * PlanResult)
    (os : list TrxLineOutput) (ms : list PoolStateMutation)
    (ps : list PostingLineRequest) : Prop := {
  ea_trx : trx_lines st'.2 = trx_lines st.2 ++ os;
  ea_mut : pool_state_mutations st'.2 = pool_state_mutations st.2 ++ ms;
  ea_post : posting_lines st'.2 = posting_lines st.2 ++ ps;
  ea_snap : st'.1 = foldl snapshot_mutation st.1 ms;
  ea_lines : Forall2 line_output (nonzero_lines lines) os;
  ea_ms : Forall (mutation_grounded (trx_lines st'.2)) ms;
  ea_ps : Forall (λ p, (pst_trx_line_idx p < length (trx_lines st'.2))%nat ∧
                       pst_posted_at p = t) ps;
}.

Lemma iterM_apply_line_emits t lines st st' :
  iterM (apply_line t) lines st = (Ok tt, st') → ∃ os ms ps, emits_all t lines st st' os ms ps.
Proof.
  revert st. induction lines as [|l lines IH]; intros st H; cbn in H; inv_run.
  { exists [], [], []. split; rewrite ?app_nil_r; done. }
  destruct (IH _ H0) as (os & ms & ps & [Ht Hm Hp Hs Hl Hms Hps]).
  destruct (apply_line_emits _ _ _ _ H) as [[Hq ->]|(Hq & o & ms1 & ps1 & [Ht1 Hm1 Hp1 Hs1 Hl1 Hms1 Hps1])].
  { exists os, ms, ps. split; try done. unfold nonzero_lines. by rewrite filter_cons_False by lia. }
  exists (o :: os), (ms1 ++ ms), (ps1 ++ ps). split.
  - by rewrite Ht, Ht1, <-app_assoc.
  - by rewrite Hm, Hm1, <-app_assoc.
  - by rewrite Hp, Hp1, <-app_assoc.
  - by rewrite foldl_app, Hs, Hs1.
  - unfold nonzero_lines. rewrite filter_cons_True by done. by constructor.
  - apply Forall_app. split; [|done]. eapply Forall_impl; [exact Hms1|].
    intros m Hmo. rewrite Ht, Ht1. apply mutation_of_grounded.
    by destruct Hl1 as [-> _].
  - apply Forall_app. split; [|done]. eapply Forall_impl; [exact Hps1|].
    intros p [-> ?]. rewrite Ht, Ht1, !length_app. cbn. split; [lia|done].
Qed.

(** A successful plan is well formed.  Its transaction lines are the nonzero
    input lines, in order; every posting and every inserted layer refers to an
    existing transaction line (the layer to one of its own pool), so the index
    lookups of the bulk writer cannot go out of range; and the snapshot the loop
    leaves is the input snapshot with the emitted mutations applied in order. *)
Theorem plan_apply_well_formed s lines t r s' :
  plan_apply s lines t = (Ok r, s') →
  Forall2 line_output (nonzero_lines lines) (trx_lines r) ∧
  Forall (mutation_grounded (trx_lines r)) (pool_state_mutations r) ∧
  Forall (λ p, (pst_trx_line_idx p < length (trx_lines r))%nat ∧ pst_posted_at p = t)
    (posting_lines r) ∧
  s' = foldl snapshot_mutation s (pool_state_mutations r).
Proof.
  unfold plan_apply. destruct (iterM _ _ _) as [[[]|e] [s1 r1]] eqn:E; intros [=]; subst.
  destruct (iterM_apply_line_emits _ _ _ _ E) as (os & ms & ps & [Ht Hm Hp Hs Hl Hms Hps]).
  cbn in *. subst. done.
Qed.

(** A small two-pool configuration for the witnesses: pool 1 is WAC, pool 2 is
    STD at standard cost 10, pool 3 is specific. *)
Definition example_accounts : PostingAccounts :=
  {| acc_receipt := (100, 200); acc_transfer := (100, 210); acc_build := (100, 220);
     acc_scrap := (100, 230); acc_adjustment := (100, 240); acc_revaluation := (100, 250);
     acc_variance := Some 300 |}.
Definition example_snapshot : Snapshot :=
  {| pools := ∅;
     method_of := <[1 := Wac]> (<[2 := Std]> (<[3 := Specific]> ∅));
     sku_location_of := <[1 := (11, 1)]> (<[2 := (12, 1)]> (<[3 := (13, 1)]> ∅));
     standard_cost_of := <[2 := 10]> ∅;
     posting_accounts_of :=
       <[1 := example_accounts]> (<[2 := example_accounts]> (<[3 := example_accounts]> ∅)) |}.
Definition receipt_line (p q c : Z) : TrxLineRequest :=
  {| req_pool_id := p; req_line_type := PoReceiptLine; req_source_id := None;
     req_qty := q; req_unit_cost := c |}.
Definition example_lines : list TrxLineRequest :=
  [receipt_line 1 10 7; receipt_line 2 4 12; receipt_line 1 0 9; receipt_line 3 1 50;
   receipt_line 1 (-3) 0; receipt_line 2 (-1) 0].

Lemma plan_apply_well_formed_witness :
  ∃ r s', plan_apply example_snapshot example_lines 0 = (Ok r, s') ∧
          length (trx_lines r) = 5%nat ∧
          s' = foldl snapshot_mutation example_snapshot (pool_state_mutations r).
Proof.
  eexists _, _. split; [vm_compute; reflexivity|]. split; [reflexivity|].
  eapply (plan_apply_well_formed example_snapshot example_lines 0).
  vm_compute. reflexivity.
Defined.
