(* ===== verification/CostLaws.v ===== *)
(** Laws of whole submissions: what [plan_apply] does to the aggregate of one
    pool, method by method, and how its postings account for the change. *)
From S2P Require Import Prelude Numeric Plan Snapshot Wac StandardCost SpecificId Method.

Definition pool_lines (p : Z) (lines : list TrxLineRequest) : list TrxLineRequest :=
  filter (λ l, req_pool_id l = p) lines.

Lemma pool_lines_snoc p k l :
  pool_lines p (k ++ [l]) = pool_lines p k ++ (if decide (req_pool_id l = p) then [l] else []).
Proof. unfold pool_lines. rewrite filter_app. by destruct (decide _) eqn:E; cbn; rewrite E. Qed.

Lemma plan_apply_run s lines t r s' :
  plan_apply s lines t = (Ok r, s') ↔ iterM (apply_line t) lines (s, plan_default) = (Ok tt, (s', r)).
Proof.
  unfold plan_apply. destruct (iterM _ _ _) as [[[]|e] [s1 r1]]; naive_solver.
Qed.

(** * Frame *)
Lemma snapshot_mutations_frame p q i ms s :
  p ≠ q → Forall (mutation_of p i) ms →
  same_config s (foldl snapshot_mutation s ms) ∧
  pools (foldl snapshot_mutation s ms) !! q = pools s !! q.
Proof.
  intros Hne. revert s. induction ms as [|m ms IH]; intros s Hms; [done|].
  apply Forall_cons in Hms as [Hm Hms]. cbn.
  destruct (IH (snapshot_mutation s m) Hms) as [Hc Hp].
  assert (same_config s (snapshot_mutation s m) ∧
          pools (snapshot_mutation s m) !! q = pools s !! q) as [Hc1 Hp1].
  { destruct m; cbn in *; [subst..|subst]; [|done|].
    - by rewrite lookup_insert_ne.
    - unfold specific.retain_other_layers. destruct (pools s !! p) eqn:E; [|done].
      cbn. by rewrite lookup_insert_ne. }
  split; [by etrans|]. by rewrite Hp.
Qed.

Lemma snapshot_mutations_config ms s : same_config s (foldl snapshot_mutation s ms).
Proof.
  revert s. induction ms as [|m ms IH]; intros s; [done|]. cbn. etrans; [|apply IH].
  destruct m; cbn; [done..|]. unfold specific.retain_other_layers. by destruct (_ !! _).
Qed.

Lemma apply_line_config t l st st' : apply_line t l st = (Ok tt, st') → same_config st.1 st'.1.
Proof.
  intros [[_ ->]|(_ & o & ms & ps & [])]%apply_line_emits; [done|].
  rewrite em_snap. apply snapshot_mutations_config.
Qed.

Lemma apply_line_frame t l st st' q :
  apply_line t l st = (Ok tt, st') → req_pool_id l ≠ q →
  pools st'.1 !! q = pools st.1 !! q.
Proof.
  intros [[_ ->]|(_ & o & ms & ps & [])]%apply_line_emits Hne; [done|].
  rewrite em_snap. by eapply snapshot_mutations_frame.
Qed.

Lemma apply_line_agg_frame t l st st' q :
  apply_line t l st = (Ok tt, st') → req_pool_id l ≠ q → agg_of st'.1 q = agg_of st.1 q.
Proof.
  intros H Hne. unfold agg_of, read_aggregate, aggregate.
  by rewrite (apply_line_frame _ _ _ _ _ H Hne).
Qed.

(** A successful submission touches only the pools its lines name, and no
    configuration: methods, locations, standard costs and posting accounts. *)
Theorem plan_apply_frame s lines t r s' q :
  plan_apply s lines t = (Ok r, s') →
  same_config s s' ∧
  ((∀ l, l ∈ lines → req_pool_id l ≠ q) → pools s' !! q = pools s !! q).
Proof.
  rewrite plan_apply_run. intros H.
  refine (iterM_ind (λ k st, same_config s st.1 ∧
    ((∀ l, l ∈ k → req_pool_id l ≠ q) → pools st.1 !! q = pools s !! q)) _ _ _ _ _ _ H); [done|].
  intros k l st1 st2 _ [Hc Hf] Hl. split; [etrans; [done|by eapply apply_line_config]|].
  intros Hne. rewrite (apply_line_frame _ _ _ _ q Hl).
  - apply Hf. intros; apply Hne. set_solver.
  - apply Hne. set_solver.
Qed.

Lemma plan_apply_frame_witness :
  match plan_apply example_snapshot example_lines 0 with
  | (Ok _, s') => same_config example_snapshot s' ∧ pools s' !! 9 = None
  | (Err _, _) => False
  end.
Proof.
  destruct (plan_apply example_snapshot example_lines 0) as [[r|e] s'] eqn:E;
    [|vm_compute in E; discriminate E].
  destruct (plan_apply_frame _ _ _ _ _ 9 E) as [Hc Hf]. split; [done|].
  apply Hf. apply Forall_forall. repeat constructor; done.
Defined.

(** * The running average *)
Lemma apply_line_wac t l s r st' :
  let a := agg_of s (req_pool_id l) in
  method_of s !! req_pool_id l = Some Wac → in_i64 (agg_qty a) → 0 ≤ agg_qty a →
  apply_line t l (s, r) = (Ok tt, st') →
  agg_of st'.1 (req_pool_id l) = wac_line a l ∧
  in_i64 (agg_qty (wac_line a l)) ∧ 0 ≤ agg_qty (wac_line a l) ∧
  (req_qty l ≠ 0 → ∃ o x, st'.2 = add_line o [upsert (req_pool_id l) (wac_line a l)] [x] r ∧
     out_pool_id o = req_pool_id l ∧
     out_unit_cost o = (if 0 <? req_qty l then req_unit_cost l else agg_unit_cost a) ∧
     pst_event_type x = (if 0 <? req_qty l then InventoryReceipt else InventoryDepletion) ∧
     pst_amount x = Z.abs (req_qty l) * out_unit_cost o) ∧
  (req_qty l = 0 → st' = (s, r)).
Proof.
  cbn. intros Hm Hi Hnn H. unfold apply_line, apply_wac in H. core_inv. cbn in *. simplify_eq.
  unfold wac_line in *. destruct (Z.compare_spec (req_qty l) 0) as [E|E|E]; core_inv; [done| |].
  - match goal with H : aggregate_deplete _ _ _ _ = _ |- _ => rename H into Hrun end.
    apply aggregate_deplete_spec in Hrun as (accts & Ha & Hn & Hle & Hamt & Hv & Hu & ->); [|done].
    assert (agg_unit_cost (agg_of x0 (req_pool_id l)) = z1) as ->
      by (unfold agg_of; by rewrite Heqp).
    cbn [fst snd]. rewrite agg_of_put. cbn. unfold in_i64, i64_min, i64_max in *.
    split_and!; [done|lia..| |lia]. intros _. eexists _, _. split; [done|]. cbn.
    destruct (Z.ltb_spec 0 (req_qty l)); [lia|]. done.
  - match goal with H : aggregate_receipt _ _ _ = _ |- _ => rename H into Hrun end.
    apply aggregate_receipt_spec in Hrun as (accts & Ha & Hq & Hv & Hu & Hamt & ->). cbn [fst snd].
    rewrite agg_of_put. cbn in *. split_and!; [done|done|lia| |lia]. intros _. eexists _, _.
    split; [done|]. cbn. destruct (Z.ltb_spec 0 (req_qty l)); [|lia].
    split_and!; try done. nia.
Qed.

(** A property of one pool's aggregate that its own lines preserve holds after
    every prefix of them, and the aggregate is the fold of the line step. *)
Section pool_fold.
Context (t : Timestamp) (p : Z) (s0 : Snapshot).
Context (step : Agg → TrxLineRequest → Agg) (I : Agg → Prop).
Hypothesis step_ok : ∀ l s r st',
  same_config s0 s → req_pool_id l = p → I (agg_of s p) →
  apply_line t l (s, r) = (Ok tt, st') →
  agg_of st'.1 p = step (agg_of s p) l ∧ I (agg_of st'.1 p).

Lemma pool_fold lines r s' :
  plan_apply s0 lines t = (Ok r, s') → I (agg_of s0 p) →
  agg_of s' p = foldl step (agg_of s0 p) (pool_lines p lines) ∧
  ∀ k, k `prefix_of` pool_lines p lines → I (foldl step (agg_of s0 p) k).
Proof.
  rewrite plan_apply_run. intros H HI.
  refine (proj2 (iterM_ind (λ k st, same_config s0 st.1 ∧
    agg_of st.1 p = foldl step (agg_of s0 p) (pool_lines p k) ∧
    ∀ k', k' `prefix_of` pool_lines p k → I (foldl step (agg_of s0 p) k')) _ _ _ _ _ _ H)).
  { split_and!; [done..|]. intros k' ->%prefix_nil_inv. done. }
  intros k l [s1 r1] st2 _ (Hc & Ha & Hp) Hl.
  pose proof (apply_line_config _ _ _ _ Hl) as Hc'. rewrite pool_lines_snoc. cbn [fst] in *.
  split; [by etrans|]. destruct (decide (req_pool_id l = p)) as [E|E].
  - destruct (step_ok l s1 r1 st2 Hc E) as [Ha2 HI2]; [by rewrite Ha; apply Hp|done|].
    rewrite foldl_app. cbn. rewrite <-Ha. split; [done|].
    intros k' [?| ->]%prefix_snoc_inv; [by apply Hp|].
    rewrite foldl_app. cbn. by rewrite <-Ha, <-Ha2.
  - rewrite app_nil_r. by rewrite (apply_line_agg_frame _ _ _ _ p Hl).
Qed.
End pool_fold.

(** The invariant the running-average fold carries. *)
Definition wac_state (a : Agg) : Prop := wac_inv a ∧ in_i64 (agg_qty a).

Lemma foldl_wac_qty a ls : agg_qty (foldl wac_line a ls) = agg_qty a + sumZ req_qty ls.
Proof.
  revert a. induction ls as [|l ls IH]; intros a; cbn; [|rewrite IH, wac_line_qty];
    autorewrite with ledger; lia.
Qed.

Lemma wac_pool_fold s lines t r s' p :
  method_of s !! p = Some Wac → wac_state (agg_of s p) →
  plan_apply s lines t = (Ok r, s') →
  agg_of s' p = foldl wac_line (agg_of s p) (pool_lines p lines) ∧
  ∀ k, k `prefix_of` pool_lines p lines → wac_state (foldl wac_line (agg_of s p) k).
Proof.
  intros Hm HI H. refine (pool_fold t p s wac_line wac_state _ lines r s' H HI).
  intros l s1 r1 st' (Hcm & _) <- [Hinv Hi] Hl.
  destruct (apply_line_wac t l s1 r1 st') as (Ha & Hi' & Hnn & _);
    [by rewrite Hcm|done|apply Hinv|done|].
  rewrite Ha. split; [done|]. split; [|done]. apply wac_inv_line; [done|].
  by rewrite <-wac_line_qty.
Qed.

(** On a running-average pool a successful submission does exactly what the
    abstract fold of receipts and issues over the pool's own lines does,
    whatever other lines are interleaved; the pool invariant (no negative stock,
    no value without stock, unit cost equal to the half-even average) is kept,
    quantity is conserved, and no prefix of the lines ever oversells. *)
Theorem wac_plan_refines s lines t r s' p :
  method_of s !! p = Some Wac → wac_state (agg_of s p) →
  plan_apply s lines t = (Ok r, s') →
  let ls := pool_lines p lines in
  agg_of s' p = foldl wac_line (agg_of s p) ls ∧
  wac_state (agg_of s' p) ∧
  agg_qty (agg_of s' p) = agg_qty (agg_of s p) + sumZ req_qty ls ∧
  ∀ k, k `prefix_of` ls → 0 ≤ agg_qty (agg_of s p) + sumZ req_qty k.
Proof.
  intros Hm HI H. cbn. destruct (wac_pool_fold _ _ _ _ _ _ Hm HI H) as [Ha Hp].
  rewrite Ha. split_and!; [done|by apply Hp|apply foldl_wac_qty|].
  intros k Hk. rewrite <-foldl_wac_qty. apply (Hp k Hk).
Qed.

Lemma wac_plan_refines_witness :
  match plan_apply example_snapshot example_lines 0 with
  | (Ok _, s') => agg_qty (agg_of s' 1) = 7 ∧ wac_state (agg_of s' 1)
  | (Err _, _) => False
  end.
Proof.
  destruct (plan_apply example_snapshot example_lines 0) as [[r|e] s'] eqn:E;
    [|vm_compute in E; discriminate E].
  destruct (wac_plan_refines example_snapshot example_lines 0 r s' 1) as (_ & Hs & Hq & _).
  - reflexivity.
  - split; [apply wac_inv_empty|by apply (bool_decide_unpack _); vm_compute].
  - exact E.
  - split; [rewrite Hq; reflexivity|exact Hs].
Defined.

(** * Book value and postings *)
Definition signed_amount (x : PostingLineRequest) : Z :=
  match pst_event_type x with
  | InventoryReceipt => pst_amount x
  | InventoryDepletion => - pst_amount x
  | _ => 0
  end.
(** What the paired transaction lines and postings moved through pool [p]. *)
Definition movement (p : Z) (os : list TrxLineOutput) (xs : list PostingLineRequest) : Z :=
  sumZ (λ ox, if out_pool_id ox.1 =? p then signed_amount ox.2 else 0) (zip os xs).

Fixpoint wac_residues (a : Agg) (ls : list TrxLineRequest) : Z :=
  match ls with
  | [] => 0
  | l :: ls => wac_residue a l + wac_residues (wac_line a l) ls
  end.

Lemma wac_residues_snoc a ls l :
  wac_residues a (ls ++ [l]) = wac_residues a ls + wac_residue (foldl wac_line a ls) l.
Proof. revert a. induction ls as [|x ls IH]; intros a; cbn; [lia|rewrite IH; lia]. Qed.

Lemma movement_snoc p os xs o x :
  length os = length xs →
  movement p (os ++ [o]) (xs ++ [x]) =
    movement p os xs + (if out_pool_id o =? p then signed_amount x else 0).
Proof. intros Hlen. unfold movement. rewrite zip_with_app by done. cbn [zip_with]. apply sumZ_snoc. Qed.

Definition issued (ls : list TrxLineRequest) : Z := sumZ (λ l, Z.max 0 (- req_qty l)) ls.

Lemma wac_residues_bound a ls :
  (∀ k, k `prefix_of` ls → wac_state (foldl wac_line a k)) →
  2 * Z.abs (wac_residues a ls) ≤ issued ls.
Proof.
  revert a. induction ls as [|l ls IH]; intros a HI; [done|]. cbn. unfold issued.
  rewrite sumZ_cons.
  assert (2 * Z.abs (wac_residues (wac_line a l) ls) ≤ issued ls).
  { apply IH. intros k Hk. apply (HI (l :: k)). by apply prefix_cons. }
  destruct (HI []) as [Hinv _]; [apply prefix_nil|]. cbn in Hinv.
  pose proof (wac_residue_bound a l Hinv) as Hb. unfold issued in *.
  assert (2 * Z.abs (wac_residue a l) ≤ Z.max 0 (- req_qty l)); [|lia].
  unfold wac_residue in *. destruct (_ && _) eqn:E; [|lia].
  apply andb_prop in E as [?%Z.ltb_lt ?%Z.eqb_eq]. lia.
Qed.

(** One line of a running-average pool: its posting moves [wac_amount]. *)
Lemma apply_line_wac_movement t l s r st' p :
  method_of s !! req_pool_id l = Some Wac → wac_state (agg_of s (req_pool_id l)) →
  length (trx_lines r) = length (posting_lines r) →
  apply_line t l (s, r) = (Ok tt, st') →
  length (trx_lines st'.2) = length (posting_lines st'.2) ∧
  movement p (trx_lines st'.2) (posting_lines st'.2) =
    movement p (trx_lines r) (posting_lines r) +
    (if decide (req_pool_id l = p) then wac_amount (agg_of s p) l else 0).
Proof.
  intros Hm [Hinv Hi] Hlen Hl.
  destruct (apply_line_wac t l s r st') as (_ & _ & _ & Hpost & Hzero); [done..|apply Hinv|done|].
  destruct (decide (req_qty l = 0)) as [E|E].
  { rewrite (Hzero E). cbn. split; [done|]. unfold wac_amount. rewrite E. case_decide; cbn; lia. }
  destruct (Hpost E) as (o & x & -> & Ho & Hc & Hx & Hamt). cbn.
  rewrite !length_app, movement_snoc by done. cbn. split; [lia|]. f_equal. rewrite Ho.
  destruct (Z.eqb_spec (req_pool_id l) p), (decide (req_pool_id l = p)); try done.
  subst p. unfold signed_amount, wac_amount. rewrite Hx, Hamt, Hc.
  destruct (Z.ltb_spec 0 (req_qty l)); nia.
Qed.

(** What holds after the prefix [k] of a submission on running-average pools. *)
Record wac_books (s : Snapshot) (p : Z) (k : list TrxLineRequest) (st : Snapshot * PlanResult)
    : Prop := {
  wb_config : same_config s st.1;
  wb_state q : method_of s !! q = Some Wac → wac_state (agg_of s q) → wac_state (agg_of st.1 q);
  wb_fold : agg_of st.1 p = foldl wac_line (agg_of s p) (pool_lines p k);
  wb_len : length (trx_lines st.2) = length (posting_lines st.2);
  wb_value : agg_value (agg_of st.1 p) = agg_value (agg_of s p) +
       movement p (trx_lines st.2) (posting_lines st.2) -
       wac_residues (agg_of s p) (pool_lines p k);
}.

Lemma wac_books_step s p k l st st' t :
  method_of s !! req_pool_id l = Some Wac → wac_state (agg_of s (req_pool_id l)) →
  wac_books s p k st → apply_line t l st = (Ok tt, st') → wac_books s p (k ++ [l]) st'.
Proof.
  destruct st as [s1 r1]. intros Hml HIl [Hc HIs Ha Hlen Hv] Hl. cbn [fst snd] in *.
  assert (method_of s1 !! req_pool_id l = Some Wac) as Hm1 by by rewrite (proj1 Hc).
  destruct (HIs _ Hml HIl) as [Hinv1 Hi1].
  destruct (apply_line_wac_movement t l s1 r1 st' p) as [Hlen2 Hmv2]; [done..|].
  destruct (apply_line_wac t l s1 r1 st') as (Ha2 & Hi2 & Hnn2 & _); [done..|apply Hinv1|done|].
  pose proof (apply_line_config _ _ _ _ Hl) as Hc2. rewrite wac_line_qty in Hnn2.
  split; rewrite ?pool_lines_snoc, ?Hmv2; [by etrans| | |done|].
  - intros q Hq Hsq. destruct (decide (req_pool_id l = q)) as [<-|Hne].
    + rewrite Ha2. split; [|done]. by apply wac_inv_line.
    + rewrite (apply_line_agg_frame _ _ _ _ q Hl Hne). by apply HIs.
  - destruct (decide (req_pool_id l = p)) as [<-|Hne].
    + by rewrite foldl_app, <-Ha.
    + by rewrite app_nil_r, (apply_line_agg_frame _ _ _ _ p Hl Hne).
  - destruct (decide (req_pool_id l = p)) as [<-|Hne].
    + rewrite wac_residues_snoc, <-Ha, Ha2, wac_line_value. lia.
    + rewrite app_nil_r, (apply_line_agg_frame _ _ _ _ p Hl Hne). cbn. lia.
Qed.

(** In a submission on running-average pools there is one posting per
    transaction line, and each pool's book value moves by the signed amounts of
    its postings, except for the rounding residues written off when an issue
    empties the pool: together at most half a money unit per unit issued, and
    nothing when no issue empties it. *)
Theorem wac_plan_value s lines t r s' p :
  (∀ l, l ∈ lines → method_of s !! req_pool_id l = Some Wac ∧ wac_state (agg_of s (req_pool_id l))) →
  method_of s !! p = Some Wac → wac_state (agg_of s p) →
  plan_apply s lines t = (Ok r, s') →
  let ls := pool_lines p lines in
  let drift := agg_value (agg_of s p) + movement p (trx_lines r) (posting_lines r)
               - agg_value (agg_of s' p) in
  length (trx_lines r) = length (posting_lines r) ∧
  drift = wac_residues (agg_of s p) ls ∧ 2 * Z.abs drift ≤ issued ls.
Proof.
  intros Hall Hm HI H. cbn. destruct (wac_pool_fold _ _ _ _ _ _ Hm HI H) as [_ Hpre].
  pose proof (wac_residues_bound _ _ Hpre) as Hb.
  assert (length (trx_lines r) = length (posting_lines r) ∧
          agg_value (agg_of s' p) = agg_value (agg_of s p) +
            movement p (trx_lines r) (posting_lines r) -
            wac_residues (agg_of s p) (pool_lines p lines)) as [Hlen Hv]; [|split_and!; lia].
  apply plan_apply_run in H. eapply (iterM_ind (wac_books s p)) in H.
  - destruct H. cbn in *. split; [done|lia].
  - split; try done. cbn. unfold movement. cbn. rewrite sumZ_nil. lia.
  - intros k l st1 st2 Hin Hk Hl. destruct (Hall l Hin). by eapply wac_books_step.
Qed.

Lemma wac_plan_value_witness :
  let lines := [receipt_line 1 1 1; receipt_line 1 2 0; receipt_line 1 (-3) 0] in
  match plan_apply example_snapshot lines 0 with
  | (Ok r, s') => movement 1 (trx_lines r) (posting_lines r) = 1 ∧
                  agg_value (agg_of s' 1) = 0 ∧ length (trx_lines r) = length (posting_lines r)
  | (Err _, _) => False
  end.
Proof.
  intros lines. destruct (plan_apply example_snapshot lines 0) as [[r|e] s'] eqn:E;
    [|vm_compute in E; discriminate E].
  assert (wac_state (agg_of example_snapshot 1)) as Hs
    by (split; [apply wac_inv_empty|by apply (bool_decide_unpack _); vm_compute]).
  assert (Forall (λ l, method_of example_snapshot !! req_pool_id l = Some Wac ∧
      wac_state (agg_of example_snapshot (req_pool_id l))) lines) as HF
    by (repeat constructor; done).
  destruct (wac_plan_value example_snapshot lines 0 r s' 1) as (Hlen & _);
    [by apply Forall_forall|done|done|exact E|].
  split_and!; [| |exact Hlen]; vm_compute in E; injection E as <- <-; reflexivity.
Defined.

(** * Receipts in any order *)
Lemma expect_method_Ok s p m : method_of s !! p = Some m → expect_method s p m = Ok tt.
Proof. intros H. unfold expect_method. rewrite H. by rewrite decide_True. Qed.

Lemma apply_line_wac_run t l s r st' :
  method_of s !! req_pool_id l = Some Wac → req_qty l ≠ 0 →
  (if 0 <? req_qty l then aggregate_receipt l t (s, r)
   else aggregate_deplete l t (agg_unit_cost (agg_of s (req_pool_id l))) (s, r)) = (Ok tt, st') →
  apply_line t l (s, r) = (Ok tt, st').
Proof.
  intros Hm Hq H. unfold apply_line, apply_wac, agg_of in *.
  unfold mbind, SE_bind, snapshot, gets, returns, lift in *. cbn. rewrite Hm. cbn.
  rewrite (expect_method_Ok _ _ _ Hm).
  destruct (read_aggregate s (req_pool_id l)) as [[[q u] v] e].
  destruct (Z.compare_spec (req_qty l) 0), (Z.ltb_spec 0 (req_qty l)); try lia; done.
Qed.

Lemma derived_cost_in_i64 q v u :
  0 < q → 0 ≤ v → in_i64 v → in_i64 (derived_cost q v u).
Proof.
  intros Hq Hv Hi. rewrite derived_cost_pos by done.
  pose proof (banker_round_between v q 0 v). solve_i64.
Qed.

(** The aggregate of [lines] received on top of [a], whatever their order. *)
Definition received (a : Agg) (lines : list TrxLineRequest) : Agg :=
  let q := agg_qty a + sumZ req_qty lines in
  let v := agg_value a + sumZ (λ l, req_qty l * req_unit_cost l) lines in
  {| agg_qty := q; agg_unit_cost := derived_cost q v (agg_unit_cost a); agg_value := v |}.

Definition plain_receipt (p : Z) (l : TrxLineRequest) : Prop :=
  req_pool_id l = p ∧ 0 < req_qty l ∧ 0 ≤ req_unit_cost l.

Lemma plain_receipt_sums p lines :
  Forall (plain_receipt p) lines →
  0 ≤ sumZ req_qty lines ∧ 0 ≤ sumZ (λ l, req_qty l * req_unit_cost l) lines.
Proof.
  induction 1 as [|l lines (_ & ? & ?) _ [IH1 IH2]]; autorewrite with ledger; [done|nia].
Qed.

Lemma received_nil a : wac_inv a → received a [] = a.
Proof.
  intros [Hq Hz Hc]. unfold received. rewrite !sumZ_nil, !Z.add_0_r.
  destruct a as [q u v]. cbn in *. f_equal. unfold derived_cost.
  destruct (Z.ltb_spec 0 q); [|done]. symmetry. auto.
Qed.

Lemma received_cons a l lines :
  0 < agg_qty a + req_qty l + sumZ req_qty lines →
  received (wac_receive a (req_qty l) (req_unit_cost l)) lines = received a (l :: lines).
Proof.
  intros Hq. unfold received. cbn. rewrite !sumZ_cons, !Z.add_assoc.
  f_equal. by rewrite !derived_cost_pos.
Qed.

(** One receipt whose results fit succeeds and leaves [wac_receive]. *)
Lemma wac_receipt_run t l s r accts :
  let p := req_pool_id l in
  let a := agg_of s p in
  method_of s !! p = Some Wac → posting_accounts_of s !! p = Some accts →
  0 ≤ agg_qty a → 0 ≤ agg_value a → 0 < req_qty l → 0 ≤ req_unit_cost l →
  in_i64 (agg_qty a + req_qty l) → in_i64 (agg_value a + req_qty l * req_unit_cost l) →
  ∃ r', apply_line t l (s, r) =
    (Ok tt, (put_agg p (wac_receive a (req_qty l) (req_unit_cost l)) s, r')).
Proof.
  cbn. intros Hm Ha Hq Hv Hlq Hlc Hiq Hiv. eexists. apply apply_line_wac_run; [done|lia|].
  destruct (Z.ltb_spec 0 (req_qty l)); [|lia]. apply aggregate_receipt_spec. exists accts.
  split_and!; cbn; [done..| | |reflexivity].
  - intros. apply derived_cost_in_i64; [done| |done]. nia.
  - solve_i64.
Qed.

Lemma wac_receipts_run t p accts lines s r :
  method_of s !! p = Some Wac → posting_accounts_of s !! p = Some accts →
  wac_inv (agg_of s p) → 0 ≤ agg_value (agg_of s p) → Forall (plain_receipt p) lines →
  in_i64 (agg_qty (received (agg_of s p) lines)) →
  in_i64 (agg_value (received (agg_of s p) lines)) →
  ∃ s' r', iterM (apply_line t) lines (s, r) = (Ok tt, (s', r')) ∧
    agg_of s' p = received (agg_of s p) lines.
Proof.
  revert s r. induction lines as [|l lines IH]; intros s r Hm Ha Hinv Hv HF Hiq Hiv.
  { exists s, r. by rewrite received_nil. }
  apply Forall_cons in HF as [(<- & Hlq & Hlc) HF]. pose proof (wi_qty _ Hinv) as Hq.
  destruct (plain_receipt_sums _ _ HF) as [Hsq Hsv].
  destruct (wac_receipt_run t l s r accts) as [r1 H1]; [done..| | |].
  1,2: unfold received in *; cbn in *; rewrite sumZ_cons in *;
       solve_i64.
  rewrite <-received_cons in * by lia. set (s1 := put_agg _ _ s) in H1.
  pose proof (agg_of_put _ _ _ : agg_of s1 (req_pool_id l) = _) as Hput.
  destruct (IH s1 r1) as (s' & r' & Hrun & Hres); [..|rewrite Hput in Hres]; rewrite ?Hput; try done.
  - split; cbn; [lia|lia|]. intros. by apply derived_cost_pos.
  - cbn. nia.
  - exists s', r'. split; [|done]. cbn. unfold mbind, SE_bind. by rewrite H1.
Qed.

(** Positive receipts at nonnegative costs into a running-average pool always
    succeed while the final quantity and value fit 64 bits, and every order of
    the same receipts gives the same exact book value, the same quantity and the
    same half-even average: no rounding error accumulates. *)
Theorem wac_receipts_order_independent t p accts lines lines' s :
  method_of s !! p = Some Wac → posting_accounts_of s !! p = Some accts →
  wac_inv (agg_of s p) → 0 ≤ agg_value (agg_of s p) → Forall (plain_receipt p) lines →
  in_i64 (agg_qty (agg_of s p) + sumZ req_qty lines) →
  in_i64 (agg_value (agg_of s p) + sumZ (λ l, req_qty l * req_unit_cost l) lines) →
  lines' ≡ₚ lines →
  ∃ r s', plan_apply s lines' t = (Ok r, s') ∧ agg_of s' p = received (agg_of s p) lines.
Proof.
  intros Hm Ha Hinv Hv HF Hiq Hiv Hperm.
  assert (received (agg_of s p) lines = received (agg_of s p) lines') as Heq
    by (unfold received; by rewrite Hperm).
  destruct (wac_receipts_run t p accts lines' s plan_default) as (s' & r & Hrun & Hres); try done.
  - by rewrite Hperm.
  - by rewrite <-Heq.
  - by rewrite <-Heq.
  - exists r, s'. rewrite plan_apply_run, Heq. done.
Qed.

Lemma wac_receipts_order_independent_witness :
  ∃ r s', plan_apply example_snapshot [receipt_line 1 2 5; receipt_line 1 1 7; receipt_line 1 1 0] 0
            = (Ok r, s') ∧
          agg_of s' 1 = {| agg_qty := 4; agg_unit_cost := 4; agg_value := 17 |}.
Proof.
  apply (wac_receipts_order_independent 0 1 example_accounts
    [receipt_line 1 1 7; receipt_line 1 2 5; receipt_line 1 1 0]
    [receipt_line 1 2 5; receipt_line 1 1 7; receipt_line 1 1 0] example_snapshot);
    [done..| | | | | |].
  - apply wac_inv_empty.
  - vm_compute. discriminate.
  - repeat constructor; cbn; lia.
  - vm_compute. split; discriminate.
  - vm_compute. split; discriminate.
  - constructor.
Defined.

(** * The book value of a pool in stock has no lower bound *)
Lemma wac_issue_run t l s r accts :
  let p := req_pool_id l in
  let a := agg_of s p in
  let n := - req_qty l in
  let a' := wac_issue a n (agg_unit_cost a) in
  method_of s !! p = Some Wac → posting_accounts_of s !! p = Some accts →
  in_i64 (agg_qty a) → 0 < n ≤ agg_qty a → in_i64 (n * agg_unit_cost a) →
  in_i64 (agg_value a') → (agg_qty a ≠ n → in_i64 (agg_unit_cost a')) →
  ∃ ms xs, apply_line t l (s, r) =
    (Ok tt, (put_agg p a' s, add_line (line_out l (agg_unit_cost a) None) ms xs r)).
Proof.
  cbn. intros Hm Ha Hiq Hn Hamt Hv Hu. eexists _, _. apply apply_line_wac_run; [done|lia|].
  destruct (Z.ltb_spec 0 (req_qty l)); [lia|]. apply aggregate_deplete_spec; [done|].
  replace (Z.abs (req_qty l)) with (- req_qty l) by lia.
  exists accts. split_and!; [done| |lia|done..|].
  - solve_i64.
  - reflexivity.
Qed.

Definition dip_lines (n : Z) : list TrxLineRequest :=
  [receipt_line 1 n 0; receipt_line 1 (n + 1) 1; receipt_line 1 (- (2 * n)) 0].

Lemma dip_average n : 0 < n → banker_round (n + 1) (2 * n + 1) = 1.
Proof.
  intros. apply (rounds_half_even_unique (n + 1) (2 * n + 1)); [lia|apply banker_round_spec; lia|].
  split; lia.
Qed.

Lemma banker_round_1 v : banker_round v 1 = v.
Proof.
  apply (rounds_half_even_unique v 1); [lia|apply banker_round_spec; lia|]. split; lia.
Qed.

Lemma run_config t lines st st' :
  iterM (apply_line t) lines st = (Ok tt, st') → same_config st.1 st'.1.
Proof.
  intros H. refine (iterM_inv (λ s, same_config st.1 s.1) _ _ _ _ _ H _); [|done].
  intros l s1 s2 _ Hl ?. etrans; [done|]. eapply apply_line_config, Hl.
Qed.

Lemma dip_receipts n :
  0 < n ≤ 2 ^ 61 →
  ∃ s r, iterM (apply_line 0) [receipt_line 1 n 0; receipt_line 1 (n + 1) 1]
           (example_snapshot, plan_default) = (Ok tt, (s, r)) ∧
    same_config example_snapshot s ∧
    agg_of s 1 = {| agg_qty := 2 * n + 1; agg_unit_cost := 1; agg_value := n + 1 |}.
Proof.
  intros Hn. pose proof (eq_refl : agg_of example_snapshot 1 = agg_empty) as Hempty.
  assert (received agg_empty [receipt_line 1 n 0; receipt_line 1 (n + 1) 1] =
    {| agg_qty := 2 * n + 1; agg_unit_cost := 1; agg_value := n + 1 |}) as Hrec.
  { unfold received. rewrite !sumZ_cons, !sumZ_nil. cbn [receipt_line req_qty req_unit_cost agg_empty
      agg_qty agg_value agg_unit_cost]. rewrite derived_cost_pos by lia.
    replace (0 + (n + (n + 1 + 0))) with (2 * n + 1) by lia.
    replace (0 + (n * 0 + ((n + 1) * 1 + 0))) with (n + 1) by lia.
    by rewrite dip_average by lia. }
  destruct (wac_receipts_run 0 1 example_accounts [receipt_line 1 n 0; receipt_line 1 (n + 1) 1]
    example_snapshot plan_default) as (s1 & r1 & H1 & Ha1);
    rewrite ?Hempty, ?Hrec in *; [done..| | | | | |].
  - apply wac_inv_empty.
  - done.
  - repeat constructor; cbn; lia.
  - cbn. solve_i64.
  - cbn. solve_i64.
  - exists s1, r1. split_and!; [done| |done]. by apply run_config in H1.
Qed.

(** The exact book value of a running-average pool that still has stock, and
    with it the derived unit cost, can be driven below any bound by two receipts
    and one issue: the issue is booked at a rounded average that is up to half a
    unit too high for each unit it takes.  The next issue is then recorded at
    that negative unit cost. *)
Theorem wac_value_unbounded_below n :
  2 ≤ n ≤ 2 ^ 61 →
  ∃ r s' r2 s2 o,
    plan_apply example_snapshot (dip_lines n) 0 = (Ok r, s') ∧
    agg_of s' 1 = {| agg_qty := 1; agg_unit_cost := 1 - n; agg_value := 1 - n |} ∧
    plan_apply example_snapshot (dip_lines n ++ [receipt_line 1 (-1) 0]) 0 = (Ok r2, s2) ∧
    last (trx_lines r2) = Some o ∧ out_unit_cost o = 1 - n.
Proof.
  intros Hn. destruct (dip_receipts n) as (s1 & r1 & H1 & Hc1 & Ha1); [lia|].
  destruct (wac_issue_run 0 (receipt_line 1 (- (2 * n)) 0) s1 r1 example_accounts)
    as (ms & xs & H2); cbn [receipt_line req_qty req_pool_id] in *;
    [by rewrite (proj1 Hc1)|by destruct Hc1 as (_ & _ & _ & ->)|..];
    unfold wac_issue in *; rewrite ?Ha1 in *; cbn [agg_qty agg_unit_cost agg_value] in *;
    rewrite ?derived_cost_pos in * by lia.
  all: replace (2 * n + 1 - - - (2 * n)) with 1 in * by lia.
  all: replace (n + 1 - - - (2 * n) * 1) with (1 - n) in * by lia.
  all: cbn [Z.eqb Pos.eqb] in *; rewrite ?banker_round_1 in *.
  1-5: solve_i64.
  set (a2 := {| agg_qty := 1; agg_unit_cost := 1 - n; agg_value := 1 - n |}) in H2.
  set (r2 := add_line _ ms xs r1) in H2.
  assert (iterM (apply_line 0) (dip_lines n) (example_snapshot, plan_default) =
    (Ok tt, (put_agg 1 a2 s1, r2))) as Hdip.
  { change (dip_lines n) with ([receipt_line 1 n 0; receipt_line 1 (n + 1) 1] ++
      [receipt_line 1 (- (2 * n)) 0]). rewrite iterM_app. unfold mbind, SE_bind. rewrite H1.
    cbn. unfold mbind, SE_bind. by rewrite H2. }
  destruct (wac_issue_run 0 (receipt_line 1 (-1) 0) (put_agg 1 a2 s1) r2 example_accounts)
    as (ms3 & xs3 & H3); cbn [receipt_line req_qty req_pool_id] in *; rewrite ?agg_of_put in *;
    [cbn; by rewrite (proj1 Hc1)|cbn; by destruct Hc1 as (_ & _ & _ & ->)|..];
    try (cbn; solve_i64); [done|].
  exists r2, (put_agg 1 a2 s1). eexists _, _, _. rewrite !plan_apply_run. split_and!.
  - exact Hdip.
  - apply agg_of_put.
  - rewrite iterM_app. unfold mbind, SE_bind. rewrite Hdip. cbn. unfold mbind, SE_bind.
    by rewrite H3.
  - cbn. apply last_snoc.
  - done.
Qed.

Lemma wac_value_unbounded_below_witness :
  ∃ r s' r2 s2 o,
    plan_apply example_snapshot (dip_lines 1000000) 0 = (Ok r, s') ∧
    agg_of s' 1 = {| agg_qty := 1; agg_unit_cost := -999999; agg_value := -999999 |} ∧
    plan_apply example_snapshot (dip_lines 1000000 ++ [receipt_line 1 (-1) 0]) 0 = (Ok r2, s2) ∧
    last (trx_lines r2) = Some o ∧ out_unit_cost o = -999999.
Proof. apply (wac_value_unbounded_below 1000000). lia. Defined.
