(* ===== verification/StdLaws.v ===== *)
(** Laws of the standard-cost method: the pool is carried at standard, and the
    postings of a receipt split the actual cost into standard and variance. *)
From S2P Require Import Prelude Numeric Plan Snapshot Wac StandardCost SpecificId Method CostLaws.

(** A pool of [q] units carried at the standard [c]. *)
Definition at_standard (c q : Z) : Agg :=
  {| agg_qty := q; agg_unit_cost := c; agg_value := q * c |}.

Definition std_line (c : Z) (a : Agg) (l : TrxLineRequest) : Agg :=
  if req_qty l =? 0 then a else at_standard c (agg_qty a + req_qty l).

(** The effect of a set of postings on one account, debits positive. *)
Definition gl_delta (acct : Z) (xs : list PostingLineRequest) : Z :=
  sumZ (λ x, (if pst_debit_account x =? acct then pst_amount x else 0)
             - (if pst_credit_account x =? acct then pst_amount x else 0)) xs.

Lemma resolve_standard_cost_Ok s p c :
  standard.resolve_standard_cost s p = Ok c ↔ standard_cost_of s !! p = Some c.
Proof.
  unfold standard.resolve_standard_cost.
  destruct (standard_cost_of s !! p); [naive_solver|]. by destruct (sku_location s p).
Qed.

(** The variance leg: the postings it adds carry exactly [q * (c_actual - c_std)]
    from the counter account to the variance account. *)
Definition variance_legs (accts : PostingAccounts) (q delta k : Z) (i : nat) (t : Timestamp)
    (xs : list PostingLineRequest) : Prop :=
  (delta = 0 ∧ xs = []) ∨
  ∃ v x, delta ≠ 0 ∧ acc_variance accts = Some v ∧ xs = [x] ∧
    pst_trx_line_idx x = i ∧ pst_event_type x = Variance ∧ pst_posted_at x = t ∧
    pst_amount x = Z.abs (q * delta) ∧
    (pst_debit_account x, pst_credit_account x) = (if 0 <? q * delta then (v, k) else (k, v)).

Lemma post_variance_spec accts p q ca cs k i t s r st' :
  standard.post_variance accts p q ca cs k i t (s, r) = (Ok tt, st') →
  ∃ xs, variance_legs accts q (ca - cs) k i t xs ∧
    st' = (s, {| trx_lines := trx_lines r; pool_state_mutations := pool_state_mutations r;
                 posting_lines := posting_lines r ++ xs |}).
Proof.
  unfold standard.post_variance. intros H. core_inv.
  - exists []. rewrite app_nil_r. split; [left; split; [by apply Z.eqb_eq|done]|by destruct r].
  - eexists [_]. split; [|reflexivity]. right. eexists _, _. apply Z.eqb_neq in Hcond.
    split_and!; try done; cbn; repeat case_match; simplify_eq; try done;
      rewrite ?Z.ltb_lt, ?Z.ltb_ge in *; lia.
Qed.

Lemma std_receipt_spec line t c q0 s r st' :
  let p := req_pool_id line in
  let q := req_qty line in
  standard.receipt line t c q0 (s, r) = (Ok tt, st') →
  ∃ accts xs, posting_accounts_of s !! p = Some accts ∧
    in_i64 (q0 + q) ∧ in_i64 ((q0 + q) * c) ∧ in_i64 (q * c) ∧
    variance_legs accts q (req_unit_cost line - c) (pair_for accts (req_line_type line)).2
      (length (trx_lines r)) t xs ∧
    st' = (put_agg p (at_standard c (q0 + q)) s,
           add_line (line_out line c None) [upsert p (at_standard c (q0 + q))]
             (posting (length (trx_lines r)) InventoryReceipt (q * c)
                (pair_for accts (req_line_type line)) t :: xs) r).
Proof.
  cbn. unfold standard.receipt. intros H. core_inv.
  match goal with H : standard.post_variance _ _ _ _ _ _ _ _ _ = _ |- _ =>
    apply post_variance_spec in H as (xs & Hxs & ->) end.
  apply resolve_posting_accounts_Ok in H.
  exists x0, xs. rewrite Heqp. split_and!; try done. finish_postings.
Qed.

Lemma std_deplete_spec line t c q0 s r st' :
  let p := req_pool_id line in
  let n := Z.abs (req_qty line) in
  in_i64 q0 → standard.deplete line t c q0 (s, r) = (Ok tt, st') →
  ∃ accts, posting_accounts_of s !! p = Some accts ∧ n ≤ q0 ∧ in_i64 n ∧
    in_i64 ((q0 - n) * c) ∧ in_i64 (n * c) ∧
    st' = (put_agg p (at_standard c (q0 - n)) s,
           add_line (line_out line c None) [upsert p (at_standard c (q0 - n))]
             [posting (length (trx_lines r)) InventoryDepletion (n * c)
                (swap_pair (pair_for accts (req_line_type line))) t] r).
Proof.
  cbn. intros Hi. unfold standard.deplete. intros H. core_inv.
  apply resolve_posting_accounts_Ok in H. apply Z.ltb_ge in Hcond.
  rewrite wsub_in in * by (done || lia). exists x0. split_and!; try done. finish_postings.
Qed.

(** One line of a standard-cost pool. *)
Lemma apply_line_std t l s r st' c :
  let a := agg_of s (req_pool_id l) in
  method_of s !! req_pool_id l = Some Std → standard_cost_of s !! req_pool_id l = Some c →
  in_i64 (agg_qty a) → 0 ≤ agg_qty a →
  apply_line t l (s, r) = (Ok tt, st') →
  agg_of st'.1 (req_pool_id l) = std_line c a l ∧
  in_i64 (agg_qty (std_line c a l)) ∧ 0 ≤ agg_qty (std_line c a l).
Proof.
  cbn. intros Hm Hc Hi Hnn H. unfold apply_line, standard.apply_std in H. core_inv.
  cbn in *. simplify_eq. unfold std_line. core_inv.
  { done. }
  all: match goal with H : standard.resolve_standard_cost _ _ = _ |- _ =>
         apply resolve_standard_cost_Ok in H end; simplify_eq.
  all: assert (agg_qty (agg_of x0 (req_pool_id l)) = z0) as Hz by (unfold agg_of; by rewrite Heqp).
  all: rewrite Hz in *.
  - match goal with H : standard.receipt _ _ _ _ _ = _ |- _ =>
      apply std_receipt_spec in H as (accts & xs & _ & ? & _ & _ & _ & ->) end.
    cbn [fst]. rewrite agg_of_put. apply Z.ltb_lt in Hcond0. cbn. split_and!; [done..|lia].
  - match goal with H : standard.deplete _ _ _ _ _ = _ |- _ =>
      apply std_deplete_spec in H as (accts & _ & ? & ? & _ & _ & ->); [|done] end.
    cbn [fst]. rewrite agg_of_put. apply Z.ltb_ge in Hcond0. apply Z.eqb_neq in Hcond.
    replace (z0 - Z.abs (req_qty l)) with (z0 + req_qty l) by lia.
    cbn. unfold in_i64, i64_min, i64_max in *. split_and!; [done|lia..].
Qed.

Lemma sumZ_zero_lines ls : nonzero_lines ls = [] → sumZ req_qty ls = 0.
Proof.
  unfold nonzero_lines. induction ls as [|l ls IH]; [done|]. rewrite sumZ_cons, filter_cons.
  case_decide; [done|]. intros. rewrite IH by done. lia.
Qed.

Lemma foldl_std_line c a ls :
  foldl (std_line c) a ls =
    (if bool_decide (nonzero_lines ls = []) then a
     else at_standard c (agg_qty a + sumZ req_qty ls)).
Proof.
  revert a. unfold nonzero_lines. induction ls as [|l ls IH]; intros a; [done|]. cbn [foldl].
  rewrite IH, filter_cons, sumZ_cons. unfold std_line.
  destruct (Z.eqb_spec (req_qty l) 0) as [E|E]; [rewrite decide_False by lia|rewrite decide_True by lia].
  - rewrite E, Z.add_0_l. done.
  - cbn [bool_decide]. rewrite bool_decide_false with (P := _ :: _ = []) by done. cbn.
    case_bool_decide as Hnil; [|f_equal; lia].
    rewrite (sumZ_zero_lines ls Hnil). f_equal. lia.
Qed.

(** A standard-cost pool is carried at standard.  After a successful
    submission that moves the pool, whatever else it contains, the stored
    quantity is the old one plus the moved quantities, the stored unit cost is
    the standard and the stored value is quantity times standard exactly; no
    prefix of the lines oversells, and a submission that does not move the pool
    leaves its aggregate alone. *)
Theorem std_plan_at_standard s lines t r s' p c :
  method_of s !! p = Some Std → standard_cost_of s !! p = Some c →
  in_i64 (agg_qty (agg_of s p)) → 0 ≤ agg_qty (agg_of s p) →
  plan_apply s lines t = (Ok r, s') →
  let ls := pool_lines p lines in
  (nonzero_lines ls ≠ [] →
     agg_of s' p = at_standard c (agg_qty (agg_of s p) + sumZ req_qty ls)) ∧
  (nonzero_lines ls = [] → agg_of s' p = agg_of s p) ∧
  ∀ k, k `prefix_of` ls → 0 ≤ agg_qty (agg_of s p) + sumZ req_qty k.
Proof.
  intros Hm Hc Hi Hnn H. cbn.
  destruct (pool_fold t p s (std_line c) (λ a, in_i64 (agg_qty a) ∧ 0 ≤ agg_qty a))
    with (lines := lines) (r := r) (s' := s') as [Ha Hp]; [|done..|].
  { intros l s1 r1 st' (Hcm & _ & Hcs & _) <- [Hi1 Hn1] Hl.
    destruct (apply_line_std t l s1 r1 st' c) as (-> & ? & ?); [by rewrite Hcm|by rewrite Hcs|done..]. }
  rewrite foldl_std_line in Ha. split_and!.
  - intros Hne. by rewrite bool_decide_false in Ha by done.
  - intros Heq. by rewrite bool_decide_true in Ha by done.
  - intros k Hk. specialize (Hp k Hk) as [_ Hp]. rewrite foldl_std_line in Hp.
    case_bool_decide as Hnil; [|done].
    rewrite (sumZ_zero_lines k Hnil). lia.
Qed.

Lemma std_plan_at_standard_witness :
  match plan_apply example_snapshot example_lines 0 with
  | (Ok _, s') => agg_of s' 2 = at_standard 10 3
  | (Err _, _) => False
  end.
Proof.
  destruct (plan_apply example_snapshot example_lines 0) as [[r|e] s'] eqn:E;
    [|vm_compute in E; discriminate E].
  destruct (std_plan_at_standard example_snapshot example_lines 0 r s' 2 10) as [Hat _].
  - reflexivity.
  - reflexivity.
  - vm_compute. split; discriminate.
  - vm_compute. discriminate.
  - exact E.
  - rewrite Hat; [reflexivity|discriminate].
Defined.

Lemma gl_delta_cons acct x xs :
  gl_delta acct (x :: xs) =
    (if pst_debit_account x =? acct then pst_amount x else 0)
    - (if pst_credit_account x =? acct then pst_amount x else 0) + gl_delta acct xs.
Proof. unfold gl_delta. by rewrite sumZ_cons. Qed.

Lemma variance_legs_delta accts q delta k i t xs acct :
  variance_legs accts q delta k i t xs →
  (∀ v, acc_variance accts = Some v → v ≠ k) →
  gl_delta acct xs =
    (if decide (acc_variance accts = Some acct) then q * delta
     else if decide (acct = k ∧ is_Some (acc_variance accts)) then - (q * delta) else 0).
Proof.
  intros [[-> ->]|(v & x & Hd & Hv & -> & _ & _ & _ & Hamt & Hacc)] Hne.
  { unfold gl_delta. rewrite sumZ_nil. repeat case_decide; lia. }
  specialize (Hne v Hv). rewrite gl_delta_cons. unfold gl_delta. rewrite sumZ_nil, Hv, Hamt.
  destruct (Z.ltb_spec 0 (q * delta)); injection Hacc as -> ->;
    destruct (Z.eqb_spec v acct) as [->|], (Z.eqb_spec k acct) as [->|];
    repeat case_decide; simplify_eq; try lia; naive_solver.
Qed.

(** The postings of a standard-cost receipt split the actual cost: with
    distinct accounts, inventory is debited at standard, the counter account is
    credited at the actual cost and the variance account carries the difference,
    whatever its sign.  Without a variance account only a receipt at exactly the
    standard succeeds. *)
Theorem std_receipt_books s l t r s' c accts d k :
  method_of s !! req_pool_id l = Some Std → standard_cost_of s !! req_pool_id l = Some c →
  posting_accounts_of s !! req_pool_id l = Some accts →
  pair_for accts (req_line_type l) = (d, k) → d ≠ k →
  (∀ v, acc_variance accts = Some v → v ≠ d ∧ v ≠ k) →
  0 < req_qty l →
  plan_apply s [l] t = (Ok r, s') →
  gl_delta d (posting_lines r) = req_qty l * c ∧
  gl_delta k (posting_lines r) = - (req_qty l * req_unit_cost l) ∧
  match acc_variance accts with
  | Some v => gl_delta v (posting_lines r) = req_qty l * (req_unit_cost l - c)
  | None => req_unit_cost l = c
  end.
Proof.
  intros Hm Hc Ha Hpair Hdk Hvar Hq. rewrite plan_apply_run. cbn. intros H.
  unfold apply_line, standard.apply_std in H. core_inv. cbn in *. simplify_eq.
  core_inv; [lia| |lia].
  match goal with H : standard.resolve_standard_cost _ _ = _ |- _ =>
    apply resolve_standard_cost_Ok in H end. simplify_eq.
  match goal with H : standard.receipt _ _ _ _ _ = _ |- _ =>
    apply std_receipt_spec in H as (accts' & xs & ? & _ & _ & _ & Hxs & Hst) end.
  simplify_eq. cbn. rewrite Hpair in *. cbn in Hxs.
  pose proof (λ acct, variance_legs_delta _ _ _ _ _ _ _ acct Hxs (λ v Hv, proj2 (Hvar v Hv))) as Hd.
  rewrite !gl_delta_cons, !Hd. cbn. rewrite !Z.eqb_refl.
  rewrite (proj2 (Z.eqb_neq d k)), (proj2 (Z.eqb_neq k d)) by done.
  destruct (acc_variance accts) as [v|] eqn:Ev.
  - destruct (Hvar v eq_refl). rewrite gl_delta_cons, Hd. cbn.
    rewrite (proj2 (Z.eqb_neq d v)), (proj2 (Z.eqb_neq k v)) by done.
    rewrite (decide_True (P := Some v = Some v)) by done.
    rewrite !(decide_False (P := Some v = Some _)) by congruence.
    rewrite decide_False by naive_solver. rewrite decide_True by eauto. lia.
  - assert (req_unit_cost l - c = 0) as Hz by (destruct Hxs as [[? _]|(?&?&?&?&?)]; congruence).
    rewrite !(decide_False (P := None = Some _)) by done.
    rewrite !decide_False by (intros [_ [? ?]]; done).
    split_and!; nia.
Qed.

Lemma std_receipt_books_witness :
  match plan_apply example_snapshot [receipt_line 2 4 12] 0 with
  | (Ok r, _) => gl_delta 100 (posting_lines r) = 40 ∧
                 gl_delta 200 (posting_lines r) = -48 ∧ gl_delta 300 (posting_lines r) = 8
  | (Err _, _) => False
  end.
Proof.
  destruct (plan_apply example_snapshot [receipt_line 2 4 12] 0) as [[r|e] s'] eqn:E;
    [|vm_compute in E; discriminate E].
  apply (std_receipt_books example_snapshot (receipt_line 2 4 12) 0 r s' 10 example_accounts 100 200);
    [reflexivity..|discriminate| |reflexivity|exact E].
  intros v [= <-]. done.
Defined.
