(* ===== verification/SpecificLaws.v ===== *)
(** Laws of the specific-identification method: exact consumption of the single
    layer, and what a partial depletion leaves behind. *)
From S2P Require Import Prelude Numeric Plan Snapshot Wac StandardCost SpecificId Method CostLaws.

(** The rows of a specific pool holding one layer of [q] units at [c]. *)
Definition agg_row (q c v : Z) : PoolStateRow :=
  {| row_layer_id := 0; row_qty := q; row_unit_cost := c; row_value_sum := v |}.
Definition layer_row (lid q c : Z) : PoolStateRow :=
  {| row_layer_id := lid; row_qty := q; row_unit_cost := c; row_value_sum := q * c |}.

Record specific_pool (s : Snapshot) (p : Z) (accts : PostingAccounts)
    (rows : list PoolStateRow) : Prop := {
  sp_method : method_of s !! p = Some Specific;
  sp_accts : posting_accounts_of s !! p = Some accts;
  sp_rows : pools s !! p = Some rows;
}.

Lemma plan_apply_single s l t :
  plan_apply s [l] t =
    match apply_line t l (s, plan_default) with
    | (Ok _, (s', r)) => (Ok r, s')
    | (Err e, (s', _)) => (Err e, s')
    end.
Proof.
  unfold plan_apply. cbn. unfold mbind, SE_bind.
  by destruct (apply_line t l (s, plan_default)) as [[[]|?] [? ?]].
Qed.

Lemma apply_line_specific s p accts rows l t r :
  specific_pool s p accts rows → req_pool_id l = p →
  apply_line t l (s, r) =
    match req_qty l ?= 0 with
    | Eq => (Ok tt, (s, r))
    | Gt => specific.receipt l t (s, r)
    | Lt => specific.deplete l t (s, r)
    end.
Proof.
  intros [Hm _ _] <-. unfold apply_line, specific.apply_specific.
  unfold mbind, SE_bind, snapshot, gets, returns, lift. cbn. rewrite Hm. cbn.
  rewrite (expect_method_Ok _ _ _ Hm). by destruct (req_qty l ?= 0).
Qed.

(** Depleting [n] of the layer's [q] units: the layer goes whole, the aggregate
    keeps the difference. *)
Lemma specific_deplete_run s p accts lid q c l t r :
  specific_pool s p accts [agg_row q c (q * c); layer_row lid q c] →
  req_pool_id l = p → 0 < lid → 0 < - req_qty l ≤ q → 0 ≤ c → in_i64 q → in_i64 (q * c) →
  let n := - req_qty l in
  let a' := {| agg_qty := q - n; agg_unit_cost := c; agg_value := (q - n) * c |} in
  specific.deplete l t (s, r) =
    (Ok tt, (put_agg p a' (specific.retain_other_layers p lid s),
             add_line (line_out l c (Some lid)) [DeleteLayer p lid; upsert p a']
               [posting (length (trx_lines r)) InventoryDepletion (n * c)
                  (swap_pair (pair_for accts (req_line_type l))) t] r)).
Proof.
  intros [Hm Ha Hrows] <- Hlid Hn Hc Hiq Hiv. cbn. unfold specific.deplete.
  unfold mbind, SE_bind, snapshot, gets, returns, lift.
  cbn -[i64_try_from wsub Z.max Z.leb].
  rewrite (proj2 (resolve_posting_accounts_Ok _ _ _) Ha), Hrows.
  unfold read_aggregate, aggregate. rewrite Hrows.
  destruct (pair_for accts (req_line_type l)) as [d k].
  replace (Z.abs (req_qty l)) with (- req_qty l) by lia.
  assert (in_i64 (- req_qty l)) by (solve_i64).
  assert (in_i64 ((q - - req_qty l) * c)) by (solve_i64).
  assert (in_i64 (- req_qty l * c)) by (solve_i64).
  unfold checked_abs. replace (Z.abs (req_qty l)) with (- req_qty l) by lia.
  rewrite i64_try_from_in by done.
  cbn -[i64_try_from wsub Z.max Z.leb Z.ltb Z.mul].
  rewrite (proj2 (Z.ltb_lt 0 lid) Hlid). cbn -[i64_try_from wsub Z.max Z.mul].
  rewrite (proj2 (Z.leb_le (- req_qty l) q)) by lia. cbn -[i64_try_from wsub Z.max Z.mul].
  rewrite wsub_in by (done || lia). rewrite Z.max_l by lia.
  rewrite i64_try_from_in by done. cbn -[i64_try_from Z.mul].
  rewrite i64_try_from_in by done. cbn. finish_postings.
Qed.

Lemma specific_pool_after s p accts lid q c n :
  specific_pool s p accts [agg_row q c (q * c); layer_row lid q c] → 0 < lid →
  let a' := {| agg_qty := q - n; agg_unit_cost := c; agg_value := (q - n) * c |} in
  specific_pool (put_agg p a' (specific.retain_other_layers p lid s)) p accts
    [agg_row (q - n) c ((q - n) * c)].
Proof.
  intros [Hm Ha Hrows] Hlid. unfold specific.retain_other_layers. rewrite Hrows.
  split; cbn -[Z.eqb]; [done..|]. rewrite !lookup_insert_eq. cbn -[Z.eqb].
  rewrite (proj2 (Z.eqb_neq 0 lid)) by lia. rewrite Z.eqb_refl. done.
Qed.

(** Depleting a specific-identification pool consumes its layer at the
    layer's own cost: the transaction line records that cost and the layer it
    came from, one posting carries quantity times cost with the accounts
    swapped, the layer is deleted, and when the whole layer is taken the pool is
    left empty with zero value.  Asking for more than the layer holds is refused
    without touching the snapshot. *)
Theorem specific_depletion s p accts lid q c l t :
  specific_pool s p accts [agg_row q c (q * c); layer_row lid q c] →
  req_pool_id l = p → 0 < lid → 0 ≤ c → in_i64 q → in_i64 (q * c) → in_i64 (- req_qty l) →
  0 < - req_qty l →
  let n := - req_qty l in
  if n <=? q then
    ∃ r s', plan_apply s [l] t = (Ok r, s') ∧
      trx_lines r = [line_out l c (Some lid)] ∧
      pool_state_mutations r = [DeleteLayer p lid; UpsertAggregate p (q - n) c ((q - n) * c)] ∧
      posting_lines r = [posting 0 InventoryDepletion (n * c)
                           (swap_pair (pair_for accts (req_line_type l))) t] ∧
      specific_pool s' p accts [agg_row (q - n) c ((q - n) * c)]
  else plan_apply s [l] t = (Err (Returned (InsufficientInventory p n q)), s).
Proof.
  intros Hsp Hp Hlid Hc Hiq Hiv Hin Hn. cbn. rewrite plan_apply_single.
  rewrite (apply_line_specific _ _ _ _ _ _ _ Hsp Hp).
  destruct (Z.compare_spec (req_qty l) 0); try lia.
  destruct (Z.leb_spec (- req_qty l) q) as [Hle|Hgt].
  - rewrite (specific_deplete_run s p accts lid q c) by (done || lia).
    eexists _, _. split; [reflexivity|]. cbn. split_and!; [done..|].
    by apply specific_pool_after.
  - destruct Hsp as [Hm Ha Hrows]. subst p. unfold specific.deplete.
    unfold mbind, SE_bind, snapshot, gets, returns, lift. cbn -[Z.leb Z.ltb].
    rewrite (proj2 (resolve_posting_accounts_Ok _ _ _) Ha), Hrows.
    destruct (pair_for accts (req_line_type l)) as [d k].
    unfold checked_abs. replace (Z.abs (req_qty l)) with (- req_qty l) by lia.
    rewrite i64_try_from_in by done. cbn -[Z.leb Z.ltb].
    rewrite (proj2 (Z.ltb_lt 0 lid) Hlid). cbn -[Z.leb].
    by rewrite (proj2 (Z.leb_gt (- req_qty l) q)) by lia.
Qed.

Definition specific_example (q : Z) : Snapshot :=
  with_pools example_snapshot (<[3 := [agg_row q 50 (q * 50); layer_row 77 q 50]]> ∅).

Lemma specific_depletion_witness :
  ∃ r s', plan_apply (specific_example 4) [receipt_line 3 (-4) 0] 9 = (Ok r, s') ∧
    trx_lines r = [line_out (receipt_line 3 (-4) 0) 50 (Some 77)] ∧
    pool_state_mutations r = [DeleteLayer 3 77; UpsertAggregate 3 0 50 0] ∧
    posting_lines r = [posting 0 InventoryDepletion 200 (200, 100) 9] ∧
    specific_pool s' 3 example_accounts [agg_row 0 50 0].
Proof.
  apply (specific_depletion (specific_example 4) 3 example_accounts 77 4 50
    (receipt_line 3 (-4) 0) 9); try done; by split.
Defined.

(** A pool whose aggregate claims stock but that has no layer is stuck. *)
Lemma specific_stuck s p accts m c v l t :
  specific_pool s p accts [agg_row m c v] → 0 < m →
  req_pool_id l = p → req_qty l ≠ 0 → in_i64 (Z.abs (req_qty l)) →
  plan_apply s [l] t =
    (Err (Returned (if 0 <? req_qty l then SpecificPoolOccupied p m
                    else InsufficientInventory p (Z.abs (req_qty l)) 0)), s).
Proof.
  intros Hsp Hm Hp Hq Hin. rewrite plan_apply_single.
  rewrite (apply_line_specific _ _ _ _ _ _ _ Hsp Hp). destruct Hsp as [_ Ha Hrows]. subst p.
  unfold specific.receipt, specific.deplete, read_aggregate, aggregate.
  unfold mbind, SE_bind, snapshot, gets, returns, lift. cbn -[Z.ltb].
  rewrite (proj2 (resolve_posting_accounts_Ok _ _ _) Ha), Hrows.
  destruct (pair_for accts (req_line_type l)) as [d k].
  destruct (Z.compare_spec (req_qty l) 0), (Z.ltb_spec 0 (req_qty l)); try lia; cbn -[Z.ltb].
  - unfold checked_abs. by rewrite i64_try_from_in.
  - by rewrite (proj2 (Z.ltb_lt 0 m) Hm).
Qed.

(** The depletion guard admits a quantity below the layer's.  The layer is
    then deleted whole while the aggregate keeps the rest, and the pool is
    stranded: every later receipt is refused as occupied and every later
    depletion for lack of stock, so the remaining units can neither be issued
    nor replaced. *)
Theorem specific_partial_depletion_strands s p accts lid q c l t :
  specific_pool s p accts [agg_row q c (q * c); layer_row lid q c] →
  req_pool_id l = p → 0 < lid → 0 ≤ c → in_i64 q → in_i64 (q * c) → 0 < - req_qty l < q →
  ∃ r s', plan_apply s [l] t = (Ok r, s') ∧
    agg_qty (agg_of s' p) = q + req_qty l ∧
    ∀ l' t', req_pool_id l' = p → req_qty l' ≠ 0 → in_i64 (Z.abs (req_qty l')) →
      plan_apply s' [l'] t' =
        (Err (Returned (if 0 <? req_qty l' then SpecificPoolOccupied p (q + req_qty l)
                        else InsufficientInventory p (Z.abs (req_qty l')) 0)), s').
Proof.
  intros Hsp Hp Hlid Hc Hiq Hiv Hn. rewrite plan_apply_single.
  rewrite (apply_line_specific _ _ _ _ _ _ _ Hsp Hp).
  destruct (Z.compare_spec (req_qty l) 0); try lia.
  rewrite (specific_deplete_run s p accts lid q c) by (done || lia).
  eexists _, _. split; [reflexivity|]. rewrite agg_of_put. cbn [agg_qty]. split; [lia|].
  replace (q + req_qty l) with (q - - req_qty l) by lia.
  intros l' t' Hp' Hq' Hi'. eapply specific_stuck; try done; [|lia].
  by apply specific_pool_after.
Qed.

Lemma specific_partial_depletion_strands_witness :
  ∃ r s', plan_apply (specific_example 4) [receipt_line 3 (-1) 0] 9 = (Ok r, s') ∧
    agg_qty (agg_of s' 3) = 3 ∧
    ∀ l' t', req_pool_id l' = 3 → req_qty l' ≠ 0 → in_i64 (Z.abs (req_qty l')) →
      plan_apply s' [l'] t' =
        (Err (Returned (if 0 <? req_qty l' then SpecificPoolOccupied 3 3
                        else InsufficientInventory 3 (Z.abs (req_qty l')) 0)), s').
Proof.
  apply (specific_partial_depletion_strands (specific_example 4) 3 example_accounts 77 4 50
    (receipt_line 3 (-1) 0) 9); try done; by split.
Defined.
