(* ===== verification/Coalesce.v ===== *)
(** [PlanResult::coalesce_aggregates]: dropping superseded upserts is invisible
    to whoever replays the plan, and leaves at most one upsert per pool. *)
From S2P Require Import Prelude Numeric Plan Snapshot Wac StandardCost SpecificId Method CostLaws.

(** Snapshots that agree on configuration, aggregates and layers; the position
    of the aggregate row among the layers is not observable. *)
Record snapshot_eqv (s s' : Snapshot) : Prop := {
  se_config : same_config s s';
  se_agg p : aggregate s' p = aggregate s p;
  se_layers p : layer_rows s' p = layer_rows s p;
}.
#[global] Instance snapshot_equiv : Equiv Snapshot := snapshot_eqv.
#[global] Instance snapshot_equivalence : Equivalence (≡@{Snapshot}).
Proof.
  split.
  - intros s. by split.
  - intros s s' [Hc Ha Hl]. split; [by symmetry|intros; by rewrite ?Ha, ?Hl..].
  - intros s s' s'' [Hc Ha Hl] [Hc' Ha' Hl']. split; [by etrans|..].
    + intros p. by rewrite Ha', Ha.
    + intros p. by rewrite Hl', Hl.
Qed.

(** A deletion never targets the aggregate row. *)
Definition deletes_layer (m : PoolStateMutation) : Prop :=
  match m with DeleteLayer _ l => l ≠ 0 | _ => True end.

Lemma filter_filter_comm {A} (f g : A → bool) l :
  List.filter f (List.filter g l) = List.filter g (List.filter f l).
Proof.
  induction l as [|a l IH]; [done|]. cbn.
  destruct (f a) eqn:Ef, (g a) eqn:Eg; cbn; rewrite ?Ef, ?Eg, ?IH; done.
Qed.

Lemma find_filter_other {A} (f g : A → bool) l :
  (∀ a, f a = true → g a = true) → List.find f (List.filter g l) = List.find f l.
Proof.
  intros Hfg. induction l as [|a l IH]; [done|]. cbn. destruct (f a) eqn:Ef.
  - rewrite (Hfg a Ef). cbn. by rewrite Ef.
  - destruct (g a); cbn; rewrite ?Ef; done.
Qed.

Lemma aggregate_retain p l s q :
  l ≠ 0 → aggregate (specific.retain_other_layers p l s) q = aggregate s q.
Proof.
  intros Hl. unfold aggregate, specific.retain_other_layers.
  destruct (pools s !! p) as [rows|] eqn:E; [|done]. cbn. rewrite lookup_insert.
  case_decide; [subst q|done]. rewrite E. cbn. apply find_filter_other.
  intros r Hr%Z.eqb_eq. rewrite Hr. by apply negb_true_iff, Z.eqb_neq.
Qed.

Lemma layer_rows_retain p l s q :
  layer_rows (specific.retain_other_layers p l s) q =
    if decide (p = q) then List.filter (λ r, negb (row_layer_id r =? l)) (layer_rows s q)
    else layer_rows s q.
Proof.
  unfold layer_rows, specific.retain_other_layers.
  destruct (pools s !! p) as [rows|] eqn:E; cbn; [rewrite lookup_insert|];
    case_decide; subst; rewrite ?E; try done. apply filter_filter_comm.
Qed.

Lemma aggregate_put p q u v s p' :
  aggregate (put_aggregate p q u v s) p' =
    if decide (p = p') then
      Some {| row_layer_id := 0; row_qty := q; row_unit_cost := u; row_value_sum := v |}
    else aggregate s p'.
Proof. case_decide; [subst; apply aggregate_put_eq|by apply aggregate_put_ne]. Qed.

Lemma snapshot_mutation_mono m s s' :
  deletes_layer m → s ≡ s' → snapshot_mutation s m ≡ snapshot_mutation s' m.
Proof.
  intros Hm [Hc Ha Hl]. destruct m as [p q u v| |p l]; cbn in *; [|done|].
  - split; [done|intros p'; by rewrite !aggregate_put, ?Ha|intros p'; by rewrite !layer_rows_put].
  - split.
    + etrans; [|etrans; [exact Hc|]]; [symmetry|];
        unfold specific.retain_other_layers; destruct (_ !! _); done.
    + intros p'. by rewrite !aggregate_retain.
    + intros p'. by rewrite !layer_rows_retain, Hl.
Qed.

Lemma replay_mono ms s s' :
  Forall deletes_layer ms → s ≡ s' →
  foldl snapshot_mutation s ms ≡ foldl snapshot_mutation s' ms.
Proof.
  intros Hms. revert s s'. induction Hms as [|m ms Hm _ IH]; intros s s' Hs; [done|].
  cbn. by apply IH, snapshot_mutation_mono.
Qed.

(** An upsert is absorbed by any later upsert of its pool. *)
Lemma upsert_absorbed p q u v ms s :
  Forall deletes_layer ms → p ∈ aggregate_pools ms →
  foldl snapshot_mutation (put_aggregate p q u v s) ms ≡ foldl snapshot_mutation s ms.
Proof.
  intros Hms. revert s. induction Hms as [|m ms Hm Hms IH]; intros s Hp; [by apply not_elem_of_nil in Hp|].
  cbn. destruct (decide (mutation_aggregate_pool m = Some p)) as [Hmp|Hmp].
  - apply replay_mono; [done|]. destruct m as [p' q' u' v'| |]; cbn in *; simplify_eq.
    split; [done|..]; intros p'.
    + rewrite !aggregate_put. by case_decide.
    + by rewrite !layer_rows_put.
  - assert (p ∈ aggregate_pools ms) as Hin.
    { cbn in Hp. destruct (mutation_aggregate_pool m); [|done].
      apply elem_of_cons in Hp as [->|]; done. }
    rewrite <-(IH (snapshot_mutation s m) Hin). apply replay_mono; [done|].
    destruct m as [p' q' u' v'| |p' l]; cbn in *; [|done|].
    + split; [done|..]; intros p''.
      * rewrite !aggregate_put. repeat case_decide; congruence.
      * by rewrite !layer_rows_put.
    + split.
      * unfold specific.retain_other_layers, put_aggregate. cbn.
        repeat destruct (_ !! _); done.
      * intros p''. rewrite aggregate_put, !aggregate_retain, aggregate_put by done. done.
      * intros p''. by rewrite layer_rows_put, !layer_rows_retain, layer_rows_put.
Qed.

Lemma keep_last_replay ms s :
  Forall deletes_layer ms →
  foldl snapshot_mutation s (keep_last ms) ≡ foldl snapshot_mutation s ms.
Proof.
  intros Hms. revert s. induction Hms as [|m ms Hm Hms IH]; intros s; [done|]. cbn.
  destruct (mutation_aggregate_pool m) as [p|] eqn:E; [|apply IH].
  case_decide as Hin; [|apply IH]. rewrite IH. symmetry.
  destruct m as [p' q u v| |]; simplify_eq/=. by apply upsert_absorbed.
Qed.

Lemma keep_last_pools ms p : p ∈ aggregate_pools (keep_last ms) ↔ p ∈ aggregate_pools ms.
Proof.
  induction ms as [|m ms IH]; [done|]. cbn.
  destruct (mutation_aggregate_pool m) as [p'|] eqn:E; cbn; [|by rewrite E].
  case_decide as Hin; cbn; rewrite ?E; cbn; rewrite ?elem_of_cons, IH; [|done].
  split; [by right|]. intros [->|]; done.
Qed.

Lemma keep_last_NoDup_pools ms : NoDup (aggregate_pools (keep_last ms)).
Proof.
  induction ms as [|m ms IH]; cbn; [constructor|].
  destruct (mutation_aggregate_pool m) as [p|] eqn:E; cbn; [|by rewrite E].
  case_decide; [done|]. cbn. rewrite E. cbn. constructor; [by rewrite keep_last_pools|done].
Qed.

Lemma keep_last_sublist ms : keep_last ms `sublist_of` ms.
Proof.
  induction ms as [|m ms IH]; cbn; [constructor|].
  destruct (mutation_aggregate_pool m); [case_decide|]; by constructor.
Qed.

Lemma min_layer_pos rows l : specific.min_layer rows = Some l → 0 < row_layer_id l.
Proof.
  unfold specific.min_layer. rewrite <-(rev_involutive rows).
  generalize (rev rows). clear rows. intros rows. revert l.
  induction rows as [|r rows IH]; intros l; cbn; [done|].
  rewrite foldl_app. cbn. destruct (Z.ltb_spec 0 (row_layer_id r)); [|apply IH].
  destruct (foldl _ _ _) as [b|]; [destruct (Z.ltb_spec (row_layer_id r) (row_layer_id b))|];
    try (intros [= <-]; done). apply IH.
Qed.

Lemma apply_line_deletes t l st st' :
  apply_line t l st = (Ok tt, st') →
  Forall deletes_layer (pool_state_mutations st.2) →
  Forall deletes_layer (pool_state_mutations st'.2).
Proof.
  intros H HF. unfold apply_line, apply_fifo, apply_lifo, apply_wac, standard.apply_std,
    specific.apply_specific, aggregate_receipt, aggregate_deplete, standard.receipt,
    standard.deplete, standard.post_variance, specific.receipt in H. core_inv.
  destruct x; core_inv; try done; cbn; rewrite ?Forall_app, ?Forall_singleton; cbn; try done.
  unfold specific.deplete in *. core_inv. cbn. rewrite !Forall_app, !Forall_singleton.
  split_and!; [done| |done]. cbn. 
  match goal with H : _ ≫= specific.min_layer = Some _ |- _ =>
    apply bind_Some in H as (rows & _ & Hl%min_layer_pos) end. lia.
Qed.

(** Coalescing the plan of a successful submission changes neither its lines
    nor its postings, only drops mutations, leaves at most one aggregate upsert
    per pool (what a single multi-row upsert statement needs), and replaying the
    remaining mutations in order gives the same state. *)
Theorem coalesce_aggregates_sound s lines t r s' :
  plan_apply s lines t = (Ok r, s') →
  trx_lines (coalesce_aggregates r) = trx_lines r ∧
  posting_lines (coalesce_aggregates r) = posting_lines r ∧
  pool_state_mutations (coalesce_aggregates r) `sublist_of` pool_state_mutations r ∧
  NoDup (aggregate_pools (pool_state_mutations (coalesce_aggregates r))) ∧
  foldl snapshot_mutation s (pool_state_mutations (coalesce_aggregates r)) ≡ s'.
Proof.
  rewrite plan_apply_run. intros H. cbn. rewrite coalesce_mutations_keep_last.
  split_and!; [done..|apply keep_last_sublist|apply keep_last_NoDup_pools|].
  rewrite keep_last_replay.
  - destruct (iterM_apply_line_emits _ _ _ _ H) as (os & ms & ps & [_ Hm _ Hs _ _ _]).
    cbn in *. by rewrite Hs, Hm.
  - refine (iterM_inv (λ st, Forall deletes_layer (pool_state_mutations st.2)) _ _ _ _ _ H _).
    + intros l s1 s2 _. apply apply_line_deletes.
    + constructor.
Qed.

Lemma coalesce_aggregates_sound_witness :
  match plan_apply example_snapshot example_lines 0 with
  | (Ok r, s') =>
      length (pool_state_mutations r) = 6%nat ∧
      length (pool_state_mutations (coalesce_aggregates r)) = 4%nat ∧
      foldl snapshot_mutation example_snapshot (pool_state_mutations (coalesce_aggregates r)) ≡ s'
  | (Err _, _) => False
  end.
Proof.
  destruct (plan_apply example_snapshot example_lines 0) as [[r|e] s'] eqn:E;
    [|vm_compute in E; discriminate E].
  split_and!; [| |by apply (coalesce_aggregates_sound example_snapshot example_lines 0)];
    vm_compute in E; injection E as <- _; reflexivity.
Defined.
