(* ===== verification/Strict.v ===== *)
(** [ledger_core::strict]: the layer-walk fold that costs FIFO and LIFO pools in
    the recalc engine, and its refinement to a queue of single units. *)
From S2P Require Import Prelude Numeric.

(** * Data and operations (strict.rs) *)
Record StrictLayer := { sl_layer_id : Z; sl_qty : Z; sl_unit_cost : Z }.
Record StrictEvent := { se_trx_line_id : Z; se_qty : Z; se_unit_cost : Z }.
Record LayerDraw := { ld_layer_trx_line_id : Z; ld_qty : Z; ld_unit_cost : Z }.
Record DepletionCosting := {
  dc_depletion_trx_line_id : Z;
  dc_qty : Z;
  dc_observed_unit_cost : Z;
  dc_authoritative_unit_cost : Z;
  dc_uncovered_qty : Z;
  dc_draws : list LayerDraw;
}.
Record StrictFoldOutput := { fo_costings : list DepletionCosting; fo_layers : list StrictLayer }.

(** The end of the deque the walk works on: [back] for LIFO, [front] for FIFO. *)
Definition end_layer (newest_first : bool) (layers : list StrictLayer) : option StrictLayer :=
  if newest_first then last layers else head layers.
Definition pop_end (newest_first : bool) (layers : list StrictLayer) : list StrictLayer :=
  if newest_first then removelast layers else tail layers.
Definition set_end (newest_first : bool) (l : StrictLayer) (layers : list StrictLayer)
    : list StrictLayer :=
  if newest_first then removelast layers ++ [l] else l :: tail layers.

(** The variables of the [while] loop. *)
Record Walk := {
  wk_layers : list StrictLayer;
  wk_remaining : Z;
  wk_value : Z;
  wk_draws : list LayerDraw;
}.

(** One iteration; [None] when the loop condition fails or the deque is empty. *)
Definition walk_step (newest_first : bool) (w : Walk) : option Walk :=
  if 0 <? wk_remaining w then
    match end_layer newest_first (wk_layers w) with
    | None => None
    | Some layer =>
        let take := Z.min (wk_remaining w) (sl_qty layer) in
        let qty' := wsub (sl_qty layer) take in
        Some {| wk_layers :=
                  if qty' =? 0 then pop_end newest_first (wk_layers w)
                  else set_end newest_first
                         {| sl_layer_id := sl_layer_id layer; sl_qty := qty';
                            sl_unit_cost := sl_unit_cost layer |} (wk_layers w);
                wk_remaining := wsub (wk_remaining w) take;
                wk_value := wk_value w + take * sl_unit_cost layer;
                wk_draws := wk_draws w ++
                  [{| ld_layer_trx_line_id := sl_layer_id layer; ld_qty := take;
                      ld_unit_cost := sl_unit_cost layer |}] |}
    end
  else None.

Fixpoint walk (fuel : nat) (newest_first : bool) (w : Walk) : Walk :=
  match fuel with
  | O => w
  | S fuel =>
      match walk_step newest_first w with
      | None => w
      | Some w' => walk fuel newest_first w'
      end
  end.

(** The layer a receipt opens. *)
Definition layer_of (ev : StrictEvent) : StrictLayer :=
  {| sl_layer_id := se_trx_line_id ev; sl_qty := se_qty ev; sl_unit_cost := se_unit_cost ev |}.

(** One event of the stream.  An iteration that does not pop its layer leaves
    nothing remaining, so one more iteration than there are layers is enough
    fuel ([walk_finished]). *)
Definition fold_event (newest_first : bool) (st : list DepletionCosting * list StrictLayer)
    (ev : StrictEvent) : Res string (list DepletionCosting * list StrictLayer) :=
  let '(costings, layers) := st in
  if 0 <? se_qty ev then
    Ok (costings, layers ++ [layer_of ev])
  else
    let qty := wrap_i64 (Z.abs (se_qty ev)) in
    let w := walk (length layers + 1) newest_first
               {| wk_layers := layers; wk_remaining := qty; wk_value := 0; wk_draws := [] |} in
    let uncovered_qty := wk_remaining w in
    let value := wk_value w + uncovered_qty * se_unit_cost ev in
    authoritative ← banker_div value qty;
    Ok (costings ++
          [{| dc_depletion_trx_line_id := se_trx_line_id ev; dc_qty := qty;
              dc_observed_unit_cost := se_unit_cost ev;
              dc_authoritative_unit_cost := authoritative;
              dc_uncovered_qty := uncovered_qty; dc_draws := wk_draws w |}],
        wk_layers w).

Definition strict_fold (newest_first : bool) (opening : list StrictLayer)
    (events : list StrictEvent) : Res string StrictFoldOutput :=
  st ← foldM (fold_event newest_first) ([], opening) events;
  Ok {| fo_costings := st.1; fo_layers := st.2 |}.

Definition fifo_strict_fold := strict_fold false.
Definition lifo_strict_fold := strict_fold true.

(** * Termination of the walk *)
Lemma pop_end_length b l x : end_layer b l = Some x → length l = S (length (pop_end b l)).
Proof.
  destruct b; cbn.
  - intros H. destruct l as [|y l _] using rev_ind; [done|].
    rewrite removelast_last, length_app. cbn. lia.
  - by destruct l.
Qed.

Lemma walk_step_progress b w w' :
  walk_step b w = Some w' →
  length (wk_layers w) = S (length (wk_layers w')) ∨ wk_remaining w' = 0.
Proof.
  unfold walk_step. destruct (0 <? wk_remaining w) eqn:Hr; [|done].
  destruct (end_layer b (wk_layers w)) as [layer|] eqn:Hl; [|done]. intros [= <-]. cbn.
  destruct (Z.eqb_spec (wsub (sl_qty layer) (Z.min (wk_remaining w) (sl_qty layer))) 0) as [E|E].
  - left. by eapply pop_end_length.
  - right. destruct (Z.min_spec (wk_remaining w) (sl_qty layer)) as [[_ ->]|[_ Hmin]].
    + unfold wsub. by rewrite Z.sub_diag.
    + rewrite Hmin in E. unfold wsub in E. by rewrite Z.sub_diag in E.
Qed.

(** The walk ends by its own conditions, never for lack of fuel. *)
Lemma walk_finished b n w :
  (length (wk_layers w) < n)%nat → walk_step b (walk n b w) = None.
Proof.
  revert w. induction n as [|n IH]; intros w Hn; [lia|]. cbn.
  destruct (walk_step b w) as [w'|] eqn:Hw; [|done].
  destruct (walk_step_progress _ _ _ Hw) as [Hlen|Hz]; [apply IH; lia|].
  assert (walk_step b w' = None) as Hstop by (unfold walk_step; by rewrite Hz).
  destruct n; cbn; by rewrite Hstop.
Qed.

(** * Specification: a queue of single units

    A layer of [q] units at cost [c] is [q] tokens [(layer id, c)].  FIFO takes
    tokens from the front, LIFO from the back. *)
Definition tokens (id q c : Z) : list (Z * Z) := replicate (Z.to_nat q) (id, c).
Definition units (layers : list StrictLayer) : list (Z * Z) :=
  layers ≫= λ l, tokens (sl_layer_id l) (sl_qty l) (sl_unit_cost l).
Definition draw_units (draws : list LayerDraw) : list (Z * Z) :=
  draws ≫= λ d, tokens (ld_layer_trx_line_id d) (ld_qty d) (ld_unit_cost d).
Definition in_order {A} (newest_first : bool) (l : list A) : list A :=
  if newest_first then reverse l else l.

Arguments units : simpl never.
Arguments draw_units : simpl never.
Arguments tokens : simpl never.

Definition token_value (u : Z * Z) : Z := u.2.

Lemma in_order_involutive {A} b (l : list A) : in_order b (in_order b l) = l.
Proof. destruct b; [apply reverse_involutive|done]. Qed.
Lemma reverse_tokens id q c : reverse (tokens id q c) = tokens id q c.
Proof. unfold tokens. apply reverse_replicate. Qed.
Lemma length_tokens id q c : 0 ≤ q → Z.of_nat (length (tokens id q c)) = q.
Proof. intros. unfold tokens. rewrite length_replicate. lia. Qed.
Lemma tokens_add id q1 q2 c :
  0 ≤ q1 → 0 ≤ q2 → tokens id (q1 + q2) c = tokens id q1 c ++ tokens id q2 c.
Proof. intros. unfold tokens. by rewrite Z2Nat.inj_add, replicate_add. Qed.
Lemma units_app l k : units (l ++ k) = units l ++ units k.
Proof. apply bind_app. Qed.
Lemma draw_units_app l k : draw_units (l ++ k) = draw_units l ++ draw_units k.
Proof. apply bind_app. Qed.
Lemma units_singleton l : units [l] = tokens (sl_layer_id l) (sl_qty l) (sl_unit_cost l).
Proof. apply app_nil_r. Qed.
Lemma draw_units_singleton id q c :
  draw_units [{| ld_layer_trx_line_id := id; ld_qty := q; ld_unit_cost := c |}] = tokens id q c.
Proof. apply app_nil_r. Qed.
Lemma sumZ_tokens id q c : 0 ≤ q → sumZ token_value (tokens id q c) = q * c.
Proof.
  intros Hq. unfold tokens. rewrite <-(Z2Nat.id q Hq) at 2.
  induction (Z.to_nat q) as [|n IH]; [done|]. cbn [replicate]. rewrite sumZ_cons, IH.
  unfold token_value. cbn. lia.
Qed.

(** A stored layer: positive, with a nonnegative cost, both in [i64]. *)
Definition layer_ok (l : StrictLayer) : Prop :=
  0 < sl_qty l ∧ in_i64 (sl_qty l) ∧ 0 ≤ sl_unit_cost l ∧ in_i64 (sl_unit_cost l).
(** A recorded event: a nonzero quantity whose magnitude fits, a nonnegative cost. *)
Definition event_ok (e : StrictEvent) : Prop :=
  se_qty e ≠ 0 ∧ in_i64 (Z.abs (se_qty e)) ∧ 0 ≤ se_unit_cost e ∧ in_i64 (se_unit_cost e).

(** Seen from the consuming end, the deque is a list with a first layer. *)
Lemma end_layer_split b layers layer :
  end_layer b layers = Some layer →
  Forall layer_ok layers →
  layer_ok layer ∧ Forall layer_ok (pop_end b layers) ∧
  in_order b (units layers) =
    tokens (sl_layer_id layer) (sl_qty layer) (sl_unit_cost layer)
      ++ in_order b (units (pop_end b layers)) ∧
  (∀ l', layer_ok l' → Forall layer_ok (set_end b l' layers) ∧
     in_order b (units (set_end b l' layers)) =
       tokens (sl_layer_id l') (sl_qty l') (sl_unit_cost l')
         ++ in_order b (units (pop_end b layers))).
Proof.
  unfold end_layer, pop_end, set_end, in_order. destruct b.
  - intros Hl HF. destruct layers as [|x ls _] using rev_ind; [done|].
    rewrite last_snoc in Hl. simplify_eq. rewrite removelast_last.
    rewrite Forall_app, Forall_singleton in HF. destruct HF as [HF Hx].
    rewrite units_app, units_singleton, reverse_app, reverse_tokens. split_and!; try done.
    intros l' Hl'. rewrite units_app, units_singleton, reverse_app, reverse_tokens.
    split; [|done]. apply Forall_app. split; [done|]. by apply Forall_singleton.
  - intros Hl HF. destruct layers as [|x ls]; [done|]. simplify_eq/=.
    apply Forall_cons in HF as [Hx HF]. split_and!; try done.
    intros l' Hl'. split; [by constructor|done].
Qed.

(** The loop invariant: tokens drawn so far, then the tokens still queued, are
    the tokens the depletion started from. *)
Record walk_inv (b : bool) (U : list (Z * Z)) (n : Z) (w : Walk) : Prop := {
  wv_units : draw_units (wk_draws w) ++ in_order b (units (wk_layers w)) = U;
  wv_remaining : wk_remaining w = n - Z.of_nat (length (draw_units (wk_draws w)));
  wv_nonneg : 0 ≤ wk_remaining w;
  wv_value : wk_value w = sumZ token_value (draw_units (wk_draws w));
  wv_layers : Forall layer_ok (wk_layers w);
  wv_draws : Forall (λ d, 0 < ld_qty d) (wk_draws w);
}.

Lemma walk_inv_step b U n w w' :
  in_i64 n → walk_inv b U n w → walk_step b w = Some w' → walk_inv b U n w'.
Proof.
  intros Hn [HU Hrem Hnn Hval Hls Hds]. unfold walk_step.
  destruct (Z.ltb_spec 0 (wk_remaining w)) as [Hpos|]; [|done].
  destruct (end_layer b (wk_layers w)) as [layer|] eqn:Hl; [|done]. intros [= <-].
  destruct (end_layer_split _ _ _ Hl Hls) as ((Hq & Hqi & Hc & Hci) & Hpop & Hunits & Hset).
  set (take := Z.min (wk_remaining w) (sl_qty layer)).
  assert (0 < take ≤ sl_qty layer ∧ take ≤ wk_remaining w) as (Ht & Ht2) by (unfold take; lia).
  clearbody take.
  assert (wsub (sl_qty layer) take = sl_qty layer - take) as Hw1
    by (apply wrap_i64_id; solve_i64).
  assert (wsub (wk_remaining w) take = wk_remaining w - take) as Hw2
    by (apply wrap_i64_id; solve_i64).
  rewrite Hw1, Hw2. set (rest := {| sl_layer_id := _ |}).
  assert (sl_qty layer - take ≠ 0 → layer_ok rest) as Hrest
    by (unfold layer_ok, in_i64, i64_min, i64_max in *; cbn; lia).
  split; cbn; rewrite ?draw_units_app, ?draw_units_singleton, ?length_app, ?sumZ_app, ?sumZ_tokens,
    ?Nat2Z.inj_add, ?length_tokens by lia; try lia.
  - rewrite <-HU, Hunits. rewrite <-app_assoc. f_equal.
    destruct (Z.eqb_spec (sl_qty layer - take) 0) as [E|E].
    + by replace take with (sl_qty layer) by lia.
    + rewrite (proj2 (Hset rest (Hrest E))). cbn. rewrite app_assoc, <-tokens_add by lia. do 2 f_equal. lia.
  - destruct (Z.eqb_spec (sl_qty layer - take) 0) as [E|E]; [done|].
    by apply Hset, Hrest.
  - apply Forall_app. split; [done|]. apply Forall_singleton. cbn. lia.
Qed.

Lemma walk_preserves (P : Walk → Prop) b n w :
  (∀ w w', P w → walk_step b w = Some w' → P w') → P w → P (walk n b w).
Proof.
  intros Hstep. revert w. induction n as [|n IH]; intros w Hw; [done|]. cbn.
  destruct (walk_step b w) eqn:E; [|done]. eauto.
Qed.

(** One whole depletion: exactly the first [n] tokens in consumption order are
    drawn, the others stay queued, and what the layers did not cover remains. *)
Lemma walk_spec b layers n w :
  Forall layer_ok layers → in_i64 n → 0 ≤ n →
  w = walk (length layers + 1) b
        {| wk_layers := layers; wk_remaining := n; wk_value := 0; wk_draws := [] |} →
  let U := in_order b (units layers) in
  let taken := take (Z.to_nat n) U in
  draw_units (wk_draws w) = taken ∧
  in_order b (units (wk_layers w)) = drop (Z.to_nat n) U ∧
  wk_remaining w = n - Z.of_nat (length taken) ∧
  wk_value w = sumZ token_value taken ∧
  Forall layer_ok (wk_layers w) ∧ Forall (λ d, 0 < ld_qty d) (wk_draws w) ∧
  (0 < wk_remaining w → wk_layers w = []).
Proof.
  intros Hls Hn Hn0 Hw. cbn.
  assert (walk_inv b (in_order b (units layers)) n w) as [HU Hrem Hnn Hval Hls' Hds].
  { subst w. apply walk_preserves; [intros; by eapply walk_inv_step|]. split; unfold draw_units; cbn; (done || lia). }
  assert (walk_step b w = None) as Hstop by (subst w; apply walk_finished; cbn; lia).
  assert (0 < wk_remaining w → wk_layers w = []) as Hempty.
  { intros Hpos. unfold walk_step in Hstop. rewrite (proj2 (Z.ltb_lt _ _) Hpos) in Hstop.
    destruct (end_layer b (wk_layers w)) eqn:El; [done|]. destruct b; cbn in El.
    - by apply last_None in El.
    - by destruct (wk_layers w). }
  assert (draw_units (wk_draws w) = take (Z.to_nat n) (in_order b (units layers)) ∧
          in_order b (units (wk_layers w)) = drop (Z.to_nat n) (in_order b (units layers)))
    as [Hd Hl]; [|rewrite <-Hd; split_and!; (done || lia)].
  rewrite <-HU. destruct (decide (wk_remaining w = 0)) as [Hz|Hz].
  - rewrite take_app_length', drop_app_length' by lia. done.
  - rewrite Hempty by lia. assert (in_order b (units []) = []) as -> by (by destruct b).
    rewrite app_nil_r, take_ge, drop_ge by lia. done.
Qed.

(** * The reference fold on single units *)
Fixpoint unit_fold (newest_first : bool) (q : list (Z * Z)) (events : list StrictEvent)
    : list (StrictEvent * list (Z * Z)) * list (Z * Z) :=
  match events with
  | [] => ([], q)
  | e :: es =>
      if 0 <? se_qty e
      then unit_fold newest_first (q ++ tokens (se_trx_line_id e) (se_qty e) (se_unit_cost e)) es
      else
        let n := Z.to_nat (- se_qty e) in
        let U := in_order newest_first q in
        let '(cs, q') := unit_fold newest_first (in_order newest_first (drop n U)) es in
        ((e, take n U) :: cs, q')
  end.

(** A costing says of its depletion: these units were consumed, the rest was not
    covered and is valued at the observed cost, and the authoritative unit cost
    is the half-even average of the two. *)
Record costs (e : StrictEvent) (consumed : list (Z * Z)) (dc : DepletionCosting) : Prop := {
  cs_id : dc_depletion_trx_line_id dc = se_trx_line_id e;
  cs_qty : dc_qty dc = - se_qty e;
  cs_observed : dc_observed_unit_cost dc = se_unit_cost e;
  cs_draws : draw_units (dc_draws dc) = consumed;
  cs_positive : Forall (λ d, 0 < ld_qty d) (dc_draws dc);
  cs_uncovered : dc_uncovered_qty dc = dc_qty dc - Z.of_nat (length consumed);
  cs_nonneg : 0 ≤ dc_uncovered_qty dc;
  cs_cost : rounds_half_even
      (sumZ token_value consumed + dc_uncovered_qty dc * se_unit_cost e) (dc_qty dc)
      (dc_authoritative_unit_cost dc);
}.

Lemma units_costs layers lo hi :
  Forall (λ l, lo ≤ sl_unit_cost l ≤ hi) layers → Forall (λ u, lo ≤ token_value u ≤ hi) (units layers).
Proof.
  intros HF. apply Forall_bind. eapply Forall_impl; [exact HF|].
  intros l Hl. apply Forall_replicate. by unfold token_value.
Qed.

Lemma sumZ_bounds (us : list (Z * Z)) lo hi :
  Forall (λ u, lo ≤ token_value u ≤ hi) us →
  lo * Z.of_nat (length us) ≤ sumZ token_value us ≤ hi * Z.of_nat (length us).
Proof.
  induction 1 as [|u us Hu _ IH]; [cbn; rewrite sumZ_nil; lia|].
  rewrite sumZ_cons. cbn [length]. lia.
Qed.

Lemma Forall_in_order {A} (P : A → Prop) b l : Forall P (in_order b l) ↔ Forall P l.
Proof. destruct b; [apply Forall_reverse|done]. Qed.

(** One depletion event, with costs anywhere between two bounds. *)
Lemma fold_event_deplete b cs layers e lo hi :
  Forall layer_ok layers → event_ok e → se_qty e < 0 →
  Forall (λ u, lo ≤ token_value u ≤ hi) (units layers) → lo ≤ se_unit_cost e ≤ hi →
  in_i64 lo → in_i64 hi →
  let n := Z.to_nat (- se_qty e) in
  let U := in_order b (units layers) in
  ∃ dc layers', fold_event b (cs, layers) e = Ok (cs ++ [dc], layers') ∧
    costs e (take n U) dc ∧ lo ≤ dc_authoritative_unit_cost dc ≤ hi ∧
    Forall layer_ok layers' ∧ in_order b (units layers') = drop n U ∧
    (0 < dc_uncovered_qty dc → layers' = []).
Proof.
  intros Hls (Hq & Hqi & Hc & Hci) Hneg Hlb Hcb Hlo Hhi. cbn. unfold fold_event. cbv zeta.
  destruct (Z.ltb_spec 0 (se_qty e)); [lia|].
  rewrite wrap_i64_id by done. replace (Z.abs (se_qty e)) with (- se_qty e) in * by lia.
  edestruct (walk_spec b layers (- se_qty e)) as (Hd & Hl & Hr & Hv & Hok & Hpos & Hemp);
    [done|done|lia|reflexivity|].
  set (w := walk _ _ _) in *. set (taken := take _ _) in *.
  assert (Z.of_nat (length taken) ≤ - se_qty e) as Hlen
    by (unfold taken; rewrite length_take; lia).
  assert (lo * Z.of_nat (length taken) ≤ sumZ token_value taken ≤ hi * Z.of_nat (length taken)) as Hb.
  { apply sumZ_bounds, Forall_take. by apply Forall_in_order. }
  edestruct (banker_div_between (wk_value w + wk_remaining w * se_unit_cost e) (- se_qty e) lo hi)
    as (a & Ha & Hab); [lia|done|done|rewrite Hv, Hr; nia..|].
  rewrite Ha. cbn. eexists _, _. split; [reflexivity|]. cbn.
  apply banker_div_Ok in Ha as (_ & Hround & _). rewrite Hv in Hround.
  split; [|done]. split; cbn; (done || lia).
Qed.

Lemma fold_event_receipt b cs layers e :
  0 < se_qty e →
  fold_event b (cs, layers) e =
    Ok (cs, layers ++ [layer_of e]).
Proof. intros. unfold fold_event. by rewrite (proj2 (Z.ltb_lt _ _)). Qed.

Lemma layer_of_event e : event_ok e → 0 < se_qty e →
  layer_ok (layer_of e).
Proof. intros (? & Hi & ? & ?) Hq. unfold layer_ok. cbn. by rewrite Z.abs_eq in Hi by lia. Qed.

(** The fold, its reference and the cost bounds, for any opening costings. *)
Lemma strict_fold_units b cs layers events lo hi :
  Forall layer_ok layers → Forall event_ok events →
  Forall (λ u, lo ≤ token_value u ≤ hi) (units layers) →
  Forall (λ e, lo ≤ se_unit_cost e ≤ hi) events → in_i64 lo → in_i64 hi →
  ∃ dcs layers', foldM (fold_event b) (cs, layers) events = Ok (cs ++ dcs, layers') ∧
    Forall2 (λ ec dc, costs ec.1 ec.2 dc) (unit_fold b (units layers) events).1 dcs ∧
    Forall (λ dc, lo ≤ dc_authoritative_unit_cost dc ≤ hi) dcs ∧
    units layers' = (unit_fold b (units layers) events).2 ∧ Forall layer_ok layers'.
Proof.
  intros Hls Hes Hlb Heb Hlo Hhi. revert cs layers Hls Hlb.
  induction events as [|e es IH]; intros cs layers Hls Hlb.
  { exists [], layers. rewrite app_nil_r. cbn. split_and!; try done; constructor. }
  apply Forall_cons in Hes as [He Hes]. apply Forall_cons in Heb as [Hce Heb].
  specialize (IH Hes Heb). cbn [foldM unit_fold].
  destruct (Z.ltb_spec 0 (se_qty e)) as [Hq|Hq].
  - rewrite fold_event_receipt by done. cbn.
    change (tokens _ _ _) with (tokens (sl_layer_id (layer_of e)) (sl_qty (layer_of e))
      (sl_unit_cost (layer_of e))). rewrite <-units_singleton, <-units_app.
    apply IH.
    + apply Forall_app. split; [done|]. apply Forall_singleton. by apply layer_of_event.
    + rewrite units_app. apply Forall_app. split; [done|]. apply units_costs, Forall_singleton. done.
  - assert (se_qty e < 0) as Hneg by (destruct He; lia).
    destruct (fold_event_deplete b cs layers e lo hi) as (dc & ls1 & Hev & Hc & Hb & Hok & Hu & _);
      [done..|]. rewrite Hev. cbn.
    destruct (IH (cs ++ [dc]) ls1 Hok) as (dcs & ls2 & Hrun & HF & Hbs & Hq2 & Hok2).
    { apply (Forall_in_order _ b). rewrite Hu. apply Forall_drop. by apply Forall_in_order. }
    rewrite <-Hu, in_order_involutive. destruct (unit_fold b (units ls1) es) as [rcs q'].
    exists (dc :: dcs), ls2. rewrite Hrun, <-app_assoc. cbn in *. split_and!; try done.
    + by constructor.
    + by constructor.
Qed.

Lemma i64_costs layers events :
  Forall layer_ok layers → Forall event_ok events →
  Forall (λ u, 0 ≤ token_value u ≤ i64_max) (units layers) ∧
  Forall (λ e, 0 ≤ se_unit_cost e ≤ i64_max) events.
Proof.
  intros Hls Hes. split.
  - apply units_costs. eapply Forall_impl; [exact Hls|]. intros l (_ & _ & ? & ?).
    unfold in_i64 in *. lia.
  - eapply Forall_impl; [exact Hes|]. intros e (_ & _ & ? & ?). unfold in_i64 in *. lia.
Qed.

(** C14: the strict fold refines a queue of single units.  On stored layers and
    recorded events it always returns (no loop without end, no panic, no
    overflow), the layers it leaves are the queue left by taking units one by
    one from the oldest end (FIFO) or the newest (LIFO), and each depletion is
    costed at the half-even average of exactly the units taken, with the
    uncovered rest at the observed cost. *)
Theorem strict_fold_refines_units b opening events :
  Forall layer_ok opening → Forall event_ok events →
  ∃ out, strict_fold b opening events = Ok out ∧
    Forall2 (λ ec dc, costs ec.1 ec.2 dc) (unit_fold b (units opening) events).1 (fo_costings out) ∧
    units (fo_layers out) = (unit_fold b (units opening) events).2 ∧
    Forall layer_ok (fo_layers out).
Proof.
  intros Hls Hes. destruct (i64_costs _ _ Hls Hes) as [Hl He].
  destruct (strict_fold_units b [] opening events 0 i64_max)
    as (dcs & ls & Hrun & HF & _ & Hu & Hok); try done.
  unfold strict_fold. rewrite Hrun. cbn. by eexists.
Qed.

Definition ev (id q c : Z) : StrictEvent :=
  {| se_trx_line_id := id; se_qty := q; se_unit_cost := c |}.
Definition example_events : list StrictEvent := [ev 1 3 10; ev 2 2 20; ev 3 (-4) 9; ev 4 (-3) 7].

Lemma example_events_ok : Forall event_ok example_events.
Proof. repeat constructor; cbn; solve_i64. Qed.

Lemma strict_fold_refines_units_witness :
  ∃ out, strict_fold false [] example_events = Ok out ∧
    map dc_authoritative_unit_cost (fo_costings out) = [12; 11] ∧
    units (fo_layers out) = [] ∧ Forall layer_ok (fo_layers out).
Proof.
  destruct (strict_fold_refines_units false [] example_events) as (out & Hout & _ & Hu & Hok);
    [constructor|apply example_events_ok|].
  exists out. split_and!; [exact Hout| |exact Hu|exact Hok].
  vm_compute in Hout. injection Hout as <-. reflexivity.
Defined.

(** Authoritative costs stay within the costs that were recorded: if every
    opening layer, receipt and observed cost lies between two bounds, so does
    the authoritative unit cost of every depletion, FIFO or LIFO. *)
Theorem strict_fold_cost_bounds b opening events out lo hi :
  Forall layer_ok opening → Forall event_ok events → in_i64 lo → in_i64 hi →
  Forall (λ l, lo ≤ sl_unit_cost l ≤ hi) opening →
  Forall (λ e, lo ≤ se_unit_cost e ≤ hi) events →
  strict_fold b opening events = Ok out →
  Forall (λ dc, lo ≤ dc_authoritative_unit_cost dc ≤ hi) (fo_costings out).
Proof.
  intros Hls Hes Hlo Hhi Hlb Heb Hout.
  destruct (strict_fold_units b [] opening events lo hi)
    as (dcs & ls & Hrun & _ & Hb & _); try done; [by apply units_costs|].
  unfold strict_fold in Hout. rewrite Hrun in Hout. by injection Hout as <-.
Qed.

Lemma strict_fold_cost_bounds_witness :
  match strict_fold true [] example_events with
  | Ok out => Forall (λ dc, 7 ≤ dc_authoritative_unit_cost dc ≤ 20) (fo_costings out)
  | Err _ => False
  end.
Proof.
  destruct (strict_fold true [] example_events) as [out|e] eqn:E; [|vm_compute in E; discriminate E].
  apply (strict_fold_cost_bounds true [] example_events out 7 20);
    [constructor|apply example_events_ok|solve_i64|solve_i64|constructor| |exact E].
  repeat constructor; cbn; lia.
Defined.

(** * Conservation of units *)
Definition received_units (events : list StrictEvent) : list (Z * Z) :=
  events ≫= λ e, tokens (se_trx_line_id e) (se_qty e) (se_unit_cost e).
Definition consumed_units (dcs : list DepletionCosting) : list (Z * Z) :=
  dcs ≫= λ dc, draw_units (dc_draws dc).

Lemma in_order_Permutation {A} b (l : list A) : in_order b l ≡ₚ l.
Proof. destruct b; [apply reverse_Permutation|done]. Qed.

Lemma unit_fold_conserves b q events :
  q ++ received_units events ≡ₚ
    (unit_fold b q events).2 ++ ((unit_fold b q events).1 ≫= snd).
Proof.
  revert q. induction events as [|e es IH]; intros q; [done|]. cbn [unit_fold].
  unfold received_units in *. rewrite bind_cons. destruct (Z.ltb_spec 0 (se_qty e)) as [Hq|Hq].
  - rewrite app_assoc. apply IH.
  - assert (tokens (se_trx_line_id e) (se_qty e) (se_unit_cost e) = []) as ->.
    { unfold tokens. by rewrite Z2Nat.nonpos. }
    cbn [app]. specialize (IH (in_order b (drop (Z.to_nat (- se_qty e)) (in_order b q)))).
    destruct (unit_fold b _ es) as [cs q']. cbn in *.
    rewrite (Permutation_app_comm (take _ _)), app_assoc, <-IH.
    rewrite in_order_Permutation, <-app_assoc, (Permutation_app_comm _ (take _ _)), app_assoc.
    rewrite (Permutation_app_comm (drop _ _)), take_drop, in_order_Permutation. done.
Qed.

(** Units are conserved with their identity and cost: what the opening layers
    held together with what the receipts brought in is, as a multiset of single
    units tagged with layer and cost, what the final layers hold together with
    what the draws consumed.  Quantity and value conservation follow. *)
Theorem strict_fold_conserves_units b opening events out :
  Forall layer_ok opening → Forall event_ok events →
  strict_fold b opening events = Ok out →
  units opening ++ received_units events ≡ₚ
    units (fo_layers out) ++ consumed_units (fo_costings out).
Proof.
  intros Hls Hes Hout. destruct (i64_costs _ _ Hls Hes) as [Hl He].
  destruct (strict_fold_units b [] opening events 0 i64_max)
    as (dcs & ls & Hrun & HF & _ & Hu & _); try done.
  unfold strict_fold in Hout. rewrite Hrun in Hout. injection Hout as <-. cbn.
  rewrite (unit_fold_conserves b), <-Hu. f_equiv. clear -HF.
  unfold consumed_units. induction HF as [|[e us] dc ? ? Hc _ IH]; [done|].
  rewrite !bind_cons, (cs_draws _ _ _ Hc). cbn. by rewrite IH.
Qed.

Lemma strict_fold_conserves_units_witness :
  match strict_fold true [] example_events with
  | Ok out => received_units example_events ≡ₚ
                units (fo_layers out) ++ consumed_units (fo_costings out)
  | Err _ => False
  end.
Proof.
  destruct (strict_fold true [] example_events) as [out|e] eqn:E; [|vm_compute in E; discriminate E].
  apply (strict_fold_conserves_units true [] example_events out);
    [constructor|apply example_events_ok|exact E].
Defined.

(** * Resuming from materialized layers *)
Lemma fold_event_prefix b cs layers e :
  fold_event b (cs, layers) e =
    st ← fold_event b ([], layers) e; Ok (cs ++ st.1, st.2).
Proof.
  unfold fold_event. destruct (0 <? se_qty e); cbn; [by rewrite app_nil_r|].
  by destruct (banker_div _ _).
Qed.

Lemma fold_events_prefix b cs layers events :
  foldM (fold_event b) (cs, layers) events =
    st ← foldM (fold_event b) ([], layers) events; Ok (cs ++ st.1, st.2).
Proof.
  revert cs layers. induction events as [|e es IH]; intros cs layers; cbn [foldM].
  { cbn. by rewrite app_nil_r. }
  rewrite fold_event_prefix. destruct (fold_event b ([], layers) e) as [[cs1 ls1]|]; cbn; [|done].
  rewrite IH, (IH cs1). destruct (foldM _ _ _) as [[cs2 ls2]|]; cbn; [|done].
  by rewrite app_assoc.
Qed.

(** The fold can be checkpointed at any event: folding a stream from the
    opening layers is folding its first part, materializing the layers, and
    folding the rest from them, with the costings of both parts in order and
    the same panics. *)
Theorem strict_fold_checkpoint b opening first_part rest :
  strict_fold b opening (first_part ++ rest) =
    o1 ← strict_fold b opening first_part;
    o2 ← strict_fold b (fo_layers o1) rest;
    Ok {| fo_costings := fo_costings o1 ++ fo_costings o2; fo_layers := fo_layers o2 |}.
Proof.
  unfold strict_fold. rewrite foldM_app.
  destruct (foldM (fold_event b) ([], opening) first_part) as [[cs ls]|]; cbn; [|done].
  rewrite fold_events_prefix. by destruct (foldM _ _ _).
Qed.
