(* ===== verification/Db.v ===== *)
(** The PostgreSQL side of the ledger: the tables the code reads and writes, the
    constraints and triggers of db/migrations that decide whether a write goes
    through, and transactions.

    Modelled of the schema: primary and unique keys, CHECK constraints, the
    period guards, the period transition guard and identity sequences (which an
    abort does not rewind).  Foreign keys are not re-checked: no code deletes a
    referenced row, and every write names rows the same transaction has read or
    inserted.  Timestamps are microseconds since the epoch, dates are days since
    the epoch, both in UTC as the guards pin them. *)
From S2P Require Import Prelude Plan Snapshot.

(** * Tables *)
Record PoolRow := {
  pool_sku_id : Z;
  pool_location_id : Z;
  pool_method : PoolMethod;
  pool_provisional_basis : ProvisionalBasis;
}.
Record StateRow := { ps_qty : Z; ps_unit_cost : Z; ps_value_sum : Z }.
Record TrxRow := { trx_trx_type : string; trx_source_id : Z; trx_posted_at : Timestamp }.
Record TrxLineRow := {
  tl_trx_id : Z;
  tl_pool_id : Z;
  tl_line_type : string;
  tl_source_id : option Z;
  tl_qty : Z;
  tl_unit_cost : Z;
  tl_source_trx_line_id : option Z;
  tl_posted_at : Timestamp;
}.
Record PostingRow := {
  pr_trx_line_id : Z;
  pr_event_type : string;
  pr_amount : Z;
  pr_debit_account : Z;
  pr_credit_account : Z;
  pr_posted_at : Timestamp;
}.
Inductive PeriodState : Type := PeriodOpen | PeriodClosing | PeriodClosed.
#[global] Instance PeriodState_eq_dec : EqDecision PeriodState.
Proof. solve_decision. Defined.
Record PeriodRow := {
  per_start_date : Z;
  per_end_date : Z;
  per_state : PeriodState;
  per_closed : option (Timestamp * string);   (* closed_at, closed_by *)
}.
Record CostSettlementRow := {
  cst_authoritative_unit_cost : Z;
  cst_prior_unit_cost : Z;
  cst_adjustment_posting_line_id : option Z;
}.
(** [settled_through_*] and [recost_floor_*] are the pairs of columns. *)
Record PoolSettlementRow := {
  pse_recalc_generation : Z;
  pse_settled_through : option (Timestamp * Z);
  pse_recost_floor : option (Timestamp * Z);
}.
Record EscalationRow := {
  esc_pool_id : Z;
  esc_closed_period_id : option Z;
  esc_depletion_trx_line_id : Z;
  esc_had_settlement : bool;
  esc_frozen_unit_cost : Z;
  esc_recomputed_unit_cost : Z;
  esc_qty : Z;
  esc_diverging_depletions : Z;
  esc_total_value_divergence : Z;
  esc_resolved : bool;
}.
(** One line of a submission as it arrives in JSON. *)
Record LineJson := {
  lj_pool_id : Z;
  lj_line_type : string;
  lj_source_id : option Z;
  lj_qty : Z;
  lj_unit_cost : Z;
}.
Inductive InboxStatus : Type := Pending | Done | Failed (error : string).
(** [inb_lines] is [None] when the JSON document is not a list of lines. *)
Record InboxRow := {
  inb_trx_type : string;
  inb_source_id : Z;
  inb_posted_at : Timestamp;
  inb_lines : option (list LineJson);
  inb_status : InboxStatus;
}.
(** The [ledger_feed] row of [pg_replication_slots] for this database. *)
Record SlotRow := {
  slot_wal_status : string;
  slot_invalidation_reason : option string;
  slot_confirmed_flush_lsn : option Z;
}.
Record Seqs := { next_trx : Z; next_trx_line : Z; next_posting : Z; next_cost_adjustment : Z }.

(** Reference data: no code of the ledger writes it. *)
Record Config := {
  cfg_pool : gmap Z PoolRow;
  cfg_standard_cost : gmap (Z * Z) Z;
  cfg_account_map : gmap (Z * Z) PostingAccounts;
  cfg_bound_events : Z;
  cfg_low_water : Z;
  cfg_feed_required : bool;
}.

Record Db := MkDb {
  db_cfg : Config;
  db_period : gmap Z PeriodRow;
  db_pool_state : gmap (Z * Z) StateRow;   (* (pool, layer) *)
  db_trx : gmap Z TrxRow;
  db_trx_line : gmap Z TrxLineRow;
  db_posting : gmap Z PostingRow;
  db_consumption : gmap (Z * Z * Z) (Z * Z);   (* (depletion, layer, generation) -> (qty, unit_cost) *)
  db_cost_settlement : gmap (Z * Z) CostSettlementRow;   (* (depletion, generation) *)
  db_pool_settlement : gmap Z PoolSettlementRow;
  db_recalc_queue : gmap Z Timestamp;   (* pool -> enqueued_at *)
  db_escalation : list EscalationRow;
  db_backlog : gmap Z Z;   (* pool -> pending_events *)
  db_backpressure : gmap Z Z;   (* pool -> engage_events *)
  db_inbox : gmap Z InboxRow;
  db_slot : option SlotRow;
  db_wal_lsn : Z;
  db_seqs : Seqs;
}.

Definition set_period (x : gmap Z PeriodRow) (d : Db) : Db :=
  MkDb (db_cfg d) x (db_pool_state d) (db_trx d) (db_trx_line d) (db_posting d) (db_consumption
    d) (db_cost_settlement d) (db_pool_settlement d) (db_recalc_queue d) (db_escalation d)
    (db_backlog d) (db_backpressure d) (db_inbox d) (db_slot d) (db_wal_lsn d) (db_seqs d).
Definition set_pool_state (x : gmap (Z * Z) StateRow) (d : Db) : Db :=
  MkDb (db_cfg d) (db_period d) x (db_trx d) (db_trx_line d) (db_posting d) (db_consumption d)
    (db_cost_settlement d) (db_pool_settlement d) (db_recalc_queue d) (db_escalation d)
    (db_backlog d) (db_backpressure d) (db_inbox d) (db_slot d) (db_wal_lsn d) (db_seqs d).
Definition set_trx (x : gmap Z TrxRow) (d : Db) : Db :=
  MkDb (db_cfg d) (db_period d) (db_pool_state d) x (db_trx_line d) (db_posting d)
    (db_consumption d) (db_cost_settlement d) (db_pool_settlement d) (db_recalc_queue d)
    (db_escalation d) (db_backlog d) (db_backpressure d) (db_inbox d) (db_slot d) (db_wal_lsn d)
    (db_seqs d).
Definition set_trx_line (x : gmap Z TrxLineRow) (d : Db) : Db :=
  MkDb (db_cfg d) (db_period d) (db_pool_state d) (db_trx d) x (db_posting d) (db_consumption d)
    (db_cost_settlement d) (db_pool_settlement d) (db_recalc_queue d) (db_escalation d)
    (db_backlog d) (db_backpressure d) (db_inbox d) (db_slot d) (db_wal_lsn d) (db_seqs d).
Definition set_posting (x : gmap Z PostingRow) (d : Db) : Db :=
  MkDb (db_cfg d) (db_period d) (db_pool_state d) (db_trx d) (db_trx_line d) x (db_consumption
    d) (db_cost_settlement d) (db_pool_settlement d) (db_recalc_queue d) (db_escalation d)
    (db_backlog d) (db_backpressure d) (db_inbox d) (db_slot d) (db_wal_lsn d) (db_seqs d).
Definition set_consumption (x : gmap (Z * Z * Z) (Z * Z)) (d : Db) : Db :=
  MkDb (db_cfg d) (db_period d) (db_pool_state d) (db_trx d) (db_trx_line d) (db_posting d) x
    (db_cost_settlement d) (db_pool_settlement d) (db_recalc_queue d) (db_escalation d)
    (db_backlog d) (db_backpressure d) (db_inbox d) (db_slot d) (db_wal_lsn d) (db_seqs d).
Definition set_cost_settlement (x : gmap (Z * Z) CostSettlementRow) (d : Db) : Db :=
  MkDb (db_cfg d) (db_period d) (db_pool_state d) (db_trx d) (db_trx_line d) (db_posting d)
    (db_consumption d) x (db_pool_settlement d) (db_recalc_queue d) (db_escalation d)
    (db_backlog d) (db_backpressure d) (db_inbox d) (db_slot d) (db_wal_lsn d) (db_seqs d).
Definition set_pool_settlement (x : gmap Z PoolSettlementRow) (d : Db) : Db :=
  MkDb (db_cfg d) (db_period d) (db_pool_state d) (db_trx d) (db_trx_line d) (db_posting d)
    (db_consumption d) (db_cost_settlement d) x (db_recalc_queue d) (db_escalation d)
    (db_backlog d) (db_backpressure d) (db_inbox d) (db_slot d) (db_wal_lsn d) (db_seqs d).
Definition set_recalc_queue (x : gmap Z Timestamp) (d : Db) : Db :=
  MkDb (db_cfg d) (db_period d) (db_pool_state d) (db_trx d) (db_trx_line d) (db_posting d)
    (db_consumption d) (db_cost_settlement d) (db_pool_settlement d) x (db_escalation d)
    (db_backlog d) (db_backpressure d) (db_inbox d) (db_slot d) (db_wal_lsn d) (db_seqs d).
Definition set_escalation (x : list EscalationRow) (d : Db) : Db :=
  MkDb (db_cfg d) (db_period d) (db_pool_state d) (db_trx d) (db_trx_line d) (db_posting d)
    (db_consumption d) (db_cost_settlement d) (db_pool_settlement d) (db_recalc_queue d) x
    (db_backlog d) (db_backpressure d) (db_inbox d) (db_slot d) (db_wal_lsn d) (db_seqs d).
Definition set_backlog (x : gmap Z Z) (d : Db) : Db :=
  MkDb (db_cfg d) (db_period d) (db_pool_state d) (db_trx d) (db_trx_line d) (db_posting d)
    (db_consumption d) (db_cost_settlement d) (db_pool_settlement d) (db_recalc_queue d)
    (db_escalation d) x (db_backpressure d) (db_inbox d) (db_slot d) (db_wal_lsn d) (db_seqs d).
Definition set_backpressure (x : gmap Z Z) (d : Db) : Db :=
  MkDb (db_cfg d) (db_period d) (db_pool_state d) (db_trx d) (db_trx_line d) (db_posting d)
    (db_consumption d) (db_cost_settlement d) (db_pool_settlement d) (db_recalc_queue d)
    (db_escalation d) (db_backlog d) x (db_inbox d) (db_slot d) (db_wal_lsn d) (db_seqs d).
Definition set_inbox (x : gmap Z InboxRow) (d : Db) : Db :=
  MkDb (db_cfg d) (db_period d) (db_pool_state d) (db_trx d) (db_trx_line d) (db_posting d)
    (db_consumption d) (db_cost_settlement d) (db_pool_settlement d) (db_recalc_queue d)
    (db_escalation d) (db_backlog d) (db_backpressure d) x (db_slot d) (db_wal_lsn d) (db_seqs
    d).
Definition set_slot (x : option SlotRow) (d : Db) : Db :=
  MkDb (db_cfg d) (db_period d) (db_pool_state d) (db_trx d) (db_trx_line d) (db_posting d)
    (db_consumption d) (db_cost_settlement d) (db_pool_settlement d) (db_recalc_queue d)
    (db_escalation d) (db_backlog d) (db_backpressure d) (db_inbox d) x (db_wal_lsn d) (db_seqs
    d).
Definition set_seqs (x : Seqs) (d : Db) : Db :=
  MkDb (db_cfg d) (db_period d) (db_pool_state d) (db_trx d) (db_trx_line d) (db_posting d)
    (db_consumption d) (db_cost_settlement d) (db_pool_settlement d) (db_recalc_queue d)
    (db_escalation d) (db_backlog d) (db_backpressure d) (db_inbox d) (db_slot d) (db_wal_lsn d)
    x.

(** * Errors and transactions *)
Inductive PgError : Type :=
| LedgerRaised (code : string) (e : LedgerError)   (* raise_ledger_error *)
| Bailed (code what : string)           (* bail(code, ..) of the extension *)
| SqlRaised (code what : string)        (* constraint, trigger or arithmetic *)
| RustPanicked (msg : string).

Abbreviation Tx := (SE Db PgError).

(** An abort keeps nothing but the sequence positions. *)
Definition rollback (d d' : Db) : Db := set_seqs (db_seqs d') d.
Definition transaction {A} (m : Tx A) (d : Db) : Res PgError A * Db :=
  match m d with
  | (Ok a, d') => (Ok a, d')
  | (Err e, d') => (Err e, rollback d d')
  end.

Definition query {A} (f : Db → A) : Tx A := gets f.
Definition exec (f : Db → Db) : Tx unit := modify f.
Definition sql_raise {A} (code what : string) : Tx A := throw (SqlRaised code what).
Definition bail {A} (code what : string) : Tx A := throw (Bailed code what).
(** The SQLSTATE an error of the planner is reported under. *)
Definition ledger_sqlstate (e : LedgerError) : string :=
  match e with
  | InsufficientInventory _ _ _ => "23000"
  | MethodMismatch _ _ _ => "22000"
  | UnknownPool _ => "42704"
  | MissingStandardCost _ _ => "22000"
  | MissingPostingAccounts _ _ => "22000"
  | MissingVarianceAccount _ => "22000"
  | SpecificPoolOccupied _ _ => "23000"
  | Overflow _ => "22003"
  end.
Definition raise_ledger_error {A} (e : LedgerError) : Tx A :=
  throw (LedgerRaised (ledger_sqlstate e) e).
(** A SQL expression whose only failure is an arithmetic error. *)
Definition sql_expr {A} (r : Res string A) : Tx A :=
  match r with Ok a => mret a | Err code => sql_raise code "arithmetic" end.

(** * Identity columns *)
Definition with_next_trx (q : Seqs) : Seqs :=
  {| next_trx := next_trx q + 1; next_trx_line := next_trx_line q;
     next_posting := next_posting q; next_cost_adjustment := next_cost_adjustment q |}.
Definition with_next_trx_line (q : Seqs) : Seqs :=
  {| next_trx := next_trx q; next_trx_line := next_trx_line q + 1;
     next_posting := next_posting q; next_cost_adjustment := next_cost_adjustment q |}.
Definition with_next_posting (q : Seqs) : Seqs :=
  {| next_trx := next_trx q; next_trx_line := next_trx_line q;
     next_posting := next_posting q + 1; next_cost_adjustment := next_cost_adjustment q |}.
Definition with_next_cost_adjustment (q : Seqs) : Seqs :=
  {| next_trx := next_trx q; next_trx_line := next_trx_line q;
     next_posting := next_posting q; next_cost_adjustment := next_cost_adjustment q + 1 |}.
Definition nextval (read : Seqs → Z) (bump : Seqs → Seqs) : Tx Z :=
  id ← query (λ d, read (db_seqs d));
  exec (λ d, set_seqs (bump (db_seqs d)) d);;
  mret id.

(** * Accounting periods and their guards (0021-0024) *)
Definition day_start (date : Z) : Timestamp := date * 86400000000.
Definition period_covers (p : PeriodRow) (t : Timestamp) : Prop :=
  day_start (per_start_date p) ≤ t < day_start (per_end_date p + 1).
#[global] Instance period_covers_dec p t : Decision (period_covers p t).
Proof. unfold period_covers. apply _. Defined.

Definition is_closed (p : PeriodRow) : bool := bool_decide (per_state p = PeriodClosed).
(** [max(end_date)] over the closed periods. *)
Definition closed_frontier (ps : gmap Z PeriodRow) : option Z :=
  map_fold (λ _ p acc,
    if is_closed p then
      Some (match acc with Some e => Z.max e (per_end_date p) | None => per_end_date p end)
    else acc) None ps.
Definition below_frontier (ps : gmap Z PeriodRow) (t : Timestamp) : bool :=
  match closed_frontier ps with
  | Some e => t <? day_start (e + 1)
  | None => false
  end.
(** A closed period that covers the time, the least id of them. *)
Definition covering_closed (ps : gmap Z PeriodRow) (t : Timestamp) : option Z :=
  head (merge_sort Z.le
    (map fst (List.filter (λ ip, is_closed ip.2 && bool_decide (period_covers ip.2 t))
       (map_to_list ps)))).
Definition period_frozen (ps : gmap Z PeriodRow) (t : Timestamp) : bool :=
  match covering_closed ps t with Some _ => true | None => below_frontier ps t end.

Definition cost_adjustment_line : string := "cost_adjustment_line".
(** [period_guard_trx_line]: the engine's own corrections pass, physical lines
    must be posted after every closed period. *)
Definition period_guard_trx_line (l : TrxLineRow) : Tx unit :=
  ps ← query db_period;
  if bool_decide (tl_line_type l = cost_adjustment_line) then mret tt
  else if period_frozen ps (tl_posted_at l) then sql_raise "55000" "PeriodClosed" else mret tt.
(** [period_guard_cost_settlement]. *)
Definition period_guard_cost_settlement (depletion : Z) : Tx unit :=
  d ← query id;
  match db_trx_line d !! depletion with
  | Some l => if period_frozen (db_period d) (tl_posted_at l)
              then sql_raise "55000" "PeriodClosed" else mret tt
  | None => mret tt
  end.

(** * Row inserts *)
Definition trx_types : list string :=
  ["po_receipt"; "wo_completion"; "inv_adjustment"; "transfer_shipment"; "transfer_receipt";
   "manual_adjustment"; "revaluation_run"; "cost_adjustment"]%string.

(** INSERT INTO trx: the enum cast, the identity value, the unique key. *)
Definition insert_trx_row (r : TrxRow) : Tx Z :=
  ensure (bool_decide (trx_trx_type r ∈ trx_types))
    else (SqlRaised "22P02" "trx_type");
  id ← nextval next_trx with_next_trx;
  trxs ← query db_trx;
  ensure (negb (bool_decide (map_Exists (λ _ r', trx_trx_type r' = trx_trx_type r ∧
                                                trx_source_id r' = trx_source_id r) trxs)))
    else (SqlRaised "23505" "trx_trx_type_source_id_key");
  exec (λ d, set_trx (<[id := r]> (db_trx d)) d);;
  mret id.

(** INSERT INTO trx_line: the identity value, the period guard, the CHECKs. *)
Definition insert_trx_line_row (l : TrxLineRow) : Tx Z :=
  id ← nextval next_trx_line with_next_trx_line;
  period_guard_trx_line l;;
  ensure (negb (tl_qty l =? 0) || bool_decide (tl_line_type l = cost_adjustment_line))
    else (SqlRaised "23514" "trx_line_qty_nonzero");
  ensure (0 <=? tl_unit_cost l) else (SqlRaised "23514" "trx_line_unit_cost_nonneg");
  exec (λ d, set_trx_line (<[id := l]> (db_trx_line d)) d);;
  mret id.

Definition insert_posting_row (p : PostingRow) : Tx Z :=
  id ← nextval next_posting with_next_posting;
  exec (λ d, set_posting (<[id := p]> (db_posting d)) d);;
  mret id.

(** INSERT INTO cost_settlement: the period guard, then the primary key. *)
Definition insert_cost_settlement (depletion generation : Z) (r : CostSettlementRow) : Tx unit :=
  period_guard_cost_settlement depletion;;
  rows ← query db_cost_settlement;
  ensure (bool_decide (rows !! (depletion, generation) = None))
    else (SqlRaised "23505" "cost_settlement_pkey");
  exec (λ d, set_cost_settlement (<[(depletion, generation) := r]> (db_cost_settlement d)) d).

(** INSERT INTO cost_layer_consumption: the CHECKs, then the primary key. *)
Definition insert_consumption (depletion layer generation qty unit_cost : Z) : Tx unit :=
  ensure (0 <? qty) else (SqlRaised "23514" "cost_layer_consumption_qty_check");
  ensure (0 <=? unit_cost) else (SqlRaised "23514" "cost_layer_consumption_unit_cost_check");
  rows ← query db_consumption;
  ensure (bool_decide (rows !! (depletion, layer, generation) = None))
    else (SqlRaised "23505" "cost_layer_consumption_pkey");
  exec (λ d, set_consumption
    (<[(depletion, layer, generation) := (qty, unit_cost)]> (db_consumption d)) d).

(** * Ordering by business chronology: [(posted_at, id)] pairs *)
Definition key_le (a b : Timestamp * Z) : Prop := a.1 < b.1 ∨ (a.1 = b.1 ∧ a.2 ≤ b.2).
Definition key_lt (a b : Timestamp * Z) : Prop := a.1 < b.1 ∨ (a.1 = b.1 ∧ a.2 < b.2).
#[global] Instance key_le_dec a b : Decision (key_le a b).
Proof. unfold key_le. apply _. Defined.
#[global] Instance key_lt_dec a b : Decision (key_lt a b).
Proof. unfold key_lt. apply _. Defined.

Definition line_key (il : Z * TrxLineRow) : Timestamp * Z := (tl_posted_at il.2, il.1).
Definition line_le (a b : Z * TrxLineRow) : Prop := key_le (line_key a) (line_key b).
#[global] Instance line_le_dec a b : Decision (line_le a b).
Proof. unfold line_le. apply _. Defined.

Definition is_physical (l : TrxLineRow) : bool :=
  negb (bool_decide (tl_line_type l = cost_adjustment_line)).
(** The physical lines of a pool, in R-1 order. *)
Definition physical_lines (p : Z) (d : Db) : list (Z * TrxLineRow) :=
  merge_sort line_le
    (List.filter (λ il, (tl_pool_id il.2 =? p) && is_physical il.2) (map_to_list (db_trx_line d))).

#[global] Instance key_le_total : Total key_le.
Proof. intros [a1 a2] [b1 b2]. unfold key_le. cbn. lia. Qed.
#[global] Instance key_le_trans : Transitive key_le.
Proof. intros [a1 a2] [b1 b2] [c1 c2]. unfold key_le. cbn. lia. Qed.
#[global] Instance line_le_total : Total line_le.
Proof. intros a b. apply key_le_total. Qed.
#[global] Instance line_le_trans : Transitive line_le.
Proof. intros a b c. apply key_le_trans. Qed.

(** * Inversion of successful transactions *)
Lemma ensure_Ok {A} (b : bool) (e : PgError) (k : Tx A) d a d' :
  (if b then k else throw e) d = (Ok a, d') ↔ b = true ∧ k d = (Ok a, d').
Proof. destruct b; [naive_solver|]. split; [done|]. intros [? _]. done. Qed.
Lemma sql_expr_Ok {A} (r : Res string A) d a d' :
  sql_expr r d = (Ok a, d') ↔ r = Ok a ∧ d' = d.
Proof. destruct r; cbn; (split; [intros [=]; by simplify_eq|intros [[=] ->]; by subst]). Qed.

Ltac tx_step :=
  match goal with
  | H : query _ _ = (Ok _, _) |- _ => injection H; clear H; intros; subst
  | H : exec _ _ = (Ok _, _) |- _ => injection H; clear H; intros; subst
  | H : bail _ _ _ = (Ok _, _) |- _ => discriminate H
  | H : sql_raise _ _ _ = (Ok _, _) |- _ => discriminate H
  | H : raise_ledger_error _ _ = (Ok _, _) |- _ => discriminate H
  | H : sql_expr _ _ = (Ok _, _) |- _ => apply sql_expr_Ok in H; destruct H as [H ->]
  | H : (if ?b then sql_raise _ _ else _) _ = (Ok _, _) |- _ =>
      let E := fresh "Hcond" in destruct b eqn:E; [discriminate H|]
  | H : (if ?b then bail _ _ else _) _ = (Ok _, _) |- _ =>
      let E := fresh "Hcond" in destruct b eqn:E; [discriminate H|]
  end.
Ltac tx_inv := repeat (first [tx_step | inv_step]; cbn beta iota zeta in *); simplify_eq.

(** A sequence value is the old position, and only the position moves. *)
Lemma nextval_run read bump d :
  nextval read bump d = (Ok (read (db_seqs d)), set_seqs (bump (db_seqs d)) d).
Proof. done. Qed.
