(* ===== verification/BulkWrite.v ===== *)
(** [ledger_spi_common]: the bulk writers of a plan ([bulk_write.rs]), the
    snapshot hydration ([hydration.rs]) and the pool-row locks
    ([pool_row_lock.rs]). *)
From S2P Require Import Prelude Numeric Plan Snapshot Wac StandardCost SpecificId Method Db.

(** * bulk_write.rs *)
Definition insert_trx (trx_type : string) (source_id : Z) (posted_at : Timestamp) : Tx Z :=
  insert_trx_row {| trx_trx_type := trx_type; trx_source_id := source_id;
                    trx_posted_at := posted_at |}.

Definition trx_line_row (trx_id : Z) (posted_at : Timestamp) (o : TrxLineOutput) : TrxLineRow :=
  {| tl_trx_id := trx_id; tl_pool_id := out_pool_id o;
     tl_line_type := line_type_as_sql (out_line_type o); tl_source_id := out_source_id o;
     tl_qty := out_qty o; tl_unit_cost := out_unit_cost o;
     tl_source_trx_line_id := out_source_trx_line_id o; tl_posted_at := posted_at |}.

(** One INSERT .. SELECT in ordinality order; the returned ids are sorted. *)
Definition insert_trx_lines (trx_id : Z) (posted_at : Timestamp) (outputs : list TrxLineOutput)
    : Tx (list Z) :=
  match outputs with
  | [] => mret []
  | _ =>
      ids ← mapM (λ o, insert_trx_line_row (trx_line_row trx_id posted_at o)) outputs;
      mret (merge_sort Z.le ids)
  end.

(** The vectors the loop over the mutations fills. *)
Record Batches := {
  bt_upserts : list (Z * StateRow);
  bt_inserts : list (Z * Z * StateRow);
  bt_deletes : list (Z * Z);
}.
Definition index_panic {A} : Tx A := throw (RustPanicked "index out of bounds").

Fixpoint batch_mutations (mutations : list PoolStateMutation) (trx_line_ids : list Z) : Tx Batches :=
  match mutations with
  | [] => mret {| bt_upserts := []; bt_inserts := []; bt_deletes := [] |}
  | m :: ms =>
      match m with
      | UpsertAggregate p q u v =>
          b ← batch_mutations ms trx_line_ids;
          mret {| bt_upserts :=
                    (p, {| ps_qty := q; ps_unit_cost := u; ps_value_sum := v |}) :: bt_upserts b;
                  bt_inserts := bt_inserts b; bt_deletes := bt_deletes b |}
      | InsertLayer p idx q u v =>
          match trx_line_ids !! idx with
          | None => index_panic
          | Some lid =>
              b ← batch_mutations ms trx_line_ids;
              mret {| bt_upserts := bt_upserts b;
                      bt_inserts :=
                        (p, lid, {| ps_qty := q; ps_unit_cost := u; ps_value_sum := v |})
                          :: bt_inserts b;
                      bt_deletes := bt_deletes b |}
          end
      | DeleteLayer p l =>
          b ← batch_mutations ms trx_line_ids;
          mret {| bt_upserts := bt_upserts b; bt_inserts := bt_inserts b;
                  bt_deletes := (p, l) :: bt_deletes b |}
      end
  end.

(** One multi-row INSERT .. ON CONFLICT DO UPDATE: PostgreSQL refuses to touch a
    row twice in one statement (21000). *)
Definition upsert_aggregates (rows : list (Z * StateRow)) : Tx unit :=
  ensure (bool_decide (NoDup (map fst rows)))
    else (SqlRaised "21000" "ON CONFLICT DO UPDATE command cannot affect row a second time");
  exec (λ d, set_pool_state
    (foldl (λ m pr, <[(pr.1, 0) := pr.2]> m) (db_pool_state d) rows) d).

(** One multi-row INSERT: a key that exists, or comes twice, violates the key. *)
Definition insert_layer (row : Z * Z * StateRow) : Tx unit :=
  m ← query db_pool_state;
  ensure (bool_decide (m !! row.1 = None)) else (SqlRaised "23505" "pool_state_pkey");
  exec (λ d, set_pool_state (<[row.1 := row.2]> (db_pool_state d)) d).

Definition delete_layers (keys : list (Z * Z)) : Tx unit :=
  exec (λ d, set_pool_state (foldl (λ m k, delete k m) (db_pool_state d) keys) d).

Definition apply_pool_state_mutations (mutations : list PoolStateMutation)
    (trx_line_ids : list Z) : Tx unit :=
  b ← batch_mutations mutations trx_line_ids;
  upsert_aggregates (bt_upserts b);;
  iterM insert_layer (bt_inserts b);;
  delete_layers (bt_deletes b).

Definition posting_row (trx_line_id : Z) (r : PostingLineRequest) : PostingRow :=
  {| pr_trx_line_id := trx_line_id;
     pr_event_type := posting_event_type_as_sql (pst_event_type r);
     pr_amount := pst_amount r; pr_debit_account := pst_debit_account r;
     pr_credit_account := pst_credit_account r; pr_posted_at := pst_posted_at r |}.

(** The index lookups fill the vectors before the one INSERT runs. *)
Definition insert_posting_lines (requests : list PostingLineRequest) (trx_line_ids : list Z)
    : Tx unit :=
  rows ← mapM (λ r, match trx_line_ids !! pst_trx_line_idx r with
                    | Some id => mret (posting_row id r)
                    | None => index_panic
                    end) requests;
  iterM (λ row, insert_posting_row row;; mret tt) rows.

Definition apply_plan_result (trx_id : Z) (posted_at : Timestamp) (plan : PlanResult) : Tx unit :=
  trx_line_ids ← insert_trx_lines trx_id posted_at (trx_lines plan);
  apply_pool_state_mutations (pool_state_mutations plan) trx_line_ids;;
  insert_posting_lines (posting_lines plan) trx_line_ids.

(** * pool_row_lock.rs: FOR UPDATE on the pool rows in ascending order; the locks
    themselves are not state of a single transaction's run. *)
Definition lock_order (pool_ids : list Z) : list Z := merge_sort Z.le (remove_dups pool_ids).
Definition lock_pool_rows (pool_ids : list Z) : Tx (list Z) :=
  query (λ d, List.filter (λ p, bool_decide (is_Some (cfg_pool (db_cfg d) !! p)))
                (lock_order pool_ids)).

(** * hydration.rs *)
Definition state_row (layer_id : Z) (r : StateRow) : PoolStateRow :=
  {| row_layer_id := layer_id; row_qty := ps_qty r; row_unit_cost := ps_unit_cost r;
     row_value_sum := ps_value_sum r |}.

Definition layer_id_le (a b : Z * StateRow) : Prop := a.1 ≤ b.1.
#[global] Instance layer_id_le_dec a b : Decision (layer_id_le a b).
Proof. unfold layer_id_le. apply _. Defined.
(** The rows with [layer_id > 0] of a pool, by layer id. *)
Definition layers_by_id (d : Db) (p : Z) : list (Z * StateRow) :=
  merge_sort layer_id_le
    (omap (λ kr, if (kr.1.1 =? p) && (0 <? kr.1.2) then Some (kr.1.2, kr.2) else None)
       (map_to_list (db_pool_state d))).

Definition hydrate_pool (d : Db) (p : Z) : option (list PoolStateRow) :=
  let agg := match db_pool_state d !! (p, 0) with
             | Some r => [state_row 0 r]
             | None => []
             end in
  let layers := match cfg_pool (db_cfg d) !! p with
                | Some row => if bool_decide (pool_method row = Specific)
                              then map (λ lr, state_row lr.1 lr.2) (layers_by_id d p) else []
                | None => []
                end in
  match agg ++ layers with [] => None | rows => Some rows end.

(** A map with the entries the per-pool query returns for the given ids. *)
Definition map_of_ids {A} (f : Z → option A) (ids : list Z) : gmap Z A :=
  list_to_map (omap (λ p, a ← f p; Some (p, a)) ids).

Definition hydrate_snapshot (pool_ids : list Z) (d : Db) : Snapshot :=
  match pool_ids with
  | [] => snapshot_default
  | _ =>
      let ids := remove_dups (merge_sort Z.le pool_ids) in
      let pool p := cfg_pool (db_cfg d) !! p in
      {| pools := map_of_ids (hydrate_pool d) ids;
         method_of := map_of_ids (λ p, r ← pool p; Some (pool_method r)) ids;
         sku_location_of :=
           map_of_ids (λ p, r ← pool p; Some (pool_sku_id r, pool_location_id r)) ids;
         standard_cost_of :=
           map_of_ids (λ p, r ← pool p;
             if bool_decide (pool_method r = Std)
             then cfg_standard_cost (db_cfg d) !! (pool_sku_id r, pool_location_id r)
             else None) ids;
         posting_accounts_of :=
           map_of_ids (λ p, r ← pool p;
             cfg_account_map (db_cfg d) !! (pool_sku_id r, pool_location_id r)) ids |}
  end.
