(* ===== verification/Cte.v ===== *)
(** [ledger-direct/src/cte.rs]: the four single-statement writers of the
    commutative hot path, each folding the aggregate, the transaction line and
    (for WAC) the posting into one SQL statement. *)
From S2P Require Import Prelude Numeric Plan Snapshot Wac StandardCost SpecificId Method CostLaws.
From S2P Require Import Db.

Section statements.
Context `{PgNumeric}.

Definition state_upsert (pool_id : Z) (r : StateRow) : Tx unit :=
  exec (λ d, set_pool_state (<[(pool_id, 0) := r]> (db_pool_state d)) d).
Definition aggregate_row (pool_id : Z) : Tx (option StateRow) :=
  query (λ d, db_pool_state d !! (pool_id, 0)).
(** [(a::numeric + b::numeric * c::numeric)::bigint]. *)
Definition to_bigint_fma (a b c : Z) : Tx Z := sql_expr (to_bigint (a + b * c)).
Definition bigint_add (a b : Z) : Tx Z := sql_expr (to_bigint (a + b)).

(** The SET list of the depletion statements, for the new quantity [q]: the value
    is flushed when the pool empties, the average kept unless stock remains. *)
Definition deplete_set (r : StateRow) (abs_qty cost q : Z) : Tx StateRow :=
  v ← (if q =? 0 then mret 0 else to_bigint_fma (ps_value_sum r) (- abs_qty) cost);
  u ← (if 0 <? q
       then sql_expr (sql_banker_div (ps_value_sum r - abs_qty * cost) q)
       else mret (ps_unit_cost r));
  mret {| ps_qty := q; ps_unit_cost := u; ps_value_sum := v |}.

(** The [ins_tl] part of each statement. *)
Definition cte_line (trx_id pool_id : Z) (line_type : string) (source_id : option Z)
    (qty unit_cost : Z) (posted_at : Timestamp) : TrxLineRow :=
  {| tl_trx_id := trx_id; tl_pool_id := pool_id; tl_line_type := line_type;
     tl_source_id := source_id; tl_qty := qty; tl_unit_cost := unit_cost;
     tl_source_trx_line_id := None; tl_posted_at := posted_at |}.
(** The [ins_pl] part of the WAC statements. *)
Definition cte_posting (trx_line_id : Z) (event_type : string) (amount debit credit : Z)
    (posted_at : Timestamp) : PostingRow :=
  {| pr_trx_line_id := trx_line_id; pr_event_type := event_type; pr_amount := amount;
     pr_debit_account := debit; pr_credit_account := credit; pr_posted_at := posted_at |}.

(** WAC_RECEIPT.  The VALUES list is evaluated before the conflict is known. *)
Definition wac_receipt (pool_id qty unit_cost trx_id : Z) (line_type : string)
    (line_source_id : option Z) (posted_at : Timestamp) (debit credit : Z) : Tx (option Z) :=
  ins_cost ← sql_expr (sql_banker_div (qty * unit_cost) qty);
  ins_value ← to_bigint_fma 0 qty unit_cost;
  old ← aggregate_row pool_id;
  new ← match old with
        | None => mret {| ps_qty := qty; ps_unit_cost := ins_cost; ps_value_sum := ins_value |}
        | Some r =>
            q ← bigint_add (ps_qty r) qty;
            v ← to_bigint_fma (ps_value_sum r) qty unit_cost;
            u ← sql_expr (sql_banker_div (ps_value_sum r + qty * unit_cost) q);
            mret {| ps_qty := q; ps_unit_cost := u; ps_value_sum := v |}
        end;
  state_upsert pool_id new;;
  id ← insert_trx_line_row
         (cte_line trx_id pool_id line_type line_source_id qty unit_cost posted_at);
  amount ← to_bigint_fma 0 qty unit_cost;
  insert_posting_row (cte_posting id "inventory_receipt" amount debit credit posted_at);;
  mret (Some id).

(** WAC_DEPLETE.  [None]: the quantity gate failed or there is no aggregate row,
    and nothing was written. *)
Definition wac_deplete (pool_id abs_qty trx_id : Z) (line_type : string)
    (line_source_id : option Z) (posted_at : Timestamp) (debit credit : Z) : Tx (option Z) :=
  old ← aggregate_row pool_id;
  match old with
  | None => mret None
  | Some r =>
      q ← bigint_add (ps_qty r) (- abs_qty);
      if q <? 0 then mret None else
      new ← deplete_set r abs_qty (ps_unit_cost r) q;
      state_upsert pool_id new;;
      let applied_uc := ps_unit_cost r in
      id ← insert_trx_line_row
             (cte_line trx_id pool_id line_type line_source_id (0 - abs_qty) applied_uc posted_at);
      amount ← to_bigint_fma 0 abs_qty applied_uc;
      insert_posting_row (cte_posting id "inventory_depletion" amount debit credit posted_at);;
      mret (Some id)
  end.

(** FL_RECEIPT: as WAC_RECEIPT, without posting, and keeping the prior average on
    a pool that stays short. *)
Definition fl_receipt (pool_id qty unit_cost trx_id : Z) (line_type : string)
    (line_source_id : option Z) (posted_at : Timestamp) : Tx (option Z) :=
  ins_cost ← sql_expr (sql_banker_div (qty * unit_cost) qty);
  ins_value ← to_bigint_fma 0 qty unit_cost;
  old ← aggregate_row pool_id;
  new ← match old with
        | None => mret {| ps_qty := qty; ps_unit_cost := ins_cost; ps_value_sum := ins_value |}
        | Some r =>
            q ← bigint_add (ps_qty r) qty;
            v ← to_bigint_fma (ps_value_sum r) qty unit_cost;
            u ← (if 0 <? q
                 then sql_expr (sql_banker_div (ps_value_sum r + qty * unit_cost) q)
                 else mret (ps_unit_cost r));
            mret {| ps_qty := q; ps_unit_cost := u; ps_value_sum := v |}
        end;
  state_upsert pool_id new;;
  id ← insert_trx_line_row
         (cte_line trx_id pool_id line_type line_source_id qty unit_cost posted_at);
  mret (Some id).

(** [GREATEST(COALESCE($3, ..), 0)]. *)
Definition observed_cost (standard_observed : option Z) (fallback : Z) : Z :=
  Z.max (default fallback standard_observed) 0.

(** FL_DEPLETE: no quantity gate; a missing aggregate starts at negative quantity
    with average 0. *)
Definition fl_deplete (pool_id abs_qty : Z) (standard_observed : option Z) (trx_id : Z)
    (line_type : string) (line_source_id : option Z) (posted_at : Timestamp) : Tx (option Z) :=
  ins_value ← sql_expr (to_bigint ((abs_qty * observed_cost standard_observed 0) * -1));
  old ← aggregate_row pool_id;
  new ← match old with
        | None => mret {| ps_qty := 0 - abs_qty; ps_unit_cost := 0; ps_value_sum := ins_value |}
        | Some r =>
            q ← bigint_add (ps_qty r) (- abs_qty);
            deplete_set r abs_qty (observed_cost standard_observed (ps_unit_cost r)) q
        end;
  state_upsert pool_id new;;
  let applied_uc :=
    observed_cost standard_observed (match old with Some r => ps_unit_cost r | None => 0 end) in
  id ← insert_trx_line_row
         (cte_line trx_id pool_id line_type line_source_id (0 - abs_qty) applied_uc posted_at);
  mret (Some id).

End statements.

(** * The aggregate of a pool as stored *)
Definition row_agg (r : StateRow) : Agg :=
  {| agg_qty := ps_qty r; agg_unit_cost := ps_unit_cost r; agg_value := ps_value_sum r |}.
Definition db_agg (d : Db) (p : Z) : Agg :=
  match db_pool_state d !! (p, 0) with Some r => row_agg r | None => agg_empty end.

(** The line passes the guards of an insert. *)
Definition line_admissible (d : Db) (l : TrxLineRow) : Prop :=
  (tl_line_type l ≠ cost_adjustment_line → period_frozen (db_period d) (tl_posted_at l) = false) ∧
  (tl_qty l ≠ 0 ∨ tl_line_type l = cost_adjustment_line) ∧ 0 ≤ tl_unit_cost l.

Definition add_trx_line (l : TrxLineRow) (d : Db) : Db :=
  set_trx_line (<[next_trx_line (db_seqs d) := l]> (db_trx_line d))
    (set_seqs (with_next_trx_line (db_seqs d)) d).
Definition add_posting (p : PostingRow) (d : Db) : Db :=
  set_posting (<[next_posting (db_seqs d) := p]> (db_posting d))
    (set_seqs (with_next_posting (db_seqs d)) d).
Definition put_db_agg (p : Z) (a : Agg) (d : Db) : Db :=
  set_pool_state (<[(p, 0) := {| ps_qty := agg_qty a; ps_unit_cost := agg_unit_cost a;
                                 ps_value_sum := agg_value a |}]> (db_pool_state d)) d.

Lemma insert_trx_line_row_Ok l d id d' :
  insert_trx_line_row l d = (Ok id, d') ↔
    line_admissible d l ∧ id = next_trx_line (db_seqs d) ∧ d' = add_trx_line l d.
Proof.
  unfold insert_trx_line_row, period_guard_trx_line, line_admissible.
  unfold mbind, SE_bind. rewrite nextval_run. cbn.
  destruct (decide (tl_line_type l = cost_adjustment_line)) as [E|E].
  - rewrite !(bool_decide_eq_true_2 _ E), orb_true_r. cbn.
    destruct (Z.leb_spec 0 (tl_unit_cost l)); cbn; [|split; [done|lia]].
    split; [intros [= <- <-]; naive_solver|]. intros (_ & -> & ->). done.
  - rewrite !(bool_decide_eq_false_2 _ E), orb_false_r. cbn.
    destruct (period_frozen _ _); cbn.
    { split; [done|]. intros ((Hf & _) & _). by specialize (Hf E). }
    destruct (Z.eqb_spec (tl_qty l) 0); cbn; [split; [done|]; naive_solver|].
    destruct (Z.leb_spec 0 (tl_unit_cost l)); cbn; [|split; [done|]; naive_solver lia].
    split; [intros [= <- <-]; naive_solver|]. intros (_ & -> & ->). done.
Qed.

Lemma insert_posting_row_Ok p d id d' :
  insert_posting_row p d = (Ok id, d') ↔ id = next_posting (db_seqs d) ∧ d' = add_posting p d.
Proof.
  unfold insert_posting_row, mbind, SE_bind. rewrite nextval_run. cbn.
  split; [by intros [= <- <-]|by intros [-> ->]].
Qed.

Lemma db_agg_put p a d : db_agg (put_db_agg p a d) p = a.
Proof. unfold db_agg, put_db_agg. cbn. rewrite lookup_insert_eq. by destruct a. Qed.
Lemma db_agg_put_ne p p' a d : p ≠ p' → db_agg (put_db_agg p a d) p' = db_agg d p'.
Proof. intros. unfold db_agg, put_db_agg. cbn. rewrite lookup_insert_ne; [done|]. by intros [=]. Qed.

Lemma to_bigint_Ok z y : to_bigint z = Ok y ↔ y = z ∧ in_i64 z.
Proof. unfold to_bigint. by rewrite ok_or_Ok, i64_try_from_Some. Qed.

(** The quotients for which [numeric] division is known to keep its fraction. *)
Definition numeric_exact (v q : Z) : Prop := Z.abs v < 10 ^ 15 * q.

Lemma sql_banker_div_Ok `{PgNumericLaws} v q u :
  0 < q → numeric_exact v q →
  sql_banker_div v q = Ok u ↔ u = banker_round v q ∧ in_i64 (banker_round v q).
Proof.
  intros Hq Hn. rewrite sql_banker_div_round; [apply to_bigint_Ok|lia|].
  unfold numeric_exact in Hn. by rewrite (Z.abs_eq q) by lia.
Qed.

Lemma bind_sql_Ok {A B} (r : Res string A) (k : A → Tx B) d b d' :
  (sql_expr r ≫= k) d = (Ok b, d') ↔ ∃ a, r = Ok a ∧ k a d = (Ok b, d').
Proof.
  rewrite SE_bind_Ok. split.
  - intros (a & d1 & [Hr ->]%sql_expr_Ok & Hk). eauto.
  - intros (a & Hr & Hk). exists a, d. by rewrite sql_expr_Ok.
Qed.
Lemma bind_exec_Ok {B} (f : Db → Db) (k : unit → Tx B) d b d' :
  (exec f ≫= k) d = (Ok b, d') ↔ k tt (f d) = (Ok b, d').
Proof. done. Qed.
Lemma bind_query_Ok {A B} (f : Db → A) (k : A → Tx B) d b d' :
  (query f ≫= k) d = (Ok b, d') ↔ k (f d) d = (Ok b, d').
Proof. done. Qed.

(** The tail shared by the WAC statements: line and posting. *)
Lemma wac_tail_Ok l amount event debit credit t d res d' :
  (id ← insert_trx_line_row l;
   a ← to_bigint_fma 0 amount.1 amount.2;
   insert_posting_row (cte_posting id event a debit credit t);;
   mret (Some id)) d = (Ok res, d') ↔
  line_admissible d l ∧ in_i64 (amount.1 * amount.2) ∧
  res = Some (next_trx_line (db_seqs d)) ∧
  d' = add_posting (cte_posting (next_trx_line (db_seqs d)) event (amount.1 * amount.2)
                      debit credit t) (add_trx_line l d).
Proof.
  rewrite SE_bind_Ok. unfold to_bigint_fma. split.
  - intros (id & d1 & (Ha & -> & ->)%insert_trx_line_row_Ok & Hk).
    apply bind_sql_Ok in Hk as (z & [-> Hz]%to_bigint_Ok & Hk).
    apply SE_bind_Ok in Hk as (pid & d2 & [-> ->]%insert_posting_row_Ok & Hk).
    injection Hk as <- <-. done.
  - intros (Ha & Hz & -> & ->). eexists _, _. split; [by apply insert_trx_line_row_Ok|].
    apply bind_sql_Ok. eexists. split; [by apply to_bigint_Ok|].
    apply SE_bind_Ok. eexists _, _. split; [by apply insert_posting_row_Ok|]. done.
Qed.

Lemma banker_round_exact q c : 0 < q → banker_round (q * c) q = c.
Proof.
  intros. apply (rounds_half_even_unique (q * c) q); [lia|apply banker_round_spec; lia|].
  unfold rounds_half_even. replace (q * c - c * q) with 0 by lia. lia.
Qed.

Lemma bind_bigint {B} z (k : Z → Tx B) d :
  in_i64 z → (sql_expr (to_bigint z) ≫= k) d = k z d.
Proof. intros Hz. unfold to_bigint. by rewrite i64_try_from_in. Qed.

Definition agg_state (a : Agg) : StateRow :=
  {| ps_qty := agg_qty a; ps_unit_cost := agg_unit_cost a; ps_value_sum := agg_value a |}.

(** The depletion SET list computes [wac_issue], whatever the sign of the result. *)
Lemma deplete_set_Ok `{PgNumericLaws} r n c q d new d' :
  let a' := wac_issue (row_agg r) n c in
  q = ps_qty r - n → (0 < q → numeric_exact (agg_value a') q) →
  deplete_set r n c q d = (Ok new, d') ↔
  d' = d ∧ new = agg_state a' ∧ (q ≠ 0 → in_i64 (agg_value a')) ∧
  (0 < q → in_i64 (agg_unit_cost a')).
Proof.
  cbn. intros Hq Hex. unfold deplete_set, to_bigint_fma, agg_state, wac_issue, derived_cost. cbn in *.
  rewrite <-Hq in *. replace (ps_value_sum r + - n * c) with (ps_value_sum r - n * c) by lia.
  destruct (Z.eqb_spec q 0) as [->|E].
  { cbn. split; [intros [= <- <-]; split_and!; (done || lia)|]. intros (-> & -> & _). done. }
  rewrite bind_sql_Ok. destruct (Z.ltb_spec 0 q).
  - setoid_rewrite bind_sql_Ok. split.
    + intros (v & [-> Hv]%to_bigint_Ok & u & [-> Hu]%sql_banker_div_Ok & Hk); [|lia|auto].
      injection Hk as <- <-. done.
    + intros (-> & -> & Hv & Hu). eexists. split; [apply to_bigint_Ok; auto|].
      eexists. split; [apply sql_banker_div_Ok; auto|]. done.
  - split.
    + intros (v & [-> Hv]%to_bigint_Ok & Hk). injection Hk as <- <-. split_and!; (done || lia).
    + intros (-> & -> & Hv & _). eexists. split; [apply to_bigint_Ok; auto|]. done.
Qed.

Section wac_statements.
Context `{PgNumericLaws}.
Context (p trx_id : Z) (lt : string) (src : option Z) (t : Timestamp) (debit credit : Z).

(** WAC_RECEIPT implements [wac_receive] on the stored aggregate. *)
Lemma wac_receipt_spec q c d res d' :
  let a := db_agg d p in
  let a' := wac_receive a q c in
  let l := cte_line trx_id p lt src q c t in
  0 < q → 0 ≤ agg_qty a → in_i64 q → in_i64 c → numeric_exact (q * c) q →
  numeric_exact (agg_value a') (agg_qty a') →
  wac_receipt p q c trx_id lt src t debit credit d = (Ok res, d') ↔
  in_i64 (agg_qty a') ∧ in_i64 (agg_value a') ∧ in_i64 (agg_unit_cost a') ∧
  in_i64 (q * c) ∧ line_admissible d l ∧ res = Some (next_trx_line (db_seqs d)) ∧
  d' = add_posting (cte_posting (next_trx_line (db_seqs d)) "inventory_receipt" (q * c)
                      debit credit t) (add_trx_line l (put_db_agg p a' d)).
Proof.
  unfold wac_receive. cbn. intros Hq Ha Hqi Hci Hex Hex'. rewrite derived_cost_pos by lia.
  unfold wac_receipt, aggregate_row, to_bigint_fma, bigint_add.
  rewrite bind_sql_Ok. setoid_rewrite bind_sql_Ok. setoid_rewrite bind_query_Ok.
  setoid_rewrite SE_bind_Ok. setoid_rewrite bind_exec_Ok.
  setoid_rewrite (wac_tail_Ok _ (q, c)). unfold db_agg in *.
  destruct (db_pool_state d !! (p, 0)) as [r|] eqn:Er; cbn in *.
  - split.
    + intros (ic & Hic & iv & [-> Hiv]%to_bigint_Ok & new & d1 & Hnew & Hadm & Hamt & -> & ->).
      apply bind_sql_Ok in Hnew as (q' & [-> Hq']%to_bigint_Ok & Hnew).
      apply bind_sql_Ok in Hnew as (v' & [-> Hv']%to_bigint_Ok & Hnew).
      apply bind_sql_Ok in Hnew as (u' & [-> Hu']%sql_banker_div_Ok & Hnew); [|lia|done].
      injection Hnew as <- <-. split_and!; done.
    + intros (Hq' & Hv' & Hu' & Hamt & Hadm & -> & ->).
      exists c. split; [apply sql_banker_div_Ok; [done|done|]; by rewrite banker_round_exact|].
      exists (q * c). split; [by apply to_bigint_Ok|]. eexists _, d. split.
      * apply bind_sql_Ok. eexists. split; [by apply to_bigint_Ok|].
        apply bind_sql_Ok. eexists. split; [by apply to_bigint_Ok|].
        apply bind_sql_Ok. eexists. split; [apply sql_banker_div_Ok; [lia|done|done]|]. done.
      * split_and!; done.
  - rewrite Z.add_0_l, banker_round_exact by lia. split.
    + intros (ic & Hic & iv & [-> Hiv]%to_bigint_Ok & new & d1 & Hnew & Hadm & Hamt & -> & ->).
      apply sql_banker_div_Ok in Hic as [-> _]; [|done..]. rewrite banker_round_exact in Hnew by lia.
      injection Hnew as <- <-. split_and!; done.
    + intros (Hq' & Hv' & Hu' & Hamt & Hadm & -> & ->).
      exists c. split; [apply sql_banker_div_Ok; [done|done|]; by rewrite banker_round_exact|].
      exists (q * c). split; [by apply to_bigint_Ok|]. eexists _, d. split; [done|].
      split_and!; done.
Qed.

(** WAC_DEPLETE implements [wac_issue] at the stored average, behind the
    quantity gate. *)
Lemma wac_deplete_spec n d res d' :
  let a := db_agg d p in
  let a' := wac_issue a n (agg_unit_cost a) in
  let l := cte_line trx_id p lt src (0 - n) (agg_unit_cost a) t in
  0 < n → 0 ≤ agg_qty a → in_i64 n → in_i64 (agg_qty a) →
  (n < agg_qty a → numeric_exact (agg_value a') (agg_qty a')) →
  wac_deplete p n trx_id lt src t debit credit d = (Ok res, d') ↔
  (agg_qty a < n ∧ res = None ∧ d' = d) ∨
  (n ≤ agg_qty a ∧
   (agg_qty a ≠ n → in_i64 (agg_value a') ∧ in_i64 (agg_unit_cost a')) ∧
   in_i64 (n * agg_unit_cost a) ∧ line_admissible d l ∧
   res = Some (next_trx_line (db_seqs d)) ∧
   d' = add_posting (cte_posting (next_trx_line (db_seqs d)) "inventory_depletion"
                       (n * agg_unit_cost a) debit credit t)
          (add_trx_line l (put_db_agg p a' d))).
Proof.
  cbn. intros Hn Ha Hni Hai Hex. unfold wac_deplete, aggregate_row, bigint_add.
  rewrite bind_query_Ok. unfold db_agg in *.
  destruct (db_pool_state d !! (p, 0)) as [r|] eqn:Er; cbn [row_agg agg_qty agg_empty] in *.
  2:{ split; [intros [= <- <-]; left; split_and!; [lia|done..]|].
      intros [(_ & -> & ->)|(? & _)]; [done|lia]. }
  rewrite bind_bigint by (replace (ps_qty r + - n) with (ps_qty r - n) by lia; solve_i64).
  replace (ps_qty r + - n) with (ps_qty r - n) by lia. cbv beta.
  destruct (Z.ltb_spec (ps_qty r - n) 0) as [Hlt|Hge].
  { split; [intros [= <- <-]; left; split_and!; [lia|done..]|].
    intros [(_ & -> & ->)|(? & _)]; [done|lia]. }
  rewrite SE_bind_Ok. setoid_rewrite (deplete_set_Ok r n); [|lia|intros; apply Hex; lia].
  setoid_rewrite bind_exec_Ok. setoid_rewrite (wac_tail_Ok _ (n, ps_unit_cost r)). split.
  - intros (new & d1 & (-> & -> & Hv & Hu) & Hadm & Hamt & -> & ->). right.
    split_and!; try done; [lia|]. intros. split; [apply Hv|apply Hu]; lia.
  - intros [(? & _)|(_ & Hin & Hamt & Hadm & -> & ->)]; [lia|].
    eexists _, _. split; [split_and!; try done; intros; apply Hin; lia|]. done.
Qed.
End wac_statements.

(** * The FIFO/LIFO appends *)
Section fl_statements.
Context `{PgNumericLaws}.
Context (p trx_id : Z) (lt : string) (src : option Z) (t : Timestamp).

Lemma line_tail_Ok l d res d' :
  (id ← insert_trx_line_row l; mret (Some id)) d = (Ok res, d') ↔
  line_admissible d l ∧ res = Some (next_trx_line (db_seqs d)) ∧ d' = add_trx_line l d.
Proof.
  rewrite SE_bind_Ok. split.
  - intros (id & d1 & (Ha & -> & ->)%insert_trx_line_row_Ok & Hk). injection Hk as <- <-. done.
  - intros (Ha & -> & ->). eexists _, _. split; [by apply insert_trx_line_row_Ok|]. done.
Qed.

Lemma fl_receipt_spec q c d res d' :
  let a := db_agg d p in
  let a' := wac_receive a q c in
  let l := cte_line trx_id p lt src q c t in
  0 < q → in_i64 q → in_i64 c → numeric_exact (q * c) q →
  (0 < agg_qty a' → numeric_exact (agg_value a') (agg_qty a')) →
  fl_receipt p q c trx_id lt src t d = (Ok res, d') ↔
  in_i64 (q * c) ∧ in_i64 (agg_qty a') ∧ in_i64 (agg_value a') ∧
  (0 < agg_qty a' → in_i64 (agg_unit_cost a')) ∧
  line_admissible d l ∧ res = Some (next_trx_line (db_seqs d)) ∧
  d' = add_trx_line l (put_db_agg p a' d).
Proof.
  cbn. intros Hq Hqi Hci Hex Hex'. unfold fl_receipt, aggregate_row, to_bigint_fma, bigint_add.
  rewrite bind_sql_Ok. setoid_rewrite bind_sql_Ok. setoid_rewrite bind_query_Ok.
  setoid_rewrite SE_bind_Ok. setoid_rewrite bind_exec_Ok. setoid_rewrite line_tail_Ok.
  assert (sql_banker_div (q * c) q = Ok c) as Hc
    by (apply sql_banker_div_Ok; [done|done|]; by rewrite banker_round_exact).
  unfold db_agg, wac_receive, derived_cost in *.
  destruct (db_pool_state d !! (p, 0)) as [r|] eqn:Er; cbn -[Z.ltb] in *.
  - split.
    + intros (ic & _ & iv & [-> Hiv]%to_bigint_Ok & new & d1 & Hnew & Hadm & -> & ->).
      apply bind_sql_Ok in Hnew as (q' & [-> Hq']%to_bigint_Ok & Hnew).
      apply bind_sql_Ok in Hnew as (v' & [-> Hv']%to_bigint_Ok & Hnew).
      destruct (Z.ltb_spec 0 (ps_qty r + q)).
      * apply bind_sql_Ok in Hnew as (u' & [-> Hu']%sql_banker_div_Ok & Hnew); [|lia|auto].
        injection Hnew as <- <-. split_and!; done.
      * injection Hnew as <- <-. split_and!; try done. lia.
    + intros (Hiv & Hq' & Hv' & Hu' & Hadm & -> & ->). exists c. split; [done|].
      eexists. split; [by apply to_bigint_Ok|]. eexists _, d. split; [|split_and!; done].
      apply bind_sql_Ok. eexists. split; [by apply to_bigint_Ok|].
      apply bind_sql_Ok. eexists. split; [by apply to_bigint_Ok|].
      destruct (Z.ltb_spec 0 (ps_qty r + q)); [|done].
      apply bind_sql_Ok. eexists. split; [apply sql_banker_div_Ok; auto|]. done.
  - rewrite !Z.add_0_l, (proj2 (Z.ltb_lt 0 q) Hq), banker_round_exact by done. split.
    + intros (ic & Hic & iv & [-> Hiv]%to_bigint_Ok & new & d1 & Hnew & Hadm & -> & ->).
      rewrite Hc in Hic. injection Hic as <-. injection Hnew as <- <-. split_and!; done.
    + intros (Hiv & Hq' & Hv' & Hu' & Hadm & -> & ->). exists c. split; [done|].
      eexists. split; [by apply to_bigint_Ok|]. eexists _, d. split; [done|split_and!; done].
Qed.

Lemma fl_deplete_spec n std d res d' :
  let a := db_agg d p in
  let cost := observed_cost std (agg_unit_cost a) in
  let a' := wac_issue a n cost in
  let l := cte_line trx_id p lt src (0 - n) cost t in
  0 < n → in_i64 n → (0 < agg_qty a' → numeric_exact (agg_value a') (agg_qty a')) →
  fl_deplete p n std trx_id lt src t d = (Ok res, d') ↔
  in_i64 (n * observed_cost std 0 * -1) ∧ in_i64 (agg_qty a') ∧
  (agg_qty a' ≠ 0 → in_i64 (agg_value a')) ∧
  (0 < agg_qty a' → in_i64 (agg_unit_cost a')) ∧
  line_admissible d l ∧ res = Some (next_trx_line (db_seqs d)) ∧
  d' = add_trx_line l (put_db_agg p a' d).
Proof.
  cbn [wac_issue agg_qty]. intros Hn Hni Hex.
  unfold fl_deplete, aggregate_row, bigint_add. rewrite bind_sql_Ok.
  setoid_rewrite bind_query_Ok. setoid_rewrite SE_bind_Ok. setoid_rewrite bind_exec_Ok.
  setoid_rewrite line_tail_Ok. unfold db_agg in *.
  destruct (db_pool_state d !! (p, 0)) as [r|] eqn:Er; cbn [row_agg agg_qty agg_unit_cost] in *.
  - replace (ps_qty r + - n) with (ps_qty r - n) by lia. split.
    + intros (iv & [-> Hiv]%to_bigint_Ok & new & d1 & Hnew & Hadm & -> & ->).
      apply bind_sql_Ok in Hnew as (q' & [-> Hq']%to_bigint_Ok & Hnew).
      apply deplete_set_Ok in Hnew as (-> & -> & Hv & Hu); [|done|auto]. split_and!; done.
    + intros (Hiv & Hq' & Hv & Hu & Hadm & -> & ->). eexists. split; [by apply to_bigint_Ok|].
      eexists _, d. split; [|split_and!; done].
      apply bind_sql_Ok. eexists. split; [by apply to_bigint_Ok|].
      apply deplete_set_Ok; [done|auto|]. split_and!; done.
  - unfold wac_issue in *. cbn -[Z.eqb Z.ltb] in *. rewrite !Z.sub_0_l in *.
    rewrite (proj2 (Z.eqb_neq (- n) 0)) in * by lia.
    unfold derived_cost in *. rewrite (proj2 (Z.ltb_ge 0 (- n))) in * by lia.
    replace (n * observed_cost std 0 * -1) with (0 - n * observed_cost std 0) by lia.
    split.
    + intros (iv & [-> Hiv]%to_bigint_Ok & new & d1 & Hnew & Hadm & -> & ->).
      injection Hnew as <- <-. split_and!; try done; try lia. solve_i64.
    + intros (Hiv & Hq' & Hv & Hu & Hadm & -> & ->). eexists. split; [by apply to_bigint_Ok|].
      eexists _, d. split; [done|split_and!; done].
Qed.
End fl_statements.
