(* ===== verification/Submit.v ===== *)
(** [ledger-direct/src/submit.rs]: one submission, from JSON lines to committed
    rows, shared by the direct call and the staging drain. *)
From S2P Require Import Prelude Numeric Plan Snapshot Wac StandardCost SpecificId Method CostLaws.
From S2P Require Import Db BulkWrite Cte.

(** * Configuration read (resolve_cfgs) *)
Record PoolCfg := {
  pc_method : PoolMethod;
  pc_standard_basis : bool;
  pc_sku_id : Z;
  pc_location_id : Z;
  pc_accounts : option PostingAccounts;
  pc_standard_cost : option Z;
}.

Definition pool_cfg (d : Db) (p : Z) : option PoolCfg :=
  row ← cfg_pool (db_cfg d) !! p;
  Some {| pc_method := pool_method row;
          pc_standard_basis := bool_decide (pool_provisional_basis row = Standard);
          pc_sku_id := pool_sku_id row;
          pc_location_id := pool_location_id row;
          pc_accounts := cfg_account_map (db_cfg d) !! (pool_sku_id row, pool_location_id row);
          pc_standard_cost :=
            cfg_standard_cost (db_cfg d) !! (pool_sku_id row, pool_location_id row) |}.
Definition resolve_cfgs (pool_ids : list Z) (d : Db) : gmap Z PoolCfg :=
  map_of_ids (pool_cfg d) pool_ids.

(** * Decoding and checks *)
Definition numbered := (nat * TrxLineRequest)%type.

(** Zero-quantity lines are dropped before their type is looked at. *)
Fixpoint decode_lines_from (idx : nat) (ls : list LineJson) : Tx (list numbered) :=
  match ls with
  | [] => mret []
  | l :: ls =>
      if lj_qty l =? 0 then decode_lines_from (S idx) ls else
      match decode_line_type (lj_line_type l) with
      | None => bail "22023" "unknown line_type"
      | Some lt =>
          rest ← decode_lines_from (S idx) ls;
          mret ((idx, {| req_pool_id := lj_pool_id l; req_line_type := lt;
                         req_source_id := lj_source_id l; req_qty := lj_qty l;
                         req_unit_cost := lj_unit_cost l |}) :: rest)
      end
  end.

(** A BTreeSet read in order. *)
Definition btree_set (l : list Z) : list Z := merge_sort Z.le (remove_dups l).

Definition check_backpressure (touched : list Z) : Tx unit :=
  bp ← query db_backpressure;
  match List.find (λ p, bool_decide (is_Some (bp !! p))) touched with
  | Some _ => bail "53400" "backpressure-throttled"
  | None => mret tt
  end.

Definition check_cfg (cfgs : gmap Z PoolCfg) (p : Z) : Tx unit :=
  match cfgs !! p with
  | None => raise_ledger_error (UnknownPool p)
  | Some cfg =>
      match pc_accounts cfg with
      | None => raise_ledger_error (MissingPostingAccounts (pc_sku_id cfg) (pc_location_id cfg))
      | Some _ => mret tt
      end
  end.

(** * One commutative line (dispatch_cte_line) *)
Definition abs_qty (l : TrxLineRequest) : Tx Z :=
  match checked_abs (req_qty l) with
  | Some a => mret a
  | None => bail "22003" "qty.abs() overflow"
  end.
Definition expect_row (m : Tx (option Z)) : Tx unit :=
  r ← m;
  match r with
  | Some _ => mret tt
  | None => bail "XX000" "returned no trx_line id"
  end.

Section submit.
Context `{PgNumeric}.

Definition dispatch_cte_line (cfg : PoolCfg) (trx_id : Z) (posted_at : Timestamp)
    (l : TrxLineRequest) : Tx unit :=
  let lt := line_type_as_sql (req_line_type l) in
  match pc_accounts cfg with
  | None => throw (RustPanicked "validated in apply_submission")
  | Some accounts =>
      let '(rcv_debit, rcv_credit) := pair_for accounts (req_line_type l) in
      match pc_method cfg with
      | Wac =>
          if 0 <? req_qty l then
            expect_row (wac_receipt (req_pool_id l) (req_qty l) (req_unit_cost l) trx_id lt
                          (req_source_id l) posted_at rcv_debit rcv_credit)
          else
            n ← abs_qty l;
            r ← wac_deplete (req_pool_id l) n trx_id lt (req_source_id l) posted_at
                  rcv_credit rcv_debit;
            match r with
            | Some _ => mret tt
            | None => bail "23000" "insufficient inventory"
            end
      | Fifo | Lifo =>
          if 0 <? req_qty l then
            expect_row (fl_receipt (req_pool_id l) (req_qty l) (req_unit_cost l) trx_id lt
                          (req_source_id l) posted_at)
          else
            standard_observed ←
              (if pc_standard_basis cfg then
                 match pc_standard_cost cfg with
                 | Some c => mret (Some c)
                 | None => raise_ledger_error
                             (MissingStandardCost (pc_sku_id cfg) (pc_location_id cfg))
                 end
               else mret None);
            n ← abs_qty l;
            expect_row (fl_deplete (req_pool_id l) n standard_observed trx_id lt
                          (req_source_id l) posted_at)
      | Std | Specific => throw (RustPanicked "core methods filtered out")
      end
  end.

(** * The pipeline (apply_submission) *)
Definition is_core (cfgs : gmap Z PoolCfg) (p : Z) : bool :=
  match cfgs !! p with
  | Some cfg => bool_decide (pc_method cfg = Std) || bool_decide (pc_method cfg = Specific)
  | None => false
  end.

(** Step 3: lock, hydrate, plan, write. *)
Definition core_phase (trx_id : Z) (posted_at : Timestamp) (core_lines : list TrxLineRequest)
    : Tx unit :=
  match core_lines with
  | [] => mret tt
  | _ =>
      let core_pools := btree_set (map req_pool_id core_lines) in
      lock_pool_rows core_pools;;
      snap ← query (hydrate_snapshot core_pools);
      match plan_apply snap core_lines posted_at with
      | (Ok plan, _) => apply_plan_result trx_id posted_at plan
      | (Err (Returned e), _) => raise_ledger_error e
      | (Err (Panicked msg), _) => throw (RustPanicked msg)
      end
  end.

Definition numbered_le (a b : numbered) : Prop :=
  key_le (req_pool_id a.2, Z.of_nat a.1) (req_pool_id b.2, Z.of_nat b.1).
#[global] Instance numbered_le_dec a b : Decision (numbered_le a b).
Proof. unfold numbered_le. apply _. Defined.

(** Step 4: the other lines, by (pool, submission index). *)
Definition cte_order (cfgs : gmap Z PoolCfg) (lines : list numbered) : list numbered :=
  merge_sort numbered_le (List.filter (λ il, negb (is_core cfgs (req_pool_id il.2))) lines).
Definition cte_phase (cfgs : gmap Z PoolCfg) (trx_id : Z) (posted_at : Timestamp)
    (lines : list numbered) : Tx unit :=
  iterM (λ il,
    match cfgs !! req_pool_id il.2 with
    | Some cfg => dispatch_cte_line cfg trx_id posted_at il.2
    | None => throw (RustPanicked "validated above")
    end) (cte_order cfgs lines).

Definition apply_submission (trx_type : string) (source_id : Z) (posted_at : Timestamp)
    (line_jsons : list LineJson) (enforce_backpressure : bool) : Tx Z :=
  lines ← decode_lines_from 0 line_jsons;
  let touched := btree_set (map (λ il, req_pool_id il.2) lines) in
  (if enforce_backpressure then check_backpressure touched else mret tt);;
  cfgs ← query (resolve_cfgs touched);
  iterM (check_cfg cfgs) touched;;
  trx_id ← insert_trx trx_type source_id posted_at;
  core_phase trx_id posted_at
    (map snd (List.filter (λ il, is_core cfgs (req_pool_id il.2)) lines));;
  cte_phase cfgs trx_id posted_at lines;;
  mret trx_id.

(** The SQL entry point: the timestamp parser and the JSON decoder are libraries. *)
Definition ledger_submit_trx {Json : Type} (parse_from_rfc3339 : string → option Timestamp)
    (from_value : Json → option (list LineJson)) (trx_type : string) (source_id : Z)
    (posted_at : string) (lines : Json) : Tx Z :=
  match parse_from_rfc3339 posted_at with
  | None => bail "22007" "posted_at not RFC3339"
  | Some t =>
      match from_value lines with
      | None => bail "22023" "lines JSONB decode failed"
      | Some line_jsons => apply_submission trx_type source_id t line_jsons true
      end
  end.

(** * The staging drain (drain.rs) *)
Definition id_le {A} (a b : Z * A) : Prop := a.1 ≤ b.1.
#[global] Instance id_le_dec {A} (a b : Z * A) : Decision (id_le a b).
Proof. unfold id_le. apply _. Defined.

Definition is_pending (r : InboxRow) : bool :=
  match inb_status r with Pending => true | _ => false end.
(** Pending rows not locked by another committer, in id order, up to the limit. *)
Definition claim_inbox (locked : gset Z) (limit : nat) (d : Db) : list (Z * InboxRow) :=
  take limit (merge_sort id_le
    (List.filter (λ ir, is_pending ir.2 && bool_decide (ir.1 ∉ locked)) (map_to_list (db_inbox d)))).

Definition with_status (s : InboxStatus) (r : InboxRow) : InboxRow :=
  {| inb_trx_type := inb_trx_type r; inb_source_id := inb_source_id r;
     inb_posted_at := inb_posted_at r; inb_lines := inb_lines r; inb_status := s |}.
Definition set_status (id : Z) (s : InboxStatus) : Tx unit :=
  exec (λ d, set_inbox (alter (with_status s) id (db_inbox d)) d).

(** [m] in a subtransaction: an error undoes its writes and becomes a value. *)
Definition subtransaction {A} (m : Tx A) : Tx (Res PgError A) := λ d,
  match m d with
  | (Ok a, d') => (Ok (Ok a), d')
  | (Err e, d') => (Ok (Err e), rollback d d')
  end.

Definition apply_claimed (from_timestamp_micros : Z → option Timestamp)
    (message : PgError → string) (ir : Z * InboxRow) : Tx (Z * InboxStatus) :=
  let '(id, r) := ir in
  match from_timestamp_micros (inb_posted_at r) with
  | None => mret (id, Failed ("posted_at out of range: " +:+ pretty (inb_posted_at r) +:+ "us"))
  | Some t =>
      match inb_lines r with
      | None => mret (id, Failed "lines decode failed")
      | Some lines =>
          outcome ← subtransaction
            (apply_submission (inb_trx_type r) (inb_source_id r) t lines false);
          mret (id, match outcome with Ok _ => Done | Err e => Failed (message e) end)
      end
  end.

Definition ledger_staging_drain (from_timestamp_micros : Z → option Timestamp)
    (message : PgError → string) (locked : gset Z) (p_limit : Z) : Tx Z :=
  raw ← query (claim_inbox locked (Z.to_nat (Z.max p_limit 1)));
  match raw with
  | [] => mret 0
  | _ =>
      outcomes ← mapM (apply_claimed from_timestamp_micros message) raw;
      iterM (λ o, set_status o.1 o.2) outcomes;;
      mret (Z.of_nat (length raw))
  end.

End submit.
