(* ===== verification/Recalc.v ===== *)
(** [ledger-direct/src/recalc.rs]: the recalc engine.  One pass claims a dirty
    pool, replays its physical events in [(posted_at, id)] order through the
    strict fold, writes a generation of corrections, materializes the open
    layers and decides whether the pool stays queued. *)
From S2P Require Import Prelude Numeric Plan Snapshot Wac Strict Db BulkWrite Cte Submit.

(** * Claims *)
Record Claim := {
  cl_pool_id : Z;
  cl_method : PoolMethod;
  cl_generation : Z;
  cl_settled : option (Timestamp * Z);
  cl_floor : option (Timestamp * Z);
}.

Definition is_strict (m : PoolMethod) : bool :=
  match m with Fifo | Lifo => true | _ => false end.

Definition open_escalation (p : Z) (e : EscalationRow) : bool :=
  (esc_pool_id e =? p) && negb (esc_resolved e).
Definition halted_period (p : Z) (d : Db) : option (option Z) :=
  esc_closed_period_id <$> List.find (open_escalation p) (db_escalation d).

(** [Escalation] is the escalation row before it is stored. *)
Definition esc_le (a b : Z * option Z) : Prop := a.1 ≤ b.1.
#[global] Instance esc_le_dec a b : Decision (esc_le a b).
Proof. unfold esc_le. apply _. Defined.
Definition escalated_pools (d : Db) : list (Z * option Z) :=
  merge_sort esc_le
    (map (λ e, (esc_pool_id e, esc_closed_period_id e))
       (List.filter (λ e, negb (esc_resolved e)) (db_escalation d))).

Definition read_claim (p : Z) : Tx Claim :=
  d ← query id;
  match cfg_pool (db_cfg d) !! p with
  | None => bail "XX000" "queued pool missing from pool"
  | Some row =>
      let ps := db_pool_settlement d !! p in
      mret {| cl_pool_id := p; cl_method := pool_method row;
              cl_generation := from_option pse_recalc_generation 0 ps;
              cl_settled := ps ≫= pse_settled_through;
              cl_floor := ps ≫= pse_recost_floor |}
  end.

(** The oldest mark not locked by a sibling and not halted. *)
Definition queue_le (a b : Z * Timestamp) : Prop := key_le (a.2, a.1) (b.2, b.1).
#[global] Instance queue_le_dec a b : Decision (queue_le a b).
Proof. unfold queue_le. apply _. Defined.
Definition next_claimable (locked : gset Z) (d : Db) : option Z :=
  fst <$> head (merge_sort queue_le
    (List.filter (λ pt, negb (existsb (open_escalation pt.1) (db_escalation d)) &&
                        bool_decide (pt.1 ∉ locked))
       (map_to_list (db_recalc_queue d)))).
Definition claim_next (locked : gset Z) : Tx (option Claim) :=
  next ← query (next_claimable locked);
  match next with
  | None => mret None
  | Some p => c ← read_claim p; mret (Some c)
  end.

Definition drop_queue_row (p : Z) : Tx unit :=
  exec (λ d, set_recalc_queue (delete p (db_recalc_queue d)) d).

(** * Reads of a pass *)
Definition layer_le (a b : Z * StateRow * TrxLineRow) : Prop :=
  key_le (tl_posted_at a.2, a.1.1) (tl_posted_at b.2, b.1.1).
#[global] Instance layer_le_dec a b : Decision (layer_le a b).
Proof. unfold layer_le. apply _. Defined.
(** Open layers joined with the receipts that created them, by chronology. *)
Definition layer_rows_joined (p : Z) (d : Db) : list (Z * StateRow * TrxLineRow) :=
  merge_sort layer_le
    (omap (λ kr, if (kr.1.1 =? p) && (0 <? kr.1.2)
                 then (λ l, (kr.1.2, kr.2, l)) <$> db_trx_line d !! kr.1.2 else None)
       (map_to_list (db_pool_state d))).
Definition strict_layer (r : Z * StateRow * TrxLineRow) : StrictLayer :=
  {| sl_layer_id := r.1.1; sl_qty := ps_qty r.1.2; sl_unit_cost := ps_unit_cost r.1.2 |}.
Definition hydrate_layers (p : Z) (d : Db) : list StrictLayer :=
  map strict_layer (layer_rows_joined p d).

(** The scan after an exclusive frontier, or from opening. *)
Definition after_key (after : option (Timestamp * Z)) (il : Z * TrxLineRow) : bool :=
  match after with None => true | Some k => bool_decide (key_lt k (line_key il)) end.
Definition scan_events (p : Z) (after : option (Timestamp * Z)) (d : Db)
    : list (Z * TrxLineRow) :=
  List.filter (after_key after) (physical_lines p d).
Definition strict_event (il : Z * TrxLineRow) : StrictEvent :=
  {| se_trx_line_id := il.1; se_qty := tl_qty il.2; se_unit_cost := tl_unit_cost il.2 |}.

(** The settlement row of a depletion with the greatest generation. *)
Definition later_settlement (best : option (Z * CostSettlementRow)) (g : Z) (r : CostSettlementRow)
    : option (Z * CostSettlementRow) :=
  match best with
  | Some (g', r') => if g' <? g then Some (g, r) else best
  | None => Some (g, r)
  end.
Definition latest_settlement (d : Db) (depletion : Z) : option (Z * CostSettlementRow) :=
  foldl (λ best kr, if kr.1.1 =? depletion then later_settlement best kr.1.2 kr.2 else best)
    None (map_to_list (db_cost_settlement d)).
(** [load_priors], one depletion. *)
Definition prior_cost (d : Db) (depletion : Z) : option Z :=
  (λ gr, cst_authoritative_unit_cost gr.2) <$> latest_settlement d depletion.

(** * The write set of a pass *)
Record Pending := {
  pd_costing : DepletionCosting;
  pd_line_type : string;
  pd_prior_unit_cost : Z;
  pd_delta : Z;
}.
Definition pd_id (p : Pending) : Z := dc_depletion_trx_line_id (pd_costing p).

Definition pending_of (d : Db) (scanned : list (Z * TrxLineRow)) (c : DepletionCosting)
    : Tx (option Pending) :=
  let '(prior, is_new) :=
    match prior_cost d (dc_depletion_trx_line_id c) with
    | Some p => (p, false)
    | None => (dc_observed_unit_cost c, true)
    end in
  if is_new || negb (dc_authoritative_unit_cost c =? prior) then
    let delta := wsub (dc_authoritative_unit_cost c) prior * dc_qty c in
    match List.find (λ il, il.1 =? dc_depletion_trx_line_id c) scanned with
    | Some il => mret (Some {| pd_costing := c; pd_line_type := tl_line_type il.2;
                               pd_prior_unit_cost := prior; pd_delta := delta |})
    | None => bail "XX000" "costed depletion missing from scan"
    end
  else mret None.

(** * Divergence from closed periods *)
(** The pending depletions below the closed frontier, in R-1 order, with the
    closed period that covers them. *)
Definition frozen_pending (d : Db) (pending : list Pending) : list (Pending * option Z) :=
  let rows := merge_sort line_le
    (List.filter (λ il, bool_decide (il.1 ∈ map pd_id pending) &&
                        below_frontier (db_period d) (tl_posted_at il.2))
       (map_to_list (db_trx_line d))) in
  omap (λ il, (λ p, (p, covering_closed (db_period d) (tl_posted_at il.2))) <$>
                List.find (λ p, pd_id p =? il.1) pending) rows.

Definition detect_closed_period_divergence (p : Z) (pending : list Pending) (d : Db)
    : option EscalationRow :=
  let affected := frozen_pending d pending in
  match affected with
  | [] => None
  | first :: _ =>
      let '(x, period) :=
        default first (List.find (λ a, negb (pd_delta a.1 =? 0)) affected) in
      Some {| esc_pool_id := p;
              esc_closed_period_id := period;
              esc_depletion_trx_line_id := pd_id x;
              esc_had_settlement := negb (pd_delta x =? 0) ||
                negb (pd_prior_unit_cost x =? dc_observed_unit_cost (pd_costing x));
              esc_frozen_unit_cost := pd_prior_unit_cost x;
              esc_recomputed_unit_cost := dc_authoritative_unit_cost (pd_costing x);
              esc_qty := dc_qty (pd_costing x);
              esc_diverging_depletions :=
                Z.of_nat (length (List.filter (λ a, negb (pd_delta a.1 =? 0)) affected));
              esc_total_value_divergence :=
                default i64_max (i64_try_from (sumZ (λ a, pd_delta a.1) affected));
              esc_resolved := false |}
  end.

(** INSERT .. ON CONFLICT (one open escalation per pool) DO NOTHING. *)
Definition record_escalation (e : EscalationRow) : Tx unit :=
  exec (λ d, if existsb (open_escalation (esc_pool_id e)) (db_escalation d) then d
             else set_escalation (db_escalation d ++ [e]) d).

(** * Writes of a pass *)
Definition resolve_accounts (p : Z) : Tx PostingAccounts :=
  d ← query id;
  match cfg_pool (db_cfg d) !! p with
  | None => raise_ledger_error (UnknownPool p)
  | Some row =>
      match cfg_account_map (db_cfg d) !! (pool_sku_id row, pool_location_id row) with
      | Some a => mret a
      | None => raise_ledger_error
                  (MissingPostingAccounts (pool_sku_id row) (pool_location_id row))
      end
  end.
Definition pair_for_text (accounts : PostingAccounts) (line_type : string) : Tx (Z * Z) :=
  match decode_line_type line_type with
  | Some lt => mret (pair_for accounts lt)
  | None => bail "XX000" "no account pair for line_type"
  end.

Section engine.
Context `{PgNumeric}.
Variable now : Timestamp.

(** A [cost_adjustment] trx stamped now. *)
Definition adjustment_trx : Tx Z :=
  source_id ← nextval next_cost_adjustment with_next_cost_adjustment;
  insert_trx_row {| trx_trx_type := "cost_adjustment"; trx_source_id := source_id;
                    trx_posted_at := now |}.

(** A [cost_adjustment_line] with its posting; returns the posting id. *)
Definition adjustment_line (trx_id p qty unit_cost : Z) (source : option Z)
    (amount debit credit : Z) : Tx Z :=
  id ← insert_trx_line_row
    {| tl_trx_id := trx_id; tl_pool_id := p; tl_line_type := cost_adjustment_line;
       tl_source_id := None; tl_qty := qty; tl_unit_cost := unit_cost;
       tl_source_trx_line_id := source; tl_posted_at := now |};
  insert_posting_row
    {| pr_trx_line_id := id; pr_event_type := "cost_adjustment"; pr_amount := amount;
       pr_debit_account := debit; pr_credit_account := credit; pr_posted_at := now |}.

Definition settlement_row (x : Pending) (posting : option Z) : CostSettlementRow :=
  {| cst_authoritative_unit_cost := dc_authoritative_unit_cost (pd_costing x);
     cst_prior_unit_cost := pd_prior_unit_cost x;
     cst_adjustment_posting_line_id := posting |}.

(** One nonzero delta: the line, the posting and the settlement record. *)
Definition write_adjustment (p generation trx_id : Z) (accounts : PostingAccounts) (x : Pending)
    : Tx unit :=
  amount ← match i64_try_from (Z.abs (pd_delta x)) with
           | Some a => mret a
           | None => bail "22003" "adjustment amount overflows bigint"
           end;
  pair ← pair_for_text accounts (pd_line_type x);
  let '(rcv_debit, rcv_credit) := pair : Z * Z in
  let '(debit, credit) :=
    if 0 <? pd_delta x then (rcv_credit, rcv_debit) else (rcv_debit, rcv_credit) in
  posting_line_id ← adjustment_line trx_id p (- dc_qty (pd_costing x))
    (dc_authoritative_unit_cost (pd_costing x)) (Some (pd_id x)) amount debit credit;
  insert_cost_settlement (pd_id x) generation (settlement_row x (Some posting_line_id)).

Definition write_generation (p generation : Z) (pending : list Pending) : Tx nat :=
  let adjusted := List.filter (λ x, negb (pd_delta x =? 0)) pending in
  let zero := List.filter (λ x, pd_delta x =? 0) pending in
  accounts ← (match adjusted with
              | [] => mret None
              | _ => a ← resolve_accounts p; mret (Some a)
              end);
  iterM (λ xd, insert_consumption (pd_id xd.1) (ld_layer_trx_line_id xd.2) generation
                 (ld_qty xd.2) (ld_unit_cost xd.2))
    (pending ≫= λ x, map (pair x) (dc_draws (pd_costing x)));;
  (match accounts with
   | None => mret tt
   | Some a =>
       trx_id ← adjustment_trx;
       iterM (write_adjustment p generation trx_id a) adjusted
   end);;
  iterM (λ x, insert_cost_settlement (pd_id x) generation (settlement_row x None)) zero;;
  mret (length adjusted).

(** DELETE all layers of the pool, INSERT the folded ones. *)
Definition materialize_layers (p : Z) (layers : list StrictLayer) : Tx unit :=
  exec (λ d, set_pool_state
    (filter (λ kr, ¬ (kr.1.1 = p ∧ 0 < kr.1.2)) (db_pool_state d)) d);;
  iterM (λ l, v ← sql_expr (to_bigint (sl_qty l * sl_unit_cost l));
              insert_layer (p, sl_layer_id l,
                {| ps_qty := sl_qty l; ps_unit_cost := sl_unit_cost l; ps_value_sum := v |}))
    layers.

Definition reconcile_aggregate_value (p net_delta : Z) : Tx unit :=
  net ← match i64_try_from net_delta with
        | Some n => mret n
        | None => bail "22003" "net value delta overflows bigint"
        end;
  old ← aggregate_row p;
  match old with
  | None => mret tt
  | Some r =>
      v ← sql_expr (to_bigint (ps_value_sum r - net));
      u ← (if 0 <? ps_qty r then sql_expr (sql_banker_div (ps_value_sum r - net) (ps_qty r))
           else mret (ps_unit_cost r));
      state_upsert p {| ps_qty := ps_qty r; ps_unit_cost := u; ps_value_sum := v |}
  end.

(** Advance the settlement row; the floor goes only if it is still the claimed
    one.  Returns whether a floor is left. *)
Definition settle (c : Claim) (generation : Z) (frontier : Timestamp * Z) : Tx bool :=
  old ← query (λ d, db_pool_settlement d !! cl_pool_id c);
  let new := match old with
             | None => {| pse_recalc_generation := generation;
                          pse_settled_through := Some frontier; pse_recost_floor := None |}
             | Some ps =>
                 {| pse_recalc_generation := Z.max (pse_recalc_generation ps) generation;
                    pse_settled_through := Some frontier;
                    pse_recost_floor :=
                      if bool_decide (pse_recost_floor ps = cl_floor c) then None
                      else pse_recost_floor ps |}
             end in
  exec (λ d, set_pool_settlement (<[cl_pool_id c := new]> (db_pool_settlement d)) d);;
  mret (bool_decide (is_Some (pse_recost_floor new))).

Definition with_floor (k : Timestamp * Z) (ps : PoolSettlementRow) : PoolSettlementRow :=
  {| pse_recalc_generation := pse_recalc_generation ps;
     pse_settled_through := pse_settled_through ps; pse_recost_floor := Some k |}.
(** UPDATE .. SET floor WHERE the floor is NULL or above. *)
Definition lower_floor (p : Z) (k : Timestamp * Z) (d : Db) : Db :=
  set_pool_settlement
    (alter (λ ps, match pse_recost_floor ps with
                  | None => with_floor k ps
                  | Some f => if bool_decide (key_lt k f) then with_floor k ps else ps
                  end) p (db_pool_settlement d)) d.

(** The first physical line inside the replayed range that the scan missed. *)
Definition missed_line (p : Z) (scan_from : option (Timestamp * Z)) (frontier : Timestamp * Z)
    (scanned_ids : list Z) (d : Db) : option (Z * TrxLineRow) :=
  List.find (λ il, after_key scan_from il && bool_decide (key_le (line_key il) frontier) &&
                   bool_decide (il.1 ∉ scanned_ids)) (physical_lines p d).

(** Counter reset and thresholds of the backpressure. *)
Definition reset_backlog (p tail_count : Z) : Tx unit :=
  exec (λ d, set_backlog (<[p := tail_count]> (db_backlog d)) d);;
  exec (λ d,
    let engage := (cfg_bound_events (db_cfg d) <=? tail_count) &&
      match cfg_pool (db_cfg d) !! p with Some r => is_strict (pool_method r) | None => false end in
    if engage && bool_decide (db_backpressure d !! p = None)
    then set_backpressure (<[p := tail_count]> (db_backpressure d)) d else d);;
  exec (λ d, if tail_count <=? cfg_low_water (db_cfg d)
             then set_backpressure (delete p (db_backpressure d)) d else d).

Definition decide_queue (p : Z) (scan_from frontier : option (Timestamp * Z))
    (scanned_ids : list Z) (floor_pending : bool) : Tx bool :=
  missed ← (match frontier with
            | None => mret false
            | Some f =>
                m ← query (missed_line p scan_from f scanned_ids);
                match m with
                | None => mret false
                | Some il => exec (lower_floor p (line_key il));; mret true
                end
            end);
  tail_count ← query (λ d, Z.of_nat (length (scan_events p frontier d)));
  reset_backlog p tail_count;;
  if floor_pending || (0 <? tail_count) || missed then
    exec (λ d, set_recalc_queue (alter (λ _, now) p (db_recalc_queue d)) d);; mret true
  else
    drop_queue_row p;; mret false.

(** * One pass *)
Record PassOutcome := {
  po_full_replay : bool;
  po_events : nat;
  po_settlements : nat;
  po_adjustments : nat;
  po_generation : Z;
  po_floor_pending : bool;
  po_requeued : bool;
  po_escalated : option EscalationRow;
}.

Definition strict_fold_of (m : PoolMethod) (opening : list StrictLayer)
    (events : list StrictEvent) : Tx StrictFoldOutput :=
  match (match m with Fifo => fifo_strict_fold opening events
                    | _ => lifo_strict_fold opening events end) with
  | Ok out => mret out
  | Err msg => throw (RustPanicked msg)
  end.

(** What the reads of a pass determine: the scan, the fold and the write set. *)
Record PassPlan := {
  pp_full_replay : bool;
  pp_scanned : list (Z * TrxLineRow);
  pp_fold : StrictFoldOutput;
  pp_pending : list Pending;
}.
Definition scan_from (c : Claim) (full_replay : bool) : option (Timestamp * Z) :=
  if full_replay then None else cl_settled c.
Definition pass_plan (c : Claim) : Tx PassPlan :=
  d ← query id;
  let full_replay := bool_decide (is_Some (cl_floor c)) || bool_decide (cl_settled c = None) in
  let opening := if full_replay then [] else hydrate_layers (cl_pool_id c) d in
  let scanned := scan_events (cl_pool_id c) (scan_from c full_replay) d in
  fold ← strict_fold_of (cl_method c) opening (map strict_event scanned);
  pending ← mapM (pending_of d scanned) (fo_costings fold);
  mret {| pp_full_replay := full_replay; pp_scanned := scanned; pp_fold := fold;
          pp_pending := omap id pending |}.

(** The last scanned event, else the claimed frontier. *)
Definition new_frontier (c : Claim) (scanned : list (Z * TrxLineRow)) : option (Timestamp * Z) :=
  match last scanned with Some il => Some (line_key il) | None => cl_settled c end.

(** The writes that follow the divergence check. *)
Definition pass_write (c : Claim) (pl : PassPlan) : Tx PassOutcome :=
  let p := cl_pool_id c in
  let wrote := negb (bool_decide (length (pp_pending pl) = 0%nat)) in
  let generation := cl_generation c + Z.b2z wrote in
  adjustments ← (if wrote then write_generation p generation (pp_pending pl) else mret 0%nat);
  (match pp_scanned pl with
   | [] => mret tt
   | _ => materialize_layers p (fo_layers (pp_fold pl))
   end);;
  let net_delta := sumZ pd_delta (pp_pending pl) in
  (if net_delta =? 0 then mret tt else reconcile_aggregate_value p net_delta);;
  let frontier := new_frontier c (pp_scanned pl) in
  floor_pending ← (match frontier with
                   | Some f => settle c generation f
                   | None => mret false
                   end);
  requeued ← decide_queue p (scan_from c (pp_full_replay pl)) frontier
               (map fst (pp_scanned pl)) floor_pending;
  mret {| po_full_replay := pp_full_replay pl; po_events := length (pp_scanned pl);
          po_settlements := length (pp_pending pl); po_adjustments := adjustments;
          po_generation := generation; po_floor_pending := floor_pending;
          po_requeued := requeued; po_escalated := None |}.

Definition run_claimed_pass (c : Claim) : Tx PassOutcome :=
  pl ← pass_plan c;
  esc ← query (detect_closed_period_divergence (cl_pool_id c) (pp_pending pl));
  match esc with
  | Some e =>
      record_escalation e;;
      mret {| po_full_replay := pp_full_replay pl; po_events := length (pp_scanned pl);
              po_settlements := 0; po_adjustments := 0; po_generation := cl_generation c;
              po_floor_pending := bool_decide (is_Some (cl_floor c)); po_requeued := true;
              po_escalated := Some e |}
  | None => pass_write c pl
  end.

(** * Worker tick and targeted drains *)
Inductive StepReport : Type :=
| NotClaimed
| SkippedNonStrict (p : Z) (m : PoolMethod)
| Passed (p : Z) (m : PoolMethod) (out : PassOutcome).

Definition ledger_recalc_step (locked : gset Z) : Tx StepReport :=
  c ← claim_next locked;
  match c with
  | None => mret NotClaimed
  | Some c =>
      if is_strict (cl_method c) then
        out ← run_claimed_pass c; mret (Passed (cl_pool_id c) (cl_method c) out)
      else
        drop_queue_row (cl_pool_id c);; mret (SkippedNonStrict (cl_pool_id c) (cl_method c))
  end.

(** The targeted claim: refuses a halted pool, ensures the queue row. *)
Definition claim_pool (p : Z) : Tx Claim :=
  d ← query id;
  match halted_period p d with
  | Some _ => bail "55000" "RecalcHalted"
  | None =>
      match cfg_pool (db_cfg d) !! p with
      | None => raise_ledger_error (UnknownPool p)
      | Some _ =>
          (match db_recalc_queue d !! p with
           | Some _ => mret tt
           | None => exec (λ d, set_recalc_queue (<[p := now]> (db_recalc_queue d)) d)
           end);;
          read_claim p
      end
  end.

Record DrainStats := {
  ds_passes : Z;
  ds_settlements : Z;
  ds_adjustments : Z;
  ds_generation : Z;
  ds_escalated : option EscalationRow;
}.
Definition drain_stats_default : DrainStats :=
  {| ds_passes := 0; ds_settlements := 0; ds_adjustments := 0; ds_generation := 0;
     ds_escalated := None |}.
Definition add_pass (s : DrainStats) (out : PassOutcome) : DrainStats :=
  {| ds_passes := ds_passes s + 1;
     ds_settlements := ds_settlements s + Z.of_nat (po_settlements out);
     ds_adjustments := ds_adjustments s + Z.of_nat (po_adjustments out);
     ds_generation := po_generation out;
     ds_escalated := match po_escalated out with Some e => Some e | None => ds_escalated s end |}.
Inductive DrainOutcome : Type :=
| NonStrict (m : PoolMethod)
| Drained (s : DrainStats).

Definition MAX_DRAIN_PASSES : nat := Z.to_nat 10000.
(** [passes_left] passes remain before the loop gives up. *)
Fixpoint drain_loop (passes_left : nat) (p : Z) (stats : DrainStats) : Tx DrainOutcome :=
  c ← claim_pool p;
  if is_strict (cl_method c) then
    out ← run_claimed_pass c;
    let stats := add_pass stats out in
    if bool_decide (is_Some (po_escalated out)) then mret (Drained stats)
    else if negb (po_requeued out) then mret (Drained stats)
    else match passes_left with
         | O | S O => bail "XX000" "did not quiesce"
         | S n => drain_loop n p stats
         end
  else
    drop_queue_row p;; mret (NonStrict (cl_method c)).
Definition drain_pool_to_head (p : Z) : Tx DrainOutcome :=
  drain_loop MAX_DRAIN_PASSES p drain_stats_default.

End engine.
