(* ===== verification/Close.v ===== *)
(** [ledger-direct/src/close.rs]: closing an accounting period (gate, drain and
    sweep, re-check, stamp) and settling one pool on demand. *)
From S2P Require Import Prelude Numeric Plan Snapshot Wac Strict Db BulkWrite Cte Submit Recalc.

(** * The gate *)
Record GatePool := {
  gp_pool_id : Z;
  gp_unsettled_events : Z;
  gp_unsettled_gross : Z;
  gp_floor_pending : bool;
}.
Definition lagging (g : GatePool) : bool := (0 <? gp_unsettled_events g) || gp_floor_pending g.

Definition period_end (end_date : Z) : Timestamp := day_start (end_date + 1).
(** Physical lines of the pool posted before the end of the period. *)
Definition lines_in_scope (end_date p : Z) (d : Db) : list (Z * TrxLineRow) :=
  List.filter (λ il, tl_posted_at il.2 <? period_end end_date) (physical_lines p d).

Definition settled_of (d : Db) (p : Z) : option (Timestamp * Z) :=
  db_pool_settlement d !! p ≫= pse_settled_through.
Definition floor_of (d : Db) (p : Z) : option (Timestamp * Z) :=
  db_pool_settlement d !! p ≫= pse_recost_floor.

(** [sum(abs(qty) * unit_cost)::bigint]: the products are bigint, the sum is not. *)
Definition gross_value (lines : list (Z * TrxLineRow)) : Res string Z :=
  total ← foldM (λ acc il,
    a ← to_bigint (Z.abs (tl_qty il.2));
    x ← to_bigint (a * tl_unit_cost il.2);
    Ok (acc + x)) 0 lines;
  to_bigint total.

Definition gate_pool (end_date p : Z) (d : Db) : Res string GatePool :=
  let lag := List.filter (after_key (settled_of d p)) (lines_in_scope end_date p d) in
  gross ← gross_value lag;
  Ok {| gp_pool_id := p; gp_unsettled_events := Z.of_nat (length lag);
        gp_unsettled_gross := gross;
        gp_floor_pending :=
          match floor_of d p with Some f => f.1 <? period_end end_date | None => false end |}.

Definition strict_pools (d : Db) : list Z :=
  merge_sort Z.le (map fst (List.filter (λ pr, is_strict (pool_method pr.2))
                              (map_to_list (cfg_pool (db_cfg d))))).
Definition gate_scope (end_date : Z) (d : Db) : list Z :=
  List.filter (λ p, negb (bool_decide (lines_in_scope end_date p d = []))) (strict_pools d).
Definition gate_pools (end_date : Z) : Tx (list GatePool) :=
  d ← query id;
  mapM (λ p, sql_expr (gate_pool end_date p d)) (gate_scope end_date d).

Definition in_period_event_count (end_date : Z) (d : Db) : Z :=
  sumZ (λ p, Z.of_nat (length (lines_in_scope end_date p d))) (strict_pools d).

(** * The feed-currency leg *)
Inductive FeedReason : Type :=
| SlotAbsent
| SlotInvalidated (reason : string)
| SlotNoCursor
| SlotBehind (bytes : Z).
Definition feed_currency (gate_lsn : Z) (d : Db) : option FeedReason :=
  if negb (cfg_feed_required (db_cfg d)) then None else
  match db_slot d with
  | None => Some SlotAbsent
  | Some s =>
      match slot_invalidation_reason s with
      | Some reason => Some (SlotInvalidated reason)
      | None =>
          if bool_decide (slot_wal_status s = "lost"%string)
          then Some (SlotInvalidated "wal_status=lost") else
          match slot_confirmed_flush_lsn s with
          | None => Some SlotNoCursor
          | Some lsn => if gate_lsn <=? lsn then None else Some (SlotBehind (gate_lsn - lsn))
          end
      end
  end.
Definition feed_lag_bytes (d : Db) : option Z :=
  s ← db_slot d; lsn ← slot_confirmed_flush_lsn s; Some (db_wal_lsn d - lsn).

(** * Period row *)
Definition in_i32 (z : Z) : Prop := - 2 ^ 31 ≤ z ≤ 2 ^ 31 - 1.
#[global] Instance in_i32_dec z : Decision (in_i32 z).
Proof. unfold in_i32. apply _. Defined.
Definition advisory_key (period_id : Z) : Tx Z :=
  if bool_decide (in_i32 period_id) then mret period_id
  else bail "22003" "period id exceeds the advisory int4 keyspace".

Definition load_period (period_id : Z) : Tx PeriodRow :=
  ps ← query db_period;
  match ps !! period_id with
  | Some p => mret p
  | None => bail "42704" "accounting_period does not exist"
  end.

(** An earlier period that is not closed. *)
Definition earlier_open (p : PeriodRow) (ps : gmap Z PeriodRow) : bool :=
  existsb (λ iq, negb (is_closed iq.2) && (per_start_date iq.2 <? per_start_date p)) (map_to_list ps).
Definition reject_out_of_order (p : PeriodRow) : Tx unit :=
  ps ← query db_period;
  if earlier_open p ps then bail "55000" "periods close in start_date order" else mret tt.

Definition with_state (s : PeriodState) (c : option (Timestamp * string)) (p : PeriodRow) : PeriodRow :=
  {| per_start_date := per_start_date p; per_end_date := per_end_date p; per_state := s;
     per_closed := c |}.
Definition mark_closing (period_id : Z) : Tx unit :=
  exec (λ d, set_period
    (alter (λ p, if bool_decide (per_state p = PeriodOpen)
                 then with_state PeriodClosing (per_closed p) p else p)
       period_id (db_period d)) d).

(** Rust's [is_empty] and [is_some]. *)
Definition isEmpty {A} (l : list A) : bool := match l with [] => true | _ => false end.
Definition isSome {A} (o : option A) : bool := match o with Some _ => true | None => false end.

Section close.
Context `{PgNumeric}.
Variable now : Timestamp.

Definition stamp_closed (period_id : Z) (actor : string) : Tx Timestamp :=
  ps ← query db_period;
  match ps !! period_id with
  | Some p =>
      if is_closed p then bail "XX000" "state changed underneath the closer mutex"
      else exec (λ d, set_period
                   (<[period_id := with_state PeriodClosed (Some (now, actor)) p]> (db_period d)) d);;
           mret now
  | None => bail "XX000" "state changed underneath the closer mutex"
  end.

(** * The sweep *)
Record SweepResult := {
  sw_pool_id : Z;
  sw_residue : Z;
  sw_posting_line_id : option Z;
  sw_drain : DrainStats;
}.

Definition lock_aggregate (p : Z) : Tx bool :=
  query (λ d, bool_decide (is_Some (db_pool_state d !! (p, 0)))).

(** [COALESCE(sum(value_sum), 0)] over the open layers. *)
Definition layer_value (p : Z) (d : Db) : Z :=
  sumZ (λ kr, if (kr.1.1 =? p) && (0 <? kr.1.2) then ps_value_sum kr.2 else 0)
    (map_to_list (db_pool_state d)).

(** True the aggregate to the layers; the residue is what it held beyond them. *)
Definition apply_residue (p : Z) : Tx Z :=
  old ← aggregate_row p;
  lay ← query (layer_value p);
  v ← sql_expr (to_bigint lay);
  match old with
  | None => mret 0
  | Some r =>
      if ps_value_sum r =? v then mret 0 else
      u ← (if 0 <? ps_qty r then sql_expr (sql_banker_div v (ps_qty r)) else mret (ps_unit_cost r));
      state_upsert p {| ps_qty := ps_qty r; ps_unit_cost := u; ps_value_sum := v |};;
      sql_expr (to_bigint (ps_value_sum r - v))
  end.

(** The residue's zero-quantity line and posting; all residues of a close share
    one trx, created on first need. *)
Definition post_residue_gl (p residue : Z) (trx : option Z) : Tx (Z * option Z) :=
  accounts ← resolve_accounts p;
  match acc_variance accounts with
  | None => raise_ledger_error (MissingVarianceAccount p)
  | Some variance =>
      let inventory := (acc_receipt accounts).1 in
      let '(debit, credit) :=
        if 0 <? residue then (variance, inventory) else (inventory, variance) in
      amount ← match checked_abs residue with
               | Some a => mret a
               | None => bail "22003" "residue overflows bigint"
               end;
      trx_id ← match trx with Some id => mret id | None => adjustment_trx now end;
      posting ← adjustment_line now trx_id p 0 0 None amount debit credit;
      mret (posting, Some trx_id)
  end.

Definition sweep_pool (p : Z) (trx : option Z) : Tx (SweepResult * option Z) :=
  c ← claim_pool now p;
  if negb (is_strict (cl_method c)) then bail "XX000" "sweep reached non-strict pool" else
  has_aggregate ← lock_aggregate p;
  outcome ← drain_pool_to_head now p;
  match outcome with
  | NonStrict _ => throw (RustPanicked "method checked above")
  | Drained drain =>
      match ds_escalated drain with
      | Some _ => bail "55000" "RecalcHalted"
      | None =>
          if has_aggregate : bool then
            residue ← apply_residue p;
            if residue =? 0
            then mret ({| sw_pool_id := p; sw_residue := residue; sw_posting_line_id := None;
                          sw_drain := drain |}, trx)
            else
              r ← post_residue_gl p residue trx;
              mret ({| sw_pool_id := p; sw_residue := residue; sw_posting_line_id := Some r.1;
                       sw_drain := drain |}, r.2)
          else mret ({| sw_pool_id := p; sw_residue := 0; sw_posting_line_id := None;
                        sw_drain := drain |}, trx)
      end
  end.

Definition merge_sweep (prior next : SweepResult) : SweepResult :=
  {| sw_pool_id := sw_pool_id prior;
     sw_residue := wadd (sw_residue prior) (sw_residue next);
     sw_posting_line_id :=
       match sw_posting_line_id next with Some i => Some i | None => sw_posting_line_id prior end;
     sw_drain :=
       {| ds_passes := ds_passes (sw_drain prior) + ds_passes (sw_drain next);
          ds_settlements := ds_settlements (sw_drain prior) + ds_settlements (sw_drain next);
          ds_adjustments := ds_adjustments (sw_drain prior) + ds_adjustments (sw_drain next);
          ds_generation := ds_generation (sw_drain next);
          ds_escalated := ds_escalated (sw_drain prior) |} |}.

(** Merge into the first entry of the pool, or append. *)
Fixpoint add_sweep (r : SweepResult) (swept : list SweepResult) : list SweepResult :=
  match swept with
  | [] => [r]
  | s :: rest => if sw_pool_id s =? sw_pool_id r then merge_sweep s r :: rest
                 else s :: add_sweep r rest
  end.

(** Sweep the pools in turn, threading the shared trx and the results. *)
Fixpoint sweep_pools (ps : list Z) (trx : option Z) (swept : list SweepResult)
    : Tx (list SweepResult * option Z) :=
  match ps with
  | [] => mret (swept, trx)
  | p :: ps =>
      r ← sweep_pool p trx;
      sweep_pools ps r.2 (add_sweep r.1 swept)
  end.

Definition stragglers (gate : list GatePool) (swept : list SweepResult) : list Z :=
  map gp_pool_id (List.filter (λ g, lagging g ||
    negb (existsb (λ s, sw_pool_id s =? gp_pool_id g) swept)) gate).

Definition MAX_RECHECK_ROUNDS : nat := 64.
(** [rounds_left] rounds remain before the loop gives up; returns the rounds run. *)
Fixpoint recheck (rounds_left : nat) (rounds : nat) (end_date : Z) (trx : option Z)
    (swept : list SweepResult) : Tx (list SweepResult * nat) :=
  gate ← gate_pools end_date;
  match stragglers gate swept with
  | [] => mret (swept, rounds)
  | ps =>
      match rounds_left with
      | O => bail "XX000" "gate did not quiesce"
      | S n =>
          r ← sweep_pools ps trx swept;
          recheck n (S rounds) end_date r.2 r.1
      end
  end.

(** * Closing *)
Record GateReport := {
  gr_passed : bool;
  gr_pools_in_scope : nat;
  gr_lagging : list GatePool;
  gr_unsettled_gross_total : Z;
  gr_feed_lag_bytes : option Z;
  gr_feed : option FeedReason;
  gr_halted : list (Z * option Z);
}.
Inductive CloseReport : Type :=
| AlreadyClosed (closed : option (Timestamp * string))
| NotClosed (gate : GateReport) (force_requested : bool)
| Closed (gate : GateReport) (forced : bool) (closed_at : Timestamp) (swept : list SweepResult)
    (recheck_rounds : nat).

Definition ledger_close_period (period_id : Z) (actor : string) (force : bool) : Tx CloseReport :=
  advisory_key period_id;;
  period ← load_period period_id;
  if is_closed period then mret (AlreadyClosed (per_closed period)) else
  reject_out_of_order period;;
  events_at_gate ← query (in_period_event_count (per_end_date period));
  gate_lsn ← query db_wal_lsn;
  gate ← gate_pools (per_end_date period);
  let lag := List.filter lagging gate in
  feed_lag ← query feed_lag_bytes;
  halted ← query (λ d, List.filter (λ e, existsb (λ g, gp_pool_id g =? e.1) gate) (escalated_pools d));
  feed ← query (feed_currency gate_lsn);
  let passed := isEmpty lag && negb (isSome feed) && isEmpty halted in
  let report := {| gr_passed := passed; gr_pools_in_scope := length gate; gr_lagging := lag;
                   gr_unsettled_gross_total := foldr (λ g z, wadd (gp_unsettled_gross g) z) 0 lag;
                   gr_feed_lag_bytes := feed_lag;
                   gr_feed := feed; gr_halted := halted |} in
  if negb (isEmpty halted) || isSome feed || (negb passed && negb force) then
    mark_closing period_id;; mret (NotClosed report force)
  else
    r1 ← sweep_pools (map gp_pool_id gate) None [];
    r2 ← recheck MAX_RECHECK_ROUNDS 0 (per_end_date period) r1.2 r1.1;
    events_at_fence ← query (in_period_event_count (per_end_date period));
    if negb (events_at_fence =? events_at_gate)
    then bail "55000" "physical events landed during the close" else
    closed_at ← stamp_closed period_id actor;
    mret (Closed report (force && negb passed) closed_at r2.1 r2.2).

(** * Settling one pool *)
Inductive SettleReport : Type :=
| SettleSkipped (m : PoolMethod)
| SettleHalted (e : EscalationRow) (passes : Z)
| Settled (s : DrainStats).
Definition ledger_settle_pool (p : Z) : Tx SettleReport :=
  outcome ← drain_pool_to_head now p;
  mret (match outcome with
        | NonStrict m => SettleSkipped m
        | Drained s =>
            match ds_escalated s with
            | Some e => SettleHalted e (ds_passes s)
            | None => Settled s
            end
        end).

End close.
