(* ===== verification/PgOutput.v ===== *)
(** [ledger-feed/src/pgoutput.rs]: the parser of logical-replication messages,
    and its round trip with the wire format. *)
From Stdlib Require Import Strings.Byte.
From S2P Require Import Prelude.

(** * Bytes *)
#[global] Instance byte_eq_dec : EqDecision byte := Byte.byte_eq_dec.
Abbreviation bytes := (list byte).
Definition byte_Z (b : byte) : Z := Z.of_N (Byte.to_N b).
Definition byte_of_Z (z : Z) : byte :=
  match Byte.of_N (Z.to_N (z `mod` 256)) with Some b => b | None => x00 end.
(** An ASCII literal. *)
Definition ascii (s : string) : bytes := String.list_byte_of_string s.

(** [String::from_utf8] accepts exactly the well-formed UTF-8 sequences. *)
Definition cont (b : byte) : bool := (128 <=? byte_Z b) && (byte_Z b <? 192).
Fixpoint utf8_valid (fuel : nat) (s : bytes) : bool :=
  match fuel with
  | O => false
  | S fuel =>
      match s with
      | [] => true
      | a :: s =>
          let x := byte_Z a in
          if x <? 128 then utf8_valid fuel s
          else if (194 <=? x) && (x <? 224) then
            match s with b :: s => cont b && utf8_valid fuel s | _ => false end
          else if (224 <=? x) && (x <? 240) then
            match s with
            | b :: c :: s =>
                let y := byte_Z b in
                (if x =? 224 then (160 <=? y) && (y <? 192)
                 else if x =? 237 then (128 <=? y) && (y <? 160)
                 else cont b) && cont c && utf8_valid fuel s
            | _ => false
            end
          else if (240 <=? x) && (x <? 245) then
            match s with
            | b :: c :: d :: s =>
                let y := byte_Z b in
                (if x =? 240 then (144 <=? y) && (y <? 192)
                 else if x =? 244 then (128 <=? y) && (y <? 144)
                 else cont b) && cont c && cont d && utf8_valid fuel s
            | _ => false
            end
          else false
      end
  end.
Definition from_utf8 (s : bytes) : option bytes :=
  if utf8_valid (S (length s)) s then Some s else None.

(** * Messages *)
Record Relation := {
  rel_id : Z;
  rel_namespace : bytes;
  rel_name : bytes;
  rel_column_names : list bytes;
}.
Inductive Message : Type :=
| Begin
| Commit
| RelationMsg (r : Relation)
| Insert (rel_id : Z) (columns : list (option bytes))
| Other (tag : byte).
Inductive ParseError : Type :=
| Truncated (need have : Z)
| UnterminatedCString
| NonUtf8
| BadTupleKind (b : byte)
| NegativeLength (len : Z)
| UnsupportedColumnKind (b : byte)
| UnknownTag (b : byte).

(** * The reader: the unread suffix of the buffer *)
Abbreviation Reader := (SE bytes ParseError).

Definition take_bytes (n : nat) : Reader bytes := λ buf,
  if (length buf <? n)%nat then (Err (Truncated (Z.of_nat n) (Z.of_nat (length buf))), buf)
  else (Ok (take n buf), drop n buf).

(** [from_be_bytes]. *)
Definition be (s : bytes) : Z := foldl (λ acc b, acc * 256 + byte_Z b) 0 s.
Definition read_u8 : Reader byte :=
  s ← take_bytes 1; match s with b :: _ => mret b | [] => throw (Truncated 1 0) end.
Definition read_u16 : Reader Z := s ← take_bytes 2; mret (be s).
Definition read_u32 : Reader Z := s ← take_bytes 4; mret (be s).
Definition read_i32 : Reader Z :=
  s ← take_bytes 4; mret (let u := be s in if u <? 2 ^ 31 then u else u - 2 ^ 32).

(** The bytes before the first NUL and those after it. *)
Fixpoint split_nul (s : bytes) : option (bytes * bytes) :=
  match s with
  | [] => None
  | b :: s => if Byte.eqb b x00 then Some ([], s)
              else '(k, r) ← split_nul s; Some (b :: k, r)
  end.
Definition read_cstr : Reader bytes := λ buf,
  match split_nul buf with
  | None => (Err UnterminatedCString, buf)
  | Some (k, r) => match from_utf8 k with
                   | Some s => (Ok s, r)
                   | None => (Err NonUtf8, buf)
                   end
  end.

(** [for _ in 0..n { out.push(m?) }]. *)
Fixpoint repeatM {A} (n : nat) (m : Reader A) : Reader (list A) :=
  match n with
  | O => mret []
  | S n => a ← m; rest ← repeatM n m; mret (a :: rest)
  end.

Definition read_column_name : Reader bytes :=
  read_u8;; name ← read_cstr; read_u32;; read_i32;; mret name.

Definition read_column : Reader (option bytes) :=
  kind ← read_u8;
  if Byte.eqb kind "n" || Byte.eqb kind "u" then mret None
  else if Byte.eqb kind "t" then
    len ← read_i32;
    if len <? 0 then throw (NegativeLength len) else
    s ← take_bytes (Z.to_nat len);
    match from_utf8 s with Some s => mret (Some s) | None => throw NonUtf8 end
  else throw (UnsupportedColumnKind kind).

Definition parse_message : Reader Message :=
  tag ← read_u8;
  if Byte.eqb tag "B" then mret Begin
  else if Byte.eqb tag "C" then mret Commit
  else if Byte.eqb tag "R" then
    id ← read_u32;
    namespace ← read_cstr;
    name ← read_cstr;
    read_u8;;
    ncols ← read_u16;
    column_names ← repeatM (Z.to_nat ncols) read_column_name;
    mret (RelationMsg {| rel_id := id; rel_namespace := namespace; rel_name := name;
                         rel_column_names := column_names |})
  else if Byte.eqb tag "I" then
    id ← read_u32;
    tuple_kind ← read_u8;
    if negb (Byte.eqb tuple_kind "N") then throw (BadTupleKind tuple_kind) else
    ncols ← read_u16;
    columns ← repeatM (Z.to_nat ncols) read_column;
    mret (Insert id columns)
  else if Byte.eqb tag "Y" || Byte.eqb tag "O" || Byte.eqb tag "M" || Byte.eqb tag "T"
  then mret (Other tag)
  else throw (UnknownTag tag).

Definition parse (data : bytes) : Res ParseError Message := (parse_message data).1.

(** * The wire format *)
Fixpoint encode_be (n : nat) (z : Z) : bytes :=
  match n with
  | O => []
  | S n => encode_be n (z `div` 256) ++ [byte_of_Z z]
  end.
Definition encode_cstr (s : bytes) : bytes := s ++ [x00].
(** What the format carries about a column besides its name. *)
Record ColumnMeta := { cm_flags : byte; cm_type_oid : Z; cm_type_mod : Z }.
Definition encode_column_name (cm : bytes * ColumnMeta) : bytes :=
  [cm_flags cm.2] ++ encode_cstr cm.1 ++ encode_be 4 (cm_type_oid cm.2)
    ++ encode_be 4 (cm_type_mod cm.2).
Definition encode_relation (r : Relation) (identity : byte) (metas : list ColumnMeta) : bytes :=
  ["R"%byte] ++ encode_be 4 (rel_id r) ++ encode_cstr (rel_namespace r)
    ++ encode_cstr (rel_name r) ++ [identity]
    ++ encode_be 2 (Z.of_nat (length (rel_column_names r)))
    ++ (zip (rel_column_names r) metas ≫= encode_column_name).
Definition encode_column (c : option bytes) : bytes :=
  match c with
  | None => ["n"%byte]
  | Some s => ["t"%byte] ++ encode_be 4 (Z.of_nat (length s)) ++ s
  end.
Definition encode_insert (id : Z) (columns : list (option bytes)) : bytes :=
  ["I"%byte] ++ encode_be 4 id ++ ["N"%byte] ++ encode_be 2 (Z.of_nat (length columns))
    ++ (columns ≫= encode_column).

(** * Readers that read exactly an encoding

    [reads m e a]: on [e] followed by anything, [m] returns [a] and leaves the
    rest; on a proper prefix of [e] it fails. *)
Record reads {A} (m : Reader A) (e : bytes) (a : A) : Prop := {
  rd_ok rest : m (e ++ rest) = (Ok a, rest);
  rd_short p k : k ≠ [] → p ++ k = e → ∃ err s, m p = (Err err, s);
}.

Lemma reads_ret {A} (a : A) : reads (mret a) [] a.
Proof. split; [done|]. intros p k Hk [-> ->]%app_eq_nil. done. Qed.

Lemma reads_bind {A B} (m : Reader A) (f : A → Reader B) e1 e2 a b :
  reads m e1 a → reads (f a) e2 b → reads (m ≫= f) (e1 ++ e2) b.
Proof.
  intros [Hm Hms] [Hf Hfs]. unfold mbind, SE_bind. split.
  - intros rest. by rewrite <-app_assoc, Hm, Hf.
  - intros p k Hk Hp. apply app_eq_inv in Hp as [(l & -> & He2)|(l & He1 & ->)].
    + rewrite Hm. by eapply (Hfs l k).
    + destruct (decide (l = [])) as [->|Hl].
      * rewrite app_nil_r in He1. subst p. specialize (Hm []). rewrite app_nil_r in Hm.
        rewrite Hm. destruct e2 as [|x e2]; [done|]. by eapply (Hfs [] (x :: e2)).
      * destruct (Hms p l Hl (eq_sym He1)) as (err & s & ->). eauto.
Qed.

Lemma reads_bind_ret {A B} (m : Reader A) (f : A → Reader B) e a b :
  reads m e a → f a = mret b → reads (m ≫= f) e b.
Proof.
  intros Hm Hf. rewrite <-(app_nil_r e). eapply reads_bind; [exact Hm|].
  rewrite Hf. apply reads_ret.
Qed.

Lemma reads_map {A B} (m : Reader A) (g : A → B) e a :
  reads m e a → reads (x ← m; mret (g x)) e (g a).
Proof. intros Hm. by eapply reads_bind_ret. Qed.

Lemma reads_take s n : length s = n → reads (take_bytes n) s s.
Proof.
  intros <-. unfold take_bytes. split.
  - intros rest. rewrite length_app. destruct (Nat.ltb_spec (length s + length rest) (length s)); [lia|].
    by rewrite take_app_length, drop_app_length.
  - intros p k Hk <-. rewrite length_app. destruct k; [done|].
    destruct (Nat.ltb_spec (length p) (length p + length (b :: k))); [eauto|cbn in *; lia].
Qed.

Lemma reads_repeat {A X} (m : Reader A) (enc : X → bytes) (f : X → A) xs :
  (∀ x, x ∈ xs → reads m (enc x) (f x)) →
  reads (repeatM (length xs) m) (xs ≫= enc) (map f xs).
Proof.
  induction xs as [|x xs IH]; intros Hm; cbn [length repeatM map]; [apply reads_ret|].
  rewrite bind_cons. eapply reads_bind; [apply Hm; by left|].
  apply (reads_map _ (cons (f x))), IH. intros; apply Hm; by right.
Qed.

(** * The primitive readers *)
Lemma byte_Z_of_Z z : byte_Z (byte_of_Z z) = z `mod` 256.
Proof.
  unfold byte_Z, byte_of_Z. pose proof (Z.mod_pos_bound z 256).
  destruct (Byte.of_N _) as [b|] eqn:E.
  - apply Byte.to_of_N in E. rewrite E. lia.
  - apply Byte.of_N_None_iff in E. lia.
Qed.

Lemma length_encode_be n z : length (encode_be n z) = n.
Proof. revert z. induction n as [|n IH]; intros z; [done|]. cbn. rewrite length_app, IH. cbn. lia. Qed.

Lemma be_encode n z : 0 ≤ z < 256 ^ Z.of_nat n → be (encode_be n z) = z.
Proof.
  revert z. induction n as [|n IH]; intros z Hz.
  { cbn in *. lia. }
  cbn [encode_be]. unfold be in *. rewrite foldl_app. cbn [foldl].
  rewrite Nat2Z.inj_succ, Z.pow_succ_r in Hz by lia.
  rewrite IH, byte_Z_of_Z by (split; [apply Z.div_pos|apply Z.div_lt_upper_bound]; lia).
  pose proof (Z.div_mod z 256). lia.
Qed.

Lemma reads_u8 b : reads read_u8 [b] b.
Proof. by eapply reads_bind_ret; [apply reads_take|]. Qed.
Lemma reads_u16 z : 0 ≤ z < 65536 → reads read_u16 (encode_be 2 z) z.
Proof.
  intros Hz. rewrite <-(be_encode 2 z) at 2 by (cbn; lia).
  apply reads_map, reads_take, length_encode_be.
Qed.
Lemma reads_u32 z : 0 ≤ z < 2 ^ 32 → reads read_u32 (encode_be 4 z) z.
Proof.
  intros Hz. rewrite <-(be_encode 4 z) at 2 by (cbn; lia).
  apply reads_map, reads_take, length_encode_be.
Qed.
(** A four-byte field whose value is not used. *)
Lemma reads_skip4 z : ∃ y, reads read_i32 (encode_be 4 z) y.
Proof. eexists. apply reads_map, reads_take, length_encode_be. Qed.
Lemma reads_skip4u z : ∃ y, reads read_u32 (encode_be 4 z) y.
Proof. eexists. apply reads_map, reads_take, length_encode_be. Qed.
Lemma reads_i32 z : 0 ≤ z < 2 ^ 31 → reads read_i32 (encode_be 4 z) z.
Proof.
  intros Hz.
  assert ((let u := be (encode_be 4 z) in if u <? 2 ^ 31 then u else u - 2 ^ 32) = z) as Hval.
  { rewrite be_encode by (cbn; lia). cbn zeta. by rewrite (proj2 (Z.ltb_lt _ _)) by lia. }
  rewrite <-Hval at 2. apply (reads_map _ (λ s, let u := be s in if u <? 2 ^ 31 then u else u - 2 ^ 32)).
  apply reads_take, length_encode_be.
Qed.

Definition no_nul (s : bytes) : Prop := x00 ∉ s.
Definition utf8 (s : bytes) : Prop := from_utf8 s = Some s.
(** Text the server can put in a C string. *)
Definition name_ok (s : bytes) : Prop := utf8 s ∧ no_nul s.

Lemma split_nul_Some s rest : no_nul s → split_nul (s ++ x00 :: rest) = Some (s, rest).
Proof.
  unfold no_nul. induction s as [|b s IH]; intros Hn; [done|]. cbn.
  apply not_elem_of_cons in Hn as [Hb Hn]. rewrite IH by done.
  destruct (Byte.eqb b x00) eqn:E; [|done].
  apply Byte.byte_dec_bl in E. congruence.
Qed.
Lemma split_nul_None s : no_nul s → split_nul s = None.
Proof.
  unfold no_nul. induction s as [|b s IH]; intros Hn; [done|]. cbn.
  apply not_elem_of_cons in Hn as [Hb Hn]. rewrite IH by done.
  destruct (Byte.eqb b x00) eqn:E; [|done].
  apply Byte.byte_dec_bl in E. congruence.
Qed.

Lemma reads_cstr s : name_ok s → reads read_cstr (encode_cstr s) s.
Proof.
  intros [Hu Hn]. unfold read_cstr, encode_cstr. split.
  - intros rest. rewrite <-app_assoc. cbn. rewrite split_nul_Some by done. by rewrite Hu.
  - intros p k Hk Hp. rewrite split_nul_None; [eauto|].
    destruct k as [|x k _] using rev_ind; [done|]. rewrite app_assoc in Hp.
    apply app_inj_2 in Hp as [Hp _]; [|done]. unfold no_nul in *. set_solver.
Qed.

(** * Whole messages *)
Definition column_ok (c : option bytes) : Prop :=
  match c with Some s => utf8 s ∧ Z.of_nat (length s) < 2 ^ 31 | None => True end.

(** [reads] goes through a test on what was just read. *)
Lemma reads_eq {A} (m m' : Reader A) e a : (∀ s, m s = m' s) → reads m' e a → reads m e a.
Proof. intros Heq [Hok Hs]. split; intros; rewrite Heq; eauto. Qed.

Lemma reads_column c : column_ok c → reads read_column (encode_column c) c.
Proof.
  intros Hc. unfold read_column. destruct c as [s|]; cbn [encode_column].
  - destruct Hc as [Hu Hlen]. eapply reads_bind; [apply reads_u8|]. cbn -[encode_be read_i32].
    eapply reads_bind; [apply reads_i32; lia|].
    destruct (Z.ltb_spec (Z.of_nat (length s)) 0); [lia|].
    eapply reads_bind_ret; [apply reads_take; lia|]. by rewrite Hu.
  - by eapply reads_bind_ret; [apply reads_u8|].
Qed.

Lemma reads_column_name cm : name_ok cm.1 → reads read_column_name (encode_column_name cm) cm.1.
Proof.
  intros Hn. unfold read_column_name, encode_column_name.
  destruct (reads_skip4u (cm_type_oid cm.2)) as [y1 H1], (reads_skip4 (cm_type_mod cm.2)) as [y2 H2].
  eapply reads_bind; [apply reads_u8|]. eapply reads_bind; [by apply reads_cstr|].
  eapply reads_bind; [exact H1|]. by eapply reads_bind_ret; [exact H2|].
Qed.

Lemma reads_insert id columns :
  0 ≤ id < 2 ^ 32 → Z.of_nat (length columns) < 65536 → Forall column_ok columns →
  reads parse_message (encode_insert id columns) (Insert id columns).
Proof.
  intros Hid Hlen Hc. unfold parse_message, encode_insert.
  eapply reads_bind; [apply reads_u8|]. cbn [Byte.eqb].
  eapply reads_bind; [by apply reads_u32|]. eapply reads_bind; [apply reads_u8|].
  cbn -[encode_be read_u16].
  eapply reads_bind; [apply reads_u16; lia|]. rewrite Nat2Z.id.
  apply (reads_map _ (Insert id)). rewrite <-(map_id columns) at 3.
  apply reads_repeat. intros c Hin. apply reads_column. by eapply Forall_forall in Hc.
Qed.

Lemma zip_fst {A B} (l : list A) (k : list B) : length l = length k → map fst (zip l k) = l.
Proof.
  revert k. induction l as [|x l IH]; intros [|y k] Hlen; try done. cbn. f_equal. apply IH.
  by injection Hlen.
Qed.

Definition relation_ok (r : Relation) (metas : list ColumnMeta) : Prop :=
  0 ≤ rel_id r < 2 ^ 32 ∧ name_ok (rel_namespace r) ∧ name_ok (rel_name r) ∧
  Forall name_ok (rel_column_names r) ∧ Z.of_nat (length (rel_column_names r)) < 65536 ∧
  length (rel_column_names r) = length metas.

Lemma reads_relation r identity metas :
  relation_ok r metas →
  reads parse_message (encode_relation r identity metas) (RelationMsg r).
Proof.
  intros (Hid & Hns & Hn & Hcs & Hlen & Hmetas). unfold parse_message, encode_relation.
  eapply reads_bind; [apply reads_u8|]. cbn [Byte.eqb].
  eapply reads_bind; [by apply reads_u32|]. eapply reads_bind; [by apply reads_cstr|].
  eapply reads_bind; [by apply reads_cstr|]. eapply reads_bind; [apply reads_u8|].
  eapply reads_bind; [apply reads_u16; lia|].
  replace (Z.to_nat (Z.of_nat (length (rel_column_names r))))
    with (length (zip (rel_column_names r) metas)) by (rewrite length_zip; lia).
  replace (RelationMsg r) with (RelationMsg {| rel_id := rel_id r; rel_namespace := rel_namespace r;
    rel_name := rel_name r; rel_column_names := map fst (zip (rel_column_names r) metas) |})
    by (rewrite zip_fst by done; by destruct r).
  apply (reads_map _ (λ cs, RelationMsg {| rel_column_names := cs |})), reads_repeat.
  intros [c m] Hin. apply (reads_column_name (c, m)). eapply Forall_forall; [exact Hcs|].
  by apply elem_of_zip_l in Hin.
Qed.

Lemma reads_parse e m :
  reads parse_message e m →
  (∀ rest, parse (e ++ rest) = Ok m) ∧
  (∀ p k, k ≠ [] → p ++ k = e → ∃ err, parse p = Err err).
Proof.
  intros [Hok Hs]. unfold parse. split.
  - intros rest. by rewrite Hok.
  - intros p k Hk Hp. destruct (Hs p k Hk Hp) as (err & s & ->). eauto.
Qed.

(** C38: the parser inverts the wire format of Insert messages, whatever follows
    them in the buffer, and refuses every truncation of one. *)
Theorem parse_insert_roundtrip id columns :
  0 ≤ id < 2 ^ 32 → Z.of_nat (length columns) < 65536 → Forall column_ok columns →
  (∀ rest, parse (encode_insert id columns ++ rest) = Ok (Insert id columns)) ∧
  (∀ p k, k ≠ [] → p ++ k = encode_insert id columns → ∃ err, parse p = Err err).
Proof. intros. by apply reads_parse, reads_insert. Qed.

Lemma parse_insert_roundtrip_witness :
  parse (encode_insert 100 [Some (ascii "7"); None]) = Ok (Insert 100 [Some (ascii "7"); None]).
Proof.
  destruct (parse_insert_roundtrip 100 [Some (ascii "7"); None]) as [Hok _];
    [lia|cbn; lia|repeat constructor; vm_compute; reflexivity|].
  specialize (Hok []). by rewrite app_nil_r in Hok.
Defined.

(** The parser inverts the wire format of Relation messages (any replica
    identity, column flags and types), and refuses every truncation of one. *)
Theorem parse_relation_roundtrip r identity metas :
  relation_ok r metas →
  (∀ rest, parse (encode_relation r identity metas ++ rest) = Ok (RelationMsg r)) ∧
  (∀ p k, k ≠ [] → p ++ k = encode_relation r identity metas → ∃ err, parse p = Err err).
Proof. intros. by apply reads_parse, reads_relation. Qed.

Definition example_relation : Relation :=
  {| rel_id := 100; rel_namespace := ascii "public"; rel_name := ascii "trx_line";
     rel_column_names := [ascii "id"; ascii "pool_id"] |}.
Definition example_metas : list ColumnMeta :=
  [{| cm_flags := x00; cm_type_oid := 20; cm_type_mod := -1 |};
   {| cm_flags := x00; cm_type_oid := 20; cm_type_mod := -1 |}].
Lemma name_ok_dec s : from_utf8 s = Some s → forallb (λ b, negb (Byte.eqb b x00)) s = true → name_ok s.
Proof.
  intros Hu Hn. split; [done|]. unfold no_nul. clear Hu. induction s as [|b s IH]; [set_solver|].
  cbn in Hn. apply andb_prop in Hn as [Hb Hn]. apply not_elem_of_cons. split; [|by apply IH].
  intros <-. done.
Qed.

Lemma parse_relation_roundtrip_witness :
  parse (encode_relation example_relation "d" example_metas) = Ok (RelationMsg example_relation).
Proof.
  destruct (parse_relation_roundtrip example_relation "d" example_metas) as [Hok _].
  - unfold relation_ok. split_and!; try done; repeat constructor; try (by apply name_ok_dec); done.
  - specialize (Hok []). by rewrite app_nil_r in Hok.
Defined.
