(* ===== verification/Feed.v ===== *)
(** [ledger-feed/src/consumer.rs]: the feed consumer.  It peeks a batch of the
    logical slot, records the delivered [trx_line] inserts (recost floors,
    backlog counters, dirty marks) in one transaction and then moves the slot's
    cursor; [ledger_feed_reseed] (migration 0028) rebuilds the dirty set when a
    slot had to be created over existing events. *)
From Stdlib Require Import Strings.Byte.
From S2P Require Import Prelude Numeric Plan Snapshot Wac Strict Db BulkWrite Cte Submit Recalc.
From S2P Require Import PgOutput.

(** * Errors and reports *)
Inductive FeedError : Type :=
| FeedDb (e : PgError)
| FeedParse (e : ParseError)
| Protocol (what : string)
| SlotLost (reason : string).

Record TrxLineEvent := {
  ev_trx_line_id : Z;
  ev_pool_id : Z;
  ev_posted_at : bytes;
  ev_line_type : bytes;
}.
(** LSNs are integers: their text form only travels between server calls. *)
Record PeekBatch := {
  pb_messages : nat;
  pb_events : list TrxLineEvent;
  pb_last_lsn : option Z;
}.
Record IngestReport := {
  ir_messages : nat;
  ir_inserts : nat;
  ir_pools_marked : nat;
  ir_floors_lowered : nat;
  ir_pools_throttled : nat;
  ir_advanced_to : option Z;
}.

Abbreviation FeedM := (SE Db FeedError).
(** A statement or a block of statements in its own transaction. *)
Definition commits {A} (m : Tx A) : FeedM A := λ d,
  match transaction m d with
  | (Ok a, d') => (Ok a, d')
  | (Err e, d') => (Err (FeedDb e), d')
  end.

(** * Decoding one insert *)
(** [str::parse::<i64>]: an optional sign and at least one digit. *)
Definition digit (b : byte) : option Z :=
  let d := byte_Z b - 48 in if (0 <=? d) && (d <=? 9) then Some d else None.
Fixpoint digits (acc : Z) (s : bytes) : option Z :=
  match s with
  | [] => Some acc
  | b :: s => d ← digit b; digits (acc * 10 + d) s
  end.
Definition parse_i64 (s : bytes) : option Z :=
  match s with
  | [] => None
  | b :: s' =>
      let '(sign, body) :=
        if Byte.eqb b "-" then (-1, s') else if Byte.eqb b "+" then (1, s') else (1, s) in
      match body with
      | [] => None
      | _ => n ← digits 0 body; i64_try_from (sign * n)
      end
  end.

Fixpoint position (name : bytes) (names : list bytes) : option nat :=
  match names with
  | [] => None
  | n :: names => if bool_decide (n = name) then Some O else S <$> position name names
  end.
Definition column (rel : Relation) (columns : list (option bytes)) (name : string)
    : Res FeedError bytes :=
  idx ← ok_or (position (ascii name) (rel_column_names rel))
          (Protocol ("trx_line has no column " +:+ name));
  ok_or (mjoin (columns !! idx)) (Protocol ("trx_line." +:+ name +:+ " is null")).
Definition int_column (rel : Relation) (columns : list (option bytes)) (name : string)
    : Res FeedError Z :=
  s ← column rel columns name;
  ok_or (parse_i64 s) (Protocol ("trx_line." +:+ name +:+ " not an int")).
Definition decode_trx_line (rel : Relation) (columns : list (option bytes))
    : Res FeedError TrxLineEvent :=
  id ← int_column rel columns "id";
  pool_id ← int_column rel columns "pool_id";
  posted_at ← column rel columns "posted_at";
  line_type ← column rel columns "line_type";
  Ok {| ev_trx_line_id := id; ev_pool_id := pool_id; ev_posted_at := posted_at;
        ev_line_type := line_type |}.

(** * Peeking a batch *)
Record PeekState := {
  pk_relations : gmap Z Relation;
  pk_events : list TrxLineEvent;
  pk_last_lsn : option Z;
}.
Definition peek_row (st : PeekState) (row : Z * bytes) : Res FeedError PeekState :=
  match parse row.2 with
  | Err e => Err (FeedParse e)
  | Ok (RelationMsg rel) =>
      Ok {| pk_relations := <[rel_id rel := rel]> (pk_relations st);
            pk_events := pk_events st; pk_last_lsn := Some row.1 |}
  | Ok (Insert id columns) =>
      rel ← ok_or (pk_relations st !! id) (Protocol "insert for unknown relation");
      events ← (if bool_decide (rel_name rel = ascii "trx_line")
                then e ← decode_trx_line rel columns; Ok (pk_events st ++ [e])
                else Ok (pk_events st));
      Ok {| pk_relations := pk_relations st; pk_events := events; pk_last_lsn := Some row.1 |}
  | Ok Begin | Ok Commit | Ok (Other _) =>
      Ok {| pk_relations := pk_relations st; pk_events := pk_events st;
            pk_last_lsn := Some row.1 |}
  end.
Definition peek_rows (rows : list (Z * bytes)) : Res FeedError PeekBatch :=
  st ← foldM peek_row {| pk_relations := ∅; pk_events := []; pk_last_lsn := None |} rows;
  Ok {| pb_messages := length rows; pb_events := pk_events st; pb_last_lsn := pk_last_lsn st |}.

(** * Applying a batch *)
Definition physical_event (e : TrxLineEvent) : bool :=
  negb (bool_decide (ev_line_type e = ascii cost_adjustment_line)).

Definition min_key (k : Timestamp * Z) (o : option (Timestamp * Z)) : Timestamp * Z :=
  match o with Some k' => if bool_decide (key_lt k k') then k else k' | None => k end.
(** SELECT DISTINCT ON (pool_id) .. ORDER BY pool_id, posted_at, id. *)
Definition mins (keys : list (Z * (Timestamp * Z))) : gmap Z (Timestamp * Z) :=
  foldr (λ pk m, <[pk.1 := min_key pk.2 (m !! pk.1)]> m) ∅ keys.

(** The guards of the floor UPDATE. *)
Definition floor_moves (k : Timestamp * Z) (ps : PoolSettlementRow) : bool :=
  match pse_settled_through ps with
  | Some s =>
      bool_decide (key_lt k s) &&
      match pse_recost_floor ps with Some f => bool_decide (key_lt k f) | None => true end
  | None => false
  end.
(** The table after the UPDATE, and the pools it changes. *)
Definition floors_after (ms : gmap Z (Timestamp * Z)) (rows : gmap Z PoolSettlementRow)
    : gmap Z PoolSettlementRow :=
  map_imap (λ p ps, Some (match ms !! p with
                          | Some k => if floor_moves k ps then with_floor k ps else ps
                          | None => ps
                          end)) rows.
Definition floors_moved (ms : gmap Z (Timestamp * Z)) (rows : gmap Z PoolSettlementRow)
    : list (Z * (Timestamp * Z)) :=
  List.filter (λ pk, match rows !! pk.1 with
                     | Some ps => floor_moves pk.2 ps
                     | None => false
                     end) (map_to_list ms).
Definition lower_floors (ms : gmap Z (Timestamp * Z)) : Tx nat :=
  rows ← query db_pool_settlement;
  exec (set_pool_settlement (floors_after ms rows));;
  mret (length (floors_moved ms rows)).

(** The pools with physical events in the batch that are costed by the engine,
    ascending. *)
Definition counted_pools (events : list TrxLineEvent) (d : Db) : list Z :=
  List.filter (λ p, match cfg_pool (db_cfg d) !! p with
                    | Some r => is_strict (pool_method r)
                    | None => false
                    end) (btree_set (map ev_pool_id (List.filter physical_event events))).
Definition event_count (events : list TrxLineEvent) (p : Z) : Z :=
  Z.of_nat (length (List.filter (λ e, physical_event e && (ev_pool_id e =? p)) events)).
Definition bump_backlog (events : list TrxLineEvent) (p : Z) : Tx unit :=
  old ← query (λ d, db_backlog d !! p);
  n ← sql_expr (match old with
                | Some pending => to_bigint (pending + event_count events p)
                | None => Ok (event_count events p)
                end);
  exec (λ d, set_backlog (<[p := n]> (db_backlog d)) d).
(** The pools among the bumped ones that reached the bound and are not engaged. *)
Definition newly_engaged (bumped : list Z) (d : Db) : list Z :=
  List.filter (λ p, bool_decide (db_backpressure d !! p = None) &&
                    match db_backlog d !! p with
                    | Some n => cfg_bound_events (db_cfg d) <=? n
                    | None => false
                    end) bumped.
Definition engage_bounds (bumped : list Z) : Tx nat :=
  ps ← query (newly_engaged bumped);
  exec (λ d, set_backpressure
    (foldr (λ p m, <[p := default 0 (db_backlog d !! p)]> m) (db_backpressure d) ps) d);;
  mret (length ps).

Section feed.
Context (now : Timestamp).
(** The server's text-to-timestamptz conversion. *)
Context (timestamptz_in : bytes → option Timestamp).

Definition event_key (e : TrxLineEvent) : Tx (Z * (Timestamp * Z)) :=
  match timestamptz_in (ev_posted_at e) with
  | Some t => mret (ev_pool_id e, (t, ev_trx_line_id e))
  | None => sql_raise "22007" "invalid input syntax for type timestamp with time zone"
  end.

(** INSERT .. ON CONFLICT DO NOTHING of the distinct pools. *)
Definition unmarked (pools : list Z) (queue : gmap Z Timestamp) : list Z :=
  List.filter (λ p, bool_decide (queue !! p = None)) (remove_dups pools).
Definition mark_dirty (pools : list Z) : Tx nat :=
  queue ← query db_recalc_queue;
  exec (set_recalc_queue (foldr (λ p m, <[p := now]> m) queue (unmarked pools queue)));;
  mret (length (unmarked pools queue)).

(** [FeedConsumer::apply]: floors, then counters, then marks, in one transaction. *)
Definition apply_body (events : list TrxLineEvent) : Tx (nat * nat * nat) :=
  keys ← mapM event_key (List.filter physical_event events);
  floors_lowered ← lower_floors (mins keys);
  bumped ← query (counted_pools events);
  iterM (bump_backlog events) bumped;;
  pools_throttled ← engage_bounds bumped;
  pools_marked ← mark_dirty (map ev_pool_id events);
  mret (pools_marked, floors_lowered, pools_throttled).
Definition apply_events (events : list TrxLineEvent) : FeedM (nat * nat * nat) :=
  commits (apply_body events).

(** * The slot *)
Definition check_slot_usable : FeedM unit := λ d,
  match db_slot d with
  | None => (Err (SlotLost "slot absent"), d)
  | Some s =>
      match slot_invalidation_reason s with
      | Some reason => (Err (SlotLost reason), d)
      | None => if bool_decide (slot_wal_status s = "lost"%string)
                then (Err (SlotLost "wal_status=lost"), d) else (Ok tt, d)
      end
  end.

(** [pg_replication_slot_advance]: where the server moves a cursor asked to go
    to a target, given the current WAL position. *)
Context (slot_advance : Z → Z → Z → Z).
Definition with_cursor (lsn : Z) (s : SlotRow) : SlotRow :=
  {| slot_wal_status := slot_wal_status s; slot_invalidation_reason := slot_invalidation_reason s;
     slot_confirmed_flush_lsn := Some lsn |}.
Definition advance (target : Z) : FeedM (option Z) := λ d,
  match db_slot d with
  | Some s =>
      match slot_confirmed_flush_lsn s with
      | Some cursor =>
          if cursor <? target then
            let end_lsn := slot_advance (db_wal_lsn d) cursor target in
            (Ok (Some end_lsn), set_slot (Some (with_cursor end_lsn s)) d)
          else (Ok None, d)
      | None => (Ok None, d)
      end
  | None => (Ok None, d)
  end.

(** [pg_logical_slot_peek_binary_changes]: the rows the server returns for a
    limit, or an error. *)
Context (peek_changes : Db → Z → Res PgError (list (Z * bytes))).
Definition peek (limit : Z) : FeedM PeekBatch := λ d,
  match peek_changes d limit with
  | Err e => (Err (FeedDb e), d)
  | Ok rows => (peek_rows rows, d)
  end.

Definition ingest_once (limit : Z) : FeedM IngestReport :=
  check_slot_usable;;
  pre_lsn ← gets db_wal_lsn;
  batch ← peek limit;
  counts ← (match pb_events batch with
            | [] => mret (0%nat, 0%nat, 0%nat)
            | events => apply_events events
            end);
  let '(pools_marked, floors_lowered, pools_throttled) := counts in
  advanced_to ← advance (default pre_lsn (pb_last_lsn batch));
  mret {| ir_messages := pb_messages batch; ir_inserts := length (pb_events batch);
          ir_pools_marked := pools_marked; ir_floors_lowered := floors_lowered;
          ir_pools_throttled := pools_throttled; ir_advanced_to := advanced_to |}.

(** * Creating the slot, and recovery *)
Definition ensure_slot : FeedM bool := λ d,
  match db_slot d with
  | Some _ => (Ok false, d)
  | None => (Ok true, set_slot (Some {| slot_wal_status := "reserved";
                                        slot_invalidation_reason := None;
                                        slot_confirmed_flush_lsn := Some (db_wal_lsn d) |}) d)
  end.

(** The strict pools with physical activity, with their first physical line. *)
Definition reseed_scope (d : Db) : list (Z * (Timestamp * Z)) :=
  omap (λ pr, if is_strict (pool_method pr.2)
              then (λ il, (pr.1, line_key il)) <$> head (physical_lines pr.1 d) else None)
    (map_to_list (cfg_pool (db_cfg d))).
(** INSERT .. ON CONFLICT DO UPDATE of a floor: LEAST for the time, CASE for the id. *)
Definition reseed_floor (k : Timestamp * Z) (old : option PoolSettlementRow) : PoolSettlementRow :=
  match old with
  | None => {| pse_recalc_generation := 0; pse_settled_through := None; pse_recost_floor := Some k |}
  | Some ps =>
      let at_ := match pse_recost_floor ps with Some f => Z.min f.1 k.1 | None => k.1 end in
      let id := match pse_recost_floor ps with
                | None => k.2
                | Some f => if bool_decide (key_lt k f) then k.2 else f.2
                end in
      with_floor (at_, id) ps
  end.
Definition ledger_feed_reseed : Tx Z :=
  scope ← query reseed_scope;
  exec (λ d, set_pool_settlement
    (foldr (λ pk m, <[pk.1 := reseed_floor pk.2 (m !! pk.1)]> m) (db_pool_settlement d) scope) d);;
  mark_dirty (map fst scope);;
  mret (Z.of_nat (length scope)).

Definition ensure_slot_with_recovery : FeedM (bool * option Z) :=
  created ← ensure_slot;
  if negb created then mret (false, None) else
  has_history ← gets (λ d, bool_decide (map_Exists (λ _ l, is_physical l = true) (db_trx_line d)));
  if negb has_history then mret (true, None) else
  pools ← commits ledger_feed_reseed;
  mret (true, Some pools).

End feed.
