(* ===== verification/Frame.v ===== *)
(** What a transaction may change: a small calculus of relations between the
    database before and after a run, whatever its outcome, and the relation
    every operation of the ledger satisfies ([grows]: history is only appended
    to, never below the closed periods). *)
From S2P Require Import Prelude Numeric Plan Snapshot Wac Db.

(** * Relations kept by every step of a run *)
Definition step_ok {E A} (R : relation Db) (m : SE Db E A) : Prop :=
  ∀ d r d', m d = (r, d') → R d d'.

Section calculus.
Context (R : relation Db) `{!PreOrder R}.

Lemma step_ok_ret {E A} (a : A) : step_ok R (mret a : SE Db E A).
Proof. intros d r d' [= _ <-]. reflexivity. Qed.
Lemma step_ok_throw {E A} (e : E) : step_ok R (throw e : SE Db E A).
Proof. intros d r d' [= _ <-]. reflexivity. Qed.
Lemma step_ok_gets {E A} (f : Db → A) : step_ok R (gets f : SE Db E A).
Proof. intros d r d' [= _ <-]. reflexivity. Qed.
Lemma step_ok_query {A} (f : Db → A) : step_ok R (query f).
Proof. intros d r d' [= _ <-]. reflexivity. Qed.
Lemma step_ok_exec f : (∀ d, R d (f d)) → step_ok R (exec f).
Proof. intros Hf d r d' [= _ <-]. apply Hf. Qed.
Lemma step_ok_sql_expr {A} (x : Res string A) : step_ok R (sql_expr x).
Proof. destruct x; [apply step_ok_ret|apply step_ok_throw]. Qed.
Lemma step_ok_bind {E A B} (m : SE Db E A) (f : A → SE Db E B) :
  step_ok R m → (∀ a, step_ok R (f a)) → step_ok R (m ≫= f).
Proof.
  intros Hm Hf d r d'. unfold mbind, SE_bind.
  destruct (m d) as [[a|e] d1] eqn:Em; [|intros [= _ <-]; by eapply Hm].
  intros Hrun. transitivity d1; [by eapply Hm|by eapply Hf].
Qed.
Lemma step_ok_iterM {A} (f : A → Tx unit) l :
  (∀ a, step_ok R (f a)) → step_ok R (iterM f l).
Proof. intros Hf. induction l; cbn; [apply step_ok_ret|by apply step_ok_bind]. Qed.
Lemma step_ok_mapM {A B} (f : A → Tx B) l :
  (∀ a, step_ok R (f a)) → step_ok R (mapM f l).
Proof.
  intros Hf. induction l; cbn; [apply step_ok_ret|].
  apply step_ok_bind; [done|intros]. apply step_ok_bind; [done|intros]. apply step_ok_ret.
Qed.
End calculus.

Create HintDb frame discriminated.
Ltac frame_step :=
  match goal with
  | |- step_ok _ (mret _) => apply step_ok_ret; apply _
  | |- step_ok _ (throw _) => apply step_ok_throw; apply _
  | |- step_ok _ (bail _ _) => apply step_ok_throw; apply _
  | |- step_ok _ (sql_raise _ _) => apply step_ok_throw; apply _
  | |- step_ok _ (raise_ledger_error _) => apply step_ok_throw; apply _
  | |- step_ok _ (query _) => apply step_ok_query; apply _
  | |- step_ok _ (gets _) => apply step_ok_gets; apply _
  | |- step_ok _ (sql_expr _) => apply step_ok_sql_expr; apply _
  | |- step_ok _ (exec _) => solve [eauto with frame | apply step_ok_exec; eauto with frame]
  | |- step_ok _ (iterM _ _) => apply step_ok_iterM; [apply _|intros ?]
  | |- step_ok _ (mapM _ _) => apply step_ok_mapM; [apply _|intros ?]
  | |- step_ok _ (_ ≫= _) => apply step_ok_bind; [apply _| |intros ?]
  | |- step_ok _ (if ?b then _ else _) => destruct b
  | |- step_ok _ (match ?x with _ => _ end) => destruct x
  | |- step_ok _ _ => solve [eauto with frame]
  end.
Ltac frame := repeat frame_step.

(** A transaction as a whole satisfies what its steps do, when an abort does. *)
Lemma transaction_step {A} (R : relation Db) (m : Tx A) d r d' :
  (∀ d d', R d d' → R d (rollback d d')) →
  step_ok R m → transaction m d = (r, d') → R d d'.
Proof.
  intros Hroll Hm. unfold transaction. destruct (m d) as [[a|e] d1] eqn:E; intros [= _ <-].
  - by eapply Hm.
  - eapply Hroll, Hm, E.
Qed.

(** * Closed periods *)
Lemma closed_frontier_spec ps :
  match closed_frontier ps with
  | None => ∀ i p, ps !! i = Some p → is_closed p = false
  | Some e => (∃ i p, ps !! i = Some p ∧ is_closed p = true ∧ per_end_date p = e) ∧
              (∀ i p, ps !! i = Some p → is_closed p = true → per_end_date p ≤ e)
  end.
Proof.
  unfold closed_frontier. apply (map_fold_weak_ind (λ (r : option Z) (m : gmap Z PeriodRow),
    match r with
    | None => ∀ i p, m !! i = Some p → is_closed p = false
    | Some e => (∃ i p, m !! i = Some p ∧ is_closed p = true ∧ per_end_date p = e) ∧
                (∀ i p, m !! i = Some p → is_closed p = true → per_end_date p ≤ e)
    end)); [done|].
  intros i x m r Hi IH. destruct (is_closed x) eqn:Hx.
  - destruct r as [e|].
    + destruct IH as [(j & p & Hj & Hp & He) Hmax]. split.
      * destruct (Z.le_gt_cases e (per_end_date x)).
        -- exists i, x. rewrite lookup_insert_eq. split_and!; [done..|lia].
        -- exists j, p. rewrite lookup_insert_ne by congruence. split_and!; [done..|lia].
      * intros k p' [(-> & ->)|(? & ?)]%lookup_insert_Some Hc; [lia|].
        specialize (Hmax _ _ H0 Hc). lia.
    + split.
      * exists i, x. by rewrite lookup_insert_eq.
      * intros k p' [(-> & ->)|(? & Hk)]%lookup_insert_Some Hc; [lia|].
        apply IH in Hk. congruence.
  - destruct r as [e|].
    + destruct IH as [(j & p & Hj & Hp & He) Hmax]. split.
      * exists j, p. rewrite lookup_insert_ne by congruence. done.
      * intros k p' [(-> & ->)|(? & ?)]%lookup_insert_Some Hc; [congruence|eauto].
    + intros k p' [(-> & ->)|(? & ?)]%lookup_insert_Some; eauto.
Qed.

Lemma below_frontier_iff ps t :
  below_frontier ps t = true ↔
  ∃ i p, ps !! i = Some p ∧ is_closed p = true ∧ t < day_start (per_end_date p + 1).
Proof.
  unfold below_frontier. pose proof (closed_frontier_spec ps) as Hs.
  destruct (closed_frontier ps) as [e|].
  - rewrite Z.ltb_lt. destruct Hs as [(i & p & Hi & Hp & <-) Hmax]. split; [eauto 6|].
    intros (j & q & Hj & Hq & Ht). specialize (Hmax _ _ Hj Hq). unfold day_start in *. lia.
  - split; [done|]. intros (j & q & Hj & Hq & Ht). apply Hs in Hj. congruence.
Qed.

Lemma covering_closed_below ps t i : covering_closed ps t = Some i → below_frontier ps t = true.
Proof.
  unfold covering_closed. intros Hh. apply head_Some_elem_of in Hh.
  rewrite merge_sort_Permutation in Hh. apply list_elem_of_fmap in Hh as ([j p] & _ & Hin).
  apply list_elem_of_In, List.filter_In in Hin as [Hin Hp].
  apply list_elem_of_In, elem_of_map_to_list in Hin. cbn in *.
  apply andb_true_iff in Hp as [Hp [_ Hc]%bool_decide_eq_true].
  apply below_frontier_iff. eauto.
Qed.

(** The two arms of the guards amount to the frontier. *)
Lemma period_frozen_frontier ps t : period_frozen ps t = below_frontier ps t.
Proof.
  unfold period_frozen. destruct (covering_closed ps t) eqn:E; [|done].
  symmetry. by eapply covering_closed_below.
Qed.

(** Period rows stay, and closed rows do not change. *)
Definition closes (ps ps' : gmap Z PeriodRow) : Prop :=
  ∀ i p, ps !! i = Some p →
    ∃ p', ps' !! i = Some p' ∧ per_start_date p' = per_start_date p ∧
          per_end_date p' = per_end_date p ∧ (is_closed p = true → p' = p).
#[global] Instance closes_preorder : PreOrder closes.
Proof.
  split; [intros ps i p Hi; eauto|]. intros ps1 ps2 ps3 H12 H23 i p Hi.
  destruct (H12 _ _ Hi) as (p' & Hp' & Hs & He & Hc).
  destruct (H23 _ _ Hp') as (p'' & Hp'' & Hs' & He' & Hc').
  exists p''. split_and!; [done|congruence..|]. intros Hcl.
  pose proof (Hc Hcl). subst p'. by apply Hc'.
Qed.

Lemma closes_frozen ps ps' t :
  closes ps ps' → period_frozen ps t = true → period_frozen ps' t = true.
Proof.
  rewrite !period_frozen_frontier, !below_frontier_iff. intros Hc (i & p & Hi & Hp & Ht).
  destruct (Hc _ _ Hi) as (p' & Hi' & _ & He & Heq). specialize (Heq Hp) as ->. eauto.
Qed.

(** * Append-only history *)
(** Identity columns are ahead of every id in use. *)
Record fresh (d : Db) : Prop := {
  fr_trx i : is_Some (db_trx d !! i) → i < next_trx (db_seqs d);
  fr_line i : is_Some (db_trx_line d !! i) → i < next_trx_line (db_seqs d);
  fr_posting i : is_Some (db_posting d !! i) → i < next_posting (db_seqs d);
}.
Record seq_le (q q' : Seqs) : Prop := {
  sq_trx : next_trx q ≤ next_trx q';
  sq_line : next_trx_line q ≤ next_trx_line q';
  sq_posting : next_posting q ≤ next_posting q';
}.
(** Nothing recorded is lost, and nothing new is recorded at a closed time: no
    physical line, and no settlement of a line that was there before. *)
Record appended (d d' : Db) : Prop := {
  ap_trx : db_trx d ⊆ db_trx d';
  ap_line : db_trx_line d ⊆ db_trx_line d';
  ap_posting : db_posting d ⊆ db_posting d';
  ap_consumption : db_consumption d ⊆ db_consumption d';
  ap_settlement : db_cost_settlement d ⊆ db_cost_settlement d';
  ap_new_line i l :
    db_trx_line d' !! i = Some l → db_trx_line d !! i = None → is_physical l = true →
    period_frozen (db_period d) (tl_posted_at l) = false;
  ap_new_settlement i g r l :
    db_trx_line d !! i = Some l → db_cost_settlement d' !! (i, g) = Some r →
    db_cost_settlement d !! (i, g) = None → period_frozen (db_period d) (tl_posted_at l) = false;
}.
Record grows (d d' : Db) : Prop := {
  gw_cfg : db_cfg d' = db_cfg d;
  gw_seqs : seq_le (db_seqs d) (db_seqs d');
  gw_periods : closes (db_period d) (db_period d');
  gw_appended : fresh d → fresh d' ∧ appended d d';
}.

#[global] Instance seq_le_preorder : PreOrder seq_le.
Proof. split; [by split|]. intros ??? [] []. split; lia. Qed.
Lemma appended_refl d : appended d d.
Proof. split; intros; first [done | congruence]. Qed.
Lemma not_frozen_before ps ps' t :
  closes ps ps' → period_frozen ps' t = false → period_frozen ps t = false.
Proof.
  intros Hc Hf. destruct (period_frozen ps t) eqn:E; [|done].
  eapply closes_frozen in E; [|done]. congruence.
Qed.
Lemma appended_trans d1 d2 d3 :
  closes (db_period d1) (db_period d2) →
  appended d1 d2 → appended d2 d3 → appended d1 d3.
Proof.
  intros Hc [] []. split; try (by etrans).
  - intros i l H3 H1 Hp. destruct (db_trx_line d2 !! i) as [l'|] eqn:E2.
    + assert (l' = l) as -> by (eapply lookup_weaken in E2; [|done]; congruence). eauto.
    + eapply not_frozen_before; [done|]. eauto.
  - intros i g r l Hl H3 H1. destruct (db_cost_settlement d2 !! (i, g)) as [r'|] eqn:E2; [eauto|].
    eapply not_frozen_before; [done|]. eapply lookup_weaken in Hl; [|done]. eauto.
Qed.
#[global] Instance grows_preorder : PreOrder grows.
Proof.
  split.
  - intros d. split; try done. intros Hf. split; [done|apply appended_refl].
  - intros d1 d2 d3 [Hc1 Hs1 Hp1 Ha1] [Hc2 Hs2 Hp2 Ha2]. split; [congruence|by etrans..|].
    intros Hf. destruct (Ha1 Hf) as [Hf2 ?], (Ha2 Hf2) as [Hf3 ?].
    split; [done|]. by eapply appended_trans.
Qed.

Lemma fresh_set_seqs q d : seq_le (db_seqs d) q → fresh d → fresh (set_seqs q d).
Proof.
  intros [H1 H2 H3] [F1 F2 F3]. split; cbn; intros i Hi.
  - apply F1 in Hi. lia.
  - apply F2 in Hi. lia.
  - apply F3 in Hi. lia.
Qed.
Lemma grows_set_seqs q d : seq_le (db_seqs d) q → grows d (set_seqs q d).
Proof.
  intros Hq. split; cbn; [done..|]. intros Hf. split; [by apply fresh_set_seqs|].
  split; cbn; intros; first [done | congruence].
Qed.
Lemma grows_rollback d d' : grows d d' → grows d (rollback d d').
Proof. intros [_ Hq _ _]. by apply grows_set_seqs. Qed.

(** Tables outside the append-only history. *)
Section frame_tables.
Context (d : Db).
Local Ltac table := split; cbn; try done; intros [F1 F2 F3]; split; [by split|];
  split; cbn; intros; first [done | congruence].
Lemma grows_pool_state x : grows d (set_pool_state x d). Proof. table. Qed.
Lemma grows_pool_settlement x : grows d (set_pool_settlement x d). Proof. table. Qed.
Lemma grows_recalc_queue x : grows d (set_recalc_queue x d). Proof. table. Qed.
Lemma grows_escalation x : grows d (set_escalation x d). Proof. table. Qed.
Lemma grows_backlog x : grows d (set_backlog x d). Proof. table. Qed.
Lemma grows_backpressure x : grows d (set_backpressure x d). Proof. table. Qed.
Lemma grows_inbox x : grows d (set_inbox x d). Proof. table. Qed.
Lemma grows_slot x : grows d (set_slot x d). Proof. table. Qed.
Lemma grows_period x : closes (db_period d) x → grows d (set_period x d).
Proof. intros. table. Qed.
End frame_tables.
Lemma grows_if (b : bool) d d1 d2 : grows d d1 → grows d d2 → grows d (if b then d1 else d2).
Proof. by destruct b. Qed.
Lemma grows_refl d : grows d d. Proof. reflexivity. Qed.
#[export] Hint Resolve grows_pool_state grows_pool_settlement grows_recalc_queue grows_escalation
  grows_backlog grows_backpressure grows_inbox grows_slot grows_if grows_refl : frame.

(** * The guarded inserts *)
Lemma seq_le_trx q : seq_le q (with_next_trx q). Proof. split; cbn; lia. Qed.
Lemma seq_le_line q : seq_le q (with_next_trx_line q). Proof. split; cbn; lia. Qed.
Lemma seq_le_posting q : seq_le q (with_next_posting q). Proof. split; cbn; lia. Qed.
Lemma seq_le_adjustment q : seq_le q (with_next_cost_adjustment q). Proof. split; cbn; lia. Qed.
Lemma step_ok_nextval read bump : (∀ q, seq_le q (bump q)) → step_ok grows (nextval read bump).
Proof.
  intros Hb d r d' [= _ <-]. apply grows_set_seqs, Hb.
Qed.

(** A row appended at the next id of its table. *)
Lemma fresh_None {A} (m : gmap Z A) n : (∀ i, is_Some (m !! i) → i < n) → m !! n = None.
Proof. intros Hf. destruct (m !! n) eqn:E; [|done]. assert (n < n) by (apply Hf; eauto). lia. Qed.
Lemma fresh_insert {A} (m : gmap Z A) n a :
  (∀ i, is_Some (m !! i) → i < n) → ∀ i, is_Some (<[n := a]> m !! i) → i < n + 1.
Proof.
  intros Hf i [x [(<- & _)|(_ & Hi)]%lookup_insert_Some]; [lia|].
  assert (i < n) by (apply Hf; eauto). lia.
Qed.

Lemma grows_add_trx r d :
  grows d (set_trx (<[next_trx (db_seqs d) := r]> (db_trx d))
             (set_seqs (with_next_trx (db_seqs d)) d)).
Proof.
  split; cbn; [done|apply seq_le_trx|done|]. intros [F1 F2 F3]. split.
  - split; cbn; [by apply fresh_insert|done..].
  - split; cbn; try done; try congruence. by apply insert_subseteq, fresh_None.
Qed.
Lemma grows_add_posting r d :
  grows d (set_posting (<[next_posting (db_seqs d) := r]> (db_posting d))
             (set_seqs (with_next_posting (db_seqs d)) d)).
Proof.
  split; cbn; [done|apply seq_le_posting|done|]. intros [F1 F2 F3]. split.
  - split; cbn; [done|done|by apply fresh_insert].
  - split; cbn; try done; try congruence. by apply insert_subseteq, fresh_None.
Qed.
Lemma grows_add_line l d :
  (is_physical l = true → period_frozen (db_period d) (tl_posted_at l) = false) →
  grows d (set_trx_line (<[next_trx_line (db_seqs d) := l]> (db_trx_line d))
             (set_seqs (with_next_trx_line (db_seqs d)) d)).
Proof.
  intros Hl. split; cbn; [done|apply seq_le_line|done|]. intros [F1 F2 F3]. split.
  - split; cbn; [done|by apply fresh_insert|done].
  - split; cbn; try done; try congruence; [by apply insert_subseteq, fresh_None|].
    intros i l' [(<- & <-)|(_ & Hi)]%lookup_insert_Some Hn Hp; [auto|congruence].
Qed.

Lemma step_ok_insert_trx_row r : step_ok grows (insert_trx_row r).
Proof.
  intros d res d'. unfold insert_trx_row. destruct (bool_decide _); [|by intros [= _ <-]].
  unfold mbind, SE_bind. rewrite nextval_run. cbn. destruct (negb _); cbn; intros [= _ <-].
  - apply grows_add_trx.
  - apply grows_set_seqs, seq_le_trx.
Qed.
Lemma step_ok_insert_posting_row r : step_ok grows (insert_posting_row r).
Proof. intros d res d' [= _ <-]. apply grows_add_posting. Qed.
Lemma step_ok_insert_trx_line_row l : step_ok grows (insert_trx_line_row l).
Proof.
  intros d res d'. unfold insert_trx_line_row, period_guard_trx_line.
  unfold mbind, SE_bind. rewrite nextval_run. cbn.
  assert (grows d (set_seqs (with_next_trx_line (db_seqs d)) d)) as Hseq
    by apply grows_set_seqs, seq_le_line.
  destruct (bool_decide (tl_line_type l = cost_adjustment_line)) eqn:Hadj; cbn.
  - rewrite orb_true_r. destruct (0 <=? tl_unit_cost l); cbn; intros [= _ <-]; [|done].
    apply grows_add_line. unfold is_physical. by rewrite Hadj.
  - destruct (period_frozen _ _) eqn:Hf; cbn; [by intros [= _ <-]|].
    destruct (_ || false); cbn; [|by intros [= _ <-]].
    destruct (0 <=? tl_unit_cost l); cbn; intros [= _ <-]; [|done]. by apply grows_add_line.
Qed.

Lemma grows_add_consumption k v d :
  db_consumption d !! k = None → grows d (set_consumption (<[k := v]> (db_consumption d)) d).
Proof.
  intros Hk. split; cbn; try done. intros [F1 F2 F3]. split; [by split|].
  split; cbn; intros; first [done | congruence | by apply insert_subseteq].
Qed.
Lemma step_ok_insert_consumption i l g q u : step_ok grows (insert_consumption i l g q u).
Proof.
  intros d res d'. unfold insert_consumption.
  destruct (0 <? q); [|by intros [= _ <-]]. destruct (0 <=? u); [|by intros [= _ <-]].
  cbn. unfold mbind, SE_bind. cbn. destruct (bool_decide _) eqn:E; cbn; intros [= _ <-]; [|done].
  apply bool_decide_eq_true in E. by apply grows_add_consumption.
Qed.

Lemma grows_add_settlement i g r d :
  db_cost_settlement d !! (i, g) = None →
  (∀ l, db_trx_line d !! i = Some l → period_frozen (db_period d) (tl_posted_at l) = false) →
  grows d (set_cost_settlement (<[(i, g) := r]> (db_cost_settlement d)) d).
Proof.
  intros Hk Hl. split; cbn; try done. intros [F1 F2 F3]. split; [by split|].
  split; cbn; try done; try congruence; [by apply insert_subseteq|].
  intros i' g' r' l' Hl' [([= <- <-] & _)|(_ & Hi)]%lookup_insert_Some Hn; [by apply Hl|congruence].
Qed.
Lemma step_ok_insert_cost_settlement i g r : step_ok grows (insert_cost_settlement i g r).
Proof.
  intros d res d'. unfold insert_cost_settlement, period_guard_cost_settlement.
  unfold mbind, SE_bind, query, gets. cbn. destruct (db_trx_line d !! i) as [l|] eqn:Hl; cbn.
  - destruct (period_frozen _ _) eqn:Hf; cbn; [by intros [= _ <-]|].
    destruct (bool_decide _) eqn:E; cbn; intros [= _ <-]; [|done].
    apply grows_add_settlement; [by apply bool_decide_eq_true in E|naive_solver].
  - destruct (bool_decide _) eqn:E; cbn; intros [= _ <-]; [|done].
    apply grows_add_settlement; [by apply bool_decide_eq_true in E|naive_solver].
Qed.
#[export] Hint Resolve step_ok_nextval seq_le_trx seq_le_line seq_le_posting seq_le_adjustment
  step_ok_insert_trx_row step_ok_insert_posting_row step_ok_insert_trx_line_row
  step_ok_insert_consumption step_ok_insert_cost_settlement : frame.

(** * Footprints

    What a relation must allow for the submission path, for the writes of a
    costing generation, and for the recalc engine as a whole, to satisfy it.  The operations are proved once against these
    interfaces (file Footprint); an instance says which property is kept. *)
Class BaseFrame (R : relation Db) : Prop := {
  #[global] bf_preorder :: PreOrder R;
  bf_seqs q d : seq_le (db_seqs d) q → R d (set_seqs q d);
  bf_trx r : step_ok R (insert_trx_row r);
  bf_posting r : step_ok R (insert_posting_row r);
  bf_pool_state x d : R d (set_pool_state x d);
}.
Class SubmitFrame (R : relation Db) : Prop := {
  #[global] sf_base :: BaseFrame R;
  sf_line l : step_ok R (insert_trx_line_row l);
}.
Class GenerationFrame (R : relation Db) : Prop := {
  #[global] nf_base :: BaseFrame R;
  nf_adjustment l : tl_line_type l = cost_adjustment_line → step_ok R (insert_trx_line_row l);
  nf_consumption i l g q u : step_ok R (insert_consumption i l g q u);
  nf_settlement i g r : step_ok R (insert_cost_settlement i g r);
}.
Class EngineFrame (R : relation Db) : Prop := {
  #[global] ef_generation :: GenerationFrame R;
  ef_pool_settlement x d : R d (set_pool_settlement x d);
  ef_queue x d : R d (set_recalc_queue x d);
  ef_escalation x d : R d (set_escalation x d);
  ef_backlog x d : R d (set_backlog x d);
  ef_backpressure x d : R d (set_backpressure x d);
}.
Lemma bf_nextval R `{!BaseFrame R} read bump :
  (∀ q, seq_le q (bump q)) → step_ok R (nextval read bump).
Proof. intros Hb d r d' [= _ <-]. by apply bf_seqs. Qed.
#[export] Hint Resolve bf_trx bf_posting bf_nextval sf_line nf_adjustment nf_consumption
  nf_settlement seq_le_trx seq_le_line seq_le_posting seq_le_adjustment : frame.
#[export] Hint Extern 1 (BaseFrame _) => apply _ : frame.
#[export] Hint Extern 1 (SubmitFrame _) => apply _ : frame.
#[export] Hint Extern 1 (GenerationFrame _) => apply _ : frame.
#[export] Hint Extern 1 (EngineFrame _) => apply _ : frame.
(** A write to a table the relation allows. *)
Ltac frame_write :=
  lazymatch goal with
  | |- _ ?d ?d => reflexivity
  | |- _ _ (if ?b then _ else _) => destruct b; frame_write
  | |- _ _ (set_pool_state _ _) => apply bf_pool_state
  | |- _ _ (set_pool_settlement _ _) => apply ef_pool_settlement
  | |- _ _ (set_recalc_queue _ _) => apply ef_queue
  | |- _ _ (set_escalation _ _) => apply ef_escalation
  | |- _ _ (set_backlog _ _) => apply ef_backlog
  | |- _ _ (set_backpressure _ _) => apply ef_backpressure
  end.
#[export] Hint Extern 2 (step_ok _ (exec _)) =>
  apply step_ok_exec; intros; frame_write : frame.

#[global] Instance grows_base : BaseFrame grows.
Proof. split; [apply _|apply grows_set_seqs|eauto with frame..]. Qed.
#[global] Instance grows_submit : SubmitFrame grows.
Proof. split; [apply _|eauto with frame]. Qed.
#[global] Instance grows_generation : GenerationFrame grows.
Proof. split; [apply _|eauto with frame..]. Qed.
#[global] Instance grows_engine : EngineFrame grows.
Proof. split; [apply _|eauto with frame..]. Qed.

(** A table no guarded insert writes is kept by all of them. *)
Section projection.
Context {X : Type} (f : Db → X).
Context (f_trx : ∀ x d, f (set_trx x d) = f d) (f_line : ∀ x d, f (set_trx_line x d) = f d)
  (f_posting : ∀ x d, f (set_posting x d) = f d) (f_seqs : ∀ x d, f (set_seqs x d) = f d).
Definition keeps_proj (d d' : Db) : Prop := f d' = f d.
#[global] Instance keeps_proj_preorder : PreOrder keeps_proj.
Proof using. split; [done|]. intros ??? H1 H2. unfold keeps_proj in *. congruence. Qed.
Lemma keeps_proj_nextval read bump : step_ok keeps_proj (nextval read bump).
Proof using f_seqs. intros d r d' [= _ <-]. apply f_seqs. Qed.
Lemma keeps_proj_trx r : step_ok keeps_proj (insert_trx_row r).
Proof using f_trx f_seqs.
  unfold insert_trx_row. frame_step; [|frame]. apply step_ok_bind; [apply _|apply keeps_proj_nextval|].
  intros id. frame; apply step_ok_exec; intros; apply f_trx.
Qed.
Lemma keeps_proj_posting r : step_ok keeps_proj (insert_posting_row r).
Proof using f_posting f_seqs.
  unfold insert_posting_row. apply step_ok_bind; [apply _|apply keeps_proj_nextval|].
  intros id. frame; apply step_ok_exec; intros; apply f_posting.
Qed.
Lemma keeps_proj_line l : step_ok keeps_proj (insert_trx_line_row l).
Proof using f_line f_seqs.
  unfold insert_trx_line_row, period_guard_trx_line.
  apply step_ok_bind; [apply _|apply keeps_proj_nextval|].
  intros id. frame; apply step_ok_exec; intros; apply f_line.
Qed.
Lemma keeps_proj_base : (∀ x d, f (set_pool_state x d) = f d) → BaseFrame keeps_proj.
Proof using f_trx f_posting f_seqs.
  intros Hs. split; [apply _|intros; apply f_seqs|apply keeps_proj_trx|apply keeps_proj_posting|].
  intros; apply Hs.
Qed.
Lemma keeps_proj_submit : (∀ x d, f (set_pool_state x d) = f d) → SubmitFrame keeps_proj.
Proof using f_trx f_line f_posting f_seqs.
  intros Hs. split; [by apply keeps_proj_base|apply keeps_proj_line].
Qed.
Lemma keeps_proj_generation :
  (∀ x d, f (set_pool_state x d) = f d) → (∀ x d, f (set_consumption x d) = f d) →
  (∀ x d, f (set_cost_settlement x d) = f d) → GenerationFrame keeps_proj.
Proof using f_trx f_line f_posting f_seqs.
  intros Hs Hc Hst. split; [by apply keeps_proj_base|intros; apply keeps_proj_line| |].
  - intros. unfold insert_consumption. frame; apply step_ok_exec; intros; apply Hc.
  - intros. unfold insert_cost_settlement, period_guard_cost_settlement.
    frame; apply step_ok_exec; intros; apply Hst.
Qed.
End projection.

(** The periods and the reference data stay. *)
Definition same_periods : relation Db := keeps_proj (λ d, (db_period d, db_cfg d)).
(** The recalc work list stays: settlement rows, queue. *)
Definition same_dirty : relation Db :=
  keeps_proj (λ d, (db_pool_settlement d, db_recalc_queue d)).

#[global] Instance same_periods_submit : SubmitFrame same_periods.
Proof. by apply keeps_proj_submit. Qed.
#[global] Instance same_periods_engine : EngineFrame same_periods.
Proof. split; [by apply keeps_proj_generation|done..]. Qed.
#[global] Instance same_dirty_submit : SubmitFrame same_dirty.
Proof. by apply keeps_proj_submit. Qed.
#[global] Instance same_dirty_generation : GenerationFrame same_dirty.
Proof. by apply keeps_proj_generation. Qed.

(** * Concrete databases *)
Lemma fresh_by_computation d :
  map_Forall (λ i _, i < next_trx (db_seqs d)) (db_trx d) →
  map_Forall (λ i _, i < next_trx_line (db_seqs d)) (db_trx_line d) →
  map_Forall (λ i _, i < next_posting (db_seqs d)) (db_posting d) → fresh d.
Proof. intros H1 H2 H3. split; intros i [x Hi]; [by apply H1 in Hi|by apply H2 in Hi|by apply H3 in Hi]. Qed.
Ltac solve_fresh := apply fresh_by_computation; apply (bool_decide_eq_true_1 _); vm_compute; reflexivity.
