(* ===== verification/Footprint.v ===== *)
(** The footprint of every operation, proved once against the interfaces of
    file Frame: the submission path satisfies every [SubmitFrame], the recalc
    engine every [EngineFrame]. *)
From S2P Require Import Prelude Numeric Plan Snapshot Wac StandardCost SpecificId Method Db.
From S2P Require Import BulkWrite Cte Submit Strict Recalc Close PgOutput Feed Frame.

(** * The submission path *)
Section submission.
Context (R : relation Db) `{!SubmitFrame R}.

Lemma batch_mutations_frame ms ids : step_ok R (batch_mutations ms ids).
Proof. induction ms as [|[] ms IH]; cbn [batch_mutations]; unfold index_panic; frame. Qed.
#[local] Hint Resolve batch_mutations_frame : frame.
Lemma insert_layer_frame row : step_ok R (insert_layer row).
Proof. unfold insert_layer. frame. Qed.
#[local] Hint Resolve insert_layer_frame : frame.
Lemma apply_plan_result_frame trx_id t plan : step_ok R (apply_plan_result trx_id t plan).
Proof.
  unfold apply_plan_result, insert_trx_lines, apply_pool_state_mutations, upsert_aggregates,
    delete_layers, insert_posting_lines, index_panic. frame.
Qed.
#[local] Hint Resolve apply_plan_result_frame : frame.

Lemma wac_receipt_frame `{PgNumeric} p q c trx_id lt src t debit credit :
  step_ok R (wac_receipt p q c trx_id lt src t debit credit).
Proof. unfold wac_receipt, aggregate_row, to_bigint_fma, bigint_add, state_upsert. frame. Qed.
Lemma wac_deplete_frame `{PgNumeric} p n trx_id lt src t debit credit :
  step_ok R (wac_deplete p n trx_id lt src t debit credit).
Proof.
  unfold wac_deplete, aggregate_row, deplete_set, to_bigint_fma, bigint_add, state_upsert. frame.
Qed.
Lemma fl_receipt_frame `{PgNumeric} p q c trx_id lt src t :
  step_ok R (fl_receipt p q c trx_id lt src t).
Proof. unfold fl_receipt, aggregate_row, to_bigint_fma, bigint_add, state_upsert. frame. Qed.
Lemma fl_deplete_frame `{PgNumeric} p n std trx_id lt src t :
  step_ok R (fl_deplete p n std trx_id lt src t).
Proof.
  unfold fl_deplete, aggregate_row, deplete_set, to_bigint_fma, bigint_add, state_upsert. frame.
Qed.
#[local] Hint Resolve wac_receipt_frame wac_deplete_frame fl_receipt_frame fl_deplete_frame : frame.
Lemma dispatch_cte_line_frame `{PgNumeric} cfg trx_id t l :
  step_ok R (dispatch_cte_line cfg trx_id t l).
Proof. unfold dispatch_cte_line, expect_row, abs_qty. frame. Qed.
#[local] Hint Resolve dispatch_cte_line_frame : frame.

Lemma decode_lines_frame idx ls : step_ok R (decode_lines_from idx ls).
Proof. revert idx. induction ls as [|l ls IH]; intros idx; cbn; frame; eauto. Qed.
#[local] Hint Resolve decode_lines_frame : frame.
Lemma apply_submission_frame `{PgNumeric} trx_type source_id t ls bp :
  step_ok R (apply_submission trx_type source_id t ls bp).
Proof.
  unfold apply_submission, check_backpressure, check_cfg, insert_trx, core_phase, cte_phase,
    lock_pool_rows. frame.
Qed.
End submission.

(** * The aggregate and layer writes of a pass *)
Section state_writes.
Context (R : relation Db) `{!BaseFrame R} `{PgNumeric}.

Lemma layer_write_frame row : step_ok R (insert_layer row).
Proof. unfold insert_layer. frame. Qed.
#[local] Hint Resolve layer_write_frame : frame.
Lemma materialize_layers_frame p ls : step_ok R (materialize_layers p ls).
Proof. unfold materialize_layers. frame. Qed.
Lemma reconcile_frame p n : step_ok R (reconcile_aggregate_value p n).
Proof. unfold reconcile_aggregate_value, aggregate_row, state_upsert. frame. Qed.
End state_writes.

(** * The writes of a generation *)
Section generation.
Context (R : relation Db) `{!GenerationFrame R}.
Context `{PgNumeric} (now : Timestamp).

Lemma adjustment_trx_frame : step_ok R (adjustment_trx now).
Proof. unfold adjustment_trx. frame. Qed.
Lemma adjustment_line_frame trx_id p q c src amount debit credit :
  step_ok R (adjustment_line now trx_id p q c src amount debit credit).
Proof. unfold adjustment_line. frame. Qed.
#[local] Hint Resolve adjustment_trx_frame adjustment_line_frame : frame.
Lemma write_generation_frame p g pending : step_ok R (write_generation now p g pending).
Proof. unfold write_generation, resolve_accounts, write_adjustment, pair_for_text. frame. Qed.
End generation.

(** * The recalc engine *)
Section engine_footprint.
Context (R : relation Db) `{!EngineFrame R}.
Context `{PgNumeric} (now : Timestamp).

#[local] Hint Resolve write_generation_frame materialize_layers_frame reconcile_frame
  adjustment_trx_frame adjustment_line_frame : frame.
Lemma settle_frame c g f : step_ok R (settle c g f).
Proof. unfold settle. frame. Qed.
Lemma lower_floor_frame p k : step_ok R (exec (lower_floor p k)).
Proof. apply step_ok_exec. intros d. apply ef_pool_settlement. Qed.
#[local] Hint Resolve settle_frame lower_floor_frame : frame.
Lemma decide_queue_frame p from f ids b : step_ok R (decide_queue now p from f ids b).
Proof. unfold decide_queue, reset_backlog, drop_queue_row. frame. Qed.
#[local] Hint Resolve decide_queue_frame : frame.
Lemma pass_plan_frame c : step_ok R (pass_plan c).
Proof. unfold pass_plan, strict_fold_of, pending_of. frame. Qed.
Lemma pass_write_frame c pl : step_ok R (pass_write now c pl).
Proof. unfold pass_write. frame. Qed.
#[local] Hint Resolve pass_plan_frame pass_write_frame : frame.
Lemma run_claimed_pass_frame c : step_ok R (run_claimed_pass now c).
Proof. unfold run_claimed_pass, record_escalation. frame. Qed.
#[local] Hint Resolve run_claimed_pass_frame : frame.
Lemma read_claim_frame p : step_ok R (read_claim p).
Proof. unfold read_claim. frame. Qed.
#[local] Hint Resolve read_claim_frame : frame.
Lemma ledger_recalc_step_frame locked : step_ok R (ledger_recalc_step now locked).
Proof. unfold ledger_recalc_step, claim_next, drop_queue_row. frame. Qed.
Lemma claim_pool_frame p : step_ok R (claim_pool now p).
Proof. unfold claim_pool. frame. Qed.
#[local] Hint Resolve claim_pool_frame : frame.
Lemma drain_loop_frame n p stats : step_ok R (drain_loop now n p stats).
Proof.
  revert stats. induction n as [|n IH]; intros stats; cbn [drain_loop]; unfold drop_queue_row;
    frame; eauto.
Qed.
Lemma drain_pool_frame p : step_ok R (drain_pool_to_head now p).
Proof. apply drain_loop_frame. Qed.
#[local] Hint Resolve drain_pool_frame : frame.

(** ** The close sweep *)
Lemma gate_pools_frame end_date : step_ok R (gate_pools end_date).
Proof. unfold gate_pools. frame. Qed.
Lemma sweep_pool_frame p trx : step_ok R (sweep_pool now p trx).
Proof.
  unfold sweep_pool, lock_aggregate, apply_residue, aggregate_row, state_upsert, post_residue_gl,
    resolve_accounts. frame.
Qed.
#[local] Hint Resolve gate_pools_frame sweep_pool_frame : frame.
Lemma sweep_pools_frame ps trx swept : step_ok R (sweep_pools now ps trx swept).
Proof. revert trx swept. induction ps; intros trx swept; cbn; frame; eauto. Qed.
#[local] Hint Resolve sweep_pools_frame : frame.
Lemma recheck_frame n rounds end_date trx swept :
  step_ok R (recheck now n rounds end_date trx swept).
Proof. revert rounds trx swept. induction n; intros; cbn [recheck]; frame; eauto. Qed.
Lemma ledger_settle_pool_frame p : step_ok R (ledger_settle_pool now p).
Proof. unfold ledger_settle_pool. frame. Qed.

(** ** The feed *)
Lemma mark_dirty_frame ps : step_ok R (mark_dirty now ps).
Proof. unfold mark_dirty. frame. Qed.
#[local] Hint Resolve mark_dirty_frame : frame.
Lemma apply_body_frame tz events : step_ok R (apply_body now tz events).
Proof. unfold apply_body, event_key, lower_floors, bump_backlog, engage_bounds. frame. Qed.
Lemma reseed_frame : step_ok R (ledger_feed_reseed now).
Proof. unfold ledger_feed_reseed. frame. Qed.
End engine_footprint.
