(* ===== verification/Scenario.v ===== *)
(** A small worked ledger for the concrete instances of the theorems: six pools
    (one per method and basis), two accounting periods, a few submissions. *)
From S2P Require Import Prelude Numeric Plan Snapshot Wac StandardCost SpecificId Method Db.
From S2P Require Import BulkWrite Cte Submit.

#[local] Existing Instance exact_numeric.

Definition scenario_pool (sku : Z) (m : PoolMethod) (b : ProvisionalBasis) : PoolRow :=
  {| pool_sku_id := sku; pool_location_id := 1; pool_method := m; pool_provisional_basis := b |}.
Definition scenario_cfg : Config :=
  {| cfg_pool :=
       <[1 := scenario_pool 11 Wac RunningAvg]> (<[2 := scenario_pool 12 Std RunningAvg]>
       (<[3 := scenario_pool 13 Specific RunningAvg]> (<[4 := scenario_pool 14 Fifo RunningAvg]>
       (<[5 := scenario_pool 15 Lifo RunningAvg]> (<[6 := scenario_pool 12 Fifo Standard]> ∅)))));
     cfg_standard_cost := <[(12, 1) := 10]> ∅;
     cfg_account_map :=
       list_to_map (map (λ sku, ((sku, 1), example_accounts)) [11; 12; 13; 14; 15]);
     cfg_bound_events := 200; cfg_low_water := 20; cfg_feed_required := false |}.
Definition scenario_period (first last : Z) : PeriodRow :=
  {| per_start_date := first; per_end_date := last; per_state := PeriodOpen; per_closed := None |}.

Definition opening_db : Db :=
  MkDb scenario_cfg (<[1 := scenario_period 0 30]> (<[2 := scenario_period 31 60]> ∅))
    ∅ ∅ ∅ ∅ ∅ ∅ ∅ ∅ [] ∅ ∅ ∅ None 0
    {| next_trx := 1; next_trx_line := 1; next_posting := 1; next_cost_adjustment := 1 |}.

Definition receipt_json (p q c : Z) : LineJson :=
  {| lj_pool_id := p; lj_line_type := "po_receipt_line"; lj_source_id := None; lj_qty := q;
     lj_unit_cost := c |}.
Definition submit_on (day source_id : Z) (lines : list LineJson) : Tx Z :=
  apply_submission "po_receipt" source_id (day_start day) lines true.
(** The database after a transaction, whatever its outcome. *)
Definition after {A} (m : Tx A) (d : Db) : Db := (transaction m d).2.

(** Receipts into every pool, then issues. *)
Definition stocked_db : Db :=
  after (submit_on 10 1 (map (λ p, receipt_json p 10 8) [1; 2; 4; 5; 6])) opening_db.
Definition issued_db : Db :=
  after (submit_on 12 2 [receipt_json 1 (-3) 0; receipt_json 4 (-4) 0; receipt_json 5 (-4) 0])
    (after (submit_on 11 3 [receipt_json 4 5 20; receipt_json 5 5 20]) stocked_db).
