(* ===== verification/RecalcLaws.v ===== *)
(** Theorems about the recalc engine: the closed-period detector and the guard
    it mirrors, what one pass leaves behind, halted pools, and the convergence
    of replays. *)
From S2P Require Import Prelude Numeric Plan Snapshot Wac Strict Db BulkWrite Cte Submit Recalc.
From S2P Require Import Close Frame Footprint Scenario.

(** * The physical lines of a pool *)
Lemma elem_of_physical_lines p d i l :
  (i, l) ∈ physical_lines p d ↔
  db_trx_line d !! i = Some l ∧ tl_pool_id l = p ∧ is_physical l = true.
Proof.
  unfold physical_lines. rewrite merge_sort_Permutation, list_elem_of_In, List.filter_In.
  rewrite <-list_elem_of_In, elem_of_map_to_list. cbn.
  rewrite andb_true_iff, Z.eqb_eq. done.
Qed.
Lemma physical_lines_sorted p d : StronglySorted line_le (physical_lines p d).
Proof. apply StronglySorted_merge_sort; apply _. Qed.
Lemma filter_NoDup {A} (f : A → bool) (l : list A) : NoDup l → NoDup (List.filter f l).
Proof.
  induction 1 as [|x l Hx _ IH]; cbn; [constructor|]. destruct (f x); [|done].
  constructor; [|done]. rewrite list_elem_of_In, List.filter_In, <-list_elem_of_In. tauto.
Qed.
Lemma physical_lines_NoDup p d : NoDup (physical_lines p d).
Proof.
  unfold physical_lines. rewrite merge_sort_Permutation. apply filter_NoDup, NoDup_map_to_list.
Qed.

(** Keys identify lines. *)
Lemma line_le_antisym p d x y :
  x ∈ physical_lines p d → y ∈ physical_lines p d → line_le x y → line_le y x → x = y.
Proof.
  destruct x as [i l], y as [j k]. rewrite !elem_of_physical_lines. intros [Hi _] [Hj _].
  unfold line_le, key_le, line_key. cbn. intros. assert (i = j) as -> by lia. congruence.
Qed.

(** The lines of a pool depend only on the physical rows of the table. *)
Definition physical_rows (d : Db) : gmap Z TrxLineRow :=
  filter (λ il, is_physical il.2 = true) (db_trx_line d).
Lemma physical_rows_lookup d i l :
  physical_rows d !! i = Some l ↔ db_trx_line d !! i = Some l ∧ is_physical l = true.
Proof. unfold physical_rows. by rewrite map_lookup_filter_Some. Qed.
Lemma physical_lines_ext p d d' :
  physical_rows d' = physical_rows d → physical_lines p d' = physical_lines p d.
Proof.
  intros Heq.
  assert (∀ x, x ∈ physical_lines p d' ↔ x ∈ physical_lines p d) as Hin.
  { intros [i l]. rewrite !elem_of_physical_lines.
    assert (physical_rows d' !! i = Some l ↔ physical_rows d !! i = Some l) as Hrow by by rewrite Heq.
    rewrite !physical_rows_lookup in Hrow. tauto. }
  apply (StronglySorted_unique_strong line_le).
  - intros x y Hx Hy. apply (line_le_antisym p d); [by apply Hin|done].
  - apply physical_lines_sorted.
  - apply physical_lines_sorted.
  - apply NoDup_Permutation; [apply physical_lines_NoDup..|done].
Qed.

(** The engine adds no physical line. *)
Record same_physical (d d' : Db) : Prop := {
  sp_seqs : seq_le (db_seqs d) (db_seqs d');
  sp_fresh : fresh d → fresh d';
  sp_rows : fresh d → physical_rows d' = physical_rows d;
}.
#[global] Instance same_physical_preorder : PreOrder same_physical.
Proof.
  split; [by split|]. intros d1 d2 d3 [Q1 F1 R1] [Q2 F2 R2]. split; [by etrans|auto|].
  intros Hf. rewrite R2, R1; auto.
Qed.
Lemma same_physical_by d d' :
  grows d d' → db_trx_line d' = db_trx_line d → same_physical d d'.
Proof.
  intros [_ Hq _ Ha] Hl. split; [done|intros Hf; by apply Ha|].
  intros _. unfold physical_rows. by rewrite Hl.
Qed.
Lemma same_physical_step {A} (m : Tx A) :
  step_ok grows m → step_ok (keeps_proj db_trx_line) m → step_ok same_physical m.
Proof. intros Hg Hk d r d' Hrun. apply same_physical_by; [by eapply Hg|by eapply Hk]. Qed.

#[global] Instance same_physical_generation : GenerationFrame same_physical.
Proof.
  split; [split|..].
  - apply _.
  - intros. by apply same_physical_by; [apply grows_set_seqs|].
  - intros. apply same_physical_step; [eauto with frame|by apply keeps_proj_trx].
  - intros. apply same_physical_step; [eauto with frame|by apply keeps_proj_posting].
  - intros. by apply same_physical_by; [apply grows_pool_state|].
  - intros l Hl d r d' Hrun. pose proof (step_ok_insert_trx_line_row l _ _ _ Hrun) as [_ Hq _ Ha].
    split; [done|intros Hf; by apply Ha|]. intros [_ Hf _]. revert Hrun.
    unfold insert_trx_line_row, period_guard_trx_line, mbind, SE_bind. rewrite nextval_run. cbn.
    rewrite !(bool_decide_eq_true_2 _ Hl), orb_true_r. cbn.
    destruct (0 <=? tl_unit_cost l); cbn; intros [= _ <-]; [|done]. unfold physical_rows. cbn.
    apply map_filter_insert_not'; [cbn; unfold is_physical; by rewrite bool_decide_eq_true_2|].
    intros l' Hl'. apply fresh_None in Hf. congruence.
  - intros. apply same_physical_step; [eauto with frame|].
    unfold insert_consumption. frame; by apply step_ok_exec.
  - intros. apply same_physical_step; [eauto with frame|].
    unfold insert_cost_settlement, period_guard_cost_settlement. frame; by apply step_ok_exec.
Qed.
#[global] Instance same_physical_engine : EngineFrame same_physical.
Proof. split; [apply _|intros; (by apply same_physical_by; [eauto with frame|])..]. Qed.

(** * The divergence detector and the settlement guard *)
Lemma period_guard_run i d :
  period_guard_cost_settlement i d =
  (match db_trx_line d !! i with
   | Some l => if below_frontier (db_period d) (tl_posted_at l)
               then Err (SqlRaised "55000" "PeriodClosed") else Ok tt
   | None => Ok tt
   end, d).
Proof.
  unfold period_guard_cost_settlement, mbind, SE_bind, query, gets. cbn.
  destruct (db_trx_line d !! i) as [l|]; [|done]. rewrite period_frozen_frontier.
  by destruct (below_frontier _ _).
Qed.

Lemma find_pd_id pending i :
  i ∈ map pd_id pending → ∃ x, List.find (λ x, pd_id x =? i) pending = Some x.
Proof.
  intros Hi. destruct (List.find _ _) eqn:E; [eauto|].
  apply list_elem_of_fmap in Hi as (x & -> & Hx). apply list_elem_of_In in Hx.
  pose proof (List.find_none _ _ E x Hx) as Hne. cbn in Hne. rewrite Z.eqb_refl in Hne. done.
Qed.
Lemma elem_of_frozen_pending d pending x w :
  (x, w) ∈ frozen_pending d pending →
  x ∈ pending ∧ ∃ l, db_trx_line d !! pd_id x = Some l ∧
    below_frontier (db_period d) (tl_posted_at l) = true ∧
    w = covering_closed (db_period d) (tl_posted_at l).
Proof.
  unfold frozen_pending. rewrite list_elem_of_omap. intros ([i l] & Hin & Hx). cbn in *.
  apply fmap_Some in Hx as (y & [Hy Hid]%List.find_some & [= -> ->]).
  rewrite merge_sort_Permutation in Hin.
  apply list_elem_of_In, List.filter_In in Hin as [Hin Hp].
  apply list_elem_of_In, elem_of_map_to_list in Hin. cbn in *.
  apply andb_true_iff in Hp as [_ Hf]. apply Z.eqb_eq in Hid as <-.
  split; [by apply list_elem_of_In|]. eauto.
Qed.
Lemma frozen_pending_nonempty d pending x l :
  x ∈ pending → db_trx_line d !! pd_id x = Some l →
  below_frontier (db_period d) (tl_posted_at l) = true → frozen_pending d pending ≠ [].
Proof.
  intros Hx Hl Hf Hnil.
  destruct (find_pd_id pending (pd_id x)) as [y Hy]; [apply list_elem_of_fmap; eauto|].
  assert ((y, covering_closed (db_period d) (tl_posted_at l)) ∈ frozen_pending d pending) as Hin;
    [|rewrite Hnil in Hin; by apply elem_of_nil in Hin].
  unfold frozen_pending. apply list_elem_of_omap. exists (pd_id x, l). cbn. rewrite Hy.
  split; [|done]. rewrite merge_sort_Permutation. apply list_elem_of_In, List.filter_In.
  rewrite <-list_elem_of_In, elem_of_map_to_list. cbn. split; [done|].
  rewrite Hf, bool_decide_eq_true_2; [done|]. apply list_elem_of_fmap; eauto.
Qed.
Lemma detect_None p pending d :
  detect_closed_period_divergence p pending d = None ↔ frozen_pending d pending = [].
Proof.
  unfold detect_closed_period_divergence. destruct (frozen_pending d pending); [done|].
  destruct (default _ _). done.
Qed.

(** C31: the detector that runs before the writes of a pass mirrors the
    settlement guard exactly: it reports nothing iff the guard would admit the
    settlement of every depletion of the write set, and it escalates iff the
    guard would reject one of them. *)
Theorem detector_mirrors_guard p pending d :
  (detect_closed_period_divergence p pending d = None ↔
   ∀ x, x ∈ pending → period_guard_cost_settlement (pd_id x) d = (Ok tt, d)) ∧
  (is_Some (detect_closed_period_divergence p pending d) ↔
   ∃ x, x ∈ pending ∧
     period_guard_cost_settlement (pd_id x) d = (Err (SqlRaised "55000" "PeriodClosed"), d)).
Proof.
  assert ((∃ x, x ∈ pending ∧
     period_guard_cost_settlement (pd_id x) d = (Err (SqlRaised "55000" "PeriodClosed"), d)) ↔
     frozen_pending d pending ≠ []) as Hguard.
  { setoid_rewrite period_guard_run. split.
    - intros (x & Hx & Hg). destruct (db_trx_line d !! pd_id x) as [l|] eqn:Hl; [|done].
      destruct (below_frontier _ _) eqn:Hf; [|done]. by eapply frozen_pending_nonempty.
    - destruct (frozen_pending d pending) as [|[x w] rest] eqn:E; [done|]. intros _.
      destruct (elem_of_frozen_pending d pending x w) as (Hx & l & Hl & Hf & _); [rewrite E; left|].
      exists x. by rewrite Hl, Hf. }
  rewrite <-not_eq_None_Some, detect_None, Hguard. split; [|done]. split.
  - intros Hnil x Hx. rewrite period_guard_run.
    destruct (db_trx_line d !! pd_id x) as [l|] eqn:Hl; [|done].
    destruct (below_frontier _ _) eqn:Hf; [|done]. by eapply frozen_pending_nonempty in Hf.
  - intros Hall. destruct (decide (frozen_pending d pending = [])) as [|Hne]; [done|].
    apply Hguard in Hne as (x & Hx & Hg). rewrite Hall in Hg; done.
Qed.

(** * Reading the claim and planning the pass *)
Record claim_of (d : Db) (p : Z) (c : Claim) : Prop := {
  co_pool : cl_pool_id c = p;
  co_row : ∃ row, cfg_pool (db_cfg d) !! p = Some row ∧ cl_method c = pool_method row;
  co_generation :
    cl_generation c = from_option pse_recalc_generation 0 (db_pool_settlement d !! p);
  co_settled : cl_settled c = settled_of d p;
  co_floor : cl_floor c = floor_of d p;
}.
Lemma read_claim_Ok p d c d' : read_claim p d = (Ok c, d') → d' = d ∧ claim_of d p c.
Proof.
  unfold read_claim, mbind, SE_bind, query, gets. cbn.
  destruct (cfg_pool (db_cfg d) !! p) as [row|] eqn:Hrow; [|done]. intros [= <- <-].
  split; [done|]. split; cbn; eauto.
Qed.

Definition full_replay (c : Claim) : bool :=
  bool_decide (is_Some (cl_floor c)) || bool_decide (cl_settled c = None).
(** What the pass replays, and from what. *)
Definition pass_from (c : Claim) : option (Timestamp * Z) := scan_from c (full_replay c).
Definition pass_scan (c : Claim) (d : Db) : list (Z * TrxLineRow) :=
  scan_events (cl_pool_id c) (pass_from c) d.
Definition pass_opening (c : Claim) (d : Db) : list StrictLayer :=
  if full_replay c then [] else hydrate_layers (cl_pool_id c) d.
Definition newest_first (m : PoolMethod) : bool :=
  match m with Fifo => false | _ => true end.

Lemma pending_of_run d0 scanned c d r d' : pending_of d0 scanned c d = (r, d') → d' = d.
Proof.
  unfold pending_of. intros Hrun. repeat case_match; by injection Hrun.
Qed.
Lemma mapM_pending d0 scanned cs d ps d' :
  mapM (pending_of d0 scanned) cs d = (Ok ps, d') →
  d' = d ∧ Forall2 (λ c o, pending_of d0 scanned c d = (Ok o, d)) cs ps.
Proof.
  revert ps. induction cs as [|c cs IH]; intros ps Hrun; cbn in Hrun.
  - injection Hrun as <- <-. by split.
  - apply SE_bind_Ok in Hrun as (o & d1 & Ho & Hrun). pose proof (pending_of_run _ _ _ _ _ _ Ho) as ->.
    apply SE_bind_Ok in Hrun as (os & d2 & Hos & Hrun). injection Hrun as <- <-.
    apply IH in Hos as [-> Hall]. split; [done|]. by constructor.
Qed.

Record plan_of (d : Db) (c : Claim) (pl : PassPlan) : Prop := {
  pn_full : pp_full_replay pl = full_replay c;
  pn_scanned : pp_scanned pl = pass_scan c d;
  pn_fold : strict_fold (newest_first (cl_method c)) (pass_opening c d)
              (map strict_event (pass_scan c d)) = Ok (pp_fold pl);
  pn_pending : ∃ os, pp_pending pl = omap id os ∧
    Forall2 (λ co o, pending_of d (pass_scan c d) co d = (Ok o, d)) (fo_costings (pp_fold pl)) os;
}.
Lemma pass_plan_Ok c d pl d' : pass_plan c d = (Ok pl, d') → d' = d ∧ plan_of d c pl.
Proof.
  unfold pass_plan. intros Hrun. apply SE_bind_Ok in Hrun as (d0 & d1 & [= <- <-] & Hrun).
  apply SE_bind_Ok in Hrun as (fold & d1 & Hfold & Hrun).
  apply SE_bind_Ok in Hrun as (os & d2 & Hos & Hrun). injection Hrun as <- <-.
  unfold strict_fold_of in Hfold.
  assert (strict_fold (newest_first (cl_method c)) (pass_opening c d)
            (map strict_event (pass_scan c d)) = Ok fold ∧ d1 = d) as [Hf ->].
  { unfold pass_opening, pass_scan, pass_from, full_replay in *.
    destruct (cl_method c); cbn [newest_first] in *; unfold fifo_strict_fold, lifo_strict_fold in *;
      (destruct (strict_fold _ _ _) as [out|]; [by injection Hfold as <- <-|done]). }
  apply mapM_pending in Hos as [-> Hos]. split; [done|]. split; cbn; eauto.
Qed.

(** * What a pass leaves behind *)
(** The greatest scanned key bounds the scan. *)
Lemma sorted_last_max {A} (R : relation A) `{!Reflexive R} l y x :
  StronglySorted R l → last l = Some y → x ∈ l → R x y.
Proof.
  induction 1 as [|z l Hs IH Hall]; [by intros|]. rewrite last_cons. intros Hlast Hx.
  destruct (last l) as [w|] eqn:El.
  - injection Hlast as ->. apply elem_of_cons in Hx as [->|Hx]; [|auto].
    eapply Forall_forall; [exact Hall|]. by apply last_Some_elem_of.
  - injection Hlast as ->. apply last_None in El as ->. apply list_elem_of_singleton in Hx as ->. done.
Qed.
Lemma sorted_filter {A} (R : relation A) (f : A → bool) l :
  StronglySorted R l → StronglySorted R (List.filter f l).
Proof.
  induction 1 as [|x l Hs IH Hall]; cbn; [constructor|]. destruct (f x); [|done].
  constructor; [done|]. apply Forall_forall. intros y Hy.
  apply list_elem_of_In, List.filter_In in Hy as [Hy _]. eapply Forall_forall; [exact Hall|].
  by apply list_elem_of_In.
Qed.
#[global] Instance line_le_refl : Reflexive line_le.
Proof. intros x. unfold line_le, key_le. lia. Qed.

Lemma filter_nil {A} (f : A → bool) l : (∀ x, x ∈ l → f x = false) → List.filter f l = [].
Proof.
  induction l as [|x l IH]; intros Hf; [done|]. cbn. rewrite Hf by (by left).
  apply IH. intros y Hy. apply Hf. by right.
Qed.
Lemma find_None_all {A} (f : A → bool) l : (∀ x, x ∈ l → f x = false) → List.find f l = None.
Proof.
  induction l as [|x l IH]; intros Hf; [done|]. cbn. rewrite Hf by (by left).
  apply IH. intros y Hy. apply Hf. by right.
Qed.

(** Nothing lies beyond the new frontier, and nothing was missed below it. *)
Lemma no_tail p c d :
  cl_pool_id c = p → List.filter (after_key (new_frontier c (pass_scan c d))) (physical_lines p d) = [].
Proof.
  intros Hp. apply filter_nil. intros x Hx. unfold new_frontier.
  destruct (last (pass_scan c d)) as [y|] eqn:Elast.
  - cbn. apply bool_decide_eq_false. intros Hlt.
    pose proof (sorted_last_max line_le _ y x
      (sorted_filter _ (after_key (pass_from c)) _ (physical_lines_sorted p d))) as Hmax.
    unfold pass_scan, scan_events in *. rewrite Hp in *.
    destruct (after_key (pass_from c) x) eqn:Ex.
    + assert (line_le x y) as Hle.
      { apply Hmax; [done|]. apply list_elem_of_In, List.filter_In. by rewrite <-list_elem_of_In. }
      unfold line_le, key_le, key_lt in *. lia.
    + apply last_Some_elem_of, list_elem_of_In, List.filter_In in Elast as [_ Hy].
      unfold after_key in *. destruct (pass_from c) as [k|]; [|done].
      apply bool_decide_eq_true in Hy. apply bool_decide_eq_false in Ex.
      unfold key_lt in *. lia.
  - apply last_None in Elast. unfold pass_scan, scan_events in Elast. rewrite Hp in Elast.
    destruct (after_key (cl_settled c) x) eqn:Ex; [|done]. exfalso.
    assert (x ∈ List.filter (after_key (pass_from c)) (physical_lines p d)) as Hin;
      [|rewrite Elast in Hin; by apply elem_of_nil in Hin].
    apply list_elem_of_In, List.filter_In. rewrite <-list_elem_of_In. split; [done|].
    unfold pass_from, scan_from. by destruct (full_replay c).
Qed.
Lemma none_missed p c d f :
  cl_pool_id c = p → missed_line p (pass_from c) f (map fst (pass_scan c d)) d = None.
Proof.
  intros Hp. apply find_None_all. intros x Hx. destruct (after_key (pass_from c) x) eqn:Ex; [|done].
  cbn. apply andb_false_iff. right. apply bool_decide_eq_false. intros Hn. apply Hn.
  apply list_elem_of_fmap. exists x. split; [done|]. unfold pass_scan, scan_events. rewrite Hp.
  apply list_elem_of_In, List.filter_In. by rewrite <-list_elem_of_In.
Qed.

(** Settling a claim whose floor nobody moved. *)
Lemma settle_Ok c g f d b d' :
  settle c g f d = (Ok b, d') → cl_floor c = floor_of d (cl_pool_id c) →
  b = false ∧ floor_of d' (cl_pool_id c) = None ∧ settled_of d' (cl_pool_id c) = Some f ∧
  d' = set_pool_settlement (db_pool_settlement d') d ∧
  (∀ q, q ≠ cl_pool_id c → db_pool_settlement d' !! q = db_pool_settlement d !! q) ∧
  ∃ ps, db_pool_settlement d' !! cl_pool_id c = Some ps ∧
    pse_recalc_generation ps =
      Z.max g (from_option pse_recalc_generation g (db_pool_settlement d !! cl_pool_id c)).
Proof.
  unfold settle, mbind, SE_bind, query, gets, exec, modify, floor_of, settled_of. cbn.
  intros [= <- <-] Hfl. cbn. rewrite lookup_insert_eq. cbn.
  destruct (db_pool_settlement d !! cl_pool_id c) as [ps|] eqn:Eps; cbn in *.
  - rewrite !(bool_decide_eq_true_2 _ (eq_sym Hfl)). cbn. split_and!; try done.
    + intros q Hq. by rewrite lookup_insert_ne.
    + eexists. split; [done|]. cbn. lia.
  - split_and!; try done.
    + intros q Hq. by rewrite lookup_insert_ne.
    + eexists. split; [done|]. cbn. lia.
Qed.

(** Deciding the queue when nothing is left to do. *)
Lemma decide_queue_quiet now p from frontier ids d b d' :
  decide_queue now p from frontier ids false d = (Ok b, d') →
  (∀ f, frontier = Some f → missed_line p from f ids d = None) →
  scan_events p frontier d = [] →
  b = false ∧ db_recalc_queue d' = delete p (db_recalc_queue d) ∧
  db_pool_settlement d' = db_pool_settlement d ∧ db_backlog d' !! p = Some 0.
Proof.
  intros Hrun Hmiss Htail. unfold decide_queue in Hrun.
  apply SE_bind_Ok in Hrun as (missed & d1 & Hm & Hrun).
  assert (missed = false ∧ d1 = d) as [-> ->].
  { destruct frontier as [f|]; [|by injection Hm as <- <-].
    unfold mbind, SE_bind, query, gets in Hm. rewrite Hmiss in Hm by done. by injection Hm as <- <-. }
  apply SE_bind_Ok in Hrun as (n & d1 & Hn & Hrun). injection Hn as <- <-. rewrite Htail in Hrun.
  unfold reset_backlog, mbind, SE_bind, exec, modify in Hrun. cbn in Hrun.
  injection Hrun as <- <-. repeat case_match; cbn; rewrite ?lookup_insert_eq; done.
Qed.

Section pass.
Context `{PgNumeric} (now : Timestamp).

(** The writes of a pass before it settles touch neither the work list nor the
    physical lines. *)
Lemma pass_write_split c pl d out d' :
  pass_write now c pl d = (Ok out, d') →
  ∃ fp d1 d2,
    same_dirty d d1 ∧ same_physical d d1 ∧ po_escalated out = None ∧
    match new_frontier c (pp_scanned pl) with
    | Some f => settle c (po_generation out) f d1 = (Ok fp, d2)
    | None => fp = false ∧ d2 = d1
    end ∧
    decide_queue now (cl_pool_id c) (scan_from c (pp_full_replay pl))
      (new_frontier c (pp_scanned pl)) (map fst (pp_scanned pl)) fp d2 = (Ok (po_requeued out), d').
Proof.
  unfold pass_write. intros Hrun.
  apply SE_bind_Ok in Hrun as (adj & d1 & H1 & Hrun).
  apply SE_bind_Ok in Hrun as (u & d2 & H2 & Hrun).
  apply SE_bind_Ok in Hrun as (u' & d3 & H3 & Hrun).
  apply SE_bind_Ok in Hrun as (fp & d4 & H4 & Hrun).
  apply SE_bind_Ok in Hrun as (rq & d5 & H5 & Hrun). injection Hrun as <- <-. cbn.
  assert (∀ R, GenerationFrame R → R d d3) as HR.
  { intros R HG. transitivity d1; [|transitivity d2].
    - destruct (negb _); [eapply write_generation_frame; [exact HG|exact H1]|].
      injection H1 as _ <-. reflexivity.
    - destruct (pp_scanned pl); [injection H2 as _ <-; reflexivity|].
      eapply materialize_layers_frame; [apply _|exact H2].
    - destruct (_ =? 0); [injection H3 as _ <-; reflexivity|].
      eapply reconcile_frame; [apply _|exact H3]. }
  exists fp, d3, d4. split_and!; [apply HR, _|apply HR, _|done| |done].
  destruct (new_frontier c (pp_scanned pl)); [done|]. by injection H4 as <- <-.
Qed.

Lemma same_dirty_settled d d' p : same_dirty d d' → settled_of d' p = settled_of d p.
Proof. unfold same_dirty, keeps_proj, settled_of. by intros [= -> _]. Qed.
Lemma same_dirty_floor d d' p : same_dirty d d' → floor_of d' p = floor_of d p.
Proof. unfold same_dirty, keeps_proj, floor_of. by intros [= -> _]. Qed.

(** A floor only stands on a pool that has lines to replay. *)
Definition grounded (d : Db) (p : Z) : Prop :=
  is_Some (floor_of d p) → physical_lines p d ≠ [].

Lemma filter_true {A} (l : list A) : List.filter (λ _, true) l = l.
Proof. induction l as [|x l IH]; [done|]. cbn. by rewrite IH. Qed.
Lemma no_frontier p c d :
  claim_of d p c → grounded d p → new_frontier c (pass_scan c d) = None →
  floor_of d p = None ∧ settled_of d p = None.
Proof.
  intros Hc Hg. unfold new_frontier. destruct (last (pass_scan c d)) eqn:Ey; [done|].
  rewrite (co_settled _ _ _ Hc). intros Hs. split; [|done].
  destruct (floor_of d p) as [k|] eqn:Ek; [|done]. exfalso. apply Hg; [by rewrite Ek|].
  apply last_None in Ey. unfold pass_scan, scan_events, pass_from, scan_from, full_replay in Ey.
  rewrite (co_floor _ _ _ Hc), Ek, (co_pool _ _ _ Hc) in Ey. cbn in Ey. by rewrite filter_true in Ey.
Qed.
Lemma frontier_exists p c d f :
  claim_of d p c → new_frontier c (pass_scan c d) = Some f →
  is_Some (db_pool_settlement d !! p) ∨ physical_lines p d ≠ [].
Proof.
  intros Hc. unfold new_frontier. destruct (last (pass_scan c d)) as [y|] eqn:Ey; intros Hf.
  - right. intros Hnil. unfold pass_scan, scan_events in Ey. by rewrite (co_pool _ _ _ Hc), Hnil in Ey.
  - left. rewrite (co_settled _ _ _ Hc) in Hf. unfold settled_of in Hf.
    destruct (db_pool_settlement d !! p); [eauto|done].
Qed.

(** The settling step of a pass, on a claim read from [d]. *)
Lemma frontier_settled p c g d d1 fp d2 :
  claim_of d p c → grounded d p → same_dirty d d1 →
  match new_frontier c (pass_scan c d) with
  | Some f => settle c g f d1 = (Ok fp, d2)
  | None => fp = false ∧ d2 = d1
  end →
  fp = false ∧ physical_rows d2 = physical_rows d1 ∧ db_recalc_queue d2 = db_recalc_queue d ∧
  floor_of d2 p = None ∧ settled_of d2 p = new_frontier c (pass_scan c d) ∧
  (∀ q, q ≠ p → db_pool_settlement d2 !! q = db_pool_settlement d !! q) ∧
  (is_Some (db_pool_settlement d2 !! p) →
   is_Some (db_pool_settlement d !! p) ∨ physical_lines p d ≠ []).
Proof.
  intros Hc Hg Hdirty Hset. pose proof (co_pool _ _ _ Hc) as Hp.
  pose proof (same_dirty_floor _ _ p Hdirty) as Hfl.
  pose proof (same_dirty_settled _ _ p Hdirty) as Hse.
  unfold same_dirty, keeps_proj in Hdirty. injection Hdirty as Hps Hqq.
  destruct (new_frontier c (pass_scan c d)) as [f|] eqn:Ef.
  - apply settle_Ok in Hset as (-> & Hfl2 & Hse2 & Hd2 & Hot & _);
      [|by rewrite (co_floor _ _ _ Hc), Hp, Hfl].
    rewrite Hp in *. rewrite Hps in Hot.
    assert (physical_rows d2 = physical_rows d1 ∧ db_recalc_queue d2 = db_recalc_queue d1)
      as [-> ->] by (rewrite Hd2; done).
    split_and!; try done. intros _. by eapply frontier_exists.
  - destruct Hset as [-> ->]. destruct (no_frontier p c d) as [Hn1 Hn2]; [done..|].
    rewrite Hps. split_and!; try done; [by rewrite Hfl|by rewrite Hse|by left].
Qed.

(** A pass on a claim read from the database it runs on settles the pool. *)
Lemma pass_settles p c d out d' :
  fresh d → claim_of d p c → grounded d p →
  run_claimed_pass now c d = (Ok out, d') → po_escalated out = None →
  po_requeued out = false ∧ db_recalc_queue d' = delete p (db_recalc_queue d) ∧
  floor_of d' p = None ∧ scan_events p (settled_of d' p) d' = [] ∧
  db_backlog d' !! p = Some 0 ∧
  (∀ q, q ≠ p → db_pool_settlement d' !! q = db_pool_settlement d !! q) ∧
  (is_Some (db_pool_settlement d' !! p) → is_Some (db_pool_settlement d !! p) ∨ physical_lines p d ≠ []).
Proof.
  intros Hfresh Hc Hg Hrun Hesc. unfold run_claimed_pass in Hrun.
  pose proof (co_pool _ _ _ Hc) as Hp.
  pose proof (run_claimed_pass_frame same_physical now c _ _ _ Hrun) as Hsame.
  apply SE_bind_Ok in Hrun as (pl & d0 & [-> Hpl]%pass_plan_Ok & Hrun).
  apply SE_bind_Ok in Hrun as (esc & d0 & Hq & Hrun). injection Hq as <- <-.
  destruct (detect_closed_period_divergence _ _ d) as [e|].
  { apply SE_bind_Ok in Hrun as (u & d1 & _ & Hrun). injection Hrun as <- <-. done. }
  apply pass_write_split in Hrun as (fp & d1 & d2 & Hdirty & [_ Hf1 Hrows] & _ & Hset & Hdec).
  rewrite (pn_full _ _ _ Hpl), (pn_scanned _ _ _ Hpl), Hp in *.
  eapply frontier_settled in Hset as (-> & Hrows2 & Hq2 & Hfl2 & Hse2 & Hot2 & Hex2); [|done..].
  rewrite Hrows in Hrows2 by done. pose proof (physical_lines_ext p _ _ Hrows2) as HL2.
  pose proof (physical_lines_ext p _ _ (sp_rows _ _ Hsame Hfresh)) as HL'.
  apply decide_queue_quiet in Hdec as (Hb & Hqd & Hsd & Hbl).
  - assert (floor_of d' p = floor_of d2 p ∧ settled_of d' p = settled_of d2 p) as [Hfe Hsee]
      by (unfold floor_of, settled_of; by rewrite Hsd).
    split_and!; [done|by rewrite Hqd, Hq2|by rewrite Hfe| |done|by rewrite Hsd|by rewrite Hsd].
    rewrite Hsee, Hse2. unfold scan_events. rewrite HL'. by apply no_tail.
  - intros f Hf. unfold missed_line. rewrite HL2. by apply none_missed.
  - unfold scan_events. rewrite HL2. by apply no_tail.
Qed.

(** C30: one pass is enough.  A recalc pass that runs alone on a pool (claim read
    from the same state) and does not escalate leaves the pool settled to its
    head: it is off the work list, its recost floor is gone, no physical line
    lies beyond its frontier, the backlog counter is zero, and no other pool's
    settlement moved. *)
Theorem recalc_pass_settles p c d out d' :
  fresh d → grounded d p → read_claim p d = (Ok c, d) →
  run_claimed_pass now c d = (Ok out, d') → po_escalated out = None →
  po_requeued out = false ∧ db_recalc_queue d' !! p = None ∧ floor_of d' p = None ∧
  scan_events p (settled_of d' p) d' = [] ∧ db_backlog d' !! p = Some 0 ∧
  (∀ q, q ≠ p → db_pool_settlement d' !! q = db_pool_settlement d !! q).
Proof.
  intros Hf Hg [_ Hc]%read_claim_Ok Hrun He.
  destruct (pass_settles p c d out d') as (H1 & H2 & H3 & H4 & H5 & H6 & _); try done.
  rewrite H2, lookup_delete_eq. done.
Qed.

(** ** Targeted drains *)
Lemma claim_pool_Ok p d c d' :
  claim_pool now p d = (Ok c, d') →
  claim_of d' p c ∧ is_Some (db_recalc_queue d' !! p) ∧ halted_period p d = None ∧
  (d' = d ∨ d' = set_recalc_queue (<[p := now]> (db_recalc_queue d)) d).
Proof.
  unfold claim_pool. intros Hrun. apply SE_bind_Ok in Hrun as (x & d0 & [= <- <-] & Hrun). cbn in Hrun.
  destruct (halted_period p d) as [h|] eqn:Hh; [done|].
  destruct (cfg_pool (db_cfg d) !! p); [|done].
  apply SE_bind_Ok in Hrun as (u & d1 & Hu & [-> Hc]%read_claim_Ok).
  destruct (db_recalc_queue d !! p) as [t|] eqn:Hq.
  - injection Hu as _ <-. rewrite Hq. split_and!; eauto.
  - injection Hu as _ <-. cbn. rewrite lookup_insert_eq. split_and!; eauto.
Qed.

(** The drain without its loop. *)
Definition single_drain (p : Z) (stats : DrainStats) : Tx DrainOutcome :=
  c ← claim_pool now p;
  if is_strict (cl_method c) then
    out ← run_claimed_pass now c; mret (Drained (add_pass stats out))
  else drop_queue_row p;; mret (NonStrict (cl_method c)).

Lemma SE_bind_ext_run {S E A B} (m : SE S E A) (f g : A → SE S E B) s :
  (∀ a s', m s = (Ok a, s') → f a s' = g a s') → (m ≫= f) s = (m ≫= g) s.
Proof. unfold mbind, SE_bind. destruct (m s) as [[a|e] s']; naive_solver. Qed.

Lemma drain_loop_unfold n p stats :
  drain_loop now n p stats =
  (c ← claim_pool now p;
   if is_strict (cl_method c) then
     out ← run_claimed_pass now c;
     if bool_decide (is_Some (po_escalated out)) then mret (Drained (add_pass stats out))
     else if negb (po_requeued out) then mret (Drained (add_pass stats out))
     else match n with
          | O | S O => bail "XX000" "did not quiesce"
          | S n => drain_loop now n p (add_pass stats out)
          end
   else drop_queue_row p;; mret (NonStrict (cl_method c))).
Proof. by destruct n. Qed.
Lemma drain_loop_single n p stats d :
  fresh d → grounded d p → drain_loop now n p stats d = single_drain p stats d.
Proof.
  intros Hf Hg. unfold single_drain.
  assert (∀ k : DrainStats → Tx DrainOutcome,
    (c ← claim_pool now p;
     if is_strict (cl_method c) then
       out ← run_claimed_pass now c;
       if bool_decide (is_Some (po_escalated out)) then mret (Drained (add_pass stats out))
       else if negb (po_requeued out) then mret (Drained (add_pass stats out))
       else k (add_pass stats out)
     else drop_queue_row p;; mret (NonStrict (cl_method c))) d =
    (c ← claim_pool now p;
     if is_strict (cl_method c) then
       out ← run_claimed_pass now c; mret (Drained (add_pass stats out))
     else drop_queue_row p;; mret (NonStrict (cl_method c))) d) as Hloop.
  { intros k. apply SE_bind_ext_run. intros c d1 (Hc & _ & _ & Hd1)%claim_pool_Ok.
    destruct (is_strict (cl_method c)); [|done]. apply SE_bind_ext_run. intros out d2 Hrun.
    destruct (po_escalated out) as [e|] eqn:He; [done|]. cbn.
    assert (fresh d1 ∧ grounded d1 p) as [Hf1 Hg1].
    { destruct Hd1 as [->| ->]; [done|]. split; [|done]. by apply (grows_recalc_queue d). }
    destruct (pass_settles p c d1 out d2) as [-> _]; done. }
  rewrite drain_loop_unfold. apply (Hloop (λ st, match n with
    | O | S O => bail "XX000" "did not quiesce" | S n => drain_loop now n p st end)).
Qed.

(** The drain loop of a close or a settle never loops: alone on a pool,
    draining to head is exactly one claim and one pass, so its bound of 10000
    passes is never reached. *)
Theorem drain_is_single_pass p d :
  fresh d → grounded d p → drain_pool_to_head now p d = single_drain p drain_stats_default d.
Proof. apply drain_loop_single. Qed.

(** ** Escalation *)
Lemma escalated_pass_run c d out d' e :
  run_claimed_pass now c d = (Ok out, d') → po_escalated out = Some e →
  record_escalation e d = (Ok tt, d') ∧ esc_pool_id e = cl_pool_id c ∧ esc_resolved e = false.
Proof.
  intros Hrun Hesc. unfold run_claimed_pass in Hrun.
  apply SE_bind_Ok in Hrun as (pl & d0 & [-> Hpl]%pass_plan_Ok & Hrun).
  apply SE_bind_Ok in Hrun as (esc & d0 & Hq & Hrun). injection Hq as <- <-.
  destruct (detect_closed_period_divergence _ _ d) as [e'|] eqn:Hdet.
  - apply SE_bind_Ok in Hrun as ([] & d1 & Hrec & Hrun). injection Hrun as <- <-.
    injection Hesc as <-. split; [done|]. unfold detect_closed_period_divergence in Hdet.
    destruct (frozen_pending _ _); [done|]. destruct (default _ _). by injection Hdet as <-.
  - apply pass_write_split in Hrun as (fp & d1 & d2 & _ & _ & He & _). congruence.
Qed.
Lemma existsb_app_true {A} (f : A → bool) l x : f x = true → existsb f (l ++ [x]) = true.
Proof. intros Hx. rewrite existsb_app. cbn. by rewrite Hx, !orb_true_r. Qed.

(** C39: an escalating pass writes nothing but the escalation: the ledger, the
    settlements, the layers and the work list stay as they were; and the pool is
    halted, so that no worker tick claims it and a targeted drain refuses it. *)
Theorem escalation_halts p c d out d' e :
  read_claim p d = (Ok c, d) → run_claimed_pass now c d = (Ok out, d') →
  po_escalated out = Some e →
  (∃ es, d' = set_escalation es d) ∧
  (∀ locked, next_claimable locked d' ≠ Some p) ∧
  claim_pool now p d' = (Err (Bailed "55000" "RecalcHalted"), d').
Proof.
  intros [_ Hc]%read_claim_Ok Hrun Hesc.
  destruct (escalated_pass_run c d out d' e Hrun Hesc) as (Hrec & Hpe & Hres).
  rewrite (co_pool _ _ _ Hc) in Hpe. injection Hrec as Hd'.
  assert (existsb (open_escalation p) (db_escalation d') = true) as Hopen.
  { rewrite <-Hd', Hpe. destruct (existsb (open_escalation p) (db_escalation d)) eqn:Ee; [done|].
    cbn. apply existsb_app_true. unfold open_escalation. by rewrite Hpe, Z.eqb_refl, Hres. }
  split_and!.
  - destruct (existsb _ _) in Hd'; subst d'; [exists (db_escalation d); by destruct d|eauto].
  - intros locked Hn. unfold next_claimable in Hn.
    apply fmap_Some in Hn as ([q t] & Hh & ->). apply head_Some_elem_of in Hh.
    rewrite merge_sort_Permutation in Hh. apply list_elem_of_In, List.filter_In in Hh as [_ Hh].
    cbn in *. by rewrite Hopen in Hh.
  - unfold claim_pool, mbind, SE_bind, query, gets. cbn.
    destruct (halted_period p d') eqn:Hh; [done|]. unfold halted_period in Hh.
    apply existsb_exists in Hopen as (x & Hx & Hox).
    destruct (List.find (open_escalation p) (db_escalation d')) eqn:Ef; [done|].
    pose proof (List.find_none _ _ Ef x Hx). congruence.
Qed.
End pass.

(** ** What the escalation reports *)
Lemma pending_of_Some d scanned c x d' :
  pending_of d scanned c d = (Ok (Some x), d') →
  pd_costing x = c ∧
  pd_prior_unit_cost x = default (dc_observed_unit_cost c) (prior_cost d (dc_depletion_trx_line_id c)) ∧
  pd_delta x = wsub (dc_authoritative_unit_cost c) (pd_prior_unit_cost x) * dc_qty c.
Proof.
  unfold pending_of. intros Hrun. destruct (prior_cost d _) as [pr|] eqn:Hpr; cbn in *;
    repeat case_match; try done; by injection Hrun as <- _.
Qed.

(** A depletion that was never settled is reported as settled.  When the
    re-fold gives a never-settled depletion below the closed frontier a cost
    different from its observed one, the escalation names that depletion with
    [had_settlement] set, although no settlement of it exists. *)
Theorem had_settlement_misreported p d scanned c x l :
  prior_cost d (dc_depletion_trx_line_id c) = None →
  pending_of d scanned c d = (Ok (Some x), d) → pd_delta x ≠ 0 →
  db_trx_line d !! dc_depletion_trx_line_id c = Some l →
  period_frozen (db_period d) (tl_posted_at l) = true →
  ∃ e, detect_closed_period_divergence p [x] d = Some e ∧
       esc_depletion_trx_line_id e = dc_depletion_trx_line_id c ∧
       esc_frozen_unit_cost e = dc_observed_unit_cost c ∧ esc_had_settlement e = true.
Proof.
  intros Hnone Hpend Hdelta Hl Hf. rewrite period_frozen_frontier in Hf.
  apply pending_of_Some in Hpend as (Hx & Hprior & _). rewrite Hnone in Hprior. cbn in Hprior.
  unfold detect_closed_period_divergence.
  destruct (frozen_pending d [x]) as [|[y w] rest] eqn:E.
  { exfalso. eapply (frozen_pending_nonempty d [x] x l); [by left| |done|done].
    unfold pd_id. by rewrite Hx. }
  assert (y = x) as ->.
  { destruct (elem_of_frozen_pending d [x] y w) as [Hy _]; [rewrite E; left|].
    by apply list_elem_of_singleton in Hy. }
  cbn. rewrite (proj2 (Z.eqb_neq _ _) Hdelta). cbn. eexists. split; [done|]. cbn.
  rewrite (proj2 (Z.eqb_neq _ _) Hdelta). unfold pd_id. by rewrite Hx.
Qed.

(** * Worked passes *)
#[local] Existing Instance exact_numeric.
Lemma issued_db_fresh : fresh issued_db.
Proof. solve_fresh. Qed.
Lemma issued_db_grounded : grounded issued_db 4.
Proof. intros [k Hk]. vm_compute in Hk. discriminate Hk. Qed.
(** The claim of the FIFO pool 4, never settled, with one depletion on day 12. *)
Definition claim_4 : Claim :=
  {| cl_pool_id := 4; cl_method := Fifo; cl_generation := 0; cl_settled := None; cl_floor := None |}.
Lemma claim_4_read d : cfg_pool (db_cfg d) = cfg_pool scenario_cfg → db_pool_settlement d = ∅ →
  read_claim 4 d = (Ok claim_4, d).
Proof. intros Hc Hs. unfold read_claim, mbind, SE_bind, query, gets. cbn. by rewrite Hc, Hs. Qed.

Lemma claim_4_issued : read_claim 4 issued_db = (Ok claim_4, issued_db).
Proof. apply claim_4_read; vm_compute; reflexivity. Qed.

Lemma recalc_pass_settles_witness :
  ∃ out d', run_claimed_pass (day_start 13) claim_4 issued_db = (Ok out, d') ∧
    po_settlements out = 1%nat ∧ po_requeued out = false ∧ scan_events 4 (settled_of d' 4) d' = [].
Proof.
  destruct (run_claimed_pass (day_start 13) claim_4 issued_db) as [[out|e] d'] eqn:E;
    [|vm_compute in E; discriminate E].
  assert (po_escalated out = None ∧ po_settlements out = 1%nat) as [He Hs]
    by (vm_compute in E; injection E as <- _; split; reflexivity).
  destruct (recalc_pass_settles (day_start 13) 4 claim_4 issued_db out d' issued_db_fresh
    issued_db_grounded claim_4_issued E He) as (H1 & _ & _ & H4 & _).
  exists out, d'. split_and!; done.
Defined.

Lemma drain_is_single_pass_witness :
  drain_pool_to_head (day_start 13) 4 issued_db =
  single_drain (day_start 13) 4 drain_stats_default issued_db.
Proof.
  exact (drain_is_single_pass (day_start 13) 4 issued_db issued_db_fresh issued_db_grounded).
Defined.

(** Period 1 closed while the depletion of day 12 was never settled. *)
Definition unswept_db : Db :=
  set_period (<[1 := {| per_start_date := 0; per_end_date := 30; per_state := PeriodClosed;
                        per_closed := Some (day_start 31, "controller"%string) |}]>
                (db_period issued_db)) issued_db.
Lemma claim_4_unswept : read_claim 4 unswept_db = (Ok claim_4, unswept_db).
Proof. apply claim_4_read; vm_compute; reflexivity. Qed.

Lemma escalation_halts_witness :
  ∃ out d' e, run_claimed_pass (day_start 40) claim_4 unswept_db = (Ok out, d') ∧
    po_escalated out = Some e ∧ esc_closed_period_id e = Some 1 ∧
    claim_pool (day_start 40) 4 d' = (Err (Bailed "55000" "RecalcHalted"), d').
Proof.
  destruct (run_claimed_pass (day_start 40) claim_4 unswept_db) as [[out|e] d'] eqn:E;
    [|vm_compute in E; discriminate E].
  destruct (po_escalated out) as [e|] eqn:He;
    [|vm_compute in E; injection E as <- _; vm_compute in He; discriminate He].
  destruct (escalation_halts (day_start 40) 4 claim_4 unswept_db out d' e
    claim_4_unswept E He) as (_ & _ & Hc).
  exists out, d', e. split_and!; [done|done| |done].
  vm_compute in E. injection E as <- _. vm_compute in He. injection He as <-. reflexivity.
Defined.

(** The costing of depletion 9 and its entry in the write set. *)
Definition costing_9 : DepletionCosting :=
  {| dc_depletion_trx_line_id := 9; dc_qty := 4; dc_observed_unit_cost := 12;
     dc_authoritative_unit_cost := 8; dc_uncovered_qty := 0;
     dc_draws := [{| ld_layer_trx_line_id := 3; ld_qty := 4; ld_unit_cost := 8 |}] |}.
Definition pending_9 : Pending :=
  {| pd_costing := costing_9; pd_line_type := "po_receipt_line"; pd_prior_unit_cost := 12;
     pd_delta := -16 |}.
Lemma had_settlement_misreported_witness :
  ∃ e, detect_closed_period_divergence 4 [pending_9] unswept_db = Some e ∧
       db_cost_settlement unswept_db = ∅ ∧ esc_had_settlement e = true.
Proof.
  destruct (had_settlement_misreported 4 unswept_db (physical_lines 4 unswept_db) costing_9 pending_9
    (cte_line 3 4 "po_receipt_line" None (-4) 12 (day_start 12))) as (e & Hd & _ & _ & Hh);
    [vm_compute; reflexivity|vm_compute; reflexivity|vm_compute; discriminate
    |vm_compute; reflexivity|vm_compute; reflexivity|].
  exists e. split_and!; [exact Hd|vm_compute; reflexivity|exact Hh].
Defined.
