(* ===== verification/RecalcConverge.v ===== *)
(** Convergence of the recalc engine: what a costing generation records, and why
    a second full replay over the same lines finds nothing to correct. *)
From S2P Require Import Prelude Numeric Plan Snapshot Wac Strict Db BulkWrite Cte Submit Recalc.
From S2P Require Import Close Frame Footprint Scenario RecalcLaws.

(** * The latest settlement of a depletion *)
Definition latest_in (l : list (Z * Z * CostSettlementRow)) (i : Z)
    (o : option (Z * CostSettlementRow)) : Prop :=
  match o with
  | None => ∀ g r, ((i, g), r) ∉ l
  | Some (g, r) => ((i, g), r) ∈ l ∧ ∀ g' r', ((i, g'), r') ∈ l → g' ≤ g
  end.
Lemma foldl_latest l i :
  latest_in l i (foldl (λ best kr, if kr.1.1 =? i then later_settlement best kr.1.2 kr.2 else best) None l).
Proof.
  induction l as [|[[j g] r] l IH] using rev_ind; [intros g r; apply not_elem_of_nil|].
  rewrite foldl_app. cbn. destruct (Z.eqb_spec j i) as [->|Hne].
  - destruct (foldl _ None l) as [[g0 r0]|]; cbn in *.
    + destruct IH as [Hin Hmax]. destruct (Z.ltb_spec g0 g).
      * split; [set_solver|]. intros g' r' [Hl|Heq]%elem_of_app; [apply Hmax in Hl; lia|].
        apply list_elem_of_singleton in Heq. injection Heq. lia.
      * split; [set_solver|]. intros g' r' [Hl|Heq]%elem_of_app; [by eapply Hmax|].
        apply list_elem_of_singleton in Heq. injection Heq. lia.
    + split; [set_solver|]. intros g' r' [Hl|Heq]%elem_of_app; [by apply IH in Hl|].
      apply list_elem_of_singleton in Heq. injection Heq. lia.
  - destruct (foldl _ None l) as [[g0 r0]|]; cbn in *.
    + destruct IH as [Hin Hmax]. split; [set_solver|].
      intros g' r' [Hl|Heq]%elem_of_app; [by eapply Hmax|].
      apply list_elem_of_singleton in Heq. congruence.
    + intros g' r' [Hl|Heq]%elem_of_app; [by apply IH in Hl|].
      apply list_elem_of_singleton in Heq. congruence.
Qed.
Lemma latest_settlement_spec d i :
  match latest_settlement d i with
  | None => ∀ g, db_cost_settlement d !! (i, g) = None
  | Some (g, r) => db_cost_settlement d !! (i, g) = Some r ∧
      ∀ g' r', db_cost_settlement d !! (i, g') = Some r' → g' ≤ g
  end.
Proof.
  unfold latest_settlement. pose proof (foldl_latest (map_to_list (db_cost_settlement d)) i) as Hl.
  destruct (foldl _ _ _) as [[g r]|]; cbn in Hl.
  - destruct Hl as [Hin Hmax]. rewrite elem_of_map_to_list in Hin. split; [done|].
    intros g' r' Hg'. eapply Hmax. by apply elem_of_map_to_list.
  - intros g. destruct (db_cost_settlement d !! (i, g)) as [r|] eqn:E; [|done].
    exfalso. eapply Hl. by apply elem_of_map_to_list.
Qed.
(** The prior cost is the cost of the greatest generation. *)
Lemma prior_cost_greatest d i g r :
  db_cost_settlement d !! (i, g) = Some r →
  (∀ g' r', db_cost_settlement d !! (i, g') = Some r' → g' ≤ g) →
  prior_cost d i = Some (cst_authoritative_unit_cost r).
Proof.
  intros Hg Hmax. unfold prior_cost. pose proof (latest_settlement_spec d i) as Hs.
  destruct (latest_settlement d i) as [[g0 r0]|]; [|by rewrite Hs in Hg].
  destruct Hs as [H0 Hmax0]. apply Hmax in H0 as Hle. apply Hmax0 in Hg as Hge.
  assert (g0 = g) as -> by lia. cbn. congruence.
Qed.
Lemma prior_cost_ext d d' i :
  (∀ g, db_cost_settlement d' !! (i, g) = db_cost_settlement d !! (i, g)) →
  prior_cost d' i = prior_cost d i.
Proof.
  intros Heq. unfold prior_cost at 2. pose proof (latest_settlement_spec d i) as Hs.
  destruct (latest_settlement d i) as [[g r]|].
  - destruct Hs as [H0 Hmax]. rewrite <-Heq in H0. apply (prior_cost_greatest d' i g r H0).
    intros g' r' Hg'. rewrite Heq in Hg'. by eapply Hmax.
  - unfold prior_cost. pose proof (latest_settlement_spec d' i) as Hs'.
    destruct (latest_settlement d' i) as [[g r]|]; [|done].
    destruct Hs' as [H0 _]. by rewrite Heq, Hs in H0.
Qed.

(** * What writing a generation records *)
Section generation_writes.
Context `{PgNumeric} (now : Timestamp).

Lemma insert_cost_settlement_Ok i g r d u d' :
  insert_cost_settlement i g r d = (Ok u, d') →
  db_cost_settlement d !! (i, g) = None ∧
  db_cost_settlement d' = <[(i, g) := r]> (db_cost_settlement d).
Proof.
  unfold insert_cost_settlement. intros Hrun.
  apply SE_bind_Ok in Hrun as (u' & d1 & Hg & Hrun). rewrite period_guard_run in Hg.
  injection Hg as _ <-. apply SE_bind_Ok in Hrun as (rows & d2 & [= <- <-] & Hrun).
  apply ensure_Ok in Hrun as [Hn%bool_decide_eq_true Hrun]. by injection Hrun as _ <-.
Qed.

(** Settlements of generation [g] for the pending entries [k], over [d0]. *)
Definition recorded (g : Z) (d0 : Db) (k : list Pending) (d : Db) : Prop :=
  (∀ x, x ∈ k → ∃ posting, db_cost_settlement d !! (pd_id x, g) = Some (settlement_row x posting)) ∧
  (∀ i g', g' ≠ g ∨ i ∉ map pd_id k →
     db_cost_settlement d !! (i, g') = db_cost_settlement d0 !! (i, g')).
Lemma recorded_nil g d : recorded g d [] d.
Proof. split; [by intros x ?%elem_of_nil|done]. Qed.
Lemma recorded_eq g d0 k d d' :
  db_cost_settlement d' = db_cost_settlement d → recorded g d0 k d → recorded g d0 k d'.
Proof. unfold recorded. by intros ->. Qed.
Lemma recorded_snoc g d0 k x posting d d' :
  recorded g d0 k d → db_cost_settlement d !! (pd_id x, g) = None →
  db_cost_settlement d' = <[(pd_id x, g) := settlement_row x posting]> (db_cost_settlement d) →
  recorded g d0 (k ++ [x]) d'.
Proof.
  intros [Hin Hout] Hnone Heq. unfold recorded. rewrite Heq. split.
  - intros y [Hy| ->%list_elem_of_singleton]%elem_of_app.
    + destruct (Hin y Hy) as [po Hpo]. exists po. rewrite lookup_insert_ne; [done|].
      intros [=]. congruence.
    + exists posting. by rewrite lookup_insert_eq.
  - intros i g' Hi. rewrite map_app in Hi. rewrite lookup_insert_ne; [apply Hout|].
    + destruct Hi as [?|Hi]; [by left|right]. set_solver.
    + intros [= <- <-]. destruct Hi as [?|Hi]; [done|]. apply Hi. cbn. set_solver.
Qed.

Lemma iterM_recorded g d0 (f : Pending → Tx unit) k l d u d' :
  (∀ x d1 u1 d2, f x d1 = (Ok u1, d2) → ∃ posting,
     db_cost_settlement d1 !! (pd_id x, g) = None ∧
     db_cost_settlement d2 = <[(pd_id x, g) := settlement_row x posting]> (db_cost_settlement d1)) →
  recorded g d0 k d → iterM f l d = (Ok u, d') → recorded g d0 (k ++ l) d'.
Proof.
  intros Hf Hk Hrun. destruct u.
  refine (iterM_ind (λ l d, recorded g d0 (k ++ l) d) f l d d' _ _ Hrun).
  - by rewrite app_nil_r.
  - intros l1 x d1 d2 _ Hl1 Hx. rewrite app_assoc.
    destruct (Hf _ _ _ _ Hx) as (po & Hn & Heq). by eapply recorded_snoc.
Qed.
Lemma keeps_settlements_base : BaseFrame (keeps_proj db_cost_settlement).
Proof. by apply keeps_proj_base. Qed.
#[local] Existing Instance keeps_settlements_base.

Lemma write_adjustment_settles p g trx_id a x d u d' :
  write_adjustment now p g trx_id a x d = (Ok u, d') → ∃ posting,
    db_cost_settlement d !! (pd_id x, g) = None ∧
    db_cost_settlement d' = <[(pd_id x, g) := settlement_row x posting]> (db_cost_settlement d).
Proof.
  unfold write_adjustment. intros Hrun.
  apply SE_bind_Ok in Hrun as (am & d1 & Ham & Hrun).
  assert (d1 = d) as -> by (destruct (i64_try_from _); by injection Ham).
  apply SE_bind_Ok in Hrun as (pr & d1 & Hpr & Hrun).
  assert (d1 = d) as -> by (unfold pair_for_text in Hpr; destruct (decode_line_type _); by injection Hpr).
  destruct pr as [rd rc]. destruct (if 0 <? pd_delta x then _ else _) as [debit credit].
  apply SE_bind_Ok in Hrun as (po & d1 & Hpo & [Hn Heq]%insert_cost_settlement_Ok).
  assert (db_cost_settlement d1 = db_cost_settlement d) as Hkeep.
  { unfold adjustment_line in Hpo. apply SE_bind_Ok in Hpo as (id & d2 & Hl & Hpo).
    apply (keeps_proj_line db_cost_settlement) in Hl; [|done..].
    apply (keeps_proj_posting db_cost_settlement) in Hpo; [|done..].
    unfold keeps_proj in *. congruence. }
  rewrite Hkeep in *. eauto.
Qed.

Lemma write_generation_records p g pending d n d' :
  write_generation now p g pending d = (Ok n, d') → recorded g d pending d'.
Proof.
  unfold write_generation. intros Hrun.
  set (adjusted := List.filter _ _) in Hrun. set (zero := List.filter _ _) in Hrun.
  apply SE_bind_Ok in Hrun as (acc & d1 & Hacc & Hrun).
  assert (db_cost_settlement d1 = db_cost_settlement d ∧ (acc = None → adjusted = []))
    as [Hk1 Hnone].
  { destruct adjusted as [|y l]; [by injection Hacc as <- <-|].
    apply SE_bind_Ok in Hacc as (a & d2 & Ha & Hacc). injection Hacc as <- <-. split; [|done].
    unfold resolve_accounts in Ha. apply SE_bind_Ok in Ha as (x & d3 & [= <- <-] & Ha). cbn in Ha.
    repeat case_match; try done. by injection Ha as _ <-. }
  apply SE_bind_Ok in Hrun as (u & d2 & Hcons & Hrun).
  assert (db_cost_settlement d2 = db_cost_settlement d) as Hk2.
  { rewrite <-Hk1. refine (step_ok_iterM (keeps_proj db_cost_settlement) _ _ _ _ _ _ Hcons).
    intros xd. unfold insert_consumption. frame; by apply step_ok_exec. }
  apply SE_bind_Ok in Hrun as (u' & d3 & Hadj & Hrun).
  assert (recorded g d adjusted d3) as Hrec.
  { destruct acc as [a|].
    - apply SE_bind_Ok in Hadj as (t & d4 & Ht & Hadj). eapply (iterM_recorded g d _ []); [| |exact Hadj].
      + intros x ??? Hx. by eapply write_adjustment_settles.
      + eapply recorded_eq; [|apply recorded_nil]. rewrite <-Hk2.
        unfold adjustment_trx in Ht. apply SE_bind_Ok in Ht as (sid & d5 & Hs & Ht).
        apply (keeps_proj_trx db_cost_settlement) in Ht; [|done..].
        apply (keeps_proj_nextval db_cost_settlement) in Hs; [|done..].
        unfold keeps_proj in *. congruence.
    - injection Hadj as _ <-. rewrite Hnone by done. eapply recorded_eq; [exact Hk2|apply recorded_nil]. }
  apply SE_bind_Ok in Hrun as (u'' & d4 & Hzero & Hrun). injection Hrun as _ <-.
  eapply (iterM_recorded g d _ adjusted) in Hzero; [| |exact Hrec];
    [|intros x ??? [Hn Heq]%insert_cost_settlement_Ok; eauto].
  destruct Hzero as [Hin Hout]. split.
  - intros x Hx. apply Hin. unfold adjusted, zero. apply elem_of_app.
    rewrite !list_elem_of_In, !List.filter_In, <-!list_elem_of_In.
    destruct (pd_delta x =? 0); [right|left]; done.
  - intros i g' Hi. apply Hout. destruct Hi as [?|Hi]; [by left|right]. intros Hin'. apply Hi.
    rewrite map_app in Hin'. unfold adjusted, zero in Hin'.
    apply elem_of_app in Hin' as [Hx|Hx]; apply list_elem_of_fmap in Hx as (x & -> & Hx);
      apply list_elem_of_In, List.filter_In in Hx as [Hx _];
      apply list_elem_of_fmap; exists x; rewrite list_elem_of_In; done.
Qed.

(** The rest of a pass records no settlement. *)
Lemma pass_write_records c pl d out d' :
  pass_write now c pl d = (Ok out, d') → recorded (cl_generation c + 1) d (pp_pending pl) d'.
Proof.
  unfold pass_write. intros Hrun.
  apply SE_bind_Ok in Hrun as (adj & d1 & H1 & Hrun).
  assert (recorded (cl_generation c + 1) d (pp_pending pl) d1) as Hrec.
  { case_bool_decide as Hlen; cbn in H1.
    - apply nil_length_inv in Hlen. rewrite Hlen. injection H1 as _ <-. apply recorded_nil.
    - by eapply write_generation_records. }
  eapply recorded_eq; [|exact Hrec]. clear H1 Hrec. revert Hrun.
  match goal with |- ?m d1 = _ → _ => assert (step_ok (keeps_proj db_cost_settlement) m) as Hk end.
  { unfold settle, decide_queue, reset_backlog, drop_queue_row, lower_floor.
    pose proof (materialize_layers_frame (keeps_proj db_cost_settlement)) as Hm.
    pose proof (reconcile_frame (keeps_proj db_cost_settlement)) as Hr.
    frame; try apply Hm; try apply Hr; apply step_ok_exec; intros; repeat case_match; done. }
  intros Hrun. by eapply Hk.
Qed.
End generation_writes.

(** * The costings of a replay *)
Lemma fold_costing_ids b st events st' :
  foldM (fold_event b) st events = Ok st' →
  map dc_depletion_trx_line_id st'.1 =
  map dc_depletion_trx_line_id st.1 ++
    map se_trx_line_id (List.filter (λ e, negb (0 <? se_qty e)) events).
Proof.
  revert st. induction events as [|e events IH]; intros [cs ls] Hrun; cbn in Hrun.
  - injection Hrun as <-. by rewrite app_nil_r.
  - apply Res_bind_Ok in Hrun as (st1 & Hev & Hrun). apply IH in Hrun as ->.
    unfold fold_event in Hev. cbn. destruct (0 <? se_qty e); cbn.
    + by injection Hev as <-.
    + apply Res_bind_Ok in Hev as (a & _ & Hev). injection Hev as <-. cbn.
      rewrite map_app. cbn. by rewrite <-app_assoc.
Qed.
Lemma scan_ids_NoDup p k d : NoDup (map fst (scan_events p k d)).
Proof.
  unfold scan_events. apply NoDup_fmap_2_strong; [|apply filter_NoDup, physical_lines_NoDup].
  intros [i l] [j l'] Hi Hj Heq. cbn in Heq. subst j.
  apply list_elem_of_In, List.filter_In in Hi as [Hi _], Hj as [Hj _].
  apply list_elem_of_In, elem_of_physical_lines in Hi as [Hi _], Hj as [Hj _]. congruence.
Qed.
Lemma costing_ids_NoDup d c pl :
  plan_of d c pl → NoDup (map dc_depletion_trx_line_id (fo_costings (pp_fold pl))).
Proof.
  intros Hpl. pose proof (pn_fold _ _ _ Hpl) as Hfold. unfold strict_fold in Hfold.
  apply Res_bind_Ok in Hfold as (st & Hst & Hfold). injection Hfold as Hout. rewrite <-Hout. cbn.
  apply fold_costing_ids in Hst as ->. cbn.
  apply (sublist_NoDup _ (map fst (pass_scan c d))); [apply scan_ids_NoDup|].
  unfold pass_scan. generalize (scan_events (cl_pool_id c) (pass_from c) d). clear.
  induction l as [|x l IH]; cbn; [done|]. destruct (0 <? tl_qty x.2); cbn; by constructor.
Qed.

Lemma pending_of_None d scanned c d' :
  pending_of d scanned c d = (Ok None, d') →
  prior_cost d (dc_depletion_trx_line_id c) = Some (dc_authoritative_unit_cost c).
Proof.
  unfold pending_of. intros Hrun. destruct (prior_cost d _) as [pr|] eqn:Hpr; cbn in *.
  - destruct (Z.eqb_spec (dc_authoritative_unit_cost c) pr) as [->|]; [done|].
    cbn in Hrun. by destruct (List.find _ _).
  - by destruct (List.find _ _).
Qed.
Lemma pending_of_settled d scanned c d0 :
  prior_cost d (dc_depletion_trx_line_id c) = Some (dc_authoritative_unit_cost c) →
  pending_of d scanned c d0 = (Ok None, d0).
Proof. unfold pending_of. intros ->. by rewrite Z.eqb_refl. Qed.

(** No settlement of the scanned lines is ahead of the pool's generation. *)
Definition generations_behind (d : Db) (c : Claim) : Prop :=
  ∀ i g r, i ∈ map fst (pass_scan c d) → db_cost_settlement d !! (i, g) = Some r →
    g ≤ cl_generation c.

(** Once its write set is recorded, every replayed depletion has its
    authoritative cost as its prior cost. *)
Lemma recorded_priors d c pl d' co :
  plan_of d c pl → generations_behind d c → recorded (cl_generation c + 1) d (pp_pending pl) d' →
  co ∈ fo_costings (pp_fold pl) →
  prior_cost d' (dc_depletion_trx_line_id co) = Some (dc_authoritative_unit_cost co).
Proof.
  intros Hpl Hgen [Hin Hout] Hco. destruct (pn_pending _ _ _ Hpl) as (os & Hpend & Hos).
  destruct (list_elem_of_lookup_1 _ _ Hco) as [n Hn].
  destruct (Forall2_lookup_l _ _ _ _ _ Hos Hn) as (o & Ho & Hrun).
  assert (dc_depletion_trx_line_id co ∈ map fst (pass_scan c d)) as Hscan.
  { pose proof (pn_fold _ _ _ Hpl) as Hfold. unfold strict_fold in Hfold.
    apply Res_bind_Ok in Hfold as (st & Hst & Hfold). injection Hfold as Hf. rewrite <-Hf in Hco.
    apply fold_costing_ids in Hst. cbn in *.
    assert (dc_depletion_trx_line_id co ∈ map dc_depletion_trx_line_id st.1) as Hm
      by (apply list_elem_of_fmap; eauto).
    rewrite Hst in Hm. apply list_elem_of_fmap in Hm as (e & -> & He).
    apply list_elem_of_In, List.filter_In in He as [He _].
    apply list_elem_of_In, list_elem_of_fmap in He as (il & -> & Hil).
    apply list_elem_of_fmap. eauto. }
  destruct o as [x|].
  - destruct (pending_of_Some _ _ _ _ _ Hrun) as (Hx & _).
    assert (x ∈ pp_pending pl) as Hxin.
    { rewrite Hpend. apply list_elem_of_omap. exists (Some x). split; [|done].
      by eapply list_elem_of_lookup_2. }
    destruct (Hin x Hxin) as [po Hpo]. unfold pd_id in Hpo. rewrite Hx in Hpo.
    erewrite prior_cost_greatest; [|exact Hpo|]; [cbn; by rewrite Hx|].
    intros g' r' Hg'. destruct (decide (g' = cl_generation c + 1)) as [->|Hne]; [lia|].
    rewrite Hout in Hg' by (by left). specialize (Hgen _ _ _ Hscan Hg'). lia.
  - apply pending_of_None in Hrun as Hprior. rewrite <-Hprior. apply prior_cost_ext.
    intros g. apply Hout. right. intros Hm. rewrite Hpend in Hm.
    apply list_elem_of_fmap in Hm as (x & Hid & Hx).
    apply list_elem_of_omap in Hx as (o & Hox & Heq). cbn in Heq. subst o.
    apply list_elem_of_lookup_1 in Hox as [k Hk].
    destruct (Forall2_lookup_r _ _ _ _ _ Hos Hk) as (co' & Hco' & Hrun').
    destruct (pending_of_Some _ _ _ _ _ Hrun') as (Hx' & _).
    assert (k = n) as ->; [|congruence].
    eapply (NoDup_lookup (map dc_depletion_trx_line_id (fo_costings (pp_fold pl))) k n
      (dc_depletion_trx_line_id co)); [by eapply costing_ids_NoDup| |]; rewrite list_lookup_fmap.
    + rewrite Hco'. cbn. unfold pd_id in Hid. by rewrite Hid, Hx'.
    + by rewrite Hn.
Qed.

(** * Replays converge *)
Lemma mapM_settled d scanned cs d0 :
  (∀ co, co ∈ cs → prior_cost d (dc_depletion_trx_line_id co) = Some (dc_authoritative_unit_cost co)) →
  mapM (pending_of d scanned) cs d0 = (Ok (map (λ _, None) cs), d0).
Proof.
  induction cs as [|co cs IH]; intros Hall; [done|].
  change ((y ← pending_of d scanned co; k ← mapM (pending_of d scanned) cs; mret (y :: k)) d0
          = (Ok (None :: map (λ _, None) cs), d0)).
  erewrite SE_bind_run by (apply pending_of_settled, Hall; by left).
  erewrite SE_bind_run; [done|]. apply IH. intros co' Hco'. apply Hall. by right.
Qed.
Lemma frozen_pending_nil d : frozen_pending d [] = [].
Proof.
  destruct (frozen_pending d []) as [|[x w] l] eqn:E; [done|].
  destruct (elem_of_frozen_pending d [] x w) as [Hx _]; [rewrite E; left|]. by apply elem_of_nil in Hx.
Qed.
Lemma omap_None {A B} (l : list A) : omap id (map (λ _, @None B) l) = [].
Proof. induction l; done. Qed.

Lemma strict_fold_of_Ok m opening events out d :
  strict_fold (newest_first m) opening events = Ok out → strict_fold_of m opening events d = (Ok out, d).
Proof.
  unfold strict_fold_of, fifo_strict_fold, lifo_strict_fold. destruct m; cbn; by intros ->.
Qed.

Section converge.
Context `{PgNumeric} (now : Timestamp).

(** C5: full replays converge.  After a full replay of a pool that did not
    escalate, any later full replay over the same lines (a lowered floor, a
    reseed) re-derives the same layers and costs and finds nothing to correct:
    its write set is empty, so it writes no generation and cannot escalate. *)
Theorem replay_converges c d out d' c' :
  fresh d → full_replay c = true → generations_behind d c →
  run_claimed_pass now c d = (Ok out, d') → po_escalated out = None →
  cl_pool_id c' = cl_pool_id c → cl_method c' = cl_method c → full_replay c' = true →
  ∃ pl', pass_plan c' d' = (Ok pl', d') ∧ pp_pending pl' = [] ∧
    detect_closed_period_divergence (cl_pool_id c') (pp_pending pl') d' = None ∧
    strict_fold (newest_first (cl_method c)) [] (map strict_event (physical_lines (cl_pool_id c) d))
      = Ok (pp_fold pl').
Proof.
  intros Hfresh Hfull Hgen Hrun Hesc Hp Hm Hfull'.
  pose proof (run_claimed_pass_frame same_physical now c _ _ _ Hrun) as Hsame.
  pose proof (physical_lines_ext (cl_pool_id c) _ _ (sp_rows _ _ Hsame Hfresh)) as HL.
  unfold run_claimed_pass in Hrun.
  apply SE_bind_Ok in Hrun as (pl & d0 & [-> Hpl]%pass_plan_Ok & Hrun).
  apply SE_bind_Ok in Hrun as (esc & d0 & Hq & Hrun). injection Hq as <- <-.
  destruct (detect_closed_period_divergence _ _ d) as [e|].
  { apply SE_bind_Ok in Hrun as (u & d1 & _ & Hrun). injection Hrun as <- <-. done. }
  apply pass_write_records in Hrun as Hrec.
  pose proof (λ co, recorded_priors d c pl d' co Hpl Hgen Hrec) as Hpriors.
  pose proof (pn_fold _ _ _ Hpl) as Hfold.
  unfold pass_opening, pass_scan, pass_from, scan_from in Hfold. rewrite Hfull in Hfold.
  unfold scan_events in Hfold. cbn [after_key] in Hfold. rewrite filter_true in Hfold.
  set (scanned := physical_lines (cl_pool_id c) d) in *.
  exists {| pp_full_replay := true; pp_scanned := scanned; pp_fold := pp_fold pl; pp_pending := [] |}.
  split_and!; [|done|apply detect_None, frozen_pending_nil|done].
  unfold pass_plan. fold (full_replay c'). rewrite Hfull', Hp, Hm.
  erewrite SE_bind_run by done. cbn [id scan_from]. unfold scan_events. rewrite HL.
  cbn [after_key]. rewrite filter_true. fold scanned.
  erewrite SE_bind_run by (apply strict_fold_of_Ok, Hfold).
  erewrite SE_bind_run by (by apply mapM_settled). cbn. by rewrite omap_None.
Qed.
End converge.

#[local] Existing Instance exact_numeric.
Lemma replay_converges_witness :
  ∃ out d' pl', run_claimed_pass (day_start 13) claim_4 issued_db = (Ok out, d') ∧
    po_settlements out = 1%nat ∧ pass_plan claim_4 d' = (Ok pl', d') ∧ pp_pending pl' = [].
Proof.
  destruct (run_claimed_pass (day_start 13) claim_4 issued_db) as [[out|e] d'] eqn:E;
    [|vm_compute in E; discriminate E].
  assert (po_escalated out = None ∧ po_settlements out = 1%nat) as [He Hs]
    by (vm_compute in E; injection E as <- _; split; reflexivity).
  assert (generations_behind issued_db claim_4) as Hgen
    by (intros i g r _ Hr; vm_compute in Hr; discriminate Hr).
  destruct (replay_converges (day_start 13) claim_4 issued_db out d' claim_4 issued_db_fresh
    eq_refl Hgen E He eq_refl eq_refl eq_refl) as (pl' & Hpl' & Hpend & _).
  exists out, d', pl'. split_and!; done.
Defined.
