(* ===== verification/WorkList.v ===== *)
(** The work list of the recalc engine: a recost floor always comes with a queue
    row, so that a pass will pick it up, and settlement rows belong to strict
    pools with lines to replay.  Kept by every operation. *)
From S2P Require Import Prelude Numeric Plan Snapshot Wac Strict Db BulkWrite Cte Submit Recalc.
From S2P Require Import Close PgOutput Feed Frame Footprint RecalcLaws.

Record row_sound (d : Db) (p : Z) (ps : PoolSettlementRow) : Prop := {
  rs_strict : ∃ row, cfg_pool (db_cfg d) !! p = Some row ∧ is_strict (pool_method row) = true;
  rs_lines : physical_lines p d ≠ [];
  rs_queued : is_Some (pse_recost_floor ps) → is_Some (db_recalc_queue d !! p);
}.
Record work_list (d : Db) : Prop := {
  wl_fresh : fresh d;
  wl_rows p ps : db_pool_settlement d !! p = Some ps → row_sound d p ps;
}.

Lemma lines_grow d d' p :
  grows d d' → fresh d → physical_lines p d ≠ [] → physical_lines p d' ≠ [].
Proof.
  intros [_ _ _ Ha] Hf Hne. destruct (Ha Hf) as [_ A].
  destruct (physical_lines p d) as [|[i l] rest] eqn:E; [done|].
  assert ((i, l) ∈ physical_lines p d) as Hin by (rewrite E; left).
  apply elem_of_physical_lines in Hin as (Hi & Hp & Hl). intros Hnil.
  assert ((i, l) ∈ physical_lines p d') as Hin'; [|rewrite Hnil in Hin'; by apply elem_of_nil in Hin'].
  apply elem_of_physical_lines. split; [|done]. eapply lookup_weaken; [exact Hi|apply A].
Qed.

(** Rows may be added or changed as long as the new ones are sound. *)
Lemma work_list_step d d' :
  grows d d' → work_list d →
  (∀ p ps, db_pool_settlement d' !! p = Some ps →
     (db_pool_settlement d !! p = None →
        (∃ row, cfg_pool (db_cfg d) !! p = Some row ∧ is_strict (pool_method row) = true) ∧
        physical_lines p d ≠ []) ∧
     (is_Some (pse_recost_floor ps) → is_Some (db_recalc_queue d' !! p))) →
  work_list d'.
Proof.
  intros Hg [Hf Hrows] Hnew. split; [by apply (gw_appended _ _ Hg)|].
  intros p ps Hps. destruct (Hnew _ _ Hps) as [Hadd Hq].
  assert ((∃ row, cfg_pool (db_cfg d) !! p = Some row ∧ is_strict (pool_method row) = true) ∧
          physical_lines p d ≠ []) as [Hs Hl].
  { destruct (db_pool_settlement d !! p) as [ps0|] eqn:E0; [|auto].
    destruct (Hrows _ _ E0). auto. }
  split; [by rewrite (gw_cfg _ _ Hg)|by eapply lines_grow|done].
Qed.
Lemma work_list_same d d' : grows d d' → same_dirty d d' → work_list d → work_list d'.
Proof.
  intros Hg [= Hps Hq] Hw. apply (work_list_step d); [done|done|].
  intros p ps Hp. rewrite Hps in Hp. rewrite Hp, Hq. split; [done|]. by eapply wl_rows.
Qed.
Lemma work_list_rollback d d' : grows d d' → work_list d → work_list (rollback d d').
Proof. intros Hg. apply work_list_same; [by apply grows_rollback|done]. Qed.

(** * Successful runs that keep the work list *)
Definition keeps_work {A} (m : Tx A) : Prop :=
  ∀ d a d', work_list d → m d = (Ok a, d') → work_list d'.
Lemma keeps_ret {A} (a : A) : keeps_work (mret a).
Proof. intros d x d' Hw [= _ <-]. done. Qed.
Lemma keeps_throw {A} e : keeps_work (throw e : Tx A).
Proof. by intros d x d' Hw [=]. Qed.
Lemma keeps_bind {A B} (m : Tx A) (f : A → Tx B) :
  keeps_work m → (∀ a, keeps_work (f a)) → keeps_work (m ≫= f).
Proof. intros Hm Hf d x d' Hw (a & d1 & H1 & H2)%SE_bind_Ok. eapply Hf, H2. by eapply Hm. Qed.
Lemma keeps_steps {A} (m : Tx A) : step_ok grows m → step_ok same_dirty m → keeps_work m.
Proof. intros Hg Hs d a d' Hw Hrun. eapply work_list_same; [by eapply Hg|by eapply Hs|done]. Qed.
Lemma keeps_query {A} (f : Db → A) : keeps_work (query f).
Proof. intros d x d' Hw [= _ <-]. done. Qed.

(** A whole transaction keeps the work list, committed or aborted. *)
Lemma keeps_transaction {A} (m : Tx A) d r d' :
  step_ok grows m → keeps_work m → work_list d → transaction m d = (r, d') → work_list d'.
Proof.
  intros Hg Hm Hw. unfold transaction. destruct (m d) as [[a|e] d1] eqn:E; intros [= _ <-].
  - by eapply Hm.
  - eapply work_list_rollback; [by eapply Hg|done].
Qed.

Section engine_work.
Context `{PgNumeric} (now : Timestamp).

Lemma work_list_grounded d p : work_list d → grounded d p.
Proof.
  intros Hw [k Hk]. unfold floor_of in Hk.
  destruct (db_pool_settlement d !! p) as [ps|] eqn:E; [|done]. by eapply rs_lines, wl_rows.
Qed.

(** One pass on a queued strict pool. *)
Lemma pass_keeps_work p c d out d' :
  work_list d → claim_of d p c → is_strict (cl_method c) = true → is_Some (db_recalc_queue d !! p) →
  run_claimed_pass now c d = (Ok out, d') → work_list d'.
Proof.
  intros Hw Hc Hs Hq Hrun. pose proof (run_claimed_pass_frame grows now c _ _ _ Hrun) as Hg.
  destruct (po_escalated out) as [e|] eqn:He.
  - destruct (escalated_pass_run now c d out d' e Hrun He) as (Hrec & _). injection Hrec as Hd'.
    apply (work_list_same d); [done| |done]. rewrite <-Hd'. by destruct (existsb _ _).
  - destruct (pass_settles now p c d out d') as (_ & Hqd & Hfl & _ & _ & Hot & Hex);
      [apply Hw|done|by apply work_list_grounded|done|done|].
    apply (work_list_step d); [done|done|]. intros q ps Hps. destruct (decide (q = p)) as [->|Hne].
    + split.
      * intros Hnone. destruct Hex as [[x Hx]|Hl]; [by rewrite Hps|congruence|].
        destruct (co_row _ _ _ Hc) as (row & Hrow & Hm). rewrite Hm in Hs. eauto.
      * unfold floor_of in Hfl. rewrite Hps in Hfl. cbn in Hfl. rewrite Hfl. by intros [? ?].
    + rewrite Hot in Hps by done. split; [congruence|]. rewrite Hqd, lookup_delete_ne by done.
      by eapply rs_queued, wl_rows.
Qed.

(** Dropping the mark of a pool that is not costed by the engine. *)
Lemma drop_keeps_work p c d :
  work_list d → claim_of d p c → is_strict (cl_method c) = false →
  work_list (set_recalc_queue (delete p (db_recalc_queue d)) d).
Proof.
  intros Hw Hc Hs. apply (work_list_step d); [apply grows_recalc_queue|done|]. cbn.
  intros q ps Hps. split; [congruence|]. destruct (wl_rows _ Hw _ _ Hps) as [(row & Hrow & Hst) _ Hq].
  destruct (decide (q = p)) as [->|Hne]; [|by rewrite lookup_delete_ne].
  destruct (co_row _ _ _ Hc) as (row' & Hrow' & Hm). congruence.
Qed.

Lemma ledger_recalc_step_work locked : keeps_work (ledger_recalc_step now locked).
Proof.
  intros d r d' Hw Hrun. unfold ledger_recalc_step, claim_next in Hrun.
  apply SE_bind_Ok in Hrun as (oc & d1 & Hcl & Hrun).
  apply SE_bind_Ok in Hcl as (next & d2 & Hn & Hcl). injection Hn as <- <-.
  destruct (next_claimable locked d) as [p|] eqn:Hnext.
  2:{ injection Hcl as <- <-. by injection Hrun as _ <-. }
  apply SE_bind_Ok in Hcl as (c & d2 & [-> Hc]%read_claim_Ok & Hcl). injection Hcl as <- <-.
  destruct (is_strict (cl_method c)) eqn:Hs; apply SE_bind_Ok in Hrun as (x & d1 & Hx & Hrun);
    injection Hrun as _ <-.
  - eapply pass_keeps_work; [exact Hw|exact Hc|done| |exact Hx]. unfold next_claimable in Hnext.
    apply fmap_Some in Hnext as ([q t] & Hh & ->). apply head_Some_elem_of in Hh.
    rewrite merge_sort_Permutation in Hh. apply list_elem_of_In, List.filter_In in Hh as [Hh _].
    apply list_elem_of_In, elem_of_map_to_list in Hh. eauto.
  - injection Hx as _ <-. rewrite (co_pool _ _ _ Hc). by eapply drop_keeps_work.
Qed.

Lemma claim_pool_work p : keeps_work (claim_pool now p).
Proof.
  intros d c d' Hw (_ & _ & _ & [->| ->])%claim_pool_Ok; [done|].
  apply (work_list_step d); [apply grows_recalc_queue|done|]. cbn.
  intros q ps Hps. split; [congruence|]. intros Hf.
  destruct (decide (q = p)) as [->|Hne]; [by rewrite lookup_insert_eq|].
  rewrite lookup_insert_ne by done. revert Hf. by eapply rs_queued, wl_rows.
Qed.
Lemma drain_pool_work p : keeps_work (drain_pool_to_head now p).
Proof.
  intros d r d' Hw Hrun. unfold drain_pool_to_head in Hrun.
  rewrite drain_loop_single in Hrun; [|apply Hw|by apply work_list_grounded].
  apply SE_bind_Ok in Hrun as (c & d1 & Hcl & Hrun). pose proof (claim_pool_work p _ _ _ Hw Hcl) as Hw1.
  apply claim_pool_Ok in Hcl as (Hc & Hq & _).
  destruct (is_strict (cl_method c)) eqn:Hs; apply SE_bind_Ok in Hrun as (x & d2 & Hx & Hrun);
    injection Hrun as _ <-.
  - by eapply pass_keeps_work.
  - injection Hx as _ <-. by eapply drop_keeps_work.
Qed.
Lemma ledger_settle_pool_work p : keeps_work (ledger_settle_pool now p).
Proof. apply keeps_bind; [apply drain_pool_work|]. intros. apply keeps_ret. Qed.

(** * The close sweep *)
Lemma apply_residue_work p : keeps_work (apply_residue p).
Proof.
  apply keeps_steps; unfold apply_residue, aggregate_row, state_upsert; frame.
Qed.
Lemma post_residue_work p residue trx : keeps_work (post_residue_gl now p residue trx).
Proof.
  apply keeps_steps; unfold post_residue_gl, resolve_accounts;
    pose proof (adjustment_trx_frame grows now); pose proof (adjustment_line_frame grows now);
    pose proof (adjustment_trx_frame same_dirty now);
    pose proof (adjustment_line_frame same_dirty now); frame; done.
Qed.
Ltac work_step :=
  match goal with
  | |- keeps_work (mret _) => apply keeps_ret
  | |- keeps_work (throw _) => apply keeps_throw
  | |- keeps_work (bail _ _) => apply keeps_throw
  | |- keeps_work (query _) => apply keeps_query
  | |- keeps_work (_ ≫= _) => apply keeps_bind; [|intros ?]
  | |- keeps_work (if ?b then _ else _) => destruct b
  | |- keeps_work (match ?x with _ => _ end) => destruct x
  end.
Lemma sweep_pool_work p trx : keeps_work (sweep_pool now p trx).
Proof.
  unfold sweep_pool, lock_aggregate.
  repeat first [work_step | apply claim_pool_work | apply drain_pool_work | apply apply_residue_work
               | apply post_residue_work].
Qed.
Lemma sweep_pools_work ps trx swept : keeps_work (sweep_pools now ps trx swept).
Proof.
  revert trx swept. induction ps as [|p ps IH]; intros trx swept; cbn.
  - apply keeps_ret.
  - apply keeps_bind; [apply sweep_pool_work|]. intros r. apply IH.
Qed.
Lemma gate_pools_work end_date : keeps_work (gate_pools end_date).
Proof. apply keeps_steps; unfold gate_pools; frame. Qed.
Lemma recheck_work n rounds end_date trx swept : keeps_work (recheck now n rounds end_date trx swept).
Proof.
  revert rounds trx swept. induction n as [|n IH]; intros rounds trx swept; cbn [recheck];
    (apply keeps_bind; [apply gate_pools_work|]); intros gate; destruct (stragglers gate swept);
    try apply keeps_ret; try apply keeps_throw.
  apply keeps_bind; [apply sweep_pools_work|]. intros r. apply IH.
Qed.
Lemma mark_closing_work id : step_ok grows (mark_closing id) → keeps_work (mark_closing id).
Proof. intros Hg. by apply keeps_steps; [|apply step_ok_exec]. Qed.
Lemma stamp_closed_work id actor :
  step_ok grows (stamp_closed now id actor) → keeps_work (stamp_closed now id actor).
Proof.
  intros Hg. apply keeps_steps; [done|]. unfold stamp_closed. frame; by apply step_ok_exec.
Qed.
Lemma ledger_close_period_work id actor force :
  step_ok grows (mark_closing id) → step_ok grows (stamp_closed now id actor) →
  keeps_work (ledger_close_period now id actor force).
Proof.
  intros Hm Hs. unfold ledger_close_period, advisory_key, load_period, reject_out_of_order.
  repeat first [work_step | apply gate_pools_work | apply sweep_pools_work | apply recheck_work
               | by apply mark_closing_work | by apply stamp_closed_work].
Qed.
End engine_work.

