(* ===== verification/FeedLaws.v ===== *)
(** Theorems about the feed consumer: what applying a batch does to floors,
    counters and marks, redelivery, the cursor, and recovery; and the work list
    of the engine through all of them. *)
From Stdlib Require Import Strings.Byte.
From S2P Require Import Prelude Numeric Plan Snapshot Wac Strict Db BulkWrite Cte Submit Recalc.
From S2P Require Import Close PgOutput Feed Frame Footprint Scenario RecalcLaws WorkList.

(** * Inserting a list of rows into a map *)
Section foldr_insert.
Context {A B : Type} (key : A → Z) (f : A → gmap Z B → B).
Definition insert_all (m : gmap Z B) (l : list A) : gmap Z B :=
  foldr (λ a m, <[key a := f a m]> m) m l.
Lemma insert_all_is_Some m l p :
  is_Some (insert_all m l !! p) ↔ (∃ a, a ∈ l ∧ key a = p) ∨ is_Some (m !! p).
Proof.
  induction l as [|b l IH]; cbn.
  - split; [by right|]. intros [(a & Ha & _)|?]; [by apply elem_of_nil in Ha|done].
  - destruct (decide (key b = p)) as [Hb|Hne].
    + subst p. rewrite lookup_insert_eq. split; [|done]. left. exists b. split; [by left|done].
    + rewrite lookup_insert_ne by done. rewrite IH. set_solver.
Qed.
Lemma insert_all_other m l p : (∀ a, a ∈ l → key a ≠ p) → insert_all m l !! p = m !! p.
Proof.
  induction l as [|b l IH]; intros Hl; [done|]. cbn. rewrite lookup_insert_ne.
  - apply IH. intros a Ha. apply Hl. by right.
  - apply Hl. by left.
Qed.
End foldr_insert.

(** * The least key per pool *)
Lemma key_lt_not_le a b : key_lt a b ↔ ¬ key_le b a.
Proof. unfold key_lt, key_le. lia. Qed.
Lemma key_le_refl a : key_le a a.
Proof. unfold key_le. lia. Qed.
Lemma min_key_spec k o :
  (min_key k o = k ∨ o = Some (min_key k o)) ∧ key_le (min_key k o) k ∧
  (∀ k', o = Some k' → key_le (min_key k o) k').
Proof.
  unfold min_key. destruct o as [k'|]; [|split_and!; [by left|apply key_le_refl|done]].
  case_bool_decide as Hlt.
  - split_and!; [by left|apply key_le_refl|]. intros ? [= <-]. unfold key_lt, key_le in *. lia.
  - split_and!; [by right| |].
    + unfold key_lt, key_le in *. lia.
    + intros ? [= <-]. apply key_le_refl.
Qed.
Lemma mins_Some keys p k :
  mins keys !! p = Some k → (p, k) ∈ keys ∧ ∀ k', (p, k') ∈ keys → key_le k k'.
Proof.
  revert k. induction keys as [|[q k0] keys IH]; intros k.
  { change (mins []) with (∅ : gmap Z (Timestamp * Z)). by rewrite lookup_empty. }
  change (mins ((q, k0) :: keys)) with (<[q := min_key k0 (mins keys !! q)]> (mins keys)).
  destruct (decide (q = p)) as [->|Hne].
  - rewrite lookup_insert_eq. intros [= <-].
    destruct (min_key_spec k0 (mins keys !! p)) as ([Heq|Heq] & Hle & Hle').
    + rewrite Heq in *. split; [by left|]. intros k' [[= <-]|Hin]%elem_of_cons; [done|].
      destruct (mins keys !! p) as [k1|] eqn:E.
      * destruct (IH k1 eq_refl) as [_ Hmin]. etrans; [by apply Hle'|by apply Hmin].
      * exfalso. assert (is_Some (mins keys !! p)) as [? ?]; [|congruence].
        apply (insert_all_is_Some fst (λ pk m, min_key pk.2 (m !! pk.1))). left. by exists (p, k').
    + destruct (IH _ Heq) as [Hin Hmin]. split; [by right|].
      intros k' [[= <-]|Hin']%elem_of_cons; [done|]. by apply Hmin.
  - rewrite lookup_insert_ne by done. intros Hk. destruct (IH _ Hk) as [Hin Hmin].
    split; [by right|]. intros k' [[= <- _]|Hin']%elem_of_cons; [done|]. by apply Hmin.
Qed.
Lemma mins_is_Some keys p : is_Some (mins keys !! p) ↔ ∃ k, (p, k) ∈ keys.
Proof.
  change (mins keys) with (insert_all fst (λ pk m, min_key pk.2 (m !! pk.1)) ∅ keys).
  rewrite insert_all_is_Some. split.
  - intros [([q k] & Hin & <-)|[k Hk]]; [eauto|]. by rewrite lookup_empty in Hk.
  - intros [k Hk]. left. by exists (p, k).
Qed.

(** * Applying a batch *)
Lemma floors_after_lookup ms rows p :
  floors_after ms rows !! p =
  (λ ps, match ms !! p with
         | Some k => if floor_moves k ps then with_floor k ps else ps
         | None => ps
         end) <$> rows !! p.
Proof. unfold floors_after. rewrite map_lookup_imap. by destruct (rows !! p). Qed.

Section apply_batch.
Context (now : Timestamp) (tz : bytes → option Timestamp).

(** The keys the server computes for the physical events. *)
Definition keyed (e : TrxLineEvent) (pk : Z * (Timestamp * Z)) : Prop :=
  ∃ t, tz (ev_posted_at e) = Some t ∧ pk = (ev_pool_id e, (t, ev_trx_line_id e)).
Lemma event_keys_Ok l d keys d' :
  mapM (event_key tz) l d = (Ok keys, d') → d' = d ∧ Forall2 keyed l keys.
Proof.
  revert keys. induction l as [|e l IH]; intros keys Hrun; cbn in Hrun.
  - injection Hrun as <- <-. by split.
  - apply SE_bind_Ok in Hrun as (pk & d1 & Hpk & Hrun). unfold event_key in Hpk.
    destruct (tz (ev_posted_at e)) as [t|] eqn:Et; [|done]. injection Hpk as <- <-.
    apply SE_bind_Ok in Hrun as (ks & d2 & Hks & Hrun). injection Hrun as <- <-.
    apply IH in Hks as [-> Hall]. split; [done|]. constructor; [|done]. by exists t.
Qed.

Lemma same_dirty_counters events bumped :
  step_ok same_dirty (iterM (bump_backlog events) bumped).
Proof.
  apply step_ok_iterM; [apply _|]. intros p. unfold bump_backlog. frame; by apply step_ok_exec.
Qed.
Lemma same_dirty_engage bumped : step_ok same_dirty (engage_bounds bumped).
Proof. unfold engage_bounds. frame; by apply step_ok_exec. Qed.

(** Floors, counters and marks of a successful apply. *)
Lemma apply_body_Ok events d r d' :
  apply_body now tz events d = (Ok r, d') →
  ∃ keys, Forall2 keyed (List.filter physical_event events) keys ∧
    db_pool_settlement d' = floors_after (mins keys) (db_pool_settlement d) ∧
    db_recalc_queue d' =
      insert_all id (λ _ _, now) (db_recalc_queue d) (unmarked (map ev_pool_id events) (db_recalc_queue d)) ∧
    r.1 = (length (unmarked (map ev_pool_id events) (db_recalc_queue d)),
           length (floors_moved (mins keys) (db_pool_settlement d))).
Proof.
  unfold apply_body. intros Hrun.
  apply SE_bind_Ok in Hrun as (keys & d1 & [-> Hkeys]%event_keys_Ok & Hrun).
  apply SE_bind_Ok in Hrun as (fl & d1 & Hfl & Hrun). injection Hfl as <- <-.
  apply SE_bind_Ok in Hrun as (bumped & d1 & Hb & Hrun). injection Hb as <- <-.
  apply SE_bind_Ok in Hrun as (u & d2 & Hbump & Hrun). apply same_dirty_counters in Hbump.
  apply SE_bind_Ok in Hrun as (n & d3 & Heng & Hrun). apply same_dirty_engage in Heng.
  apply SE_bind_Ok in Hrun as (mk & d4 & Hmk & Hrun). injection Hrun as <- <-.
  injection Hbump as Hs1 Hq1. injection Heng as Hs2 Hq2. cbn in Hs1, Hq1.
  injection Hmk as <- <-. cbn. exists keys. rewrite Hq2, Hq1, Hs2, Hs1. done.
Qed.

Lemma elem_of_unmarked ps q p : p ∈ unmarked ps q ↔ p ∈ ps ∧ q !! p = None.
Proof.
  unfold unmarked. rewrite list_elem_of_In, List.filter_In, <-list_elem_of_In, elem_of_remove_dups.
  by rewrite bool_decide_eq_true.
Qed.
Lemma marks_cover events q p :
  is_Some (insert_all id (λ _ _, now) q (unmarked (map ev_pool_id events) q) !! p) ↔
  p ∈ map ev_pool_id events ∨ is_Some (q !! p).
Proof.
  rewrite insert_all_is_Some. setoid_rewrite elem_of_unmarked. cbn. split.
  - intros [(a & [Ha _] & ->)|?]; auto.
  - intros [Hp|?]; [|by right]. destruct (q !! p) eqn:E; [right; eauto|left]. by exists p.
Qed.

Lemma keyed_events events keys p k :
  Forall2 keyed (List.filter physical_event events) keys → (p, k) ∈ keys →
  p ∈ map ev_pool_id events.
Proof.
  intros Hall Hin. apply list_elem_of_lookup_1 in Hin as [n Hn].
  destruct (Forall2_lookup_r _ _ _ _ _ Hall Hn) as (e & He & t & _ & [= -> _]).
  apply list_elem_of_fmap. exists e. split; [done|].
  apply list_elem_of_lookup_2, list_elem_of_In, List.filter_In in He as [He _].
  by apply list_elem_of_In.
Qed.

Lemma apply_body_work events : keeps_work (apply_body now tz events).
Proof.
  intros d r d' Hw Hrun. pose proof (apply_body_frame grows now tz events _ _ _ Hrun) as Hg.
  apply apply_body_Ok in Hrun as (keys & Hkeys & Hs & Hq & _).
  apply (work_list_step d); [done|done|]. intros p ps Hps. rewrite Hs, floors_after_lookup in Hps.
  destruct (db_pool_settlement d !! p) as [ps0|] eqn:E0; [|done]. cbn in Hps. injection Hps as <-.
  split; [done|]. rewrite Hq, marks_cover. destruct (mins keys !! p) as [k|] eqn:Ek.
  - left. apply mins_Some in Ek as [Hin _]. by eapply keyed_events.
  - intros Hf. right. revert Hf. by eapply rs_queued, wl_rows.
Qed.

(** C27: a delivered event is never lost.  After a batch is applied, every pool of
    the batch is on the work list; and if a physical event lies strictly behind
    its pool's settlement frontier, that pool has a recost floor at or below the
    event, so that the next pass replays it. *)
Theorem apply_covers_events events d r d' e t :
  apply_body now tz events d = (Ok r, d') → e ∈ events →
  is_Some (db_recalc_queue d' !! ev_pool_id e) ∧
  (physical_event e = true → tz (ev_posted_at e) = Some t →
   ∀ s, settled_of d (ev_pool_id e) = Some s → key_lt (t, ev_trx_line_id e) s →
   settled_of d' (ev_pool_id e) = Some s ∧
   ∃ f, floor_of d' (ev_pool_id e) = Some f ∧ key_le f (t, ev_trx_line_id e)).
Proof.
  intros (keys & Hkeys & Hs & Hq & _)%apply_body_Ok He. split.
  { rewrite Hq, marks_cover. left. apply list_elem_of_fmap. eauto. }
  intros Hphys Ht s Hset Hlt. unfold settled_of, floor_of in *. rewrite Hs, floors_after_lookup.
  destruct (db_pool_settlement d !! ev_pool_id e) as [ps|]; [|done]. cbn in *.
  assert ((ev_pool_id e, (t, ev_trx_line_id e)) ∈ keys) as Hin.
  { assert (e ∈ List.filter physical_event events) as Hf
      by (apply list_elem_of_In, List.filter_In; rewrite <-list_elem_of_In; done).
    apply list_elem_of_lookup_1 in Hf as [n Hn].
    destruct (Forall2_lookup_l _ _ _ _ _ Hkeys Hn) as (pk & Hpk & t' & Ht' & ->).
    assert (t' = t) as -> by congruence. by eapply list_elem_of_lookup_2. }
  destruct (mins keys !! ev_pool_id e) as [k|] eqn:Ek.
  2:{ exfalso. assert (is_Some (mins keys !! ev_pool_id e)) as [? ?]; [apply mins_is_Some; eauto|].
      congruence. }
  apply mins_Some in Ek as [_ Hmin]. specialize (Hmin _ Hin).
  unfold floor_moves. rewrite Hset.
  assert (key_lt k s) as Hks by (unfold key_le, key_lt in *; cbn in *; lia).
  rewrite bool_decide_eq_true_2 by done. cbn.
  destruct (pse_recost_floor ps) as [f|] eqn:Ef; [|eauto].
  case_bool_decide as Hkf; cbn; [eauto|]. rewrite Ef. split; [done|]. exists f. split; [done|].
  unfold key_lt, key_le in *. cbn in *. lia.
Qed.

(** ** Redelivery *)
Lemma keyed_fun l k1 k2 : Forall2 keyed l k1 → Forall2 keyed l k2 → k1 = k2.
Proof.
  intros H1. revert k2. induction H1 as [|e pk l k1 (t & Ht & ->) _ IH]; intros k2 H2.
  - by inversion H2.
  - inversion H2 as [|? ? ? k2' (t' & Ht' & ->) Hall]; subst. f_equal; [|auto].
    do 2 f_equal. congruence.
Qed.
Lemma floor_moves_again k ps : floor_moves k (if floor_moves k ps then with_floor k ps else ps) = false.
Proof.
  destruct (floor_moves k ps) eqn:E; [|done]. unfold floor_moves, with_floor in *. cbn.
  destruct (pse_settled_through ps); [|done]. apply andb_false_iff. right.
  apply bool_decide_eq_false. unfold key_lt. lia.
Qed.
Lemma floors_after_again ms rows : floors_after ms (floors_after ms rows) = floors_after ms rows.
Proof.
  apply map_eq. intros p. rewrite !floors_after_lookup. destruct (rows !! p) as [ps|]; [|done]. cbn.
  destruct (ms !! p) as [k|]; [|done]. by rewrite floor_moves_again.
Qed.
Lemma floors_moved_again ms rows : floors_moved ms (floors_after ms rows) = [].
Proof.
  unfold floors_moved. apply filter_nil. intros [p k] Hin%elem_of_map_to_list. cbn.
  rewrite floors_after_lookup. destruct (rows !! p) as [ps|]; [|done]. cbn. rewrite Hin.
  apply floor_moves_again.
Qed.
Lemma unmarked_again ps q :
  (∀ p, p ∈ ps → is_Some (q !! p)) → unmarked ps q = [].
Proof.
  intros Hall. destruct (unmarked ps q) as [|p l] eqn:E; [done|].
  assert (p ∈ unmarked ps q) as Hin by (rewrite E; left).
  apply elem_of_unmarked in Hin as [Hp Hn]. destruct (Hall p Hp). congruence.
Qed.

(** Counters only go up, and engaged pools stay engaged. *)
Definition counters_grow (d d' : Db) : Prop :=
  (∀ p n, db_backlog d !! p = Some n → ∃ n', db_backlog d' !! p = Some n' ∧ n ≤ n') ∧
  (∀ p, is_Some (db_backpressure d !! p) → is_Some (db_backpressure d' !! p)).
#[local] Instance counters_grow_preorder : PreOrder counters_grow.
Proof.
  split; [intros d; split; [intros p n Hn; exists n; split; [done|lia]|done]|]. intros d1 d2 d3 [B1 P1] [B2 P2]. split; [|auto].
  intros p n Hn. destruct (B1 _ _ Hn) as (n' & Hn' & ?). destruct (B2 _ _ Hn') as (n'' & Hn'' & ?).
  exists n''. split; [done|lia].
Qed.
Lemma bump_grows events p : step_ok counters_grow (bump_backlog events p).
Proof.
  intros d r d'. unfold bump_backlog, mbind, SE_bind, query, gets. cbn.
  assert (0 ≤ event_count events p) as Hc by (unfold event_count; lia).
  destruct (db_backlog d !! p) as [n|] eqn:En; cbn.
  - destruct (to_bigint _) as [m|] eqn:Em; cbn; intros [= _ <-]; [|reflexivity].
    apply to_bigint_Ok in Em as [-> _]. split; cbn; [|done]. intros q x Hq.
    destruct (decide (q = p)) as [->|]; [|rewrite lookup_insert_ne by done; exists x; split; [done|lia]].
    rewrite lookup_insert_eq. eexists. split; [done|]. assert (x = n) by congruence. lia.
  - intros [= _ <-]. split; cbn; [|done]. intros q x Hq.
    destruct (decide (q = p)) as [->|]; [congruence|]. rewrite lookup_insert_ne by done. exists x. split; [done|lia].
Qed.
Lemma engage_grows bumped : step_ok counters_grow (engage_bounds bumped).
Proof.
  intros d r d' [= _ <-]. split; cbn; [intros p n Hn; exists n; split; [done|lia]|]. intros p Hp.
  apply (insert_all_is_Some id (λ p _, default 0 (db_backlog d !! p))). by right.
Qed.
Lemma apply_counters_grow events : step_ok counters_grow (apply_body now tz events).
Proof.
  unfold apply_body, event_key, lower_floors, mark_dirty.
  pose proof engage_grows. pose proof bump_grows.
  frame; try done; apply step_ok_exec; intros d; apply (reflexivity (R:=counters_grow) d).
Qed.

(** Redelivery is harmless.  Applying a batch a second time (a crash between
    apply and advance) moves no floor and marks no pool again; the only effect
    left is that backlog counters may grow, so that a throttle may engage early
    but is never missed. *)
Theorem apply_redelivery events d r1 d1 r2 d2 :
  apply_body now tz events d = (Ok r1, d1) → apply_body now tz events d1 = (Ok r2, d2) →
  db_pool_settlement d2 = db_pool_settlement d1 ∧ db_recalc_queue d2 = db_recalc_queue d1 ∧
  r2.1 = (0%nat, 0%nat) ∧ counters_grow d1 d2.
Proof.
  intros Hrun1 Hrun2. pose proof (apply_counters_grow events _ _ _ Hrun2) as Hcount.
  apply apply_body_Ok in Hrun1 as (k1 & Hk1 & Hs1 & Hq1 & _).
  apply apply_body_Ok in Hrun2 as (k2 & Hk2 & Hs2 & Hq2 & Hr2).
  assert (k2 = k1) as -> by by eapply keyed_fun.
  assert (unmarked (map ev_pool_id events) (db_recalc_queue d1) = []) as Hun.
  { apply unmarked_again. intros p Hp. rewrite Hq1, marks_cover. by left. }
  rewrite Hun in Hq2, Hr2. rewrite Hs1, floors_moved_again in Hr2. rewrite Hs1, floors_after_again in Hs2.
  split_and!; [by rewrite Hs2, Hs1|by rewrite Hq2|done|done].
Qed.

(** ** Recovery *)
Lemma mark_dirty_Ok ps d n d' :
  mark_dirty now ps d = (Ok n, d') →
  d' = set_recalc_queue (insert_all id (λ _ _, now) (db_recalc_queue d)
                           (unmarked ps (db_recalc_queue d))) d.
Proof. by intros [= _ <-]. Qed.
Lemma elem_of_reseed_scope d p k :
  (p, k) ∈ reseed_scope d →
  (∃ row, cfg_pool (db_cfg d) !! p = Some row ∧ is_strict (pool_method row) = true) ∧
  physical_lines p d ≠ [].
Proof.
  unfold reseed_scope. rewrite list_elem_of_omap. intros ([q row] & Hin & Hk). cbn in Hk.
  apply elem_of_map_to_list in Hin. destruct (is_strict (pool_method row)) eqn:Hs; [|done].
  destruct (physical_lines q d) as [|il l] eqn:El; [done|]. cbn in Hk. injection Hk as -> <-.
  split; [eauto|]. by rewrite El.
Qed.
Lemma reseed_work : keeps_work (ledger_feed_reseed now).
Proof.
  intros d n d' Hw Hrun. pose proof (reseed_frame grows now _ _ _ Hrun) as Hg.
  unfold ledger_feed_reseed in Hrun.
  apply SE_bind_Ok in Hrun as (scope & d0 & Hsc & Hrun). injection Hsc as <- <-.
  apply SE_bind_Ok in Hrun as (u & d0 & Hu & Hrun). injection Hu as _ <-.
  apply SE_bind_Ok in Hrun as (k & d1 & ->%mark_dirty_Ok & Hrun). injection Hrun as _ <-.
  apply (work_list_step d); [done|done|]. cbn. intros p ps Hps.
  change (foldr _ _ _) with (insert_all fst (λ pk m, reseed_floor pk.2 (m !! pk.1))
    (db_pool_settlement d) (reseed_scope d)) in Hps.
  destruct (decide (p ∈ map fst (reseed_scope d))) as [Hp|Hp].
  - split.
    + intros _. apply list_elem_of_fmap in Hp as ([q k'] & -> & Hin). by eapply elem_of_reseed_scope.
    + intros _. rewrite insert_all_is_Some. setoid_rewrite elem_of_unmarked. cbn.
      destruct (db_recalc_queue d !! p) eqn:Eq; [right; eauto|left]. by exists p.
  - rewrite insert_all_other in Hps
      by (intros a Ha Heq; apply Hp, list_elem_of_fmap; eauto).
    split; [congruence|]. intros Hf. apply insert_all_is_Some. right. revert Hf.
    by eapply rs_queued, wl_rows.
Qed.
End apply_batch.

(** * The cursor *)
Definition cursor_of (d : Db) : option Z := db_slot d ≫= slot_confirmed_flush_lsn.
Definition opt_le (a b : option Z) : Prop :=
  match a, b with Some x, Some y => x ≤ y | None, _ => True | Some _, None => False end.
Definition same_slot : relation Db := keeps_proj db_slot.

Section cursor.
Context (now : Timestamp) (tz : bytes → option Timestamp).
Context (slot_advance : Z → Z → Z → Z) (peek_changes : Db → Z → Res PgError (list (Z * bytes))).

Lemma apply_same_slot events : step_ok same_slot (apply_body now tz events).
Proof.
  unfold apply_body, event_key, lower_floors, bump_backlog, engage_bounds, mark_dirty.
  frame; by apply step_ok_exec.
Qed.
Lemma commits_Ok {A} (m : Tx A) d a d' : commits m d = (Ok a, d') → m d = (Ok a, d').
Proof. unfold commits, transaction. destruct (m d) as [[]]; naive_solver. Qed.
Lemma commits_same_slot {A} (m : Tx A) : step_ok same_slot m → step_ok same_slot (commits m).
Proof.
  intros Hm d r d'. unfold commits, transaction. destruct (m d) as [[a|e] d1] eqn:E; intros [= _ <-].
  - by eapply Hm.
  - done.
Qed.
Lemma peek_Ok limit d b d' : peek peek_changes limit d = (Ok b, d') → d' = d.
Proof. unfold peek. destruct (peek_changes d limit); [|done]. by intros [= _ <-]. Qed.
Lemma advance_run target d r d' :
  advance slot_advance target d = (r, d') →
  (∃ a, r = Ok a) ∧ db_recalc_queue d' = db_recalc_queue d ∧
  ((∀ w c t, c ≤ slot_advance w c t) → opt_le (cursor_of d) (cursor_of d')).
Proof.
  unfold advance, cursor_of. destruct (db_slot d) as [s|] eqn:Es; cbn.
  2:{ intros [= <- <-]. split_and!; eauto. }
  assert (opt_le (slot_confirmed_flush_lsn s) (slot_confirmed_flush_lsn s)) as Hrefl
    by (unfold opt_le; destruct (slot_confirmed_flush_lsn s); [lia|done]).
  destruct (slot_confirmed_flush_lsn s) as [c|] eqn:Ec; [destruct (c <? target)|];
    intros [= <- <-]; (split_and!; [eauto|done|]); intros Hadv; cbn; rewrite ?Es; cbn; rewrite ?Ec;
    by try apply Hadv.
Qed.

(** Applying the events of a batch, or nothing when there are none. *)
Lemma apply_stage events d r d1 :
  (match events with
   | [] => mret (0%nat, 0%nat, 0%nat) | e :: es => apply_events now tz (e :: es) end) d = (r, d1) →
  same_slot d d1 ∧
  (∀ c, r = Ok c → ∀ e, e ∈ events → is_Some (db_recalc_queue d1 !! ev_pool_id e)).
Proof.
  destruct events as [|e0 es]; intros Hrun.
  - injection Hrun as _ <-. split; [done|]. by intros c _ e ?%elem_of_nil.
  - split; [by eapply commits_same_slot; [apply apply_same_slot|]|]. intros c -> e He.
    apply commits_Ok in Hrun. apply apply_body_Ok in Hrun as (keys & _ & _ & Hq & _).
    rewrite Hq, marks_cover. left. apply list_elem_of_fmap. eauto.
Qed.
Lemma check_slot_run d r d' : check_slot_usable d = (r, d') → d' = d.
Proof. unfold check_slot_usable. intros Hrun. repeat case_match; by injection Hrun. Qed.
Lemma peek_run limit d r d' : peek peek_changes limit d = (r, d') → d' = d.
Proof. unfold peek. destruct (peek_changes d limit); by intros [= _ <-]. Qed.

Lemma ingest_Err limit d e d' :
  ingest_once now tz slot_advance peek_changes limit d = (Err e, d') → same_slot d d'.
Proof.
  unfold ingest_once. intros Hrun.
  apply SE_bind_Err in Hrun as [Hrun|(u & d0 & Hc & Hrun)]; [by apply check_slot_run in Hrun as ->|].
  apply check_slot_run in Hc as ->.
  apply SE_bind_Err in Hrun as [[=]|(pre & d0 & [= <- <-] & Hrun)].
  apply SE_bind_Err in Hrun as [Hrun|(batch & d0 & Hp & Hrun)]; [by apply peek_run in Hrun as ->|].
  apply peek_run in Hp as ->.
  apply SE_bind_Err in Hrun as [Hrun|(counts & d1 & Ha & Hrun)];
    [by apply apply_stage in Hrun as [Hs _]|].
  destruct counts as [[m f] t].
  apply SE_bind_Err in Hrun as [Hrun|(x & d2 & _ & Hrun)]; [|discriminate Hrun].
  apply advance_run in Hrun as [[a Ha'] _]. discriminate Ha'.
Qed.
Lemma ingest_Ok limit d rep d' :
  ingest_once now tz slot_advance peek_changes limit d = (Ok rep, d') →
  ∃ batch d1 target x, peek peek_changes limit d = (Ok batch, d) ∧ same_slot d d1 ∧
    (∀ e, e ∈ pb_events batch → is_Some (db_recalc_queue d1 !! ev_pool_id e)) ∧
    advance slot_advance target d1 = (Ok x, d').
Proof.
  unfold ingest_once. intros Hrun.
  apply SE_bind_Ok in Hrun as (u & d0 & ->%check_slot_run & Hrun).
  apply SE_bind_Ok in Hrun as (pre & d0 & [= <- <-] & Hrun).
  apply SE_bind_Ok in Hrun as (batch & d0 & Hp & Hrun). pose proof (peek_run _ _ _ _ Hp) as ->.
  apply SE_bind_Ok in Hrun as (counts & d1 & Ha & Hrun). destruct counts as [[m f] t].
  apply SE_bind_Ok in Hrun as (x & d2 & Hadv & Hrun). injection Hrun as _ <-.
  destruct (apply_stage _ _ _ _ Ha) as [Hs Hcov]. exists batch, d1. eauto 8.
Qed.

(** C28: the cursor never overtakes the work list.  Provided the server never
    moves a slot backwards, a feed tick never moves the cursor back; a tick that
    fails leaves it where it was; and when it moves, every event the tick
    peeked has its pool on the work list. *)
Theorem ingest_cursor_safe limit d r d' :
  (∀ w c t, c ≤ slot_advance w c t) →
  ingest_once now tz slot_advance peek_changes limit d = (r, d') →
  opt_le (cursor_of d) (cursor_of d') ∧
  (db_slot d' ≠ db_slot d →
   ∃ rep batch, r = Ok rep ∧ peek peek_changes limit d = (Ok batch, d) ∧
     ∀ e, e ∈ pb_events batch → is_Some (db_recalc_queue d' !! ev_pool_id e)).
Proof.
  intros Hadv Hrun. destruct r as [rep|e].
  - apply ingest_Ok in Hrun as (batch & d1 & target & x & Hp & Hs & Hcov & Ha).
    apply advance_run in Ha as (_ & Hq & Hmono). specialize (Hmono Hadv).
    unfold same_slot, keeps_proj in Hs. unfold cursor_of at 1. rewrite <-Hs. split; [done|].
    intros _. exists rep, batch. split_and!; [done..|]. intros e He. rewrite Hq. auto.
  - apply ingest_Err in Hrun. unfold same_slot, keeps_proj in Hrun. split; [|done].
    unfold cursor_of, opt_le. rewrite Hrun. destruct (_ ≫= _); [lia|done].
Qed.
End cursor.

(** * Worked batches *)
Definition example_event (id p : Z) (line_type : string) : TrxLineEvent :=
  {| ev_trx_line_id := id; ev_pool_id := p; ev_posted_at := ascii "day 11";
     ev_line_type := ascii line_type |}.
(** Pool 4 settled through day 12; a receipt of day 11 arrives late, with an
    adjustment line of pool 5. *)
Definition settled_db : Db :=
  set_pool_settlement (<[4 := {| pse_recalc_generation := 1;
    pse_settled_through := Some (day_start 12, 9); pse_recost_floor := None |}]> ∅) issued_db.
Definition example_batch : list TrxLineEvent :=
  [example_event 20 4 "po_receipt_line"; example_event 21 5 "cost_adjustment_line"].
Definition day_11 : bytes → option Timestamp := λ _, Some (day_start 11).

Lemma apply_covers_events_witness :
  ∃ r d', apply_body (day_start 13) day_11 example_batch settled_db = (Ok r, d') ∧
    ∃ f, floor_of d' 4 = Some f ∧ key_le f (day_start 11, 20).
Proof.
  destruct (apply_body (day_start 13) day_11 example_batch settled_db) as [[r|e] d'] eqn:E;
    [|vm_compute in E; discriminate E].
  exists r, d'. split; [done|].
  destruct (apply_covers_events (day_start 13) day_11 example_batch settled_db r d'
    (example_event 20 4 "po_receipt_line") (day_start 11) E) as [_ Hfloor]; [left|].
  destruct (Hfloor eq_refl eq_refl (day_start 12, 9)) as [_ Hf];
    [vm_compute; reflexivity|vm_compute; left; reflexivity|exact Hf].
Defined.

Lemma apply_redelivery_witness :
  ∃ r1 d1 r2 d2, apply_body (day_start 13) day_11 example_batch settled_db = (Ok r1, d1) ∧
    r1 = (2%nat, 1%nat, 0%nat) ∧ apply_body (day_start 13) day_11 example_batch d1 = (Ok r2, d2) ∧
    r2.1 = (0%nat, 0%nat).
Proof.
  destruct (apply_body (day_start 13) day_11 example_batch settled_db) as [[r1|e] d1] eqn:E1;
    [|vm_compute in E1; discriminate E1].
  destruct (apply_body (day_start 13) day_11 example_batch d1) as [[r2|e] d2] eqn:E2.
  - exists r1, d1, r2, d2. split_and!; [done|vm_compute in E1; by injection E1 as <- _|done|].
    apply (apply_redelivery (day_start 13) day_11 example_batch settled_db r1 d1 r2 d2 E1 E2).
  - exfalso. vm_compute in E1. injection E1 as _ <-. vm_compute in E2. discriminate E2.
Defined.

(** A slot at position 5 of a log at position 9, and a quiet batch. *)
Definition slotted_db : Db :=
  set_slot (Some {| slot_wal_status := "reserved"; slot_invalidation_reason := None;
                    slot_confirmed_flush_lsn := Some 5 |}) settled_db.
Definition begin_commit : Db → Z → Res PgError (list (Z * bytes)) :=
  λ _ _, Ok [(7, ascii "B"); (8, ascii "C")].
Lemma ingest_cursor_safe_witness :
  ∃ rep d', ingest_once (day_start 13) day_11 (λ _ c t, Z.max c t) begin_commit 10 slotted_db
      = (Ok rep, d') ∧ ir_advanced_to rep = Some 8 ∧ opt_le (Some 5) (cursor_of d').
Proof.
  destruct (ingest_once (day_start 13) day_11 (λ _ c t, Z.max c t) begin_commit 10 slotted_db)
    as [[rep|e] d'] eqn:E; [|vm_compute in E; discriminate E].
  exists rep, d'. split_and!; [done|vm_compute in E; by injection E as <- _|].
  destruct (ingest_cursor_safe (day_start 13) day_11 (λ _ c t, Z.max c t) begin_commit 10 slotted_db
    (Ok rep) d') as [Hle _]; [lia|exact E|exact Hle].
Defined.
