(* ===== verification/CloseLaws.v ===== *)
(** Theorems about closing a period: what the gate lets through, what a close
    leaves behind, what force cannot do, and the truing of aggregates. *)
From S2P Require Import Prelude Numeric Plan Snapshot Wac Strict Db BulkWrite Cte Submit Recalc.
From S2P Require Import Close Frame Footprint Scenario RecalcLaws.

(** * Inversion of a close *)
Lemma gate_pools_run end_date d r d' : gate_pools end_date d = (r, d') → d' = d.
Proof.
  intros Hrun. enough (step_ok eq (gate_pools end_date)) as Hs by (symmetry; by eapply Hs).
  unfold gate_pools. frame.
Qed.
Lemma isEmpty_true {A} (l : list A) : isEmpty l = true ↔ l = [].
Proof. by destruct l. Qed.
Lemma isSome_true {A} (o : option A) : isSome o = true ↔ is_Some o.
Proof. destruct o; cbn; naive_solver. Qed.

(** The gate as evaluated on [d]. *)
Record gate_of (d : Db) (period : PeriodRow) (gate : list GatePool) (rep : GateReport) : Prop := {
  ga_pools : gate_pools (per_end_date period) d = (Ok gate, d);
  ga_lagging : gr_lagging rep = List.filter lagging gate;
  ga_feed : gr_feed rep = feed_currency (db_wal_lsn d) d;
  ga_halted : gr_halted rep =
    List.filter (λ e, existsb (λ g, gp_pool_id g =? e.1) gate) (escalated_pools d);
  ga_passed : gr_passed rep =
    isEmpty (gr_lagging rep) && negb (isSome (gr_feed rep)) && isEmpty (gr_halted rep);
}.
(** The gate refuses: an arm that force cannot open, or a failed gate. *)
Definition refuses (force : bool) (rep : GateReport) : bool :=
  negb (isEmpty (gr_halted rep)) || isSome (gr_feed rep) || (negb (gr_passed rep) && negb force).

Section close_laws.
Context `{PgNumeric} (now : Timestamp).

(** The successful outcomes of a close, with the state each one leaves. *)
Lemma close_cases id actor force d out d' :
  ledger_close_period now id actor force d = (Ok out, d') →
  ∃ period, db_period d !! id = Some period ∧
  ((is_closed period = true ∧ out = AlreadyClosed (per_closed period) ∧ d' = d) ∨
   (is_closed period = false ∧ earlier_open period (db_period d) = false ∧
    ∃ gate rep, gate_of d period gate rep ∧
    ((refuses force rep = true ∧ out = NotClosed rep force ∧
      mark_closing id d = (Ok tt, d')) ∨
     (refuses force rep = false ∧ ∃ at_ swept1 trx1 swept2 rounds d1 d2,
      out = Closed rep (force && negb (gr_passed rep)) at_ swept2 rounds ∧
      sweep_pools now (map gp_pool_id gate) None [] d = (Ok (swept1, trx1), d1) ∧
      recheck now MAX_RECHECK_ROUNDS 0 (per_end_date period) trx1 swept1 d1 = (Ok (swept2, rounds), d2) ∧
      in_period_event_count (per_end_date period) d2 = in_period_event_count (per_end_date period) d ∧
      stamp_closed now id actor d2 = (Ok at_, d'))))).
Proof.
  unfold ledger_close_period. intros Hrun.
  apply SE_bind_Ok in Hrun as (key & d0 & Hk & Hrun).
  assert (d0 = d) by (unfold advisory_key in Hk; destruct (bool_decide _); by injection Hk).
  subst d0. clear Hk. apply SE_bind_Ok in Hrun as (period & d0 & Hp & Hrun). unfold load_period in Hp.
  apply SE_bind_Ok in Hp as (ps & d1 & [= <- <-] & Hp).
  destruct (db_period d !! id) as [p|] eqn:Ep; [|done]. injection Hp as -> <-.
  exists period. split; [done|]. destruct (is_closed period) eqn:Hc.
  { injection Hrun as <- <-. by left. }
  right. split; [done|].
  apply SE_bind_Ok in Hrun as (u & d0 & Ho & Hrun). unfold reject_out_of_order in Ho.
  apply SE_bind_Ok in Ho as (ps & d1 & [= <- <-] & Ho).
  destruct (earlier_open period (db_period d)) eqn:He; [done|]. injection Ho as _ <-.
  split; [done|].
  apply SE_bind_Ok in Hrun as (n & d1 & [= <- <-] & Hrun).
  apply SE_bind_Ok in Hrun as (lsn & d1 & [= <- <-] & Hrun).
  apply SE_bind_Ok in Hrun as (gate & d1 & Hg & Hrun). pose proof (gate_pools_run _ _ _ _ Hg) as ->.
  apply SE_bind_Ok in Hrun as (feed_lag & d1 & Hfl & Hrun). injection Hfl as <- <-.
  apply SE_bind_Ok in Hrun as (halted & d1 & Hh & Hrun). injection Hh as <- <-.
  apply SE_bind_Ok in Hrun as (feed & d1 & Hf & Hrun). injection Hf as <- <-.
  match type of Hrun with context [NotClosed ?r _] => set (rep := r) in Hrun end.
  exists gate, rep. split; [by split|]. fold (refuses force rep) in Hrun.
  change (negb (isEmpty _) || _ || _) with (refuses force rep) in Hrun.
  destruct (refuses force rep) eqn:Hr.
  - left. apply SE_bind_Ok in Hrun as ([] & d1 & Hm & Hrun). by injection Hrun as <- <-.
  - right. split; [done|].
    apply SE_bind_Ok in Hrun as ([swept1 trx1] & d1 & H1 & Hrun).
    apply SE_bind_Ok in Hrun as ([swept2 rounds] & d2 & H2 & Hrun).
    apply SE_bind_Ok in Hrun as (n2 & d3 & [= <- <-] & Hrun).
    destruct (in_period_event_count (per_end_date period) d2 =?
              in_period_event_count (per_end_date period) d) eqn:En; cbn in Hrun; [|done].
    apply SE_bind_Ok in Hrun as (at_ & d3 & H3 & Hrun). injection Hrun as <- <-.
    apply Z.eqb_eq in En. eexists at_, swept1, trx1, swept2, rounds, d1, d2. done.
Qed.

(** * What a close leaves behind *)
Lemma recheck_quiet n rounds end_date trx swept d r d' :
  recheck now n rounds end_date trx swept d = (Ok r, d') →
  ∃ gate, gate_pools end_date d' = (Ok gate, d') ∧ stragglers gate r.1 = [].
Proof.
  revert rounds trx swept d. induction n as [|n IH]; intros rounds trx swept d Hrun;
    cbn [recheck] in Hrun; apply SE_bind_Ok in Hrun as (gate & d0 & Hg & Hrun);
    pose proof (gate_pools_run _ _ _ _ Hg) as ->; destruct (stragglers gate swept) eqn:Es.
  - injection Hrun as <- <-. eauto.
  - done.
  - injection Hrun as <- <-. eauto.
  - apply SE_bind_Ok in Hrun as (r1 & d1 & _ & Hrun). by eapply IH.
Qed.
Lemma stragglers_nil gate swept g : stragglers gate swept = [] → g ∈ gate → lagging g = false.
Proof.
  unfold stragglers. intros Hnil Hg. destruct (lagging g) eqn:Hl; [|done]. exfalso.
  assert (gp_pool_id g ∈ map gp_pool_id (List.filter (λ g, lagging g ||
    negb (existsb (λ s, sw_pool_id s =? gp_pool_id g) swept)) gate)) as Hin.
  { apply list_elem_of_fmap. exists g. split; [done|]. apply list_elem_of_In, List.filter_In.
    rewrite <-list_elem_of_In, Hl. done. }
  rewrite Hnil in Hin. by apply elem_of_nil in Hin.
Qed.
Lemma gate_pools_elem end_date d gate p :
  gate_pools end_date d = (Ok gate, d) → p ∈ gate_scope end_date d →
  ∃ g, g ∈ gate ∧ gate_pool end_date p d = Ok g.
Proof.
  unfold gate_pools. intros Hrun. apply SE_bind_Ok in Hrun as (d0 & d1 & [= <- <-] & Hrun).
  cbn in Hrun. revert gate Hrun. induction (gate_scope end_date d) as [|q l IH]; intros gate Hrun Hp;
    [by apply elem_of_nil in Hp|]. cbn in Hrun.
  apply SE_bind_Ok in Hrun as (g & d1 & [Hg ->]%sql_expr_Ok & Hrun).
  apply SE_bind_Ok in Hrun as (gs & d1 & Hgs & Hrun). injection Hrun as <- ->.
  apply elem_of_cons in Hp as [->|Hp]; [exists g; split; [by left|done]|].
  destruct (IH _ Hgs Hp) as (g' & Hg' & ?). exists g'. split; [by right|done].
Qed.
Lemma elem_of_gate_scope end_date d p row :
  cfg_pool (db_cfg d) !! p = Some row → is_strict (pool_method row) = true →
  lines_in_scope end_date p d ≠ [] → p ∈ gate_scope end_date d.
Proof.
  intros Hrow Hs Hl. unfold gate_scope. apply list_elem_of_In, List.filter_In.
  rewrite <-list_elem_of_In. split; [|by rewrite bool_decide_eq_false_2].
  unfold strict_pools. rewrite merge_sort_Permutation. apply list_elem_of_fmap.
  exists (p, row). split; [done|]. apply list_elem_of_In, List.filter_In.
  rewrite <-list_elem_of_In, elem_of_map_to_list. done.
Qed.
Lemma not_lagging end_date p d g :
  gate_pool end_date p d = Ok g → lagging g = false →
  List.filter (after_key (settled_of d p)) (lines_in_scope end_date p d) = [] ∧
  (∀ f, floor_of d p = Some f → period_end end_date ≤ f.1).
Proof.
  unfold gate_pool. intros (gross & _ & Hg)%Res_bind_Ok. injection Hg as <-.
  unfold lagging. cbn. intros [Hz Hf]%orb_false_iff. apply Z.ltb_ge in Hz. split.
  - destruct (List.filter _ _); [done|cbn in Hz; lia].
  - intros f Hfl. rewrite Hfl in Hf. by apply Z.ltb_ge in Hf.
Qed.

(** C16: a closed period is settled.  When a close (forced or not) stamps a
    period, the feed was current and no pool in scope was halted when the gate
    was read; the stamp carries the caller and the time; and in the committed
    state every pool costed by the engine is settled through its last line
    posted before the end of the period, with no recost floor pending there. *)
Theorem close_leaves_settled id actor force d rep forced at_ swept rounds d' :
  ledger_close_period now id actor force d = (Ok (Closed rep forced at_ swept rounds), d') →
  gr_feed rep = None ∧ gr_halted rep = [] ∧
  ∃ period, db_period d !! id = Some period ∧ is_closed period = false ∧
    db_period d' !! id = Some (with_state PeriodClosed (Some (now, actor)) period) ∧
    ∀ p row, cfg_pool (db_cfg d') !! p = Some row → is_strict (pool_method row) = true →
      lines_in_scope (per_end_date period) p d' ≠ [] →
      List.filter (after_key (settled_of d' p)) (lines_in_scope (per_end_date period) p d') = [] ∧
      (∀ f, floor_of d' p = Some f → period_end (per_end_date period) ≤ f.1).
Proof.
  intros Hrun. apply close_cases in Hrun as (period & Hp & [(_ & [=] & _)|(Hc & _ & Hrun)]).
  destruct Hrun as (gate & rep' & Hgate & [(_ & [=] & _)|(Hr & Hrun)]).
  destruct Hrun as (at' & sw1 & trx1 & sw2 & rn & d1 & d2 & [= <- _ -> -> ->] & Hsw & Hre & _ & Hst).
  unfold refuses in Hr. apply orb_false_iff in Hr as [Hr _]. apply orb_false_iff in Hr as [Hh Hfd].
  apply negb_false_iff, isEmpty_true in Hh. split; [by destruct (gr_feed rep)|]. split; [done|].
  exists period. split; [done|]. split; [done|].
  assert (db_period d2 = db_period d) as Hper.
  { eapply sweep_pools_frame in Hsw; [|exact same_periods_engine].
    eapply recheck_frame in Hre; [|exact same_periods_engine].
    unfold same_periods, keeps_proj in *. congruence. }
  unfold stamp_closed in Hst. apply SE_bind_Ok in Hst as (ps & d3 & [= <- <-] & Hst).
  rewrite Hper, Hp, Hc in Hst. injection Hst as _ <-. cbn. rewrite lookup_insert_eq. split; [done|].
  intros p row Hrow Hs Hl. apply recheck_quiet in Hre as (gate' & Hg' & Hq).
  destruct (gate_pools_elem _ _ _ p Hg') as (g & Hg & Hgp); [by eapply elem_of_gate_scope|].
  eapply not_lagging in Hgp; [exact Hgp|]. by eapply stragglers_nil.
Qed.

(** Force opens the settlement gate only.  While the feed is behind (or its
    slot is unusable), or a pool in scope is halted, a close never stamps the
    period whatever its force flag: it reports and moves no period past
    closing. *)
Theorem force_cannot_bypass id actor force d out d' period gate :
  ledger_close_period now id actor force d = (Ok out, d') →
  db_period d !! id = Some period → is_closed period = false →
  gate_pools (per_end_date period) d = (Ok gate, d) →
  is_Some (feed_currency (db_wal_lsn d) d) ∨
    (∃ e, e ∈ escalated_pools d ∧ e.1 ∈ map gp_pool_id gate) →
  (∃ rep, out = NotClosed rep force) ∧
  ∀ i q, db_period d' !! i = Some q → is_closed q = true → db_period d !! i = Some q.
Proof.
  intros Hrun Hp Hc Hg Hblock.
  apply close_cases in Hrun as (period' & Hp' & Hcases). assert (period' = period) as -> by congruence.
  destruct Hcases as [(Hc' & _)|(_ & _ & gate' & rep & Hgate & Hcases)]; [congruence|].
  assert (gate' = gate) as -> by (destruct Hgate as [Hg']; congruence).
  assert (refuses force rep = true) as Hr.
  { unfold refuses. destruct Hblock as [Hf|(e & He & Hin)].
    - rewrite (ga_feed _ _ _ _ Hgate), (proj2 (isSome_true _) Hf), orb_true_r. done.
    - assert (e ∈ gr_halted rep) as Hh.
      { rewrite (ga_halted _ _ _ _ Hgate). apply list_elem_of_In, List.filter_In.
        rewrite <-list_elem_of_In. split; [done|]. apply existsb_exists.
        apply list_elem_of_fmap in Hin as (g & Hge & Hg0). exists g.
        rewrite <-list_elem_of_In, Hge, Z.eqb_refl. done. }
      destruct (gr_halted rep); [by apply elem_of_nil in Hh|done]. }
  destruct Hcases as [(_ & -> & Hm)|(Hr' & _)]; [|congruence]. split; [eauto|].
  injection Hm as <-. cbn. intros i q Hi Hq. destruct (decide (i = id)) as [->|Hne].
  - rewrite lookup_alter_eq, Hp in Hi. cbn in Hi. injection Hi as <-.
    case_bool_decide; [done|]. congruence.
  - by rewrite lookup_alter_ne in Hi.
Qed.
End close_laws.

(** * Truing the aggregate to the layers *)
Lemma sumZ_map_insert {B} (f : Z * Z * B → Z) (k : Z * Z) (v : B) (m : gmap (Z * Z) B) :
  (∀ w, f (k, w) = 0) →
  sumZ f (map_to_list (<[k := v]> m)) = sumZ f (map_to_list m).
Proof.
  intros Hf. rewrite <-insert_delete_eq, map_to_list_insert by apply lookup_delete_eq.
  rewrite sumZ_cons, Hf. destruct (m !! k) as [w|] eqn:E.
  - rewrite <-(insert_delete_id m k w) at 2 by done.
    rewrite map_to_list_insert by apply lookup_delete_eq. rewrite sumZ_cons, Hf. done.
  - by rewrite delete_id.
Qed.
Lemma layer_value_upsert p q r d :
  layer_value p (set_pool_state (<[(q, 0) := r]> (db_pool_state d)) d) = layer_value p d.
Proof. unfold layer_value. cbn. apply sumZ_map_insert. intros w. cbn. by rewrite andb_false_r. Qed.

(** The aggregate holds exactly the value of the open layers. *)
Definition trued (d : Db) (p : Z) : Prop :=
  ∀ r, db_pool_state d !! (p, 0) = Some r → ps_value_sum r = layer_value p d.

Section residue.
Context `{PgNumeric} (now : Timestamp).

Lemma apply_residue_Ok p d res d' :
  apply_residue p d = (Ok res, d') →
  trued d' p ∧ layer_value p d' = layer_value p d ∧
  match db_pool_state d !! (p, 0) with
  | None => res = 0
  | Some r => res = ps_value_sum r - layer_value p d
  end.
Proof.
  unfold apply_residue. intros Hrun.
  apply SE_bind_Ok in Hrun as (old & d0 & [= <- <-] & Hrun).
  apply SE_bind_Ok in Hrun as (lay & d0 & [= <- <-] & Hrun).
  apply SE_bind_Ok in Hrun as (v & d0 & [[-> _]%to_bigint_Ok ->]%sql_expr_Ok & Hrun).
  destruct (db_pool_state d !! (p, 0)) as [r|] eqn:Er.
  2:{ injection Hrun as <- <-. split_and!; [|done..]. intros r Hr. congruence. }
  destruct (Z.eqb_spec (ps_value_sum r) (layer_value p d)) as [Heq|Hne].
  { injection Hrun as <- <-. split_and!; [|done|lia]. intros r' Hr'. congruence. }
  apply SE_bind_Ok in Hrun as (u & d0 & Hu & Hrun).
  assert (d0 = d) by (destruct (0 <? ps_qty r); [by apply sql_expr_Ok in Hu as [_ ->]|by injection Hu]).
  subst d0. apply SE_bind_Ok in Hrun as (u' & d0 & Hup & Hrun). injection Hup as _ <-.
  apply sql_expr_Ok in Hrun as [[-> _]%to_bigint_Ok ->].
  split_and!; [|apply layer_value_upsert|done].
  intros r'. cbn [db_pool_state set_pool_state]. rewrite lookup_insert_eq. intros [= <-]. cbn [ps_value_sum].
  symmetry. apply layer_value_upsert.
Qed.

(** The journal entry of a residue. *)
Definition residue_booked (p residue i : Z) (d : Db) : Prop :=
  ∃ accounts variance pl, resolve_accounts p d = (Ok accounts, d) ∧
    acc_variance accounts = Some variance ∧ db_posting d !! i = Some pl ∧
    pr_amount pl = Z.abs residue ∧
    (pr_debit_account pl, pr_credit_account pl) =
      (if 0 <? residue then (variance, (acc_receipt accounts).1)
       else ((acc_receipt accounts).1, variance)).
Lemma resolve_accounts_cfg p d a d0 d' :
  db_cfg d' = db_cfg d → resolve_accounts p d = (Ok a, d0) → resolve_accounts p d' = (Ok a, d').
Proof.
  intros Hc. unfold resolve_accounts, mbind, SE_bind. cbn. rewrite Hc.
  repeat case_match; [by intros [= -> _]|done..].
Qed.
Lemma post_residue_Ok p residue trx d r d' :
  post_residue_gl now p residue trx d = (Ok r, d') →
  db_pool_state d' = db_pool_state d ∧ residue_booked p residue r.1 d'.
Proof.
  unfold post_residue_gl. intros Hrun.
  apply SE_bind_Ok in Hrun as (acc & d0 & Hacc & Hrun).
  assert (d0 = d).
  { unfold resolve_accounts in Hacc. apply SE_bind_Ok in Hacc as (x & d1 & [= <- <-] & Hacc).
    cbn in Hacc. repeat case_match; by injection Hacc. }
  subst d0. destruct (acc_variance acc) as [variance|] eqn:Ev; [|done].
  destruct (if 0 <? residue then _ else _) as [debit credit] eqn:Edc.
  apply SE_bind_Ok in Hrun as (amount & d0 & Ham & Hrun).
  destruct (checked_abs residue) as [a|] eqn:Ea; [|done]. injection Ham as <- <-.
  apply checked_abs_Some in Ea as [-> _].
  apply SE_bind_Ok in Hrun as (trx_id & d0 & Ht & Hrun).
  set (f := λ d : Db, (db_pool_state d, db_cfg d)).
  assert (f d0 = f d) as Hs0.
  { destruct trx; [by injection Ht as _ <-|]. unfold adjustment_trx in Ht.
    apply SE_bind_Ok in Ht as (sid & d1 & Hsid & Ht).
    apply (keeps_proj_nextval f) in Hsid; [|done].
    apply (keeps_proj_trx f) in Ht; [|done..]. unfold keeps_proj in *. congruence. }
  apply SE_bind_Ok in Hrun as (po & d1 & Hpo & Hrun). injection Hrun as <- <-.
  unfold adjustment_line in Hpo. apply SE_bind_Ok in Hpo as (lid & d2 & Hl & Hpo).
  apply (keeps_proj_line f) in Hl; [|done..]. unfold keeps_proj in Hl.
  assert (f d2 = f d) as [= Hst Hcf] by congruence.
  apply insert_posting_row_Ok in Hpo as [-> ->]. split; [exact Hst|].
  eexists acc, variance, _. split; [by eapply resolve_accounts_cfg|].
  split; [exact Ev|]. cbn. rewrite lookup_insert_eq. split_and!; [done|done|]. by rewrite Edc.
Qed.

(** The sweep of a pool trues its aggregate.  After the sweep the aggregate
    value equals the value of the pool's open cost layers; and when the sweep
    found a residue it journals exactly its absolute amount, from inventory to
    the variance account when the aggregate held too much and back when it held
    too little. *)
Theorem sweep_trues_aggregate p trx d s trx' d' :
  is_Some (db_pool_state d !! (p, 0)) →
  sweep_pool now p trx d = (Ok (s, trx'), d') →
  trued d' p ∧ sw_pool_id s = p ∧
  (sw_residue s = 0 ↔ sw_posting_line_id s = None) ∧
  (∀ i, sw_posting_line_id s = Some i → residue_booked p (sw_residue s) i d').
Proof.
  intros Hagg Hrun. unfold sweep_pool in Hrun.
  apply SE_bind_Ok in Hrun as (c & d0 & Hcl & Hrun).
  assert (db_pool_state d0 = db_pool_state d) as Hs0
    by (apply claim_pool_Ok in Hcl as (_ & _ & _ & [->| ->]); done).
  destruct (negb (is_strict (cl_method c))); [done|].
  apply SE_bind_Ok in Hrun as (has & d1 & Hhas & Hrun). injection Hhas as <- <-.
  rewrite Hs0, bool_decide_eq_true_2 in Hrun by done.
  apply SE_bind_Ok in Hrun as (outcome & d1 & _ & Hrun). destruct outcome as [m|drain]; [done|].
  destruct (ds_escalated drain); [done|].
  apply SE_bind_Ok in Hrun as (res & d2 & (Ht & Hlv & _)%apply_residue_Ok & Hrun).
  destruct (Z.eqb_spec res 0) as [->|Hne].
  - injection Hrun as <- <- <-. cbn. done.
  - apply SE_bind_Ok in Hrun as (r & d3 & Hpo & Hrun). injection Hrun as <- _ <-. cbn.
    apply post_residue_Ok in Hpo as [Hst Hbook].
    split_and!; [|done|split; [done|by intros [=]]|intros i [= <-]; exact Hbook].
    unfold trued, layer_value in *. by rewrite Hst.
Qed.
End residue.

(** * Worked closes *)
#[local] Existing Instance exact_numeric.
Lemma close_leaves_settled_witness :
  ∃ rep forced at_ swept rounds d',
    ledger_close_period (day_start 40) 1 "controller" true issued_db
      = (Ok (Closed rep forced at_ swept rounds), d') ∧ forced = true ∧ gr_feed rep = None.
Proof.
  destruct (ledger_close_period (day_start 40) 1 "controller" true issued_db) as [[out|e] d'] eqn:E;
    [|vm_compute in E; discriminate E].
  destruct out as [c|r f|rep forced at_ swept rounds];
    [vm_compute in E; discriminate E|vm_compute in E; discriminate E|].
  destruct (close_leaves_settled (day_start 40) 1 "controller" true issued_db rep forced at_ swept
    rounds d' E) as [Hfeed _].
  exists rep, forced, at_, swept, rounds, d'. split_and!; [done|vm_compute in E; by injection E|done].
Defined.

(** The feed is required and there is no slot. *)
Definition unfed_db : Db :=
  MkDb {| cfg_pool := cfg_pool scenario_cfg; cfg_standard_cost := cfg_standard_cost scenario_cfg;
          cfg_account_map := cfg_account_map scenario_cfg; cfg_bound_events := 200;
          cfg_low_water := 20; cfg_feed_required := true |}
    (db_period opening_db) ∅ ∅ ∅ ∅ ∅ ∅ ∅ ∅ [] ∅ ∅ ∅ None 0 (db_seqs opening_db).
Lemma force_cannot_bypass_witness :
  ∃ out d' rep, ledger_close_period (day_start 40) 1 "controller" true unfed_db = (Ok out, d') ∧
    out = NotClosed rep true.
Proof.
  destruct (ledger_close_period (day_start 40) 1 "controller" true unfed_db) as [[out|e] d'] eqn:E;
    [|vm_compute in E; discriminate E].
  destruct (force_cannot_bypass (day_start 40) 1 "controller" true unfed_db out d'
    (scenario_period 0 30) [] E) as [[rep Hrep] _];
    [vm_compute; reflexivity|vm_compute; reflexivity|vm_compute; reflexivity
    |left; vm_compute; eexists; reflexivity|].
  exists out, d', rep. split; [done|exact Hrep].
Defined.

Lemma sweep_trues_aggregate_witness :
  ∃ s trx d', sweep_pool (day_start 40) 4 None issued_db = (Ok (s, trx), d') ∧ trued d' 4.
Proof.
  destruct (sweep_pool (day_start 40) 4 None issued_db) as [[[s trx]|e] d'] eqn:E;
    [|vm_compute in E; discriminate E].
  exists s, trx, d'. split; [done|].
  eapply (sweep_trues_aggregate (day_start 40) 4 None issued_db s trx d'); [|exact E].
  vm_compute. eexists. reflexivity.
Defined.
