(* ===== verification/SubmitLaws.v ===== *)
(** Theorems about submissions: the single-statement hot path agrees with the
    planner and the bulk writer, the staging drain gives every claimed row an
    outcome, and which submissions the writer refuses. *)
From S2P Require Import Prelude Numeric Plan Snapshot Wac StandardCost SpecificId Method CostLaws.
From S2P Require Import Db BulkWrite Cte Submit Frame Footprint Scenario.

(** * The hot path against the planner *)
Lemma map_of_ids_one {A} (f : Z → option A) p : map_of_ids f [p] !! p = f p.
Proof.
  unfold map_of_ids. cbn. destruct (f p); cbn; [apply lookup_insert_eq|apply lookup_empty].
Qed.
Lemma hydrate_one_agg p d : agg_of (hydrate_snapshot [p] d) p = db_agg d p.
Proof.
  unfold agg_of, read_aggregate, aggregate, db_agg. cbn [hydrate_snapshot pools merge_sort].
  change (remove_dups (merge_sort Z.le [p])) with [p].
  rewrite map_of_ids_one. unfold hydrate_pool. destruct (db_pool_state d !! (p, 0)) as [r|]; [done|].
  assert (∀ ls : list (Z * StateRow), Forall (λ lr, 0 < lr.1) ls →
    List.find is_aggregate_row (map (λ lr, state_row lr.1 lr.2) ls) = None) as Hnone.
  { induction 1 as [|[i r] ls Hi _ IH]; [done|]. cbn. unfold is_aggregate_row at 1. cbn in *.
    destruct (Z.eqb_spec i 0); [lia|done]. }
  destruct (cfg_pool (db_cfg d) !! p) as [row|]; [|done].
  destruct (bool_decide _); [|done]. cbn [app].
  pose proof (Hnone (layers_by_id d p)) as Hn.
  destruct (map _ (layers_by_id d p)) eqn:E; [done|]. cbn [mbind option_bind].
  rewrite Hn; [done|]. unfold layers_by_id. rewrite merge_sort_Permutation.
  apply Forall_forall. intros [i r] Hin%list_elem_of_omap. destruct Hin as ([[p' i'] r'] & _ & Hin).
  cbn in Hin. destruct (_ && _) eqn:Hb; [|done]. injection Hin as <- <-.
  by apply andb_true_iff in Hb as [_ ?%Z.ltb_lt].
Qed.

Lemma apply_line_wac_iff t l s r st' :
  method_of s !! req_pool_id l = Some Wac → req_qty l ≠ 0 →
  apply_line t l (s, r) = (Ok tt, st') ↔
  (if 0 <? req_qty l then aggregate_receipt l t (s, r)
   else aggregate_deplete l t (agg_unit_cost (agg_of s (req_pool_id l))) (s, r)) = (Ok tt, st').
Proof.
  intros Hm Hq. split; [|by apply apply_line_wac_run]. unfold apply_line, apply_wac, agg_of.
  unfold mbind, SE_bind, snapshot, gets, returns, lift. cbn. rewrite Hm. cbn.
  rewrite (expect_method_Ok _ _ _ Hm).
  destruct (read_aggregate s (req_pool_id l)) as [[[q u] v] e].
  destruct (Z.compare_spec (req_qty l) 0), (Z.ltb_spec 0 (req_qty l)); try lia; done.
Qed.

(** The bulk writer on a plan of one line, one upsert and one posting. *)
Definition one_line_plan (o : TrxLineOutput) (p : Z) (a : Agg) (x : PostingLineRequest) : PlanResult :=
  add_line o [upsert p a] [x] plan_default.
Lemma apply_one_line_plan trx_id t o p a x d d' :
  pst_trx_line_idx x = 0%nat →
  apply_plan_result trx_id t (one_line_plan o p a x) d = (Ok tt, d') ↔
  line_admissible d (trx_line_row trx_id t o) ∧
  d' = add_posting (posting_row (next_trx_line (db_seqs d)) x)
         (add_trx_line (trx_line_row trx_id t o) (put_db_agg p a d)).
Proof.
  intros Hx. unfold apply_plan_result. rewrite SE_bind_Ok. cbn [one_line_plan add_line trx_lines
    plan_default app insert_trx_lines mapM pool_state_mutations posting_lines]. split.
  - intros (ids & d1 & Hins & Hrest).
    apply SE_bind_Ok in Hins as (ids0 & d2 & Hm & [= <- <-]).
    apply SE_bind_Ok in Hm as (id & d3 & (Hadm & -> & ->)%insert_trx_line_row_Ok & Hm).
    injection Hm as <- <-. cbn in Hrest. rewrite Hx in Hrest.
    unfold mbind, SE_bind in Hrest. cbn in Hrest. injection Hrest as <-. done.
  - intros [Hadm ->]. eexists [next_trx_line (db_seqs d)], _. split.
    + apply SE_bind_Ok. eexists [_], _. split; [|done].
      apply SE_bind_Ok. eexists _, _. split; [by apply insert_trx_line_row_Ok|]. done.
    + cbn. rewrite Hx. done.
Qed.

(** A configured, storable line on a running-average pool whose quotients keep
    their fraction in [numeric]. *)
Record hot_line (d : Db) (cfg : PoolCfg) (l : TrxLineRequest) : Prop := {
  hl_cfg : pool_cfg d (req_pool_id l) = Some cfg;
  hl_method : pc_method cfg = Wac;
  hl_accounts : is_Some (pc_accounts cfg);
  hl_qty : req_qty l ≠ 0;
  hl_i64 : in_i64 (req_qty l) ∧ in_i64 (req_unit_cost l);
  hl_state : agg_in_i64 (db_agg d (req_pool_id l)) ∧ 0 ≤ agg_qty (db_agg d (req_pool_id l));
  hl_exact_line : 0 < req_qty l → numeric_exact (req_qty l * req_unit_cost l) (req_qty l);
  hl_exact : let a' := wac_line (db_agg d (req_pool_id l)) l in
             0 < agg_qty a' → numeric_exact (agg_value a') (agg_qty a');
}.

Section hot_path.
Context `{PgNumericLaws}.
Context (d : Db) (cfg : PoolCfg) (l : TrxLineRequest) (trx_id : Z) (t : Timestamp).
Hypothesis Hl : hot_line d cfg l.

Lemma hot_snapshot accts :
  pc_accounts cfg = Some accts →
  method_of (hydrate_snapshot [req_pool_id l] d) !! req_pool_id l = Some Wac ∧
  posting_accounts_of (hydrate_snapshot [req_pool_id l] d) !! req_pool_id l = Some accts.
Proof.
  intros Ha. destruct Hl as [Hc Hm _ _ _ _ _ _]. unfold pool_cfg in Hc.
  apply bind_Some in Hc as (row & Hrow & [= <-]). cbn [hydrate_snapshot method_of
    posting_accounts_of pc_method pc_accounts] in *.
  change (remove_dups (merge_sort Z.le [req_pool_id l])) with [req_pool_id l].
  rewrite !map_of_ids_one, Hrow. cbn. by rewrite Hm, Ha.
Qed.

Lemma hot_plan r s' :
  plan_apply (hydrate_snapshot [req_pool_id l] d) [l] t = (Ok r, s') ↔
  apply_line t l (hydrate_snapshot [req_pool_id l] d, plan_default) = (Ok tt, (s', r)).
Proof.
  unfold plan_apply. cbn [iterM]. unfold mbind, SE_bind.
  destruct (apply_line t l _) as [[[]|e] [s1 r1]]; cbn; split; congruence.
Qed.

Lemma hot_receipt accts d' :
  pc_accounts cfg = Some accts → 0 < req_qty l →
  dispatch_cte_line cfg trx_id t l d = (Ok tt, d') ↔
  ∃ r s', plan_apply (hydrate_snapshot [req_pool_id l] d) [l] t = (Ok r, s') ∧
    apply_plan_result trx_id t r d = (Ok tt, d').
Proof.
  intros Ha Hq. destruct (hot_snapshot _ Ha) as [Hm Hacc].
  destruct Hl as [Hc Hwac _ Hq0 [Hqi Hci] [Hst Hnn] Hex Hex'].
  unfold wac_line in Hex'. rewrite (proj2 (Z.compare_gt_iff _ _) Hq) in Hex'. cbn in Hex'.
  unfold dispatch_cte_line. rewrite Ha, Hwac, (proj2 (Z.ltb_lt _ _) Hq).
  destruct (pair_for accts (req_line_type l)) as [debit credit] eqn:Ep.
  unfold expect_row. rewrite SE_bind_Ok.
  setoid_rewrite wac_receipt_spec; [|done..|auto|apply Hex'; cbn; lia].
  setoid_rewrite hot_plan. setoid_rewrite apply_line_wac_iff; [|done..].
  rewrite (proj2 (Z.ltb_lt _ _) Hq). setoid_rewrite aggregate_receipt_spec.
  rewrite hydrate_one_agg. split.
  - intros (res & d1 & (Hiq & Hiv & Hiu & Hamt & Hadm & -> & ->) & [= <-]).
    eexists (one_line_plan _ _ _ _), _. split.
    + exists accts. split_and!; try done.
    + apply apply_one_line_plan; [done|]. split; [exact Hadm|]. cbn. by rewrite Ep.
  - intros (r & s' & (accts' & Hacc' & Hiq & Hiv & Hiu & Hamt & [= -> ->]) & Hap).
    rewrite Hacc in Hacc'. injection Hacc' as <-.
    apply apply_one_line_plan in Hap as [Hadm ->]; [|done]. cbn. rewrite Ep.
    eexists (Some _), _. split; [|done]. split_and!; try done. apply Hiu. cbn. lia.
Qed.

Lemma hot_deplete accts d' :
  pc_accounts cfg = Some accts → req_qty l < 0 →
  dispatch_cte_line cfg trx_id t l d = (Ok tt, d') ↔
  ∃ r s', plan_apply (hydrate_snapshot [req_pool_id l] d) [l] t = (Ok r, s') ∧
    apply_plan_result trx_id t r d = (Ok tt, d').
Proof.
  intros Ha Hq. destruct (hot_snapshot _ Ha) as [Hm Hacc].
  destruct Hl as [Hc Hwac _ Hq0 [Hqi Hci] [(Hsq & Hsu & Hsv) Hnn] _ Hex].
  unfold wac_line in Hex. rewrite (proj2 (Z.compare_lt_iff _ _) Hq) in Hex. cbn in Hex.
  unfold dispatch_cte_line. rewrite Ha, Hwac, (proj2 (Z.ltb_ge _ _)) by lia.
  destruct (pair_for accts (req_line_type l)) as [debit credit] eqn:Ep.
  setoid_rewrite hot_plan. setoid_rewrite apply_line_wac_iff; [|done..].
  rewrite (proj2 (Z.ltb_ge _ _)) by lia.
  setoid_rewrite aggregate_deplete_spec; [|by rewrite hydrate_one_agg]. rewrite hydrate_one_agg.
  rewrite SE_bind_Ok. unfold abs_qty. split.
  - intros (n & d1 & Hn & Hrun). destruct (checked_abs _) eqn:En; [|done].
    injection Hn as <- <-. apply checked_abs_Some in En as [-> Hni].
    apply SE_bind_Ok in Hrun as (res & d1 & Hrun & Hres).
    apply wac_deplete_spec in Hrun as [(_ & -> & _)|(Hle & Hin & Hamt & Hadm & -> & ->)];
      [discriminate Hres| |lia|done..|intros; apply Hex; cbn; lia].
    injection Hres as <-. eexists (one_line_plan _ _ _ _), _. split.
    + exists accts. split_and!; try done; intros; by apply Hin.
    + apply apply_one_line_plan; [done|]. cbn. rewrite Ep. cbn.
      replace (0 - Z.abs (req_qty l)) with (req_qty l) in * by lia. done.
  - intros (r & s' & (accts' & Hacc' & Hni & Hle & Hamt & Hv & Hu & [= -> ->]) & Hap).
    rewrite Hacc in Hacc'. injection Hacc' as <-.
    apply apply_one_line_plan in Hap as [Hadm ->]; [|done]. cbn. rewrite Ep. cbn.
    eexists _, d. split; [unfold checked_abs; by rewrite i64_try_from_in|].
    apply SE_bind_Ok. eexists (Some _), _. split; [|done].
    apply wac_deplete_spec; [lia|done..|intros; apply Hex; cbn; lia|]. right.
    replace (0 - Z.abs (req_qty l)) with (req_qty l) by lia.
    split_and!; try done; auto.
Qed.
End hot_path.

(** C23: the single-statement hot path implements the planner.  On a configured
    running-average pool, dispatching a line to WAC_RECEIPT or WAC_DEPLETE
    succeeds exactly when planning that line on the hydrated snapshot and writing
    the plan with the bulk writer succeeds, and both leave the same database:
    same aggregate, transaction line, posting, accounts and ids. *)
Theorem wac_hot_path_refines `{PgNumericLaws} d cfg l trx_id t d' :
  hot_line d cfg l →
  dispatch_cte_line cfg trx_id t l d = (Ok tt, d') ↔
  ∃ r s', plan_apply (hydrate_snapshot [req_pool_id l] d) [l] t = (Ok r, s') ∧
    apply_plan_result trx_id t r d = (Ok tt, d').
Proof.
  intros Hl. destruct (hl_accounts _ _ _ Hl) as [accts Ha]. pose proof (hl_qty _ _ _ Hl).
  destruct (Z.lt_total 0 (req_qty l)) as [?|[?|?]];
    [by eapply hot_receipt|lia|by eapply hot_deplete].
Qed.

Section hot_path_example.
#[local] Existing Instances exact_numeric exact_numeric_laws.
Definition hot_cfg : PoolCfg :=
  {| pc_method := Wac; pc_standard_basis := false; pc_sku_id := 11; pc_location_id := 1;
     pc_accounts := Some example_accounts; pc_standard_cost := None |}.
Lemma stocked_hot_line : hot_line stocked_db hot_cfg (receipt_line 1 (-3) 0).
Proof.
  assert (db_agg stocked_db 1 = {| agg_qty := 10; agg_unit_cost := 8; agg_value := 80 |}) as Ha
    by (vm_compute; reflexivity).
  split; [vm_compute; reflexivity|done|by eexists|done| | | |].
  - split; cbn; solve_i64.
  - cbn [receipt_line req_pool_id]. rewrite Ha. unfold agg_in_i64. cbn. split_and!; solve_i64.
  - done.
  - cbn [receipt_line req_pool_id]. rewrite Ha. done.
Qed.
Lemma wac_hot_path_refines_witness :
  ∃ r s' d', plan_apply (hydrate_snapshot [1] stocked_db) [receipt_line 1 (-3) 0] 0 = (Ok r, s') ∧
    apply_plan_result 7 0 r stocked_db = (Ok tt, d') ∧
    db_pool_state d' !! (1, 0) =
      Some {| ps_qty := 7; ps_unit_cost := 8; ps_value_sum := 56 |}.
Proof.
  destruct (dispatch_cte_line hot_cfg 7 0 (receipt_line 1 (-3) 0) stocked_db) as [[[]|e] d'] eqn:E;
    [|vm_compute in E; discriminate E].
  destruct (proj1 (wac_hot_path_refines stocked_db hot_cfg (receipt_line 1 (-3) 0) 7 0 d'
    stocked_hot_line) E) as (r & s' & Hp & Hw).
  exists r, s', d'. split; [exact Hp|]. split; [exact Hw|].
  vm_compute in E. injection E as <-. reflexivity.
Defined.
End hot_path_example.

(** * The document key *)
(** A computation that neither reads nor writes the database. *)
Definition silent {A} (m : Tx A) : Prop := ∃ r, ∀ d, m d = (r, d).
Lemma silent_Ok {A} (m : Tx A) d a d' :
  silent m → m d = (Ok a, d') → d' = d ∧ ∀ d2, m d2 = (Ok a, d2).
Proof. intros [r Hr]. rewrite Hr. intros [= -> <-]. done. Qed.
Lemma silent_bind {A B} (m : Tx A) (k : A → Tx B) :
  silent m → (∀ a, silent (k a)) → silent (m ≫= k).
Proof.
  intros [[a|e] Hm] Hk; [destruct (Hk a) as [r Hr]; exists r|exists (Err e)];
    intros d; unfold mbind, SE_bind; by rewrite Hm.
Qed.
Lemma decode_lines_silent i ls : silent (decode_lines_from i ls).
Proof.
  revert i. induction ls as [|l ls IH]; intros i; cbn; [by eexists|].
  destruct (_ =? _); [apply IH|]. destruct (decode_line_type _); [|by eexists].
  apply silent_bind; [apply IH|by eexists].
Qed.
Lemma check_cfg_silent cfgs ps : silent (iterM (check_cfg cfgs) ps).
Proof.
  induction ps as [|p ps IH]; cbn; [by eexists|]. apply silent_bind; [|done].
  unfold check_cfg. destruct (cfgs !! p) as [c|]; [|by eexists]. destruct (pc_accounts c); by eexists.
Qed.

Definition key_taken (trx_type : string) (source_id : Z) (d : Db) : Prop :=
  map_Exists (λ _ r, trx_trx_type r = trx_type ∧ trx_source_id r = source_id) (db_trx d).
Lemma insert_trx_Ok tt_ src t d id d' :
  insert_trx tt_ src t d = (Ok id, d') →
  tt_ ∈ trx_types ∧ ¬ key_taken tt_ src d ∧
  db_trx d' !! id = Some {| trx_trx_type := tt_; trx_source_id := src; trx_posted_at := t |}.
Proof.
  unfold insert_trx, insert_trx_row. cbn [trx_trx_type trx_source_id].
  case_bool_decide as Hin; [|done]. unfold mbind, SE_bind. rewrite nextval_run. cbn.
  case_bool_decide as Hk; cbn; [done|]. intros [= <- <-]. cbn.
  split_and!; [done..|]. by rewrite lookup_insert_eq.
Qed.
Lemma insert_trx_taken tt_ src t d :
  tt_ ∈ trx_types → key_taken tt_ src d →
  insert_trx tt_ src t d =
    (Err (SqlRaised "23505" "trx_trx_type_source_id_key"), set_seqs (with_next_trx (db_seqs d)) d).
Proof.
  intros Hin Hk. unfold insert_trx, insert_trx_row. cbn [trx_trx_type trx_source_id].
  rewrite bool_decide_eq_true_2 by done. unfold mbind, SE_bind. rewrite nextval_run. cbn.
  by rewrite bool_decide_eq_true_2 by exact Hk.
Qed.
Lemma key_taken_grows tt_ src d d' : fresh d → grows d d' → key_taken tt_ src d → key_taken tt_ src d'.
Proof.
  intros Hf [_ _ _ Hg] (i & r & Hi & Hr). exists i, r. split; [|done].
  eapply lookup_weaken; [exact Hi|]. apply (Hg Hf).
Qed.
Lemma resolve_cfgs_cfg ps d d' : db_cfg d' = db_cfg d → resolve_cfgs ps d' = resolve_cfgs ps d.
Proof. intros Hc. unfold resolve_cfgs, map_of_ids, pool_cfg. by rewrite Hc. Qed.

(** What a successful submission tells about its checks and its header row. *)
Lemma apply_submission_Ok `{PgNumeric} tt_ src t ls b d id d' :
  apply_submission tt_ src t ls b d = (Ok id, d') →
  ∃ lines d1,
    let touched := btree_set (map (λ il, req_pool_id il.2) lines) in
    let cfgs := resolve_cfgs touched d in
    (∀ d2, decode_lines_from 0 ls d2 = (Ok lines, d2)) ∧
    (∀ d2, iterM (check_cfg cfgs) touched d2 = (Ok tt, d2)) ∧
    insert_trx tt_ src t d = (Ok id, d1) ∧
    (core_phase id t (map snd (List.filter (λ il, is_core cfgs (req_pool_id il.2)) lines));;
     cte_phase cfgs id t lines) d1 = (Ok tt, d').
Proof.
  unfold apply_submission. intros (lines & d0 & Hdec & Hrun)%SE_bind_Ok.
  apply silent_Ok in Hdec as [-> Hdec]; [|apply decode_lines_silent].
  apply SE_bind_Ok in Hrun as (u & d0 & Hbp & Hrun).
  assert (d0 = d) as ->.
  { destruct b; [|by injection Hbp]. unfold check_backpressure in Hbp.
    apply SE_bind_Ok in Hbp as (bp & d2 & [= <- <-] & Hbp). destruct (List.find _ _); [done|].
    by injection Hbp. }
  apply SE_bind_Ok in Hrun as (cfgs & d0 & [= <- <-] & Hrun).
  apply SE_bind_Ok in Hrun as ([] & d0 & Hchk & Hrun).
  apply silent_Ok in Hchk as [-> Hchk]; [|apply check_cfg_silent].
  apply SE_bind_Ok in Hrun as (id' & d1 & Hins & Hrun).
  apply SE_bind_Ok in Hrun as ([] & d2 & Hcore & Hrun).
  apply SE_bind_Ok in Hrun as ([] & d3 & Hcte & [= <- <-]).
  exists lines, d1. split_and!; [done..|]. by rewrite (SE_bind_run _ _ _ _ _ Hcore).
Qed.

(** The repeat of a submission whose key is taken. *)
Lemma apply_submission_repeat `{PgNumeric} tt_ src t t' ls b d id d1 d2 :
  apply_submission tt_ src t ls b d = (Ok id, d1) → db_cfg d2 = db_cfg d →
  key_taken tt_ src d2 →
  apply_submission tt_ src t' ls false d2 =
    (Err (SqlRaised "23505" "trx_trx_type_source_id_key"), set_seqs (with_next_trx (db_seqs d2)) d2).
Proof.
  intros (lines & d1' & Hdec & Hchk & Hins & _)%apply_submission_Ok Hcfg Hk.
  apply insert_trx_Ok in Hins as (Htt & _ & _). unfold apply_submission.
  rewrite (SE_bind_run _ _ _ _ _ (Hdec d2)), (SE_bind_run _ _ _ tt d2) by done.
  rewrite (SE_bind_run _ _ _ (resolve_cfgs (btree_set (map (λ il, req_pool_id il.2) lines)) d2) d2)
    by done.
  rewrite (resolve_cfgs_cfg _ d d2 Hcfg), (SE_bind_run _ _ _ _ _ (Hchk d2)).
  unfold mbind, SE_bind at 1. by rewrite insert_trx_taken.
Qed.
Lemma apply_submission_taken `{PgNumeric} tt_ src t ls b d id d' :
  key_taken tt_ src d → apply_submission tt_ src t ls b d ≠ (Ok id, d').
Proof.
  intros Hk (lines & d1 & _ & _ & (_ & Hn & _)%insert_trx_Ok & _)%apply_submission_Ok. done.
Qed.
(** A successful submission takes its key. *)
#[local] Hint Resolve apply_plan_result_frame dispatch_cte_line_frame : frame.
Lemma apply_submission_takes `{PgNumeric} tt_ src t ls b d id d' :
  fresh d → apply_submission tt_ src t ls b d = (Ok id, d') →
  db_trx d' !! id = Some {| trx_trx_type := tt_; trx_source_id := src; trx_posted_at := t |}.
Proof.
  intros Hf (lines & d1 & _ & _ & Hins & Hrun)%apply_submission_Ok.
  pose proof (step_ok_insert_trx_row _ _ _ _ Hins) as G1.
  destruct (gw_appended _ _ G1 Hf) as [Hf1 _]. apply insert_trx_Ok in Hins as (_ & _ & Hid).
  eapply lookup_weaken; [exact Hid|].
  assert (grows d1 d') as G2; [|by apply (gw_appended _ _ G2 Hf1)].
  eapply (step_ok_bind grows); [| |exact Hrun].
  - unfold core_phase, lock_pool_rows. frame.
  - intros ?. unfold cte_phase. frame.
Qed.

(** * One strict line per pool *)
Definition upserts_own (l : TrxLineRequest) (r r' : PlanResult) : Prop :=
  aggregate_pools (pool_state_mutations r') =
    aggregate_pools (pool_state_mutations r) ++ (if req_qty l =? 0 then [] else [req_pool_id l]).

Ltac solve_upserts := unfold aggregate_pools; cbn; rewrite !omap_app; cbn; by rewrite ?app_nil_r.
Lemma apply_line_upserts t l st st' :
  apply_line t l st = (Ok tt, st') → upserts_own l st.2 st'.2.
Proof.
  unfold apply_line. intros H. core_inv. unfold upserts_own.
  unfold apply_fifo, apply_lifo, apply_wac, standard.apply_std, specific.apply_specific in *.
  destruct x; core_inv;
    rewrite ?Z.compare_eq_iff, ?Z.compare_lt_iff, ?Z.compare_gt_iff, ?Z.eqb_eq, ?Z.eqb_neq in *;
    destruct (Z.eqb_spec (req_qty l) 0); try lia; try (by rewrite app_nil_r);
    unfold aggregate_receipt, aggregate_deplete, standard.receipt, standard.deplete,
      standard.post_variance, specific.receipt, specific.deplete in *; core_inv; solve_upserts.
Qed.
Lemma plan_upserts s ls t r s' :
  plan_apply s ls t = (Ok r, s') →
  aggregate_pools (pool_state_mutations r) = map req_pool_id (nonzero_lines ls).
Proof.
  unfold plan_apply. destruct (iterM _ _ _) as [[[]|e] [s1 r1]] eqn:E; intros [=]; subst.
  change r with (s', r).2.
  apply (iterM_ind (λ k st, aggregate_pools (pool_state_mutations st.2) =
    map req_pool_id (nonzero_lines k)) (apply_line t) ls) in E; [exact E|done|].
  intros k a st1 st2 _ Hk Hrun. apply apply_line_upserts in Hrun. rewrite Hrun, Hk.
  unfold nonzero_lines. rewrite filter_app, map_app. f_equal.
  rewrite filter_cons, filter_nil. destruct (Z.eqb_spec (req_qty a) 0); case_decide; done.
Qed.
Lemma batch_upserts ms ids d b d' :
  batch_mutations ms ids d = (Ok b, d') → map fst (bt_upserts b) = aggregate_pools ms.
Proof.
  revert b d'. induction ms as [|m ms IH]; intros b d'; cbn.
  { by intros [= <- <-]. }
  destruct m as [p q u v|p i q u v|p l].
  - intros (b' & d1 & Hb & [= <- <-])%SE_bind_Ok. cbn. f_equal. by eapply IH.
  - destruct (ids !! i); [|done]. intros (b' & d1 & Hb & [= <- <-])%SE_bind_Ok. exact (IH _ _ Hb).
  - intros (b' & d1 & Hb & [= <- <-])%SE_bind_Ok. exact (IH _ _ Hb).
Qed.
Lemma apply_plan_upserts trx_id t r d d' :
  apply_plan_result trx_id t r d = (Ok tt, d') → NoDup (aggregate_pools (pool_state_mutations r)).
Proof.
  unfold apply_plan_result. intros (ids & d1 & _ & Hrun)%SE_bind_Ok.
  apply SE_bind_Ok in Hrun as ([] & d2 & Hrun & _). unfold apply_pool_state_mutations in Hrun.
  apply SE_bind_Ok in Hrun as (b & d3 & Hb & Hrun). apply batch_upserts in Hb as <-.
  apply SE_bind_Ok in Hrun as ([] & d4 & Hup & _). unfold upsert_aggregates in Hup.
  by case_bool_decide.
Qed.
Lemma filter_all {A} (P : A → Prop) `{∀ x, Decision (P x)} l : Forall P l → filter P l = l.
Proof. induction 1 as [|x l Hx _ IH]; [done|]. by rewrite filter_cons_True, IH. Qed.
Lemma core_phase_pools id t ls d d' :
  Forall (λ l, req_qty l ≠ 0) ls →
  core_phase id t ls d = (Ok tt, d') → NoDup (map req_pool_id ls).
Proof.
  intros Hnz. unfold core_phase. destruct ls as [|l ls]; [by constructor|].
  intros (u & d1 & [= <- <-] & Hrun)%SE_bind_Ok.
  apply SE_bind_Ok in Hrun as (s & d1 & [= <- <-] & Hrun).
  destruct (plan_apply _ _ _) as [[r|[e|m]] s'] eqn:Hp; [|done..].
  apply plan_upserts in Hp. apply apply_plan_upserts in Hrun. rewrite Hp in Hrun.
  unfold nonzero_lines in Hrun. by rewrite filter_all in Hrun.
Qed.

(** The lines of a submission that count, and those that go to the planner. *)
Definition counted (ls : list LineJson) : list LineJson :=
  List.filter (λ l, negb (lj_qty l =? 0)) ls.
Definition core_pool (d : Db) (p : Z) : bool :=
  match cfg_pool (db_cfg d) !! p with
  | Some row => bool_decide (pool_method row = Std) || bool_decide (pool_method row = Specific)
  | None => false
  end.
Lemma decode_lines_pools ls i d lines d' :
  decode_lines_from i ls d = (Ok lines, d') →
  map (λ il, req_pool_id il.2) lines = map lj_pool_id (counted ls) ∧
  Forall (λ il, req_qty il.2 ≠ 0) lines.
Proof.
  revert i d lines d'. induction ls as [|l ls IH]; intros i d lines d'; cbn.
  { intros [= <- _]. split; constructor. }
  destruct (Z.eqb_spec (lj_qty l) 0) as [|Hq]; cbn; [apply IH|].
  destruct (decode_line_type _); [|done]. intros (rest & d1 & Hr & [= <- _])%SE_bind_Ok.
  destruct (IH _ _ _ _ Hr) as [Hp Hz]. split; cbn; [by f_equal|by constructor].
Qed.
Lemma map_of_ids_lookup {A} (f : Z → option A) ids p :
  p ∈ ids → map_of_ids f ids !! p = f p.
Proof.
  unfold map_of_ids. induction ids as [|q ids IH]; [by intros ?%elem_of_nil|]. cbn.
  destruct (decide (p = q)) as [->|Hne].
  - intros _. destruct (f q) as [a|] eqn:Hq; cbn; [by rewrite lookup_insert_eq|].
    apply not_elem_of_list_to_map_1. intros (x & Hx & Hin)%list_elem_of_fmap.
    apply list_elem_of_omap in Hin as (y & _ & Hy). destruct (f y) eqn:Ey; [|done].
    cbn in Hy. by simplify_eq/=.
  - intros [?|Hin]%elem_of_cons; [done|]. destruct (f q); cbn; [rewrite lookup_insert_ne by done|];
      by apply IH.
Qed.
Lemma is_core_resolve d ps p :
  p ∈ ps → is_core (resolve_cfgs (btree_set ps) d) p = core_pool d p.
Proof.
  intros Hp. unfold is_core, resolve_cfgs, core_pool.
  rewrite map_of_ids_lookup by (unfold btree_set; by rewrite merge_sort_Permutation, elem_of_remove_dups).
  unfold pool_cfg. by destruct (cfg_pool (db_cfg d) !! p).
Qed.
Lemma core_lines_pools d (lines : list numbered) js :
  map (λ il, req_pool_id il.2) lines = map lj_pool_id js →
  let cfgs := resolve_cfgs (btree_set (map (λ il, req_pool_id il.2) lines)) d in
  map req_pool_id (map snd (List.filter (λ il, is_core cfgs (req_pool_id il.2)) lines)) =
    map lj_pool_id (List.filter (λ l, core_pool d (lj_pool_id l)) js).
Proof.
  intros Heq cfgs. assert (∀ p, p ∈ map (λ il, req_pool_id il.2) lines → is_core cfgs p = core_pool d p)
    as Hcore by (intros; by apply is_core_resolve).
  clearbody cfgs. revert js Heq. induction lines as [|il lines IH]; intros [|j js] Heq; try done.
  injection Heq as Hp Heq. cbn. rewrite Hcore, Hp by (cbn; by left).
  assert (∀ p, p ∈ map (λ il, req_pool_id il.2) lines → is_core cfgs p = core_pool d p)
    as Hcore' by (intros; apply Hcore; cbn; by right).
  destruct (core_pool d (lj_pool_id j)); cbn; [f_equal; [done|]|]; by apply IH.
Qed.

(** The strict writer takes one line per pool.  A submission that goes
    through has at most one nonzero line on each standard-cost or specific pool:
    the planner emits one aggregate upsert per nonzero line, and the bulk upsert
    refuses two for one pool. *)
Theorem one_core_line_per_pool `{PgNumeric} trx_type source_id t ls bp d id d' :
  apply_submission trx_type source_id t ls bp d = (Ok id, d') →
  NoDup (map lj_pool_id (List.filter (λ l, core_pool d (lj_pool_id l)) (counted ls))).
Proof.
  intros (lines & d1 & Hdec & _ & _ & Hrun)%apply_submission_Ok.
  destruct (decode_lines_pools _ _ _ _ _ (Hdec d)) as [Hp Hz].
  apply SE_bind_Ok in Hrun as ([] & d2 & Hcore & _). rewrite <-(core_lines_pools d lines _ Hp).
  eapply core_phase_pools; [|exact Hcore]. apply Forall_map. cbn.
  apply Forall_forall. intros il [Hin _]%list_elem_of_In%List.filter_In.
  by apply list_elem_of_In, (proj1 (Forall_forall _ _) Hz) in Hin.
Qed.

(** Two receipts into the standard-cost pool: the planner accepts them, the
    writer refuses its plan. *)
#[local] Existing Instance exact_numeric.
Definition twice : list LineJson := [receipt_json 2 4 8; receipt_json 2 5 8].
Lemma one_core_line_per_pool_witness :
  NoDup [2] ∧
  (∃ r s', plan_apply (hydrate_snapshot [2] opening_db)
             [receipt_line 2 4 8; receipt_line 2 5 8] 0 = (Ok r, s')) ∧
  (submit_on 10 1 twice opening_db).1 = Err (SqlRaised "21000"
    "ON CONFLICT DO UPDATE command cannot affect row a second time").
Proof.
  split.
  - destruct (submit_on 10 1 (map (λ p, receipt_json p 10 8) [1; 2; 4]) opening_db)
      as [[id|e] d'] eqn:E; [|vm_compute in E; discriminate E].
    exact (one_core_line_per_pool "po_receipt" 1 (day_start 10)
      (map (λ p, receipt_json p 10 8) [1; 2; 4]) true opening_db id d' E).
  - split; [|vm_compute; reflexivity]. eexists _, _. vm_compute. reflexivity.
Defined.

(** * The staging drain *)
Lemma subtransaction_grows {A} (m : Tx A) : step_ok grows m → step_ok grows (subtransaction m).
Proof.
  intros Hm d r d'. unfold subtransaction. destruct (m d) as [[a|e] d1] eqn:E; intros [= _ <-].
  - by eapply Hm.
  - eapply grows_rollback, Hm, E.
Qed.
Definition same_inbox : relation Db := keeps_proj db_inbox.
#[global] Instance same_inbox_submit : SubmitFrame same_inbox.
Proof. by apply keeps_proj_submit. Qed.

Definition settled_status (s : InboxStatus) : Prop := s ≠ Pending.
(** The outcome recorded for a claimed row: settled, and backed by the header
    row of its document when it says the submission went through. *)
Definition outcome_ok (d : Db) (ir : Z * InboxRow) (o : Z * InboxStatus) : Prop :=
  o.1 = ir.1 ∧ settled_status o.2 ∧
  (o.2 = Done → key_taken (inb_trx_type ir.2) (inb_source_id ir.2) d).

Section drain.
Context `{PgNumeric} (from_micros : Z → option Timestamp) (message : PgError → string).

Lemma apply_claimed_run ir d :
  fresh d →
  ∃ o d', apply_claimed from_micros message ir d = (Ok o, d') ∧
    outcome_ok d' ir o ∧ db_inbox d' = db_inbox d ∧ grows d d'.
Proof.
  intros Hf. destruct ir as [i r]. unfold apply_claimed.
  destruct (from_micros (inb_posted_at r)) as [t|];
    [|eexists _, _; split; [reflexivity|]; unfold outcome_ok, settled_status; split_and!; done].
  destruct (inb_lines r) as [ls|];
    [|eexists _, _; split; [reflexivity|]; unfold outcome_ok, settled_status; split_and!; done].
  set (m := apply_submission (inb_trx_type r) (inb_source_id r) t ls false).
  assert (step_ok grows m) as Hg by (apply apply_submission_frame, _).
  assert (step_ok same_inbox m) as Hi by (apply apply_submission_frame, _).
  unfold subtransaction, mbind, SE_bind. destruct (m d) as [[id|e] d1] eqn:E.
  - pose proof (Hg _ _ _ E) as G. eexists _, _. split; [reflexivity|].
    unfold outcome_ok, settled_status. cbn. split_and!; [done|done| | |done].
    + intros _. exists id, {| trx_trx_type := inb_trx_type r; trx_source_id := inb_source_id r;
        trx_posted_at := t |}. split; [|done]. by eapply apply_submission_takes.
    + by apply Hi in E.
  - eexists _, _. split; [reflexivity|]. unfold outcome_ok, settled_status.
    split_and!; try done. eapply grows_rollback, Hg, E.
Qed.

Lemma drain_outcomes raw d :
  fresh d →
  ∃ os d', mapM (apply_claimed from_micros message) raw d = (Ok os, d') ∧
    Forall2 (outcome_ok d') raw os ∧ db_inbox d' = db_inbox d ∧ grows d d'.
Proof.
  revert d. induction raw as [|ir raw IH]; intros d Hf.
  { exists [], d. split_and!; [done|constructor|done|done]. }
  destruct (apply_claimed_run ir d Hf) as (o & d1 & E1 & H1 & I1 & G1).
  destruct (gw_appended _ _ G1 Hf) as [Hf1 _].
  destruct (IH d1 Hf1) as (os & d2 & E2 & H2 & I2 & G2).
  exists (o :: os), d2. split_and!.
  - cbn. by rewrite (SE_bind_run _ _ _ _ _ E1), (SE_bind_run _ _ _ _ _ E2).
  - constructor; [|done]. destruct H1 as (? & ? & Hd). split_and!; [done..|].
    intros Ho. eapply key_taken_grows; [exact Hf1|exact G2|by apply Hd].
  - congruence.
  - by transitivity d1.
Qed.
End drain.

Lemma set_status_run os d :
  ∃ d', iterM (λ o, set_status o.1 o.2) os d = (Ok tt, d') ∧ db_trx d' = db_trx d ∧
    db_inbox d' = foldl (λ m o, alter (with_status o.2) o.1 m) (db_inbox d) os.
Proof.
  revert d. induction os as [|o os IH]; intros d; [by exists d|].
  destruct (IH (set_inbox (alter (with_status o.2) o.1 (db_inbox d)) d)) as (d' & E & Ht & Hi).
  by exists d'.
Qed.
Lemma statuses_other (os : list (Z * InboxStatus)) (m : gmap Z InboxRow) i :
  i ∉ map fst os → foldl (λ m o, alter (with_status o.2) o.1 m) m os !! i = m !! i.
Proof.
  revert m. induction os as [|o os IH]; intros m Hi; [done|]. cbn in *.
  apply not_elem_of_cons in Hi as [Hne Hi]. rewrite (IH _ Hi). by rewrite lookup_alter_ne.
Qed.
Lemma statuses_member (os : list (Z * InboxStatus)) (m : gmap Z InboxRow) i s :
  NoDup (map fst os) → (i, s) ∈ os →
  foldl (λ m o, alter (with_status o.2) o.1 m) m os !! i = with_status s <$> m !! i.
Proof.
  revert m. induction os as [|o os IH]; intros m Hnd Hin; [by apply elem_of_nil in Hin|]. cbn in *.
  apply NoDup_cons in Hnd as [Ho Hnd]. apply elem_of_cons in Hin as [<-|Hin].
  - rewrite statuses_other by done. by rewrite lookup_alter_eq.
  - rewrite (IH _ Hnd Hin), lookup_alter_ne; [done|]. intros <-. apply Ho.
    apply list_elem_of_fmap. by exists (o.1, s).
Qed.

Lemma claimed_sublist locked n d :
  ∃ l, l ⊆+ map_to_list (db_inbox d) ∧ l = claim_inbox locked n d.
Proof.
  eexists. split; [|done]. unfold claim_inbox.
  trans (merge_sort id_le (List.filter (λ ir, is_pending ir.2 && bool_decide (ir.1 ∉ locked))
    (map_to_list (db_inbox d)))); [apply sublist_submseteq, sublist_take|].
  rewrite merge_sort_Permutation. apply sublist_submseteq.
  induction (map_to_list (db_inbox d)) as [|x l IH]; cbn; [constructor|].
  destruct (_ && _); by constructor.
Qed.
Lemma claimed_rows locked n d i r :
  (i, r) ∈ claim_inbox locked n d → db_inbox d !! i = Some r.
Proof.
  destruct (claimed_sublist locked n d) as (l & Hl & <-). intros Hin.
  apply elem_of_map_to_list. by eapply elem_of_submseteq.
Qed.
Lemma claimed_nodup locked n d : NoDup (map fst (claim_inbox locked n d)).
Proof.
  destruct (claimed_sublist locked n d) as (l & Hl & <-).
  apply submseteq_Permutation in Hl as [k Hk].
  assert (NoDup (map fst (l ++ k))) as Hnd by (rewrite <-Hk; apply NoDup_fst_map_to_list).
  rewrite map_app in Hnd. by apply NoDup_app in Hnd as [? _].
Qed.

(** C37: the staging drain settles what it claims.  A drain never aborts: it
    returns the number of rows it claimed, each of them ends [Done] or [Failed],
    a [Done] row has its document recorded, and no other inbox row changes. *)
Theorem staging_drain_settles `{PgNumeric} from_micros message locked limit d :
  fresh d →
  let claimed := claim_inbox locked (Z.to_nat (Z.max limit 1)) d in
  ∃ d', transaction (ledger_staging_drain from_micros message locked limit) d =
          (Ok (Z.of_nat (length claimed)), d') ∧
    (∀ i r, (i, r) ∈ claimed → ∃ s, s ≠ Pending ∧ db_inbox d' !! i = Some (with_status s r) ∧
       (s = Done → key_taken (inb_trx_type r) (inb_source_id r) d')) ∧
    (∀ i, i ∉ map fst claimed → db_inbox d' !! i = db_inbox d !! i).
Proof.
  intros Hf claimed. destruct (drain_outcomes from_micros message claimed d Hf)
    as (os & d1 & Em & Hos & Hin & _).
  destruct (set_status_run os d1) as (d2 & Es & Ht & Hi).
  assert (map fst os = map fst claimed) as Hfst.
  { clear -Hos. induction Hos as [|ir o raw os [Ho _] _ IH]; [done|]. cbn. by rewrite Ho, IH. }
  assert (NoDup (map fst os)) as Hnd by (rewrite Hfst; apply claimed_nodup).
  exists d2. split_and!.
  - unfold transaction, ledger_staging_drain.
    rewrite (SE_bind_run _ _ _ claimed d) by done. destruct claimed as [|x raw] eqn:Ec.
    + injection Em as <- <-. by injection Es as <-.
    + by rewrite (SE_bind_run _ _ _ _ _ Em), (SE_bind_run _ _ _ _ _ Es).
  - intros i r Hir. pose proof (claimed_rows _ _ _ _ _ Hir) as Hrow.
    apply list_elem_of_lookup in Hir as [k Hk].
    destruct (Forall2_lookup_l _ _ _ _ _ Hos Hk) as ([i' s] & Ho & (Hi' & Hs & Hd)).
    cbn in *. subst i'. exists s. split; [exact Hs|]. split.
    + apply list_elem_of_lookup_2 in Ho. by rewrite Hi, (statuses_member _ _ _ _ Hnd Ho), Hin, Hrow.
    + intros Hdone. destruct (Hd Hdone) as (j & rr & Hj & Hrr). exists j, rr. by rewrite Ht.
  - intros i Hni. by rewrite Hi, statuses_other, Hin by (by rewrite Hfst).
Qed.

(** Two staged documents, one of which names no pool. *)
Definition staged (source_id p : Z) : InboxRow :=
  {| inb_trx_type := "po_receipt"; inb_source_id := source_id; inb_posted_at := day_start 13;
     inb_lines := Some [receipt_json p 2 8]; inb_status := Pending |}.
Definition staged_db : Db := set_inbox (<[1 := staged 21 1]> (<[2 := staged 22 99]> ∅)) opening_db.
Lemma staging_drain_settles_witness :
  ∃ d' s, transaction (ledger_staging_drain Some (λ _, "refused"%string) ∅ 100) staged_db = (Ok 2, d') ∧
    db_inbox d' !! 2 = Some (with_status s (staged 22 99)) ∧ s ≠ Pending.
Proof.
  assert (fresh staged_db) as Hf by solve_fresh.
  destruct (staging_drain_settles Some (λ _, "refused"%string) ∅ 100 staged_db Hf)
    as (d' & Hrun & Hrows & _).
  destruct (Hrows 2 (staged 22 99)) as (s & Hs & Hi & _).
  { apply list_elem_of_In. vm_compute. right. left. reflexivity. }
  exists d', s. split; [exact Hrun|]. split; [exact Hi|exact Hs].
Defined.
