(* ===== verification/System.v ===== *)
(** The ledger as a whole: one step is one call of an entry point (a direct
    submission, a staging drain, a recalc tick, a close, a settle, a feed tick,
    a feed recovery), each in its own transaction.  Theorems here hold along
    every sequence of such steps. *)
From S2P Require Import Prelude Numeric Plan Snapshot Wac Db.
From S2P Require Import BulkWrite Cte Submit Strict Recalc Close PgOutput Feed Frame Footprint.
From S2P Require Import Scenario.
From S2P Require Import RecalcLaws WorkList FeedLaws CloseLaws SubmitLaws.

(** * Steps *)
Inductive ledger_step `{PgNumeric} (d d' : Db) : Prop :=
| step_submit (Json : Type) (rfc3339 : string → option Timestamp)
    (from_value : Json → option (list LineJson)) trx_type source_id posted_at lines r :
    transaction (ledger_submit_trx rfc3339 from_value trx_type source_id posted_at lines) d
      = (r, d') → ledger_step d d'
| step_staging_drain from_micros message locked limit r :
    transaction (ledger_staging_drain from_micros message locked limit) d = (r, d') →
    ledger_step d d'
| step_recalc now locked r :
    transaction (ledger_recalc_step now locked) d = (r, d') → ledger_step d d'
| step_close now period_id actor force r :
    transaction (ledger_close_period now period_id actor force) d = (r, d') → ledger_step d d'
| step_settle now p r :
    transaction (ledger_settle_pool now p) d = (r, d') → ledger_step d d'
| step_ingest now tz adv changes limit r :
    ingest_once now tz adv changes limit d = (r, d') → ledger_step d d'
| step_recover now r :
    ensure_slot_with_recovery now d = (r, d') → ledger_step d d'.

(** * Period writes *)
Lemma closes_mark_closing id ps :
  closes ps (alter (λ p, if bool_decide (per_state p = PeriodOpen)
                         then with_state PeriodClosing (per_closed p) p else p) id ps).
Proof.
  intros i p Hi. destruct (decide (i = id)) as [->|Hne].
  - rewrite lookup_alter_eq, Hi. cbn. eexists. split; [done|].
    case_bool_decide as Ho; cbn; [|done]. split_and!; [done..|]. unfold is_closed. by rewrite Ho.
  - rewrite lookup_alter_ne by done. eauto.
Qed.
Lemma closes_stamp id p x ps :
  ps !! id = Some p → is_closed p = false → closes ps (<[id := with_state PeriodClosed x p]> ps).
Proof.
  intros Hp Hc i q Hi. destruct (decide (i = id)) as [->|Hne].
  - rewrite lookup_insert_eq. eexists. split; [done|]. rewrite Hp in Hi. injection Hi as <-.
    cbn. split_and!; congruence.
  - rewrite lookup_insert_ne by done. eauto.
Qed.
Lemma mark_closing_grows id : step_ok grows (mark_closing id).
Proof. apply step_ok_exec. intros d. apply grows_period, closes_mark_closing. Qed.
Lemma stamp_closed_grows now id actor : step_ok grows (stamp_closed now id actor).
Proof.
  intros d r d'. unfold stamp_closed, mbind, SE_bind. cbn.
  destruct (db_period d !! id) as [p|] eqn:Hp; cbn; [|by intros [= _ <-]].
  destruct (is_closed p) eqn:Hc; cbn; intros [= _ <-]; [done|]. by apply grows_period, closes_stamp.
Qed.

Section steps.
Context `{PgNumeric}.

#[local] Hint Resolve mark_closing_grows stamp_closed_grows : frame.
#[local] Hint Resolve gate_pools_frame sweep_pools_frame recheck_frame : frame.
Lemma ledger_close_period_grows now id actor force :
  step_ok grows (ledger_close_period now id actor force).
Proof. unfold ledger_close_period, advisory_key, load_period, reject_out_of_order. frame. Qed.

#[local] Hint Resolve apply_submission_frame subtransaction_grows : frame.
Lemma ledger_submit_trx_grows {Json} rfc3339 (from_value : Json → _) tt src t ls :
  step_ok grows (ledger_submit_trx rfc3339 from_value tt src t ls).
Proof. unfold ledger_submit_trx. frame. Qed.
Lemma ledger_staging_drain_grows from_micros message locked limit :
  step_ok grows (ledger_staging_drain from_micros message locked limit).
Proof. unfold ledger_staging_drain, apply_claimed, set_status. frame. Qed.

Lemma commits_grows {A} (m : Tx A) : step_ok grows m → step_ok grows (commits m).
Proof.
  intros Hm d r d'. unfold commits. destruct (transaction m d) as [[a|e] d1] eqn:E; intros [= _ <-];
    (eapply transaction_step; [exact grows_rollback|exact Hm|exact E]).
Qed.
Lemma check_slot_usable_grows : step_ok grows check_slot_usable.
Proof.
  intros d r d'. unfold check_slot_usable. destruct (db_slot d) as [s|]; [|by intros [= _ <-]].
  destruct (slot_invalidation_reason s); [by intros [= _ <-]|].
  destruct (bool_decide _); by intros [= _ <-].
Qed.
Lemma advance_grows adv target : step_ok grows (advance adv target).
Proof.
  intros d r d'. unfold advance. destruct (db_slot d) as [s|]; [|by intros [= _ <-]].
  destruct (slot_confirmed_flush_lsn s); [|by intros [= _ <-]].
  destruct (_ <? _); intros [= _ <-]; [apply grows_slot|done].
Qed.
Lemma peek_grows changes limit : step_ok grows (peek changes limit).
Proof. intros d r d'. unfold peek. destruct (changes d limit); by intros [= _ <-]. Qed.
Lemma ensure_slot_grows : step_ok grows ensure_slot.
Proof.
  intros d r d'. unfold ensure_slot. destruct (db_slot d); intros [= _ <-]; [done|apply grows_slot].
Qed.
#[local] Hint Resolve check_slot_usable_grows advance_grows peek_grows ensure_slot_grows
  commits_grows apply_body_frame reseed_frame : frame.
Lemma ingest_once_grows now tz adv changes limit :
  step_ok grows (ingest_once now tz adv changes limit).
Proof. unfold ingest_once, apply_events. frame. Qed.
Lemma ensure_slot_with_recovery_grows now : step_ok grows (ensure_slot_with_recovery now).
Proof. unfold ensure_slot_with_recovery. frame. Qed.

Lemma ledger_step_grows d d' : ledger_step d d' → grows d d'.
Proof.
  intros Hstep. destruct Hstep as [Json rf fv tt src t ls r Ht | fm msg lk lim r Ht | now lk r Ht
    | now id actor force r Ht | now p r Ht | now tz adv ch lim r Ht | now r Ht].
  all: try (eapply transaction_step in Ht; [exact Ht|exact grows_rollback|]).
  - apply ledger_submit_trx_grows.
  - apply ledger_staging_drain_grows.
  - apply ledger_recalc_step_frame. apply _.
  - apply ledger_close_period_grows.
  - apply ledger_settle_pool_frame. apply _.
  - by eapply ingest_once_grows.
  - by eapply ensure_slot_with_recovery_grows.
Qed.
Lemma ledger_steps_grow d d' : rtc ledger_step d d' → grows d d'.
Proof.
  induction 1 as [|d1 d2 d3 Hs _ IH]; [reflexivity|].
  transitivity d2; [by apply ledger_step_grows|done].
Qed.

(** ** The work list *)
Lemma subtransaction_same_dirty {A} (m : Tx A) :
  step_ok same_dirty m → step_ok same_dirty (subtransaction m).
Proof.
  intros Hm d r d'. unfold subtransaction. destruct (m d) as [[a|e] d1] eqn:E; intros [= _ <-].
  - by eapply Hm.
  - done.
Qed.
#[local] Hint Resolve subtransaction_same_dirty : frame.
Lemma ledger_submit_trx_work {Json} rfc3339 (from_value : Json → _) tt src t ls :
  keeps_work (ledger_submit_trx rfc3339 from_value tt src t ls).
Proof. apply keeps_steps; [apply ledger_submit_trx_grows|]. unfold ledger_submit_trx. frame. Qed.
Lemma ledger_staging_drain_work from_micros message locked limit :
  keeps_work (ledger_staging_drain from_micros message locked limit).
Proof.
  apply keeps_steps; [apply ledger_staging_drain_grows|].
  unfold ledger_staging_drain, apply_claimed, set_status. frame; by apply step_ok_exec.
Qed.
Lemma commits_work {A} (m : Tx A) d r d' :
  step_ok grows m → keeps_work m → work_list d → commits m d = (r, d') → work_list d'.
Proof.
  intros Hg Hm Hw. unfold commits. destruct (transaction m d) as [[a|e] d1] eqn:E; intros [= _ <-];
    by eapply keeps_transaction.
Qed.
Lemma advance_work adv target d r d' :
  work_list d → advance adv target d = (r, d') → work_list d'.
Proof.
  intros Hw Hrun. eapply work_list_same; [by eapply advance_grows| |done].
  unfold advance in Hrun. repeat case_match; by injection Hrun as _ <-.
Qed.
Lemma ingest_once_work now tz adv changes limit d r d' :
  work_list d → ingest_once now tz adv changes limit d = (r, d') → work_list d'.
Proof.
  intros Hw Hrun. unfold ingest_once in Hrun. unfold mbind, SE_bind in Hrun.
  destruct (check_slot_usable d) as [[u|e] d0] eqn:Ec; apply check_slot_run in Ec as ->;
    [|by injection Hrun as _ <-]. cbn in Hrun.
  destruct (peek changes limit d) as [[batch|e] d0] eqn:Ep; apply peek_run in Ep as ->;
    [|by injection Hrun as _ <-].
  destruct (pb_events batch) as [|e0 es] eqn:Eb; cbn in Hrun.
  - destruct (advance adv _ d) as [[x|e] d1] eqn:Ea; injection Hrun as _ <-; by eapply advance_work.
  - destruct (apply_events now tz (e0 :: es) d) as [[counts|e] d1] eqn:Ea.
    + assert (work_list d1) as Hw1
        by (eapply commits_work; [apply apply_body_frame, _|apply apply_body_work|done|exact Ea]).
      destruct counts as [[m f] t].
      destruct (advance adv _ d1) as [[x|e] d2] eqn:Ead; injection Hrun as _ <-; by eapply advance_work.
    + injection Hrun as _ <-.
      by eapply commits_work; [apply apply_body_frame, _|apply apply_body_work|done|exact Ea].
Qed.
Lemma ensure_slot_with_recovery_work now d r d' :
  work_list d → ensure_slot_with_recovery now d = (r, d') → work_list d'.
Proof.
  intros Hw Hrun. unfold ensure_slot_with_recovery, mbind, SE_bind in Hrun.
  destruct (ensure_slot d) as [[created|e] d0] eqn:Es.
  2:{ unfold ensure_slot in Es. by destruct (db_slot d). }
  assert (work_list d0) as Hw0.
  { eapply work_list_same; [by eapply ensure_slot_grows| |done]. unfold ensure_slot in Es.
    destruct (db_slot d); by injection Es as _ <-. }
  destruct (negb created); [by injection Hrun as _ <-|]. cbn in Hrun.
  destruct (negb _); [by injection Hrun as _ <-|].
  destruct (commits (ledger_feed_reseed now) d0) as [[n|e] d1] eqn:Er; injection Hrun as _ <-;
    (eapply commits_work; [apply reseed_frame, _|apply reseed_work|done|exact Er]).
Qed.

Lemma ledger_step_work d d' : ledger_step d d' → work_list d → work_list d'.
Proof.
  intros Hstep Hw. destruct Hstep as [Json rf fv tt src t ls r Ht | fm msg lk lim r Ht | now lk r Ht
    | now id actor force r Ht | now p r Ht | now tz adv ch lim r Ht | now r Ht].
  all: try (eapply keeps_transaction; [| |exact Hw|exact Ht]).
  - apply ledger_submit_trx_grows.
  - apply ledger_submit_trx_work.
  - apply ledger_staging_drain_grows.
  - apply ledger_staging_drain_work.
  - apply ledger_recalc_step_frame, _.
  - apply ledger_recalc_step_work.
  - apply ledger_close_period_grows.
  - apply ledger_close_period_work; [apply mark_closing_grows|apply stamp_closed_grows].
  - apply ledger_settle_pool_frame, _.
  - apply ledger_settle_pool_work.
  - by eapply ingest_once_work.
  - by eapply ensure_slot_with_recovery_work.
Qed.

(** ** Periods *)
(** Periods are closed in the order of their start dates. *)
Definition closed_in_order (d : Db) : Prop :=
  ∀ i p j q, db_period d !! i = Some p → is_closed p = true → db_period d !! j = Some q →
    per_start_date q < per_start_date p → is_closed q = true.
Lemma same_periods_order d d' : same_periods d d' → closed_in_order d → closed_in_order d'.
Proof. unfold same_periods, keeps_proj, closed_in_order. by intros [= -> _]. Qed.
Lemma same_periods_rollback d d' : same_periods d d' → same_periods d (rollback d d').
Proof. done. Qed.
Lemma earlier_open_false p ps j q :
  earlier_open p ps = false → ps !! j = Some q → per_start_date q < per_start_date p →
  is_closed q = true.
Proof.
  unfold earlier_open. intros He Hj Hlt. destruct (is_closed q) eqn:Hq; [done|]. exfalso.
  assert (existsb (λ iq, negb (is_closed iq.2) && (per_start_date iq.2 <? per_start_date p))
            (map_to_list ps) = true) as Ht; [|congruence].
  apply existsb_exists. exists (j, q). rewrite <-list_elem_of_In, elem_of_map_to_list. cbn.
  rewrite Hq, (proj2 (Z.ltb_lt _ _) Hlt). done.
Qed.
Lemma stamp_in_order now id actor period d d2 at_ d' :
  db_period d2 = db_period d → db_period d !! id = Some period → is_closed period = false →
  earlier_open period (db_period d) = false → stamp_closed now id actor d2 = (Ok at_, d') →
  closed_in_order d → closed_in_order d'.
Proof.
  intros Hper Hp Hc He Hst Hord. unfold stamp_closed in Hst.
  apply SE_bind_Ok in Hst as (ps & d3 & [= <- <-] & Hst). rewrite Hper, Hp, Hc in Hst.
  injection Hst as _ <-. intros i p j q. cbn. rewrite Hper. intros Hi Hcl Hj Hlt.
  destruct (decide (j = id)) as [->|Hj'].
  - rewrite lookup_insert_eq in Hj. by injection Hj as <-.
  - rewrite lookup_insert_ne in Hj by done. destruct (decide (i = id)) as [->|Hi'].
    + rewrite lookup_insert_eq in Hi. injection Hi as <-. by eapply earlier_open_false.
    + rewrite lookup_insert_ne in Hi by done. by eapply (Hord i p).
Qed.
Lemma mark_closing_lookup id (ps : gmap Z PeriodRow) j q' :
  alter (λ p, if bool_decide (per_state p = PeriodOpen)
              then with_state PeriodClosing (per_closed p) p else p) id ps !! j = Some q' →
  ∃ q, ps !! j = Some q ∧ is_closed q = is_closed q' ∧ per_start_date q = per_start_date q'.
Proof.
  destruct (decide (j = id)) as [->|Hne]; [|rewrite lookup_alter_ne by done; eauto].
  rewrite lookup_alter_eq. intros (q & Hq & ->)%fmap_Some. exists q. split; [done|].
  case_bool_decide as Ho; [|done]. unfold is_closed. by rewrite Ho.
Qed.
Lemma close_in_order now id actor force d out d' :
  ledger_close_period now id actor force d = (Ok out, d') → closed_in_order d → closed_in_order d'.
Proof.
  intros Hrun Hord. apply close_cases in Hrun as (period & Hp & [(_ & _ & ->)|(Hc & He & Hrun)]); [done|].
  destruct Hrun as (gate & rep & _ & [(_ & _ & Hm)|(_ & Hrun)]).
  - injection Hm as <-. intros i p j q. cbn. intros Hi Hcl Hj Hlt.
    destruct (mark_closing_lookup _ _ _ _ Hi) as (p0 & Hi0 & Hcp & Hsp).
    destruct (mark_closing_lookup _ _ _ _ Hj) as (q0 & Hj0 & Hcq & Hsq).
    rewrite <-Hcq. eapply (Hord i p0 j q0); [done|congruence|done|lia].
  - destruct Hrun as (at_ & sw1 & trx1 & sw2 & rn & d1 & d2 & _ & Hsw & Hre & _ & Hst).
    eapply stamp_in_order; [|exact Hp|exact Hc|exact He|exact Hst|exact Hord].
    eapply sweep_pools_frame in Hsw; [|exact same_periods_engine].
    eapply recheck_frame in Hre; [|exact same_periods_engine].
    unfold same_periods, keeps_proj in *. congruence.
Qed.

(** No other entry point touches the periods. *)
Lemma commits_same_periods {A} (m : Tx A) : step_ok same_periods m → step_ok same_periods (commits m).
Proof.
  intros Hm d r d'. unfold commits, transaction.
  destruct (m d) as [[a|e] d1] eqn:E; intros [= _ <-]; [by eapply Hm|done].
Qed.
Lemma subtransaction_same_periods {A} (m : Tx A) :
  step_ok same_periods m → step_ok same_periods (subtransaction m).
Proof.
  intros Hm d r d'. unfold subtransaction.
  destruct (m d) as [[a|e] d1] eqn:E; intros [= _ <-]; [by eapply Hm|done].
Qed.
Lemma slot_ops_same_periods adv changes limit target :
  step_ok same_periods check_slot_usable ∧ step_ok same_periods (advance adv target) ∧
  step_ok same_periods (peek changes limit) ∧ step_ok same_periods ensure_slot.
Proof.
  unfold check_slot_usable, advance, peek, ensure_slot.
  split_and!; intros d r d' Hrun; repeat case_match; by injection Hrun as _ <-.
Qed.
#[local] Hint Resolve commits_same_periods subtransaction_same_periods : frame.
Lemma ledger_step_in_order d d' : ledger_step d d' → closed_in_order d → closed_in_order d'.
Proof.
  intros Hstep Hord. destruct Hstep as [Json rf fv tt src t ls r Ht | fm msg lk lim r Ht | now lk r Ht
    | now id actor force r Ht | now p r Ht | now tz adv ch lim r Ht | now r Ht].
  4:{ unfold transaction in Ht. destruct (ledger_close_period now id actor force d) as [[a|e] d1] eqn:E.
      - injection Ht as _ <-. by eapply close_in_order.
      - by injection Ht as _ <-. }
  all: eapply same_periods_order; [|exact Hord].
  all: try (eapply transaction_step in Ht; [exact Ht|exact same_periods_rollback|]).
  - unfold ledger_submit_trx. frame.
  - unfold ledger_staging_drain, apply_claimed, set_status. frame; by apply step_ok_exec.
  - apply ledger_recalc_step_frame, _.
  - apply ledger_settle_pool_frame, _.
  - enough (step_ok same_periods (ingest_once now tz adv ch lim)) as Hs by by eapply Hs.
    unfold ingest_once, apply_events. frame; apply slot_ops_same_periods; done.
  - enough (step_ok same_periods (ensure_slot_with_recovery now)) as Hs by by eapply Hs.
    unfold ensure_slot_with_recovery. frame; by apply (slot_ops_same_periods (λ _ _ _, 0) (λ _ _, Ok []) 0 0).
Qed.
End steps.

(** * What a run of the system keeps *)
Definition frozen_at (d : Db) (t : Timestamp) : bool := period_frozen (db_period d) t.

(** C36: the history is append-only along every run of the system: no
    transaction, line, posting, layer draw or settlement is ever changed or
    removed, identity values are never reused, and reference data stays. *)
Theorem history_append_only `{PgNumeric} d d' :
  fresh d → rtc ledger_step d d' →
  fresh d' ∧ db_cfg d' = db_cfg d ∧ db_trx d ⊆ db_trx d' ∧ db_trx_line d ⊆ db_trx_line d' ∧
  db_posting d ⊆ db_posting d' ∧ db_consumption d ⊆ db_consumption d' ∧
  db_cost_settlement d ⊆ db_cost_settlement d'.
Proof.
  intros Hf [Hc _ _ Ha]%ledger_steps_grow. destruct (Ha Hf) as [Hf' []]. done.
Qed.

(** C1: closed periods are final.  Along every run of the system (submissions,
    drains, recalc passes, forced closes, feed ticks and recovery included) a
    time that lies in or before a closed period stays closed, no physical line
    ever appears or disappears at such a time, and no line at such a time ever
    gets another settlement. *)
Theorem closed_history_final `{PgNumeric} d d' :
  fresh d → rtc ledger_step d d' →
  (∀ t, frozen_at d t = true → frozen_at d' t = true) ∧
  (∀ i l, is_physical l = true → frozen_at d (tl_posted_at l) = true →
     db_trx_line d' !! i = Some l ↔ db_trx_line d !! i = Some l) ∧
  (∀ i l g, db_trx_line d !! i = Some l → frozen_at d (tl_posted_at l) = true →
     db_cost_settlement d' !! (i, g) = db_cost_settlement d !! (i, g)).
Proof.
  intros Hf [_ _ Hp Ha]%ledger_steps_grow. destruct (Ha Hf) as [_ A]. unfold frozen_at.
  split_and!; [intros t; by apply closes_frozen| |].
  - intros i l Hl Ht. split; [|intros Hi; eapply lookup_weaken; [exact Hi|apply A]].
    intros Hi. destruct (db_trx_line d !! i) as [l'|] eqn:E.
    + eapply lookup_weaken in E; [|apply A]. congruence.
    + pose proof (ap_new_line _ _ A _ _ Hi E Hl). congruence.
  - intros i l g Hl Ht. destruct (db_cost_settlement d !! (i, g)) as [r|] eqn:E.
    + eapply lookup_weaken; [exact E|apply A].
    + destruct (db_cost_settlement d' !! (i, g)) as [r|] eqn:E'; [|done].
      pose proof (ap_new_settlement _ _ A _ _ _ _ Hl E' E). congruence.
Qed.

(** Periods close in order.  Along every run of the system, if a period is
    closed then every period with an earlier start date is closed too. *)
Theorem periods_close_in_order `{PgNumeric} d d' :
  closed_in_order d → rtc ledger_step d d' → closed_in_order d'.
Proof.
  intros Hord Hrun. induction Hrun as [|d1 d2 d3 Hs _ IH]; [done|].
  apply IH. by eapply ledger_step_in_order.
Qed.

(** No stranded pool.  Along every run of the system, every pool with a
    recost floor is on the work list, so that a worker tick or a targeted drain
    will replay it; and settlement rows exist only for pools costed by the
    engine that have lines to replay. *)
Theorem work_list_sound `{PgNumeric} d d' :
  work_list d → rtc ledger_step d d' →
  work_list d' ∧
  (∀ p, is_Some (floor_of d' p) → is_Some (db_recalc_queue d' !! p) ∧ physical_lines p d' ≠ []).
Proof.
  intros Hw Hrun. assert (work_list d') as Hw'.
  { induction Hrun as [|d1 d2 d3 Hs _ IH]; [done|]. apply IH. by eapply ledger_step_work. }
  split; [done|]. intros p [f Hf]. unfold floor_of in Hf.
  destruct (db_pool_settlement d' !! p) as [ps|] eqn:Eps; [|done].
  destruct (wl_rows _ Hw' _ _ Eps) as [_ Hl Hq]. split; [|done]. apply Hq. eauto.
Qed.

(** C32: a document is applied at most once.  After a successful submission of a
    document, along every run of the system, no submission of the same
    [(trx_type, source_id)] goes through, direct or staged; and offering the same
    lines again without throttling ends in a unique violation that leaves
    everything but the identity sequence as it was. *)
Theorem submission_exactly_once `{PgNumeric} trx_type source_id t ls bp d id d1 d2 :
  fresh d → apply_submission trx_type source_id t ls bp d = (Ok id, d1) → rtc ledger_step d1 d2 →
  (∀ t' ls' bp' id' d3, apply_submission trx_type source_id t' ls' bp' d2 ≠ (Ok id', d3)) ∧
  (∀ t', apply_submission trx_type source_id t' ls false d2 =
     (Err (SqlRaised "23505" "trx_trx_type_source_id_key"),
      set_seqs (with_next_trx (db_seqs d2)) d2)).
Proof.
  intros Hf Hrun Hsteps. assert (grows d d1) as G1
    by (by eapply (apply_submission_frame grows) in Hrun).
  pose proof (ledger_steps_grow _ _ Hsteps) as G2. destruct (gw_appended _ _ G1 Hf) as [Hf1 _].
  assert (key_taken trx_type source_id d2) as Hk.
  { eapply key_taken_grows; [exact Hf1|exact G2|]. eexists id, _.
    split; [exact (apply_submission_takes _ _ _ _ _ _ _ _ Hf Hrun)|done]. }
  split; [intros; by apply apply_submission_taken|]. intros t'.
  eapply apply_submission_repeat; [exact Hrun| |exact Hk].
  rewrite (gw_cfg _ _ G2). apply (gw_cfg _ _ G1).
Qed.

(** A run: closing the first period of the worked ledger by force, then a late
    submission into it, which the guard refuses. *)
#[local] Existing Instance exact_numeric.
Definition closed_db : Db :=
  after (ledger_close_period (day_start 40) 1 "controller" true) issued_db.
Definition late_db : Db :=
  after (ledger_submit_trx (λ _, Some (day_start 20)) Some "po_receipt" 9 "day 20"
           [receipt_json 4 1 1]) closed_db.

Lemma closed_db_fresh : fresh closed_db.
Proof. solve_fresh. Qed.
Lemma closed_db_step : ledger_step issued_db closed_db.
Proof. eapply step_close, surjective_pairing. Qed.
Lemma late_db_step : ledger_step closed_db late_db.
Proof. eapply step_submit, surjective_pairing. Qed.

Lemma issued_db_in_order : closed_in_order issued_db.
Proof.
  assert (map_Forall (λ _ p, is_closed p = false) (db_period issued_db)) as Hopen
    by (apply (bool_decide_eq_true_1 _); vm_compute; reflexivity).
  intros i p j q Hi Hc _ _. apply Hopen in Hi. congruence.
Qed.
Lemma periods_close_in_order_witness : closed_in_order closed_db.
Proof.
  exact (periods_close_in_order issued_db closed_db issued_db_in_order (rtc_once _ _ closed_db_step)).
Defined.

Lemma history_append_only_witness :
  db_trx_line issued_db ⊆ db_trx_line late_db ∧
  db_cost_settlement closed_db !! (9, 1) ≠ None.
Proof.
  split; [|vm_compute; discriminate].
  assert (rtc ledger_step issued_db late_db) as Hrun
    by exact (rtc_l _ _ _ _ closed_db_step (rtc_once _ _ late_db_step)).
  destruct (history_append_only issued_db late_db issued_db_fresh Hrun) as (_ & _ & _ & Hl & _).
  exact Hl.
Defined.

Lemma issued_db_work : work_list issued_db.
Proof.
  split; [apply issued_db_fresh|]. intros p ps Hp. exfalso.
  assert (db_pool_settlement issued_db = ∅) as He by (vm_compute; reflexivity).
  rewrite He, lookup_empty in Hp. discriminate Hp.
Qed.
(** A reseed of the worked ledger puts a floor on pool 4. *)
Definition reseeded_db : Db := (ensure_slot_with_recovery (day_start 14) issued_db).2.
Lemma reseeded_db_step : ledger_step issued_db reseeded_db.
Proof.
  exact (step_recover _ _ (day_start 14) _
    (surjective_pairing (ensure_slot_with_recovery (day_start 14) issued_db))).
Qed.
Lemma work_list_sound_witness :
  floor_of reseeded_db 4 = Some (day_start 10, 3) ∧ is_Some (db_recalc_queue reseeded_db !! 4).
Proof.
  assert (floor_of reseeded_db 4 = Some (day_start 10, 3)) as Hf by (vm_compute; reflexivity).
  split; [exact Hf|].
  destruct (work_list_sound issued_db reseeded_db issued_db_work (rtc_once _ _ reseeded_db_step))
    as [_ Hall].
  destruct (Hall 4 (ex_intro _ _ Hf)) as [Hq _]. exact Hq.
Defined.

Lemma closed_history_final_witness :
  frozen_at closed_db (day_start 20) = true ∧ frozen_at late_db (day_start 20) = true.
Proof.
  assert (frozen_at closed_db (day_start 20) = true) as Hc by (vm_compute; reflexivity).
  split; [exact Hc|].
  destruct (closed_history_final closed_db late_db closed_db_fresh (rtc_once _ _ late_db_step))
    as [Hmono _].
  exact (Hmono _ Hc).
Defined.

Lemma submission_exactly_once_witness :
  (submit_on 10 1 (map (λ p, receipt_json p 10 8) [1; 2; 4; 5; 6]) opening_db).1 = Ok 1 ∧
  apply_submission "po_receipt" 1 (day_start 20) (map (λ p, receipt_json p 10 8) [1; 2; 4; 5; 6])
    false stocked_db = (Err (SqlRaised "23505" "trx_trx_type_source_id_key"),
       set_seqs (with_next_trx (db_seqs stocked_db)) stocked_db).
Proof.
  split; [vm_compute; reflexivity|].
  assert (fresh opening_db) as Hf by solve_fresh.
  assert (submit_on 10 1 (map (λ p, receipt_json p 10 8) [1; 2; 4; 5; 6]) opening_db
          = (Ok 1, stocked_db)) as Hrun by (vm_compute; reflexivity).
  exact (proj2 (submission_exactly_once "po_receipt" 1 (day_start 10)
    (map (λ p, receipt_json p 10 8) [1; 2; 4; 5; 6]) true opening_db 1 stocked_db stocked_db
    Hf Hrun (rtc_refl _ _)) (day_start 20)).
Defined.
