(* ===== verification/V3Plan.v ===== *)
(** The vocabulary of the two-path ledger's [ledger_core] (ledger-v3): errors,
    cost methods, request and plan rows, the snapshot of the touched pools, the
    mutation deduplication and the merge of plans, and the state-and-error monad
    of the cost methods. *)
From S2P Require Import Prelude.

(** * Cost methods and errors (method.rs, error.rs) *)
Inductive PoolMethod : Type := Fifo | Lifo | Wac | WacPeriodic | Std | Specific.
#[global] Instance PoolMethod_eq_dec : EqDecision PoolMethod.
Proof. solve_decision. Defined.

Inductive LedgerError : Type :=
| InsufficientInventory (pool_id requested available : Z)
| MethodMismatch (pool_id : Z) (expected got : PoolMethod)
| UnknownPool (pool_id : Z)
| MissingStandardCost (sku_id location_id : Z)
| Overflow (detail : string).
#[global] Instance LedgerError_eq_dec : EqDecision LedgerError.
Proof. solve_decision. Defined.

(** * Rows of a plan (plan.rs) *)
Inductive LineType : Type :=
| PoReceiptLine | WoOutput | WoBackflush | WoScrap | InvAdjustmentLine
| TransferShipmentLine | TransferReceiptLine | ManualAdjustmentLine | RevaluationLine.
#[global] Instance LineType_eq_dec : EqDecision LineType.
Proof. solve_decision. Defined.

Inductive PostingEventType : Type :=
| InventoryReceipt | InventoryDepletion | WipMovement | Variance | Scrap
| Adjustment | Revaluation.
#[global] Instance PostingEventType_eq_dec : EqDecision PostingEventType.
Proof. solve_decision. Defined.

(** [DateTime<Utc>] values are only carried along; they are integers
    (microseconds since the epoch, PostgreSQL's resolution). *)
Abbreviation Timestamp := Z (only parsing).

Record TrxLineRequest := {
  req_pool_id : Z;
  req_line_type : LineType;
  req_source_id : option Z;
  req_qty : Z;
  req_unit_cost : Z;
  req_debit_account : Z;
  req_credit_account : Z;
}.

Record TrxLineOutput := {
  out_pool_id : Z;
  out_trx_seq : Z;
  out_qty : Z;
  out_unit_cost : Z;
  out_source_trx_line_id : option Z;
  out_line_type : LineType;
  out_source_id : option Z;
}.

Inductive PoolStateMutation : Type :=
| Insert (pool_id layer_seq qty unit_cost : Z) (last_trx_line_idx : nat)
| Upsert (pool_id layer_seq qty unit_cost : Z) (last_trx_line_idx : nat)
| Update (pool_id layer_seq qty : Z)
| Delete (pool_id layer_seq : Z).
#[global] Instance PoolStateMutation_eq_dec : EqDecision PoolStateMutation.
Proof. solve_decision. Defined.

Record PostingLineRequest := {
  pst_trx_line_idx : nat;
  pst_event_type : PostingEventType;
  pst_amount : Z;
  pst_debit_account : Z;
  pst_credit_account : Z;
  pst_posted_at : Timestamp;
}.

Record ProvisionalPostingRequest := {
  prov_posting_line_idx : nat;
  prov_pool_id : Z;
  prov_qty : Z;
  prov_provisional_amount : Z;
}.

Record PlanResult := {
  trx_lines : list TrxLineOutput;
  pool_state_mutations : list PoolStateMutation;
  posting_lines : list PostingLineRequest;
  provisional_postings : list ProvisionalPostingRequest;
}.
Definition plan_default : PlanResult :=
  {| trx_lines := []; pool_state_mutations := []; posting_lines := [];
     provisional_postings := [] |}.

Definition push_trx_line (o : TrxLineOutput) (r : PlanResult) : PlanResult :=
  {| trx_lines := trx_lines r ++ [o]; pool_state_mutations := pool_state_mutations r;
     posting_lines := posting_lines r; provisional_postings := provisional_postings r |}.
Definition push_mutation (m : PoolStateMutation) (r : PlanResult) : PlanResult :=
  {| trx_lines := trx_lines r; pool_state_mutations := pool_state_mutations r ++ [m];
     posting_lines := posting_lines r; provisional_postings := provisional_postings r |}.
Definition push_posting (p : PostingLineRequest) (r : PlanResult) : PlanResult :=
  {| trx_lines := trx_lines r; pool_state_mutations := pool_state_mutations r;
     posting_lines := posting_lines r ++ [p]; provisional_postings := provisional_postings r |}.
Definition push_provisional (p : ProvisionalPostingRequest) (r : PlanResult) : PlanResult :=
  {| trx_lines := trx_lines r; pool_state_mutations := pool_state_mutations r;
     posting_lines := posting_lines r; provisional_postings := provisional_postings r ++ [p] |}.

(** * [PlanResult::dedupe_pool_state_mutations]

    Pass 1 records, per (kind, pool, layer), the index of the last occurrence;
    pass 2 retains the entries at their recorded index. *)
Definition mutation_kind (m : PoolStateMutation) : Z :=
  match m with Insert _ _ _ _ _ => 0 | Upsert _ _ _ _ _ => 1 | Update _ _ _ => 2 | Delete _ _ => 3 end.
Definition mutation_target (m : PoolStateMutation) : Z * Z :=
  match m with
  | Insert p l _ _ _ | Upsert p l _ _ _ | Update p l _ | Delete p l => (p, l)
  end.
Definition mutation_key (m : PoolStateMutation) : Z * (Z * Z) :=
  (mutation_kind m, mutation_target m).

Fixpoint last_seen_from (i : nat) (ms : list PoolStateMutation)
    (last_seen : gmap (Z * (Z * Z)) nat) : gmap (Z * (Z * Z)) nat :=
  match ms with
  | [] => last_seen
  | m :: ms => last_seen_from (S i) ms (<[mutation_key m := i]> last_seen)
  end.

Fixpoint retain_last_from (keep_idx : nat) (last_seen : gmap (Z * (Z * Z)) nat)
    (ms : list PoolStateMutation) : list PoolStateMutation :=
  match ms with
  | [] => []
  | m :: ms =>
      let kept := retain_last_from (S keep_idx) last_seen ms in
      if decide (last_seen !! mutation_key m = Some keep_idx) then m :: kept else kept
  end.

Definition dedupe_mutations (ms : list PoolStateMutation) : list PoolStateMutation :=
  if decide (length ms < 2)%nat then ms
  else retain_last_from 0 (last_seen_from 0 ms ∅) ms.

Definition dedupe_pool_state_mutations (r : PlanResult) : PlanResult :=
  {| trx_lines := trx_lines r;
     pool_state_mutations := dedupe_mutations (pool_state_mutations r);
     posting_lines := posting_lines r; provisional_postings := provisional_postings r |}.

(** * [PlanResult::merge]: concatenation with the indices translated. *)
Definition shift_mutation (trx_offset : nat) (m : PoolStateMutation) : PoolStateMutation :=
  match m with
  | Insert p l q u i => Insert p l q u (i + trx_offset)
  | Upsert p l q u i => Upsert p l q u (i + trx_offset)
  | Update _ _ _ | Delete _ _ => m
  end.
Definition shift_posting (trx_offset : nat) (p : PostingLineRequest) : PostingLineRequest :=
  {| pst_trx_line_idx := pst_trx_line_idx p + trx_offset; pst_event_type := pst_event_type p;
     pst_amount := pst_amount p; pst_debit_account := pst_debit_account p;
     pst_credit_account := pst_credit_account p; pst_posted_at := pst_posted_at p |}.
Definition shift_provisional (posting_offset : nat) (p : ProvisionalPostingRequest)
    : ProvisionalPostingRequest :=
  {| prov_posting_line_idx := prov_posting_line_idx p + posting_offset;
     prov_pool_id := prov_pool_id p; prov_qty := prov_qty p;
     prov_provisional_amount := prov_provisional_amount p |}.
Definition merge (self other : PlanResult) : PlanResult :=
  let trx_offset := length (trx_lines self) in
  let posting_offset := length (posting_lines self) in
  {| trx_lines := trx_lines self ++ trx_lines other;
     pool_state_mutations := pool_state_mutations self ++
       map (shift_mutation trx_offset) (pool_state_mutations other);
     posting_lines := posting_lines self ++ map (shift_posting trx_offset) (posting_lines other);
     provisional_postings := provisional_postings self ++
       map (shift_provisional posting_offset) (provisional_postings other) |}.

(** * The snapshot (snapshot.rs) *)
Record PoolStateRow := {
  layer_seq : Z;
  row_qty : Z;
  row_unit_cost : Z;
  last_trx_line_id : Z;
}.
#[global] Instance PoolStateRow_eq_dec : EqDecision PoolStateRow.
Proof. solve_decision. Defined.

Record Snapshot := {
  pools : gmap Z (list PoolStateRow);
  method_of : gmap Z PoolMethod;
  max_trx_seq_of : gmap Z Z;
  std_cost_of : gmap (Z * Z) Z;
}.
Definition snapshot_default : Snapshot :=
  {| pools := ∅; method_of := ∅; max_trx_seq_of := ∅; std_cost_of := ∅ |}.

Definition with_pools (ps : gmap Z (list PoolStateRow)) (s : Snapshot) : Snapshot :=
  {| pools := ps; method_of := method_of s; max_trx_seq_of := max_trx_seq_of s;
     std_cost_of := std_cost_of s |}.
Definition with_max_seq (m : gmap Z Z) (s : Snapshot) : Snapshot :=
  {| pools := pools s; method_of := method_of s; max_trx_seq_of := m;
     std_cost_of := std_cost_of s |}.
Definition rows_of (s : Snapshot) (p : Z) : list PoolStateRow := default [] (pools s !! p).
Definition max_seq (s : Snapshot) (p : Z) : Z := default 0 (max_trx_seq_of s !! p).

(** * The monad of the cost methods: the two [&mut] arguments, and a returned
    [LedgerError] or a panic. *)
Abbreviation Core := (SE (Snapshot * PlanResult) (Fault LedgerError)).

Definition snapshot : Core Snapshot := gets fst.
Definition trx_line_count : Core nat := gets (λ st, length (trx_lines st.2)).
Definition posting_count : Core nat := gets (λ st, length (posting_lines st.2)).
Definition update_snapshot (f : Snapshot → Snapshot) : Core unit :=
  modify (λ st, (f st.1, st.2)).
Definition update_result (f : PlanResult → PlanResult) : Core unit :=
  modify (λ st, (st.1, f st.2)).
Definition fails {A} (e : LedgerError) : Core A := throw (Returned e).
Definition some_or {A} (o : option A) (e : LedgerError) : Core A :=
  match o with Some a => mret a | None => fails e end.
(** An [Option::expect] / a slice index: a panic when there is no value. *)
Definition expects {A} (o : option A) (msg : string) : Core A :=
  match o with Some a => mret a | None => throw (Panicked msg) end.

Definition checked_mul (a b : Z) : option Z := i64_try_from (a * b).
(** [i64] division truncates; it panics on a zero divisor and on [MIN / -1]. *)
Definition i64_div (a b : Z) : option Z :=
  if decide (b = 0) then None else i64_try_from (a `quot` b).

(** [next_trx_seq] (seq.rs): the entry is created before the checked increment. *)
Definition next_trx_seq (pool_id : Z) : Core Z :=
  s ← snapshot;
  let seq := max_seq s pool_id in
  update_snapshot (with_max_seq (<[pool_id := seq]> (max_trx_seq_of s)));;
  seq' ← some_or (checked_add seq 1) (Overflow ("trx_seq overflow on pool " +:+ pretty pool_id));
  update_snapshot (λ s, with_max_seq (<[pool_id := seq']> (max_trx_seq_of s)) s);;
  mret seq'.

(** The dispatcher re-check every method starts with. *)
Definition expect_method (pool_id : Z) (expected : PoolMethod) : Core unit :=
  s ← snapshot;
  got ← some_or (method_of s !! pool_id) (UnknownPool pool_id);
  if decide (got = expected) then mret tt else fails (MethodMismatch pool_id expected got).

(** * Inversion of successful runs *)
Lemma some_or_run {A} (o : option A) e (st : Snapshot * PlanResult) a st' :
  some_or o e st = (Ok a, st') ↔ o = Some a ∧ st' = st.
Proof. destruct o; cbn; (split; [intros [=]; by simplify_eq|intros [[=] ->]; by subst]). Qed.
Lemma expects_Ok {A} (o : option A) m (st : Snapshot * PlanResult) a st' :
  expects o m st = (Ok a, st') ↔ o = Some a ∧ st' = st.
Proof. destruct o; cbn; (split; [intros [=]; by simplify_eq|intros [[=] ->]; by subst]). Qed.
Lemma checked_mul_Some a b c : checked_mul a b = Some c ↔ c = a * b ∧ in_i64 (a * b).
Proof. apply i64_try_from_Some. Qed.
Lemma i64_div_Some a b c :
  i64_div a b = Some c ↔ b ≠ 0 ∧ c = a `quot` b ∧ in_i64 (a `quot` b).
Proof. unfold i64_div. case_decide; rewrite ?i64_try_from_Some; naive_solver. Qed.

Ltac core_step :=
  match goal with
  | H : mret _ _ = (Ok _, _) |- _ => injection H; clear H; intros; subst
  | H : snapshot _ = (Ok _, _) |- _ => injection H; clear H; intros; subst
  | H : trx_line_count _ = (Ok _, _) |- _ => injection H; clear H; intros; subst
  | H : posting_count _ = (Ok _, _) |- _ => injection H; clear H; intros; subst
  | H : update_snapshot _ _ = (Ok _, _) |- _ => injection H; clear H; intros; subst
  | H : update_result _ _ = (Ok _, _) |- _ => injection H; clear H; intros; subst
  | H : fails _ _ = (Ok _, _) |- _ => discriminate H
  | H : some_or _ _ _ = (Ok _, _) |- _ => apply some_or_run in H; destruct H as [H ->]
  | H : expects _ _ _ = (Ok _, _) |- _ => apply expects_Ok in H; destruct H as [H ->]
  | H : checked_mul _ _ = Some _ |- _ => apply checked_mul_Some in H; destruct H as [-> H]
  | H : i64_div _ _ = Some _ |- _ =>
      apply i64_div_Some in H; destruct H as (? & -> & H)
  | H : (if ?b then fails _ else _) _ = (Ok _, _) |- _ =>
      let E := fresh "Hcond" in destruct b eqn:E; [discriminate H|]
  | H : (if ?b then _ else fails _) _ = (Ok _, _) |- _ =>
      let E := fresh "Hcond" in destruct b eqn:E; [|discriminate H]
  | _ => inv_step
  end.
Ltac core_inv := repeat (core_step; cbn beta iota zeta in *); simplify_eq.

Lemma next_trx_seq_Ok p st n st' :
  next_trx_seq p st = (Ok n, st') ↔
    n = max_seq st.1 p + 1 ∧ in_i64 n ∧
    st' = (with_max_seq (<[p := n]> (max_trx_seq_of st.1)) st.1, st.2).
Proof.
  destruct st as [s r]. unfold next_trx_seq. split.
  - intros H. core_inv. cbn. split_and!; [done|done|].
    unfold with_max_seq. cbn. by rewrite insert_insert_eq.
  - cbn. intros (-> & Hin & ->). unfold checked_add.
    unfold mbind, SE_bind, snapshot, gets, update_snapshot, modify. cbn.
    rewrite i64_try_from_in by done. cbn. unfold with_max_seq. cbn.
    by rewrite insert_insert_eq.
Qed.

Lemma expects_method_Ok p m st st' :
  expect_method p m st = (Ok tt, st') ↔ method_of st.1 !! p = Some m ∧ st' = st.
Proof.
  unfold expect_method. split.
  - intros H. core_inv. case_decide; core_inv. done.
  - intros [Hm ->]. unfold mbind, SE_bind, snapshot, gets. cbn. rewrite Hm. cbn.
    by rewrite decide_True.
Qed.

(** * Frames *)
(** The frame of a line's work: configuration and other pools are left alone,
    the pool's counter only grows. *)
Record line_frame (p : Z) (s s' : Snapshot) : Prop := {
  lf_method : method_of s' = method_of s;
  lf_pools : ∀ q, q ≠ p → pools s' !! q = pools s !! q;
  lf_seq : ∀ q, q ≠ p → max_seq s' q = max_seq s q;
  lf_top : max_seq s p ≤ max_seq s' p;
}.
Lemma line_frame_refl p s : line_frame p s s.
Proof. by split. Qed.
Lemma line_frame_trans p s1 s2 s3 : line_frame p s1 s2 → line_frame p s2 s3 → line_frame p s1 s3.
Proof.
  intros [] []. split.
  - congruence.
  - intros q Hq. rewrite lf_pools1, lf_pools0; done.
  - intros q Hq. rewrite lf_seq1, lf_seq0; done.
  - lia.
Qed.
#[export] Hint Resolve line_frame_refl : ledger.

(** * The deduplication as a definition on lists

    An entry survives exactly when no later entry has its kind and target. *)
Fixpoint keep_last (ms : list PoolStateMutation) : list PoolStateMutation :=
  match ms with
  | [] => []
  | m :: ms =>
      if decide (mutation_key m ∈ map mutation_key ms) then keep_last ms else m :: keep_last ms
  end.

Lemma last_seen_from_notin ms i acc k :
  k ∉ map mutation_key ms → last_seen_from i ms acc !! k = acc !! k.
Proof.
  revert i acc. induction ms as [|m ms IH]; intros i acc; [done|].
  cbn. rewrite not_elem_of_cons. intros [??]. rewrite IH by done. by rewrite lookup_insert_ne.
Qed.

Lemma last_seen_from_in ms i acc acc' k :
  k ∈ map mutation_key ms →
  ∃ j, (i ≤ j)%nat ∧ last_seen_from i ms acc !! k = Some j ∧
       last_seen_from i ms acc' !! k = Some j.
Proof.
  revert i acc acc'. induction ms as [|m ms IH]; intros i acc acc'; [by inversion 1|].
  cbn [last_seen_from]. destruct (decide (k ∈ map mutation_key ms)) as [Hin|Hnin].
  - intros _. edestruct (IH (S i) (<[mutation_key m:=i]> acc) (<[mutation_key m:=i]> acc'))
      as (j & ? & ? & ?); [done|]. exists j. split_and!; [lia|done|done].
  - cbn. intros [->|?]%elem_of_cons; [|done]. exists i.
    rewrite !last_seen_from_notin, !lookup_insert_eq by done. done.
Qed.

Lemma last_seen_from_head m ms i acc :
  last_seen_from i (m :: ms) acc !! mutation_key m = Some i ↔
    mutation_key m ∉ map mutation_key ms.
Proof.
  cbn. split.
  - intros Hl Hin. destruct (last_seen_from_in ms (S i) (<[mutation_key m:=i]> acc) ∅ _ Hin)
      as (j & ? & Hj & _). rewrite Hl in Hj. injection Hj. lia.
  - intros Hn. by rewrite last_seen_from_notin, lookup_insert_eq.
Qed.

Lemma retain_last_from_spec ms ls i :
  (∀ k, k ∈ map mutation_key ms → ls !! k = last_seen_from i ms ∅ !! k) →
  retain_last_from i ls ms = keep_last ms.
Proof.
  revert i. induction ms as [|m ms IH]; intros i Hls; [done|]. cbn.
  assert (retain_last_from (S i) ls ms = keep_last ms) as ->.
  { apply IH. intros k Hk. rewrite Hls by (by right). cbn.
    by destruct (last_seen_from_in ms (S i) (<[mutation_key m:=i]> ∅) ∅ k Hk)
      as (j & _ & -> & ->). }
  pose proof (last_seen_from_head m ms i ∅) as Hhd.
  rewrite (Hls (mutation_key m)) by (by left).
  repeat case_decide; tauto.
Qed.

Lemma dedupe_is_keep_last ms : dedupe_mutations ms = keep_last ms.
Proof.
  unfold dedupe_mutations. case_decide as Hlen.
  - destruct ms as [|m [|]]; cbn in *; [done| |lia]. by rewrite decide_False by inversion 1.
  - by apply retain_last_from_spec.
Qed.

Lemma keep_last_submseteq ms m : m ∈ keep_last ms → m ∈ ms.
Proof.
  induction ms as [|x ms IH]; cbn; [done|]. case_decide; rewrite ?elem_of_cons; naive_solver.
Qed.
