(* ===== verification/V3Layered.v ===== *)
(** [ledger_core::layered] with its FIFO, LIFO and specific-identification
    wrappers: receipts push cost layers, depletions walk them oldest or newest
    first.  The specification reads a pool as the queue of its units. *)
From S2P Require Import Prelude V3Plan.

(** * Operations (layered.rs, fifo.rs, lifo.rs, specific.rs) *)
Inductive LayerOrder : Type := Ascending | Descending.

Definition layered_receipt (line : TrxLineRequest) (posted_at : Timestamp) : Core unit :=
  let p := req_pool_id line in
  trx_seq ← next_trx_seq p;
  trx_line_idx ← trx_line_count;
  update_result (push_trx_line
    {| out_pool_id := p; out_trx_seq := trx_seq; out_qty := req_qty line;
       out_unit_cost := req_unit_cost line; out_source_trx_line_id := None;
       out_line_type := req_line_type line; out_source_id := req_source_id line |});;
  update_result (push_mutation
    (Insert p trx_seq (req_qty line) (req_unit_cost line) trx_line_idx));;
  update_snapshot (λ s, with_pools
    (<[p := rows_of s p ++
        [{| layer_seq := trx_seq; row_qty := req_qty line;
            row_unit_cost := req_unit_cost line; last_trx_line_id := 0 |}]]> (pools s)) s);;
  amount ← some_or (checked_mul (req_qty line) (req_unit_cost line))
    (Overflow ("layered receipt amount: " +:+ pretty (req_qty line) +:+ " * " +:+
               pretty (req_unit_cost line) +:+ " (pool " +:+ pretty p +:+ ")"));
  update_result (push_posting
    {| pst_trx_line_idx := trx_line_idx; pst_event_type := InventoryReceipt;
       pst_amount := amount; pst_debit_account := req_debit_account line;
       pst_credit_account := req_credit_account line; pst_posted_at := posted_at |}).

(** One entry of the plan of a depletion. *)
Record LayerTouch := {
  lt_idx : nat;
  lt_layer_seq : Z;
  lt_consumed : Z;
  lt_unit_cost : Z;
  lt_last_trx_line_id : Z;
  lt_new_qty : Z;
}.

(** The plan phase: the layer indices with stock, in walk order, ... *)
Definition layer_key (layers : list PoolStateRow) (i : nat) : Z :=
  match layers !! i with Some l => layer_seq l | None => 0 end.
Definition live_idx (layers : list PoolStateRow) : list nat :=
  List.filter (λ i, match layers !! i with Some l => 0 <? row_qty l | None => false end)
    (seq 0 (length layers)).
Definition sorted_idx (order : LayerOrder) (layers : list PoolStateRow) : list nat :=
  match order with
  | Ascending => sort_by_key (layer_key layers) (live_idx layers)
  | Descending => sort_by_key (λ i, - layer_key layers i) (live_idx layers)
  end.

(** ... each consumed up to what remains to deplete. *)
Fixpoint walk_layers (layers : list PoolStateRow) (idxs : list nat) (remaining : Z)
    : list LayerTouch :=
  match idxs with
  | [] => []
  | idx :: idxs =>
      if decide (remaining = 0) then []
      else match layers !! idx with
           | None => []
           | Some layer =>
               let consumed := Z.min remaining (row_qty layer) in
               {| lt_idx := idx; lt_layer_seq := layer_seq layer; lt_consumed := consumed;
                  lt_unit_cost := row_unit_cost layer;
                  lt_last_trx_line_id := last_trx_line_id layer;
                  lt_new_qty := row_qty layer - consumed |}
               :: walk_layers layers idxs (remaining - consumed)
           end
  end.

(** [Iterator::sum] on [i64] wraps in the release profile. *)
Definition i64_sum (l : list Z) : Z := foldl wadd 0 l.

Definition set_row_qty (q : Z) (r : PoolStateRow) : PoolStateRow :=
  {| layer_seq := layer_seq r; row_qty := q; row_unit_cost := row_unit_cost r;
     last_trx_line_id := last_trx_line_id r |}.

(** The execute phase, for one planned layer. *)
Definition touch_layer (line : TrxLineRequest) (posted_at : Timestamp) (t : LayerTouch)
    : Core unit :=
  let p := req_pool_id line in
  trx_seq ← next_trx_seq p;
  trx_line_idx ← trx_line_count;
  update_result (push_trx_line
    {| out_pool_id := p; out_trx_seq := trx_seq; out_qty := - lt_consumed t;
       out_unit_cost := lt_unit_cost t;
       out_source_trx_line_id :=
         (if 0 <? lt_last_trx_line_id t then Some (lt_last_trx_line_id t) else None);
       out_line_type := req_line_type line; out_source_id := req_source_id line |});;
  update_result (push_mutation
    (if lt_new_qty t =? 0 then Delete p (lt_layer_seq t)
     else Update p (lt_layer_seq t) (lt_new_qty t)));;
  amount ← some_or (checked_mul (lt_consumed t) (lt_unit_cost t))
    (Overflow ("layered deplete amount: " +:+ pretty (lt_consumed t) +:+ " * " +:+
               pretty (lt_unit_cost t) +:+ " (pool " +:+ pretty p +:+ ")"));
  update_result (push_posting
    {| pst_trx_line_idx := trx_line_idx; pst_event_type := InventoryDepletion;
       pst_amount := amount; pst_debit_account := req_debit_account line;
       pst_credit_account := req_credit_account line; pst_posted_at := posted_at |});;
  s ← snapshot;
  layers ← expects (pools s !! p) "layer existed during plan phase";
  layer ← expects (layers !! lt_idx t) "index out of bounds";
  update_snapshot (with_pools
    (<[p := <[lt_idx t := set_row_qty (lt_new_qty t) layer]> layers]> (pools s))).

Definition has_stock (r : PoolStateRow) : Prop := 0 < row_qty r.
#[global] Instance has_stock_dec r : Decision (has_stock r).
Proof. unfold has_stock. apply _. Defined.

Definition layered_deplete (line : TrxLineRequest) (posted_at : Timestamp)
    (order : LayerOrder) : Core unit :=
  let p := req_pool_id line in
  total_to_deplete ← some_or (checked_abs (req_qty line))
    (Overflow ("layered deplete qty.abs() on pool " +:+ pretty p +:+ ": qty=" +:+
               pretty (req_qty line)));
  s ← snapshot;
  let available := i64_sum (map row_qty (rows_of s p)) in
  if available <? total_to_deplete
  then fails (InsufficientInventory p total_to_deplete available) else
  layers ← expects (pools s !! p) "available > 0 implies pool has layers";
  iterM (touch_layer line posted_at)
    (walk_layers layers (sorted_idx order layers) total_to_deplete);;
  update_snapshot (λ s,
    match pools s !! p with
    | Some layers => with_pools (<[p := filter has_stock layers]> (pools s)) s
    | None => s
    end).

Definition apply_layered (line : TrxLineRequest) (posted_at : Timestamp)
    (order : LayerOrder) : Core unit :=
  match req_qty line ?= 0 with
  | Eq => mret tt
  | Gt => layered_receipt line posted_at
  | Lt => layered_deplete line posted_at order
  end.

Definition apply_fifo (line : TrxLineRequest) (posted_at : Timestamp) : Core unit :=
  expect_method (req_pool_id line) Fifo;;
  apply_layered line posted_at Ascending.
Definition apply_lifo (line : TrxLineRequest) (posted_at : Timestamp) : Core unit :=
  expect_method (req_pool_id line) Lifo;;
  apply_layered line posted_at Descending.
Definition apply_specific (line : TrxLineRequest) (posted_at : Timestamp) : Core unit :=
  expect_method (req_pool_id line) Specific;;
  apply_layered line posted_at Ascending.

(** * A pool as the sequence of its units

    The layers of a pool stand in the order of their sequence numbers; written
    out unit by unit they are the costs at which the units came in, oldest
    first. *)
Definition units (rows : list PoolStateRow) : list Z :=
  rows ≫= λ r, replicate (Z.to_nat (row_qty r)) (row_unit_cost r).
Definition oriented (order : LayerOrder) {A} (l : list A) : list A :=
  match order with Ascending => l | Descending => reverse l end.

(** What the cost methods keep true of a layered pool: live layers only, in
    strictly increasing sequence, none above the pool's sequence counter. *)
Definition seq_lt (a b : PoolStateRow) : Prop := layer_seq a < layer_seq b.
Record layers_wf (rows : list PoolStateRow) (top : Z) : Prop := {
  lw_sorted : StronglySorted seq_lt rows;
  lw_live : Forall has_stock rows;
  lw_seq : Forall (λ r, layer_seq r ≤ top) rows;
}.

(** * The walk *)
Abbreviation picks layers := (Forall2 (λ i r, layers !! i = Some r)).

(** The rows after [rem] units were taken from them in order; emptied rows stay
    with quantity zero. *)
Fixpoint depleted (rem : Z) (rows : list PoolStateRow) : list PoolStateRow :=
  match rows with
  | [] => []
  | r :: rows =>
      if decide (rem = 0) then r :: rows
      else set_row_qty (row_qty r - Z.min rem (row_qty r)) r
           :: depleted (rem - Z.min rem (row_qty r)) rows
  end.

Definition touch_cost (t : LayerTouch) : Z := lt_consumed t * lt_unit_cost t.
Definition apply_touch (layers : list PoolStateRow) (t : LayerTouch) : list PoolStateRow :=
  alter (set_row_qty (lt_new_qty t)) (lt_idx t) layers.

Lemma units_cons r rows :
  units (r :: rows) = replicate (Z.to_nat (row_qty r)) (row_unit_cost r) ++ units rows.
Proof. done. Qed.
Lemma units_concat rows rows' : units (rows ++ rows') = units rows ++ units rows'.
Proof. apply bind_app. Qed.
Lemma sum_replicate n c : sumZ id (replicate n c) = Z.of_nat n * c.
Proof. induction n as [|n IH]; cbn [replicate]; [done|]. rewrite sumZ_cons, IH. unfold id. lia. Qed.
Lemma units_length rows :
  Forall (λ r, 0 ≤ row_qty r) rows → Z.of_nat (length (units rows)) = sumZ row_qty rows.
Proof.
  induction 1 as [|r rows Hr _ IH]; [done|].
  rewrite units_cons, length_app, length_replicate, sumZ_cons. lia.
Qed.

(** What the walk charges is the cost of the first units of the queue. *)
Lemma walk_cost layers idxs rows rem :
  picks layers idxs rows → Forall (λ r, 0 ≤ row_qty r) rows → 0 ≤ rem →
  sumZ touch_cost (walk_layers layers idxs rem) = sumZ id (take (Z.to_nat rem) (units rows)).
Proof.
  intros Hp Hq. revert rem. induction Hp as [|i r idxs rows Hi Hp IH]; intros rem Hrem.
  - by destruct (Z.to_nat rem).
  - inversion_clear Hq as [|?? Hr Hrs]. cbn [walk_layers]. case_decide as H0.
    + by subst.
    + rewrite Hi, sumZ_cons, IH, units_cons, take_app, sumZ_app by (done || lia).
      rewrite length_replicate, take_replicate, sum_replicate. unfold touch_cost at 1. cbn.
      f_equal; [f_equal; lia|do 2 f_equal; lia].
Qed.

Lemma units_depleted rem rows :
  Forall (λ r, 0 ≤ row_qty r) rows → 0 ≤ rem →
  units (depleted rem rows) = drop (Z.to_nat rem) (units rows).
Proof.
  intros Hq. revert rem. induction Hq as [|r rows Hr _ IH]; intros rem Hrem; cbn [depleted].
  - by destruct (Z.to_nat rem).
  - case_decide as H0; [by subst|].
    rewrite !units_cons, IH, drop_app, length_replicate by lia.
    cbn. rewrite drop_replicate. f_equal; f_equal; lia.
Qed.

Lemma units_filter rows :
  Forall (λ r, 0 ≤ row_qty r) rows → units (filter has_stock rows) = units rows.
Proof.
  induction 1 as [|r rows Hr _ IH]; [done|]. rewrite filter_cons, units_cons.
  case_decide as Hs; rewrite ?units_cons, IH; [done|].
  unfold has_stock in Hs. by replace (Z.to_nat (row_qty r)) with 0%nat by lia.
Qed.

Lemma depleted_bounds rem rows :
  Forall (λ r, 0 ≤ row_qty r) rows → 0 ≤ rem →
  Forall2 (λ r r', layer_seq r' = layer_seq r ∧ row_unit_cost r' = row_unit_cost r ∧
                   last_trx_line_id r' = last_trx_line_id r ∧ 0 ≤ row_qty r' ≤ row_qty r)
    rows (depleted rem rows).
Proof.
  intros Hq. revert rem. induction Hq as [|r rows Hr Hrs IH]; intros rem Hrem; cbn [depleted].
  - constructor.
  - case_decide as H0.
    + constructor; [split_and!; done || lia|]. apply Forall2_same_length_lookup. split; [done|].
      intros i a b Ha Hb. simplify_eq. rewrite Forall_lookup in Hrs. naive_solver lia.
    + constructor; [cbn; split_and!; done || lia|]. apply IH. lia.
Qed.

Lemma touches_length layers ts : length (foldl apply_touch layers ts) = length layers.
Proof.
  revert layers. induction ts as [|t ts IH]; intros; [done|]. cbn. rewrite IH. apply length_alter.
Qed.

Lemma picks_ext (layers layers' : list PoolStateRow) idxs rows :
  (∀ j, j ∈ idxs → layers' !! j = layers !! j) → picks layers idxs rows → picks layers' idxs rows.
Proof.
  intros Hext. induction 1 as [|i r idxs rows Hi Hp IH]; constructor.
  - rewrite Hext; [done|by left].
  - apply IH. intros. apply Hext. by right.
Qed.

(** Executing the walk leaves the visited rows depleted, wherever they sit. *)
Lemma touches_depleted layers cur idxs rows rem :
  NoDup idxs → picks layers idxs rows → picks cur idxs rows →
  picks (foldl apply_touch cur (walk_layers layers idxs rem)) idxs (depleted rem rows) ∧
  ∀ j, j ∉ idxs → foldl apply_touch cur (walk_layers layers idxs rem) !! j = cur !! j.
Proof.
  intros Hnd Hp. revert cur rem.
  induction Hp as [|i r idxs rows Hi Hp IH]; intros cur rem Hc; [by split|].
  apply NoDup_cons in Hnd as [Hni Hnd]. apply Forall2_cons in Hc as [Hci Hc].
  cbn [walk_layers depleted]. case_decide as H0; [by split; [constructor|]|].
  rewrite Hi. cbn [foldl]. set (cur1 := apply_touch cur _).
  assert (∀ j, j ≠ i → cur1 !! j = cur !! j) as Hne.
  { intros j Hj. unfold cur1, apply_touch. cbn. by rewrite list_lookup_alter_ne. }
  destruct (IH Hnd cur1 (rem - Z.min rem (row_qty r))) as [IH1 IH2].
  { eapply picks_ext; [|exact Hc]. intros j Hj. apply Hne. by intros ->. }
  split.
  - constructor; [|done]. rewrite IH2 by done. unfold cur1, apply_touch. cbn.
    by rewrite list_lookup_alter_eq, Hci.
  - intros j [Hj1 Hj2]%not_elem_of_cons. rewrite IH2 by done. by apply Hne.
Qed.

(** * The walk order of a well-formed pool *)
Lemma picks_seq (layers : list PoolStateRow) : picks layers (seq 0 (length layers)) layers.
Proof.
  apply Forall2_same_length_lookup. rewrite length_seq. split; [done|].
  intros i a b Ha Hb. apply lookup_seq in Ha as [-> _]. done.
Qed.

Lemma picks_all (layers layers' : list PoolStateRow) :
  length layers = length layers' → picks layers (seq 0 (length layers)) layers' → layers = layers'.
Proof.
  intros Hlen H. apply list_eq_same_length with (length layers); [done|done|].
  intros i x y Hi Hx Hy. eapply Forall2_lookup_r in H as (k & Hk & Hkx); [|exact Hy].
  apply lookup_seq in Hk as [-> _]. cbn in Hkx. congruence.
Qed.

Lemma oriented_Forall2 {A B} (P : A → B → Prop) o l k :
  Forall2 P l k → Forall2 P (oriented o l) (oriented o k).
Proof. destruct o; [done|apply Forall2_reverse]. Qed.

Lemma live_idx_all layers : Forall has_stock layers → live_idx layers = seq 0 (length layers).
Proof.
  intros Hl. unfold live_idx. apply List.forallb_filter_id, List.forallb_forall.
  intros i Hi%list_elem_of_In%elem_of_seq. destruct (lookup_lt_is_Some_2 layers i) as [r Hr]; [lia|].
  rewrite Hr. apply Z.ltb_lt. rewrite Forall_lookup in Hl. by eapply Hl.
Qed.

Lemma layer_key_mono layers i j :
  StronglySorted seq_lt layers → (i < j < length layers)%nat →
  layer_key layers i < layer_key layers j.
Proof.
  intros Hs Hij. destruct (lookup_lt_is_Some_2 layers i) as [a Ha]; [lia|].
  destruct (lookup_lt_is_Some_2 layers j) as [b Hb]; [lia|]. unfold layer_key. rewrite Ha, Hb.
  revert i j Hij Ha Hb. induction Hs as [|r rows Hs IH Hr]; intros i j Hij Ha Hb; [done|].
  destruct j as [|j]; [lia|]. destruct i as [|i]; cbn in *.
  - simplify_eq. rewrite Forall_lookup in Hr. by eapply Hr.
  - eapply (IH i j); [lia|done|done].
Qed.

Lemma sorted_seq_key (key : nat → Z) n k :
  (∀ i j, (k ≤ i < j ∧ j < k + n)%nat → key i < key j) → StronglySorted (key_le key) (seq k n).
Proof.
  revert k. induction n as [|n IH]; intros k Hk; cbn; constructor.
  - apply IH. intros. apply Hk. lia.
  - apply Forall_forall. intros j Hj%elem_of_seq. unfold key_le.
    assert (key k < key j) by (apply Hk; lia). lia.
Qed.

Lemma sorted_rev_seq_key (key : nat → Z) n k :
  (∀ i j, (k ≤ i < j ∧ j < k + n)%nat → key i < key j) →
  StronglySorted (key_le (λ i, - key i)) (reverse (seq k n)).
Proof.
  intros Hk. induction n as [|n IH]; [constructor|].
  rewrite seq_S, reverse_snoc. constructor; [apply IH; intros; apply Hk; lia|].
  apply Forall_reverse, Forall_forall. intros j Hj%elem_of_seq. unfold key_le.
  assert (key j < key (k + n)%nat) by (apply Hk; lia). lia.
Qed.

Lemma sorted_idx_wf o rows top :
  layers_wf rows top → sorted_idx o rows = oriented o (seq 0 (length rows)).
Proof.
  intros [Hs Hl _].
  assert (∀ i j, (0 ≤ i < j ∧ j < 0 + length rows)%nat →
            layer_key rows i < layer_key rows j) as Hk.
  { intros. apply layer_key_mono; [done|lia]. }
  assert (∀ i j, i ∈ live_idx rows → j ∈ live_idx rows →
            layer_key rows i = layer_key rows j → i = j) as Hinj.
  { rewrite live_idx_all by done. intros i j Hi%elem_of_seq Hj%elem_of_seq Hij.
    destruct (lt_eq_lt_dec i j) as [[?|?]|?]; [|done|].
    - specialize (Hk i j). lia.
    - specialize (Hk j i). lia. }
  rewrite live_idx_all in Hinj by done.
  unfold sorted_idx. rewrite live_idx_all by done. destruct o; apply sort_by_key_unique.
  - done.
  - done.
  - by apply sorted_seq_key.
  - intros i j Hi Hj Hij. apply Hinj; [done|done|lia].
  - by rewrite reverse_Permutation.
  - by apply sorted_rev_seq_key.
Qed.

Lemma touches_wf o rows top rem :
  layers_wf rows top →
  oriented o (foldl apply_touch rows (walk_layers rows (sorted_idx o rows) rem)) =
    depleted rem (oriented o rows).
Proof.
  intros Hwf. rewrite (sorted_idx_wf o rows top) by done.
  destruct (touches_depleted rows rows (oriented o (seq 0 (length rows))) (oriented o rows) rem)
    as [H _].
  - destruct o; cbn; [|rewrite reverse_Permutation]; apply NoDup_seq.
  - apply oriented_Forall2, picks_seq.
  - apply oriented_Forall2, picks_seq.
  - set (rows' := foldl apply_touch _ _) in *.
    assert (length rows' = length rows) as Hlen by apply touches_length.
    rewrite <-Hlen in H. pose proof (Forall2_length _ _ _ H) as Hlen'.
    destruct o; cbn [oriented] in *.
    + apply picks_all; [|done]. by rewrite <-Hlen', length_seq.
    + apply Forall2_reverse in H. rewrite reverse_involutive in H.
      rewrite length_reverse, length_seq in Hlen'.
      rewrite <-(reverse_involutive (depleted _ _)). f_equal.
      apply picks_all; [|done]. by rewrite length_reverse.
Qed.

(** * One touched layer *)
Definition touch_output (line : TrxLineRequest) (trx_seq : Z) (t : LayerTouch) : TrxLineOutput :=
  {| out_pool_id := req_pool_id line; out_trx_seq := trx_seq; out_qty := - lt_consumed t;
     out_unit_cost := lt_unit_cost t;
     out_source_trx_line_id :=
       (if 0 <? lt_last_trx_line_id t then Some (lt_last_trx_line_id t) else None);
     out_line_type := req_line_type line; out_source_id := req_source_id line |}.
Definition touch_mutation (p : Z) (t : LayerTouch) : PoolStateMutation :=
  if lt_new_qty t =? 0 then Delete p (lt_layer_seq t)
  else Update p (lt_layer_seq t) (lt_new_qty t).

Record touched (line : TrxLineRequest) (posted_at : Timestamp) (t : LayerTouch)
    (st st' : Snapshot * PlanResult) : Prop := {
  td_frame : line_frame (req_pool_id line) st.1 st'.1;
  td_row : is_Some (rows_of st.1 (req_pool_id line) !! lt_idx t);
  td_rows : rows_of st'.1 (req_pool_id line) = apply_touch (rows_of st.1 (req_pool_id line)) t;
  td_top : max_seq st'.1 (req_pool_id line) = max_seq st.1 (req_pool_id line) + 1;
  td_trx : trx_lines st'.2 = trx_lines st.2 ++
             [touch_output line (max_seq st.1 (req_pool_id line) + 1) t];
  td_mut : pool_state_mutations st'.2 = pool_state_mutations st.2 ++
             [touch_mutation (req_pool_id line) t];
  td_post : posting_lines st'.2 = posting_lines st.2 ++
    [{| pst_trx_line_idx := length (trx_lines st.2); pst_event_type := InventoryDepletion;
        pst_amount := touch_cost t; pst_debit_account := req_debit_account line;
        pst_credit_account := req_credit_account line; pst_posted_at := posted_at |}];
  td_prov : provisional_postings st'.2 = provisional_postings st.2;
}.

Lemma touch_layer_touched line posted_at t st st' :
  touch_layer line posted_at t st = (Ok tt, st') → touched line posted_at t st st'.
Proof.
  unfold touch_layer. intros H. core_inv.
  match goal with Hs : next_trx_seq _ _ = _ |- _ =>
    apply next_trx_seq_Ok in Hs as (-> & Hseq & ->) end.
  cbn in *.
  match goal with Hp : pools _ !! _ = Some ?l, Hl : ?l !! _ = Some ?r |- _ =>
    assert (rows_of st.1 (req_pool_id line) = l) as Hrows by (unfold rows_of; by rewrite Hp);
    rename Hl into Hlk end.
  split; cbn; try done.
  - split; cbn; [done|..].
    + intros q Hq. by rewrite lookup_insert_ne.
    + intros q Hq. unfold max_seq. cbn. by rewrite lookup_insert_ne.
    + unfold max_seq. cbn. rewrite lookup_insert_eq. cbn. unfold max_seq. lia.
  - by rewrite Hrows, Hlk.
  - unfold rows_of at 1. cbn. rewrite lookup_insert_eq. cbn. rewrite Hrows.
    unfold apply_touch.
    rewrite list_insert_alter. apply list_alter_ext; [|done]. intros r Hr. congruence.
  - unfold max_seq at 1. cbn. by rewrite lookup_insert_eq.
Qed.

(** * The execute phase *)
Record executed (line : TrxLineRequest) (ts : list LayerTouch)
    (st st' : Snapshot * PlanResult) : Prop := {
  ex_frame : line_frame (req_pool_id line) st.1 st'.1;
  ex_rows : rows_of st'.1 (req_pool_id line) =
              foldl apply_touch (rows_of st.1 (req_pool_id line)) ts;
  ex_amounts : map pst_amount (posting_lines st'.2) =
                 map pst_amount (posting_lines st.2) ++ map touch_cost ts;
  ex_qtys : map out_qty (trx_lines st'.2) =
              map out_qty (trx_lines st.2) ++ map (λ t, - lt_consumed t) ts;
  ex_mut : pool_state_mutations st'.2 = pool_state_mutations st.2 ++
             map (touch_mutation (req_pool_id line)) ts;
}.

Lemma iterM_touch_executed line posted_at ts st st' :
  iterM (touch_layer line posted_at) ts st = (Ok tt, st') → executed line ts st st'.
Proof.
  revert st. induction ts as [|t ts IH]; intros st; cbn.
  - intros [= <-]. split; cbn; rewrite ?app_nil_r; auto with ledger.
  - intros ([] & st1 & Ht%touch_layer_touched & Hts%IH)%SE_bind_Ok.
    destruct Ht, Hts. split.
    + by eapply line_frame_trans.
    + by rewrite ex_rows0, td_rows0.
    + by rewrite ex_amounts0, td_post0, map_app, <-app_assoc.
    + by rewrite ex_qtys0, td_trx0, map_app, <-app_assoc.
    + by rewrite ex_mut0, td_mut0, <-app_assoc.
Qed.

(** The execute phase succeeds when the counter and the amounts stay in range. *)
Lemma iterM_touch_succeeds line posted_at ts st :
  in_i64 (max_seq st.1 (req_pool_id line)) →
  max_seq st.1 (req_pool_id line) + Z.of_nat (length ts) ≤ i64_max →
  Forall (λ t, in_i64 (touch_cost t)) ts →
  is_Some (pools st.1 !! req_pool_id line) →
  Forall (λ t, (lt_idx t < length (rows_of st.1 (req_pool_id line)))%nat) ts →
  ∃ st', iterM (touch_layer line posted_at) ts st = (Ok tt, st').
Proof.
  intros Hin Htop Hcost. revert st Hin Htop.
  induction Hcost as [|t ts Ht _ IH]; intros st Hin Htop [layers Hl] Hidx; [by eexists|].
  inversion_clear Hidx as [|?? Hi His]. cbn [length] in Htop.
  assert (∃ st1, touch_layer line posted_at t st = (Ok tt, st1) ∧
                 is_Some (pools st1.1 !! req_pool_id line)) as (st1 & Hrun & Hl1).
  { unfold rows_of in Hi. rewrite Hl in Hi. destruct (lookup_lt_is_Some_2 layers _ Hi) as [r Hr].
    eexists. unfold touch_layer. split.
    { erewrite SE_bind_run by (apply next_trx_seq_Ok; split_and!; [done|solve_i64|done]).
      unfold checked_mul, touch_cost in *.
      unfold mbind, SE_bind, trx_line_count, gets, update_result, modify. cbn.
      rewrite i64_try_from_in by done. cbn. rewrite Hl. cbn. rewrite Hr. cbn. done. }
    cbn. rewrite lookup_insert_eq. by eexists. }
  cbn [iterM]. rewrite (SE_bind_run _ _ _ _ _ Hrun).
  pose proof (touch_layer_touched _ _ _ _ _ Hrun) as []. apply IH.
  - rewrite td_top0. solve_i64.
  - rewrite td_top0. lia.
  - done.
  - eapply Forall_impl; [exact His|]. intros t' Ht'. rewrite td_rows0.
    unfold apply_touch. by rewrite length_alter.
Qed.

(** * The order of the layers survives a depletion *)
Lemma Forall_oriented {A} (P : A → Prop) o l : Forall P (oriented o l) ↔ Forall P l.
Proof. destruct o; [done|]. cbn. by rewrite Forall_reverse. Qed.
Lemma oriented_involutive {A} o (l : list A) : oriented o (oriented o l) = l.
Proof. destruct o; [done|]. apply reverse_involutive. Qed.
Lemma oriented_filter {A} (P : A → Prop) `{!∀ x, Decision (P x)} o l :
  oriented o (filter P l) = filter P (oriented o l).
Proof.
  destruct o; [done|]. cbn. induction l as [|x l IH] using rev_ind; [done|].
  rewrite filter_app, reverse_app, reverse_snoc, !filter_cons, filter_nil.
  case_decide; cbn; by rewrite IH.
Qed.
Lemma oriented_sum o {A} (f : A → Z) l : sumZ f (oriented o l) = sumZ f l.
Proof. destruct o; [done|]. cbn. by rewrite reverse_Permutation. Qed.

Lemma layers_nonneg rows : Forall has_stock rows → Forall (λ r, 0 ≤ row_qty r) rows.
Proof. intros H. eapply Forall_impl; [exact H|]. unfold has_stock. intros. lia. Qed.

Lemma sorted_same_seqs rows rows' :
  Forall2 (λ r r', layer_seq r' = layer_seq r) rows rows' →
  StronglySorted seq_lt rows → StronglySorted seq_lt rows'.
Proof.
  induction 1 as [|r r' rows rows' Hr Hrs IH]; [constructor|]. intros Hs.
  inversion_clear Hs as [|?? Hs' Hlt]. constructor; [by apply IH|].
  clear IH Hs'. induction Hrs as [|a b ra rb Hab Hrs IH']; constructor.
  - inversion_clear Hlt. unfold seq_lt in *. lia.
  - inversion_clear Hlt. by apply IH'.
Qed.

Lemma Forall_filter_rows P rows : Forall P rows → Forall P (filter has_stock rows).
Proof.
  rewrite !Forall_forall. intros H r [_ Hr]%list_elem_of_filter. by apply H.
Qed.
Lemma Sorted_filter_rows rows :
  StronglySorted seq_lt rows → StronglySorted seq_lt (filter has_stock rows).
Proof.
  induction 1 as [|r rows Hs IH Hr]; [constructor|]. rewrite filter_cons. case_decide; [|done].
  constructor; [done|]. by apply Forall_filter_rows.
Qed.

Lemma deplete_wf o rows top top' rem rows' :
  layers_wf rows top → 0 ≤ rem → top ≤ top' →
  oriented o rows' = depleted rem (oriented o rows) →
  layers_wf (filter has_stock rows') top'.
Proof.
  intros [Hs Hl Hq] Hrem Htop Heq.
  assert (Forall2 (λ r r', layer_seq r' = layer_seq r) rows rows') as Hsame.
  { pose proof (depleted_bounds rem (oriented o rows)) as Hb.
    rewrite <-Heq in Hb. apply (oriented_Forall2 _ o) in Hb; [|by apply Forall_oriented, layers_nonneg|done].
    rewrite !oriented_involutive in Hb. eapply Forall2_impl; [exact Hb|]. naive_solver. }
  split.
  - by eapply Sorted_filter_rows, sorted_same_seqs.
  - apply Forall_forall. by intros r [? _]%list_elem_of_filter.
  - apply Forall_filter_rows, Forall_lookup. intros i r Hr.
    eapply Forall2_lookup_r in Hsame as (r0 & Hr0 & ->); [|exact Hr].
    rewrite Forall_lookup in Hq. specialize (Hq _ _ Hr0). cbn in Hq. lia.
Qed.

Lemma i64_sum_exact rows :
  Forall (λ r, 0 ≤ row_qty r) rows → sumZ row_qty rows ≤ i64_max →
  i64_sum (map row_qty rows) = sumZ row_qty rows.
Proof.
  intros Hq Htot. unfold i64_sum.
  assert (∀ acc, 0 ≤ acc → acc + sumZ row_qty rows ≤ i64_max →
            foldl wadd acc (map row_qty rows) = acc + sumZ row_qty rows) as H.
  { clear Htot. induction Hq as [|r rows Hr Hrs IH]; intros acc Hacc Hle; cbn.
    - rewrite sumZ_nil. lia.
    - rewrite sumZ_cons in *. assert (0 ≤ sumZ row_qty rows).
      { apply sumZ_nonneg. intros a Ha. rewrite Forall_forall in Hrs. auto. }
      unfold wadd. rewrite wrap_i64_id by solve_i64. rewrite IH; lia. }
  rewrite H; lia.
Qed.

(** * What a walk touches *)
Lemma walk_consumed layers idxs rows rem :
  picks layers idxs rows → Forall (λ r, 0 ≤ row_qty r) rows → 0 ≤ rem →
  sumZ lt_consumed (walk_layers layers idxs rem) = Z.min rem (sumZ row_qty rows).
Proof.
  intros Hp Hq. revert rem. induction Hp as [|i r idxs rows Hi Hp IH]; intros rem Hrem.
  - rewrite sumZ_nil. cbn. rewrite sumZ_nil. lia.
  - inversion_clear Hq as [|?? Hr Hrs]. cbn [walk_layers]. rewrite (sumZ_cons row_qty).
    assert (0 ≤ sumZ row_qty rows).
    { apply sumZ_nonneg. intros a Ha. rewrite Forall_forall in Hrs. auto. }
    case_decide as H0.
    + rewrite sumZ_nil. lia.
    + rewrite Hi, sumZ_cons, IH by (done || lia). cbn. lia.
Qed.

Lemma walk_touches (P : LayerTouch → Prop) layers idxs rows rem :
  picks layers idxs rows → 0 ≤ rem → Forall has_stock rows →
  (∀ i r c, layers !! i = Some r → r ∈ rows → 0 ≤ c ≤ row_qty r →
     P {| lt_idx := i; lt_layer_seq := layer_seq r; lt_consumed := c;
          lt_unit_cost := row_unit_cost r; lt_last_trx_line_id := last_trx_line_id r;
          lt_new_qty := row_qty r - c |}) →
  Forall P (walk_layers layers idxs rem) ∧
  (length (walk_layers layers idxs rem) ≤ length rows)%nat.
Proof.
  intros Hp Hrem Hq HP. revert rem Hrem.
  induction Hp as [|i r idxs rows Hi Hp IH]; intros rem Hrem; [by split; [constructor|cbn; lia]|].
  inversion_clear Hq as [|?? Hr Hrs]. unfold has_stock in Hr. cbn [walk_layers].
  case_decide as H0; [split; [constructor|cbn; lia]|]. rewrite Hi.
  destruct (IH Hrs) with (rem := rem - Z.min rem (row_qty r)) as [H1 H2].
  - intros. apply HP; [done|by right|lia].
  - lia.
  - split; [|cbn; lia]. constructor; [|done]. apply HP; [done|by left|lia].
Qed.

Lemma scaled_in_i64 c q u : 0 ≤ c ≤ q → in_i64 (q * u) → in_i64 (c * u).
Proof.
  unfold in_i64, i64_min, i64_max. intros Hc Hq.
  destruct (Z.le_ge_cases 0 u).
  - assert (0 ≤ c * u ≤ q * u) by nia. lia.
  - assert (q * u ≤ c * u ≤ 0) by nia. lia.
Qed.

(** * Depletions *)
Lemma layered_deplete_run line t order st :
  let p := req_pool_id line in
  let rows := rows_of st.1 p in
  let ts := walk_layers rows (sorted_idx order rows) (- req_qty line) in
  i64_min < req_qty line < 0 → Forall has_stock rows →
  sumZ row_qty rows ≤ i64_max → - req_qty line ≤ sumZ row_qty rows →
  ∀ st1, iterM (touch_layer line t) ts st = (Ok tt, st1) →
  ∃ st', layered_deplete line t order st = (Ok tt, st') ∧ executed line ts st st1 ∧
         st'.2 = st1.2 ∧ line_frame p st.1 st'.1 ∧
         rows_of st'.1 p = filter has_stock (foldl apply_touch rows ts) ∧
         max_seq st1.1 p = max_seq st'.1 p.
Proof.
  intros p rows ts Hqty Hl Htot Hav st1 Hrun.
  pose proof (iterM_touch_executed _ _ _ _ _ Hrun) as Hex. pose proof Hex as [].
  fold p rows in ex_rows0, ex_frame0.
  assert (pools st.1 !! p = Some rows) as Hp.
  { unfold rows, rows_of. unfold rows, rows_of in Hav.
    destruct (pools st.1 !! p); [done|]. cbn in Hav. rewrite sumZ_nil in Hav. lia. }
  eexists. unfold layered_deplete, checked_abs. rewrite Z.abs_neq by lia.
  rewrite i64_try_from_in by solve_i64. fold p rows.
  unfold mbind, SE_bind, snapshot, gets. cbn -[sumZ]. fold rows.
  rewrite i64_sum_exact by (done || by apply layers_nonneg).
  rewrite (proj2 (Z.ltb_ge _ _)) by lia. rewrite Hp. cbn -[sumZ].
  fold ts. rewrite Hrun. split; [reflexivity|]. split; [done|]. cbn.
  destruct (pools st1.1 !! p) as [layers|] eqn:Hp1; cbn.
  - split_and!; [done|..].
    + destruct ex_frame0. split; cbn; [done| |done|done].
      intros q Hq. rewrite lookup_insert_ne by done. auto.
    + unfold rows_of at 1. cbn. rewrite lookup_insert_eq. cbn. f_equal.
      unfold rows_of in ex_rows0 at 1. by rewrite Hp1 in ex_rows0.
    + done.
  - split_and!; [done|done| |done]. rewrite <-ex_rows0. unfold rows_of. by rewrite Hp1.
Qed.

Lemma layered_deplete_short line t order st :
  let p := req_pool_id line in
  let rows := rows_of st.1 p in
  i64_min < req_qty line < 0 → Forall has_stock rows →
  sumZ row_qty rows ≤ i64_max → sumZ row_qty rows < - req_qty line →
  layered_deplete line t order st =
    (Err (Returned (InsufficientInventory p (- req_qty line) (sumZ row_qty rows))), st).
Proof.
  intros p rows Hqty Hl Htot Hav. unfold layered_deplete, checked_abs.
  rewrite Z.abs_neq by lia. rewrite i64_try_from_in by solve_i64. fold p rows.
  unfold mbind, SE_bind, snapshot, gets. cbn -[sumZ]. fold rows.
  rewrite i64_sum_exact by (done || by apply layers_nonneg).
  by rewrite (proj2 (Z.ltb_lt _ _)) by lia.
Qed.

Lemma picks_sorted_idx order rows top :
  layers_wf rows top → picks rows (sorted_idx order rows) (oriented order rows).
Proof.
  intros. rewrite (sorted_idx_wf order rows top) by done. apply oriented_Forall2, picks_seq.
Qed.

(** A walk over available stock runs to its end. *)
Lemma layered_walk_runs line t order st :
  let p := req_pool_id line in
  let rows := rows_of st.1 p in
  layers_wf rows (max_seq st.1 p) →
  i64_min < req_qty line < 0 →
  0 ≤ max_seq st.1 p → max_seq st.1 p + Z.of_nat (length rows) ≤ i64_max →
  Forall (λ r, in_i64 (row_qty r * row_unit_cost r)) rows →
  - req_qty line ≤ sumZ row_qty rows →
  ∃ st1, iterM (touch_layer line t)
           (walk_layers rows (sorted_idx order rows) (- req_qty line)) st = (Ok tt, st1).
Proof.
  intros p rows Hwf Hqty Htop0 Htop Hcost Hav.
  pose proof (picks_sorted_idx order rows _ Hwf) as Hpicks. destruct Hwf as [Hs Hl Hseq].
  destruct (walk_touches (λ t, in_i64 (touch_cost t) ∧ (lt_idx t < length rows)%nat)
              rows (sorted_idx order rows) (oriented order rows) (- req_qty line))
    as [Hts Hlts]; [done|lia|by apply Forall_oriented| |].
  { intros i r c Hi Hr Hc. cbn. split; [|by eapply lookup_lt_Some].
    eapply scaled_in_i64; [done|]. apply (Forall_oriented _ order) in Hcost.
    rewrite Forall_forall in Hcost. by apply Hcost. }
  assert (length (oriented order rows) = length rows) as Hol
    by (destruct order; [done|apply length_reverse]).
  apply iterM_touch_succeeds; fold p.
  - solve_i64.
  - lia.
  - eapply Forall_impl; [exact Hts|]. naive_solver.
  - destruct (pools st.1 !! p) eqn:Hp; [by eexists|].
    unfold rows, rows_of in Hav. rewrite Hp in Hav. cbn in Hav. rewrite sumZ_nil in Hav. lia.
  - eapply Forall_impl; [exact Hts|]. naive_solver.
Qed.

(** C26: Depletion of a FIFO, LIFO or specific-identification pool, read unit by
    unit.  Lay the pool's layers out as the queue of its units' costs (oldest
    first for FIFO, newest first for LIFO).  A request for more units than the
    queue holds is refused with the exact shortage and changes nothing.  Any
    other request succeeds: it takes exactly the first units off the queue,
    posts exactly their cost, issues exactly the requested quantity, and leaves
    a well-formed pool. *)
Theorem depletion_is_unit_queue line t order st :
  let p := req_pool_id line in
  let rows := rows_of st.1 p in
  let queue := units (oriented order rows) in
  let q := Z.to_nat (- req_qty line) in
  layers_wf rows (max_seq st.1 p) →
  i64_min < req_qty line < 0 → sumZ row_qty rows ≤ i64_max →
  0 ≤ max_seq st.1 p → max_seq st.1 p + Z.of_nat (length rows) ≤ i64_max →
  Forall (λ r, in_i64 (row_qty r * row_unit_cost r)) rows →
  if decide (length queue < q)%nat
  then layered_deplete line t order st =
         (Err (Returned (InsufficientInventory p (- req_qty line) (Z.of_nat (length queue)))), st)
  else ∃ st', layered_deplete line t order st = (Ok tt, st') ∧
         units (oriented order (rows_of st'.1 p)) = drop q queue ∧
         sumZ pst_amount (posting_lines st'.2) =
           sumZ pst_amount (posting_lines st.2) + sumZ id (take q queue) ∧
         sumZ out_qty (trx_lines st'.2) = sumZ out_qty (trx_lines st.2) + req_qty line ∧
         layers_wf (rows_of st'.1 p) (max_seq st'.1 p) ∧ line_frame p st.1 st'.1.
Proof.
  intros p rows queue q Hwf Hqty Htot Htop0 Htop Hcost. pose proof Hwf as [Hs Hl Hseq].
  assert (Z.of_nat (length queue) = sumZ row_qty rows) as Hlen.
  { unfold queue. rewrite units_length, oriented_sum; [done|]. by apply Forall_oriented, layers_nonneg. }
  case_decide as Hshort.
  { rewrite Hlen. apply layered_deplete_short; [done|done|done|]. fold p rows. lia. }
  set (ts := walk_layers rows (sorted_idx order rows) (- req_qty line)).
  destruct (layered_walk_runs line t order st) as [st1 Hrun]; [done..|fold p rows; lia|].
  assert (picks rows (sorted_idx order rows) (oriented order rows)) as Hpicks
    by (by eapply picks_sorted_idx).
  assert (Forall (λ r, 0 ≤ row_qty r) (oriented order rows)) as Hnn
    by (by apply Forall_oriented, layers_nonneg).
  destruct (layered_deplete_run line t order st) with (st1 := st1)
    as (st' & Hrun' & [] & Hres & Hframe & Hrows & Hmax); [done|done|done|fold p rows; lia|done|].
  fold p rows in ex_rows0, Hframe, Hrows, Hmax. fold ts in ex_rows0, ex_amounts0, ex_qtys0, Hrows.
  exists st'. split; [done|].
  assert (oriented order (foldl apply_touch rows ts) =
            depleted (- req_qty line) (oriented order rows)) as Hdep
    by (by apply touches_wf with (max_seq st.1 p)).
  rewrite Hres, Hrows, oriented_filter, Hdep. split_and!; [..|done].
  + rewrite units_filter, units_depleted; [done|done|lia|].
    eapply Forall2_Forall_r; [apply depleted_bounds; [done|lia]|].
    apply Forall_true. naive_solver.
  + rewrite <-!(sumZ_map pst_amount), ex_amounts0, sumZ_app, (sumZ_map touch_cost).
    unfold ts. rewrite (walk_cost _ _ (oriented order rows)) by (done || lia). done.
  + rewrite <-!(sumZ_map out_qty), ex_qtys0, sumZ_app, (sumZ_map (λ t, - lt_consumed t)), sumZ_opp.
    unfold ts. rewrite (walk_consumed _ _ (oriented order rows)), oriented_sum by (done || lia). lia.
  + eapply deplete_wf; [exact Hwf| | |exact Hdep]; [lia|]. by destruct Hframe.
Qed.

(** * Inversion of successful lines *)
Lemma layered_receipt_Ok line t st st' :
  layered_receipt line t st = (Ok tt, st') →
  let p := req_pool_id line in
  line_frame p st.1 st'.1 ∧
  rows_of st'.1 p = rows_of st.1 p ++
    [{| layer_seq := max_seq st.1 p + 1; row_qty := req_qty line;
        row_unit_cost := req_unit_cost line; last_trx_line_id := 0 |}] ∧
  max_seq st'.1 p = max_seq st.1 p + 1 ∧
  pool_state_mutations st'.2 = pool_state_mutations st.2 ++
    [Insert p (max_seq st.1 p + 1) (req_qty line) (req_unit_cost line) (length (trx_lines st.2))] ∧
  posting_lines st'.2 = posting_lines st.2 ++
    [{| pst_trx_line_idx := length (trx_lines st.2); pst_event_type := InventoryReceipt;
        pst_amount := req_qty line * req_unit_cost line;
        pst_debit_account := req_debit_account line;
        pst_credit_account := req_credit_account line; pst_posted_at := t |}].
Proof.
  unfold layered_receipt. intros H. core_inv.
  match goal with Hs : next_trx_seq _ _ = _ |- _ =>
    apply next_trx_seq_Ok in Hs as (-> & Hseq & ->) end. cbn in *.
  split_and!; [|..|done|done].
  - split; cbn; [done|..].
    + intros q Hq. by rewrite lookup_insert_ne.
    + intros q Hq. unfold max_seq. cbn. by rewrite lookup_insert_ne.
    + unfold max_seq at 2. cbn. rewrite lookup_insert_eq. cbn. lia.
  - unfold rows_of at 1. cbn. by rewrite lookup_insert_eq.
  - unfold max_seq at 1. cbn. by rewrite lookup_insert_eq.
Qed.

Lemma layered_deplete_Ok line t o st st' :
  layered_deplete line t o st = (Ok tt, st') →
  let p := req_pool_id line in
  ∃ st1, executed line (walk_layers (rows_of st.1 p) (sorted_idx o (rows_of st.1 p))
                          (Z.abs (req_qty line))) st st1 ∧
    line_frame p st.1 st'.1 ∧
    rows_of st'.1 p = filter has_stock (foldl apply_touch (rows_of st.1 p)
      (walk_layers (rows_of st.1 p) (sorted_idx o (rows_of st.1 p)) (Z.abs (req_qty line)))) ∧
    max_seq st'.1 p = max_seq st1.1 p ∧ st'.2 = st1.2.
Proof.
  unfold layered_deplete. intros H. core_inv.
  match goal with Hp : pools ?s !! _ = Some ?l |- _ =>
    assert (rows_of s (req_pool_id line) = l) as Hrows by (unfold rows_of; by rewrite Hp) end.
  match goal with Hi : iterM _ _ _ = (Ok tt, ?x) |- _ =>
    apply iterM_touch_executed in Hi; rename Hi into Hex; exists x end.
  rewrite Hrows. split; [done|]. destruct Hex. cbn. rewrite Hrows in ex_rows0.
  destruct (pools _ !! _) as [layers|] eqn:Hp1 in |- *; cbn.
  - split_and!; [|..|done|done].
    + destruct ex_frame0. split; cbn; [done| |done|done].
      intros q Hq. rewrite lookup_insert_ne by done. auto.
    + unfold rows_of at 1. cbn. rewrite lookup_insert_eq. cbn. f_equal.
      unfold rows_of in ex_rows0 at 1. by rewrite Hp1 in ex_rows0.
  - split_and!; [done| |done|done]. rewrite <-ex_rows0. unfold rows_of. by rewrite Hp1.
Qed.
