(* ===== verification/V3Wac.v ===== *)
(** [ledger_core::wac], [ledger_core::wac_periodic] and [ledger_core::standard]:
    the cumulative-sum average methods, which keep the exact value of a pool in
    one row and round once per depletion, and the standard-cost method, which
    keeps no rows. *)
From S2P Require Import Prelude V3Plan.

(** * Row access (wac.rs) *)
Definition is_layer0 (r : PoolStateRow) : bool := layer_seq r =? 0.

(** (qty, value_sum, layer_existed): the [unit_cost] column of a WAC row is the
    value sum. *)
Definition read_layer0 (s : Snapshot) (pool_id : Z) : Z * Z * bool :=
  match rows ← pools s !! pool_id; List.find is_layer0 rows with
  | Some row => (row_qty row, row_unit_cost row, true)
  | None => (0, 0, false)
  end.

Fixpoint upsert_layer0_rows (qty value_sum : Z) (layers : list PoolStateRow)
    : list PoolStateRow :=
  match layers with
  | [] => [{| layer_seq := 0; row_qty := qty; row_unit_cost := value_sum;
              last_trx_line_id := 0 |}]
  | l :: layers =>
      if is_layer0 l
      then {| layer_seq := layer_seq l; row_qty := qty; row_unit_cost := value_sum;
              last_trx_line_id := last_trx_line_id l |} :: layers
      else l :: upsert_layer0_rows qty value_sum layers
  end.

Definition upsert_in_memory_layer0 (pool_id qty value_sum : Z) (s : Snapshot) : Snapshot :=
  with_pools (<[pool_id := upsert_layer0_rows qty value_sum (rows_of s pool_id)]> (pools s)) s.

(** * Receipts and depletions

    The bodies of wac.rs and wac_periodic.rs differ in the name their messages
    carry and in the provisional flag of a depletion. *)
Definition cumulative_receipt (name : string) (line : TrxLineRequest) (posted_at : Timestamp)
    : Core unit :=
  let p := req_pool_id line in
  s ← snapshot;
  let '(existing_qty, existing_value_sum, layer_existed) := read_layer0 s p in
  added_value ← some_or (checked_mul (req_qty line) (req_unit_cost line))
    (Overflow (name +:+ " receipt value: " +:+ pretty (req_qty line) +:+ " * " +:+
               pretty (req_unit_cost line) +:+ " (pool " +:+ pretty p +:+ ")"));
  new_qty ← some_or (checked_add existing_qty (req_qty line))
    (Overflow (name +:+ " receipt qty overflow on pool " +:+ pretty p +:+ ": " +:+
               pretty existing_qty +:+ " + " +:+ pretty (req_qty line)));
  new_value_sum ← some_or (checked_add existing_value_sum added_value)
    (Overflow (name +:+ " receipt value_sum overflow on pool " +:+ pretty p +:+ ": " +:+
               pretty existing_value_sum +:+ " + " +:+ pretty added_value));
  trx_seq ← next_trx_seq p;
  trx_line_idx ← trx_line_count;
  update_result (push_trx_line
    {| out_pool_id := p; out_trx_seq := trx_seq; out_qty := req_qty line;
       out_unit_cost := req_unit_cost line; out_source_trx_line_id := None;
       out_line_type := req_line_type line; out_source_id := req_source_id line |});;
  update_result (push_mutation
    (if layer_existed : bool then Upsert p 0 new_qty new_value_sum trx_line_idx
     else Insert p 0 new_qty new_value_sum trx_line_idx));;
  update_snapshot (upsert_in_memory_layer0 p new_qty new_value_sum);;
  update_result (push_posting
    {| pst_trx_line_idx := trx_line_idx; pst_event_type := InventoryReceipt;
       pst_amount := added_value; pst_debit_account := req_debit_account line;
       pst_credit_account := req_credit_account line; pst_posted_at := posted_at |}).

Definition cumulative_deplete (name : string) (provisional : bool) (line : TrxLineRequest)
    (posted_at : Timestamp) : Core unit :=
  let p := req_pool_id line in
  qty_to_deplete ← some_or (checked_abs (req_qty line))
    (Overflow (name +:+ " deplete qty.abs() on pool " +:+ pretty p +:+ ": qty=" +:+
               pretty (req_qty line)));
  s ← snapshot;
  let '(current_qty, current_value_sum, layer_existed) := read_layer0 s p in
  if current_qty <? qty_to_deplete
  then fails (InsufficientInventory p qty_to_deplete current_qty) else
  numerator ← some_or (checked_mul qty_to_deplete current_value_sum)
    (Overflow (name +:+ " deplete amount num: " +:+ pretty qty_to_deplete +:+ " * " +:+
               pretty current_value_sum +:+ " (pool " +:+ pretty p +:+ ")"));
  amount ← expects (i64_div numerator current_qty) "attempt to divide";
  let new_qty := wsub current_qty qty_to_deplete in
  let new_value_sum := wsub current_value_sum amount in
  display_unit_cost ← expects (i64_div amount qty_to_deplete) "attempt to divide";
  trx_seq ← next_trx_seq p;
  trx_line_idx ← trx_line_count;
  update_result (push_trx_line
    {| out_pool_id := p; out_trx_seq := trx_seq; out_qty := req_qty line;
       out_unit_cost := display_unit_cost; out_source_trx_line_id := None;
       out_line_type := req_line_type line; out_source_id := req_source_id line |});;
  update_result (push_mutation (Upsert p 0 new_qty new_value_sum trx_line_idx));;
  (if layer_existed : bool
   then update_snapshot (upsert_in_memory_layer0 p new_qty new_value_sum) else mret tt);;
  posting_line_idx ← posting_count;
  update_result (push_posting
    {| pst_trx_line_idx := trx_line_idx; pst_event_type := InventoryDepletion;
       pst_amount := amount; pst_debit_account := req_debit_account line;
       pst_credit_account := req_credit_account line; pst_posted_at := posted_at |});;
  if provisional
  then update_result (push_provisional
         {| prov_posting_line_idx := posting_line_idx; prov_pool_id := p;
            prov_qty := qty_to_deplete; prov_provisional_amount := amount |})
  else mret tt.

Definition wac_receipt := cumulative_receipt "wac".
Definition wac_deplete := cumulative_deplete "wac" false.
Definition wac_periodic_receipt := cumulative_receipt "wac_periodic".
Definition wac_periodic_deplete := cumulative_deplete "wac_periodic" true.

Definition apply_wac (line : TrxLineRequest) (posted_at : Timestamp) : Core unit :=
  expect_method (req_pool_id line) Wac;;
  match req_qty line ?= 0 with
  | Eq => mret tt
  | Gt => wac_receipt line posted_at
  | Lt => wac_deplete line posted_at
  end.

Definition apply_wac_periodic (line : TrxLineRequest) (posted_at : Timestamp) : Core unit :=
  expect_method (req_pool_id line) WacPeriodic;;
  match req_qty line ?= 0 with
  | Eq => mret tt
  | Gt => wac_periodic_receipt line posted_at
  | Lt => wac_periodic_deplete line posted_at
  end.

(** * Standard cost (standard.rs) *)
Definition apply_std (line : TrxLineRequest) (posted_at : Timestamp) : Core unit :=
  let p := req_pool_id line in
  expect_method p Std;;
  s ← snapshot;
  let seq_entry := max_seq s p in
  update_snapshot (with_max_seq (<[p := seq_entry]> (max_trx_seq_of s)));;
  trx_seq ← some_or (checked_add seq_entry 1)
    (Overflow ("std trx_seq overflow on pool " +:+ pretty p));
  update_snapshot (λ s, with_max_seq (<[p := trx_seq]> (max_trx_seq_of s)) s);;
  trx_line_idx ← trx_line_count;
  update_result (push_trx_line
    {| out_pool_id := p; out_trx_seq := trx_seq; out_qty := req_qty line;
       out_unit_cost := req_unit_cost line; out_source_trx_line_id := None;
       out_line_type := req_line_type line; out_source_id := req_source_id line |});;
  abs_qty ← some_or (checked_abs (req_qty line))
    (Overflow ("std qty.abs() overflow: qty=" +:+ pretty (req_qty line)));
  amount ← some_or (checked_mul abs_qty (req_unit_cost line))
    (Overflow ("std posting amount overflow: " +:+ pretty abs_qty +:+ " * " +:+
               pretty (req_unit_cost line)));
  update_result (push_posting
    {| pst_trx_line_idx := trx_line_idx;
       pst_event_type := (if 0 <=? req_qty line then InventoryReceipt else InventoryDepletion);
       pst_amount := amount; pst_debit_account := req_debit_account line;
       pst_credit_account := req_credit_account line; pst_posted_at := posted_at |}).

(** * Lemmas on layer 0 *)
Lemma find_upsert_layer0 q v rows :
  ∃ i, List.find is_layer0 (upsert_layer0_rows q v rows) =
    Some {| layer_seq := 0; row_qty := q; row_unit_cost := v; last_trx_line_id := i |}.
Proof.
  induction rows as [|r rows [i IH]]; [by eexists|]. cbn.
  destruct (is_layer0 r) eqn:Er; cbn [List.find].
  - unfold is_layer0 in *. cbn. rewrite Er. apply Z.eqb_eq in Er as ->. by eexists.
  - rewrite Er. by eexists.
Qed.

Lemma read_upsert_layer0 p q v s :
  read_layer0 (upsert_in_memory_layer0 p q v s) p = (q, v, true).
Proof.
  unfold read_layer0, upsert_in_memory_layer0. cbn. rewrite lookup_insert_eq. cbn.
  by destruct (find_upsert_layer0 q v (rows_of s p)) as [i ->].
Qed.

Lemma upsert_layer0_rows_seqs q v rows :
  map layer_seq (upsert_layer0_rows q v rows) =
    if existsb is_layer0 rows then map layer_seq rows else map layer_seq rows ++ [0].
Proof.
  induction rows as [|r rows IH]; [done|]. cbn. destruct (is_layer0 r); cbn; [done|].
  rewrite IH. by destruct (existsb _ _).
Qed.

(** The quantity and value a pool's average is formed from. *)
Definition wac_qty (s : Snapshot) (p : Z) : Z := (read_layer0 s p).1.1.
Definition wac_value (s : Snapshot) (p : Z) : Z := (read_layer0 s p).1.2.

(** * Inversion of successful lines *)
Lemma read_layer0_find s p :
  read_layer0 s p = match List.find is_layer0 (rows_of s p) with
                    | Some row => (row_qty row, row_unit_cost row, true)
                    | None => (0, 0, false)
                    end.
Proof. unfold read_layer0, rows_of. by destruct (pools s !! p). Qed.

(** The frame of a line that only advances the counter and rewrites row 0. *)
Lemma upsert_frame p q v n s :
  max_seq s p ≤ n →
  line_frame p s (upsert_in_memory_layer0 p q v (with_max_seq (<[p:=n]> (max_trx_seq_of s)) s)).
Proof.
  intros Hn. split; cbn; [done|..].
  - intros q' Hq. by rewrite lookup_insert_ne.
  - intros q' Hq. unfold max_seq. cbn. by rewrite lookup_insert_ne.
  - unfold max_seq at 2. cbn. by rewrite lookup_insert_eq.
Qed.
Lemma rows_of_upsert p q v n s :
  rows_of (upsert_in_memory_layer0 p q v (with_max_seq n s)) p =
    upsert_layer0_rows q v (rows_of s p).
Proof. unfold rows_of at 1. cbn. by rewrite lookup_insert_eq. Qed.

Lemma cumulative_receipt_Ok name line t st st' :
  cumulative_receipt name line t st = (Ok tt, st') →
  let p := req_pool_id line in
  let '(q, v, existed) := read_layer0 st.1 p in
  line_frame p st.1 st'.1 ∧
  rows_of st'.1 p = upsert_layer0_rows (q + req_qty line)
    (v + req_qty line * req_unit_cost line) (rows_of st.1 p) ∧
  pool_state_mutations st'.2 = pool_state_mutations st.2 ++
    [(if existed : bool then Upsert else Insert) p 0 (q + req_qty line)
       (v + req_qty line * req_unit_cost line) (length (trx_lines st.2))] ∧
  posting_lines st'.2 = posting_lines st.2 ++
    [{| pst_trx_line_idx := length (trx_lines st.2); pst_event_type := InventoryReceipt;
        pst_amount := req_qty line * req_unit_cost line;
        pst_debit_account := req_debit_account line;
        pst_credit_account := req_credit_account line; pst_posted_at := t |}].
Proof.
  unfold cumulative_receipt. intros H. core_inv.
  destruct (read_layer0 _ _) as [[q v] existed] eqn:Hread. core_inv.
  match goal with Hs : next_trx_seq _ _ = _ |- _ =>
    apply next_trx_seq_Ok in Hs as (-> & Hseq & ->) end. cbn in *.
  split_and!.
  - apply upsert_frame. lia.
  - apply rows_of_upsert.
  - by destruct existed.
  - done.
Qed.

(** A depletion issues the exact share of the value, rounded toward zero. *)
Lemma cumulative_deplete_Ok name prov line t st st' :
  cumulative_deplete name prov line t st = (Ok tt, st') → req_qty line ≠ 0 →
  let p := req_pool_id line in
  let n := Z.abs (req_qty line) in
  let '(q, v, _) := read_layer0 st.1 p in
  let amount := (n * v) `quot` q in
  n ≤ q ∧ List.find is_layer0 (rows_of st.1 p) ≠ None ∧
  line_frame p st.1 st'.1 ∧
  rows_of st'.1 p = upsert_layer0_rows (wsub q n) (wsub v amount) (rows_of st.1 p) ∧
  pool_state_mutations st'.2 = pool_state_mutations st.2 ++
    [Upsert p 0 (wsub q n) (wsub v amount) (length (trx_lines st.2))] ∧
  posting_lines st'.2 = posting_lines st.2 ++
    [{| pst_trx_line_idx := length (trx_lines st.2); pst_event_type := InventoryDepletion;
        pst_amount := amount; pst_debit_account := req_debit_account line;
        pst_credit_account := req_credit_account line; pst_posted_at := t |}] ∧
  provisional_postings st'.2 = provisional_postings st.2 ++
    (if prov then [{| prov_posting_line_idx := length (posting_lines st.2); prov_pool_id := p;
                      prov_qty := n; prov_provisional_amount := amount |}] else []).
Proof.
  unfold cumulative_deplete. intros H Hne. core_inv.
  destruct (read_layer0 _ _) as [[q v] existed] eqn:Hread. core_inv.
  match goal with Hc : (_ <? _) = false |- _ => apply Z.ltb_ge in Hc end.
  rewrite read_layer0_find in Hread.
  destruct (List.find is_layer0 _) as [row|] eqn:Hfind; simplify_eq.
  match goal with Hs : next_trx_seq _ _ = _ |- _ =>
    apply next_trx_seq_Ok in Hs as (-> & Hseq & ->) end. cbn in *.
  destruct prov; core_inv; cbn; rewrite ?app_nil_r;
    (split_and!; [done|done|apply upsert_frame; lia|apply rows_of_upsert|done..]).
Qed.

Lemma apply_std_Ok line t st st' :
  apply_std line t st = (Ok tt, st') →
  let p := req_pool_id line in
  line_frame p st.1 st'.1 ∧ pools st'.1 = pools st.1 ∧
  pool_state_mutations st'.2 = pool_state_mutations st.2 ∧
  posting_lines st'.2 = posting_lines st.2 ++
    [{| pst_trx_line_idx := length (trx_lines st.2);
        pst_event_type := (if 0 <=? req_qty line then InventoryReceipt else InventoryDepletion);
        pst_amount := Z.abs (req_qty line) * req_unit_cost line;
        pst_debit_account := req_debit_account line;
        pst_credit_account := req_credit_account line; pst_posted_at := t |}].
Proof.
  unfold apply_std. intros H. core_inv.
  match goal with Hs : expect_method _ _ _ = _ |- _ => apply expects_method_Ok in Hs as [_ ->] end.
  cbn in *. split_and!; [|done..].
  split; cbn; [done|done|..].
  - intros q Hq. unfold max_seq. cbn. by rewrite !lookup_insert_ne.
  - unfold max_seq at 2. cbn. rewrite lookup_insert_eq. cbn. lia.
Qed.
