(* ===== verification/V3Method.v ===== *)
(** [ledger_core::method::plan_apply] of the two-path ledger: the dispatcher over
    the six cost methods, the invariant its snapshot keeps, and the machine of
    pool-state mutations it emits: every plan is a run of that machine, and the
    machine's state is what the snapshot shows. *)
From S2P Require Import Prelude V3Plan V3Layered V3Wac.

(** * Operations (method.rs) *)
Definition apply_line (posted_at : Timestamp) (line : TrxLineRequest) : Core unit :=
  s ← snapshot;
  method ← some_or (method_of s !! req_pool_id line) (UnknownPool (req_pool_id line));
  match method with
  | Std => apply_std line posted_at
  | Fifo => apply_fifo line posted_at
  | Lifo => apply_lifo line posted_at
  | Wac => apply_wac line posted_at
  | WacPeriodic => apply_wac_periodic line posted_at
  | Specific => apply_specific line posted_at
  end.

(** The snapshot is mutated in place, also when an error ends the loop. *)
Definition plan_apply (s : Snapshot) (lines : list TrxLineRequest) (posted_at : Timestamp)
    : Res (Fault LedgerError) PlanResult * Snapshot :=
  match iterM (apply_line posted_at) lines (s, plan_default) with
  | (Ok _, (s', r)) => (Ok (dedupe_pool_state_mutations r), s')
  | (Err e, (s', _)) => (Err e, s')
  end.

(** * The machine of pool-state mutations

    A state assigns (quantity, cost column) to (pool, layer).  A layered pool
    receives at a fresh sequence number and updates or deletes live layers; an
    average pool inserts row 0 once and overwrites it from then on.  [top]
    bounds the sequence numbers used so far. *)
Definition layered (m : PoolMethod) : Prop := m = Fifo ∨ m = Lifo ∨ m = Specific.
Definition averaged (m : PoolMethod) : Prop := m = Wac ∨ m = WacPeriodic.
#[global] Instance layered_dec m : Decision (layered m).
Proof. unfold layered. apply _. Defined.
Lemma layered_not_averaged m : layered m → averaged m → False.
Proof. intros [-> |[-> | ->]]; unfold averaged; naive_solver. Qed.
Abbreviation PoolMap := (gmap (Z * Z) (Z * Z)).

Inductive produced (method : gmap Z PoolMethod) (st0 : PoolMap) (top0 : Z → Z)
    : list PoolStateMutation → PoolMap → (Z → Z) → Prop :=
| produced_start : produced method st0 top0 [] st0 top0
| produced_top ms st top top' :
    produced method st0 top0 ms st top → (∀ p, top p ≤ top' p) →
    produced method st0 top0 ms st top'
| produced_receipt ms st top top' p m l q u i :
    produced method st0 top0 ms st top → method !! p = Some m → layered m →
    top p < l ≤ top' p → (∀ p, top p ≤ top' p) →
    produced method st0 top0 (ms ++ [Insert p l q u i]) (<[(p, l) := (q, u)]> st) top'
| produced_update ms st top p m l q0 u q :
    produced method st0 top0 ms st top → method !! p = Some m → layered m →
    st !! (p, l) = Some (q0, u) →
    produced method st0 top0 (ms ++ [Update p l q]) (<[(p, l) := (q, u)]> st) top
| produced_delete ms st top p m l :
    produced method st0 top0 ms st top → method !! p = Some m → layered m →
    is_Some (st !! (p, l)) →
    produced method st0 top0 (ms ++ [Delete p l]) (delete (p, l) st) top
| produced_first ms st top p m q v i :
    produced method st0 top0 ms st top → method !! p = Some m → averaged m →
    st !! (p, 0) = None →
    produced method st0 top0 (ms ++ [Insert p 0 q v i]) (<[(p, 0) := (q, v)]> st) top
| produced_average ms st top p m q v i :
    produced method st0 top0 ms st top → method !! p = Some m → averaged m →
    is_Some (st !! (p, 0)) →
    produced method st0 top0 (ms ++ [Upsert p 0 q v i]) (<[(p, 0) := (q, v)]> st) top.

(** A run only mutates pools with a method. *)
Lemma produced_pools method st0 top0 ms st top w p l :
  produced method st0 top0 ms st top → w ∈ ms → mutation_target w = (p, l) → is_Some (method !! p).
Proof.
  induction 1; [by intros ?%elem_of_nil|done|..]; rewrite elem_of_app, list_elem_of_singleton;
    (intros [Hw| ->] Ht; [by auto|]); cbn in Ht; simplify_eq; by eexists.
Qed.

(** * What a snapshot shows *)
Definition row_value (r : PoolStateRow) : Z * Z := (row_qty r, row_unit_cost r).
Definition find_layer (l : Z) (rows : list PoolStateRow) : option PoolStateRow :=
  List.find (λ r, layer_seq r =? l) rows.
Definition live_rows (s : Snapshot) (p : Z) : list PoolStateRow :=
  match method_of s !! p with
  | Some m => if decide (layered m) then filter has_stock (rows_of s p) else rows_of s p
  | None => []
  end.
Definition shows (s : Snapshot) (st : PoolMap) : Prop :=
  ∀ p l, is_Some (method_of s !! p) → st !! (p, l) = row_value <$> find_layer l (live_rows s p).

Definition snapshot_wf (s : Snapshot) : Prop :=
  ∀ p m, method_of s !! p = Some m → layered m → layers_wf (rows_of s p) (max_seq s p).

Lemma find_layer_cons l r rows :
  find_layer l (r :: rows) = if layer_seq r =? l then Some r else find_layer l rows.
Proof. done. Qed.
Lemma find_layer_notin l rows : Forall (λ r, layer_seq r ≠ l) rows → find_layer l rows = None.
Proof.
  induction 1 as [|r rows Hr _ IH]; [done|]. cbn. by rewrite (proj2 (Z.eqb_neq _ _)).
Qed.
Lemma find_layer_app l rows rows' :
  find_layer l (rows ++ rows') =
    match find_layer l rows with Some r => Some r | None => find_layer l rows' end.
Proof. induction rows as [|r rows IH]; [done|]. cbn. by destruct (_ =? _). Qed.

Lemma sorted_notin l r rows :
  Forall (seq_lt r) rows → layer_seq r = l → find_layer l (filter has_stock rows) = None.
Proof.
  intros Hlt <-. apply find_layer_notin, Forall_filter_rows. eapply Forall_impl; [exact Hlt|].
  unfold seq_lt. intros. lia.
Qed.

(** Overwriting the quantity of the row at [i] changes what is found at its
    layer and nowhere else. *)
Lemma find_layer_touch l q i r rows :
  StronglySorted seq_lt rows → rows !! i = Some r →
  find_layer l (filter has_stock (alter (set_row_qty q) i rows)) =
    if decide (layer_seq r = l) then (if decide (0 < q) then Some (set_row_qty q r) else None)
    else find_layer l (filter has_stock rows).
Proof.
  intros Hs. revert i. induction Hs as [|x rows Hs IH Hx]; intros i Hi; [done|].
  destruct i as [|i]; cbn in Hi.
  - injection Hi as ->. change (alter (set_row_qty q) 0%nat (r :: rows)) with (set_row_qty q r :: rows).
    rewrite !filter_cons. unfold has_stock at 1 3. cbn [row_qty set_row_qty].
    case_decide as Hl.
    + destruct (decide (0 < q)).
      * rewrite find_layer_cons. cbn. by rewrite (proj2 (Z.eqb_eq _ _)).
      * by eapply sorted_notin.
    + repeat case_decide; rewrite ?find_layer_cons; cbn [layer_seq set_row_qty];
        by rewrite ?(proj2 (Z.eqb_neq _ _)).
  - change (alter (set_row_qty q) (S i) (x :: rows)) with (x :: alter (set_row_qty q) i rows).
    rewrite !filter_cons. specialize (IH i Hi).
    assert (seq_lt x r) as Hxr by (rewrite Forall_lookup in Hx; by eapply Hx).
    unfold seq_lt in Hxr. destruct (decide (has_stock x)); rewrite ?find_layer_cons, IH; [|done].
    destruct (layer_seq x =? l) eqn:E; [|done]. apply Z.eqb_eq in E.
    rewrite decide_False by lia. done.
Qed.

Lemma touched_sorted q i rows :
  StronglySorted seq_lt rows → StronglySorted seq_lt (alter (set_row_qty q) i rows).
Proof.
  apply sorted_same_seqs. apply Forall2_same_length_lookup.
  rewrite length_alter. split; [done|]. intros j a b Ha Hb.
  destruct (decide (i = j)) as [->|Hne].
  - rewrite list_lookup_alter_eq, Ha in Hb. cbn in Hb. by simplify_eq.
  - rewrite list_lookup_alter_ne in Hb by done. by simplify_eq.
Qed.

(** * Lines as runs of the machine *)
Section lines.
Context (method : gmap Z PoolMethod) (st0 : PoolMap) (top0 : Z → Z).
Abbreviation run := (produced method st0 top0).

(** The depletion walk: one machine step per touched layer. *)
Lemma touches_run p m layers cur idxs rows rem ms st top :
  method !! p = Some m → layered m →
  NoDup idxs → picks layers idxs rows → picks cur idxs rows → Forall has_stock rows → 0 ≤ rem →
  StronglySorted seq_lt cur →
  (∀ l, st !! (p, l) = row_value <$> find_layer l (filter has_stock cur)) →
  run ms st top →
  ∃ st', run (ms ++ map (touch_mutation p) (walk_layers layers idxs rem)) st' top ∧
    (∀ l, st' !! (p, l) = row_value <$> find_layer l (filter has_stock
            (foldl apply_touch cur (walk_layers layers idxs rem)))) ∧
    (∀ q l, q ≠ p → st' !! (q, l) = st !! (q, l)).
Proof.
  intros Hm Hlay Hnd Hp. revert cur rem ms st.
  induction Hp as [|i r idxs rows Hi Hp IH]; intros cur rem ms st Hc Hst Hrem Hs Hsh Hrun.
  { exists st. cbn. rewrite app_nil_r. done. }
  apply NoDup_cons in Hnd as [Hni Hnd]. apply Forall2_cons in Hc as [Hci Hc].
  inversion_clear Hst as [|?? Hr Hrs]. unfold has_stock in Hr.
  cbn [walk_layers]. case_decide as H0; [exists st; cbn; rewrite app_nil_r; done|].
  rewrite Hi. cbn [map foldl].
  set (c := Z.min rem (row_qty r)). set (t := Build_LayerTouch _ _ _ _ _ _).
  assert (st !! (p, layer_seq r) = Some (row_value r)) as Hrow.
  { rewrite Hsh. pose proof (find_layer_touch (layer_seq r) (row_qty r) i r cur Hs Hci) as Hf.
    rewrite decide_True in Hf by done. rewrite decide_True in Hf by lia.
    rewrite list_alter_id_at in Hf by (intros x Hx; assert (x = r) as -> by congruence; by destruct r).
    rewrite Hf. by destruct r. }
  set (st1 := if decide (row_qty r - c = 0) then delete (p, layer_seq r) st
              else <[(p, layer_seq r) := (row_qty r - c, row_unit_cost r)]> st).
  edestruct (IH Hnd (apply_touch cur t) (rem - c) (ms ++ [touch_mutation p t]) st1)
    as (st' & Hrun' & Hsh' & Hne); [..|exists st'; split_and!].
  - eapply picks_ext; [|exact Hc]. intros j Hj. unfold apply_touch. cbn.
    rewrite list_lookup_alter_ne; [done|]. by intros ->.
  - done.
  - lia.
  - by apply touched_sorted.
  - intros l. unfold apply_touch. cbn [lt_idx lt_new_qty t].
    rewrite (find_layer_touch _ _ _ r) by done. unfold st1. cbn [lt_layer_seq].
    destruct (decide (layer_seq r = l)) as [<-|Hl].
    + repeat case_decide; try lia; by rewrite ?lookup_delete_eq, ?lookup_insert_eq.
    + case_decide; rewrite ?lookup_delete_ne, ?lookup_insert_ne by congruence; apply Hsh.
  - unfold touch_mutation, st1. cbn [lt_new_qty lt_layer_seq t].
    case_decide as Hz.
    + rewrite (proj2 (Z.eqb_eq _ _)) by done. eapply produced_delete; [done..|]. by rewrite Hrow.
    + rewrite (proj2 (Z.eqb_neq _ _)) by done. by eapply produced_update.
  - by rewrite <-app_assoc in Hrun'.
  - done.
  - intros q l Hq. rewrite Hne by done. unfold st1.
    case_decide; [rewrite lookup_delete_ne|rewrite lookup_insert_ne]; congruence.
Qed.

(** A snapshot in step with a run: same methods, well formed, and showing the
    machine's state. *)
Definition in_step (x : Snapshot * PlanResult) : Prop :=
  method_of x.1 = method ∧ snapshot_wf x.1 ∧
  ∃ st, shows x.1 st ∧ run (pool_state_mutations x.2) st (max_seq x.1).

Lemma top_of_frame p s s' : line_frame p s s' → ∀ q, max_seq s q ≤ max_seq s' q.
Proof.
  intros [] q. destruct (decide (q = p)) as [->|]; [done|]. rewrite lf_seq by done. lia.
Qed.

Lemma rows_of_frame p q s s' : line_frame p s s' → q ≠ p → rows_of s' q = rows_of s q.
Proof. intros [] ?. unfold rows_of. by rewrite lf_pools. Qed.

Lemma live_rows_frame p q s s' : line_frame p s s' → q ≠ p → live_rows s' q = live_rows s q.
Proof.
  intros Hf Hq. unfold live_rows. rewrite (rows_of_frame _ _ _ _ Hf Hq). by destruct Hf as [-> _ _ _].
Qed.

(** A line works on its own pool: what it does there settles the whole step. *)
Lemma in_step_line p m s r s' r' :
  in_step (s, r) → line_frame p s s' → method !! p = Some m →
  (layered m → layers_wf (rows_of s' p) (max_seq s' p)) →
  (∀ st, shows s st → run (pool_state_mutations r) st (max_seq s) →
     ∃ st', run (pool_state_mutations r') st' (max_seq s') ∧
       (∀ l, st' !! (p, l) = row_value <$> find_layer l (live_rows s' p)) ∧
       (∀ q l, q ≠ p → st' !! (q, l) = st !! (q, l))) →
  in_step (s', r').
Proof.
  intros (Hm & Hwf & st & Hsh & Hrun) Hf Hp Hlw Hstep. cbn in *.
  destruct (Hstep st Hsh Hrun) as (st' & Hrun' & Hpl & Hne).
  assert (method_of s' = method) as Hm' by (destruct Hf; congruence).
  split_and!; [done|..]; cbn.
  - intros q mq Hq Hl. rewrite Hm' in Hq. destruct (decide (q = p)) as [->|Hqp].
    + apply Hlw. by simplify_eq.
    + rewrite (rows_of_frame _ _ _ _ Hf Hqp). destruct Hf. rewrite lf_seq by done.
      eapply Hwf; [|done]. by rewrite Hm.
  - exists st'. split; [|done]. intros q l [mq Hq]. destruct (decide (q = p)) as [->|Hqp]; [done|].
    rewrite Hne, (live_rows_frame _ _ _ _ Hf Hqp) by done. apply Hsh. destruct Hf.
    rewrite Hm'  in Hq. rewrite Hm. by eexists.
Qed.

Lemma shows_layered s st p m :
  shows s st → method_of s !! p = Some m → layered m →
  ∀ l, st !! (p, l) = row_value <$> find_layer l (filter has_stock (rows_of s p)).
Proof.
  intros Hsh Hm Hl l. rewrite Hsh by (by rewrite Hm). unfold live_rows.
  by rewrite Hm, decide_True.
Qed.
Lemma live_rows_layered s p m :
  method_of s !! p = Some m → layered m → live_rows s p = filter has_stock (rows_of s p).
Proof. intros Hm Hl. unfold live_rows. by rewrite Hm, decide_True. Qed.
Lemma live_rows_averaged s p m :
  method_of s !! p = Some m → averaged m → live_rows s p = rows_of s p.
Proof.
  intros Hm Hl. unfold live_rows. rewrite Hm, decide_False; [done|].
  intros Hlay. exact (layered_not_averaged m Hlay Hl).
Qed.

(** Receipts of a layered pool push one fresh layer. *)
Lemma layered_receipt_step line t x x' m :
  layered_receipt line t x = (Ok tt, x') → 0 < req_qty line →
  method !! req_pool_id line = Some m → layered m → in_step x → in_step x'.
Proof.
  intros H%layered_receipt_Ok Hq Hm Hl Hin. destruct x as [s r], x' as [s' r'].
  set (p := req_pool_id line) in *. destruct H as (Hf & Hrows & Hmax & Hmut & _). cbn in *.
  pose proof Hin as (Hms & Hwf & _). cbn in Hms, Hwf.
  destruct (Hwf p m) as [Hs Hlive Htop]; [by rewrite Hms|done|].
  set (row := Build_PoolStateRow _ _ _ _) in *.
  eapply in_step_line; [exact Hin|exact Hf|exact Hm|..].
  - intros _. rewrite Hrows, Hmax. split.
    + apply StronglySorted_app_2; [|done|repeat constructor].
      intros a b Ha [->|[]%not_elem_of_nil]%elem_of_cons. unfold seq_lt. cbn.
      rewrite Forall_forall in Htop. specialize (Htop a Ha). cbn in Htop. lia.
    + by apply Forall_app; split; [|repeat constructor].
    + apply Forall_app. split; [|by repeat constructor].
      eapply Forall_impl; [exact Htop|]. cbn. lia.
  - intros st Hsh Hrun. rewrite Hmut. eexists. split_and!.
    + eapply produced_receipt; [exact Hrun|exact Hm|done|rewrite Hmax; lia|by eapply top_of_frame].
    + intros l. erewrite live_rows_layered; [|by destruct Hf; rewrite lf_method, Hms|done].
      rewrite Hrows, filter_app, find_layer_app.
      rewrite filter_cons, decide_True by done. rewrite filter_nil, find_layer_cons. cbn [layer_seq row].
      destruct (decide (l = max_seq s p + 1)) as [->|Hne].
      * rewrite lookup_insert_eq, find_layer_notin, Z.eqb_refl; [done|].
        apply Forall_filter_rows. eapply Forall_impl; [exact Htop|]. cbn. lia.
      * rewrite lookup_insert_ne by congruence.
        rewrite (shows_layered s st p m) by (done || by rewrite Hms).
        rewrite (proj2 (Z.eqb_neq _ _)) by done. by destruct (find_layer _ _).
    + intros q l Hqp. by rewrite lookup_insert_ne by congruence.
Qed.

Lemma layered_deplete_step line t o x x' m :
  layered_deplete line t o x = (Ok tt, x') → req_qty line < 0 →
  method !! req_pool_id line = Some m → layered m → in_step x → in_step x'.
Proof.
  intros H Hq Hm Hl Hin. destruct x as [s r], x' as [s' r'].
  set (p := req_pool_id line) in *.
  pose proof Hin as (Hms & Hwf & _). cbn in Hms, Hwf.
  assert (layers_wf (rows_of s p) (max_seq s p)) as Hlw by (by apply (Hwf p m); rewrite ?Hms).
  apply layered_deplete_Ok in H as (x1 & Hex & Hf & Hrows & Hmax & Hres). fold p in Hex, Hf, Hrows, Hmax.
  cbn in Hf, Hrows, Hmax, Hres. destruct Hex as [_ _ _ _ Hmut]. cbn in Hmut. fold p in Hmut.
  assert (0 ≤ Z.abs (req_qty line)) by lia.
  eapply in_step_line; [exact Hin|exact Hf|exact Hm|..].
  - intros _. rewrite Hrows. eapply deplete_wf; [exact Hlw| | |by eapply touches_wf]; [done|].
    by destruct Hf.
  - intros st Hsh Hrun. rewrite Hres, Hmut.
    edestruct (touches_run p m (rows_of s p) (rows_of s p) (sorted_idx o (rows_of s p))
                 (oriented o (rows_of s p)) (Z.abs (req_qty line))) as (st' & Hrun' & Hsh' & Hne).
    + done.
    + done.
    + rewrite (sorted_idx_wf o _ (max_seq s p)) by done.
      destruct o; cbn [oriented]; [|rewrite reverse_Permutation]; apply NoDup_seq.
    + by eapply picks_sorted_idx.
    + by eapply picks_sorted_idx.
    + apply Forall_oriented. apply Hlw.
    + done.
    + apply Hlw.
    + apply (shows_layered s st p m); [done|by rewrite Hms|done].
    + exact Hrun.
    + exists st'. split_and!; [|..|done].
      * eapply produced_top; [exact Hrun'|by eapply top_of_frame].
      * intros l. rewrite Hsh'.
        erewrite live_rows_layered; [|by destruct Hf; rewrite lf_method, Hms|done].
        by rewrite Hrows, list_filter_filter_l.
Qed.

(** Row 0 of an average pool is overwritten in place or appended. *)
Lemma find_layer_upsert l q v rows :
  row_value <$> find_layer l (upsert_layer0_rows q v rows) =
    if decide (l = 0) then Some (q, v) else row_value <$> find_layer l rows.
Proof.
  induction rows as [|r rows IH]; cbn [upsert_layer0_rows].
  - rewrite find_layer_cons. cbn [layer_seq]. case_decide as Hl; [by subst|].
    by rewrite (proj2 (Z.eqb_neq _ _)).
  - destruct (is_layer0 r) eqn:Er; unfold is_layer0 in Er; rewrite !find_layer_cons; cbn [layer_seq].
    + apply Z.eqb_eq in Er. rewrite Er. case_decide as Hl; [by subst|].
      by rewrite (proj2 (Z.eqb_neq 0 l)).
    + apply Z.eqb_neq in Er. destruct (layer_seq r =? l) eqn:E; [|apply IH].
      apply Z.eqb_eq in E. by rewrite decide_False by lia.
Qed.

Lemma averaged_not_layered m : averaged m → ¬ layered m.
Proof. intros [-> | ->]; unfold layered; naive_solver. Qed.

(** An overwrite of row 0, in the snapshot and as a mutation. *)
Lemma averaged_step p m s r s' r' mu q v i :
  in_step (s, r) → line_frame p s s' → method !! p = Some m → averaged m →
  rows_of s' p = upsert_layer0_rows q v (rows_of s p) →
  pool_state_mutations r' = pool_state_mutations r ++ [mu] →
  mu = (match find_layer 0 (rows_of s p) with Some _ => Upsert | None => Insert end) p 0 q v i →
  in_step (s', r').
Proof.
  intros Hin Hf Hm Hav Hrows Hmut Hmu. pose proof Hin as (Hms & _ & _). cbn in Hms.
  eapply in_step_line; [exact Hin|exact Hf|exact Hm|..].
  - intros Hl. by destruct (averaged_not_layered _ Hav).
  - intros st Hsh Hrun. assert (st !! (p, 0) = row_value <$> find_layer 0 (rows_of s p)) as H0.
    { rewrite Hsh by (by rewrite Hms, Hm). by erewrite live_rows_averaged by (by rewrite ?Hms). }
    exists (<[(p, 0) := (q, v)]> st). rewrite Hmut. split_and!.
    + eapply produced_top; [|by eapply top_of_frame]. rewrite Hmu.
      destruct (find_layer 0 _).
      * eapply produced_average; [exact Hrun|exact Hm|done|by rewrite H0].
      * by eapply produced_first.
    + intros l. erewrite live_rows_averaged; [|by destruct Hf; rewrite lf_method, Hms|done].
      rewrite Hrows, find_layer_upsert. case_decide as Hl.
      * subst. by rewrite lookup_insert_eq.
      * rewrite lookup_insert_ne by congruence. rewrite Hsh by (by rewrite Hms, Hm).
        by erewrite live_rows_averaged by (by rewrite ?Hms).
    + intros q' l Hq. by rewrite lookup_insert_ne by congruence.
Qed.

Lemma cumulative_receipt_step name line t x x' m :
  cumulative_receipt name line t x = (Ok tt, x') →
  method !! req_pool_id line = Some m → averaged m → in_step x → in_step x'.
Proof.
  intros H%cumulative_receipt_Ok Hm Hav Hin. destruct x as [s r], x' as [s' r']. cbn in H.
  rewrite read_layer0_find in H. change is_layer0 with (λ r, layer_seq r =? 0) in H.
  fold (find_layer 0 (rows_of s (req_pool_id line))) in H.
  destruct (find_layer 0 _) as [row|] eqn:Hfind; destruct H as (Hf & Hrows & Hmut & _);
    (eapply averaged_step; [exact Hin|exact Hf|exact Hm|done|exact Hrows|exact Hmut|]);
    rewrite Hfind; reflexivity.
Qed.

Lemma cumulative_deplete_step name prov line t x x' m :
  cumulative_deplete name prov line t x = (Ok tt, x') → req_qty line ≠ 0 →
  method !! req_pool_id line = Some m → averaged m → in_step x → in_step x'.
Proof.
  intros H Hq Hm Hav Hin. apply cumulative_deplete_Ok in H; [|done].
  destruct x as [s r], x' as [s' r']. cbn in H.
  destruct (read_layer0 s _) as [[q v] ex]. destruct H as (_ & Hfind & Hf & Hrows & Hmut & _).
  eapply averaged_step; [exact Hin|exact Hf|exact Hm|done|exact Hrows|exact Hmut|].
  change is_layer0 with (λ r, layer_seq r =? 0) in Hfind.
  fold (find_layer 0 (rows_of s (req_pool_id line))) in Hfind.
  by destruct (find_layer 0 _).
Qed.

Lemma apply_std_step line t x x' :
  apply_std line t x = (Ok tt, x') → method !! req_pool_id line = Some Std →
  in_step x → in_step x'.
Proof.
  intros H%apply_std_Ok Hm Hin. destruct x as [s r], x' as [s' r'].
  destruct H as (Hf & Hpools & Hmut & _). cbn in *. pose proof Hin as (Hms & _ & _). cbn in Hms.
  eapply in_step_line; [exact Hin|exact Hf|exact Hm|..].
  - intros Hl. unfold layered in Hl. naive_solver.
  - intros st Hsh Hrun. exists st. rewrite Hmut. split_and!; [|..|done].
    + eapply produced_top; [exact Hrun|by eapply top_of_frame].
    + intros l. rewrite Hsh by (by rewrite Hms, Hm). unfold live_rows, rows_of.
      destruct Hf. by rewrite lf_method, Hpools.
Qed.

Lemma apply_layered_step line t o x x' m :
  apply_layered line t o x = (Ok tt, x') →
  method !! req_pool_id line = Some m → layered m → in_step x → in_step x'.
Proof.
  unfold apply_layered. intros H Hm Hl Hin. destruct (req_qty line ?= 0) eqn:Hc.
  - injection H as <-. done.
  - apply Z.compare_lt_iff in Hc. by eapply layered_deplete_step.
  - apply Z.compare_gt_iff in Hc. by eapply layered_receipt_step.
Qed.

(** Every line of a plan keeps snapshot and mutations in step. *)
Lemma apply_line_step t line x x' :
  apply_line t line x = (Ok tt, x') → in_step x → in_step x'.
Proof.
  unfold apply_line. intros H Hin. pose proof Hin as (Hms & _). core_inv.
  match goal with Hm : method_of _ !! _ = Some ?m |- _ =>
    rewrite Hms in Hm; rename Hm into Hmeth; destruct m end.
  all: unfold apply_fifo, apply_lifo, apply_specific, apply_wac, apply_wac_periodic in *.
  5: by eapply apply_std_step.
  all: core_inv;
    match goal with Hs : expect_method _ _ _ = _ |- _ => apply expects_method_Ok in Hs as [_ ->] end.
  1,2,5: eapply apply_layered_step; [eassumption|exact Hmeth|unfold layered; tauto|done].
  all: destruct (req_qty line ?= 0) eqn:Hc; [by core_inv|..];
    rewrite ?Z.compare_lt_iff, ?Z.compare_gt_iff in Hc.
  1,3: eapply cumulative_deplete_step; [eassumption|lia|exact Hmeth|unfold averaged; tauto|done].
  all: eapply cumulative_receipt_step; [eassumption|exact Hmeth|unfold averaged; tauto|done].
Qed.
End lines.

(** * Whole plans *)
Lemma plan_apply_Ok s lines t r s' :
  plan_apply s lines t = (Ok r, s') →
  ∃ r1, iterM (apply_line t) lines (s, plan_default) = (Ok tt, (s', r1)) ∧
        r = dedupe_pool_state_mutations r1.
Proof.
  unfold plan_apply. destruct (iterM _ _ _) as [[[]|e] [s1 r1]]; intros [= <- <-]. eauto.
Qed.

(** A plan's mutations are a run of the machine from the state the snapshot
    showed to the state it shows afterwards. *)
Lemma plan_produced s lines t r s' st :
  plan_apply s lines t = (Ok r, s') → snapshot_wf s → shows s st →
  ∃ ms st', pool_state_mutations r = keep_last ms ∧
    produced (method_of s) st (max_seq s) ms st' (max_seq s') ∧
    shows s' st' ∧ snapshot_wf s' ∧ method_of s' = method_of s.
Proof.
  intros (r1 & Hrun & ->)%plan_apply_Ok Hwf Hsh.
  assert (in_step (method_of s) st (max_seq s) (s', r1)) as (Hm & Hwf' & st' & Hsh' & Hp).
  { eapply (iterM_inv (in_step (method_of s) st (max_seq s))); [|exact Hrun|].
    - intros. by eapply apply_line_step.
    - split_and!; [done|done|]. exists st. split; [done|constructor]. }
  exists (pool_state_mutations r1), st'. split_and!; [|done..].
  apply dedupe_is_keep_last.
Qed.

(** A line works on its own pool only. *)
Lemma apply_layered_frame line t o x x' :
  apply_layered line t o x = (Ok tt, x') → line_frame (req_pool_id line) x.1 x'.1.
Proof.
  unfold apply_layered. destruct (req_qty line ?= 0).
  - intros [= <-]. apply line_frame_refl.
  - intros (x1 & _ & Hf & _)%layered_deplete_Ok. done.
  - intros (Hf & _)%layered_receipt_Ok. done.
Qed.

Lemma apply_line_scope t line x x' :
  apply_line t line x = (Ok tt, x') → line_frame (req_pool_id line) x.1 x'.1.
Proof.
  unfold apply_line. intros H. core_inv.
  match goal with Hm : method_of _ !! _ = Some ?m |- _ => clear Hm; destruct m end.
  all: unfold apply_fifo, apply_lifo, apply_specific, apply_wac, apply_wac_periodic in *.
  5: by eapply apply_std_Ok.
  all: core_inv;
    match goal with Hs : expect_method _ _ _ = _ |- _ => apply expects_method_Ok in Hs as [_ ->] end.
  1,2,5: by eapply apply_layered_frame.
  all: destruct (req_qty line ?= 0) eqn:Hc; [by core_inv; apply line_frame_refl|..];
    rewrite ?Z.compare_lt_iff, ?Z.compare_gt_iff in Hc;
    match goal with
    | H : wac_deplete _ _ _ = _ |- _ => apply cumulative_deplete_Ok in H; [|lia]
    | H : wac_periodic_deplete _ _ _ = _ |- _ => apply cumulative_deplete_Ok in H; [|lia]
    | H : wac_receipt _ _ _ = _ |- _ => apply cumulative_receipt_Ok in H
    | H : wac_periodic_receipt _ _ _ = _ |- _ => apply cumulative_receipt_Ok in H
    end; cbv zeta in *; destruct (read_layer0 _ _) as [[??]?]; naive_solver.
Qed.

(** A plan leaves the pools it does not name alone. *)
Lemma plan_frame s lines t r s' p :
  plan_apply s lines t = (Ok r, s') → p ∉ map req_pool_id lines →
  method_of s' = method_of s ∧ rows_of s' p = rows_of s p ∧ max_seq s' p = max_seq s p.
Proof.
  intros (r1 & Hrun & _)%plan_apply_Ok Hp.
  refine (iterM_inv (λ x, method_of x.1 = method_of s ∧ rows_of x.1 p = rows_of s p ∧
                          max_seq x.1 p = max_seq s p) _ _ _ _ _ Hrun _); [|done].
  intros line x x' Hl Hline (H1 & H2 & H3). apply apply_line_scope in Hline.
  assert (p ≠ req_pool_id line) as Hne by (intros ->; apply Hp, list_elem_of_fmap; eauto).
  rewrite (rows_of_frame _ _ _ _ Hline Hne). destruct Hline. rewrite lf_method, lf_seq by done. done.
Qed.
