(* ===== verification/V3Books.v ===== *)
(** The bookkeeping of a plan: its indices stay in range, the lines of each pool
    carry consecutive sequence numbers from the pool's counter, and every account
    and source line it refers to comes from the request or from the snapshot. *)
From S2P Require Import Prelude V3Plan V3Layered V3Wac V3Method.

(** The index a mutation resolves lies among the plan's lines. *)
Definition idx_below (n : nat) (m : PoolStateMutation) : Prop :=
  match m with Insert _ _ _ _ i | Upsert _ _ _ _ i => (i < n)%nat | _ => True end.

Record plan_indexed (r : PlanResult) : Prop := {
  pi_mut : Forall (idx_below (length (trx_lines r))) (pool_state_mutations r);
  pi_post : Forall (λ p, (pst_trx_line_idx p < length (trx_lines r))%nat) (posting_lines r);
  pi_prov : Forall (λ p, (prov_posting_line_idx p < length (posting_lines r))%nat)
              (provisional_postings r);
  pi_flag : NoDup (map prov_posting_line_idx (provisional_postings r));
}.

Definition seqs_of (p : Z) (outs : list TrxLineOutput) : list Z :=
  omap (λ o, if decide (out_pool_id o = p) then Some (out_trx_seq o) else None) outs.

Lemma idx_below_mono n n' m : (n ≤ n')%nat → idx_below n m → idx_below n' m.
Proof. destruct m; cbn; lia. Qed.
Lemma seqZ_snoc m n : 0 ≤ n → seqZ m (n + 1) = seqZ m n ++ [m + n].
Proof. intros. rewrite seqZ_app by lia. done. Qed.

(** [A]: accounts that may be posted to; [V]: line ids that may be referred to. *)
Section books.
Context (method : gmap Z PoolMethod) (top0 : Z → Z) (A V : Z → Prop).

Definition linked (r : PoolStateRow) : Prop := 0 < last_trx_line_id r → V (last_trx_line_id r).
Definition rows_linked (s : Snapshot) : Prop := ∀ p, Forall linked (rows_of s p).
Definition line_accounts (line : TrxLineRequest) : Prop :=
  A (req_debit_account line) ∧ A (req_credit_account line).

Record booked (x : Snapshot * PlanResult) : Prop := {
  bd_method : method_of x.1 = method;
  bd_indexed : plan_indexed x.2;
  bd_seqs : ∀ p, top0 p ≤ max_seq x.1 p ∧
    seqs_of p (trx_lines x.2) = seqZ (top0 p + 1) (max_seq x.1 p - top0 p);
  bd_pools : Forall (λ o, is_Some (method !! out_pool_id o)) (trx_lines x.2);
  bd_links : Forall (λ o, ∀ i, out_source_trx_line_id o = Some i → V i) (trx_lines x.2);
  bd_accounts : Forall (λ po, A (pst_debit_account po) ∧ A (pst_credit_account po))
                  (posting_lines x.2);
  bd_rows : rows_linked x.1;
}.

(** One emitted line: the next number of its pool, and entries that refer to it. *)
Record books (line : TrxLineRequest) (x x' : Snapshot * PlanResult) : Prop := {
  bk_method : method_of x'.1 = method_of x.1;
  bk_top : max_seq x'.1 (req_pool_id line) = max_seq x.1 (req_pool_id line) + 1;
  bk_other : ∀ q, q ≠ req_pool_id line → max_seq x'.1 q = max_seq x.1 q;
  bk_line : ∃ o, trx_lines x'.2 = trx_lines x.2 ++ [o] ∧ out_pool_id o = req_pool_id line ∧
                 out_trx_seq o = max_seq x.1 (req_pool_id line) + 1 ∧
                 (∀ i, out_source_trx_line_id o = Some i → V i);
  bk_mut : ∃ ms, pool_state_mutations x'.2 = pool_state_mutations x.2 ++ ms ∧
                 Forall (idx_below (S (length (trx_lines x.2)))) ms;
  bk_post : ∃ po, posting_lines x'.2 = posting_lines x.2 ++ [po] ∧
                  pst_trx_line_idx po = length (trx_lines x.2) ∧
                  pst_debit_account po = req_debit_account line ∧
                  pst_credit_account po = req_credit_account line;
  bk_prov : ∃ pv, provisional_postings x'.2 = provisional_postings x.2 ++ pv ∧
                  (pv = [] ∨ ∃ v, pv = [v] ∧ prov_posting_line_idx v = length (posting_lines x.2));
  bk_rows : rows_linked x.1 → rows_linked x'.1;
}.

Lemma books_indexed line x x' : books line x x' → plan_indexed x.2 → plan_indexed x'.2.
Proof.
  intros [_ _ _ (o & Ho & _) (ms & Hms & Hidx) (po & Hpo & Hpi & _) (pv & Hpv & Hvi) _]
    [H1 H2 H3 H4].
  split; rewrite ?Ho, ?Hms, ?Hpo, ?Hpv, ?length_app; cbn [length].
  - apply Forall_app. split.
    + eapply Forall_impl; [exact H1|]. intros m. apply idx_below_mono. lia.
    + eapply Forall_impl; [exact Hidx|]. intros m. apply idx_below_mono. lia.
  - apply Forall_app. split; [eapply Forall_impl; [exact H2|]; cbn; lia|].
    constructor; [lia|constructor].
  - apply Forall_app. split; [eapply Forall_impl; [exact H3|]; cbn; lia|].
    destruct Hvi as [->|(v & -> & Hv)]; constructor; [lia|constructor].
  - destruct Hvi as [->|(v & -> & Hv)]; [by rewrite app_nil_r|].
    rewrite map_app. apply NoDup_app. split_and!; [done| |apply NoDup_singleton].
    intros i (w & -> & Hw)%list_elem_of_fmap Hi%list_elem_of_singleton.
    rewrite Forall_forall in H3. specialize (H3 w Hw). cbn in Hi. lia.
Qed.

Lemma books_booked line x x' :
  books line x x' → is_Some (method !! req_pool_id line) → line_accounts line →
  booked x → booked x'.
Proof.
  intros Hbk Hm [HA1 HA2] [Hmeth Hix Hseq Hpools Hlinks Hacc Hrows].
  pose proof (books_indexed _ _ _ Hbk Hix).
  destruct Hbk as [Hm' Htop Hoth (o & Ho & Hop & Hos & Hov) _ (po & Hpo & _ & Hd & Hc) _ Hr].
  split; rewrite ?Ho, ?Hpo; try (apply Forall_app; split; [done|]).
  - congruence.
  - done.
  - intros q. destruct (Hseq q) as [Hle Hq]. unfold seqs_of in *.
    rewrite omap_app, Hq. cbn. destruct (decide (out_pool_id o = q)) as [Hqp|Hqp].
    + rewrite Hop in Hqp. subst q. rewrite Htop, Hos. split; [lia|].
      replace (max_seq x.1 (req_pool_id line) + 1 - top0 (req_pool_id line))
        with (max_seq x.1 (req_pool_id line) - top0 (req_pool_id line) + 1) by lia.
      rewrite seqZ_snoc by lia. do 2 f_equal. lia.
    + rewrite Hoth by congruence. by rewrite app_nil_r.
  - constructor; [by rewrite Hop|constructor].
  - constructor; [done|constructor].
  - constructor; [by rewrite Hd, Hc|constructor].
  - by apply Hr.
Qed.

(** * Each operation books its line *)
Lemma rows_linked_insert s s' p rows :
  pools s' = <[p := rows]> (pools s) → rows_linked s → Forall linked rows → rows_linked s'.
Proof.
  intros Heq Hs Hrows q. unfold rows_of. rewrite Heq, lookup_insert.
  case_decide; [done|apply Hs].
Qed.
Lemma linked_upsert q v rows : Forall linked rows → Forall linked (upsert_layer0_rows q v rows).
Proof.
  induction 1 as [|r rows Hr Hrs IH]; cbn; [by repeat constructor|].
  destruct (is_layer0 r); by constructor.
Qed.

Ltac solve_books :=
  match goal with Hs : next_trx_seq _ _ = _ |- _ =>
    apply next_trx_seq_Ok in Hs as (-> & ? & ->) end; cbn in *;
  split; cbn; unfold max_seq; cbn;
  [ done
  | by rewrite lookup_insert_eq
  | intros ? ?; by rewrite lookup_insert_ne
  | by eexists
  | eexists; split; [reflexivity|]; repeat constructor; cbn; auto; lia
  | by eexists
  | first [exists []; rewrite app_nil_r; split; [done|by left]
          |eexists; split; [reflexivity|right; by eexists]]
  | ].

Lemma layered_receipt_books line t x x' :
  layered_receipt line t x = (Ok tt, x') → books line x x'.
Proof.
  unfold layered_receipt. intros H. core_inv. solve_books.
  intros Hl. eapply rows_linked_insert; [reflexivity|done|]. apply Forall_app. split; [apply Hl|].
  by repeat constructor.
Qed.

Lemma touch_layer_books line t lt x x' :
  (0 < lt_last_trx_line_id lt → V (lt_last_trx_line_id lt)) →
  touch_layer line t lt x = (Ok tt, x') → books line x x'.
Proof.
  intros Hlt [Hf _ Hrows Htop Htrx Hmut Hpost Hprov]%touch_layer_touched. split.
  - apply Hf.
  - done.
  - apply Hf.
  - eexists. split; [exact Htrx|]. split_and!; [done|done|]. cbn. intros i.
    destruct (0 <? _) eqn:E; intros [= <-]. apply Hlt. by apply Z.ltb_lt.
  - eexists. split; [exact Hmut|]. repeat constructor. unfold touch_mutation. by destruct (_ =? _).
  - eexists. split; [exact Hpost|done].
  - exists []. rewrite app_nil_r. split; [done|by left].
  - intros Hl q. destruct (decide (q = req_pool_id line)) as [->|Hq].
    + rewrite Hrows. unfold apply_touch. apply Forall_alter; [apply Hl|]. by intros r _ Hr.
    + unfold rows_of. destruct Hf. rewrite lf_pools by done. apply Hl.
Qed.

Lemma cumulative_receipt_books name line t x x' :
  cumulative_receipt name line t x = (Ok tt, x') → books line x x'.
Proof.
  unfold cumulative_receipt. intros H. core_inv.
  destruct (read_layer0 _ _) as [[q v] existed]. core_inv. destruct existed; solve_books;
    (intros Hl; eapply rows_linked_insert; [reflexivity|done|apply linked_upsert, Hl]).
Qed.

Lemma cumulative_deplete_books name prov line t x x' :
  cumulative_deplete name prov line t x = (Ok tt, x') → books line x x'.
Proof.
  unfold cumulative_deplete. intros H. core_inv.
  destruct (read_layer0 _ _) as [[q v] existed]. core_inv.
  destruct existed, prov; core_inv; solve_books; intros Hl;
    first [done|eapply rows_linked_insert; [reflexivity|done|apply linked_upsert, Hl]].
Qed.

Lemma apply_std_books line t x x' : apply_std line t x = (Ok tt, x') → books line x x'.
Proof.
  unfold apply_std. intros H. core_inv.
  match goal with Hs : expect_method _ _ _ = _ |- _ => apply expects_method_Ok in Hs as [_ ->] end.
  split; cbn; unfold max_seq; cbn.
  - done.
  - by rewrite lookup_insert_eq.
  - intros q Hq. by rewrite !lookup_insert_ne.
  - by eexists.
  - exists []. by rewrite app_nil_r.
  - by eexists.
  - exists []. rewrite app_nil_r. split; [done|by left].
  - done.
Qed.

(** * Lines *)
Lemma walk_linked layers idxs rem :
  Forall linked layers →
  Forall (λ t, 0 < lt_last_trx_line_id t → V (lt_last_trx_line_id t)) (walk_layers layers idxs rem).
Proof.
  intros Hl. revert rem. induction idxs as [|i idxs IH]; intros rem; cbn; [constructor|].
  case_decide; [constructor|]. destruct (layers !! i) as [r|] eqn:Hr; [|constructor].
  constructor; [|apply IH]. cbn. rewrite Forall_lookup in Hl. by apply (Hl i).
Qed.

Lemma apply_layered_booked line t o x x' :
  is_Some (method !! req_pool_id line) → line_accounts line →
  apply_layered line t o x = (Ok tt, x') → booked x → booked x'.
Proof.
  unfold apply_layered, layered_deplete. intros Hm HA H Hb. destruct (req_qty line ?= 0).
  - by core_inv.
  - core_inv.
    match goal with Hp : pools ?s !! _ = Some ?l |- _ =>
      assert (Forall linked l) as Hlk by
        (pose proof (bd_rows _ Hb (req_pool_id line)) as Hr; unfold rows_of in Hr;
         by rewrite Hp in Hr) end.
    match goal with Hi : iterM _ (walk_layers ?l ?i ?q) _ = (Ok tt, ?y) |- _ =>
      pose proof (walk_linked l i q Hlk) as Hts;
      assert (booked y) as [Hy1 Hy2 Hy3 Hy4 Hy5 Hy6 Hy7] by
        (eapply (iterM_inv booked); [|exact Hi|exact Hb];
         intros lt y1 y2 Hlt Hrun; eapply books_booked; [|done|done];
         eapply touch_layer_books; [|exact Hrun]; rewrite Forall_forall in Hts; by apply Hts) end.
    destruct (pools _ !! _) as [layers|] eqn:Hp in |- *; [|by split].
    split; cbn; try done. eapply rows_linked_insert; [reflexivity|done|].
    apply Forall_filter_rows. specialize (Hy7 (req_pool_id line)). unfold rows_of in Hy7.
    by rewrite Hp in Hy7.
  - eapply books_booked; [|done..]. by eapply layered_receipt_books.
Qed.

Lemma apply_line_booked t line x x' :
  line_accounts line → apply_line t line x = (Ok tt, x') → booked x → booked x'.
Proof.
  unfold apply_line. intros HA H Hb. core_inv.
  match goal with Hm : method_of _ !! _ = Some ?m |- _ =>
    rewrite (bd_method _ Hb) in Hm;
    assert (is_Some (method !! req_pool_id line)) as Hmeth by (by rewrite Hm); destruct m end.
  all: unfold apply_fifo, apply_lifo, apply_specific, apply_wac, apply_wac_periodic in *.
  5: eapply books_booked; [by eapply apply_std_books|done..].
  all: core_inv;
    match goal with Hs : expect_method _ _ _ = _ |- _ => apply expects_method_Ok in Hs as [_ ->] end.
  1,2,5: by eapply apply_layered_booked.
  all: destruct (req_qty line ?= 0); [by core_inv|..]; (eapply books_booked; [|done..]);
    first [by eapply cumulative_deplete_books|by eapply cumulative_receipt_books].
Qed.
End books.

Lemma plan_booked (A V : Z → Prop) s lines t r s' :
  plan_apply s lines t = (Ok r, s') → Forall (line_accounts A) lines → rows_linked V s →
  booked (method_of s) (max_seq s) A V (s', r).
Proof.
  intros (r1 & Hrun & ->)%plan_apply_Ok HA HV.
  assert (booked (method_of s) (max_seq s) A V (s', r1)) as [H1 [H2 H3 H4 H4'] H5 H6 H7 H8 H9].
  { eapply (iterM_inv (booked (method_of s) (max_seq s) A V)); [|exact Hrun|].
    - intros line x x' Hin. eapply apply_line_booked. rewrite Forall_forall in HA. by apply HA.
    - split; cbn; [done|by split; constructor| |by constructor..|done].
      intros p. by rewrite Z.sub_diag. }
  split; cbn in *; try done. split; cbn; [|done..].
  rewrite dedupe_is_keep_last. apply Forall_forall. intros m Hm%keep_last_submseteq.
  rewrite Forall_forall in H2. by apply H2.
Qed.
