(* ===== verification/V3Db.v ===== *)
(** The tables of the two-path ledger (migrations 0001-0007), the bulk writers
    of a plan (bulk_write.rs), the snapshot hydration (hydration.rs) and the pool
    locks (pool_lock.rs).  ledger-direct and ledger-routed carry identical copies
    of these modules. *)
From S2P Require Import Prelude V3Plan.

(** * SQL texts of the enums *)
Definition line_type_as_sql (t : LineType) : string :=
  match t with
  | PoReceiptLine => "po_receipt_line"
  | WoOutput => "wo_output"
  | WoBackflush => "wo_backflush"
  | WoScrap => "wo_scrap"
  | InvAdjustmentLine => "inv_adjustment_line"
  | TransferShipmentLine => "transfer_shipment_line"
  | TransferReceiptLine => "transfer_receipt_line"
  | ManualAdjustmentLine => "manual_adjustment_line"
  | RevaluationLine => "revaluation_line"
  end%string.
Definition posting_event_type_as_sql (t : PostingEventType) : string :=
  match t with
  | InventoryReceipt => "inventory_receipt"
  | InventoryDepletion => "inventory_depletion"
  | WipMovement => "wip_movement"
  | Variance => "variance"
  | Scrap => "scrap"
  | Adjustment => "adjustment"
  | Revaluation => "revaluation"
  end%string.
Definition trx_types : list string :=
  ["po_receipt"; "wo_completion"; "inv_adjustment"; "transfer_shipment"; "transfer_receipt";
   "manual_adjustment"; "revaluation_run"]%string.

(** * Tables *)
Record StateRow := { ps_qty : Z; ps_unit_cost : Z; ps_last_trx_line_id : Z }.
Record TrxRow := { trx_trx_type : string; trx_source_id : Z; trx_posted_at : Timestamp }.
Record LineRow := {
  tl_trx_id : Z; tl_pool_id : Z; tl_line_type : string; tl_source_id : option Z;
  tl_qty : Z; tl_unit_cost : Z; tl_trx_seq : Z; tl_source_trx_line_id : option Z;
}.
Record PostingRow := {
  pr_trx_line_id : Z; pr_event_type : string; pr_amount : Z;
  pr_debit_account : Z; pr_credit_account : Z; pr_posted_at : Timestamp;
}.
Record ProvisionalRow := {
  pv_posting_line_id : Z; pv_pool_id : Z; pv_qty : Z; pv_provisional_amount : Z;
}.

(** Identity columns hand out [last + 1]; a sequence is not rolled back with its
    transaction, so the counters are kept apart from the rows. *)
Record Db := {
  db_account : gset Z;
  db_pool : gmap Z string;
  db_pool_state : gmap (Z * Z) StateRow;
  db_pool_lock : gset Z;
  db_trx : gmap Z TrxRow;
  db_trx_line : gmap Z LineRow;
  db_posting_line : gmap Z PostingRow;
  db_provisional : gmap Z ProvisionalRow;
  db_trx_last : Z;
  db_trx_line_last : Z;
  db_posting_last : Z;
  db_provisional_last : Z;
}.

Definition set_pool_state (m : gmap (Z * Z) StateRow) (d : Db) : Db :=
  {| db_account := db_account d; db_pool := db_pool d; db_pool_state := m;
     db_pool_lock := db_pool_lock d; db_trx := db_trx d; db_trx_line := db_trx_line d;
     db_posting_line := db_posting_line d; db_provisional := db_provisional d;
     db_trx_last := db_trx_last d; db_trx_line_last := db_trx_line_last d;
     db_posting_last := db_posting_last d; db_provisional_last := db_provisional_last d |}.
Definition set_pool_lock (l : gset Z) (d : Db) : Db :=
  {| db_account := db_account d; db_pool := db_pool d; db_pool_state := db_pool_state d;
     db_pool_lock := l; db_trx := db_trx d; db_trx_line := db_trx_line d;
     db_posting_line := db_posting_line d; db_provisional := db_provisional d;
     db_trx_last := db_trx_last d; db_trx_line_last := db_trx_line_last d;
     db_posting_last := db_posting_last d; db_provisional_last := db_provisional_last d |}.
Definition add_trx (r : TrxRow) (d : Db) : Db :=
  {| db_account := db_account d; db_pool := db_pool d; db_pool_state := db_pool_state d;
     db_pool_lock := db_pool_lock d; db_trx := <[db_trx_last d + 1 := r]> (db_trx d);
     db_trx_line := db_trx_line d; db_posting_line := db_posting_line d;
     db_provisional := db_provisional d; db_trx_last := db_trx_last d + 1;
     db_trx_line_last := db_trx_line_last d; db_posting_last := db_posting_last d;
     db_provisional_last := db_provisional_last d |}.
Definition add_trx_line (r : LineRow) (d : Db) : Db :=
  {| db_account := db_account d; db_pool := db_pool d; db_pool_state := db_pool_state d;
     db_pool_lock := db_pool_lock d; db_trx := db_trx d;
     db_trx_line := <[db_trx_line_last d + 1 := r]> (db_trx_line d);
     db_posting_line := db_posting_line d; db_provisional := db_provisional d;
     db_trx_last := db_trx_last d; db_trx_line_last := db_trx_line_last d + 1;
     db_posting_last := db_posting_last d; db_provisional_last := db_provisional_last d |}.
Definition add_posting (r : PostingRow) (d : Db) : Db :=
  {| db_account := db_account d; db_pool := db_pool d; db_pool_state := db_pool_state d;
     db_pool_lock := db_pool_lock d; db_trx := db_trx d; db_trx_line := db_trx_line d;
     db_posting_line := <[db_posting_last d + 1 := r]> (db_posting_line d);
     db_provisional := db_provisional d; db_trx_last := db_trx_last d;
     db_trx_line_last := db_trx_line_last d; db_posting_last := db_posting_last d + 1;
     db_provisional_last := db_provisional_last d |}.
Definition add_provisional (r : ProvisionalRow) (d : Db) : Db :=
  {| db_account := db_account d; db_pool := db_pool d; db_pool_state := db_pool_state d;
     db_pool_lock := db_pool_lock d; db_trx := db_trx d; db_trx_line := db_trx_line d;
     db_posting_line := db_posting_line d;
     db_provisional := <[db_provisional_last d + 1 := r]> (db_provisional d);
     db_trx_last := db_trx_last d; db_trx_line_last := db_trx_line_last d;
     db_posting_last := db_posting_last d; db_provisional_last := db_provisional_last d + 1 |}.

(** What a statement can end in: an SQLSTATE, or a panic of the Rust around it.
    [Unspecified] marks a statement whose outcome PostgreSQL leaves open. *)
Inductive SqlError : Type :=
| SqlRaised (sqlstate constraint : string)
| RustPanicked (msg : string)
| Unspecified (why : string).
#[global] Instance SqlError_eq_dec : EqDecision SqlError.
Proof. solve_decision. Defined.
Abbreviation Tx := (SE Db SqlError).

(** * bulk_write.rs *)
Definition insert_trx (trx_type : string) (source_id : Z) (posted_at : Timestamp) : Tx Z :=
  d ← gets id;
  ensure (bool_decide (trx_type ∈ trx_types))
    else (SqlRaised "22P02" "trx_type");
  ensure (bool_decide (map_Forall (λ _ r, (trx_trx_type r, trx_source_id r) ≠ (trx_type, source_id))
            (db_trx d)))
    else (SqlRaised "23505" "trx_trx_type_source_id_key");
  modify (add_trx {| trx_trx_type := trx_type; trx_source_id := source_id;
                     trx_posted_at := posted_at |});;
  mret (db_trx_last d + 1).

Definition line_row (trx_id : Z) (o : TrxLineOutput) : LineRow :=
  {| tl_trx_id := trx_id; tl_pool_id := out_pool_id o;
     tl_line_type := line_type_as_sql (out_line_type o); tl_source_id := out_source_id o;
     tl_qty := out_qty o; tl_unit_cost := out_unit_cost o; tl_trx_seq := out_trx_seq o;
     tl_source_trx_line_id := out_source_trx_line_id o |}.

(** One row of the INSERT, under the UNIQUE (pool_id, trx_seq) constraint. *)
Definition insert_trx_line_row (r : LineRow) : Tx (Z * Z * Z) :=
  d ← gets id;
  ensure (bool_decide (map_Forall (λ _ r', (tl_pool_id r', tl_trx_seq r') ≠
                                           (tl_pool_id r, tl_trx_seq r)) (db_trx_line d)))
    else (SqlRaised "23505" "trx_line_pool_id_trx_seq_key");
  modify (add_trx_line r);;
  mret (db_trx_line_last d + 1, tl_pool_id r, tl_trx_seq r).

(** The references of a row; PostgreSQL checks them when the statement ends. *)
Definition check_line_references (r : LineRow) : Tx unit :=
  d ← gets id;
  ensure (bool_decide (is_Some (db_pool d !! tl_pool_id r)))
    else (SqlRaised "23503" "trx_line_pool_id_fkey");
  ensure (match tl_source_trx_line_id r with
          | Some l => bool_decide (is_Some (db_trx_line d !! l))
          | None => true
          end) else (SqlRaised "23503" "trx_line_source_trx_line_id_fkey");
  mret tt.

Fixpoint mapM_tx {A B} (f : A → Tx B) (l : list A) : Tx (list B) :=
  match l with
  | [] => mret []
  | a :: l => b ← f a; bs ← mapM_tx f l; mret (b :: bs)
  end.

(** The returned rows are re-resolved by (pool_id, trx_seq). *)
Definition insert_trx_lines (trx_id : Z) (outputs : list TrxLineOutput) : Tx (list Z) :=
  match outputs with
  | [] => mret []
  | _ =>
      returned ← mapM_tx (λ o, insert_trx_line_row (line_row trx_id o)) outputs;
      iterM (λ o, check_line_references (line_row trx_id o)) outputs;;
      let m : gmap (Z * Z) Z :=
        foldl (λ m row, <[(row.1.2, row.2) := row.1.1]> m) ∅ returned in
      mapM_tx (λ o, match m !! (out_pool_id o, out_trx_seq o) with
                    | Some id => mret id
                    | None => throw (RustPanicked "trx_line RETURNING dropped a row")
                    end) outputs
  end.

(** The four vectors the loop over the mutations fills. *)
Record Batches := {
  bt_ins : list (Z * Z * StateRow);
  bt_up : list (Z * Z * StateRow);
  bt_upd : list (Z * Z * Z);
  bt_del : list (Z * Z);
}.

Fixpoint batch_mutations (mutations : list PoolStateMutation) (trx_line_ids : list Z)
    : option Batches :=
  match mutations with
  | [] => Some {| bt_ins := []; bt_up := []; bt_upd := []; bt_del := [] |}
  | m :: ms =>
      b ← batch_mutations ms trx_line_ids;
      match m with
      | Insert p l q u idx =>
          last ← trx_line_ids !! idx;
          Some {| bt_ins := (p, l, {| ps_qty := q; ps_unit_cost := u; ps_last_trx_line_id := last |})
                              :: bt_ins b;
                  bt_up := bt_up b; bt_upd := bt_upd b; bt_del := bt_del b |}
      | Upsert p l q u idx =>
          last ← trx_line_ids !! idx;
          Some {| bt_ins := bt_ins b;
                  bt_up := (p, l, {| ps_qty := q; ps_unit_cost := u; ps_last_trx_line_id := last |})
                             :: bt_up b;
                  bt_upd := bt_upd b; bt_del := bt_del b |}
      | Update p l q =>
          Some {| bt_ins := bt_ins b; bt_up := bt_up b; bt_upd := (p, l, q) :: bt_upd b;
                  bt_del := bt_del b |}
      | Delete p l =>
          Some {| bt_ins := bt_ins b; bt_up := bt_up b; bt_upd := bt_upd b;
                  bt_del := (p, l) :: bt_del b |}
      end
  end.

(** INSERT: a key that exists, or comes twice, violates the primary key. *)
Fixpoint insert_states (rows : list (Z * Z * StateRow)) (m : gmap (Z * Z) StateRow)
    : Res SqlError (gmap (Z * Z) StateRow) :=
  match rows with
  | [] => Ok m
  | (k, r) :: rows =>
      match m !! k with
      | Some _ => Err (SqlRaised "23505" "pool_state_pkey")
      | None => insert_states rows (<[k := r]> m)
      end
  end.
(** INSERT .. ON CONFLICT DO UPDATE refuses to touch a row twice. *)
Definition upsert_states (rows : list (Z * Z * StateRow)) (m : gmap (Z * Z) StateRow)
    : Res SqlError (gmap (Z * Z) StateRow) :=
  if decide (NoDup (map fst rows))
  then Ok (foldl (λ m kr, <[kr.1 := kr.2]> m) m rows)
  else Err (SqlRaised "21000" "ON CONFLICT DO UPDATE command cannot affect row a second time").
Definition set_state_qty (q : Z) (r : StateRow) : StateRow :=
  {| ps_qty := q; ps_unit_cost := ps_unit_cost r; ps_last_trx_line_id := ps_last_trx_line_id r |}.
(** UPDATE .. FROM: a target joined by two rows takes an unspecified one. *)
Definition update_states (rows : list (Z * Z * Z)) (m : gmap (Z * Z) StateRow)
    : Res SqlError (gmap (Z * Z) StateRow) :=
  if decide (NoDup (map fst rows))
  then Ok (foldl (λ m kq, alter (set_state_qty kq.2) kq.1 m) m rows)
  else Err (Unspecified "UPDATE FROM joins a row twice").
Definition delete_states (keys : list (Z * Z)) (m : gmap (Z * Z) StateRow)
    : gmap (Z * Z) StateRow := foldl (λ m k, delete k m) m keys.

Definition run_batches (b : Batches) (m : gmap (Z * Z) StateRow)
    : Res SqlError (gmap (Z * Z) StateRow) :=
  m1 ← insert_states (bt_ins b) m;
  m2 ← upsert_states (bt_up b) m1;
  m3 ← update_states (bt_upd b) m2;
  Ok (delete_states (bt_del b) m3).

Definition apply_pool_state_mutations (mutations : list PoolStateMutation)
    (trx_line_ids : list Z) : Tx unit :=
  b ← lift (ok_or (batch_mutations mutations trx_line_ids) (RustPanicked "index out of bounds"));
  d ← gets id;
  m ← lift (run_batches b (db_pool_state d));
  modify (set_pool_state m).

Definition posting_row (trx_line_id : Z) (r : PostingLineRequest) : PostingRow :=
  {| pr_trx_line_id := trx_line_id;
     pr_event_type := posting_event_type_as_sql (pst_event_type r);
     pr_amount := pst_amount r; pr_debit_account := pst_debit_account r;
     pr_credit_account := pst_credit_account r; pr_posted_at := pst_posted_at r |}.
Definition insert_posting_row (r : PostingRow) : Tx Z :=
  d ← gets id;
  ensure (bool_decide (pr_debit_account r ∈ db_account d))
    else (SqlRaised "23503" "posting_line_debit_account_fkey");
  ensure (bool_decide (pr_credit_account r ∈ db_account d))
    else (SqlRaised "23503" "posting_line_credit_account_fkey");
  modify (add_posting r);;
  mret (db_posting_last d + 1).

Definition index_or_panic {A} (l : list A) (i : nat) : Tx A :=
  match l !! i with Some a => mret a | None => throw (RustPanicked "index out of bounds") end.

(** The index lookups fill the vectors before the INSERT runs. *)
Definition insert_posting_lines (requests : list PostingLineRequest) (trx_line_ids : list Z)
    : Tx (list Z) :=
  rows ← mapM_tx (λ r, id ← index_or_panic trx_line_ids (pst_trx_line_idx r);
                       mret (posting_row id r)) requests;
  mapM_tx insert_posting_row rows.

Definition insert_provisional_postings (provisionals : list ProvisionalPostingRequest)
    (posting_line_ids : list Z) : Tx unit :=
  rows ← mapM_tx (λ p, id ← index_or_panic posting_line_ids (prov_posting_line_idx p);
                       mret {| pv_posting_line_id := id; pv_pool_id := prov_pool_id p;
                               pv_qty := prov_qty p;
                               pv_provisional_amount := prov_provisional_amount p |}) provisionals;
  iterM (λ r, d ← gets id;
              ensure (bool_decide (map_Forall (λ _ r', pv_posting_line_id r' ≠ pv_posting_line_id r)
                                     (db_provisional d)))
                else (SqlRaised "23505" "posting_lines_provisional_posting_line_id_key");
              modify (add_provisional r)) rows.

Definition apply_plan_result (trx_type : string) (source_id : Z) (posted_at : Timestamp)
    (plan : PlanResult) : Tx Z :=
  trx_id ← insert_trx trx_type source_id posted_at;
  trx_line_ids ← insert_trx_lines trx_id (trx_lines plan);
  apply_pool_state_mutations (pool_state_mutations plan) trx_line_ids;;
  posting_line_ids ← insert_posting_lines (posting_lines plan) trx_line_ids;
  insert_provisional_postings (provisional_postings plan) posting_line_ids;;
  mret trx_id.

(** * pool_lock.rs: a lock row per pool, created on first touch, taken in
    ascending order (which pools a transaction holds is not state of its run). *)
Definition sorted_dedup (ids : list Z) : list Z := remove_dups (merge_sort Z.le ids).
Definition acquire_pool_locks (pool_ids : list Z) : Tx (list Z) :=
  let sorted := sorted_dedup pool_ids in
  iterM (λ pid, d ← gets id;
                ensure (bool_decide (is_Some (db_pool d !! pid)))
                  else (SqlRaised "23503" "pool_lock_pool_id_fkey");
                modify (set_pool_lock ({[pid]} ∪ db_pool_lock d))) sorted;;
  mret sorted.

(** * hydration.rs *)
Definition method_of_text (s : string) : option PoolMethod :=
  if decide (s = "fifo"%string) then Some Fifo
  else if decide (s = "lifo"%string) then Some Lifo
  else if decide (s = "wac"%string) then Some Wac
  else if decide (s = "wac_periodic"%string) then Some WacPeriodic
  else if decide (s = "std"%string) then Some Std
  else if decide (s = "specific"%string) then Some Specific
  else None.

Definition hydrated_row (l : Z) (r : StateRow) : PoolStateRow :=
  {| layer_seq := l; row_qty := ps_qty r; row_unit_cost := ps_unit_cost r;
     last_trx_line_id := ps_last_trx_line_id r |}.

(** The rows of one pool in layer order. *)
Definition pool_rows (d : Db) (p : Z) : list PoolStateRow :=
  sort_by_key layer_seq
    (omap (λ kr, if decide (kr.1.1 = p) then Some (hydrated_row kr.1.2 kr.2) else None)
       (map_to_list (db_pool_state d))).

(** [COALESCE(MAX(trx_seq), 0)] over the pool's lines. *)
Definition max_trx_seq (d : Db) (p : Z) : Z :=
  match omap (λ ir, if decide (tl_pool_id ir.2 = p) then Some (tl_trx_seq ir.2) else None)
          (map_to_list (db_trx_line d)) with
  | [] => 0
  | x :: xs => foldr Z.max x xs
  end.

Definition hydrate_snapshot (d : Db) (pool_ids : list Z) : Snapshot :=
  match pool_ids with
  | [] => snapshot_default
  | _ =>
      let ids := sorted_dedup pool_ids in
      {| pools := list_to_map (omap (λ p, match pool_rows d p with
                                          | [] => None
                                          | rows => Some (p, rows)
                                          end) ids);
         method_of := list_to_map (omap (λ p, t ← db_pool d !! p; m ← method_of_text t; Some (p, m)) ids);
         max_trx_seq_of := list_to_map (map (λ p, (p, max_trx_seq d p)) ids);
         std_cost_of := ∅ |}
  end.
