(* ===== verification/V3Hydrate.v ===== *)
(** Hydration of a well-formed database: the snapshot it yields is well formed
    and shows exactly the pool_state table. *)
From S2P Require Import Prelude V3Plan V3Layered V3Wac V3Method V3Db.

Definition state_val (r : StateRow) : Z * Z := (ps_qty r, ps_unit_cost r).
Definition db_method (d : Db) (p : Z) : option PoolMethod := t ← db_pool d !! p; method_of_text t.

(** * Well-formed databases

    Identity columns never exceed their counters, the layers of a layered pool
    are live and numbered below the pool's newest line, and every row names the
    line that wrote it. *)
Record db_wf (d : Db) : Prop := {
  dw_trx : map_Forall (λ i _, i ≤ db_trx_last d) (db_trx d);
  dw_line : map_Forall (λ i r, 0 < i ≤ db_trx_line_last d ∧ 0 < tl_trx_seq r) (db_trx_line d);
  dw_post : map_Forall (λ i _, i ≤ db_posting_last d) (db_posting_line d);
  dw_prov : map_Forall (λ i r, i ≤ db_provisional_last d ∧ pv_posting_line_id r ≤ db_posting_last d)
              (db_provisional d);
  dw_layers : ∀ p l r m, db_pool_state d !! (p, l) = Some r → db_method d p = Some m → layered m →
    0 < ps_qty r ∧ l ≤ max_trx_seq d p;
  dw_last : map_Forall (λ _ r, is_Some (db_trx_line d !! ps_last_trx_line_id r)) (db_pool_state d);
  dw_counter : 0 ≤ db_trx_line_last d;
}.

(** * The newest sequence number of a pool *)
Definition is_max_seq (d : Db) (p n : Z) : Prop :=
  (∀ i r, db_trx_line d !! i = Some r → tl_pool_id r = p → tl_trx_seq r ≤ n) ∧
  ((∃ i r, db_trx_line d !! i = Some r ∧ tl_pool_id r = p ∧ tl_trx_seq r = n) ∨
   (n = 0 ∧ ∀ i r, db_trx_line d !! i = Some r → tl_pool_id r ≠ p)).

Lemma foldr_max_spec x xs :
  foldr Z.max x xs ∈ x :: xs ∧ ∀ y, y ∈ x :: xs → y ≤ foldr Z.max x xs.
Proof.
  induction xs as [|z xs [IH1 IH2]]; cbn.
  - split; [by left|]. intros y ->%list_elem_of_singleton. done.
  - split.
    + destruct (Z.max_spec z (foldr Z.max x xs)) as [[_ ->]|[_ ->]].
      * apply elem_of_cons in IH1 as [->|IH1]; [by left|by do 2 right].
      * right. by left.
    + intros y [->|[->|Hy]%elem_of_cons]%elem_of_cons.
      * assert (x ≤ foldr Z.max x xs) by (apply IH2; by left). lia.
      * lia.
      * assert (y ≤ foldr Z.max x xs) by (apply IH2; by right). lia.
Qed.

Lemma max_trx_seq_spec d p : is_max_seq d p (max_trx_seq d p).
Proof.
  unfold max_trx_seq. set (l := omap _ _).
  assert (∀ n, n ∈ l ↔ ∃ i r, db_trx_line d !! i = Some r ∧ tl_pool_id r = p ∧ tl_trx_seq r = n) as Hl.
  { intros n. unfold l. rewrite list_elem_of_omap. split.
    - intros ([i r] & Hin & Hs). cbn in Hs. case_decide; simplify_eq.
      apply elem_of_map_to_list in Hin. eauto.
    - intros (i & r & Hi & Hp & Hs). exists (i, r). split; [by apply elem_of_map_to_list|].
      cbn. rewrite decide_True by done. by f_equal. }
  destruct l as [|x xs].
  - split.
    + intros i r Hi Hp. exfalso. apply (not_elem_of_nil (tl_trx_seq r)), Hl. eauto.
    + right. split; [done|]. intros i r Hi Hp.
      apply (not_elem_of_nil (tl_trx_seq r)), Hl. eauto.
  - destruct (foldr_max_spec x xs) as [Hin Hmax]. split.
    + intros i r Hi Hp. apply Hmax, Hl. eauto.
    + left. by apply Hl.
Qed.

Lemma is_max_seq_unique d p n n' : is_max_seq d p n → is_max_seq d p n' → n = n'.
Proof.
  intros [H1 H2] [H1' H2'].
  destruct H2 as [(i & r & Hi & Hp & Hn)|[Hn Hno]], H2' as [(i' & r' & Hi' & Hp' & Hn')|[Hn' Hno']].
  - specialize (H1 _ _ Hi' Hp'). specialize (H1' _ _ Hi Hp). lia.
  - by destruct (Hno' _ _ Hi).
  - by destruct (Hno _ _ Hi').
  - lia.
Qed.

Lemma max_trx_seq_nonneg d p : db_wf d → 0 ≤ max_trx_seq d p.
Proof.
  intros Hwf. destruct (max_trx_seq_spec d p) as [_ [(i & r & Hi & _ & <-)|[-> _]]]; [|done].
  apply (dw_line _ Hwf) in Hi. cbn in Hi. lia.
Qed.

(** * The rows of a pool *)
Lemma elem_of_pool_rows d p r :
  r ∈ pool_rows d p ↔ ∃ sr, db_pool_state d !! (p, layer_seq r) = Some sr ∧
                            r = hydrated_row (layer_seq r) sr.
Proof.
  unfold pool_rows. rewrite sort_by_key_Permutation, list_elem_of_omap. split.
  - intros ([[p' l] sr] & Hin%elem_of_map_to_list & Hs). cbn in Hs.
    case_decide; simplify_eq. eauto.
  - intros (sr & Hl & ->). exists (p, layer_seq r, sr). split; [by apply elem_of_map_to_list|].
    cbn. by rewrite decide_True.
Qed.

Lemma find_layer_Some l rows r :
  (∀ a b, a ∈ rows → b ∈ rows → layer_seq a = layer_seq b → a = b) →
  find_layer l rows = Some r ↔ r ∈ rows ∧ layer_seq r = l.
Proof.
  intros Hinj. unfold find_layer. split.
  - intros [Hin Heq]%List.find_some. split; [by apply list_elem_of_In|by apply Z.eqb_eq].
  - intros [Hin Heq]. destruct (List.find _ rows) as [r'|] eqn:E.
    + apply List.find_some in E as [Hin'%list_elem_of_In Heq'%Z.eqb_eq]. f_equal.
      apply Hinj; [done|done|congruence].
    + eapply List.find_none in E; [|by apply list_elem_of_In]. apply Z.eqb_neq in E. done.
Qed.

Lemma pool_rows_inj d p a b :
  a ∈ pool_rows d p → b ∈ pool_rows d p → layer_seq a = layer_seq b → a = b.
Proof.
  intros (ra & Ha & Ea)%elem_of_pool_rows (rb & Hb & Eb)%elem_of_pool_rows Heq.
  rewrite Ea, Eb, Heq. rewrite Heq in Ha. congruence.
Qed.

Lemma find_pool_rows d p l :
  find_layer l (pool_rows d p) = hydrated_row l <$> db_pool_state d !! (p, l).
Proof.
  apply option_eq. intros r. rewrite find_layer_Some by (intros; by eapply pool_rows_inj).
  rewrite fmap_Some. split.
  - intros [(sr & Hsr & Hr)%elem_of_pool_rows <-]. eauto.
  - intros (sr & Hsr & ->). split; [|done]. apply elem_of_pool_rows. eauto.
Qed.

(** Sorted by key with distinct keys is strictly sorted. *)
Lemma sorted_strict rows :
  StronglySorted (key_le layer_seq) rows → NoDup (map layer_seq rows) → StronglySorted seq_lt rows.
Proof.
  induction 1 as [|r rows Hs IH Hle]; [constructor|]. cbn. intros [Hn Hnd]%NoDup_cons.
  constructor; [by apply IH|]. apply Forall_forall. intros x Hx. rewrite Forall_forall in Hle.
  specialize (Hle x Hx). unfold key_le, seq_lt in *.
  assert (layer_seq r ≠ layer_seq x); [|lia]. intros Heq. apply Hn. rewrite Heq.
  by apply list_elem_of_fmap_2.
Qed.

Lemma pool_rows_NoDup d p : NoDup (map layer_seq (pool_rows d p)).
Proof.
  unfold pool_rows. rewrite (sort_by_key_Permutation layer_seq).
  pose proof (NoDup_map_to_list (db_pool_state d)) as Hnd.
  assert (∀ k r, (k, r) ∈ map_to_list (db_pool_state d) → db_pool_state d !! k = Some r) as Hin.
  { intros k r. apply elem_of_map_to_list. }
  induction (map_to_list (db_pool_state d)) as [|[[p' l] r] kvs IH]; [constructor|].
  apply NoDup_cons in Hnd as [Hn Hnd]. cbn.
  assert (NoDup (map layer_seq (omap (λ kr, if decide (kr.1.1 = p) then Some (hydrated_row kr.1.2 kr.2)
                                            else None) kvs))) as IH'.
  { apply IH; [done|]. intros. apply Hin. by right. }
  case_decide as Hp; [|done]. cbn in Hp. subst p'. cbn. constructor; [|done].
  intros (x & Hx & ([[p' l'] r'] & Hin' & Hs)%list_elem_of_omap)%list_elem_of_fmap. cbn in Hs.
  case_decide; [|done]. injection Hs as <-. cbn in Hx. subst l'. cbn in *. subst p'. apply Hn.
  assert (r = r') as ->; [|done].
  assert (Some r = Some r') as [= ?]; [|done].
  rewrite <-(Hin (p, l) r) by (by left). by apply Hin; right.
Qed.

Lemma pool_rows_sorted d p : StronglySorted seq_lt (pool_rows d p).
Proof. apply sorted_strict; [apply sort_by_key_sorted|apply pool_rows_NoDup]. Qed.

Lemma filter_live_all rows : Forall has_stock rows → filter has_stock rows = rows.
Proof.
  induction 1 as [|r rows Hr _ IH]; [done|]. by rewrite filter_cons, decide_True, IH.
Qed.

(** * The hydrated snapshot *)
Lemma elem_of_sorted_dedup ids p : p ∈ sorted_dedup ids ↔ p ∈ ids.
Proof. unfold sorted_dedup. by rewrite elem_of_remove_dups, merge_sort_Permutation. Qed.

Lemma keyed_lookup {B} (f : Z → option (Z * B)) (ids : list Z) p :
  (∀ q kv, f q = Some kv → kv.1 = q) →
  (list_to_map (omap f ids) : gmap Z B) !! p = if decide (p ∈ ids) then snd <$> f p else None.
Proof.
  intros Hf. induction ids as [|q ids IH]; [done|]. cbn.
  destruct (f q) as [[q' v]|] eqn:E.
  - specialize (Hf _ _ E) as Hq. cbn in Hq. subst q'. cbn.
    destruct (decide (q = p)) as [->|Hqp].
    + rewrite lookup_insert_eq, decide_True by (by left). by rewrite E.
    + rewrite lookup_insert_ne, IH by done.
      repeat case_decide; try done; set_solver.
  - rewrite IH. repeat case_decide; try done; [set_solver|].
    destruct (decide (p = q)) as [->|]; [by rewrite E|set_solver].
Qed.

Section hydrate.
Context (d : Db) (ids : list Z).
Let s := hydrate_snapshot d ids.

Lemma hydrate_method p : method_of s !! p = if decide (p ∈ ids) then db_method d p else None.
Proof.
  unfold s, hydrate_snapshot. destruct ids as [|i rest] eqn:E; [done|]. rewrite <-E.
  cbn [method_of]. rewrite keyed_lookup.
  - unfold db_method. repeat case_decide; rewrite ?elem_of_sorted_dedup in *; try done.
    destruct (db_pool d !! p) as [t|]; cbn; [|done]. by destruct (method_of_text t).
  - intros q kv. destruct (db_pool d !! q) as [t|]; cbn; [|done].
    by destruct (method_of_text t); intros [= <-].
Qed.

Lemma hydrate_rows p : rows_of s p = if decide (p ∈ ids) then pool_rows d p else [].
Proof.
  unfold s, hydrate_snapshot, rows_of. destruct ids as [|i rest] eqn:E; [done|]. rewrite <-E.
  cbn [pools]. rewrite keyed_lookup.
  - repeat case_decide; rewrite ?elem_of_sorted_dedup in *; try done.
    by destruct (pool_rows d p).
  - intros q kv. by destruct (pool_rows d q); intros [= <-].
Qed.

Lemma hydrate_max_seq p : max_seq s p = if decide (p ∈ ids) then max_trx_seq d p else 0.
Proof.
  unfold s, hydrate_snapshot, max_seq. destruct ids as [|i rest] eqn:E; [done|]. rewrite <-E.
  cbn [max_trx_seq_of].
  assert (map (λ p, (p, max_trx_seq d p)) (sorted_dedup ids) =
          omap (λ p, Some (p, max_trx_seq d p)) (sorted_dedup ids)) as ->.
  { induction (sorted_dedup ids); cbn; congruence. }
  rewrite keyed_lookup; [|by intros ?? [= <-]].
  repeat case_decide; rewrite ?elem_of_sorted_dedup in *; done.
Qed.

Hypothesis Hwf : db_wf d.

Lemma hydrate_wf : snapshot_wf s.
Proof.
  intros p m Hm Hl. rewrite hydrate_method in Hm. rewrite hydrate_rows, hydrate_max_seq.
  case_decide as Hp; [|done]. split.
  - apply pool_rows_sorted.
  - apply Forall_forall. intros r (sr & Hsr & ->)%elem_of_pool_rows.
    by eapply dw_layers.
  - apply Forall_forall. intros r (sr & Hsr & _)%elem_of_pool_rows.
    by eapply dw_layers.
Qed.

Lemma hydrate_shows : shows s (state_val <$> db_pool_state d).
Proof.
  intros p l [m Hm]. unfold live_rows. rewrite Hm. pose proof Hm as Hm'.
  rewrite hydrate_method in Hm'. rewrite hydrate_rows. case_decide as Hp; [|done].
  assert (find_layer l (if decide (layered m) then filter has_stock (pool_rows d p)
                        else pool_rows d p) = find_layer l (pool_rows d p)) as ->.
  { case_decide as Hl; [|done]. f_equal. apply filter_live_all, Forall_forall.
    intros r (sr & Hsr & ->)%elem_of_pool_rows. by eapply dw_layers. }
  rewrite find_pool_rows, lookup_fmap. by destruct (db_pool_state d !! (p, l)).
Qed.

Lemma hydrate_layers_below p m l :
  method_of s !! p = Some m → layered m → is_Some ((state_val <$> db_pool_state d) !! (p, l)) →
  l ≤ max_seq s p.
Proof.
  intros Hm Hl [v Hv]. rewrite hydrate_method in Hm. rewrite hydrate_max_seq.
  case_decide; [|done]. rewrite lookup_fmap in Hv. apply fmap_Some in Hv as (r & Hr & _).
  by eapply dw_layers.
Qed.
End hydrate.
