(* ===== verification/V3Refine.v ===== *)
(** The bulk write of a plan refines the plan: executing the deduplicated
    mutations as four batches (insert, upsert, update, delete) brings the
    pool_state table to exactly the state the planning snapshot ended in. *)
From S2P Require Import Prelude V3Plan V3Layered V3Wac V3Method V3Books V3Db V3Hydrate.

(** * Mutations read key by key *)
Definition mutation_at (m : PoolStateMutation) (o : option (Z * Z)) : option (Z * Z) :=
  match m with
  | Insert _ _ q u _ | Upsert _ _ q u _ => Some (q, u)
  | Update _ _ q => (λ v, (q, v.2)) <$> o
  | Delete _ _ => None
  end.
Definition at_key (k : Z * Z) (ms : list PoolStateMutation) : list PoolStateMutation :=
  filter (λ m, mutation_target m = k) ms.
Definition kind_le (a b : PoolStateMutation) : Prop := mutation_kind a ≤ mutation_kind b.
Definition is_insert (m : PoolStateMutation) : Prop := mutation_kind m = 0.

(** What a run did to one key: a life of the row, from an optional insert over
    rewrites to an optional delete. *)
Record key_life (a : option (Z * Z)) (ws : list PoolStateMutation) (z : option (Z * Z)) : Prop := {
  kl_fold : foldl (λ o m, mutation_at m o) a ws = z;
  kl_sorted : StronglySorted kind_le ws;
  kl_insert : ∀ m ws', ws = m :: ws' → is_insert m → a = None;
  kl_tail : Forall (λ m, ¬ is_insert m) (tail ws);
}.

Lemma at_key_app k ms ms' : at_key k (ms ++ ms') = at_key k ms ++ at_key k ms'.
Proof. apply filter_app. Qed.
Lemma at_key_single k m : at_key k [m] = if decide (mutation_target m = k) then [m] else [].
Proof. unfold at_key. by rewrite filter_cons, filter_nil. Qed.

Lemma StronglySorted_snoc {A} (R : A → A → Prop) l x :
  StronglySorted R l → Forall (λ y, R y x) l → StronglySorted R (l ++ [x]).
Proof.
  induction 1 as [|y l Hs IH Hy]; intros Hx; cbn; [repeat constructor|].
  inversion_clear Hx. constructor; [by apply IH|]. apply Forall_app. split; [done|by constructor].
Qed.

Lemma key_life_snoc a ws z m :
  key_life a ws z → Forall (λ w, kind_le w m) ws → ¬ is_insert m ∨ (ws = [] ∧ a = None) →
  key_life a (ws ++ [m]) (mutation_at m z).
Proof.
  intros [Hf Hs Hi Ht] Hle Hm. split.
  - by rewrite foldl_app, Hf.
  - by apply StronglySorted_snoc.
  - intros m0 ws' Heq Hins. destruct ws as [|w ws]; cbn in Heq; simplify_eq.
    + destruct Hm as [?|[_ ?]]; done.
    + by eapply Hi.
  - destruct ws as [|w ws]; cbn in *; [constructor|]. apply Forall_app. split; [done|].
    constructor; [|constructor]. by destruct Hm as [?|[? _]].
Qed.

(** * Runs of the machine give every key a life *)
Section lives.
Context (method : gmap Z PoolMethod) (st0 : PoolMap) (top0 : Z → Z).
Hypothesis layers_below : ∀ p m l, method !! p = Some m → layered m →
  is_Some (st0 !! (p, l)) → l ≤ top0 p.

Record run_inv (ms : list PoolStateMutation) (st : PoolMap) (top : Z → Z) : Prop := {
  ri_life : ∀ k, key_life (st0 !! k) (at_key k ms) (st !! k);
  ri_layered : ∀ p m l w, method !! p = Some m → layered m → w ∈ at_key (p, l) ms →
    l ≤ top p ∧ (mutation_kind w = 3 → st !! (p, l) = None);
  ri_averaged : ∀ p m l w, method !! p = Some m → averaged m → w ∈ at_key (p, l) ms →
    mutation_kind w ≤ 1 ∧ is_Some (st !! (p, l));
  ri_top : ∀ p, top0 p ≤ top p;
}.

Lemma kind_bounds m : 0 ≤ mutation_kind m ≤ 3.
Proof. destruct m; cbn; lia. Qed.

Lemma at_key_snoc_ne k ms m : mutation_target m ≠ k → at_key k (ms ++ [m]) = at_key k ms.
Proof. intros. by rewrite at_key_app, at_key_single, decide_False, app_nil_r. Qed.
Lemma at_key_snoc_eq k ms m : mutation_target m = k → at_key k (ms ++ [m]) = at_key k ms ++ [m].
Proof. intros. by rewrite at_key_app, at_key_single, decide_True. Qed.

(** One more mutation: only its key changes. *)
Lemma run_inv_snoc ms st top top' m p l mp v :
  run_inv ms st top → mutation_target m = (p, l) → method !! p = Some mp →
  (∀ k, k ≠ (p, l) → v !! k = st !! k) →
  v !! (p, l) = mutation_at m (st !! (p, l)) →
  (∀ q, top q ≤ top' q) →
  Forall (λ w, kind_le w m) (at_key (p, l) ms) →
  (¬ is_insert m ∨ (at_key (p, l) ms = [] ∧ st0 !! (p, l) = None)) →
  (layered mp → l ≤ top' p ∧ (mutation_kind m = 3 → v !! (p, l) = None) ∧
     (∀ w, w ∈ at_key (p, l) ms → mutation_kind w = 3 → v !! (p, l) = None)) →
  (averaged mp → mutation_kind m ≤ 1 ∧ is_Some (v !! (p, l))) →
  run_inv (ms ++ [m]) v top'.
Proof.
  intros [Hl Hlay Hav Htop] Ht Hmp Hne Heq Htop' Hle Hins HL HA. split.
  - intros k. destruct (decide (k = (p, l))) as [->|Hk].
    + rewrite at_key_snoc_eq, Heq by done. by apply key_life_snoc.
    + rewrite at_key_snoc_ne, Hne by congruence. apply Hl.
  - intros p' m' l' w Hm' Hlm Hw. destruct (decide ((p', l') = (p, l))) as [Hk|Hk].
    + simplify_eq. rewrite at_key_snoc_eq in Hw by done. destruct (HL Hlm) as (? & H3 & H3').
      split; [done|]. apply elem_of_app in Hw as [Hw|Hw]; [by eauto|].
      apply list_elem_of_singleton in Hw as ->. done.
    + rewrite at_key_snoc_ne in Hw by congruence. rewrite Hne by done.
      destruct (Hlay _ _ _ _ Hm' Hlm Hw). split; [|done]. specialize (Htop' p'). lia.
  - intros p' m' l' w Hm' Hlm Hw. destruct (decide ((p', l') = (p, l))) as [Hk|Hk].
    + simplify_eq. rewrite at_key_snoc_eq in Hw by done. destruct (HA Hlm) as [? ?].
      split; [|done]. apply elem_of_app in Hw as [Hw|Hw]; [by edestruct Hav|].
      apply list_elem_of_singleton in Hw as ->. done.
    + rewrite at_key_snoc_ne in Hw by congruence. rewrite Hne by done. by eapply Hav.
  - intros q. specialize (Htop q). specialize (Htop' q). lia.
Qed.


Lemma live_key ms st top p m l :
  run_inv ms st top → method !! p = Some m → layered m → is_Some (st !! (p, l)) →
  l ≤ top p ∧ ∀ w, w ∈ at_key (p, l) ms → mutation_kind w ≤ 2.
Proof.
  intros IH Hm Hl [v Hst]. split.
  - destruct (at_key (p, l) ms) as [|w ws] eqn:Hat.
    + pose proof (ri_life _ _ _ IH (p, l)) as [Hf _ _ _]. rewrite Hat in Hf. cbn in Hf.
      pose proof (ri_top _ _ _ IH p). assert (l ≤ top0 p); [|lia].
      eapply layers_below; [done..|]. by rewrite Hf, Hst.
    + assert (w ∈ at_key (p, l) ms) as Hw by (rewrite Hat; by left).
      by destruct (ri_layered _ _ _ IH _ _ _ _ Hm Hl Hw).
  - intros w Hw. destruct (ri_layered _ _ _ IH _ _ _ _ Hm Hl Hw) as [_ H3].
    pose proof (kind_bounds w). destruct (decide (mutation_kind w = 3)); [|lia].
    rewrite H3 in Hst by done. done.
Qed.

Lemma run_inv_receipt ms st top top' p m l q u i :
  run_inv ms st top → method !! p = Some m → layered m → top p < l ≤ top' p →
  (∀ p, top p ≤ top' p) →
  run_inv (ms ++ [Insert p l q u i]) (<[(p, l) := (q, u)]> st) top'.
Proof.
  intros IH Hm Hl Hfresh Htop.
  assert (at_key (p, l) ms = []) as Hnil.
  { apply elem_of_nil_inv. intros w Hw. destruct (ri_layered _ _ _ IH _ _ _ _ Hm Hl Hw). lia. }
  assert (st0 !! (p, l) = None) as Hnone.
  { destruct (st0 !! (p, l)) eqn:E; [|done]. pose proof (ri_top _ _ _ IH p).
    assert (l ≤ top0 p) by (eapply layers_below; [done..|by rewrite E]). lia. }
  eapply run_inv_snoc; [exact IH|done|exact Hm|..]; rewrite ?Hnil.
  - intros k Hk. by rewrite lookup_insert_ne.
  - by rewrite lookup_insert_eq.
  - done.
  - constructor.
  - by right.
  - intros _. split_and!; [lia|done|]. by intros w ?%elem_of_nil.
  - intros. exfalso. by eapply layered_not_averaged.
Qed.

(** An update or a delete of a live layer. *)
Lemma run_inv_touch ms st top p m l w st' :
  run_inv ms st top → method !! p = Some m → layered m → is_Some (st !! (p, l)) →
  mutation_target w = (p, l) → 2 ≤ mutation_kind w →
  (∀ k, k ≠ (p, l) → st' !! k = st !! k) → st' !! (p, l) = mutation_at w (st !! (p, l)) →
  run_inv (ms ++ [w]) st' top.
Proof.
  intros IH Hm Hl Hst Ht Hk Hne Heq. destruct (live_key _ _ _ _ _ _ IH Hm Hl Hst) as [Htop H2].
  eapply run_inv_snoc; [exact IH|exact Ht|exact Hm|done|done|done|..].
  - apply Forall_forall. intros x Hx. unfold kind_le. specialize (H2 x Hx). lia.
  - left. unfold is_insert. lia.
  - intros _. split_and!; [done| |].
    + intros H3. rewrite Heq. by destruct w.
    + intros x Hx H3. specialize (H2 x Hx). lia.
  - intros. exfalso. by eapply layered_not_averaged.
Qed.

(** The first or a later write of an average pool's row. *)
Lemma run_inv_average ms st top p m w q v :
  run_inv ms st top → method !! p = Some m → averaged m → mutation_target w = (p, 0) →
  (mutation_kind w = 0 ∧ st !! (p, 0) = None ∨ mutation_kind w = 1) →
  mutation_at w (st !! (p, 0)) = Some (q, v) →
  run_inv (ms ++ [w]) (<[(p, 0) := (q, v)]> st) top.
Proof.
  intros IH Hm Hav Ht Hk Heq.
  assert (∀ x, x ∈ at_key (p, 0) ms → mutation_kind x ≤ 1 ∧ is_Some (st !! (p, 0))) as Hx.
  { intros x Hx. by eapply ri_averaged. }
  eapply run_inv_snoc; [exact IH|exact Ht|exact Hm|..].
  - intros k Hne. by rewrite lookup_insert_ne.
  - by rewrite lookup_insert_eq, Heq.
  - done.
  - apply Forall_forall. intros x Hin. destruct (Hx x Hin) as [? [y Hy]]. unfold kind_le.
    destruct Hk as [[? Hk]|?]; [congruence|lia].
  - destruct Hk as [[Hw Hnone]|?]; [right|left; unfold is_insert; lia].
    assert (at_key (p, 0) ms = []) as Hnil.
    { apply elem_of_nil_inv. intros x Hin. destruct (Hx x Hin) as [_ [y Hy]]. congruence. }
    split; [done|]. destruct (ri_life _ _ _ IH (p, 0)) as [Hf _ _ _].
    rewrite Hnil in Hf. cbn in Hf. congruence.
  - intros. exfalso. by eapply layered_not_averaged.
  - intros _. rewrite lookup_insert_eq. split; [|by eexists]. destruct Hk as [[??]|?]; lia.
Qed.

Lemma produced_inv ms st top : produced method st0 top0 ms st top → run_inv ms st top.
Proof.
  induction 1 as [|ms st top top' _ IH Htop|ms st top top' p m l q u i _ IH Hm Hl Hfresh Htop
                 |ms st top p m l q0 u q _ IH Hm Hl Hst|ms st top p m l _ IH Hm Hl Hst
                 |ms st top p m q v i _ IH Hm Hav Hst|ms st top p m q v i _ IH Hm Hav Hst].
  - split; [|by intros ? ? ? ? ? ? ?%elem_of_nil..|done].
    intros k. by split; [|constructor| |constructor].
  - destruct IH as [Hl Hlay Hav Ht]. split; [done| |done|].
    + intros p m l w Hm Hlm Hw. destruct (Hlay _ _ _ _ Hm Hlm Hw). specialize (Htop p). split; [lia|done].
    + intros p. specialize (Htop p). specialize (Ht p). lia.
  - by eapply run_inv_receipt.
  - eapply run_inv_touch; [exact IH|exact Hm|done|by rewrite Hst|done|cbn; lia|..].
    + intros k Hk. by rewrite lookup_insert_ne.
    + by rewrite lookup_insert_eq, Hst.
  - eapply run_inv_touch; [exact IH|exact Hm|done|done|done|cbn; lia|..].
    + intros k Hk. by rewrite lookup_delete_ne.
    + by rewrite lookup_delete_eq.
  - eapply run_inv_average; [exact IH|exact Hm|done|done|by left|done].
  - eapply run_inv_average; [exact IH|exact Hm|done|done|by right|done].
Qed.
End lives.

(** * Deduplication and the batches, key by key *)
Lemma at_key_keep_last k ms : at_key k (keep_last ms) = keep_last (at_key k ms).
Proof.
  induction ms as [|m ms IH]; [done|]. cbn [keep_last].
  assert (mutation_target m = k →
          (mutation_key m ∈ map mutation_key ms ↔ mutation_key m ∈ map mutation_key (at_key k ms)))
    as Hin.
  { intros Hk. rewrite !list_elem_of_fmap. split; intros (x & Hx & Hm); exists x; (split; [done|]).
    - apply list_elem_of_filter. split; [|done]. unfold mutation_key in Hx. congruence.
    - by apply list_elem_of_filter in Hm as [_ ?]. }
  unfold at_key at 2. rewrite filter_cons. fold (at_key k ms).
  destruct (decide (mutation_target m = k)) as [Hk|Hk].
  - cbn [keep_last]. specialize (Hin Hk).
    destruct (decide (mutation_key m ∈ map mutation_key ms)).
    + rewrite decide_True by tauto. done.
    + rewrite decide_False by tauto. unfold at_key at 1. rewrite filter_cons, decide_True by done.
      by f_equal.
  - rewrite <-IH. case_decide; [done|]. unfold at_key at 1. by rewrite filter_cons, decide_False.
Qed.

(** In a life, dropping all but the last mutation of each kind changes nothing. *)
Lemma same_kind_overwrites m m' o :
  mutation_kind m = mutation_kind m' → ¬ is_insert m →
  mutation_at m' (mutation_at m o) = mutation_at m' o.
Proof. destruct m, m'; cbn; intros; try done; by destruct o. Qed.

Lemma keep_last_life k a ws :
  Forall (λ m, mutation_target m = k) ws → StronglySorted kind_le ws →
  Forall (λ m, ¬ is_insert m) (tail ws) →
  foldl (λ o m, mutation_at m o) a (keep_last ws) = foldl (λ o m, mutation_at m o) a ws.
Proof.
  intros Hk Hs. revert a. induction Hs as [|m ws Hs IH Hle]; intros a Ht; [done|].
  inversion_clear Hk as [|?? Hm Hws]. cbn [tail keep_last] in *.
  assert (∀ a, foldl (λ o m, mutation_at m o) a (keep_last ws) =
               foldl (λ o m, mutation_at m o) a ws) as IH'.
  { intros. apply IH; [done|]. destruct ws; [constructor|]. by inversion_clear Ht. }
  case_decide as Hin; cbn [foldl]; rewrite IH'; [|done].
  apply list_elem_of_fmap in Hin as (x & Hkey & Hx). destruct ws as [|m' ws]; [by apply elem_of_nil in Hx|].
  cbn [foldl]. f_equal. symmetry.
  assert (mutation_kind m = mutation_kind m') as Hkk.
  { injection Hkey as Hkind _. rewrite Forall_cons in Hle. destruct Hle as [Hle _].
    apply elem_of_cons in Hx as [->|Hx]; [done|]. inversion_clear Hs as [|?? _ Hm'].
    rewrite Forall_forall in Hm'. specialize (Hm' x Hx). unfold kind_le in *. lia. }
  apply same_kind_overwrites; [done|]. inversion_clear Ht. unfold is_insert in *. lia.
Qed.

Lemma keep_last_distinct ms : NoDup (map mutation_key (keep_last ms)).
Proof.
  induction ms as [|m ms IH]; cbn; [constructor|]. case_decide as Hin; [done|].
  cbn. constructor; [|done]. intros (x & Hx & Hk)%list_elem_of_fmap. apply Hin.
  rewrite Hx. by apply list_elem_of_fmap_2, keep_last_submseteq.
Qed.

(** * The batches of a mutation list *)
Definition ins_view (m : PoolStateMutation) : option (Z * Z * (Z * Z)) :=
  match m with Insert p l q u _ => Some (p, l, (q, u)) | _ => None end.
Definition up_view (m : PoolStateMutation) : option (Z * Z * (Z * Z)) :=
  match m with Upsert p l q u _ => Some (p, l, (q, u)) | _ => None end.
Definition upd_view (m : PoolStateMutation) : option (Z * Z * Z) :=
  match m with Update p l q => Some (p, l, q) | _ => None end.
Definition del_view (m : PoolStateMutation) : option (Z * Z) :=
  match m with Delete p l => Some (p, l) | _ => None end.
Definition row_view (kr : Z * Z * StateRow) : Z * Z * (Z * Z) := (kr.1, state_val kr.2).

Lemma batch_mutations_views ms ids :
  Forall (idx_below (length ids)) ms →
  ∃ b, batch_mutations ms ids = Some b ∧
    map row_view (bt_ins b) = omap ins_view ms ∧ map row_view (bt_up b) = omap up_view ms ∧
    bt_upd b = omap upd_view ms ∧ bt_del b = omap del_view ms.
Proof.
  induction 1 as [|m ms Hm _ (b & Hb & H1 & H2 & H3 & H4)]; [by eexists|].
  cbn [batch_mutations]. rewrite Hb.
  destruct m as [p l q u i|p l q u i|p l q|p l]; cbn in *;
    try (apply lookup_lt_is_Some_2 in Hm as [last Hlast]; rewrite Hlast);
    (eexists; split; [reflexivity|]; cbn; rewrite ?H1, ?H2, ?H3, ?H4; done).
Qed.

(** What each statement does to one key. *)
Definition set_at (k : Z * Z) (o : option (Z * Z)) (kv : Z * Z * (Z * Z)) : option (Z * Z) :=
  if decide (kv.1 = k) then Some kv.2 else o.
Definition requantify_at (k : Z * Z) (o : option (Z * Z)) (kq : Z * Z * Z) : option (Z * Z) :=
  if decide (kq.1 = k) then (λ v, (kq.2, v.2)) <$> o else o.
Definition delete_at (k : Z * Z) (o : option (Z * Z)) (k' : Z * Z) : option (Z * Z) :=
  if decide (k' = k) then None else o.

Lemma set_states_at (rows : list (Z * Z * StateRow)) (m : gmap (Z * Z) StateRow) k :
  state_val <$> (foldl (λ m kr, <[kr.1 := kr.2]> m) m rows !! k) =
    foldl (set_at k) (state_val <$> m !! k) (map row_view rows).
Proof.
  revert m. induction rows as [|[k' r] rows IH]; intros m; [done|]. cbn [foldl map].
  rewrite IH. f_equal. unfold set_at, row_view. cbn.
  rewrite lookup_insert. by case_decide.
Qed.

Lemma insert_states_Ok (rows : list (Z * Z * StateRow)) m :
  NoDup (map fst rows) → (∀ kr, kr ∈ rows → m !! kr.1 = None) →
  insert_states rows m = Ok (foldl (λ m kr, <[kr.1 := kr.2]> m) m rows).
Proof.
  revert m. induction rows as [|[k r] rows IH]; intros m Hnd Hnone; [done|]. cbn in *.
  apply NoDup_cons in Hnd as [Hk Hnd].
  assert (m !! k = None) as -> by (apply (Hnone (k, r)); by left).
  apply IH; [done|]. intros kr Hkr. rewrite lookup_insert_ne.
  - apply Hnone. by right.
  - intros ->. apply Hk. by apply list_elem_of_fmap_2.
Qed.

Lemma update_states_at (rows : list (Z * Z * Z)) (m : gmap (Z * Z) StateRow) k :
  state_val <$> (foldl (λ m kq, alter (set_state_qty kq.2) kq.1 m) m rows !! k) =
    foldl (requantify_at k) (state_val <$> m !! k) rows.
Proof.
  revert m. induction rows as [|[k' q] rows IH]; intros m; [done|]. cbn [foldl].
  rewrite IH. f_equal. unfold requantify_at. cbn. rewrite lookup_alter.
  case_decide; [subst|done]. by destruct (m !! k).
Qed.

Lemma delete_states_at keys m k :
  state_val <$> (delete_states keys m !! k) = foldl (delete_at k) (state_val <$> m !! k) keys.
Proof.
  unfold delete_states. revert m. induction keys as [|k' keys IH]; intros m; [done|]. cbn [foldl].
  rewrite IH. f_equal. unfold delete_at. rewrite lookup_delete. by case_decide.
Qed.

(** A statement's effect on a key is that of the mutations of its kind there. *)
Definition of_kind (c : Z) (ms : list PoolStateMutation) : list PoolStateMutation :=
  filter (λ m, mutation_kind m = c) ms.
Abbreviation replay := (foldl (λ o m, mutation_at m o)).

Ltac fold_view k ms o :=
  let m := fresh "m" in let IH := fresh "IH" in
  revert o; induction ms as [|m ? IH]; intros o; [done|];
  unfold at_key, of_kind in *; rewrite filter_cons;
  destruct m; cbn [omap list_omap ins_view up_view upd_view del_view];
  cbn [foldl mutation_target]; try unfold set_at at 2; try unfold requantify_at at 2; try unfold delete_at at 2;
  cbn [fst snd];
  case_decide; rewrite ?filter_cons; cbn [mutation_kind]; try rewrite decide_True by done;
  try rewrite decide_False by done; cbn [foldl mutation_at]; apply IH.

Lemma ins_view_at k ms o :
  foldl (set_at k) o (omap ins_view ms) = replay o (of_kind 0 (at_key k ms)).
Proof. fold_view k ms o. Qed.
Lemma up_view_at k ms o :
  foldl (set_at k) o (omap up_view ms) = replay o (of_kind 1 (at_key k ms)).
Proof. fold_view k ms o. Qed.
Lemma upd_view_at k ms o :
  foldl (requantify_at k) o (omap upd_view ms) = replay o (of_kind 2 (at_key k ms)).
Proof. fold_view k ms o. Qed.
Lemma del_view_at k ms o :
  foldl (delete_at k) o (omap del_view ms) = replay o (of_kind 3 (at_key k ms)).
Proof. fold_view k ms o. Qed.

(** Grouped by kind, a sorted list is itself. *)
Lemma of_kind_nil c ms : Forall (λ m, mutation_kind m ≠ c) ms → of_kind c ms = [].
Proof.
  induction 1 as [|m ms Hm _ IH]; [done|]. unfold of_kind in *. by rewrite filter_cons, decide_False.
Qed.
Lemma group_sorted ws :
  StronglySorted kind_le ws → of_kind 0 ws ++ of_kind 1 ws ++ of_kind 2 ws ++ of_kind 3 ws = ws.
Proof.
  induction 1 as [|w ws Hs IH Hle]; [done|].
  assert (∀ c, c < mutation_kind w → of_kind c ws = []) as Hnil.
  { intros c Hc. apply of_kind_nil. eapply Forall_impl; [exact Hle|]. unfold kind_le. lia. }
  unfold of_kind in *. rewrite !filter_cons. pose proof (kind_bounds w).
  repeat case_decide; try lia; rewrite ?Hnil by lia; cbn; f_equal;
    rewrite ?Hnil in IH by lia; cbn in IH; try done.
Qed.

Lemma keep_last_sorted ws : StronglySorted kind_le ws → StronglySorted kind_le (keep_last ws).
Proof.
  induction 1 as [|w ws Hs IH Hle]; [constructor|]. cbn. case_decide; [done|]. constructor; [done|].
  apply Forall_forall. intros x Hx%keep_last_submseteq. rewrite Forall_forall in Hle. by apply Hle.
Qed.

Lemma view_keys_NoDup {A} (view : PoolStateMutation → option (Z * Z * A)) c ms :
  (∀ m kv, view m = Some kv → mutation_kind m = c ∧ mutation_target m = kv.1) →
  NoDup (map mutation_key ms) → NoDup (map fst (omap view ms)).
Proof.
  intros Hv. induction ms as [|m ms IH]; [constructor|]. cbn. intros [Hm Hnd]%NoDup_cons.
  destruct (view m) as [kv|] eqn:E; [|by apply IH]. cbn. constructor; [|by apply IH].
  intros (kv' & Hk & (m' & Hm' & E')%list_elem_of_omap)%list_elem_of_fmap. apply Hm.
  apply Hv in E as [Hc Ht]. apply Hv in E' as [Hc' Ht'].
  apply list_elem_of_fmap. exists m'. split; [|done]. unfold mutation_key. congruence.
Qed.

(** Inserted keys are absent before the batch. *)
Lemma life_insert_absent a ws z m : key_life a ws z → m ∈ ws → is_insert m → a = None.
Proof.
  intros [_ _ Hi Ht] Hm Hins. destruct ws as [|w ws]; [by apply elem_of_nil in Hm|].
  apply elem_of_cons in Hm as [->|Hm]; [by eapply Hi|].
  cbn in Ht. rewrite Forall_forall in Ht. by destruct (Ht m Hm).
Qed.

Lemma batches_refine (ms : list PoolStateMutation) (ids : list Z) (m : gmap (Z * Z) StateRow) (st : PoolMap) :
  (∀ k, key_life (state_val <$> m !! k) (at_key k ms) (st !! k)) →
  Forall (idx_below (length ids)) (keep_last ms) →
  ∃ b m', batch_mutations (keep_last ms) ids = Some b ∧ run_batches b m = Ok m' ∧
    ∀ k, state_val <$> (m' !! k) = st !! k.
Proof.
  intros Hlife Hidx. destruct (batch_mutations_views _ _ Hidx) as (b & Hb & H1 & H2 & H3 & H4).
  pose proof (keep_last_distinct ms) as Hnd.
  assert (∀ (rows : list (Z * Z * StateRow)), map fst rows = map fst (map row_view rows)) as Hfst.
  { intros rows. rewrite map_map. by apply map_ext. }
  assert (NoDup (map fst (bt_ins b))) as N1.
  { rewrite Hfst, H1. apply view_keys_NoDup with 0; [|done]. by intros [] ? [= <-]. }
  assert (NoDup (map fst (bt_up b))) as N2.
  { rewrite Hfst, H2. apply view_keys_NoDup with 1; [|done]. by intros [] ? [= <-]. }
  assert (NoDup (map fst (bt_upd b))) as N3.
  { rewrite H3. apply view_keys_NoDup with 2; [|done]. by intros [] ? [= <-]. }
  assert (∀ kr, kr ∈ bt_ins b → m !! kr.1 = None) as Habs.
  { intros [k r] Hkr. apply (list_elem_of_fmap_2 row_view) in Hkr.
    change (row_view <$> bt_ins b) with (map row_view (bt_ins b)) in Hkr. rewrite H1 in Hkr.
    apply list_elem_of_omap in Hkr as (x & Hx%keep_last_submseteq & Hv).
    cbn. specialize (Hlife k). apply fmap_None with state_val.
    destruct x; cbn in Hv; unfold row_view in Hv; cbn in Hv; simplify_eq.
    eapply life_insert_absent; [exact Hlife|apply list_elem_of_filter; by split; [|exact Hx]|done]. }
  eexists b, _. split; [done|]. split.
  - unfold run_batches. rewrite insert_states_Ok by done. unfold mbind, Res_bind.
    unfold upsert_states. rewrite decide_True by done.
    unfold update_states. by rewrite decide_True.
  - intros k. rewrite delete_states_at, update_states_at, !set_states_at, H1, H2, H3, H4.
    rewrite ins_view_at, up_view_at, upd_view_at, del_view_at, <-!foldl_app, <-?app_assoc.
    rewrite at_key_keep_last. destruct (Hlife k) as [Hf Hs _ Ht].
    rewrite group_sorted by (by apply keep_last_sorted).
    rewrite (keep_last_life k); [done| |done|done].
    apply Forall_forall. by intros x [? _]%list_elem_of_filter.
Qed.

