(* ===== verification/V3Commit.v ===== *)
(** Writing a plan to the database it was planned from: the bulk write succeeds
    on a fresh document and leaves the tables in step with the planning snapshot. *)
From S2P Require Import Prelude V3Plan V3Layered V3Wac V3Method V3Books V3Db V3Hydrate V3Refine.

(** * Runs of [mapM_tx] *)
Definition fresh_ids (last : Z) (n : nat) : list Z := map (λ i, last + 1 + Z.of_nat i) (seq 0 n).

Lemma fresh_ids_S last n : fresh_ids last (S n) = (last + 1) :: fresh_ids (last + 1) n.
Proof.
  unfold fresh_ids. cbn [seq map]. f_equal; [lia|].
  rewrite <-seq_shift, map_map. apply map_ext. intros. lia.
Qed.
Lemma fresh_ids_length last n : length (fresh_ids last n) = n.
Proof. unfold fresh_ids. by rewrite length_map, length_seq. Qed.
Lemma fresh_ids_lookup last n i : (i < n)%nat → fresh_ids last n !! i = Some (last + 1 + Z.of_nat i).
Proof.
  intros. unfold fresh_ids. change (map ?f ?l) with (f <$> l).
  by rewrite list_lookup_fmap, lookup_seq_lt.
Qed.

(** A run of reads. *)
Lemma mapM_tx_reads {A B} (f : A → Tx B) (h : A → B) l d :
  (∀ a, a ∈ l → f a d = (Ok (h a), d)) → mapM_tx f l d = (Ok (map h l), d).
Proof.
  induction l as [|a l IH]; intros Hf; [done|]. cbn.
  rewrite (SE_bind_run _ _ _ _ _ (Hf a ltac:(by left))).
  rewrite (SE_bind_run _ _ _ _ _ (IH (λ b Hb, Hf b ltac:(by right)))). done.
Qed.
Lemma mapM_tx_indexed {A} (f : A → Tx Z) last l d :
  (∀ i a, l !! i = Some a → f a d = (Ok (last + 1 + Z.of_nat i), d)) →
  mapM_tx f l d = (Ok (fresh_ids last (length l)), d).
Proof.
  revert last. induction l as [|a l IH]; intros last Hf; [done|]. cbn [length]. rewrite fresh_ids_S.
  cbn [mapM_tx]. erewrite SE_bind_run by (apply (Hf 0%nat); done).
  erewrite SE_bind_run; last first.
  { apply (IH (last + 1)). intros i b Hi. rewrite (Hf (S i)) by done.
    by replace (last + 1 + Z.of_nat (S i)) with (last + 1 + 1 + Z.of_nat i) by lia. }
  by replace (last + 1 + Z.of_nat 0) with (last + 1) by lia.
Qed.

(** * Transaction lines *)
Definition out_key (o : TrxLineOutput) : Z * Z := (out_pool_id o, out_trx_seq o).
Definition line_key (r : LineRow) : Z * Z := (tl_pool_id r, tl_trx_seq r).
Definition add_lines (trx_id : Z) (outs : list TrxLineOutput) (d : Db) : Db :=
  foldl (λ d o, add_trx_line (line_row trx_id o) d) d outs.
Definition keys_fresh (outs : list TrxLineOutput) (d : Db) : Prop :=
  NoDup (map out_key outs) ∧
  ∀ o, o ∈ outs → map_Forall (λ _ r, line_key r ≠ out_key o) (db_trx_line d).

Definition returned_rows (last : Z) (outs : list TrxLineOutput) : list (Z * Z * Z) :=
  zip_with (λ i o, (i, out_pool_id o, out_trx_seq o)) (fresh_ids last (length outs)) outs.

Lemma insert_lines_run trx_id outs d :
  keys_fresh outs d →
  mapM_tx (λ o, insert_trx_line_row (line_row trx_id o)) outs d =
    (Ok (returned_rows (db_trx_line_last d) outs), add_lines trx_id outs d).
Proof.
  revert d. induction outs as [|o outs IH]; intros d [Hnd Hf]; [done|].
  cbn in Hnd. apply NoDup_cons in Hnd as [Ho Hnd]. cbn [mapM_tx].
  erewrite SE_bind_run; last first.
  { unfold insert_trx_line_row. erewrite SE_bind_run by done. cbv beta.
    rewrite bool_decide_eq_true_2 by (apply (Hf o); by left). reflexivity. }
  erewrite SE_bind_run; last first.
  { apply IH. split; [done|]. intros o' Ho'. apply map_Forall_insert_2.
    - cbn. intros Heq. apply Ho. unfold line_key in Heq. cbn in Heq.
      change (out_pool_id o, out_trx_seq o) with (out_key o) in Heq. rewrite Heq.
      by apply list_elem_of_fmap_2.
    - apply Hf. by right. }
  unfold returned_rows. cbn [length]. rewrite fresh_ids_S. done.
Qed.

Lemma foldl_insert_lookup {V} (kvs : list (Z * Z * V)) (m : gmap (Z * Z) V) k v :
  NoDup (map fst kvs) → (k, v) ∈ kvs → foldl (λ m kv, <[kv.1 := kv.2]> m) m kvs !! k = Some v.
Proof.
  revert m. induction kvs as [|[k' v'] kvs IH]; intros m Hnd Hin; [by apply elem_of_nil in Hin|].
  cbn in Hnd. apply NoDup_cons in Hnd as [Hk Hnd]. cbn [foldl].
  apply elem_of_cons in Hin as [[= <- <-]|Hin]; [|by apply IH].
  clear IH. assert (∀ m : gmap (Z * Z) V, m !! k = Some v →
    foldl (λ m kv, <[kv.1 := kv.2]> m) m kvs !! k = Some v) as Hgen; [|by apply Hgen, lookup_insert_eq].
  induction kvs as [|[k' v'] kvs IH]; intros m' Hm'; [done|]. cbn in *.
  apply not_elem_of_cons in Hk as [Hkk Hk]. apply NoDup_cons in Hnd as [_ Hnd].
  apply IH; [done|done|]. by rewrite lookup_insert_ne.
Qed.

(** The defensive remap of RETURNING rows recovers the ids in input order. *)
Lemma remap_lookup last outs i o :
  NoDup (map out_key outs) → outs !! i = Some o →
  foldl (λ (m : gmap (Z * Z) Z) row, <[(row.1.2, row.2) := row.1.1]> m) ∅
    (returned_rows last outs) !! out_key o = Some (last + 1 + Z.of_nat i).
Proof.
  intros Hnd Hi.
  set (kvs := zip_with (λ i o, (out_key o, i)) (fresh_ids last (length outs)) outs).
  assert (foldl (λ (m : gmap (Z * Z) Z) row, <[(row.1.2, row.2) := row.1.1]> m) ∅
            (returned_rows last outs) = foldl (λ m kv, <[kv.1 := kv.2]> m) ∅ kvs) as ->.
  { unfold returned_rows, kvs. generalize (fresh_ids last (length outs)) as ids.
    generalize (∅ : gmap (Z * Z) Z) as m. clear. induction outs as [|o outs IH];
      by intros m [|x ids]; cbn. }
  apply foldl_insert_lookup.
  - assert (map fst kvs = map out_key outs) as ->; [|done]. unfold kvs.
    assert (length (fresh_ids last (length outs)) = length outs) as Hlen by apply fresh_ids_length.
    revert Hlen. generalize (fresh_ids last (length outs)) as ids. clear.
    induction outs as [|o outs IH]; intros [|x ids] Hlen; cbn in *; try done. f_equal. apply IH. lia.
  - apply list_elem_of_lookup. exists i. unfold kvs. rewrite lookup_zip_with, Hi.
    rewrite fresh_ids_lookup by (by eapply lookup_lt_Some). done.
Qed.

Lemma add_lines_last trx_id outs d :
  db_trx_line_last (add_lines trx_id outs d) = db_trx_line_last d + Z.of_nat (length outs).
Proof.
  revert d. induction outs as [|o outs IH]; intros d; cbn; [lia|].
  unfold add_lines in *. rewrite IH. cbn. lia.
Qed.

Lemma add_lines_lookup trx_id outs d j r :
  map_Forall (λ i _, i ≤ db_trx_line_last d) (db_trx_line d) →
  db_trx_line (add_lines trx_id outs d) !! j = Some r ↔
    db_trx_line d !! j = Some r ∨
    ∃ i o, outs !! i = Some o ∧ j = db_trx_line_last d + 1 + Z.of_nat i ∧ r = line_row trx_id o.
Proof.
  revert d. induction outs as [|o outs IH]; intros d Hd; [cbn; naive_solver|].
  cbn [add_lines foldl]. change (foldl _ ?x outs) with (add_lines trx_id outs x). rewrite IH.
  2:{ cbn. apply map_Forall_insert_2; [lia|]. eapply map_Forall_impl; [exact Hd|]. cbn. lia. }
  cbn. rewrite lookup_insert_Some. split.
  - intros [[[<- <-]|[_ Hr]]|(i & o' & Ho & -> & ->)].
    + right. exists 0%nat, o. split_and!; [done|lia|done].
    + by left.
    + right. exists (S i), o'. split_and!; [done|lia|done].
  - intros [Hr|([|i] & o' & Ho & -> & ->)].
    + left. right. split; [|done]. specialize (Hd _ _ Hr). cbn in Hd. lia.
    + cbn in Ho. simplify_eq. left. left. split; [lia|done].
    + cbn in Ho. right. exists i, o'. split_and!; [done|lia|done].
Qed.

(** Inserting lines touches only the line table. *)
Record same_but_lines (d d' : Db) : Prop := {
  sl_account : db_account d' = db_account d;
  sl_pool : db_pool d' = db_pool d;
  sl_state : db_pool_state d' = db_pool_state d;
  sl_trx : db_trx d' = db_trx d ∧ db_trx_last d' = db_trx_last d;
  sl_post : db_posting_line d' = db_posting_line d ∧ db_posting_last d' = db_posting_last d;
  sl_prov : db_provisional d' = db_provisional d ∧ db_provisional_last d' = db_provisional_last d;
}.
Lemma add_lines_frame trx_id outs d : same_but_lines d (add_lines trx_id outs d).
Proof.
  revert d. induction outs as [|o outs IH]; intros d; [by split|].
  cbn. change (foldl _ ?x outs) with (add_lines trx_id outs x).
  destruct (IH (add_trx_line (line_row trx_id o) d)). by split.
Qed.

Definition references_ok (outs : list TrxLineOutput) (d : Db) : Prop :=
  Forall (λ o, is_Some (db_pool d !! out_pool_id o)) outs ∧
  Forall (λ o, ∀ i, out_source_trx_line_id o = Some i → is_Some (db_trx_line d !! i)) outs.

Lemma insert_trx_lines_unfold trx_id outs d :
  insert_trx_lines trx_id outs d =
    (returned ← mapM_tx (λ o, insert_trx_line_row (line_row trx_id o)) outs;
     iterM (λ o, check_line_references (line_row trx_id o)) outs;;
     mapM_tx (λ o, match foldl (λ (m : gmap (Z * Z) Z) row, <[(row.1.2, row.2) := row.1.1]> m) ∅
                           returned !! (out_pool_id o, out_trx_seq o) with
                   | Some id => mret id
                   | None => throw (RustPanicked "trx_line RETURNING dropped a row")
                   end) outs) d.
Proof. by destruct outs. Qed.

Lemma insert_trx_lines_run trx_id outs d :
  map_Forall (λ i _, i ≤ db_trx_line_last d) (db_trx_line d) →
  keys_fresh outs d → references_ok outs d →
  insert_trx_lines trx_id outs d =
    (Ok (fresh_ids (db_trx_line_last d) (length outs)), add_lines trx_id outs d).
Proof.
  intros Hd Hf [Hp Hs]. rewrite insert_trx_lines_unfold.
  rewrite (SE_bind_run _ _ _ _ _ (insert_lines_run trx_id outs d Hf)).
  assert (iterM (λ o, check_line_references (line_row trx_id o)) outs (add_lines trx_id outs d) =
          (Ok tt, add_lines trx_id outs d)) as Hrefs.
  { apply iterM_reads. intros o Ho. unfold check_line_references.
    erewrite SE_bind_run by done. cbv beta. destruct (add_lines_frame trx_id outs d) as [_ Hpool _ _ _ _].
    rewrite Forall_forall in Hp, Hs. unfold id. cbn [line_row tl_pool_id tl_source_trx_line_id].
    rewrite Hpool, bool_decide_eq_true_2 by (by apply Hp).
    destruct (out_source_trx_line_id o) as [i|] eqn:Hi; [|done].
    rewrite bool_decide_eq_true_2; [done|].
    destruct (Hs o Ho i Hi) as [r Hr]. exists r. apply add_lines_lookup; [done|]. by left. }
  rewrite (SE_bind_run _ _ _ _ _ Hrefs).
  apply mapM_tx_indexed. intros i o Hi.
  change (out_pool_id o, out_trx_seq o) with (out_key o).
  rewrite (remap_lookup _ outs i o); [done|apply Hf|done].
Qed.

(** * Postings and provisional flags *)
Definition add_postings (rows : list PostingRow) (d : Db) : Db := foldl (λ d r, add_posting r d) d rows.
Definition add_provisionals (rows : list ProvisionalRow) (d : Db) : Db :=
  foldl (λ d r, add_provisional r d) d rows.
Definition nth_id (ids : list Z) (i : nat) : Z := default 0 (ids !! i).
Definition posting_rows (ids : list Z) (reqs : list PostingLineRequest) : list PostingRow :=
  map (λ r, posting_row (nth_id ids (pst_trx_line_idx r)) r) reqs.
Definition provisional_rows (ids : list Z) (reqs : list ProvisionalPostingRequest)
    : list ProvisionalRow :=
  map (λ p, {| pv_posting_line_id := nth_id ids (prov_posting_line_idx p);
               pv_pool_id := prov_pool_id p; pv_qty := prov_qty p;
               pv_provisional_amount := prov_provisional_amount p |}) reqs.

Lemma insert_posting_rows_run rows d :
  Forall (λ r, pr_debit_account r ∈ db_account d ∧ pr_credit_account r ∈ db_account d) rows →
  mapM_tx insert_posting_row rows d =
    (Ok (fresh_ids (db_posting_last d) (length rows)), add_postings rows d).
Proof.
  revert d. induction rows as [|r rows IH]; intros d Hacc; [done|].
  apply Forall_cons in Hacc as [[H1 H2] Hacc]. cbn [mapM_tx length]. rewrite fresh_ids_S.
  erewrite SE_bind_run; last first.
  { unfold insert_posting_row. erewrite SE_bind_run by done. cbv beta. unfold id.
    rewrite !bool_decide_eq_true_2 by done. reflexivity. }
  by erewrite SE_bind_run by (by apply IH).
Qed.

Lemma insert_posting_lines_run reqs ids d :
  Forall (λ r, (pst_trx_line_idx r < length ids)%nat) reqs →
  Forall (λ r, pst_debit_account r ∈ db_account d ∧ pst_credit_account r ∈ db_account d) reqs →
  insert_posting_lines reqs ids d =
    (Ok (fresh_ids (db_posting_last d) (length reqs)), add_postings (posting_rows ids reqs) d).
Proof.
  intros Hidx Hacc. unfold insert_posting_lines.
  erewrite SE_bind_run; last first.
  { apply (mapM_tx_reads _ (λ r, posting_row (nth_id ids (pst_trx_line_idx r)) r)).
    intros r Hr. rewrite Forall_forall in Hidx. specialize (Hidx r Hr).
    apply lookup_lt_is_Some_2 in Hidx as [x Hx]. unfold index_or_panic, nth_id. by rewrite Hx. }
  fold (posting_rows ids reqs). rewrite insert_posting_rows_run.
  - unfold posting_rows. by rewrite length_map.
  - unfold posting_rows. apply Forall_map. by eapply Forall_impl.
Qed.

Lemma add_postings_frame rows d :
  db_pool_state (add_postings rows d) = db_pool_state d ∧
  db_trx_line (add_postings rows d) = db_trx_line d ∧
  db_trx_line_last (add_postings rows d) = db_trx_line_last d ∧
  db_pool (add_postings rows d) = db_pool d ∧ db_account (add_postings rows d) = db_account d ∧
  db_trx (add_postings rows d) = db_trx d ∧ db_trx_last (add_postings rows d) = db_trx_last d ∧
  db_provisional (add_postings rows d) = db_provisional d ∧
  db_provisional_last (add_postings rows d) = db_provisional_last d ∧
  db_posting_last (add_postings rows d) = db_posting_last d + Z.of_nat (length rows) ∧
  (map_Forall (λ i _, i ≤ db_posting_last d) (db_posting_line d) →
   map_Forall (λ i _, i ≤ db_posting_last (add_postings rows d)) (db_posting_line (add_postings rows d))).
Proof.
  revert d. induction rows as [|r rows IH]; intros d; [cbn; split_and!; done || lia|].
  cbn [add_postings foldl]. change (foldl _ ?x rows) with (add_postings rows x).
  destruct (IH (add_posting r d)) as (-> & -> & -> & -> & -> & -> & -> & -> & -> & Hl & Hf).
  cbn in *. split_and!; try done.
  - rewrite Hl. lia.
  - intros Hd. apply Hf, map_Forall_insert_2; [lia|]. eapply map_Forall_impl; [exact Hd|]. cbn. lia.
Qed.

Lemma insert_provisionals_run reqs last n d :
  last + Z.of_nat n = db_posting_last d → NoDup (map prov_posting_line_idx reqs) →
  Forall (λ p, (prov_posting_line_idx p < n)%nat) reqs →
  map_Forall (λ _ r, pv_posting_line_id r ≤ last) (db_provisional d) →
  insert_provisional_postings reqs (fresh_ids last n) d =
    (Ok tt, add_provisionals (provisional_rows (fresh_ids last n) reqs) d).
Proof.
  intros Hlast Hnd Hidx Hold. unfold insert_provisional_postings.
  erewrite SE_bind_run; last first.
  { apply (mapM_tx_reads _ (λ p, {| pv_posting_line_id := nth_id (fresh_ids last n) (prov_posting_line_idx p);
               pv_pool_id := prov_pool_id p; pv_qty := prov_qty p;
               pv_provisional_amount := prov_provisional_amount p |})).
    intros p Hp. rewrite Forall_forall in Hidx. specialize (Hidx p Hp).
    unfold index_or_panic, nth_id. by rewrite fresh_ids_lookup. }
  fold (provisional_rows (fresh_ids last n) reqs). clear Hlast.
  assert (∀ p, p ∈ reqs → map_Forall (λ _ r, pv_posting_line_id r ≠
            last + 1 + Z.of_nat (prov_posting_line_idx p)) (db_provisional d)) as Hne.
  { intros p Hp. eapply map_Forall_impl; [exact Hold|]. cbn. lia. }
  clear Hold. revert d Hne. induction reqs as [|p reqs IH]; intros d Hne; [done|].
  cbn in Hnd. apply NoDup_cons in Hnd as [Hn Hnd]. apply Forall_cons in Hidx as [Hp Hidx].
  cbn [provisional_rows map iterM add_provisionals foldl].
  assert (nth_id (fresh_ids last n) (prov_posting_line_idx p) =
          last + 1 + Z.of_nat (prov_posting_line_idx p)) as Hid
    by (unfold nth_id; by rewrite fresh_ids_lookup).
  erewrite SE_bind_run; last first.
  { erewrite SE_bind_run by done. cbv beta. unfold id. cbn [pv_posting_line_id]. rewrite Hid.
    rewrite bool_decide_eq_true_2 by (apply Hne; by left). reflexivity. }
  rewrite <-Hid. apply IH; [done|done|]. intros p' Hp'. cbn. apply map_Forall_insert_2.
  - cbn. rewrite Hid. intros Heq. apply Hn.
    replace (prov_posting_line_idx p) with (prov_posting_line_idx p') by lia.
    by apply list_elem_of_fmap_2.
  - apply Hne. by right.
Qed.

Lemma add_provisionals_frame rows d :
  db_pool_state (add_provisionals rows d) = db_pool_state d ∧
  db_trx_line (add_provisionals rows d) = db_trx_line d ∧
  db_trx_line_last (add_provisionals rows d) = db_trx_line_last d ∧
  db_pool (add_provisionals rows d) = db_pool d ∧
  db_account (add_provisionals rows d) = db_account d ∧
  db_trx (add_provisionals rows d) = db_trx d ∧
  db_trx_last (add_provisionals rows d) = db_trx_last d ∧
  db_posting_line (add_provisionals rows d) = db_posting_line d ∧
  db_posting_last (add_provisionals rows d) = db_posting_last d ∧
  (∀ n, Forall (λ r, pv_posting_line_id r ≤ n) rows →
   map_Forall (λ i r, i ≤ db_provisional_last d ∧ pv_posting_line_id r ≤ n) (db_provisional d) →
   map_Forall (λ i r, i ≤ db_provisional_last (add_provisionals rows d) ∧ pv_posting_line_id r ≤ n)
     (db_provisional (add_provisionals rows d))).
Proof.
  revert d. induction rows as [|r rows IH]; intros d; [by cbn; split_and!|].
  cbn [add_provisionals foldl]. change (foldl _ ?x rows) with (add_provisionals rows x).
  destruct (IH (add_provisional r d)) as (-> & -> & -> & -> & -> & -> & -> & -> & -> & Hf).
  cbn in *. split_and!; try done.
  intros n [Hr Hrs]%Forall_cons Hd. apply Hf; [done|]. apply map_Forall_insert_2; [lia|].
  eapply map_Forall_impl; [exact Hd|]. cbn. lia.
Qed.

(** * The ids the written pool rows carry *)
Lemma batch_mutations_ids ms ids b (Q : Z → Prop) :
  batch_mutations ms ids = Some b → Forall Q ids →
  Forall (λ kr, Q (ps_last_trx_line_id kr.2)) (bt_ins b) ∧
  Forall (λ kr, Q (ps_last_trx_line_id kr.2)) (bt_up b).
Proof.
  intros Hb HQ. revert b Hb. induction ms as [|m ms IH]; intros b; cbn.
  - intros [= <-]. split; constructor.
  - intros (b1 & Hb1 & Hm)%bind_Some. destruct (IH _ Hb1) as [H1 H2].
    rewrite Forall_lookup in HQ.
    destruct m; cbn in Hm; try (apply bind_Some in Hm as (last & Hl & Hm)); simplify_eq; cbn;
      (split; [|]); try done; (constructor; [|done]; cbn; by eapply HQ).
Qed.

Lemma map_Forall_foldl_insert (Q : StateRow → Prop) (rows : list (Z * Z * StateRow))
    (m : gmap (Z * Z) StateRow) :
  Forall (λ kr, Q kr.2) rows → map_Forall (λ _ r, Q r) m →
  map_Forall (λ _ r, Q r) (foldl (λ m kr, <[kr.1 := kr.2]> m) m rows).
Proof.
  intros Hr. revert m. induction Hr as [|[k r] rows Hk _ IH]; intros m Hm; [done|]. cbn.
  apply IH. by apply map_Forall_insert_2.
Qed.

Section last_ids.
Context (Q : Z → Prop).
Definition last_in (m : gmap (Z * Z) StateRow) : Prop :=
  map_Forall (λ _ r, Q (ps_last_trx_line_id r)) m.

Lemma insert_states_last (rows : list (Z * Z * StateRow)) m m' :
  Forall (λ kr, Q (ps_last_trx_line_id kr.2)) rows →
  insert_states rows m = Ok m' → last_in m → last_in m'.
Proof.
  intros Hr. revert m. induction Hr as [|[k r] rows Hk _ IH]; intros m; cbn.
  - by intros [= <-].
  - destruct (m !! k); [done|]. intros Hrun Hm. eapply IH; [exact Hrun|].
    by apply map_Forall_insert_2.
Qed.
Lemma update_states_last (rows : list (Z * Z * Z)) m :
  last_in m → last_in (foldl (λ m kq, alter (set_state_qty kq.2) kq.1 m) m rows).
Proof.
  revert m. induction rows as [|[k q] rows IH]; intros m Hm; [done|]. cbn. apply IH.
  intros k' r'. rewrite lookup_alter. case_decide; [|by apply Hm].
  intros (r & Hr & ->)%fmap_Some. cbn. exact (Hm _ _ Hr).
Qed.
Lemma delete_states_last keys m : last_in m → last_in (delete_states keys m).
Proof.
  unfold delete_states. revert m. induction keys as [|k ks IH]; intros m Hm; [done|]. cbn.
  apply IH. by apply map_Forall_delete.
Qed.

Lemma run_batches_last b m m' :
  run_batches b m = Ok m' →
  Forall (λ kr, Q (ps_last_trx_line_id kr.2)) (bt_ins b) →
  Forall (λ kr, Q (ps_last_trx_line_id kr.2)) (bt_up b) → last_in m → last_in m'.
Proof.
  unfold run_batches, upsert_states, update_states. intros H Hi Hu Hm. inv_run.
  repeat case_decide; simplify_eq. apply delete_states_last, update_states_last.
  apply (map_Forall_foldl_insert (λ r, Q (ps_last_trx_line_id r))); [done|].
  by refine (insert_states_last _ _ _ Hi _ Hm).
Qed.
End last_ids.

(** * Sequence numbers *)
Lemma elem_of_seqs_of p n outs :
  n ∈ seqs_of p outs ↔ ∃ o, o ∈ outs ∧ out_pool_id o = p ∧ out_trx_seq o = n.
Proof.
  unfold seqs_of. rewrite list_elem_of_omap. split.
  - intros (o & Ho & Hs). case_decide; simplify_eq. eauto.
  - intros (o & Ho & Hp & Hs). exists o. split; [done|]. rewrite decide_True by done. by f_equal.
Qed.

Lemma seqs_NoDup_keys outs : (∀ p, NoDup (seqs_of p outs)) → NoDup (map out_key outs).
Proof.
  induction outs as [|o outs IH]; intros H; [constructor|]. cbn. constructor.
  - intros (o' & Hk & Ho')%list_elem_of_fmap. specialize (H (out_pool_id o)).
    unfold seqs_of in H. cbn in H. rewrite decide_True in H by done.
    apply NoDup_cons in H as [Hn _]. apply Hn. apply elem_of_seqs_of. exists o'.
    unfold out_key in Hk. injection Hk as -> ->. done.
  - apply IH. intros p. specialize (H p). unfold seqs_of in H. cbn in H.
    case_decide; [|done]. by apply NoDup_cons in H as [_ ?].
Qed.

(** * Committing a plan *)
Definition document_fresh (ty : string) (src : Z) (d : Db) : Prop :=
  map_Forall (λ _ r, (trx_trx_type r, trx_source_id r) ≠ (ty, src)) (db_trx d).

Section commit.
Context (d : Db) (ids : list Z) (lines : list TrxLineRequest) (t : Timestamp).
Context (r : PlanResult) (s' : Snapshot) (ty : string) (src : Z).
Let s := hydrate_snapshot d ids.
Hypothesis Hwf : db_wf d.
Hypothesis Hplan : plan_apply s lines t = (Ok r, s').
Hypothesis Hty : ty ∈ trx_types.
Hypothesis Hdoc : document_fresh ty src d.
Hypothesis Hacc : Forall (λ po, pst_debit_account po ∈ db_account d ∧ pst_credit_account po ∈ db_account d)
                    (posting_lines r).

Let trx_row := {| trx_trx_type := ty; trx_source_id := src; trx_posted_at := t |}.
Let d1 := add_trx trx_row d.
Let d2 := add_lines (db_trx_last d + 1) (trx_lines r) d1.
Let line_ids := fresh_ids (db_trx_line_last d) (length (trx_lines r)).

Lemma hydrate_linked : rows_linked (λ i, is_Some (db_trx_line d !! i)) s.
Proof.
  intros p. unfold s. rewrite hydrate_rows. case_decide; [|constructor].
  apply Forall_forall. intros row (sr & Hsr & ->)%elem_of_pool_rows _. cbn.
  by apply (dw_last _ Hwf) in Hsr.
Qed.

Lemma plan_books :
  booked (method_of s) (max_seq s) (λ _, True) (λ i, is_Some (db_trx_line d !! i)) (s', r).
Proof. eapply plan_booked; [exact Hplan|by apply Forall_true|apply hydrate_linked]. Qed.

Lemma in_ids p : is_Some (method_of s !! p) → p ∈ ids ∧ is_Some (db_pool d !! p).
Proof.
  intros [m Hm]. unfold s in Hm. rewrite hydrate_method in Hm. case_decide; [|done].
  split; [done|]. unfold db_method in Hm. apply bind_Some in Hm as (? & ? & _). by eexists.
Qed.

Lemma plan_seq_above o :
  o ∈ trx_lines r → max_trx_seq d (out_pool_id o) < out_trx_seq o ≤ max_seq s' (out_pool_id o).
Proof.
  intros Ho. destruct plan_books as [_ _ Hseq Hpools _ _ _]. cbn in *.
  rewrite Forall_forall in Hpools. destruct (in_ids _ (Hpools o Ho)) as [Hin _].
  destruct (Hseq (out_pool_id o)) as [_ Hs].
  assert (out_trx_seq o ∈ seqs_of (out_pool_id o) (trx_lines r)) as H
    by (apply elem_of_seqs_of; eauto).
  rewrite Hs, elem_of_seqZ in H. unfold s in H. rewrite hydrate_max_seq, decide_True in H by done. lia.
Qed.

Lemma plan_keys_fresh : keys_fresh (trx_lines r) d1.
Proof.
  split.
  - apply seqs_NoDup_keys. intros p. destruct plan_books as [_ _ Hseq _ _ _ _]. cbn in Hseq.
    destruct (Hseq p) as [_ ->]. apply NoDup_seqZ.
  - intros o Ho i row Hrow Heq. cbn in Hrow. pose proof (plan_seq_above o Ho) as [Hlt _].
    unfold line_key, out_key in Heq. injection Heq as Hp Hq.
    destruct (max_trx_seq_spec d (out_pool_id o)) as [Hmax _]. specialize (Hmax _ _ Hrow Hp). lia.
Qed.

Lemma plan_references : references_ok (trx_lines r) d1.
Proof.
  destruct plan_books as [_ _ _ Hpools Hlinks _ _]. cbn in *. split; [|done].
  eapply Forall_impl; [exact Hpools|]. intros o Ho. by apply in_ids.
Qed.

Lemma lines_below : map_Forall (λ i _, i ≤ db_trx_line_last d1) (db_trx_line d1).
Proof. eapply map_Forall_impl; [apply (dw_line _ Hwf)|]. cbn. lia. Qed.

Lemma lines_run :
  insert_trx_lines (db_trx_last d + 1) (trx_lines r) d1 = (Ok line_ids, d2).
Proof. apply (insert_trx_lines_run _ _ d1); [apply lines_below|apply plan_keys_fresh|apply plan_references]. Qed.

(** The pool_state batches land in the state the snapshot shows. *)
Lemma states_run :
  ∃ m st, apply_pool_state_mutations (pool_state_mutations r) line_ids d2 =
            (Ok tt, set_pool_state m d2) ∧
    shows s' st ∧ (∀ k, state_val <$> (m !! k) = st !! k) ∧
    (∀ p l, method_of s !! p = None → state_val <$> (m !! (p, l)) = state_val <$> db_pool_state d !! (p, l)) ∧
    last_in (λ i, is_Some (db_trx_line d2 !! i)) m ∧ snapshot_wf s' ∧ method_of s' = method_of s.
Proof.
  destruct (plan_produced s lines t r s' (state_val <$> db_pool_state d)) as
    (ms & st & Hms & Hp & Hsh & Hswf & Hmeth);
    [exact Hplan|by apply hydrate_wf|by apply hydrate_shows|].
  pose proof (produced_inv (method_of s) (state_val <$> db_pool_state d) (max_seq s)
    (λ p m l, hydrate_layers_below d ids Hwf p m l) _ _ _ Hp) as [Hlife _ _ _].
  destruct (batches_refine ms line_ids (db_pool_state d) st) as (b & m & Hb & Hrun & Hval).
  { intros k. specialize (Hlife k). by rewrite lookup_fmap in Hlife. }
  { rewrite <-Hms. unfold line_ids. rewrite fresh_ids_length.
    destruct plan_books as [_ [Hix _ _ _] _ _ _ _ _]. exact Hix. }
  exists m, st. split_and!; [|done|done| | |done|done].
  - unfold apply_pool_state_mutations. rewrite Hms, Hb. unfold mbind, SE_bind, lift, ok_or, gets, id.
    destruct (add_lines_frame (db_trx_last d + 1) (trx_lines r) d1) as [_ _ Hstate _ _ _].
    fold d2 in Hstate. rewrite Hstate. cbn [db_pool_state add_trx d1]. by rewrite Hrun.
  - intros p l Hnone. rewrite Hval. destruct (Hlife (p, l)) as [Hf _ _ _].
    rewrite <-Hf, lookup_fmap. replace (at_key (p, l) ms) with (@nil PoolStateMutation); [done|].
    symmetry. apply elem_of_nil_inv. intros w [Ht Hw]%list_elem_of_filter.
    by eapply produced_pools in Hp as [? ?]; [|exact Hw|exact Ht]; congruence.
  - destruct (batch_mutations_ids _ _ _ (λ i, is_Some (db_trx_line d2 !! i)) Hb) as [Hi Hu].
    { apply Forall_lookup. intros j i Hj. unfold line_ids in Hj.
      pose proof (lookup_lt_Some _ _ _ Hj) as Hlt. rewrite fresh_ids_length in Hlt.
      rewrite fresh_ids_lookup in Hj by done. injection Hj as <-.
      destruct (lookup_lt_is_Some_2 (trx_lines r) j Hlt) as [o Ho].
      eexists. apply add_lines_lookup; [apply lines_below|]. right. eauto. }
    eapply run_batches_last; [exact Hrun|done|done|].
    intros k row Hrow. apply (dw_last _ Hwf) in Hrow as [lr Hlr]. exists lr.
    apply add_lines_lookup; [apply lines_below|]. by left.
Qed.

Lemma max_after p :
  max_trx_seq d2 p = if decide (p ∈ ids) then max_seq s' p else max_trx_seq d p.
Proof.
  assert (∀ j row, db_trx_line d2 !! j = Some row ↔ db_trx_line d !! j = Some row ∨
    ∃ i o, trx_lines r !! i = Some o ∧ j = db_trx_line_last d + 1 + Z.of_nat i ∧
           row = line_row (db_trx_last d + 1) o) as Hlk.
  { intros. apply (add_lines_lookup (db_trx_last d + 1) (trx_lines r) d1), lines_below. }
  destruct plan_books as [_ _ Hseq Hpools _ _ _]. cbn in Hseq, Hpools.
  destruct (Hseq p) as [Hle Hp]. unfold s in Hle, Hp. rewrite hydrate_max_seq in Hle, Hp.
  destruct (max_trx_seq_spec d p) as [Hmax Hatt].
  eapply is_max_seq_unique; [apply max_trx_seq_spec|]. split.
  - intros j row [Hrow|(i & o & Ho & _ & ->)]%Hlk Hpool.
    + specialize (Hmax _ _ Hrow Hpool). destruct (decide (p ∈ ids)); lia.
    + apply list_elem_of_lookup_2 in Ho. cbn in Hpool. subst p. pose proof (plan_seq_above o Ho).
      rewrite Forall_forall in Hpools. destruct (in_ids _ (Hpools o Ho)) as [Hin _].
      rewrite decide_True by done. cbn. lia.
  - assert (∀ o, o ∈ trx_lines r → out_pool_id o = p → p ∈ ids) as Hids.
    { intros o Ho <-. rewrite Forall_forall in Hpools. by apply in_ids, Hpools. }
    destruct (decide (p ∈ ids)) as [Hin|Hin].
    + destruct (decide (max_seq s' p = max_trx_seq d p)) as [Heq|Hne]; [rewrite Heq|].
      * destruct Hatt as [(j & row & Hj & ?)|[Hz Hno]]; [left; exists j, row; rewrite Hlk; eauto|].
        right. split; [done|]. intros j row [Hrow|(i & o & Ho & _ & ->)]%Hlk; [by eapply Hno|].
        cbn. intros Hpo. apply list_elem_of_lookup_2 in Ho. pose proof (plan_seq_above o Ho).
        assert (out_trx_seq o ∈ seqs_of p (trx_lines r)) as Hs by (apply elem_of_seqs_of; eauto).
        rewrite Hp, elem_of_seqZ in Hs. rewrite Hpo in *. lia.
      * assert (max_seq s' p ∈ seqs_of p (trx_lines r)) as Hs by (rewrite Hp, elem_of_seqZ; lia).
        apply elem_of_seqs_of in Hs as (o & Ho & Hpo & Hso).
        apply list_elem_of_lookup in Ho as [i Hi]. left.
        exists (db_trx_line_last d + 1 + Z.of_nat i), (line_row (db_trx_last d + 1) o).
        rewrite Hlk. split_and!; [right; eauto|done|done].
    + destruct Hatt as [(j & row & Hj & ?)|[Hz Hno]]; [left; exists j, row; rewrite Hlk; eauto|].
      right. split; [done|]. intros j row [Hrow|(i & o & Ho & _ & ->)]%Hlk; [by eapply Hno|].
      cbn. intros Hpo. apply Hin. eapply Hids; [by eapply list_elem_of_lookup_2|done].
Qed.

(** The tables after the whole write. *)
Definition committed (m : gmap (Z * Z) StateRow) : Db :=
  add_provisionals (provisional_rows (fresh_ids (db_posting_last d) (length (posting_lines r)))
                      (provisional_postings r))
    (add_postings (posting_rows line_ids (posting_lines r)) (set_pool_state m d2)).

Lemma write_runs m :
  apply_pool_state_mutations (pool_state_mutations r) line_ids d2 = (Ok tt, set_pool_state m d2) →
  apply_plan_result ty src t r d = (Ok (db_trx_last d + 1), committed m).
Proof.
  intros Hst. destruct plan_books as [_ [_ Hpi Hpv Hflag] _ _ _ _ _]. cbn in Hpi, Hpv, Hflag.
  destruct (add_lines_frame (db_trx_last d + 1) (trx_lines r) d1) as [Hda _ _ _ [_ Hdl] [Hdp _]].
  fold d2 in Hda, Hdl, Hdp. cbn in Hda, Hdl, Hdp.
  unfold apply_plan_result. erewrite SE_bind_run; last first.
  { unfold insert_trx. erewrite SE_bind_run by done. cbv beta. unfold id.
    rewrite !bool_decide_eq_true_2 by done. reflexivity. }
  fold trx_row d1. rewrite (SE_bind_run _ _ _ _ _ lines_run), (SE_bind_run _ _ _ _ _ Hst).
  erewrite SE_bind_run; last first.
  { apply insert_posting_lines_run.
    - unfold line_ids. by rewrite fresh_ids_length.
    - cbn. by rewrite Hda. }
  cbn [db_posting_last set_pool_state]. rewrite Hdl.
  erewrite SE_bind_run; [reflexivity|]. apply insert_provisionals_run; [|done|done|].
  - destruct (add_postings_frame (posting_rows line_ids (posting_lines r)) (set_pool_state m d2))
      as (_ & _ & _ & _ & _ & _ & _ & _ & _ & Hl & _).
    rewrite Hl. cbn. rewrite Hdl. unfold posting_rows. by rewrite length_map.
  - destruct (add_postings_frame (posting_rows line_ids (posting_lines r)) (set_pool_state m d2))
      as (_ & _ & _ & _ & _ & _ & _ & -> & _).
    cbn. rewrite Hdp. eapply map_Forall_impl; [apply (dw_prov _ Hwf)|]. cbn. naive_solver.
Qed.

Record commit_frame (m : gmap (Z * Z) StateRow) (d' : Db) : Prop := {
  cf_state : db_pool_state d' = m;
  cf_lines : db_trx_line d' = db_trx_line d2 ∧
             db_trx_line_last d' = db_trx_line_last d + Z.of_nat (length (trx_lines r));
  cf_pool : db_pool d' = db_pool d ∧ db_account d' = db_account d;
  cf_trx : db_trx d' = <[db_trx_last d + 1 := trx_row]> (db_trx d) ∧
           db_trx_last d' = db_trx_last d + 1;
  cf_post : map_Forall (λ i _, i ≤ db_posting_last d') (db_posting_line d');
  cf_prov : map_Forall (λ i v, i ≤ db_provisional_last d' ∧ pv_posting_line_id v ≤ db_posting_last d')
              (db_provisional d');
}.

Lemma committed_frame m : commit_frame m (committed m).
Proof.
  destruct plan_books as [_ [_ _ Hpv _] _ _ _ _ _]. cbn in Hpv.
  destruct (add_lines_frame (db_trx_last d + 1) (trx_lines r) d1)
    as [Hda Hdpool _ [Hdt Hdtl] [Hdpo Hdl] [Hdp Hdpl]].
  pose proof (add_lines_last (db_trx_last d + 1) (trx_lines r) d1) as Hlast.
  fold d2 in Hda, Hdpool, Hdt, Hdtl, Hdpo, Hdl, Hdp, Hdpl, Hlast.
  unfold committed.
  destruct (add_postings_frame (posting_rows line_ids (posting_lines r)) (set_pool_state m d2))
    as (P1 & P2 & P3 & P4 & P5 & P6 & P7 & P8 & P9 & P10 & P11).
  set (d4 := add_postings _ _) in *. set (rows := provisional_rows _ _).
  destruct (add_provisionals_frame rows d4) as (Q1 & Q2 & Q3 & Q4 & Q5 & Q6 & Q7 & Q8 & Q9 & Q10).
  cbn in P1, P2, P3, P4, P5, P6, P7, P8, P9, P10, P11, Hda, Hdpool, Hdt, Hdtl, Hdpo, Hdl, Hdp, Hdpl, Hlast.
  assert (length (posting_rows line_ids (posting_lines r)) = length (posting_lines r)) as Hlen
    by apply length_map.
  rewrite Hlen in P10. rewrite Hdl in P10.
  split; [congruence|split; congruence|split; congruence|split; congruence|..].
  - rewrite Q8, Q9. apply P11. rewrite Hdl, Hdpo. apply (dw_post _ Hwf).
  - rewrite Q9. apply Q10.
    + unfold rows, provisional_rows. apply Forall_map. eapply Forall_impl; [exact Hpv|].
      intros v Hv. cbn in Hv. unfold nth_id. rewrite fresh_ids_lookup by done. cbn. lia.
    + rewrite P8, P9, Hdp, Hdpl, P10.
      eapply map_Forall_impl; [apply (dw_prov _ Hwf)|]. cbn. intros ? ? [??]. split; [done|lia].
Qed.

Lemma committed_wf m st :
  shows s' st → (∀ k, state_val <$> (m !! k) = st !! k) →
  (∀ p l, method_of s !! p = None → state_val <$> (m !! (p, l)) = state_val <$> db_pool_state d !! (p, l)) →
  last_in (λ i, is_Some (db_trx_line d2 !! i)) m → snapshot_wf s' → method_of s' = method_of s →
  db_wf (committed m).
Proof.
  intros Hsh Hval Hout Hlast Hswf Hmeth. destruct (committed_frame m) as [F1 [F2 F3] [F4 _] [F5 F6] F7 F8].
  split; rewrite ?F1, ?F2, ?F3, ?F5, ?F6; try done.
  - apply map_Forall_insert_2; [lia|]. eapply map_Forall_impl; [apply (dw_trx _ Hwf)|]. cbn. lia.
  - intros j row [Hrow|(i & o & Ho & -> & ->)]%(add_lines_lookup (db_trx_last d + 1) (trx_lines r) d1);
      [| |apply lines_below].
    + apply (dw_line _ Hwf) in Hrow. cbn in Hrow. lia.
    + pose proof (lookup_lt_Some _ _ _ Ho). apply list_elem_of_lookup_2 in Ho.
      pose proof (plan_seq_above o Ho). pose proof (max_trx_seq_nonneg d (out_pool_id o) Hwf).
      pose proof (dw_counter _ Hwf). cbn. lia.
  - intros p l row mt Hrow Hmt Hl.
    assert (db_method d p = Some mt) as Hm by (unfold db_method in *; by rewrite F4 in Hmt).
    assert (max_trx_seq (committed m) p = max_trx_seq d2 p) as -> by (unfold max_trx_seq; by rewrite F2).
    rewrite max_after. destruct (decide (p ∈ ids)) as [Hin|Hin].
    + assert (method_of s !! p = Some mt) as Hms by (unfold s; by rewrite hydrate_method, decide_True).
      specialize (Hval (p, l)). rewrite Hrow in Hval. rewrite Hsh in Hval by (by rewrite Hmeth, Hms).
      rewrite (live_rows_layered s' p mt) in Hval by (by rewrite ?Hmeth).
      destruct (find_layer l _) as [x|] eqn:Hf; [|done]. cbn in Hval. injection Hval as Hq _.
      apply List.find_some in Hf as [[Hst Hx]%list_elem_of_In%list_elem_of_filter Heq%Z.eqb_eq].
      destruct (Hswf p mt) as [_ _ Hseq]; [by rewrite Hmeth|done|].
      rewrite Forall_forall in Hseq. specialize (Hseq x Hx). unfold has_stock in Hst. cbn in Hseq. lia.
    + assert (method_of s !! p = None) as Hms by (unfold s; by rewrite hydrate_method, decide_False).
      specialize (Hout p l Hms). rewrite Hrow in Hout.
      destruct (db_pool_state d !! (p, l)) as [row0|] eqn:H0; [|done]. cbn in Hout. injection Hout as Hq _.
      rewrite Hq. by eapply dw_layers.
  - pose proof (dw_counter _ Hwf). lia.
Qed.
End commit.

(** Planning from a well-formed database and writing the plan back: the write
    succeeds and the tables show the snapshot the plan ended in. *)
Lemma commit_plan d ids lines t r s' ty src :
  db_wf d → plan_apply (hydrate_snapshot d ids) lines t = (Ok r, s') →
  ty ∈ trx_types → document_fresh ty src d →
  Forall (λ po, pst_debit_account po ∈ db_account d ∧ pst_credit_account po ∈ db_account d)
    (posting_lines r) →
  ∃ d', apply_plan_result ty src t r d = (Ok (db_trx_last d + 1), d') ∧ db_wf d' ∧
    shows s' (state_val <$> db_pool_state d') ∧
    (∀ p, max_trx_seq d' p = if decide (p ∈ ids) then max_seq s' p else max_trx_seq d p) ∧
    (∀ p l, p ∉ ids → state_val <$> db_pool_state d' !! (p, l) = state_val <$> db_pool_state d !! (p, l)) ∧
    snapshot_wf s' ∧ method_of s' = method_of (hydrate_snapshot d ids) ∧
    db_pool d' = db_pool d ∧ db_account d' = db_account d ∧
    db_trx d' = <[db_trx_last d + 1 := {| trx_trx_type := ty; trx_source_id := src; trx_posted_at := t |}]>
                  (db_trx d).
Proof.
  intros Hwf Hplan Hty Hdoc Hacc.
  destruct (states_run d ids lines t r s' ty src Hwf Hplan)
    as (m & st & Hrun & Hsh & Hval & Hout & Hlast & Hswf & Hmeth).
  pose proof (committed_frame d ids lines t r s' ty src Hwf Hplan m) as [F1 [F2 F3] [F4 F4'] [F5 F6] F7 F8].
  eexists. split_and!.
  - by eapply write_runs.
  - by eapply committed_wf.
  - intros p l Hm. rewrite lookup_fmap, F1, Hval. by apply Hsh.
  - intros p. rewrite <-(max_after d ids lines t r s' ty src Hwf Hplan p).
    unfold max_trx_seq. by rewrite F2.
  - intros p l Hp. rewrite F1. apply Hout. by rewrite hydrate_method, decide_False.
  - done.
  - done.
  - done.
  - done.
  - done.
Qed.

Lemma plan_accounts s lines t r s' (A : Z → Prop) :
  plan_apply s lines t = (Ok r, s') → Forall (line_accounts A) lines →
  Forall (λ po, A (pst_debit_account po) ∧ A (pst_credit_account po)) (posting_lines r).
Proof.
  intros Hplan HA. destruct (plan_booked A (λ _, True) s lines t r s') as [_ _ _ _ _ H _]; [done|done| |done].
  intros p. by apply Forall_forall.
Qed.
