(* ===== verification/V3Safe.v ===== *)
(** The planner of the two-path ledger never panics: a small postcondition
    calculus for the cost methods' monad, and its application to every
    [Option::expect], slice index and division on the planning path. *)
From S2P Require Import Prelude V3Plan V3Layered V3Wac V3Method.

(** * The calculus

    [safe P m Q]: run from a state in [P], [m] returns an error or a value in
    [Q]; it does not panic. *)
Definition safe {A} (P : Snapshot * PlanResult → Prop) (m : Core A)
    (Q : A → Snapshot * PlanResult → Prop) : Prop :=
  ∀ st, P st →
    match m st with
    | (Ok a, st') => Q a st'
    | (Err (Returned _), _) => True
    | (Err (Panicked _), _) => False
    end.

Section calculus.
Context {A B : Type}.
Implicit Types (P : Snapshot * PlanResult → Prop) (Q : A → Snapshot * PlanResult → Prop).

Lemma safe_bind P Q (R : B → Snapshot * PlanResult → Prop) (m : Core A) (f : A → Core B) :
  safe P m Q → (∀ a, safe (Q a) (f a) R) → safe P (m ≫= f) R.
Proof.
  intros Hm Hf st HP. specialize (Hm st HP). unfold mbind, SE_bind.
  destruct (m st) as [[a|[]] st']; [|done|done]. by apply Hf.
Qed.
Lemma safe_ret P Q a : (∀ st, P st → Q a st) → safe P (mret a) Q.
Proof. intros H st. apply H. Qed.
Lemma safe_fails P Q e : safe P (fails e) Q.
Proof. done. Qed.
Lemma safe_some_or P Q o e : (∀ a st, o = Some a → P st → Q a st) → safe P (some_or o e) Q.
Proof. intros H st HP. destruct o; cbn; [by apply H|done]. Qed.
Lemma safe_expects P Q o m :
  (∀ st, P st → ∃ a, o = Some a ∧ Q a st) → safe P (expects o m) Q.
Proof. intros H st HP. destruct (H st HP) as (a & -> & HQ). done. Qed.
Lemma safe_weaken P P' Q Q' (m : Core A) :
  safe P m Q → (∀ st, P' st → P st) → (∀ a st, Q a st → Q' a st) → safe P' m Q'.
Proof.
  intros Hm HP HQ st Hst. specialize (Hm st (HP _ Hst)).
  destruct (m st) as [[a|[]] st']; [by apply HQ|done|done].
Qed.
End calculus.

Lemma safe_snapshot P :
  safe P snapshot (λ s st, s = st.1 ∧ P st).
Proof. by intros st. Qed.
Lemma safe_update_snapshot (P Q : Snapshot * PlanResult → Prop) f :
  (∀ s r, P (s, r) → Q (f s, r)) → safe P (update_snapshot f) (λ _, Q).
Proof. intros H [s r] HP. by apply H. Qed.
Lemma safe_update_result (P Q : Snapshot * PlanResult → Prop) f :
  (∀ s r, P (s, r) → Q (s, f r)) → safe P (update_result f) (λ _, Q).
Proof. intros H [s r] HP. by apply H. Qed.
Lemma safe_iterM {X} (P : Snapshot * PlanResult → Prop) (f : X → Core unit) (l : list X) :
  (∀ a, a ∈ l → safe P (f a) (λ _, P)) → safe P (iterM f l) (λ _, P).
Proof.
  intros Hf. induction l as [|a l IH]; cbn; [by apply safe_ret|].
  eapply (safe_bind _ (λ _, P)); [apply Hf; by left|]. intros ?. apply IH. intros b Hb. apply Hf. by right.
Qed.

(** A property of the rows only: counters and the plan under construction do not
    matter to it. *)
Definition on_pools (R : gmap Z (list PoolStateRow) → Prop) (st : Snapshot * PlanResult) : Prop :=
  R (pools st.1).

Section on_pools.
Context (R : gmap Z (list PoolStateRow) → Prop).

Lemma safe_next_trx_seq p : safe (on_pools R) (next_trx_seq p) (λ _, on_pools R).
Proof.
  unfold next_trx_seq. eapply safe_bind; [apply safe_snapshot|]. intros s. cbv beta zeta.
  eapply (safe_bind _ (λ _, on_pools R)).
  { apply safe_update_snapshot. by intros s' r [-> HP]. }
  intros ?. eapply (safe_bind _ (λ _, on_pools R)); [by apply safe_some_or|]. intros n.
  eapply (safe_bind _ (λ _, on_pools R)); [|intros ?; by apply safe_ret].
  by apply safe_update_snapshot.
Qed.
Lemma safe_count p : safe (on_pools R) (gets p) (λ _ : nat, on_pools R).
Proof. by intros st. Qed.
Lemma safe_push f : safe (on_pools R) (update_result f) (λ _, on_pools R).
Proof. by apply safe_update_result. Qed.
Lemma safe_value {A} (o : option A) e : safe (on_pools R) (some_or o e) (λ _, on_pools R).
Proof. by apply safe_some_or. Qed.
End on_pools.

Ltac safe_step :=
  lazymatch goal with
  | |- safe _ (next_trx_seq _ ≫= _) _ => eapply safe_bind; [apply safe_next_trx_seq|intros ?]
  | |- safe _ (trx_line_count ≫= _) _ => eapply safe_bind; [apply safe_count|intros ?]
  | |- safe _ (posting_count ≫= _) _ => eapply safe_bind; [apply safe_count|intros ?]
  | |- safe _ (update_result _ ≫= _) _ => eapply safe_bind; [apply safe_push|intros ?]
  | |- safe _ (some_or _ _ ≫= _) _ => eapply safe_bind; [apply safe_value|intros ?]
  | |- safe _ (update_result _) _ => apply safe_push
  | |- safe _ (mret _) _ => by apply safe_ret
  end.

(** * The layered methods *)
Definition pool_len (p : Z) (n : nat) (ps : gmap Z (list PoolStateRow)) : Prop :=
  ∃ rows, ps !! p = Some rows ∧ length rows = n.

Lemma touch_layer_safe line t lt n :
  (lt_idx lt < n)%nat →
  safe (on_pools (pool_len (req_pool_id line) n)) (touch_layer line t lt)
       (λ _, on_pools (pool_len (req_pool_id line) n)).
Proof.
  intros Hi. unfold touch_layer. do 6 safe_step.
  eapply safe_bind; [apply safe_snapshot|]. intros s.
  set (p := req_pool_id line).
  eapply (safe_bind _ (λ rows st, s = st.1 ∧ length rows = n ∧ on_pools (pool_len p n) st)).
  { apply safe_expects. intros st [-> Hp]. destruct Hp as (rows & Hr & Hl).
    exists rows. split_and!; [done..|]. by exists rows. }
  intros rows. eapply (safe_bind _ (λ _ st, s = st.1 ∧ length rows = n ∧ on_pools (pool_len p n) st)).
  { apply safe_expects. intros st (-> & Hl & Hp).
    destruct (lookup_lt_is_Some_2 rows (lt_idx lt)) as [r Hr]; [lia|]. exists r. done. }
  intros r. apply safe_update_snapshot. intros s' x (-> & Hl & _).
  eexists. split; [apply lookup_insert_eq|]. by rewrite length_insert.
Qed.

Lemma walk_layers_idx layers idxs rem :
  Forall (λ lt, (lt_idx lt < length layers)%nat) (walk_layers layers idxs rem).
Proof.
  revert rem. induction idxs as [|i idxs IH]; intros rem; cbn; [constructor|].
  case_decide; [constructor|]. destruct (layers !! i) eqn:E; constructor; [|apply IH].
  by eapply lookup_lt_Some.
Qed.

Abbreviation anything := (λ _ : Snapshot * PlanResult, True).
Abbreviation returns m := (safe anything m (λ _ _, True)).

Lemma safe_weaker {A} R (m : Core A) :
  safe (on_pools R) m (λ _, on_pools R) → safe (on_pools R) m (λ _ _, True).
Proof. intros H. by eapply safe_weaken. Qed.

Lemma layered_deplete_safe line t o : req_qty line < 0 → returns (layered_deplete line t o).
Proof.
  intros Hq. unfold layered_deplete. set (p := req_pool_id line).
  eapply (safe_bind _ (λ n _, 0 < n)).
  { apply safe_some_or. intros n st [-> _]%checked_abs_Some _. lia. }
  intros n. eapply safe_bind; [apply safe_snapshot|]. intros s. cbv beta zeta.
  destruct (_ <? _) eqn:E; [apply safe_fails|]. apply Z.ltb_ge in E.
  eapply (safe_bind _ (λ rows, on_pools (pool_len p (length rows)))).
  { apply safe_expects. intros st [-> Hn]. unfold rows_of in E.
    destruct (pools st.1 !! p) as [rows|] eqn:Hp; [|cbn in E; lia].
    exists rows. split; [done|]. by exists rows. }
  intros rows. eapply safe_bind.
  { apply safe_iterM. intros lt Hlt. apply touch_layer_safe.
    pose proof (walk_layers_idx rows (sorted_idx o rows) n) as Hi. rewrite Forall_forall in Hi. by apply Hi. }
  intros ?. by apply safe_update_snapshot.
Qed.

Lemma layered_receipt_safe line t : returns (layered_receipt line t).
Proof.
  unfold layered_receipt. eapply (safe_weaken (on_pools (λ _, True)) _ (λ _, on_pools (λ _, True))); [|done..].
  do 4 safe_step. eapply (safe_bind _ (λ _, on_pools (λ _, True))); [by apply safe_update_snapshot|].
  intros ?. by repeat safe_step.
Qed.

(** * The average methods *)
Lemma cumulative_receipt_safe name line t : returns (cumulative_receipt name line t).
Proof.
  unfold cumulative_receipt. eapply (safe_bind _ (λ _, on_pools (λ _, True))); [done|].
  intros s. cbv zeta. destruct (read_layer0 s _) as [[q v] ex].
  do 7 safe_step. eapply (safe_bind _ (λ _, on_pools (λ _, True))); [by apply safe_update_snapshot|].
  intros ?. apply safe_weaker. safe_step.
Qed.

Lemma quot_small a b : in_i64 a → 0 < b → in_i64 (a `quot` b).
Proof.
  intros Ha Hb. pose proof (Z.quot_rem' a b). pose proof (Z.rem_bound_abs a b ltac:(lia)).
  assert (Z.abs (a `quot` b) ≤ Z.abs a) by (rewrite <-Z.quot_abs by lia;
    apply Z.quot_le_upper_bound; nia).
  destruct (Z.le_ge_cases 0 a).
  - assert (0 ≤ a `quot` b) by (apply Z.quot_pos; lia). solve_i64.
  - assert (a `quot` b ≤ 0); [|solve_i64].
    rewrite <-(Z.opp_involutive a), Z.quot_opp_l by lia.
    assert (0 ≤ (- a) `quot` b) by (apply Z.quot_pos; lia). lia.
Qed.
Lemma i64_div_defined a b : in_i64 a → 0 < b → ∃ c, i64_div a b = Some c ∧ in_i64 c.
Proof.
  intros Ha Hb. exists (a `quot` b). pose proof (quot_small a b Ha Hb).
  split; [|done]. apply i64_div_Some. split_and!; [lia|done|done].
Qed.

Lemma cumulative_deplete_safe name prov line t :
  req_qty line < 0 → returns (cumulative_deplete name prov line t).
Proof.
  intros Hq. unfold cumulative_deplete. set (p := req_pool_id line).
  eapply (safe_bind _ (λ n _, 0 < n)).
  { apply safe_some_or. intros n st [-> _]%checked_abs_Some _. lia. }
  intros n. eapply (safe_bind _ (λ _ _, 0 < n)); [by intros st|]. intros s.
  destruct (read_layer0 s p) as [[q v] ex].
  destruct (q <? n) eqn:E; [apply safe_fails|]. apply Z.ltb_ge in E.
  eapply (safe_bind _ (λ m _, 0 < n ∧ in_i64 m)).
  { apply safe_some_or. by intros m st [-> ?]%checked_mul_Some. }
  intros m. eapply (safe_bind _ (λ a _, 0 < n ∧ in_i64 a)).
  { apply safe_expects. intros st [Hn Hm]. destruct (i64_div_defined m q) as (c & Hc & Hci); [done|lia|].
    eauto. }
  intros a. cbv zeta. eapply (safe_bind _ (λ _, on_pools (λ _, True))).
  { apply safe_expects. intros st [Hn Ha]. destruct (i64_div_defined a n) as (c & Hc & Hci); [done|lia|].
    by exists c. }
  intros u. do 4 safe_step. eapply (safe_bind _ (λ _, on_pools (λ _, True))).
  { destruct ex; [by apply safe_update_snapshot|safe_step]. }
  intros ?. do 2 safe_step. apply safe_weaker. destruct prov; safe_step.
Qed.

(** * The dispatcher *)
Lemma expect_method_safe p m : returns (expect_method p m).
Proof.
  unfold expect_method. eapply safe_bind; [apply safe_snapshot|]. intros s.
  eapply (safe_bind _ (λ _ _, True)); [by apply safe_some_or|]. intros got.
  case_decide; [by apply safe_ret|apply safe_fails].
Qed.

Lemma apply_std_safe line t : returns (apply_std line t).
Proof.
  unfold apply_std. eapply safe_bind; [apply expect_method_safe|]. intros ?.
  eapply (safe_bind _ (λ _, on_pools (λ _, True))); [done|]. intros s. cbv zeta.
  eapply (safe_bind _ (λ _, on_pools (λ _, True))); [by apply safe_update_snapshot|]. intros ?.
  safe_step. eapply (safe_bind _ (λ _, on_pools (λ _, True))); [by apply safe_update_snapshot|]. intros ?.
  do 4 safe_step. apply safe_weaker. safe_step.
Qed.

Lemma apply_layered_safe line t o : returns (apply_layered line t o).
Proof.
  unfold apply_layered. destruct (req_qty line ?= 0) eqn:E; [by apply safe_ret|..].
  - by apply layered_deplete_safe.
  - apply layered_receipt_safe.
Qed.

Lemma apply_line_safe t line : returns (apply_line t line).
Proof.
  unfold apply_line. eapply (safe_bind _ (λ _ _, True)); [by intros st|]. intros s.
  eapply (safe_bind _ (λ _ _, True)); [by apply safe_some_or|]. intros m.
  unfold apply_fifo, apply_lifo, apply_specific, apply_wac, apply_wac_periodic.
  destruct m; try apply apply_std_safe;
    (eapply safe_bind; [apply expect_method_safe|]; intros ?; try apply apply_layered_safe).
  all: destruct (req_qty line ?= 0) eqn:E; [by apply safe_ret| |apply cumulative_receipt_safe].
  all: by apply cumulative_deplete_safe.
Qed.

Lemma plan_apply_returns s lines t :
  match plan_apply s lines t with (Err (Panicked _), _) => False | _ => True end.
Proof.
  pose proof (safe_iterM anything (apply_line t) lines (λ a _, apply_line_safe t a)) as H.
  specialize (H (s, plan_default) I). unfold plan_apply.
  by destruct (iterM _ _ _) as [[[]|[]] [s' r]].
Qed.
