(* ===== verification/V3Sim.v ===== *)
(** Planning is insensitive to what it does not read: snapshots that agree on the
    pools of the request, up to the provenance of their rows, give the same
    outcome and the same plan up to the source links of its lines. *)
From S2P Require Import Prelude V3Plan V3Layered V3Wac V3Method.

(** * Rows and plans up to provenance *)
Definition row_core (r : PoolStateRow) : Z * Z * Z := (layer_seq r, row_qty r, row_unit_cost r).
Definition unlink (o : TrxLineOutput) : TrxLineOutput :=
  {| out_pool_id := out_pool_id o; out_trx_seq := out_trx_seq o; out_qty := out_qty o;
     out_unit_cost := out_unit_cost o; out_source_trx_line_id := None;
     out_line_type := out_line_type o; out_source_id := out_source_id o |}.

Record same_plan (r r' : PlanResult) : Prop := {
  sp_lines : map unlink (trx_lines r) = map unlink (trx_lines r');
  sp_mutations : pool_state_mutations r = pool_state_mutations r';
  sp_postings : posting_lines r = posting_lines r';
  sp_provisional : provisional_postings r = provisional_postings r';
}.

(** What planning reads of a pool: its method, its counter, and the layers or
    the average row its method keeps. *)
Record same_pool (meth : Z → option PoolMethod) (s s' : Snapshot) (p : Z) : Prop := {
  sm_method : method_of s !! p = meth p ∧ method_of s' !! p = meth p;
  sm_seq : max_seq s p = max_seq s' p;
  sm_layers : ∀ m, meth p = Some m → layered m →
    map row_core (rows_of s p) = map row_core (rows_of s' p);
  sm_average : ∀ m, meth p = Some m → averaged m → read_layer0 s p = read_layer0 s' p;
}.

Section relate.
Context (ids : Z → Prop) (meth : Z → option PoolMethod).
Abbreviation St := (Snapshot * PlanResult)%type.

Definition alike (x y : St) : Prop :=
  (∀ p, ids p → same_pool meth x.1 y.1 p) ∧ same_plan x.2 y.2.

(** Two computations that run alike: the same error, or related values in
    states that are again alike.  (A panic on either side is set aside here:
    planning has none.) *)
Definition alikeM {A} (R : St → St → Prop) (V : A → A → Prop) (R' : St → St → Prop)
    (f g : Core A) : Prop :=
  ∀ x y, R x y →
    match f x, g y with
    | (Err (Panicked _), _), _ | _, (Err (Panicked _), _) => True
    | (Ok a, x'), (Ok b, y') => V a b ∧ R' x' y'
    | (Err e, _), (Err e', _) => e = e'
    | _, _ => False
    end.

Lemma alikeM_bind {A B} R V R1 (W : B → B → Prop) R2 (f g : Core A) (h k : A → Core B) :
  alikeM R V R1 f g → (∀ a b, V a b → alikeM R1 W R2 (h a) (k b)) →
  alikeM R W R2 (f ≫= h) (g ≫= k).
Proof.
  intros Hf Hh x y Hxy. specialize (Hf x y Hxy). unfold mbind, SE_bind.
  destruct (f x) as [[a|[]] x'], (g y) as [[b|[]] y']; try done.
  - destruct Hf as [Hab HR]. by apply Hh.
  - by destruct (h a x') as [[|[]] ?].
Qed.
Lemma alikeM_ret {A} (R : St → St → Prop) (V : A → A → Prop) a b :
  V a b → alikeM R V R (mret a) (mret b).
Proof. by intros HV x y HR. Qed.
Lemma alikeM_fails {A} R (V : A → A → Prop) R' e : alikeM R V R' (fails e) (fails e).
Proof. by intros x y HR. Qed.
Lemma alikeM_some_or {A} R (o : option A) e : alikeM R eq R (some_or o e) (some_or o e).
Proof. intros x y HR. by destruct o. Qed.
Lemma alikeM_expects {A} R (V : A → A → Prop) (o o' : option A) e :
  (∀ a b, o = Some a → o' = Some b → V a b) → alikeM R V R (expects o e) (expects o' e).
Proof. intros HV x y HR. destruct o, o'; cbn; auto. Qed.
Lemma alikeM_eq {A B} R W R' (f g : Core A) (h k : A → Core B) :
  alikeM R eq R f g → (∀ a, alikeM R W R' (h a) (k a)) → alikeM R W R' (f ≫= h) (g ≫= k).
Proof. intros Hf Hh. eapply alikeM_bind; [exact Hf|]. intros a ? <-. apply Hh. Qed.

(** Reading the snapshot: both sides hold related snapshots from then on. *)
Lemma alikeM_snapshot {B} R (W : B → B → Prop) R' (h k : Snapshot → Core B) :
  (∀ s s', (∃ r r', R (s, r) (s', r')) → alikeM R W R' (h s) (k s')) →
  alikeM R W R' (snapshot ≫= h) (snapshot ≫= k).
Proof. intros H [s r] [s' r'] HR. cbn. apply H; eauto. Qed.

(** The same, keeping that the snapshots are the current ones. *)
Lemma alikeM_current {B} R (W : B → B → Prop) R' (h k : Snapshot → Core B) :
  (∀ s s', alikeM (λ x y, R x y ∧ x.1 = s ∧ y.1 = s') W R' (h s) (k s')) →
  alikeM R W R' (snapshot ≫= h) (snapshot ≫= k).
Proof. intros H x y HR. unfold mbind, SE_bind. cbn. by apply H. Qed.

Lemma alikeM_iterM {X} R (f : X → Core unit) l l' (T : X → X → Prop) :
  Forall2 T l l' → (∀ a b, T a b → alikeM R eq R (f a) (f b)) →
  alikeM R eq R (iterM f l) (iterM f l').
Proof.
  intros Hl Hf. induction Hl as [|a b l l' Hab Hl IH]; cbn; [by apply alikeM_ret|].
  apply alikeM_eq; [by apply Hf|]. intros ?. exact IH.
Qed.

(** * Updates *)
Lemma alikeM_push f g :
  (∀ r r', same_plan r r' → same_plan (f r) (g r')) →
  alikeM alike eq alike (update_result f) (update_result g).
Proof. intros H [s r] [s' r'] [Hs Hr]. cbn in *. split; [done|]. split; [done|by apply H]. Qed.
Lemma alikeM_update f g :
  (∀ s s', (∀ p, ids p → same_pool meth s s' p) → (∀ p, ids p → same_pool meth (f s) (g s') p)) →
  alikeM alike eq alike (update_snapshot f) (update_snapshot g).
Proof. intros H [s r] [s' r'] [Hs Hr]. cbn in *. split; [done|]. split; [by apply H|done]. Qed.

Lemma push_line_same o o' r r' :
  unlink o = unlink o' → same_plan r r' → same_plan (push_trx_line o r) (push_trx_line o' r').
Proof. intros Ho []. split; cbn; [|done..]. rewrite !map_app. cbn. by rewrite sp_lines0, Ho. Qed.
Lemma push_mutation_same m r r' :
  same_plan r r' → same_plan (push_mutation m r) (push_mutation m r').
Proof. intros []. split; cbn; [done| |done..]. by rewrite sp_mutations0. Qed.
Lemma push_posting_same m r r' : same_plan r r' → same_plan (push_posting m r) (push_posting m r').
Proof. intros []. split; cbn; [done..| |done]. by rewrite sp_postings0. Qed.
Lemma push_provisional_same m r r' :
  same_plan r r' → same_plan (push_provisional m r) (push_provisional m r').
Proof. intros []. split; cbn; [done..|]. by rewrite sp_provisional0. Qed.

Lemma alikeM_line_count : alikeM alike eq alike trx_line_count trx_line_count.
Proof.
  intros [s r] [s' r'] [Hs Hr]. split; [|done]. cbn. destruct Hr as [Hl _ _ _]. cbn in Hl.
  by rewrite <-(length_map unlink (trx_lines r)), Hl, length_map.
Qed.
Lemma alikeM_posting_count : alikeM alike eq alike posting_count posting_count.
Proof. intros [s r] [s' r'] [Hs Hr]. split; [|done]. cbn. by destruct Hr as [_ _ Hp _]; cbn in Hp; rewrite Hp. Qed.

Lemma same_pool_counter s s' p n q :
  same_pool meth s s' q →
  same_pool meth (with_max_seq (<[p := n]> (max_trx_seq_of s)) s)
            (with_max_seq (<[p := n]> (max_trx_seq_of s')) s') q.
Proof.
  intros []. split; try done. unfold max_seq in *. cbn.
  destruct (decide (p = q)) as [->|]; by rewrite ?lookup_insert_eq, ?lookup_insert_ne.
Qed.

Lemma alikeM_next_trx_seq p : ids p → alikeM alike eq alike (next_trx_seq p) (next_trx_seq p).
Proof.
  intros Hp. unfold next_trx_seq. apply alikeM_current. intros s s' [x a] [y b] ([Hs Hr] & E & E').
  cbn in E, E', Hs, Hr. subst x y. cbv zeta. rewrite (sm_seq _ _ _ _ (Hs p Hp)).
  refine (alikeM_bind (λ x y, alike x y ∧ x.1 = s ∧ y.1 = s') eq alike eq alike _ _ _ _ _ _ _ _ _); [..|by split].
  { intros [x ra] [y rb] ([_ Hr'] & E & E'). cbn in *. subst x y. split; [done|]. split; cbn; [|exact Hr'].
    intros q Hq. apply same_pool_counter, Hs, Hq. }
  intros [] [] _. apply alikeM_eq; [apply alikeM_some_or|]. intros n. apply alikeM_eq.
  - apply alikeM_update. intros x y Hxy q Hq. by apply same_pool_counter, Hxy.
  - intros ?. by apply alikeM_ret.
Qed.

(** Rows of one pool replaced on both sides. *)
Lemma same_pool_rows s s' x y p rows rows' q :
  same_pool meth x y q →
  (∀ q, q ≠ p → rows_of x q = rows_of s q) → (∀ q, q ≠ p → rows_of y q = rows_of s' q) →
  (∀ m, meth p = Some m → layered m → map row_core rows = map row_core rows') →
  (∀ m, meth p = Some m → averaged m →
     row_value <$> List.find is_layer0 rows = row_value <$> List.find is_layer0 rows') →
  same_pool meth (with_pools (<[p := rows]> (pools s)) x) (with_pools (<[p := rows']> (pools s')) y) q.
Proof.
  intros [H1 H2 H3 H4] Hx Hy Hl Ha. split; cbn; [done|done|..].
  - intros m Hm Hlay. destruct (decide (q = p)) as [->|Hne].
    + unfold rows_of. cbn. rewrite !lookup_insert_eq. cbn. by eapply Hl.
    + specialize (H3 m Hm Hlay). rewrite Hx, Hy in H3 by done. unfold rows_of in *. cbn.
      by rewrite !lookup_insert_ne.
  - intros m Hm Hav. rewrite !read_layer0_find. destruct (decide (q = p)) as [->|Hne].
    + specialize (Ha m Hm Hav). unfold rows_of. cbn. rewrite !lookup_insert_eq. cbn.
      destruct (List.find is_layer0 rows), (List.find is_layer0 rows'); cbn in Ha; try done.
      by injection Ha as -> ->.
    + specialize (H4 m Hm Hav). rewrite !read_layer0_find, Hx, Hy in H4 by done. unfold rows_of in *. cbn.
      by rewrite !lookup_insert_ne.
Qed.
End relate.

Ltac push_same :=
  apply alikeM_push; intros ? ?;
  first [ by apply push_line_same | apply push_mutation_same | apply push_posting_same
        | apply push_provisional_same ].
Ltac alike_step :=
  lazymatch goal with
  | |- alikeM _ _ _ (next_trx_seq _ ≫= _) _ =>
      apply alikeM_eq; [by apply alikeM_next_trx_seq|intros ?]
  | |- alikeM _ _ _ (trx_line_count ≫= _) _ =>
      apply alikeM_eq; [apply alikeM_line_count|intros ?]
  | |- alikeM _ _ _ (posting_count ≫= _) _ =>
      apply alikeM_eq; [apply alikeM_posting_count|intros ?]
  | |- alikeM _ _ _ (some_or _ _ ≫= _) _ =>
      apply alikeM_eq; [apply alikeM_some_or|intros ?]
  | |- alikeM _ _ _ (expects _ _ ≫= _) _ =>
      apply alikeM_eq; [apply alikeM_expects; congruence|intros ?]
  | |- alikeM _ _ _ (update_result _ ≫= _) _ => apply alikeM_eq; [push_same|intros ?]
  | |- alikeM _ _ _ (update_result _) _ => push_same
  | |- alikeM _ _ _ (mret _) _ => by apply alikeM_ret
  | |- alikeM _ _ _ (fails _) _ => apply alikeM_fails
  end.

(** * The layered methods *)
Section layered_sim.
Context (ids : Z → Prop) (meth : Z → option PoolMethod).
Abbreviation same := (alikeM (alike ids meth) eq (alike ids meth)).

Lemma core_lookup rows rows' i :
  map row_core rows = map row_core rows' →
  row_core <$> rows !! i = row_core <$> rows' !! i.
Proof.
  intros H. rewrite <-!list_lookup_fmap. change (row_core <$> ?l) with (map row_core l). by rewrite H.
Qed.

Lemma core_of (f : PoolStateRow → Z) (g : Z * Z * Z → Z) rows rows' :
  (∀ r, f r = g (row_core r)) → map row_core rows = map row_core rows' →
  map f rows = map f rows'.
Proof.
  intros Hf H. assert (∀ l, map f l = map g (map row_core l)) as E.
  { intros l. rewrite map_map. by apply map_ext. }
  by rewrite !E, H.
Qed.

Lemma core_sorted_idx o rows rows' :
  map row_core rows = map row_core rows' → sorted_idx o rows = sorted_idx o rows'.
Proof.
  intros H.
  assert (length rows = length rows') as Hlen by (by rewrite <-(length_map row_core), H, length_map).
  assert (∀ i, layer_key rows i = layer_key rows' i) as Hk.
  { intros i. unfold layer_key. pose proof (core_lookup _ _ i H) as Hi.
    destruct (rows !! i), (rows' !! i); cbn in Hi; try done. by injection Hi. }
  assert (live_idx rows = live_idx rows') as Hl.
  { unfold live_idx. rewrite Hlen. apply List.filter_ext. intros i.
    pose proof (core_lookup _ _ i H) as Hi.
    destruct (rows !! i), (rows' !! i); cbn in Hi; try done. injection Hi as ? -> ?. done. }
  unfold sorted_idx. rewrite Hl. destruct o; apply sort_by_key_ext; [done|].
  intros i. by rewrite Hk.
Qed.

(** Two planned touches of the same layer. *)
Definition same_touch (a b : LayerTouch) : Prop :=
  lt_idx a = lt_idx b ∧ lt_layer_seq a = lt_layer_seq b ∧ lt_consumed a = lt_consumed b ∧
  lt_unit_cost a = lt_unit_cost b ∧ lt_new_qty a = lt_new_qty b.

Lemma core_walk rows rows' idxs rem :
  map row_core rows = map row_core rows' →
  Forall2 same_touch (walk_layers rows idxs rem) (walk_layers rows' idxs rem).
Proof.
  intros H. revert rem. induction idxs as [|i idxs IH]; intros rem; cbn; [constructor|].
  case_decide; [constructor|]. pose proof (core_lookup _ _ i H) as Hi.
  destruct (rows !! i) as [r|], (rows' !! i) as [r'|]; cbn in Hi; try done.
  injection Hi as E1 E2 E3. constructor; [|by rewrite E2; apply IH].
  unfold same_touch. cbn. by rewrite E1, E2, E3.
Qed.

Lemma core_insert rows rows' i q r r' :
  map row_core rows = map row_core rows' → rows !! i = Some r → rows' !! i = Some r' →
  map row_core (<[i := set_row_qty q r]> rows) = map row_core (<[i := set_row_qty q r']> rows').
Proof.
  intros H Hr Hr'. change (map row_core ?l) with (row_core <$> l) in *.
  rewrite !list_fmap_insert. f_equal; [|done].
  pose proof (core_lookup _ _ i H) as Hi. rewrite Hr, Hr' in Hi. cbn in Hi. injection Hi as E1 E2 E3.
  unfold row_core. cbn. by rewrite E1, E3.
Qed.

Lemma touch_layer_alike line t a b m :
  ids (req_pool_id line) → meth (req_pool_id line) = Some m → layered m → same_touch a b →
  same (touch_layer line t a) (touch_layer line t b).
Proof.
  intros Hp Hm Hlay (E1 & E2 & E3 & E4 & E5). unfold touch_layer. rewrite E1, E2, E3, E4, E5.
  do 6 alike_step. set (p := req_pool_id line) in *. apply alikeM_current. intros s s'.
  eapply (alikeM_bind _ (λ l l', pools s !! p = Some l ∧ pools s' !! p = Some l')).
  { apply alikeM_expects. intros l l' Hl Hl'. exact (conj Hl Hl'). }
  intros l l' [Hl Hl']. eapply (alikeM_bind _ (λ r r', l !! lt_idx b = Some r ∧ l' !! lt_idx b = Some r')).
  { apply alikeM_expects. auto. }
  intros r r' [Hr Hr'] [x rx] [y ry] ([Hs Hres] & E & E'). cbn in *. subst x y.
  split; [done|]. split; [|done]. intros q Hq. cbn. apply same_pool_rows; [by apply Hs|done|done|..].
  - intros m' Hm' Hlay'. apply core_insert; [|done|done].
    pose proof (sm_layers _ _ _ _ (Hs p Hp) m' Hm' Hlay') as H. unfold rows_of in H. by rewrite Hl, Hl' in H.
  - intros m' Hm' Hav. exfalso. rewrite Hm in Hm'. injection Hm' as <-.
    eauto using layered_not_averaged.
Qed.

Lemma layered_receipt_alike line t m :
  ids (req_pool_id line) → meth (req_pool_id line) = Some m → layered m →
  same (layered_receipt line t) (layered_receipt line t).
Proof.
  intros Hp Hm Hlay. unfold layered_receipt. do 4 alike_step. apply alikeM_eq.
  { apply alikeM_update. intros s s' Hs q Hq. apply same_pool_rows; [by apply Hs|done|done|..].
    - intros m' Hm' Hlay'. by rewrite !map_app, (sm_layers _ _ _ _ (Hs _ Hp) m' Hm' Hlay').
    - intros m' Hm' Hav. exfalso. rewrite Hm in Hm'. injection Hm' as <-. eauto using layered_not_averaged. }
  intros _. do 2 alike_step.
Qed.

Lemma filter_core rows rows' :
  map row_core rows = map row_core rows' →
  map row_core (filter has_stock rows) = map row_core (filter has_stock rows').
Proof.
  revert rows'. induction rows as [|r rows IH]; intros [|r' rows'] H; try done. cbn in H.
  injection H as E1 E2 E3 H. rewrite !filter_cons.
  assert (has_stock r ↔ has_stock r') as Hst by (unfold has_stock; by rewrite E2).
  destruct (decide (has_stock r)) as [Hr|Hr]; rewrite Hst in Hr.
  - rewrite decide_True by done. cbn. rewrite (IH rows' H). unfold row_core. by rewrite E1, E2, E3.
  - rewrite decide_False by done. by apply IH.
Qed.

Definition prune (p : Z) (s : Snapshot) : Snapshot :=
  match pools s !! p with
  | Some layers => with_pools (<[p := filter has_stock layers]> (pools s)) s
  | None => s
  end.
Lemma prune_rows p s q :
  rows_of (prune p s) q = if decide (q = p) then filter has_stock (rows_of s p) else rows_of s q.
Proof.
  unfold prune, rows_of. destruct (pools s !! p) as [l|] eqn:E; case_decide as Hq; subst; cbn.
  - by rewrite lookup_insert_eq.
  - by rewrite lookup_insert_ne.
  - by rewrite E.
  - done.
Qed.
Lemma prune_method p s : method_of (prune p s) = method_of s.
Proof. unfold prune. by destruct (_ !! _). Qed.
Lemma prune_max_seq p s q : max_seq (prune p s) q = max_seq s q.
Proof. unfold prune. by destruct (_ !! _). Qed.

Lemma layered_deplete_alike line t o m :
  ids (req_pool_id line) → meth (req_pool_id line) = Some m → layered m →
  same (layered_deplete line t o) (layered_deplete line t o).
Proof.
  intros Hp Hm Hlay. unfold layered_deplete. alike_step. set (p := req_pool_id line) in *.
  apply alikeM_snapshot. intros s s' (r & r' & Hs & _). cbn in Hs.
  pose proof (sm_layers _ _ _ _ (Hs p Hp) m Hm Hlay) as Hrows. cbv zeta.
  rewrite (core_of row_qty (λ c, c.1.2) _ _ (λ _, eq_refl) Hrows).
  destruct (_ <? _); [alike_step|].
  eapply (alikeM_bind _ (λ l l', map row_core l = map row_core l')).
  { apply alikeM_expects. intros l l' Hl Hl'. unfold rows_of in Hrows. by rewrite Hl, Hl' in Hrows. }
  intros l l' Hll. rewrite (core_sorted_idx o _ _ Hll). apply alikeM_eq.
  - eapply alikeM_iterM; [by apply core_walk|]. intros. by eapply touch_layer_alike.
  - intros _ [u ru] [v rv] [Huv Hres]. cbn in *. split; [done|]. split; [|done]. intros q Hq. cbn.
    fold (prune p u) (prune p v).
    destruct (Huv q Hq) as [H1 H2 H3 H4]. split; rewrite ?prune_method, ?prune_max_seq; try done.
    + intros m' Hm' Hlay'. rewrite !prune_rows. case_decide as Hqp; [|by eapply H3].
      subst q. by eapply filter_core, H3.
    + intros m' Hm' Hav. rewrite !read_layer0_find, !prune_rows.
      rewrite !decide_False by (intros ->; rewrite Hm in Hm'; injection Hm' as <-; eauto using layered_not_averaged).
      specialize (H4 m' Hm' Hav). by rewrite !read_layer0_find in H4.
Qed.

Lemma apply_layered_alike line t o m :
  ids (req_pool_id line) → meth (req_pool_id line) = Some m → layered m →
  same (apply_layered line t o) (apply_layered line t o).
Proof.
  intros Hp Hm Hlay. unfold apply_layered. destruct (_ ?= _).
  - alike_step.
  - by eapply layered_deplete_alike.
  - by eapply layered_receipt_alike.
Qed.

(** * The average methods *)
Lemma upsert_alike p q v m :
  ids p → meth p = Some m → averaged m →
  same (update_snapshot (upsert_in_memory_layer0 p q v))
       (update_snapshot (upsert_in_memory_layer0 p q v)).
Proof.
  intros Hp Hm Hav. apply alikeM_update. intros s s' Hs q' Hq'.
  apply same_pool_rows; [by apply Hs|done|done|..].
  - intros m' Hm' Hlay. exfalso. rewrite Hm in Hm'. injection Hm' as <-. eauto using layered_not_averaged.
  - intros m' _ _. destruct (find_upsert_layer0 q v (rows_of s p)) as [i ->].
    by destruct (find_upsert_layer0 q v (rows_of s' p)) as [i' ->].
Qed.

Lemma cumulative_receipt_alike name line t m :
  ids (req_pool_id line) → meth (req_pool_id line) = Some m → averaged m →
  same (cumulative_receipt name line t) (cumulative_receipt name line t).
Proof.
  intros Hp Hm Hav. unfold cumulative_receipt. apply alikeM_snapshot.
  intros s s' (r & r' & Hs & _). cbn in Hs. rewrite (sm_average _ _ _ _ (Hs _ Hp) m Hm Hav).
  cbv zeta. destruct (read_layer0 s' _) as [[q v] ex]. do 7 alike_step.
  apply alikeM_eq; [by eapply upsert_alike|]. intros _. alike_step.
Qed.

Lemma cumulative_deplete_alike name prov line t m :
  ids (req_pool_id line) → meth (req_pool_id line) = Some m → averaged m →
  same (cumulative_deplete name prov line t) (cumulative_deplete name prov line t).
Proof.
  intros Hp Hm Hav. unfold cumulative_deplete. alike_step. apply alikeM_snapshot.
  intros s s' (r & r' & Hs & _). cbn in Hs. rewrite (sm_average _ _ _ _ (Hs _ Hp) m Hm Hav).
  destruct (read_layer0 s' _) as [[q v] ex]. destruct (_ <? _); [alike_step|].
  do 2 alike_step. cbv zeta. do 5 alike_step.
  apply alikeM_eq; [destruct ex; [by eapply upsert_alike|alike_step]|]. intros _.
  do 2 alike_step. destruct prov; alike_step.
Qed.

(** * The dispatcher *)
Lemma expect_method_alike p m :
  ids p → same (expect_method p m) (expect_method p m).
Proof.
  intros Hp. unfold expect_method. apply alikeM_snapshot. intros s s' (r & r' & Hs & _). cbn in Hs.
  destruct (sm_method _ _ _ _ (Hs p Hp)) as [-> ->]. alike_step. case_decide; alike_step.
Qed.

Lemma apply_std_alike line t :
  ids (req_pool_id line) → same (apply_std line t) (apply_std line t).
Proof.
  intros Hp. unfold apply_std. apply alikeM_eq; [by apply expect_method_alike|]. intros _.
  apply alikeM_current. intros s s' [x a] [y b] ([Hs Hr] & E & E'). cbn in E, E', Hs, Hr. subst x y.
  cbv zeta. rewrite (sm_seq _ _ _ _ (Hs _ Hp)).
  refine (alikeM_bind (λ x y, alike ids meth x y ∧ x.1 = s ∧ y.1 = s') eq (alike ids meth) eq
            (alike ids meth) _ _ _ _ _ _ _ _ _); [..|by split].
  { intros [x ra] [y rb] ([_ Hr'] & E & E'). cbn in *. subst x y. split; [done|]. split; cbn; [|exact Hr'].
    intros q Hq. apply same_pool_counter, Hs, Hq. }
  intros [] [] _. alike_step. apply alikeM_eq.
  { apply alikeM_update. intros x y Hxy q Hq. by apply same_pool_counter, Hxy. }
  intros _. do 5 alike_step.
Qed.

Lemma apply_line_alike t line :
  ids (req_pool_id line) → same (apply_line t line) (apply_line t line).
Proof.
  intros Hp. unfold apply_line. apply alikeM_snapshot. intros s s' (r & r' & Hs & _). cbn in Hs.
  destruct (sm_method _ _ _ _ (Hs _ Hp)) as [-> ->].
  destruct (meth (req_pool_id line)) as [m|] eqn:Hm; [|done]. cbn [some_or].
  eapply (alikeM_bind _ (λ k k', k = m ∧ k' = m)); [by apply alikeM_ret|]. intros k k' [-> ->].
  unfold apply_fifo, apply_lifo, apply_specific, apply_wac, apply_wac_periodic.
  destruct m; try by apply apply_std_alike.
  all: apply alikeM_eq; [by apply expect_method_alike|]; intros _.
  1,2,5: eapply apply_layered_alike; [done|done|]; unfold layered; tauto.
  all: destruct (_ ?= _); [alike_step|..].
  all: first [eapply cumulative_deplete_alike|eapply cumulative_receipt_alike];
    [done|done|unfold averaged; tauto].
Qed.
End layered_sim.

(** * Planning *)
Definition lines_within (ids : Z → Prop) (lines : list TrxLineRequest) : Prop :=
  Forall (λ l, ids (req_pool_id l)) lines.

Lemma dedupe_same r r' :
  same_plan r r' → same_plan (dedupe_pool_state_mutations r) (dedupe_pool_state_mutations r').
Proof. intros []. split; cbn; [done| |done|done]. by rewrite sp_mutations0. Qed.

Lemma plan_apply_alike ids meth s s' lines t :
  lines_within ids lines → (∀ p, ids p → same_pool meth s s' p) →
  match plan_apply s lines t, plan_apply s' lines t with
  | (Err (Panicked _), _), _ | _, (Err (Panicked _), _) => True
  | (Ok r, s1), (Ok r', s1') => same_plan r r' ∧ (∀ p, ids p → same_pool meth s1 s1' p)
  | (Err e, _), (Err e', _) => e = e'
  | _, _ => False
  end.
Proof.
  intros Hl Hs.
  assert (alikeM (alike ids meth) eq (alike ids meth)
            (iterM (apply_line t) lines) (iterM (apply_line t) lines)) as H.
  { apply (alikeM_iterM _ _ _ _ (λ a b, a = b ∧ ids (req_pool_id a))).
    - apply Forall_Forall2_diag. eapply Forall_impl; [exact Hl|]. done.
    - intros a b [<- Ha]. by apply apply_line_alike. }
  specialize (H (s, plan_default) (s', plan_default) (conj Hs (Build_same_plan _ _ eq_refl eq_refl eq_refl eq_refl))).
  unfold plan_apply. revert H. generalize (iterM (apply_line t) lines (s', plan_default)).
  generalize (iterM (apply_line t) lines (s, plan_default)).
  intros [[[]|[]] [s1 r1]] [[[]|[]] [s2 r2]]; try done.
  intros [_ [H1 H2]]. split; [by apply dedupe_same|done].
Qed.
