(* ===== verification/V3Direct.v ===== *)
(** Path A of the two-path ledger: [ledger_submit_trx] (ledger-direct, submit.rs
    and ledger_error_map.rs), one submission inside the caller's transaction. *)
From S2P Require Import Prelude V3Plan V3Layered V3Wac V3Method V3Books V3Db V3Hydrate V3Refine.
From S2P Require Import V3Commit V3Safe.

(** * Transactions

    An aborted transaction leaves the tables as they were; the identity
    sequences keep the values they reached. *)
Definition rollback (before after : Db) : Db :=
  {| db_account := db_account before; db_pool := db_pool before;
     db_pool_state := db_pool_state before; db_pool_lock := db_pool_lock before;
     db_trx := db_trx before; db_trx_line := db_trx_line before;
     db_posting_line := db_posting_line before; db_provisional := db_provisional before;
     db_trx_last := db_trx_last after; db_trx_line_last := db_trx_line_last after;
     db_posting_last := db_posting_last after; db_provisional_last := db_provisional_last after |}.
Definition in_transaction {A} (m : Tx A) : Tx A :=
  λ d, match m d with
       | (Ok a, d') => (Ok a, d')
       | (Err e, d') => (Err e, rollback d d')
       end.

(** * Requests *)
Definition decode_line_type (s : string) : option LineType :=
  if decide (s = "po_receipt_line"%string) then Some PoReceiptLine
  else if decide (s = "wo_output"%string) then Some WoOutput
  else if decide (s = "wo_backflush"%string) then Some WoBackflush
  else if decide (s = "wo_scrap"%string) then Some WoScrap
  else if decide (s = "inv_adjustment_line"%string) then Some InvAdjustmentLine
  else if decide (s = "transfer_shipment_line"%string) then Some TransferShipmentLine
  else if decide (s = "transfer_receipt_line"%string) then Some TransferReceiptLine
  else if decide (s = "manual_adjustment_line"%string) then Some ManualAdjustmentLine
  else if decide (s = "revaluation_line"%string) then Some RevaluationLine
  else None.

Record LineJson := {
  lj_pool_id : Z;
  lj_line_type : string;
  lj_source_id : option Z;
  lj_qty : Z;
  lj_unit_cost : Z;
  lj_debit_account : Z;
  lj_credit_account : Z;
}.

Definition line_request (l : LineJson) (lt : LineType) : TrxLineRequest :=
  {| req_pool_id := lj_pool_id l; req_line_type := lt; req_source_id := lj_source_id l;
     req_qty := lj_qty l; req_unit_cost := lj_unit_cost l;
     req_debit_account := lj_debit_account l; req_credit_account := lj_credit_account l |}.

Fixpoint line_requests (ls : list LineJson) : Res SqlError (list TrxLineRequest) :=
  match ls with
  | [] => Ok []
  | l :: ls =>
      match decode_line_type (lj_line_type l) with
      | None => Err (SqlRaised "22023" "unknown line_type")
      | Some lt => rs ← line_requests ls; Ok (line_request l lt :: rs)
      end
  end.

(** [raise_ledger_error]: the SQLSTATE of each planning error. *)
Definition ledger_sqlstate (e : LedgerError) : string :=
  match e with
  | InsufficientInventory _ _ _ => "23000"
  | MethodMismatch _ _ _ => "22000"
  | UnknownPool _ => "42704"
  | MissingStandardCost _ _ => "22000"
  | Overflow _ => "22003"
  end.
Definition raise_ledger_error (e : Fault LedgerError) : SqlError :=
  match e with
  | Returned e => SqlRaised (ledger_sqlstate e) "ledger_core"
  | Panicked msg => RustPanicked msg
  end.

(** Steps 2 to 8 of the pipeline. *)
Definition submit_lines (trx_type : string) (source_id : Z) (posted_at : Timestamp)
    (lines : list TrxLineRequest) : Tx Z :=
  let touched := sorted_dedup (map req_pool_id lines) in
  acquire_pool_locks touched;;
  s ← gets (λ d, hydrate_snapshot d touched);
  match plan_apply s lines posted_at with
  | (Err e, _) => throw (raise_ledger_error e)
  | (Ok plan, _) => apply_plan_result trx_type source_id posted_at plan
  end.

Section entry.
(** Timestamps are parsed by chrono, the JSON argument by serde. *)
Context {Json : Type} (parse_from_rfc3339 : string → option Timestamp)
        (from_value : Json → option (list LineJson)).

Definition ledger_submit_trx (trx_type : string) (source_id : Z) (posted_at : string)
    (lines : Json) : Tx Z :=
  match parse_from_rfc3339 posted_at with
  | None => throw (SqlRaised "22007" "posted_at not RFC3339")
  | Some t =>
      match from_value lines with
      | None => throw (SqlRaised "22023" "lines JSONB decode failed")
      | Some ls => reqs ← lift (line_requests ls); submit_lines trx_type source_id t reqs
      end
  end.
End entry.

(** * Locks and rollback leave the ledger alone *)
Lemma acquire_pool_locks_run ids d :
  (∀ p, p ∈ ids → is_Some (db_pool d !! p)) →
  ∃ l, acquire_pool_locks ids d = (Ok (sorted_dedup ids), set_pool_lock l d).
Proof.
  intros Hp. unfold acquire_pool_locks.
  assert (∀ k, (∀ p, p ∈ k → is_Some (db_pool d !! p)) → ∀ l0, ∃ l,
    iterM (λ pid, d ← gets id;
                  ensure (bool_decide (is_Some (db_pool d !! pid)))
                    else (SqlRaised "23503" "pool_lock_pool_id_fkey");
                  modify (set_pool_lock ({[pid]} ∪ db_pool_lock d))) k (set_pool_lock l0 d) =
      (Ok tt, set_pool_lock l d)) as H.
  { induction k as [|p k IH]; intros Hk l0; [by exists l0|]. cbn [iterM].
    edestruct IH as [l Hl]; [intros q Hq; apply Hk; by right|]. exists l.
    erewrite SE_bind_run; [exact Hl|]. unfold mbind, SE_bind, gets, id. cbn.
    rewrite bool_decide_eq_true_2 by (apply Hk; by left). reflexivity. }
  destruct (H (sorted_dedup ids)) with (l0 := db_pool_lock d) as [l Hl].
  { intros p Hin. apply Hp. by rewrite elem_of_sorted_dedup in Hin. }
  exists l. replace (set_pool_lock (db_pool_lock d) d) with d in Hl by (by destruct d).
  by rewrite (SE_bind_run _ _ _ _ _ Hl).
Qed.

Lemma acquire_pool_locks_Ok ids d r d' :
  acquire_pool_locks ids d = (Ok r, d') → ∃ l, d' = set_pool_lock l d.
Proof.
  unfold acquire_pool_locks. intros H. inv_run.
  match goal with H : iterM _ _ _ = _ |- _ => revert H end.
  assert (∃ l, d = set_pool_lock l d) as Hd by (exists (db_pool_lock d); by destruct d).
  intros H. eapply (iterM_inv (λ x, ∃ l, x = set_pool_lock l d)); [|exact H|exact Hd].
  intros p x y _ Hrun [l ->]. inv_run. by eexists.
Qed.

Lemma hydrate_lock l d ids : hydrate_snapshot (set_pool_lock l d) ids = hydrate_snapshot d ids.
Proof. done. Qed.
Lemma db_wf_lock l d : db_wf d → db_wf (set_pool_lock l d).
Proof. by intros []. Qed.

(** Sequences only move forward, and a submission leaves the charts of accounts
    and pools alone. *)
Record counters_le (d d' : Db) : Prop := {
  cl_account : db_account d' = db_account d;
  cl_pool : db_pool d' = db_pool d;
  cl_lines : dom (db_trx_line d) ⊆ dom (db_trx_line d');
  cl_trx : db_trx_last d ≤ db_trx_last d';
  cl_line : db_trx_line_last d ≤ db_trx_line_last d';
  cl_post : db_posting_last d ≤ db_posting_last d';
  cl_prov : db_provisional_last d ≤ db_provisional_last d';
}.
#[global] Instance counters_le_preorder : PreOrder counters_le.
Proof. split; [by split|]. intros a b c [] []. split; lia || congruence || set_solver. Qed.

Lemma rollback_wf d d' : counters_le d d' → db_wf d → db_wf (rollback d d').
Proof.
  intros [] []. split; cbn; try done.
  - eapply map_Forall_impl; [exact dw_trx|]. cbn. lia.
  - eapply map_Forall_impl; [exact dw_line|]. cbn. lia.
  - eapply map_Forall_impl; [exact dw_post|]. cbn. lia.
  - eapply map_Forall_impl; [exact dw_prov|]. cbn. lia.
  - lia.
Qed.

(** * Every statement moves the sequences forward *)
Definition advances {A} (m : Tx A) : Prop := ∀ d r d', m d = (r, d') → counters_le d d'.

Lemma advances_bind {A B} (m : Tx A) (f : A → Tx B) :
  advances m → (∀ a, advances (f a)) → advances (m ≫= f).
Proof.
  intros Hm Hf d r d'. unfold mbind, SE_bind. destruct (m d) as [[a|e] d1] eqn:E.
  - intros H. etrans; [by eapply Hm|by eapply Hf].
  - intros [= <- <-]. by eapply Hm.
Qed.
Lemma advances_pure {A} (m : Tx A) : (∀ d, (m d).2 = d) → advances m.
Proof. intros H d r d' E. specialize (H d). rewrite E in H. cbn in H. by subst. Qed.
Lemma advances_modify f : (∀ d, counters_le d (f d)) → advances (modify f).
Proof. by intros H d r d' [= <- <-]. Qed.
Lemma advances_if {A} (b : bool) (m n : Tx A) : advances m → advances n → advances (if b then m else n).
Proof. by destruct b. Qed.
Lemma advances_iterM {X} (f : X → Tx unit) l : (∀ a, advances (f a)) → advances (iterM f l).
Proof.
  intros Hf. induction l as [|a l IH]; cbn; [by apply advances_pure|]. by apply advances_bind.
Qed.
Lemma advances_mapM {X B} (f : X → Tx B) l : (∀ a, advances (f a)) → advances (mapM_tx f l).
Proof.
  intros Hf. induction l as [|a l IH]; cbn; [by apply advances_pure|].
  apply advances_bind; [done|]. intros b. apply advances_bind; [done|]. intros bs.
  by apply advances_pure.
Qed.
Ltac solve_advances :=
  repeat first
    [ apply advances_iterM; intros ?
    | apply advances_mapM; intros ?
    | apply advances_bind; [|intros ?]
    | apply advances_if
    | apply advances_modify; intros ?; split; cbn; done || lia || set_solver
    | apply advances_pure; by intros ?
    | progress cbv zeta
    | case_match ].

Lemma apply_plan_result_advances ty src t r : advances (apply_plan_result ty src t r).
Proof.
  unfold apply_plan_result, insert_trx, insert_trx_lines, insert_trx_line_row,
    check_line_references, apply_pool_state_mutations, insert_posting_lines, insert_posting_row,
    insert_provisional_postings, index_or_panic.
  solve_advances.
Qed.
Lemma submit_lines_advances ty src t lines : advances (submit_lines ty src t lines).
Proof.
  unfold submit_lines, acquire_pool_locks. cbv zeta.
  apply advances_bind; [solve_advances|intros _]. apply advances_bind; [solve_advances|intros s].
  destruct (plan_apply s lines t) as [[plan|e] s']; [apply apply_plan_result_advances|solve_advances].
Qed.

(** * What a successful write says about its arguments *)
Lemma mapM_tx_Ok_each {X B} (f : X → Tx B) (P : X → B → Prop) l d bs d' :
  (∀ a, advances (f a)) →
  (∀ a d1 b d2, counters_le d d1 → f a d1 = (Ok b, d2) → P a b) →
  mapM_tx f l d = (Ok bs, d') → Forall2 P l bs.
Proof.
  intros Hadv Hf. assert (∀ d1, counters_le d d1 → ∀ bs, mapM_tx f l d1 = (Ok bs, d') → Forall2 P l bs) as H.
  { clear bs. induction l as [|a l IH]; intros d1 Hd1 bs; cbn [mapM_tx].
    - intros [= <- _]. constructor.
    - intros H. inv_run. constructor; [by eapply Hf|]. eapply IH; [|done]. etrans; [done|by eapply Hadv]. }
  intros. eapply H; [|done]. reflexivity.
Qed.

Definition posting_accounts (d : Db) (po : PostingLineRequest) : Prop :=
  pst_debit_account po ∈ db_account d ∧ pst_credit_account po ∈ db_account d.

Lemma insert_posting_lines_accounts reqs ids d bs d' :
  insert_posting_lines reqs ids d = (Ok bs, d') → Forall (posting_accounts d) reqs.
Proof.
  unfold insert_posting_lines. intros (rows & d1 & H1 & H2)%SE_bind_Ok.
  assert (∀ r, advances (id ← index_or_panic ids (pst_trx_line_idx r); mret (posting_row id r))) as Hadv
    by (intros r; unfold index_or_panic; solve_advances).
  pose proof (advances_mapM _ _ Hadv _ _ _ H1) as Hd1.
  apply (mapM_tx_Ok_each _ (λ r row, ∃ i, row = posting_row i r)) in H1; [|done|].
  2: { intros r x row y _ Hr. inv_run. eauto. }
  apply (mapM_tx_Ok_each _ (λ row _, pr_debit_account row ∈ db_account d ∧
                                     pr_credit_account row ∈ db_account d)) in H2.
  - clear Hd1 Hadv. revert bs H2. induction H1 as [|r row reqs rows [i ->] H1 IH]; intros bs H2; [constructor|].
    inversion_clear H2 as [|? b ? bs' Hb]. constructor; [exact Hb|by eapply IH].
  - intros row. unfold insert_posting_row. solve_advances.
  - intros row x b y Hx Hrow. unfold insert_posting_row in Hrow. inv_run.
    rewrite !bool_decide_eq_true in *. rewrite <-(cl_account _ _ Hd1), <-(cl_account _ _ Hx). done.
Qed.

Lemma insert_trx_inv ty src t d i d' :
  insert_trx ty src t d = (Ok i, d') → ty ∈ trx_types ∧ document_fresh ty src d.
Proof. unfold insert_trx. intros H. inv_run. by rewrite !bool_decide_eq_true in *. Qed.

Lemma apply_plan_result_inv ty src t r d i d' :
  apply_plan_result ty src t r d = (Ok i, d') →
  ty ∈ trx_types ∧ document_fresh ty src d ∧ Forall (posting_accounts d) (posting_lines r).
Proof.
  unfold apply_plan_result.
  intros (trx_id & d1 & H1 & (ids & d2 & H2 & ([] & d3 & H3 & (pids & d4 & H4 & _)%SE_bind_Ok)%SE_bind_Ok)%SE_bind_Ok)%SE_bind_Ok.
  assert (counters_le d d3) as Hc.
  { etrans; [|etrans].
    - assert (advances (insert_trx ty src t)) as Ha by (unfold insert_trx; solve_advances). by eapply Ha.
    - assert (advances (insert_trx_lines trx_id (trx_lines r))) as Ha
        by (unfold insert_trx_lines, insert_trx_line_row, check_line_references; solve_advances).
      by eapply Ha.
    - assert (advances (apply_pool_state_mutations (pool_state_mutations r) ids)) as Ha
        by (unfold apply_pool_state_mutations; solve_advances).
      by eapply Ha. }
  apply insert_trx_inv in H1 as [? ?]. apply insert_posting_lines_accounts in H4.
  split_and!; [done|done|]. eapply Forall_impl; [exact H4|].
  unfold posting_accounts. intros po. by rewrite (cl_account _ _ Hc).
Qed.

(** * Path A on a well-formed database *)
Lemma touched_elem lines p : p ∈ sorted_dedup (map req_pool_id lines) ↔ ∃ l, l ∈ lines ∧ req_pool_id l = p.
Proof. rewrite elem_of_sorted_dedup, list_elem_of_fmap. naive_solver. Qed.

(** The three ways a submission of known pools ends. *)
Lemma submit_lines_cases ty src t lines d :
  (∀ l, l ∈ lines → is_Some (db_pool d !! req_pool_id l)) →
  ∃ lk, let touched := sorted_dedup (map req_pool_id lines) in
  submit_lines ty src t lines d =
    match plan_apply (hydrate_snapshot d touched) lines t with
    | (Err e, _) => (Err (raise_ledger_error e), set_pool_lock lk d)
    | (Ok plan, _) => apply_plan_result ty src t plan (set_pool_lock lk d)
    end.
Proof.
  intros Hp. destruct (acquire_pool_locks_run (sorted_dedup (map req_pool_id lines)) d) as [lk Hlk].
  { intros p (l & Hl & <-)%touched_elem. by apply Hp. }
  exists lk. cbv zeta. unfold submit_lines. cbv zeta. rewrite (SE_bind_run _ _ _ _ _ Hlk).
  unfold mbind, SE_bind, gets. rewrite hydrate_lock. by destruct (plan_apply _ _ _) as [[]].
Qed.

Lemma submit_lines_Ok ty src t lines d i d' :
  db_wf d → submit_lines ty src t lines d = (Ok i, d') → db_wf d' ∧ i = db_trx_last d + 1.
Proof.
  unfold submit_lines. intros Hwf E. apply SE_bind_Ok in E as (ids & d2 & Hlk & E).
  apply acquire_pool_locks_Ok in Hlk as [l ->]. apply SE_bind_Ok in E as (s & d3 & [= <- <-] & E).
  destruct (plan_apply _ _ _) as [[plan|e] s'] eqn:Hplan; [|done].
  pose proof (apply_plan_result_inv _ _ _ _ _ _ _ E) as (Hty & Hdoc & Hacc).
  destruct (commit_plan _ _ _ _ _ _ ty src (db_wf_lock l d Hwf) Hplan) as (d1 & Hrun & Hwf' & _);
    [done..|]. rewrite Hrun in E. by injection E as <- <-.
Qed.

Lemma submit_trx_advances {Json} parse (from : Json → option (list LineJson)) ty src posted_at lines :
  advances (ledger_submit_trx parse from ty src posted_at lines).
Proof.
  unfold ledger_submit_trx. do 2 (case_match; [|by apply advances_pure]).
  apply advances_bind; [by apply advances_pure|]. intros reqs. apply submit_lines_advances.
Qed.

(** Path A keeps the database well formed, whatever it is called with: any
    timestamp text, any JSON, unknown pools, accounts or types, duplicate
    documents, failing plans.  A call that fails leaves every table as it was
    (only the identity sequences may have moved on). *)
Theorem submit_trx_preserves_wf {Json} parse (from : Json → option (list LineJson))
    ty src posted_at lines d r d' :
  db_wf d → in_transaction (ledger_submit_trx parse from ty src posted_at lines) d = (r, d') →
  db_wf d' ∧ match r with Ok i => i = db_trx_last d + 1 | Err _ => d' = rollback d d' end.
Proof.
  intros Hwf. unfold in_transaction.
  destruct (ledger_submit_trx _ _ _ _ _ _ d) as [[i|e] d1] eqn:E; intros [= <- <-].
  - unfold ledger_submit_trx in E. destruct (parse posted_at) as [t|]; [|done].
    destruct (from lines) as [ls|]; [|done]. apply SE_bind_Ok in E as (reqs & d0 & E0 & E).
    injection E0 as _ <-. by eapply submit_lines_Ok.
  - split; [|done]. apply rollback_wf; [|done]. eapply submit_trx_advances, E.
Qed.

Lemma rollback_lock l d : rollback d (set_pool_lock l d) = d.
Proof. by destruct d. Qed.

(** The sequel of a successful submission, as the other components rely on it. *)
Record submitted (d : Db) (ids : list Z) (s' : Snapshot) (trx : TrxRow) (d' : Db) : Prop := {
  sb_wf : db_wf d';
  sb_shows : shows s' (state_val <$> db_pool_state d');
  sb_max : ∀ p, max_trx_seq d' p = if decide (p ∈ ids) then max_seq s' p else max_trx_seq d p;
  sb_others : ∀ p l, p ∉ ids →
    state_val <$> db_pool_state d' !! (p, l) = state_val <$> db_pool_state d !! (p, l);
  sb_snapshot : snapshot_wf s' ∧ method_of s' = method_of (hydrate_snapshot d ids);
  sb_charts : db_pool d' = db_pool d ∧ db_account d' = db_account d;
  sb_trx : db_trx d' = <[db_trx_last d + 1 := trx]> (db_trx d);
}.

Definition submission_valid (ty : string) (src : Z) (lines : list TrxLineRequest) (d : Db) : Prop :=
  ty ∈ trx_types ∧ document_fresh ty src d ∧
  Forall (λ l, is_Some (db_pool d !! req_pool_id l)) lines ∧
  Forall (line_accounts (λ a, a ∈ db_account d)) lines.

Lemma submit_lines_run ty src t lines d :
  db_wf d → submission_valid ty src lines d →
  let ids := sorted_dedup (map req_pool_id lines) in
  match plan_apply (hydrate_snapshot d ids) lines t with
  | (Ok plan, s') => ∃ d', in_transaction (submit_lines ty src t lines) d = (Ok (db_trx_last d + 1), d') ∧
      submitted d ids s' {| trx_trx_type := ty; trx_source_id := src; trx_posted_at := t |} d'
  | (Err (Returned e), _) =>
      in_transaction (submit_lines ty src t lines) d = (Err (SqlRaised (ledger_sqlstate e) "ledger_core"), d)
  | (Err (Panicked _), _) => False
  end.
Proof.
  intros Hwf (Hty & Hdoc & Hpools & Hacc) ids. unfold in_transaction.
  destruct (submit_lines_cases ty src t lines d) as [lk Hrun].
  { intros l Hl. rewrite Forall_forall in Hpools. by apply Hpools. }
  cbv zeta in Hrun. fold ids in Hrun. rewrite Hrun.
  pose proof (plan_apply_returns (hydrate_snapshot d ids) lines t) as Hret.
  destruct (plan_apply _ _ _) as [[plan|[e|]] s'] eqn:Hplan; [| |done].
  - destruct (commit_plan (set_pool_lock lk d) ids lines t plan s' ty src) as
      (d' & Hw & Hwf' & Hsh & Hmax & Hoth & Hswf & Hmeth & Hpool & Hac & Htrx);
      [by apply db_wf_lock|done|done|done|by apply (plan_accounts _ _ _ _ _ (λ a, a ∈ db_account d) Hplan)|].
    exists d'. rewrite Hw. split; [done|]. by split.
  - cbn. by rewrite rollback_lock.
Qed.

