(* ===== verification/V3Arena.v ===== *)
(** The spillover arena of Path B (ledger-routed, arena.rs): a 128 MiB byte
    region with an 8-byte header per block, a first-fit LIFO freelist threaded
    through the headers, and bump allocation behind it.  All operations run under
    one exclusive lock, so they are steps on one state.  The specification is the
    list of blocks a client owns. *)
From S2P Require Import Prelude.

(** * Bytes *)
Definition wrap_u32 (z : Z) : Z := z `mod` 2 ^ 32.
Definition wrap_u64 (z : Z) : Z := z `mod` 2 ^ 64.
Definition to_le_bytes (v : Z) : list Z :=
  [v `mod` 256; (v `div` 256) `mod` 256; (v `div` 65536) `mod` 256; (v `div` 16777216) `mod` 256].
Definition from_le_bytes (b : list Z) : Z :=
  match b with
  | [b0; b1; b2; b3] => b0 + 256 * b1 + 65536 * b2 + 16777216 * b3
  | _ => 0
  end.

(** * The region (shmem.rs)

    The bytes are zero-filled at startup: an offset that was never written holds
    zero. *)
Record SpilloverArena := {
  freelist_head_offset : Z;
  bump_offset : Z;
  total_allocs : Z;
  total_frees : Z;
  bytes : gmap Z Z;
}.
Definition ARENA_BYTES : Z := 128 * 1024 * 1024.
Definition BLOCK_HEADER_BYTES : Z := 8.
Definition ALLOC_ALIGN : Z := 8.
Definition fresh_arena : SpilloverArena :=
  {| freelist_head_offset := 0; bump_offset := 0; total_allocs := 0; total_frees := 0; bytes := ∅ |}.

Definition byte_at (m : gmap Z Z) (i : Z) : Z := default 0 (m !! i).
Fixpoint write_at (o : Z) (data : list Z) (m : gmap Z Z) : gmap Z Z :=
  match data with [] => m | b :: data => write_at (o + 1) data (<[o := b]> m) end.
Definition read_at (o len : Z) (m : gmap Z Z) : list Z := map (λ k, byte_at m (o + k)) (seqZ 0 len).

(** A slice out of bounds panics; a walk along a cyclic freelist does not end. *)
Inductive ArenaFault : Type := ArenaPanicked (msg : string) | ArenaLoops.
Abbreviation Mem := (SE SpilloverArena ArenaFault).

Definition set_bytes (m : gmap Z Z) (a : SpilloverArena) : SpilloverArena :=
  {| freelist_head_offset := freelist_head_offset a; bump_offset := bump_offset a;
     total_allocs := total_allocs a; total_frees := total_frees a; bytes := m |}.
Definition set_head (h : Z) (a : SpilloverArena) : SpilloverArena :=
  {| freelist_head_offset := h; bump_offset := bump_offset a;
     total_allocs := total_allocs a; total_frees := total_frees a; bytes := bytes a |}.
Definition set_bump (b : Z) (a : SpilloverArena) : SpilloverArena :=
  {| freelist_head_offset := freelist_head_offset a; bump_offset := b;
     total_allocs := total_allocs a; total_frees := total_frees a; bytes := bytes a |}.
Definition count_alloc (a : SpilloverArena) : SpilloverArena :=
  {| freelist_head_offset := freelist_head_offset a; bump_offset := bump_offset a;
     total_allocs := wrap_u64 (total_allocs a + 1); total_frees := total_frees a; bytes := bytes a |}.
Definition count_free (a : SpilloverArena) : SpilloverArena :=
  {| freelist_head_offset := freelist_head_offset a; bump_offset := bump_offset a;
     total_allocs := total_allocs a; total_frees := wrap_u64 (total_frees a + 1); bytes := bytes a |}.

(** * Operations *)
Definition write_bytes (payload_offset : Z) (data : list Z) : Mem unit :=
  a ← gets id;
  ensure (payload_offset + Z.of_nat (length data) <=? ARENA_BYTES)
    else (ArenaPanicked "range end index out of range");
  modify (set_bytes (write_at payload_offset data (bytes a))).
Definition read_bytes (payload_offset len : Z) : Mem (list Z) :=
  a ← gets id;
  ensure (payload_offset + len <=? ARENA_BYTES)
    else (ArenaPanicked "range end index out of range");
  mret (read_at payload_offset len (bytes a)).

Record BlockHeader := { hd_size : Z; hd_next_free : Z }.
Definition read_header (header_offset : Z) : Mem BlockHeader :=
  size ← read_bytes header_offset 4;
  next_free ← read_bytes (header_offset + 4) 4;
  mret {| hd_size := from_le_bytes size; hd_next_free := from_le_bytes next_free |}.
Definition write_header (header_offset : Z) (hdr : BlockHeader) : Mem unit :=
  write_bytes header_offset (to_le_bytes (hd_size hdr));;
  write_bytes (header_offset + 4) (to_le_bytes (hd_next_free hdr)).

(** [u32] arithmetic wraps in the release profile. *)
Definition align_up (value alignment : Z) : Z :=
  Z.land (wrap_u32 (value + alignment - 1)) (2 ^ 32 - 1 - (alignment - 1)).

(** The first-fit walk: the payload offset of the block taken, if one fits.  A
    walk longer than the number of header positions below the high-water mark
    has come back to a block. *)
Fixpoint walk_freelist (fuel : nat) (size prev cur : Z) : Mem (option Z) :=
  match fuel with
  | O => throw ArenaLoops
  | S fuel =>
      if decide (cur = 0) then mret None else
      hdr ← read_header cur;
      if size <=? hd_size hdr then
        (if decide (prev = 0) then modify (set_head (hd_next_free hdr))
         else p ← read_header prev;
              write_header prev {| hd_size := hd_size p; hd_next_free := hd_next_free hdr |});;
        write_header cur {| hd_size := hd_size hdr; hd_next_free := 0 |};;
        modify count_alloc;;
        mret (Some (wrap_u32 (cur + BLOCK_HEADER_BYTES)))
      else walk_freelist fuel size cur (hd_next_free hdr)
  end.
Definition walk_fuel (a : SpilloverArena) : nat := S (Z.to_nat (bump_offset a `div` 8)).

Definition bump_alloc (size : Z) : Mem (option Z) :=
  a ← gets id;
  let header_offset := bump_offset a in
  let new_bump := header_offset + wrap_u32 (BLOCK_HEADER_BYTES + size) in
  if 2 ^ 32 - 1 <? new_bump then mret None else
  if ARENA_BYTES <? new_bump then mret None else
  modify (set_bump new_bump);;
  write_header header_offset {| hd_size := size; hd_next_free := 0 |};;
  modify count_alloc;;
  mret (Some (wrap_u32 (header_offset + BLOCK_HEADER_BYTES))).

Definition alloc (size : Z) : Mem (option Z) :=
  if decide (size = 0) then mret None else
  let size := align_up size ALLOC_ALIGN in
  a ← gets id;
  (if decide (bump_offset a = 0) then modify (set_bump BLOCK_HEADER_BYTES) else mret tt);;
  a ← gets id;
  found ← walk_freelist (walk_fuel a) size 0 (freelist_head_offset a);
  match found with Some p => mret (Some p) | None => bump_alloc size end.

Definition free (payload_offset : Z) : Mem unit :=
  let header_offset := wrap_u32 (payload_offset - BLOCK_HEADER_BYTES) in
  hdr ← read_header header_offset;
  a ← gets id;
  write_header header_offset {| hd_size := hd_size hdr; hd_next_free := freelist_head_offset a |};;
  modify (set_head header_offset);;
  modify count_free.

Definition outstanding_allocs (a : SpilloverArena) : Z := Z.max 0 (total_allocs a - total_frees a).

(** * Lemmas on bytes *)
Lemma from_to_le_bytes v : 0 ≤ v < 2 ^ 32 → from_le_bytes (to_le_bytes v) = v.
Proof.
  intros Hv. unfold to_le_bytes, from_le_bytes.
  pose proof (Z.div_mod v 256 ltac:(lia)) as E0.
  pose proof (Z.div_mod (v `div` 256) 256 ltac:(lia)) as E1.
  pose proof (Z.div_mod (v `div` 65536) 256 ltac:(lia)) as E2.
  assert (v `div` 65536 = (v `div` 256) `div` 256) as D1 by (rewrite Z.div_div by lia; done).
  assert (v `div` 16777216 = (v `div` 65536) `div` 256) as D2 by (rewrite Z.div_div by lia; done).
  assert (v `div` 16777216 < 256) by (apply Z.div_lt_upper_bound; lia).
  assert (0 ≤ v `div` 16777216) by (apply Z.div_pos; lia).
  rewrite (Z.mod_small (v `div` 16777216)) by lia. lia.
Qed.

Lemma byte_write_out o data m i :
  i < o ∨ o + Z.of_nat (length data) ≤ i → byte_at (write_at o data m) i = byte_at m i.
Proof.
  revert o m. induction data as [|b data IH]; intros o m Hi; [done|]. cbn [write_at length] in *.
  rewrite IH by lia. unfold byte_at. by rewrite lookup_insert_ne by lia.
Qed.
Lemma byte_write_in o data m (k : nat) b :
  data !! k = Some b → byte_at (write_at o data m) (o + Z.of_nat k) = b.
Proof.
  revert o m k. induction data as [|c data IH]; intros o m k Hk; [done|]. destruct k as [|k]; cbn in *.
  - injection Hk as ->. rewrite byte_write_out by lia. unfold byte_at.
    rewrite Z.add_0_r. by rewrite lookup_insert_eq.
  - replace (o + Z.of_nat (S k)) with (o + 1 + Z.of_nat k) by lia. by apply IH.
Qed.
Lemma read_at_ext o len m m' :
  (∀ i, o ≤ i < o + len → byte_at m' i = byte_at m i) → read_at o len m' = read_at o len m.
Proof.
  intros H. unfold read_at. apply map_ext_in. intros k Hk%list_elem_of_In%elem_of_seqZ. apply H. lia.
Qed.
Lemma read_write_at o data m : read_at o (Z.of_nat (length data)) (write_at o data m) = data.
Proof.
  apply list_eq. intros k. unfold read_at. change (map ?f ?l) with (f <$> l). rewrite list_lookup_fmap.
  destruct (decide (k < length data)%nat) as [Hk|Hk].
  - rewrite lookup_seqZ_lt by lia. cbn. destruct (lookup_lt_is_Some_2 data k Hk) as [b Hb].
    rewrite Hb. f_equal. rewrite Z.add_0_l. by apply byte_write_in.
  - rewrite lookup_seqZ_ge by lia. symmetry. apply lookup_ge_None_2. lia.
Qed.

(** The 32-bit word at an offset. *)
Definition word (m : gmap Z Z) (o : Z) : Z := from_le_bytes (read_at o 4 m).
Lemma word_ext m m' o : (∀ i, o ≤ i < o + 4 → byte_at m' i = byte_at m i) → word m' o = word m o.
Proof. intros H. unfold word. by rewrite (read_at_ext o 4 m m'). Qed.
Lemma word_write_eq o v m : 0 ≤ v < 2 ^ 32 → word (write_at o (to_le_bytes v) m) o = v.
Proof. intros Hv. unfold word. rewrite (read_write_at o (to_le_bytes v)). by apply from_to_le_bytes. Qed.
Lemma word_write_ne o data m o' :
  o' + 4 ≤ o ∨ o + Z.of_nat (length data) ≤ o' → word (write_at o data m) o' = word m o'.
Proof. intros H. apply word_ext. intros i Hi. apply byte_write_out. lia. Qed.

(** * Headers *)
Definition put_header (h s n : Z) (m : gmap Z Z) : gmap Z Z :=
  write_at (h + 4) (to_le_bytes n) (write_at h (to_le_bytes s) m).

Lemma read_header_run h a :
  h + 8 ≤ ARENA_BYTES →
  read_header h a = (Ok {| hd_size := word (bytes a) h; hd_next_free := word (bytes a) (h + 4) |}, a).
Proof.
  intros Hh. unfold read_header, read_bytes, mbind, SE_bind, gets, id. cbv beta iota.
  rewrite (proj2 (Z.leb_le _ _)) by lia. cbn -[ARENA_BYTES]. rewrite (proj2 (Z.leb_le _ _)) by lia. done.
Qed.
Lemma write_header_run h hdr a :
  h + 8 ≤ ARENA_BYTES →
  write_header h hdr a = (Ok tt, set_bytes (put_header h (hd_size hdr) (hd_next_free hdr) (bytes a)) a).
Proof.
  intros Hh. unfold write_header, write_bytes, mbind, SE_bind, gets, id. cbv beta iota.
  rewrite (proj2 (Z.leb_le _ _)) by (cbn [length to_le_bytes]; lia). cbn -[ARENA_BYTES to_le_bytes].
  rewrite (proj2 (Z.leb_le _ _)) by (cbn [length to_le_bytes]; lia). done.
Qed.

Lemma put_header_size h s n m : 0 ≤ s < 2 ^ 32 → word (put_header h s n m) h = s.
Proof. intros Hs. unfold put_header. rewrite word_write_ne by lia. by apply word_write_eq. Qed.
Lemma put_header_next h s n m : 0 ≤ n < 2 ^ 32 → word (put_header h s n m) (h + 4) = n.
Proof. intros Hn. by apply word_write_eq. Qed.
Lemma put_header_byte h s n m i : i < h ∨ h + 8 ≤ i → byte_at (put_header h s n m) i = byte_at m i.
Proof. intros Hi. unfold put_header. by rewrite !byte_write_out by (cbn; lia). Qed.
Lemma put_header_word h s n m o : o + 4 ≤ h ∨ h + 8 ≤ o → word (put_header h s n m) o = word m o.
Proof. intros Ho. apply word_ext. intros i Hi. apply put_header_byte. lia. Qed.

(** * The layout of the region

    Blocks (header offset, payload size) tile the region up to the high-water
    mark; the freelist threads some of their headers. *)
Fixpoint tiles (o : Z) (bs : list (Z * Z)) (e : Z) : Prop :=
  match bs with
  | [] => o = e
  | b :: bs => b.1 = o ∧ 0 < b.2 ∧ (8 | b.2) ∧ tiles (o + 8 + b.2) bs e
  end.

Lemma tiles_le o bs e : tiles o bs e → o ≤ e.
Proof. revert o. induction bs as [|b bs IH]; intros o; cbn; [lia|]. intros (? & ? & ? & H%IH). lia. Qed.
Lemma tiles_in o bs e b :
  tiles o bs e → b ∈ bs → o ≤ b.1 ∧ b.1 + 8 + b.2 ≤ e ∧ 0 < b.2 ∧ (8 | b.2).
Proof.
  revert o. induction bs as [|c bs IH]; intros o; [by intros _ ?%elem_of_nil|]. cbn.
  intros (H1 & H2 & H3 & H4) [->|Hb]%elem_of_cons.
  - pose proof (tiles_le _ _ _ H4). split_and!; [lia|lia|lia|done].
  - destruct (IH _ H4 Hb) as (? & ? & ? & ?). split_and!; [lia|lia|lia|done].
Qed.
Lemma tiles_disjoint o bs e b c :
  tiles o bs e → b ∈ bs → c ∈ bs → b = c ∨ b.1 + 8 + b.2 ≤ c.1 ∨ c.1 + 8 + c.2 ≤ b.1.
Proof.
  revert o. induction bs as [|d bs IH]; intros o; [by intros _ ?%elem_of_nil|]. cbn.
  intros (H1 & H2 & H3 & H4) [->|Hb]%elem_of_cons [->|Hc]%elem_of_cons; [by left|..].
  - destruct (tiles_in _ _ _ _ H4 Hc). right. left. lia.
  - destruct (tiles_in _ _ _ _ H4 Hb). right. right. lia.
  - by eapply IH.
Qed.
Lemma tiles_snoc o bs e s :
  tiles o bs e → 0 < s → (8 | s) → tiles o (bs ++ [(e, s)]) (e + 8 + s).
Proof.
  revert o. induction bs as [|b bs IH]; intros o; cbn; [by intros ->|].
  intros (H1 & H2 & H3 & H4) ??. split_and!; auto.
Qed.
Lemma tiles_count o bs e : tiles o bs e → 8 * Z.of_nat (length bs) ≤ e - o.
Proof.
  revert o. induction bs as [|b bs IH]; intros o; cbn [tiles length]; [lia|].
  intros (_ & ? & _ & H%IH). lia.
Qed.

(** A segment of the freelist. *)
Fixpoint seg (m : gmap Z Z) (head : Z) (fl : list Z) (tail : Z) : Prop :=
  match fl with
  | [] => head = tail
  | h :: fl => head = h ∧ h ≠ 0 ∧ seg m (word m (h + 4)) fl tail
  end.
Lemma seg_app m head l k tail : seg m head (l ++ k) tail ↔ ∃ x, seg m head l x ∧ seg m x k tail.
Proof.
  revert head. induction l as [|h l IH]; intros head; cbn.
  - split; [eauto|]. by intros (x & -> & ?).
  - rewrite IH. naive_solver.
Qed.
Lemma seg_ext m m' head fl tail :
  (∀ h, h ∈ fl → word m' (h + 4) = word m (h + 4)) → seg m head fl tail → seg m' head fl tail.
Proof.
  revert head. induction fl as [|h fl IH]; intros head H; cbn; [done|].
  intros (-> & ? & ?). split_and!; [done|done|]. rewrite H by (by left). apply IH; [|done].
  intros. apply H. by right.
Qed.

Definition is_owned (fl : list Z) (b : Z * Z) : Prop := b.1 ∉ fl.
#[global] Instance is_owned_dec fl b : Decision (is_owned fl b).
Proof. unfold is_owned. apply _. Defined.
Definition owned (blocks : list (Z * Z)) (fl : list Z) : list (Z * Z) := filter (is_owned fl) blocks.

Definition top_of (a : SpilloverArena) : Z := if decide (bump_offset a = 0) then 8 else bump_offset a.

Record arena_inv (a : SpilloverArena) (blocks : list (Z * Z)) (fl : list Z) : Prop := {
  ai_tiles : tiles 8 blocks (top_of a);
  ai_bump : 0 ≤ bump_offset a ≤ ARENA_BYTES ∧ bump_offset a `mod` 8 = 0;
  ai_sizes : ∀ b, b ∈ blocks → word (bytes a) b.1 = b.2;
  ai_chain : seg (bytes a) (freelist_head_offset a) fl 0;
  ai_free : NoDup fl ∧ ∀ h, h ∈ fl → h ∈ map fst blocks;
  ai_count : ∃ k, total_allocs a - total_frees a = Z.of_nat (length (owned blocks fl)) + k * 2 ^ 64;
}.

Lemma block_bounds a blocks fl b :
  arena_inv a blocks fl → b ∈ blocks →
  8 ≤ b.1 ∧ b.1 + 8 + b.2 ≤ ARENA_BYTES ∧ 0 < b.2 ∧ (8 | b.2).
Proof.
  intros [Ht Hb _ _ _ _] Hin. destruct (tiles_in _ _ _ _ Ht Hin) as (? & ? & ? & ?).
  unfold top_of in *. split_and!; try done. case_decide; unfold ARENA_BYTES in *; lia.
Qed.
Lemma block_of_header a blocks fl h :
  arena_inv a blocks fl → h ∈ fl → ∃ s, (h, s) ∈ blocks.
Proof.
  intros Hinv Hh. destruct (ai_free _ _ _ Hinv) as [_ Hf]. apply Hf, list_elem_of_fmap in Hh as ([h' s] & -> & ?).
  by exists s.
Qed.

(** * Ownership *)
Definition same_payload (m m' : gmap Z Z) (b : Z * Z) : Prop :=
  ∀ i, b.1 + 8 ≤ i < b.1 + 8 + b.2 → byte_at m' i = byte_at m i.

(** What rewriting the header of [b] with its own size changes: the link of [b]. *)
Record reframes (blocks : list (Z * Z)) (Q : Z * Z → Prop) (m m' : gmap Z Z) : Prop := {
  rf_size : ∀ c, c ∈ blocks → word m' c.1 = word m c.1;
  rf_next : ∀ c, c ∈ blocks → Q c → word m' (c.1 + 4) = word m (c.1 + 4);
  rf_payload : ∀ c, c ∈ blocks → same_payload m m' c;
}.
Lemma reframes_refl blocks Q m : reframes blocks Q m m.
Proof. by split. Qed.
Lemma reframes_trans blocks Q Q' m1 m2 m3 :
  reframes blocks Q m1 m2 → reframes blocks Q' m2 m3 → reframes blocks (λ c, Q c ∧ Q' c) m1 m3.
Proof.
  intros [A1 A2 A3] [B1 B2 B3]. split.
  - intros c Hc. by rewrite B1, A1.
  - intros c Hc [H1 H2]. by rewrite B2, A2.
  - intros c Hc i Hi. by rewrite (B3 c Hc i Hi), (A3 c Hc i Hi).
Qed.
Lemma put_reframes o blocks e b m n :
  tiles o blocks e → b ∈ blocks → word m b.1 = b.2 → 0 ≤ b.2 < 2 ^ 32 →
  reframes blocks (λ c, c ≠ b) m (put_header b.1 b.2 n m).
Proof.
  intros Ht Hb Hw Hs.
  assert (∀ c, c ∈ blocks → c ≠ b → b.1 + 8 + b.2 ≤ c.1 ∨ c.1 + 8 + c.2 ≤ b.1) as Hd.
  { intros c Hc Hne. destruct (tiles_disjoint _ _ _ b c Ht Hb Hc) as [->|?]; done. }
  destruct (tiles_in _ _ _ _ Ht Hb) as (_ & _ & Hpos & _). split.
  - intros c Hc. destruct (decide (c = b)) as [->|Hne]; [by rewrite put_header_size|].
    destruct (tiles_in _ _ _ _ Ht Hc) as (_ & _ & ? & _). specialize (Hd c Hc Hne).
    apply put_header_word. lia.
  - intros c Hc Hne. destruct (tiles_in _ _ _ _ Ht Hc) as (_ & _ & ? & _). specialize (Hd c Hc Hne).
    apply put_header_word. lia.
  - intros c Hc i Hi. apply put_header_byte. destruct (decide (c = b)) as [->|Hne]; [lia|].
    specialize (Hd c Hc Hne). lia.
Qed.

Lemma blocks_functional a blocks fl h s s' :
  arena_inv a blocks fl → (h, s) ∈ blocks → (h, s') ∈ blocks → s = s'.
Proof.
  intros Hinv H1 H2. destruct (tiles_disjoint _ _ _ _ _ (ai_tiles _ _ _ Hinv) H1 H2) as [|Hd]; [congruence|].
  destruct (block_bounds _ _ _ _ Hinv H1), (block_bounds _ _ _ _ Hinv H2). cbn in *. lia.
Qed.
Lemma blocks_NoDup o bs e : tiles o bs e → NoDup bs.
Proof.
  revert o. induction bs as [|b bs IH]; intros o; cbn; [constructor|]. intros (H1 & H2 & H3 & H4).
  constructor; [|by eapply IH]. intros Hb. destruct (tiles_in _ _ _ _ H4 Hb). lia.
Qed.

(** Taking one header off the freelist hands its block to the owner. *)
Lemma owned_take a blocks l h rest s :
  arena_inv a blocks (l ++ h :: rest) → (h, s) ∈ blocks →
  owned blocks (l ++ rest) ≡ₚ (h, s) :: owned blocks (l ++ h :: rest).
Proof.
  intros Hinv Hb. pose proof (blocks_NoDup _ _ _ (ai_tiles _ _ _ Hinv)) as Hnd.
  destruct (ai_free _ _ _ Hinv) as [Hfl _]. apply NoDup_app in Hfl as (_ & Hl & [Hr _]%NoDup_cons).
  assert (∀ b, b ∈ blocks → b.1 = h → b = (h, s)) as Hu.
  { intros [h' s'] Hin Heq. cbn in Heq. subst h'. f_equal. by eapply blocks_functional. }
  apply NoDup_Permutation.
  - by apply NoDup_filter.
  - constructor; [|by apply NoDup_filter]. intros [Hn _]%list_elem_of_filter. apply Hn. cbn. set_solver.
  - intros b. rewrite elem_of_cons. unfold owned. rewrite !list_elem_of_filter. unfold is_owned.
    rewrite !not_elem_of_app, not_elem_of_cons. split.
    + intros [[H1 H2] Hin]. destruct (decide (b.1 = h)) as [Heq|Hne]; [left; by apply Hu|].
      right. done.
    + intros [->|[(H1 & H2 & H3) Hin]]; [|done]. split; [|done]. cbn. split; [|done].
      intros Hin. apply (Hl h); [done|by left].
Qed.

(** The state after unlinking [h], whose predecessor is the last of [l]. *)
Definition unlinked (a : SpilloverArena) (l : list Z) (h s n : Z) : SpilloverArena :=
  let a1 := match last l with
            | None => set_head n a
            | Some p => set_bytes (put_header p (word (bytes a) p) n (bytes a)) a
            end in
  count_alloc (set_bytes (put_header h s 0 (bytes a1)) a1).

Lemma next_bounds a blocks l h rest :
  arena_inv a blocks (l ++ h :: rest) → 0 ≤ word (bytes a) (h + 4) < 2 ^ 32 ∧
  seg (bytes a) (word (bytes a) (h + 4)) rest 0.
Proof.
  intros Hinv. pose proof (ai_chain _ _ _ Hinv) as Hc. apply seg_app in Hc as (x & _ & -> & Hh & Hr).
  split; [|done]. destruct rest as [|n rest]; cbn in Hr; [rewrite Hr; lia|]. destruct Hr as (-> & _).
  destruct (block_of_header _ _ _ n Hinv) as [s Hs]; [set_solver|].
  destruct (block_bounds _ _ _ _ Hinv Hs) as (? & ? & ? & _). cbn in *. unfold ARENA_BYTES in *. lia.
Qed.

Lemma count_alloc_count a (n : nat) :
  (∃ k, total_allocs a - total_frees a = Z.of_nat n + k * 2 ^ 64) →
  ∃ k, total_allocs (count_alloc a) - total_frees (count_alloc a) = Z.of_nat (S n) + k * 2 ^ 64.
Proof.
  intros [k Hk]. cbn. unfold wrap_u64. exists (k - (total_allocs a + 1) `div` 2 ^ 64).
  rewrite Z.mod_eq by lia. lia.
Qed.

Lemma block_size_u32 a blocks fl b : arena_inv a blocks fl → b ∈ blocks → 0 ≤ b.2 < 2 ^ 32.
Proof.
  intros Hinv Hb. destruct (block_bounds _ _ _ _ Hinv Hb) as (? & ? & ? & _). unfold ARENA_BYTES in *. lia.
Qed.

(** Unlinking rewrites the link of the taken block and of its predecessor. *)
Lemma unlinked_frame a blocks l h rest s :
  arena_inv a blocks (l ++ h :: rest) → (h, s) ∈ blocks →
  let n := word (bytes a) (h + 4) in
  reframes blocks (λ c, c.1 ≠ h ∧ Some c.1 ≠ last l) (bytes a) (bytes (unlinked a l h s n)) ∧
  (∀ p, last l = Some p → word (bytes (unlinked a l h s n)) (p + 4) = n).
Proof.
  intros Hinv Hb n. pose proof (next_bounds _ _ _ _ _ Hinv) as [Hn _]. fold n in Hn.
  pose proof (ai_tiles _ _ _ Hinv) as Ht. pose proof (ai_sizes _ _ _ Hinv) as Hsz.
  pose proof (block_size_u32 _ _ _ _ Hinv Hb) as Hs. cbn in Hs.
  unfold unlinked. destruct (last l) as [p|] eqn:Hp; cbn [bytes count_alloc set_bytes set_head].
  - assert (p ∈ l) as Hpl by (by apply last_Some_elem_of).
    destruct (ai_free _ _ _ Hinv) as [Hnd _]. apply NoDup_app in Hnd as (_ & Hl & _).
    assert (p ≠ h) as Hph by (intros ->; by apply (Hl h Hpl); left).
    destruct (block_of_header _ _ _ p Hinv) as [t Hpt]; [set_solver|].
    rewrite (Hsz _ Hpt : word (bytes a) p = t).
    pose proof (put_reframes _ _ _ _ (bytes a) n Ht Hpt (Hsz _ Hpt) (block_size_u32 _ _ _ _ Hinv Hpt)) as R1.
    assert (word (put_header p t n (bytes a)) h = s) as Hw1
      by exact (eq_trans (rf_size _ _ _ _ R1 (h, s) Hb) (Hsz _ Hb)).
    pose proof (put_reframes _ _ _ _ _ 0 Ht Hb Hw1 Hs) as R2. cbn [fst snd] in R1, R2.
    split.
    + destruct (reframes_trans _ _ _ _ _ _ R1 R2) as [H1 H2 H3]. split; [done| |done].
      intros c Hc [N1 N2]. apply H2; [done|]. split; intros ->; cbn in *; congruence.
    + intros q [= <-]. etrans; [apply (rf_next _ _ _ _ R2 (p, t) Hpt); congruence|]. by apply put_header_next.
  - split; [|done]. destruct (put_reframes _ _ _ _ _ 0 Ht Hb (Hsz _ Hb) Hs) as [H1 H2 H3].
    split; [done| |done]. intros c Hc [N1 N2]. apply H2; [done|]. by intros ->.
Qed.

Lemma seg_unlink m m' head l h rest n :
  seg m head (l ++ h :: rest) 0 → n = word m (h + 4) →
  (∀ q, q ∈ l ++ rest → Some q ≠ last l → word m' (q + 4) = word m (q + 4)) →
  (∀ p, last l = Some p → word m' (p + 4) = n) → NoDup (l ++ h :: rest) →
  seg m' (match last l with None => n | Some _ => head end) (l ++ rest) 0.
Proof.
  intros Hseg -> Hsame Hlast Hnd. apply seg_app in Hseg as (x & Hl & -> & Hh & Hr). apply seg_app.
  exists (word m (h + 4)). apply NoDup_app in Hnd as (Hndl & Hdis & Hndr).
  assert (∀ q, q ∈ rest → Some q ≠ last l) as Hnl.
  { intros q Hq E. symmetry in E. apply last_Some_elem_of in E. apply (Hdis q E). by right. }
  split.
  - destruct l as [|p l' _] using rev_ind; [done|]. rewrite last_snoc in *. specialize (Hlast p eq_refl).
    apply seg_app in Hl as (y & Hl' & -> & Hp & Hx). cbn in Hx. apply seg_app. exists p.
    split; [|by cbn]. eapply seg_ext; [|exact Hl']. intros q Hq. apply Hsame; [set_solver|].
    intros [= ->]. apply NoDup_app in Hndl as (_ & Hpl & _). apply (Hpl p Hq). by left.
  - eapply seg_ext; [|exact Hr]. intros q Hq. apply Hsame; [set_solver|by apply Hnl].
Qed.

Lemma unlinked_inv a blocks l h rest s :
  arena_inv a blocks (l ++ h :: rest) → (h, s) ∈ blocks →
  arena_inv (unlinked a l h s (word (bytes a) (h + 4))) blocks (l ++ rest).
Proof.
  intros Hinv Hb. pose proof (unlinked_frame _ _ _ _ _ _ Hinv Hb) as [[R1 R2 R3] Rl]. cbv zeta in *.
  set (a' := unlinked _ _ _ _ _) in *. pose proof Hinv as [H1 H2 H3 H4 [H5 H5'] H6].
  assert (bump_offset a' = bump_offset a) as Hbump by (unfold a', unlinked; by destruct (last l)).
  split.
  - unfold top_of. by rewrite Hbump.
  - by rewrite Hbump.
  - intros b Hbb. rewrite R1 by done. by apply H3.
  - assert (freelist_head_offset a' =
              match last l with None => word (bytes a) (h + 4) | Some _ => freelist_head_offset a end) as ->
      by (unfold a', unlinked; by destruct (last l)).
    eapply seg_unlink; [exact H4|done| |exact Rl|done]. intros q Hq Hql.
    destruct (block_of_header _ _ _ q Hinv) as [t Ht]; [set_solver|].
    apply (R2 (q, t)); [done|]. split; [|done]. cbn. intros ->.
    apply NoDup_app in H5 as (_ & Hd & [Hr _]%NoDup_cons). apply elem_of_app in Hq as [Hq|Hq]; [|done].
    apply (Hd h Hq). by left.
  - split; [|set_solver]. apply NoDup_app in H5 as (N1 & N2 & [N3 N4]%NoDup_cons).
    apply NoDup_app. split_and!; [done| |done]. intros q Hq Hr. apply (N2 q Hq). by right.
  - rewrite (Permutation_length (owned_take _ _ _ _ _ _ Hinv Hb)). cbn [length]. unfold a', unlinked.
    apply count_alloc_count. by destruct (last l).
Qed.

(** * The first-fit walk *)
Lemma walk_freelist_spec fuel size l suf a blocks cur :
  arena_inv a blocks (l ++ suf) → (length suf < fuel)%nat → seg (bytes a) cur suf 0 →
  (∃ mid h rest s, suf = mid ++ h :: rest ∧ (h, s) ∈ blocks ∧ size ≤ s ∧
     walk_freelist fuel size (default 0 (last l)) cur a =
       (Ok (Some (h + 8)), unlinked a (l ++ mid) h s (word (bytes a) (h + 4)))) ∨
  (walk_freelist fuel size (default 0 (last l)) cur a = (Ok None, a) ∧
   ∀ h s, h ∈ suf → (h, s) ∈ blocks → s < size).
Proof.
  revert fuel l cur. induction suf as [|h suf IH]; intros fuel l cur Hinv Hfuel Hseg.
  { cbn in Hseg. subst cur. destruct fuel; [cbn in Hfuel; lia|]. right. cbn. split; [done|]. by intros ?? ?%elem_of_nil. }
  destruct Hseg as (-> & Hh & Hseg). destruct fuel as [|fuel]; [cbn in Hfuel; lia|]. cbn [walk_freelist].
  rewrite decide_False by done. destruct (block_of_header _ _ _ h Hinv) as [s Hs]; [set_solver|].
  destruct (block_bounds _ _ _ _ Hinv Hs) as (B1 & B2 & B3 & _). cbn in B1, B2, B3.
  rewrite (SE_bind_run _ _ _ _ _ (read_header_run h a ltac:(lia))). cbn [hd_size hd_next_free].
  rewrite (ai_sizes _ _ _ Hinv _ Hs : word (bytes a) h = s).
  destruct (size <=? s) eqn:Hfit.
  - apply Z.leb_le in Hfit. left. exists [], h, suf, s. split_and!; [done|done|done|].
    rewrite app_nil_r. unfold unlinked. destruct (last l) as [p|] eqn:Hp; cbn [default].
    + assert (p ∈ l) as Hpl by (by apply last_Some_elem_of).
      destruct (block_of_header _ _ _ p Hinv) as [t Ht]; [set_solver|].
      destruct (block_bounds _ _ _ _ Hinv Ht) as (C1 & C2 & C3 & _). cbn in C1, C2, C3.
      unfold id. rewrite decide_False by lia. erewrite SE_bind_run; last first.
      { rewrite (SE_bind_run _ _ _ _ _ (read_header_run p a ltac:(lia))). by apply write_header_run; lia. }
      rewrite (SE_bind_run _ _ _ _ _ (write_header_run h _ _ ltac:(lia))).
      unfold mbind, SE_bind, modify. cbn. do 3 f_equal. unfold wrap_u32, BLOCK_HEADER_BYTES, ARENA_BYTES in *.
      rewrite Z.mod_small by lia. done.
    + rewrite decide_True by done. erewrite SE_bind_run by reflexivity.
      rewrite (SE_bind_run _ _ _ _ _ (write_header_run h _ _ ltac:(lia))).
      unfold mbind, SE_bind, modify. cbn. do 3 f_equal. unfold wrap_u32, BLOCK_HEADER_BYTES, ARENA_BYTES in *.
      rewrite Z.mod_small by lia. done.
  - apply Z.leb_gt in Hfit.
    destruct (IH fuel (l ++ [h]) (word (bytes a) (h + 4))) as [(mid & h' & rest & s' & -> & Hb' & Hf' & Hrun)|[Hrun Hno]].
    + by rewrite <-app_assoc.
    + cbn in Hfuel. lia.
    + done.
    + left. exists (h :: mid), h', rest, s'. rewrite last_snoc in Hrun. cbn in Hrun.
      rewrite Hrun, <-app_assoc. done.
    + right. rewrite last_snoc in Hrun. cbn in Hrun. rewrite Hrun. split; [done|].
      intros h' s' [->|Hin]%elem_of_cons Hb'; [|by eapply Hno].
      by rewrite (blocks_functional _ _ _ _ _ _ Hinv Hb' Hs).
Qed.

(** * The client's view: the list of blocks it owns *)
Definition holds (a : SpilloverArena) (L : list (Z * Z)) : Prop :=
  ∃ blocks fl, arena_inv a blocks fl ∧ owned blocks fl ≡ₚ L.

#[global] Instance holds_perm a : Proper ((≡ₚ) ==> iff) (holds a).
Proof. intros L L' HL. unfold holds. by setoid_rewrite HL. Qed.

Lemma holds_in a L b :
  holds a L → b ∈ L → 8 ≤ b.1 ∧ b.1 + 8 + b.2 ≤ ARENA_BYTES ∧ 0 < b.2.
Proof.
  intros (blocks & fl & Hinv & HL) Hb. rewrite <-HL in Hb. apply list_elem_of_filter in Hb as [_ Hb].
  destruct (block_bounds _ _ _ _ Hinv Hb) as (? & ? & ? & _). done.
Qed.
Lemma holds_disjoint a L b c :
  holds a L → b ∈ L → c ∈ L → b = c ∨ b.1 + 8 + b.2 ≤ c.1 ∨ c.1 + 8 + c.2 ≤ b.1.
Proof.
  intros (blocks & fl & Hinv & HL) Hb Hc. rewrite <-HL in Hb, Hc.
  apply list_elem_of_filter in Hb as [_ Hb]. apply list_elem_of_filter in Hc as [_ Hc].
  by eapply tiles_disjoint; [exact (ai_tiles _ _ _ Hinv)|..].
Qed.
Lemma holds_NoDup a L : holds a L → NoDup L.
Proof.
  intros (blocks & fl & Hinv & HL). rewrite <-HL. apply NoDup_filter. exact (blocks_NoDup _ _ _ (ai_tiles _ _ _ Hinv)).
Qed.

Lemma fresh_holds : holds fresh_arena [].
Proof.
  exists [], []. split; [|done]. split; cbn; try done.
  - by intros ? ?%elem_of_nil.
  - split; [constructor|]. by intros ? ?%elem_of_nil.
  - by exists 0.
Qed.

Lemma align_up_8 size : 0 ≤ size ≤ 2 ^ 32 - 8 → align_up size 8 = 8 * ((size + 7) `div` 8).
Proof.
  intros Hs. unfold align_up, wrap_u32. rewrite Z.mod_small by lia.
  replace (size + 8 - 1) with (size + 7) by lia.
  change (2 ^ 32 - 1 - (8 - 1)) with (Z.ldiff (Z.ones 32) (Z.ones 3)).
  rewrite Z.ldiff_land, Z.land_assoc, Z.land_ones, Z.mod_small by lia.
  rewrite <-Z.ldiff_land, Z.ldiff_ones_r, Z.shiftl_mul_pow2, Z.shiftr_div_pow2 by lia.
  change (2 ^ 3) with 8. lia.
Qed.

(** Bumping the high-water mark adds one block behind the others. *)
Lemma bump_inv a blocks fl s :
  arena_inv a blocks fl → bump_offset a ≠ 0 → 0 < s → (8 | s) → bump_offset a + 8 + s ≤ ARENA_BYTES →
  let e := bump_offset a in
  let a' := count_alloc (set_bytes (put_header e s 0 (bytes a)) (set_bump (e + 8 + s) a)) in
  arena_inv a' (blocks ++ [(e, s)]) fl ∧ owned (blocks ++ [(e, s)]) fl = owned blocks fl ++ [(e, s)] ∧
  ∀ b, b ∈ blocks → same_payload (bytes a) (bytes a') b.
Proof.
  intros Hinv Hb0 Hs Hs8 He e a'. pose proof Hinv as [Ht [[Hb1 Hb2] Hb3] Hsz Hc [Hnd Hfl] Hcnt].
  unfold top_of in Ht. rewrite decide_False in Ht by done. fold e in Ht, Hb1, Hb2, Hb3, He.
  assert (∀ b, b ∈ blocks → b.1 + 8 + b.2 ≤ e ∧ 0 < b.2) as Hbelow
    by (intros b Hb; destruct (tiles_in _ _ _ _ Ht Hb) as (? & ? & ? & _); done).
  assert (e ∉ fl) as Hefl.
  { intros Hin. apply Hfl, list_elem_of_fmap in Hin as (b & E & Hb). destruct (Hbelow b Hb). lia. }
  assert (owned (blocks ++ [(e, s)]) fl = owned blocks fl ++ [(e, s)]) as Hown.
  { unfold owned. rewrite filter_app. f_equal. rewrite filter_cons, decide_True by done. done. }
  split_and!; [|done|].
  - split; cbn [bytes a' count_alloc set_bytes bump_offset set_bump].
    + unfold top_of. cbn. rewrite decide_False by lia. by apply tiles_snoc.
    + split; [lia|]. destruct Hs8 as [k ->]. rewrite <-Z.add_assoc, Z.add_mod, Hb3 by lia.
      replace (8 + k * 8) with ((k + 1) * 8) by lia. by rewrite Z.mod_mul by lia.
    + intros b [Hb| ->%list_elem_of_singleton]%elem_of_app.
      * destruct (Hbelow b Hb). rewrite put_header_word by lia. by apply Hsz.
      * cbn [fst snd]. apply put_header_size. unfold ARENA_BYTES in *. lia.
    + cbn. eapply seg_ext; [|exact Hc]. intros h Hh. apply Hfl, list_elem_of_fmap in Hh as (b & -> & Hb).
      destruct (Hbelow b Hb). apply put_header_word. lia.
    + split; [done|]. intros h Hh. rewrite map_app. apply elem_of_app. left. by apply Hfl.
    + rewrite Hown, length_app, Nat.add_comm. apply count_alloc_count. exact Hcnt.
  - intros b Hb i Hi. destruct (Hbelow b Hb). cbn. apply put_header_byte. lia.
Qed.

Lemma lazy_init_inv a blocks fl :
  arena_inv a blocks fl → bump_offset a = 0 → arena_inv (set_bump 8 a) blocks fl.
Proof.
  intros [Ht Hb Hsz Hc Hfl Hcnt] H0. unfold top_of in Ht. rewrite decide_True in Ht by done.
  by split.
Qed.

Lemma freelist_short a blocks fl :
  arena_inv a blocks fl → bump_offset a ≠ 0 → (length fl < walk_fuel a)%nat.
Proof.
  intros [Ht [[Hb _] _] _ _ [Hnd Hfl] _] H0. unfold top_of in Ht. rewrite decide_False in Ht by done.
  apply tiles_count in Ht.
  assert (length fl ≤ length blocks)%nat as Hlen.
  { rewrite <-(length_map fst blocks). apply submseteq_length, NoDup_submseteq; [done|]. exact Hfl. }
  assert (Z.of_nat (length fl) ≤ bump_offset a `div` 8) by (apply Z.div_le_lower_bound; lia).
  unfold walk_fuel. lia.
Qed.

(** The walk and, when no free block fits, the bump. *)
Definition alloc_aligned (size : Z) : Mem (option Z) :=
  a ← gets id;
  found ← walk_freelist (walk_fuel a) size 0 (freelist_head_offset a);
  match found with Some p => mret (Some p) | None => bump_alloc size end.

Lemma alloc_aligned_spec a blocks fl size :
  arena_inv a blocks fl → bump_offset a ≠ 0 → 0 < size ≤ 2 ^ 32 - 16 → (8 | size) →
  (∃ h s a' blocks' fl', alloc_aligned size a = (Ok (Some (h + 8)), a') ∧ size ≤ s ∧
     arena_inv a' blocks' fl' ∧ owned blocks' fl' ≡ₚ (h, s) :: owned blocks fl ∧
     ∀ b, b ∈ owned blocks fl → same_payload (bytes a) (bytes a') b) ∨
  (alloc_aligned size a = (Ok None, a) ∧ ARENA_BYTES < bump_offset a + 8 + size ∧
   ∀ h s, h ∈ fl → (h, s) ∈ blocks → s < size).
Proof.
  intros Hinv H0 Hsize H8. unfold alloc_aligned. erewrite SE_bind_run by reflexivity. unfold id.
  destruct (walk_freelist_spec (walk_fuel a) size [] fl a blocks (freelist_head_offset a))
    as [(mid & h & rest & s & Hfl & Hb & Hfit & Hrun)|[Hrun Hno]];
    [done|by eapply freelist_short|by apply Hinv|..]; cbn [last default app] in Hrun.
  - left. eexists h, s, _, blocks, (mid ++ rest). rewrite (SE_bind_run _ _ _ _ _ Hrun). subst fl.
    split_and!; [reflexivity|done|by eapply unlinked_inv|by eapply owned_take|].
    intros b [_ Hbb]%list_elem_of_filter.
    destruct (unlinked_frame _ _ _ _ _ _ Hinv Hb) as [[_ _ Hp] _]. by apply Hp.
  - rewrite (SE_bind_run _ _ _ _ _ Hrun). unfold bump_alloc. erewrite SE_bind_run by reflexivity.
    unfold id, wrap_u32, BLOCK_HEADER_BYTES. rewrite (Z.mod_small (8 + size)) by lia. cbv zeta.
    pose proof (ai_bump _ _ _ Hinv) as [[Hb1 Hb2] _].
    destruct (2 ^ 32 - 1 <? _) eqn:E1.
    { right. split_and!; [done|unfold ARENA_BYTES; apply Z.ltb_lt in E1; lia|done]. }
    destruct (ARENA_BYTES <? _) eqn:E2.
    { right. split_and!; [done|apply Z.ltb_lt in E2; lia|done]. }
    apply Z.ltb_ge in E2. left.
    destruct (bump_inv a blocks fl size) as (Hinv' & Hown & Hpay); [done|done|lia|done|lia|].
    eexists (bump_offset a), size, _, _, _. split_and!; [|done|exact Hinv'|by rewrite Hown, Permutation_app_comm|].
    + rewrite (SE_bind_run (modify _) _ _ tt _ eq_refl).
      rewrite (SE_bind_run _ _ _ _ _ (write_header_run (bump_offset a) _ _ ltac:(lia))).
      unfold mbind, SE_bind, modify. cbn -[Z.pow]. rewrite Z.mod_small by (unfold ARENA_BYTES in *; lia).
      by replace (bump_offset a + (8 + size)) with (bump_offset a + 8 + size) by lia.
    + intros b [_ Hb]%list_elem_of_filter. by apply Hpay.
Qed.

Lemma alloc_unfold size a :
  0 < size → alloc size a =
    alloc_aligned (align_up size ALLOC_ALIGN)
      (if decide (bump_offset a = 0) then set_bump BLOCK_HEADER_BYTES a else a).
Proof.
  intros Hs. unfold alloc. rewrite decide_False by lia. cbv zeta. unfold mbind at 1, SE_bind at 1, gets at 1, id.
  by case_decide.
Qed.

(** What [alloc] promises its clients: a block of at least the size asked for,
    disjoint from every block they own, whose contents it leaves alone; or
    nothing, when neither the freelist nor the rest of the region has room. *)
Lemma alloc_spec a L size :
  holds a L → 0 < size ≤ 2 ^ 32 - 16 →
  (∃ h s a', alloc size a = (Ok (Some (h + 8)), a') ∧ size ≤ s ∧ holds a' ((h, s) :: L) ∧
     ∀ b, b ∈ L → same_payload (bytes a) (bytes a') b) ∨
  (∃ a', alloc size a = (Ok None, a') ∧ holds a' L ∧ bytes a' = bytes a ∧
     ARENA_BYTES < top_of a + 8 + 8 * ((size + 7) `div` 8)).
Proof.
  intros (blocks & fl & Hinv & HL) Hsize. rewrite alloc_unfold by lia.
  unfold ALLOC_ALIGN, BLOCK_HEADER_BYTES. rewrite align_up_8 by lia.
  set (a1 := if decide (bump_offset a = 0) then set_bump 8 a else a).
  assert (arena_inv a1 blocks fl) as Hinv1
    by (unfold a1; case_decide; [by apply lazy_init_inv|done]).
  assert (bump_offset a1 = top_of a ∧ bytes a1 = bytes a) as [Htop Hbytes]
    by (unfold a1, top_of; by case_decide).
  assert (bump_offset a1 ≠ 0) as H0 by (rewrite Htop; unfold top_of; case_decide; lia).
  pose proof (Z.div_mod (size + 7) 8 ltac:(lia)). pose proof (Z.mod_pos_bound (size + 7) 8 ltac:(lia)).
  destruct (alloc_aligned_spec a1 blocks fl (8 * ((size + 7) `div` 8))) as
    [(h & s & a' & blocks' & fl' & Hrun & Hs & Hinv' & Hown & Hpay)|(Hrun & Hfull & _)];
    [done|done|lia|by apply Z.divide_factor_l|..].
  - left. exists h, s, a'. rewrite Hbytes in Hpay. split_and!; [done|lia| |].
    + exists blocks', fl'. split; [done|]. by rewrite Hown, HL.
    + intros b Hb. apply Hpay. by rewrite HL.
  - right. exists a1. split_and!; [done|by exists blocks, fl|done|]. by rewrite <-Htop.
Qed.

Lemma count_free_count a (n : nat) :
  (∃ k, total_allocs a - total_frees a = Z.of_nat (S n) + k * 2 ^ 64) →
  ∃ k, total_allocs (count_free a) - total_frees (count_free a) = Z.of_nat n + k * 2 ^ 64.
Proof.
  intros [k Hk]. cbn. unfold wrap_u64. exists (k + (total_frees a + 1) `div` 2 ^ 64).
  rewrite Z.mod_eq by lia. lia.
Qed.

Lemma owned_give a blocks fl h s :
  arena_inv a blocks fl → (h, s) ∈ owned blocks fl →
  owned blocks fl ≡ₚ (h, s) :: owned blocks (h :: fl).
Proof.
  intros Hinv Hb. apply list_elem_of_filter in Hb as [Hn Hb].
  pose proof (blocks_NoDup _ _ _ (ai_tiles _ _ _ Hinv)) as Hnd. apply NoDup_Permutation.
  - by apply NoDup_filter.
  - constructor; [|by apply NoDup_filter]. intros [Hx _]%list_elem_of_filter. apply Hx. by left.
  - intros b. rewrite elem_of_cons. unfold owned. rewrite !list_elem_of_filter. unfold is_owned.
    rewrite not_elem_of_cons. split.
    + intros [H1 Hin]. destruct (decide (b.1 = h)) as [Heq|Hne]; [left|by right].
      destruct b as [h' s']. cbn in Heq. subst h'. f_equal. by eapply blocks_functional.
    + intros [->|[[H1 H2] Hin]]; done.
Qed.

(** [free] gives a block back; the other blocks keep their contents. *)
Lemma free_spec a L h s :
  holds a ((h, s) :: L) →
  ∃ a', free (h + 8) a = (Ok tt, a') ∧ holds a' L ∧ ∀ b, b ∈ L → same_payload (bytes a) (bytes a') b.
Proof.
  intros Hh. destruct (holds_in _ _ (h, s) Hh) as (B1 & B2 & B3); [by left|]. cbn in B1, B2, B3.
  destruct Hh as (blocks & fl & Hinv & HL).
  assert ((h, s) ∈ owned blocks fl) as Hown by (rewrite HL; by left).
  pose proof (owned_give _ _ _ _ _ Hinv Hown) as Hgive.
  pose proof Hown as [Hn Hb]%list_elem_of_filter. cbn in Hn.
  pose proof Hinv as [Ht Hbump Hsz Hc [Hnd Hfl] Hcnt]. pose proof (Hsz _ Hb) as Hw. cbn in Hw.
  unfold free, BLOCK_HEADER_BYTES, wrap_u32. replace (h + 8 - 8) with h by lia.
  rewrite Z.mod_small by (unfold ARENA_BYTES in *; lia). cbv zeta.
  rewrite (SE_bind_run _ _ _ _ _ (read_header_run h a ltac:(lia))). cbn [hd_size].
  rewrite (SE_bind_run (gets id) _ _ a a eq_refl), Hw.
  rewrite (SE_bind_run _ _ _ _ _ (write_header_run h _ _ ltac:(lia))).
  eexists. split; [reflexivity|]. cbn [hd_size hd_next_free].
  pose proof (put_reframes _ _ _ _ (bytes a) (freelist_head_offset a) Ht Hb Hw (block_size_u32 _ _ _ _ Hinv Hb))
    as [R1 R2 R3]. cbn [fst snd] in R1, R2, R3.
  assert (0 ≤ freelist_head_offset a < 2 ^ 32) as Hhead.
  { destruct fl as [|f fl]; cbn in Hc; [rewrite Hc; lia|]. destruct Hc as (-> & _).
    destruct (block_of_header _ _ _ f Hinv) as [t Hft]; [by left|].
    destruct (block_bounds _ _ _ _ Hinv Hft) as (? & ? & ? & _). cbn in *. unfold ARENA_BYTES in *. lia. }
  split.
  - exists blocks, (h :: fl). split; [|by apply (Permutation_cons_inv (a := (h, s))); rewrite <-Hgive].
    split; [done|done| | | |].
    + intros b Hbb. etrans; [by apply R1|]. by apply Hsz.
    + cbn [seg freelist_head_offset count_free set_head set_bytes bytes]. split_and!; [done|lia|].
      rewrite put_header_next by done.
      eapply seg_ext; [|exact Hc]. intros q Hq. destruct (block_of_header _ _ _ q Hinv Hq) as [t Hqt].
      apply (R2 (q, t) Hqt). intros [= -> _]. by apply Hn.
    + split; [by constructor|]. intros q [->|Hq]%elem_of_cons; [|by apply Hfl].
      apply list_elem_of_fmap. by exists (h, s).
    + apply (count_free_count (set_head h (set_bytes _ a))). cbn [total_allocs total_frees set_head set_bytes].
      by rewrite (Permutation_length Hgive) in Hcnt.
  - intros b Hbl. cbn. apply R3. assert (b ∈ owned blocks fl) as Hbo by (rewrite HL; by right).
    by apply list_elem_of_filter in Hbo as [_ ?].
Qed.

(** Writing inside an owned block. *)
Lemma write_spec a L b o data :
  holds a L → b ∈ L → b.1 + 8 ≤ o → o + Z.of_nat (length data) ≤ b.1 + 8 + b.2 →
  ∃ a', write_bytes o data a = (Ok tt, a') ∧ bytes a' = write_at o data (bytes a) ∧ holds a' L ∧
        ∀ c, c ∈ L → c ≠ b → same_payload (bytes a) (bytes a') c.
Proof.
  intros Hh Hb Ho1 Ho2. destruct (holds_in _ _ _ Hh Hb) as (B1 & B2 & B3).
  exists (set_bytes (write_at o data (bytes a)) a). split_and!; [|reflexivity|..].
  - unfold write_bytes, mbind, SE_bind, gets, id. cbv beta iota.
    rewrite (proj2 (Z.leb_le _ _)) by lia. reflexivity.
  - destruct Hh as (blocks & fl & Hinv & HL). exists blocks, fl. split; [|done].
    pose proof Hinv as [Ht Hbump Hsz Hc [Hnd Hfl] Hcnt].
    assert (b ∈ blocks) as Hbb by (rewrite <-HL in Hb; by apply list_elem_of_filter in Hb as [_ ?]).
    assert (∀ c k, c ∈ blocks → 0 ≤ k ≤ 4 →
              word (write_at o data (bytes a)) (c.1 + k) = word (bytes a) (c.1 + k)) as Hw.
    { intros c k Hcb Hk. destruct (tiles_in _ _ _ _ Ht Hcb) as (_ & _ & ? & _).
      destruct (tiles_disjoint _ _ _ _ _ Ht Hbb Hcb) as [<-|Hd]; apply word_write_ne; lia. }
    split; try done.
    + intros c Hcb. specialize (Hw c 0 Hcb ltac:(lia)). rewrite Z.add_0_r in Hw. etrans; [exact Hw|]. by apply Hsz.
    + cbn. eapply seg_ext; [|exact Hc]. intros q Hq. destruct (block_of_header _ _ _ q Hinv Hq) as [t Hqt].
      by apply (Hw (q, t)).
  - intros c Hcl Hne i Hi. cbn. apply byte_write_out.
    destruct (holds_disjoint _ _ _ _ Hh Hb Hcl) as [<-|Hd]; [done|].
    destruct (holds_in _ _ _ Hh Hcl) as (? & ? & ?). lia.
Qed.

(** * Clients that keep to the contract

    A client starts from the zero-filled region, allocates, frees blocks it owns
    and writes inside them; [client a L] says such a history can end in [a] with
    the blocks [L] owned. *)
Inductive client : SpilloverArena → list (Z * Z) → Prop :=
| client_start : client fresh_arena []
| client_none a L size a' :
    client a L → 0 < size ≤ 2 ^ 32 - 16 → alloc size a = (Ok None, a') → client a' L
| client_alloc a L size p a' :
    client a L → 0 < size ≤ 2 ^ 32 - 16 → alloc size a = (Ok (Some p), a') →
    client a' ((p - 8, word (bytes a') (p - 8)) :: L)
| client_free a L L' b a' :
    client a L → L ≡ₚ b :: L' → free (b.1 + 8) a = (Ok tt, a') → client a' L'
| client_write a L b o data a' :
    client a L → b ∈ L → b.1 + 8 ≤ o → o + Z.of_nat (length data) ≤ b.1 + 8 + b.2 →
    write_bytes o data a = (Ok tt, a') → client a' L.

Lemma holds_size a L b : holds a L → b ∈ L → word (bytes a) b.1 = b.2.
Proof.
  intros (blocks & fl & Hinv & HL) Hb. rewrite <-HL in Hb. apply list_elem_of_filter in Hb as [_ Hb].
  by apply (ai_sizes _ _ _ Hinv).
Qed.

Lemma client_holds a L : client a L → holds a L.
Proof.
  induction 1 as [|a L size a' _ IH Hs Hrun|a L size p a' _ IH Hs Hrun|a L L' [h s] a' _ IH HL Hrun
                  |a L b o data a' _ IH Hb H1 H2 Hrun].
  - apply fresh_holds.
  - destruct (alloc_spec _ _ _ IH Hs) as [(h & s & x & Hx & _)|(x & Hx & Hh & _)]; rewrite Hx in Hrun; [done|].
    by injection Hrun as <-.
  - destruct (alloc_spec _ _ _ IH Hs) as [(h & s & x & Hx & _ & Hh & _)|(x & Hx & _)]; rewrite Hx in Hrun; [|done].
    injection Hrun as <- <-. replace (h + 8 - 8) with h by lia.
    by rewrite (holds_size _ _ (h, s) Hh ltac:(by left) : word (bytes x) h = s).
  - rewrite HL in IH. destruct (free_spec _ _ _ _ IH) as (x & Hx & Hh & _). cbn in Hrun. rewrite Hx in Hrun.
    by injection Hrun as <-.
  - destruct (write_spec _ _ _ _ _ IH Hb H1 H2) as (x & Hx & _ & Hh & _). rewrite Hx in Hrun.
    by injection Hrun as <-.
Qed.

(** C17: The arena serves every history of contract-keeping clients.  The blocks
    they own lie inside the region and never overlap, headers included; the next
    allocation, the next release of an owned block and the next write inside one
    all return (no slice out of range, no endless walk of the freelist) and leave
    the contents of every other owned block as they were; an allocation fails
    only when the rest of the region is too small; and the two counters differ,
    modulo 2^64, by the number of owned blocks. *)
Theorem arena_keeps_blocks a L :
  client a L →
  (∀ b, b ∈ L → 8 ≤ b.1 ∧ b.1 + 8 + b.2 ≤ ARENA_BYTES) ∧
  (∀ b c, b ∈ L → c ∈ L → b = c ∨ b.1 + 8 + b.2 ≤ c.1 ∨ c.1 + 8 + c.2 ≤ b.1) ∧
  (∀ size, 0 < size ≤ 2 ^ 32 - 16 → ∃ r a', alloc size a = (Ok r, a') ∧
     (∀ b, b ∈ L → same_payload (bytes a) (bytes a') b) ∧
     match r with
     | Some p => size ≤ word (bytes a') (p - 8) ∧ ∀ b, b ∈ L → p + size ≤ b.1 ∨ b.1 + 8 + b.2 ≤ p - 8
     | None => ARENA_BYTES < top_of a + 8 + 8 * ((size + 7) `div` 8)
     end) ∧
  (∀ b, b ∈ L → ∃ a', free (b.1 + 8) a = (Ok tt, a') ∧
     ∀ c, c ∈ L → c ≠ b → same_payload (bytes a) (bytes a') c) ∧
  ∃ k, total_allocs a - total_frees a = Z.of_nat (length L) + k * 2 ^ 64.
Proof.
  intros Hh%client_holds. split_and!.
  - intros b Hb. by destruct (holds_in _ _ _ Hh Hb) as (? & ? & _).
  - intros b c Hb Hc. by eapply holds_disjoint.
  - intros size Hs. destruct (alloc_spec _ _ _ Hh Hs) as [(h & s & a' & Hrun & Hfit & Hh' & Hp)|(a' & Hrun & Hh' & Hb & Hfull)].
    + exists (Some (h + 8)), a'. split_and!; [done|done|..]; replace (h + 8 - 8) with h by lia.
      * by rewrite (holds_size _ _ (h, s) Hh' ltac:(by left) : word (bytes a') h = s).
      * intros b Hb. pose proof (holds_NoDup _ _ Hh') as [Hn _]%NoDup_cons.
        destruct (holds_disjoint _ _ (h, s) b Hh') as [<-|Hd]; [by left|by right|done|]. cbn in Hd. lia.
    + exists None, a'. split_and!; [done| |done]. intros b _ i _. by rewrite Hb.
  - intros [h s] Hb. pose proof (holds_NoDup _ _ Hh) as Hnd. apply elem_of_Permutation in Hb as [L' HL].
    rewrite HL in Hh. destruct (free_spec _ _ _ _ Hh) as (a' & Hrun & _ & Hp). exists a'. split; [done|].
    intros c Hc Hne. apply Hp. rewrite HL in Hc. by apply elem_of_cons in Hc as [->|?].
  - destruct Hh as (blocks & fl & Hinv & HL). rewrite <-(Permutation_length HL). apply Hinv.
Qed.
