(* ===== verification/V3Payload.v ===== *)
(** Submissions in the arena (ledger-routed, payload.rs, the block allocation of
    enqueue.rs and the block release of cleanup.rs), against the interface of the
    arena: the payload code is verified for any allocator that keeps its clients'
    blocks apart, and the spillover arena is one. *)
From S2P Require Import Prelude V3Arena.

(** * The interface

    [owns a L]: the clients of [a] own the blocks of [L], each with the offset of
    its header and the size of its payload. *)
Definition payload_of (b : Z * Z) (i : Z) : Prop := b.1 + 8 ≤ i < b.1 + 8 + b.2.

Class Allocator (A : Type) := {
  al_alloc : Z → SE A ArenaFault (option Z);
  al_free : Z → SE A ArenaFault unit;
  al_write : Z → list Z → SE A ArenaFault unit;
  al_read : Z → Z → SE A ArenaFault (list Z);
  view : A → Z → Z;
  owns : A → list (Z * Z) → Prop;
  owns_perm a L L' : L ≡ₚ L' → owns a L → owns a L';
  owns_in a L b : owns a L → b ∈ L → 8 ≤ b.1 ∧ b.1 + 8 + b.2 ≤ ARENA_BYTES ∧ 0 < b.2;
  owns_apart a L b c : owns a L → b ∈ L → c ∈ L →
    b = c ∨ b.1 + 8 + b.2 ≤ c.1 ∨ c.1 + 8 + c.2 ≤ b.1;
  owns_NoDup a L : owns a L → NoDup L;
  owns_room a L : owns a L → 16 * Z.of_nat (length L) ≤ ARENA_BYTES;
  alloc_law a L size : owns a L → 0 < size ≤ 2 ^ 32 - 16 →
    (∃ h s a', al_alloc size a = (Ok (Some (h + 8)), a') ∧ size ≤ s ∧ owns a' ((h, s) :: L) ∧
       ∀ b i, b ∈ L → payload_of b i → view a' i = view a i) ∨
    (∃ a', al_alloc size a = (Ok None, a') ∧ owns a' L ∧
       ∀ b i, b ∈ L → payload_of b i → view a' i = view a i);
  free_law a L h s : owns a ((h, s) :: L) →
    ∃ a', al_free (h + 8) a = (Ok tt, a') ∧ owns a' L ∧
       ∀ b i, b ∈ L → payload_of b i → view a' i = view a i;
  write_law a L b o data : owns a L → b ∈ L → b.1 + 8 ≤ o → o + Z.of_nat (length data) ≤ b.1 + 8 + b.2 →
    ∃ a', al_write o data a = (Ok tt, a') ∧ owns a' L ∧
       (∀ c i, c ∈ L → payload_of c i → i < o ∨ o + Z.of_nat (length data) ≤ i → view a' i = view a i) ∧
       (∀ (k : nat) x, data !! k = Some x → view a' (o + Z.of_nat k) = x);
  read_law a o len : 0 ≤ len → o + len ≤ ARENA_BYTES →
    al_read o len a = (Ok (map (λ k, view a (o + k)) (seqZ 0 len)), a);
}.

#[export] Program Instance SpilloverArena_Allocator : Allocator SpilloverArena := {|
  al_alloc := alloc; al_free := free; al_write := write_bytes; al_read := read_bytes;
  view := λ a, byte_at (bytes a); owns := holds;
|}.
Next Obligation. intros a L L' HL. by rewrite HL. Qed.
Next Obligation. intros a L b. apply holds_in. Qed.
Next Obligation. intros a L b c. apply holds_disjoint. Qed.
Next Obligation. intros a L. apply holds_NoDup. Qed.
Next Obligation.
  intros a L (blocks & fl & Hinv & HL). rewrite <-HL.
  assert (length (owned blocks fl) ≤ length blocks)%nat by apply length_filter.
  pose proof (ai_tiles _ _ _ Hinv) as Ht. pose proof (ai_bump _ _ _ Hinv) as [[_ Hb] _].
  assert (∀ o bs e, tiles o bs e → 16 * Z.of_nat (length bs) ≤ e - o) as H16.
  { clear. intros o bs. revert o. induction bs as [|b bs IH]; intros o e; cbn [tiles length]; [lia|].
    intros (_ & Hp & [k Hk] & H%IH). lia. }
  apply H16 in Ht. unfold top_of in Ht. case_decide; unfold ARENA_BYTES in *; lia.
Qed.
Next Obligation.
  intros a L size Hh Hs. destruct (alloc_spec a L size Hh Hs) as [(h & s & a' & H1 & H2 & H3 & H4)|(a' & H1 & H2 & H3 & _)].
  - left. exists h, s, a'. split_and!; [done..|]. intros b i Hb Hi. by apply (H4 b Hb).
  - right. exists a'. split_and!; [done..|]. intros b i _ _. by rewrite H3.
Qed.
Next Obligation.
  intros a L h s Hh. destruct (free_spec a L h s Hh) as (a' & H1 & H2 & H3). exists a'.
  split_and!; [done..|]. intros b i Hb Hi. by apply (H3 b Hb).
Qed.
Next Obligation.
  intros a L b o data Hh Hb H1 H2. destruct (write_spec a L b o data Hh Hb H1 H2) as (a' & Hrun & Hbytes & Hh' & _).
  exists a'. split_and!; [done|done|..].
  - intros c i _ _ Hi. rewrite Hbytes. by apply byte_write_out.
  - intros k x Hk. rewrite Hbytes. by apply byte_write_in.
Qed.
Next Obligation.
  intros a o len Hl Ho. unfold read_bytes, mbind, SE_bind, gets, id. cbv beta iota.
  by rewrite (proj2 (Z.leb_le _ _)).
Qed.

(** * Submissions (payload.rs) *)
Record PocV3Submission := {
  sub_trx_type : string;
  sub_source_id : Z;
  sub_posted_at_micros : Z;
  sub_line_count : Z;
  sub_line_offset : Z;
}.
Record PocV3Line := {
  ln_line_type : string;
  ln_source_id : option Z;
  ln_pool_id : Z;
  ln_qty : Z;
  ln_unit_cost : Z;
  ln_debit_account : Z;
  ln_credit_account : Z;
}.

#[global] Instance PocV3Submission_eq_dec : EqDecision PocV3Submission.
Proof. solve_decision. Defined.
#[global] Instance PocV3Line_eq_dec : EqDecision PocV3Line.
Proof. solve_decision. Defined.

Inductive PayloadError : Type :=
| ArenaAllocFailed (wanted : Z)
| LineCountOverflow (count : Z)
| LinesBytesOverflow (bytes : Z)
| PayloadBytesOverflow (bytes : Z)
| OutOfBoundsRead (offset len arena_bytes : Z)
| JsonDecode (detail : string)
| LineCountMismatch (declared actual : Z)
| LinesBlockTooSmall (length : Z).

Definition u32_try_from (n : Z) : option Z := if n <=? 2 ^ 32 - 1 then Some n else None.
Definition with_lines (count off : Z) (s : PocV3Submission) : PocV3Submission :=
  {| sub_trx_type := sub_trx_type s; sub_source_id := sub_source_id s;
     sub_posted_at_micros := sub_posted_at_micros s; sub_line_count := count; sub_line_offset := off |}.

Section payload.
Context {A : Type} `{!Allocator A}.
(** serde_json: serialization of the two types. *)
Context (lines_to_vec : list PocV3Line → option (list Z)) (sub_to_vec : PocV3Submission → option (list Z)).
Abbreviation Mem := (SE A ArenaFault).

(** The submission is a [&mut] argument: its new value is returned along. *)
Definition encode_submission (submission : PocV3Submission) (lines : list PocV3Line)
    : Mem (Res PayloadError (Z * Z) * PocV3Submission) :=
  match u32_try_from (Z.of_nat (length lines)) with
  | None => mret (Err (LineCountOverflow (Z.of_nat (length lines))), submission)
  | Some line_count =>
  match lines_to_vec lines with
  | None => mret (Err (JsonDecode "lines serialize"), submission)
  | Some lines_json =>
  match u32_try_from (Z.of_nat (length lines_json)) with
  | None => mret (Err (LinesBytesOverflow (Z.of_nat (length lines_json))), submission)
  | Some lines_bytes_len =>
      let lines_block_len := Z.min (lines_bytes_len + 4) (2 ^ 32 - 1) in
      found ← al_alloc (Z.max lines_block_len 1);
      match found with
      | None => mret (Err (ArenaAllocFailed lines_block_len), submission)
      | Some lines_offset =>
          al_write lines_offset (to_le_bytes lines_bytes_len);;
          al_write (wrap_u32 (lines_offset + 4)) lines_json;;
          let submission := with_lines line_count lines_offset submission in
          match sub_to_vec submission with
          | None => al_free lines_offset;; mret (Err (JsonDecode "submission serialize"), submission)
          | Some sub_json =>
          match u32_try_from (Z.of_nat (length sub_json)) with
          | None => al_free lines_offset;;
                    mret (Err (PayloadBytesOverflow (Z.of_nat (length sub_json))), submission)
          | Some sub_bytes_len =>
              found ← al_alloc (Z.max sub_bytes_len 1);
              match found with
              | None => al_free lines_offset;; mret (Err (ArenaAllocFailed sub_bytes_len), submission)
              | Some sub_offset =>
                  al_write sub_offset sub_json;;
                  mret (Ok (sub_offset, sub_bytes_len), submission)
              end
          end end
      end
  end end end.

Definition read_bytes_bounded (offset len : Z) : Mem (Res PayloadError (list Z)) :=
  if ARENA_BYTES <? offset + len then mret (Err (OutOfBoundsRead offset len ARENA_BYTES))
  else bs ← al_read offset len; mret (Ok bs).

(** serde_json: parsing of the two types. *)
Section parsing.
Context (lines_from_slice : list Z → option (list PocV3Line)) (sub_from_slice : list Z → option PocV3Submission).

Definition decode_submission (payload_offset payload_length : Z)
    : Mem (Res PayloadError (PocV3Submission * list PocV3Line)) :=
  r ← read_bytes_bounded payload_offset payload_length;
  match r with
  | Err e => mret (Err e)
  | Ok sub_bytes =>
  match sub_from_slice sub_bytes with
  | None => mret (Err (JsonDecode "submission deserialize"))
  | Some submission =>
      r ← read_bytes_bounded (sub_line_offset submission) 4;
      match r with
      | Err e => mret (Err e)
      | Ok prefix =>
      if negb (Nat.eqb (length prefix) 4) then mret (Err (LinesBlockTooSmall 4)) else
      r ← read_bytes_bounded (wrap_u32 (sub_line_offset submission + 4)) (from_le_bytes prefix);
      match r with
      | Err e => mret (Err e)
      | Ok lines_json =>
      match lines_from_slice lines_json with
      | None => mret (Err (JsonDecode "lines deserialize"))
      | Some lines =>
          if Z.of_nat (length lines) =? sub_line_count submission
          then mret (Ok (submission, lines))
          else mret (Err (LineCountMismatch (sub_line_count submission) (Z.of_nat (length lines))))
      end end end
  end end.

End parsing.

Definition free_nonzero (offset : Z) : Mem unit := if decide (offset = 0) then mret tt else al_free offset.
Definition free_submission (payload_offset lines_offset : Z) : Mem unit :=
  free_nonzero lines_offset;; free_nonzero payload_offset.

(** [cleanup::free_staging_arena_blocks]: what is released once a submission is
    done with. *)
Definition free_staging_arena_blocks (payload_off pool_keys_off : Z) : Mem unit :=
  free_nonzero payload_off;; free_nonzero pool_keys_off.

(** * Block allocation of an enqueue (enqueue.rs) *)
Definition pool_id_bytes (id : Z) : list Z := map (λ k, (id `div` 256 ^ k) `mod` 256) (seqZ 0 8).
Definition pool_ids_to_le_bytes (pool_ids : list Z) : list Z := concat (map pool_id_bytes pool_ids).

Inductive AllocOutcome : Type :=
| AllocOk (payload_offset payload_length pool_keys_offset : Z)
| ArenaFull
| AllocInternal (e : PayloadError).

Definition try_alloc_blocks (sub : PocV3Submission) (line_vec : list PocV3Line) (pool_ids : list Z)
    : Mem (AllocOutcome * PocV3Submission) :=
  r ← encode_submission sub line_vec;
  match r with
  | (Err (ArenaAllocFailed _), sub) => mret (ArenaFull, sub)
  | (Err e, sub) => mret (AllocInternal e, sub)
  | (Ok (payload_offset, payload_length), sub) =>
      match pool_ids with
      | [] => mret (AllocOk payload_offset payload_length 0, sub)
      | _ =>
          found ← al_alloc (wrap_u32 (wrap_u32 (Z.of_nat (length pool_ids)) * 8));
          match found with
          | Some off =>
              al_write off (pool_ids_to_le_bytes pool_ids);;
              mret (AllocOk payload_offset payload_length off, sub)
          | None =>
              free_submission payload_offset (sub_line_offset sub);;
              mret (ArenaFull, sub)
          end
      end
  end.

(** * What an encoded submission looks like *)
Definition reads_as (a : A) (o : Z) (data : list Z) : Prop :=
  ∀ (k : nat) x, data !! k = Some x → view a (o + Z.of_nat k) = x.

Lemma reads_as_run a o data :
  reads_as a o data → o + Z.of_nat (length data) ≤ ARENA_BYTES →
  al_read o (Z.of_nat (length data)) a = (Ok data, a).
Proof.
  intros Hr Ho. rewrite read_law by lia. do 2 f_equal. apply list_eq. intros k.
  change (map ?f ?l) with (f <$> l). rewrite list_lookup_fmap.
  destruct (decide (k < length data)%nat) as [Hk|Hk].
  - rewrite lookup_seqZ_lt by lia. cbn. destruct (lookup_lt_is_Some_2 data k Hk) as [b Hb].
    rewrite Hb. f_equal. rewrite Z.add_0_l. by apply Hr.
  - rewrite lookup_seqZ_ge by lia. symmetry. apply lookup_ge_None_2. lia.
Qed.
Lemma reads_bounded_run a o data :
  reads_as a o data → o + Z.of_nat (length data) ≤ ARENA_BYTES →
  read_bytes_bounded o (Z.of_nat (length data)) a = (Ok (Ok data), a).
Proof.
  intros Hr Ho. unfold read_bytes_bounded. rewrite (proj2 (Z.ltb_ge _ _)) by lia.
  by rewrite (SE_bind_run _ _ _ _ _ (reads_as_run _ _ _ Hr Ho)).
Qed.
Lemma reads_as_mono a a' o data (b : Z * Z) :
  reads_as a o data → b.1 + 8 ≤ o → o + Z.of_nat (length data) ≤ b.1 + 8 + b.2 →
  (∀ i, payload_of b i → view a' i = view a i) → reads_as a' o data.
Proof.
  intros Hr H1 H2 Hv k x Hk. rewrite Hv; [by apply Hr|].
  apply lookup_lt_Some in Hk. unfold payload_of. lia.
Qed.

(** Two blocks hold the submission and its lines. *)
Record encoded (a : A) (sub : PocV3Submission) (lines : list PocV3Line) (off len : Z)
    (bs bl : Z * Z) : Prop := {
  en_sub : ∃ sj, sub_to_vec sub = Some sj ∧ len = Z.of_nat (length sj) ∧ len ≤ bs.2 ∧ reads_as a off sj;
  en_off : off = bs.1 + 8 ∧ sub_line_offset sub = bl.1 + 8;
  en_lines : ∃ lj, lines_to_vec lines = Some lj ∧ 4 + Z.of_nat (length lj) ≤ bl.2 ∧
    reads_as a (bl.1 + 8) (to_le_bytes (Z.of_nat (length lj))) ∧ reads_as a (bl.1 + 12) lj;
  en_count : sub_line_count sub = Z.of_nat (length lines);
  en_bounds : (8 ≤ bs.1 ∧ bs.1 + 8 + bs.2 ≤ ARENA_BYTES) ∧ 8 ≤ bl.1 ∧ bl.1 + 8 + bl.2 ≤ ARENA_BYTES;
}.

(** It survives whatever leaves the two payloads alone. *)
Lemma encoded_stable a a' sub lines off len bs bl :
  encoded a sub lines off len bs bl →
  (∀ i, payload_of bs i → view a' i = view a i) → (∀ i, payload_of bl i → view a' i = view a i) →
  encoded a' sub lines off len bs bl.
Proof.
  intros [(sj & H1 & H2 & H3 & H4) [H5 H6] (lj & H7 & H8 & H9 & H10) H11 H12] Hs Hl.
  split; [|done| |done|done].
  - exists sj. split_and!; [done..|]. eapply (reads_as_mono _ _ _ _ bs); [exact H4|lia|lia|done].
  - exists lj. split_and!; [done|done|..].
    + eapply (reads_as_mono _ _ _ _ bl); [exact H9|lia|cbn [length to_le_bytes]; lia|done].
    + eapply (reads_as_mono _ _ _ _ bl); [exact H10|lia|lia|done].
Qed.

(** * Encoding *)
Definition unchanged (L : list (Z * Z)) (a a' : A) : Prop :=
  ∀ b i, b ∈ L → payload_of b i → view a' i = view a i.
Lemma unchanged_trans L a1 a2 a3 : unchanged L a1 a2 → unchanged L a2 a3 → unchanged L a1 a3.
Proof. intros H1 H2 b i Hb Hi. by rewrite (H2 b i Hb Hi), (H1 b i Hb Hi). Qed.
Lemma unchanged_sub L L' a a' : unchanged L a a' → L' ⊆ L → unchanged L' a a'.
Proof. intros H Hs b i Hb. apply H. by apply Hs. Qed.

(** The JSON texts fit the 32-bit lengths with room for the headers. *)
Definition texts_fit (sub : PocV3Submission) (lines : list PocV3Line) : Prop :=
  (∀ b, lines_to_vec lines = Some b → Z.of_nat (length b) ≤ 2 ^ 32 - 20) ∧
  (∀ n o b, sub_to_vec (with_lines n o sub) = Some b → Z.of_nat (length b) ≤ 2 ^ 32 - 16).

Lemma write_apart a L b o data :
  owns a L → b ∈ L → b.1 + 8 ≤ o → o + Z.of_nat (length data) ≤ b.1 + 8 + b.2 →
  ∃ a', al_write o data a = (Ok tt, a') ∧ owns a' L ∧ reads_as a' o data ∧
    (∀ c, c ∈ L → c ≠ b → unchanged [c] a a') ∧
    (∀ i, payload_of b i → i < o ∨ o + Z.of_nat (length data) ≤ i → view a' i = view a i).
Proof.
  intros Ho Hb H1 H2. destruct (write_law a L b o data Ho Hb H1 H2) as (a' & Hrun & Ho' & Hout & Hin).
  exists a'. split_and!; [done|done|done|..].
  - intros c Hc Hne c' i ->%list_elem_of_singleton Hi. eapply Hout; [exact Hc|done|].
    destruct (owns_apart _ _ _ _ Ho Hb Hc) as [->|Hd]; [done|].
    destruct (owns_in _ _ _ Ho Hc) as (_ & _ & ?). unfold payload_of in Hi. lia.
  - intros i Hi. by eapply Hout.
Qed.

(** The lines block: length prefix, then text. *)
Lemma write_lines_block a L h s lj :
  owns a ((h, s) :: L) → 4 + Z.of_nat (length lj) ≤ s →
  ∃ a', (al_write (h + 8) (to_le_bytes (Z.of_nat (length lj)));; al_write (wrap_u32 (h + 8 + 4)) lj) a = (Ok tt, a') ∧
    owns a' ((h, s) :: L) ∧ unchanged L a a' ∧
    reads_as a' (h + 8) (to_le_bytes (Z.of_nat (length lj))) ∧ reads_as a' (h + 12) lj.
Proof.
  intros Ho Hs. pose proof (owns_NoDup _ _ Ho) as Hnd. assert ((h, s) ∈ (h, s) :: L) as Hb by (by left).
  assert (∀ c, c ∈ L → c ≠ (h, s)) as Hne by (intros c Hc ->; by apply NoDup_cons in Hnd as [? _]).
  destruct (owns_in _ _ _ Ho Hb) as (B1 & B2 & B3). cbn in B1, B2, B3.
  destruct (write_apart a _ (h, s) (h + 8) (to_le_bytes (Z.of_nat (length lj))) Ho Hb)
    as (a1 & R1 & O1 & S1 & U1 & _); [cbn; lia|cbn; lia|].
  destruct (write_apart a1 _ (h, s) (h + 12) lj O1 Hb) as (a2 & R2 & O2 & S2 & U2 & V2); [cbn; lia|cbn; lia|].
  exists a2. rewrite (SE_bind_run _ _ _ _ _ R1). unfold wrap_u32.
  rewrite Z.mod_small by (unfold ARENA_BYTES in *; lia). replace (h + 8 + 4) with (h + 12) by lia.
  split_and!; [done|done|..|done].
  - intros c i Hc Hi.
    rewrite (U2 c ltac:(by right) (Hne c Hc) c i ltac:(by left) Hi).
    by rewrite (U1 c ltac:(by right) (Hne c Hc) c i ltac:(by left) Hi).
  - intros k x Hk. apply lookup_lt_Some in Hk as Hlt. cbn in Hlt.
    rewrite V2; [by apply S1|unfold payload_of; cbn; lia|lia].
Qed.

Lemma u32_try_from_small n : n ≤ 2 ^ 32 - 1 → u32_try_from n = Some n.
Proof. intros H. unfold u32_try_from. by rewrite (proj2 (Z.leb_le _ _)). Qed.
Lemma u32_try_from_Some n m : u32_try_from n = Some m → m = n ∧ n ≤ 2 ^ 32 - 1.
Proof. unfold u32_try_from. destruct (_ <=? _) eqn:E; [|done]. apply Z.leb_le in E. naive_solver. Qed.

(** Releasing the lines block on an error path. *)
Lemma free_lines_block a L h s :
  owns a ((h, s) :: L) →
  ∃ a', (∀ B (r : B), (al_free (h + 8);; mret r) a = (Ok r, a')) ∧ owns a' L ∧ unchanged L a a'.
Proof.
  intros Ho. destruct (free_law _ _ _ _ Ho) as (a' & Hrun & Ho' & Hu). exists a'.
  split; [|done]. intros B r. by rewrite (SE_bind_run _ _ _ _ _ Hrun).
Qed.

(** The submission block. *)
Lemma write_sub_block a L hs ss sj :
  owns a ((hs, ss) :: L) → Z.of_nat (length sj) ≤ ss →
  ∃ a', (∀ B (r : B), (al_write (hs + 8) sj;; mret r) a = (Ok r, a')) ∧ owns a' ((hs, ss) :: L) ∧
    unchanged L a a' ∧ reads_as a' (hs + 8) sj.
Proof.
  intros Ho Hs. pose proof (owns_NoDup _ _ Ho) as [Hn _]%NoDup_cons.
  destruct (write_apart a _ (hs, ss) (hs + 8) sj Ho) as (a' & R & O & S & U & _);
    [by left|cbn; lia|cbn; lia|].
  exists a'. split_and!; [intros B r; by rewrite (SE_bind_run _ _ _ _ _ R)|done| |done].
  intros c i Hc Hi. exact (U c ltac:(by right) ltac:(by intros ->) c i ltac:(by left) Hi).
Qed.

(** What an encoding leaves behind: two blocks with the submission, or on an
    error nothing. *)
Lemma encode_submission_spec a L sub lines :
  owns a L → texts_fit sub lines →
  ∃ r sub' a', encode_submission sub lines a = (Ok (r, sub'), a') ∧ unchanged L a a' ∧
    match r with
    | Err _ => owns a' L
    | Ok (off, len) => ∃ bs bl, owns a' (bs :: bl :: L) ∧ encoded a' sub' lines off len bs bl ∧
        sub' = with_lines (Z.of_nat (length lines)) (bl.1 + 8) sub
    end.
Proof.
  intros Ho [Hfl Hfs]. unfold encode_submission.
  destruct (u32_try_from (Z.of_nat (length lines))) as [n|] eqn:En; [|by eexists _, _, a].
  apply u32_try_from_Some in En as [-> _].
  destruct (lines_to_vec lines) as [lj|] eqn:Elj; [|by eexists _, _, a].
  specialize (Hfl lj eq_refl). rewrite u32_try_from_small by lia. cbv zeta.
  rewrite Z.min_l by lia. rewrite Z.max_l by lia.
  destruct (alloc_law a L (Z.of_nat (length lj) + 4) Ho) as
    [(h & s & a1 & R1 & Hs & O1 & U1)|(a1 & R1 & O1 & U1)]; [lia| |].
  2: { rewrite (SE_bind_run _ _ _ _ _ R1). by eexists _, _, a1. }
  rewrite (SE_bind_run _ _ _ _ _ R1).
  destruct (write_lines_block a1 L h s lj O1) as (a2 & R2 & O2 & U2 & S2 & T2); [lia|].
  apply SE_bind_Ok in R2 as ([] & a1' & R2 & R2').
  rewrite (SE_bind_run _ _ _ _ _ R2), (SE_bind_run _ _ _ _ _ R2').
  pose proof (unchanged_trans _ _ _ _ U1 U2) as U12. set (sub1 := with_lines _ _ _).
  destruct (sub_to_vec sub1) as [sj|] eqn:Esj.
  2: { destruct (free_lines_block a2 L h s O2) as (a3 & R3 & O3 & U3).
       eexists _, _, a3. split; [apply R3|]. split; [by eapply unchanged_trans|done]. }
  specialize (Hfs _ _ _ Esj). rewrite u32_try_from_small by lia.
  destruct (alloc_law a2 _ (Z.max (Z.of_nat (length sj)) 1) O2) as
    [(hs & ss & a3 & R3 & Hss & O3 & U3)|(a3 & R3 & O3 & U3)]; [lia| |]; rewrite (SE_bind_run _ _ _ _ _ R3);
    pose proof (unchanged_trans _ _ _ _ U12 (unchanged_sub _ L _ _ U3 ltac:(set_solver))) as U13.
  2: { destruct (free_lines_block a3 L h s O3) as (a4 & R4 & O4 & U4).
       eexists _, _, a4. split; [apply R4|]. split; [by eapply unchanged_trans|done]. }
  destruct (write_sub_block a3 _ hs ss sj O3) as (a4 & R4 & O4 & U4 & S4); [lia|].
  eexists _, _, a4. split; [apply R4|]. split; [eapply unchanged_trans; [exact U13|by eapply unchanged_sub; [exact U4|set_solver]]|].
  exists (hs, ss), (h, s). split_and!; [done| |done].
  destruct (owns_in _ _ (hs, ss) O4) as (? & ? & ?); [by left|].
  destruct (owns_in _ _ (h, s) O4) as (? & ? & ?); [by right; left|].
  assert (unchanged [(h, s)] a2 a4) as U24.
  { eapply unchanged_trans; [eapply unchanged_sub; [exact U3|set_solver]|].
    eapply unchanged_sub; [exact U4|set_solver]. }
  assert (∀ i, payload_of (h, s) i → view a4 i = view a2 i) as V24 by (intros i Hi; exact (U24 (h, s) i ltac:(by left) Hi)).
  split; [exists sj; cbn; split_and!; [done|done|lia|done]|done| |done|done].
  exists lj. cbn in *. split_and!; [done|lia|..].
  - eapply (reads_as_mono _ _ _ _ (h, s)); [exact S2|cbn; lia|cbn; lia|done].
  - eapply (reads_as_mono _ _ _ _ (h, s)); [exact T2|cbn; lia|cbn; lia|done].
Qed.

Lemma pool_ids_bytes_length ids : length (pool_ids_to_le_bytes ids) = (8 * length ids)%nat.
Proof.
  unfold pool_ids_to_le_bytes. induction ids as [|p ids IH]; [done|]. cbn [map concat]. rewrite length_app, IH.
  cbn [length]. change (length (pool_id_bytes p)) with 8%nat. lia.
Qed.

Lemma free_nonzero_run a L h s :
  owns a ((h, s) :: L) → ∃ a', free_nonzero (h + 8) a = (Ok tt, a') ∧ owns a' L ∧ unchanged L a a'.
Proof.
  intros Ho. destruct (owns_in _ _ _ Ho ltac:(by left)) as (? & _ & _). cbn in *.
  unfold free_nonzero. rewrite decide_False by lia. apply free_law with s. done.
Qed.

(** The blocks of an enqueue: all of them, or on a failure none. *)
Lemma try_alloc_blocks_spec a L sub lines pool_ids :
  owns a L → texts_fit sub lines → pool_ids ≠ [] → Z.of_nat (length pool_ids) ≤ 65535 →
  ∃ r sub' a', try_alloc_blocks sub lines pool_ids a = (Ok (r, sub'), a') ∧ unchanged L a a' ∧
    match r with
    | AllocOk off len keys => ∃ bp bs bl, owns a' (bp :: bs :: bl :: L) ∧ keys = bp.1 + 8 ∧
        encoded a' sub' lines off len bs bl ∧ reads_as a' keys (pool_ids_to_le_bytes pool_ids) ∧
        sub' = with_lines (Z.of_nat (length lines)) (bl.1 + 8) sub
    | _ => owns a' L
    end.
Proof.
  intros Ho Hfit Hne Hlen. unfold try_alloc_blocks.
  destruct (encode_submission_spec a L sub lines Ho Hfit) as (r & sub' & a1 & R1 & U1 & H1).
  rewrite (SE_bind_run _ _ _ _ _ R1). destruct r as [[off len]|e]; last first.
  { destruct e; by eexists _, sub', a1. }
  destruct H1 as (bs & [hl sl] & O1 & E1 & Hsub). destruct pool_ids as [|p0 rest] eqn:Ep; [done|]. rewrite <-Ep in *.
  assert (0 < Z.of_nat (length pool_ids)) by (rewrite Ep; cbn; lia). clear p0 rest Ep Hne.
  unfold wrap_u32. rewrite (Z.mod_small (Z.of_nat (length pool_ids))), Z.mod_small by lia.
  destruct (alloc_law a1 _ (Z.of_nat (length pool_ids) * 8) O1) as
    [(hp & sp & a2 & R2 & Hsp & O2 & U2)|(a2 & R2 & O2 & U2)]; [lia| |]; rewrite (SE_bind_run _ _ _ _ _ R2).
  - destruct (write_sub_block a2 _ hp sp (pool_ids_to_le_bytes pool_ids) O2) as (a3 & R3 & O3 & U3 & S3).
    { rewrite pool_ids_bytes_length. lia. }
    eexists _, sub', a3. split; [apply R3|].
    assert (unchanged (bs :: (hl, sl) :: L) a1 a3) as U13 by (by eapply unchanged_trans).
    split; [eapply unchanged_trans; [exact U1|eapply unchanged_sub; [exact U13|set_solver]]|].
    exists (hp, sp), bs, (hl, sl). split_and!; [done|done| |done|done].
    eapply encoded_stable; [exact E1|..].
    + intros i Hi. exact (U13 bs i ltac:(by left) Hi).
    + intros i Hi. exact (U13 (hl, sl) i ltac:(by right; left) Hi).
  - subst sub'. unfold free_submission. cbn [sub_line_offset with_lines fst].
    destruct (en_off _ _ _ _ _ _ _ E1) as [-> _]. destruct bs as [hs ss].
    assert (owns a2 ((hl, sl) :: (hs, ss) :: L)) as O2' by (eapply owns_perm; [|exact O2]; constructor).
    destruct (free_nonzero_run _ _ _ _ O2') as (a3 & R3 & O3 & U3).
    destruct (free_nonzero_run _ _ _ _ O3) as (a4 & R4 & O4 & U4). cbn [fst].
    eexists _, _, a4. split.
    + erewrite SE_bind_run; [reflexivity|]. by rewrite (SE_bind_run _ _ _ _ _ R3).
    + split; [|done]. eapply unchanged_trans; [exact U1|]. eapply unchanged_trans; [eapply unchanged_sub; [exact U2|set_solver]|].
      eapply unchanged_trans; [eapply unchanged_sub; [exact U3|set_solver]|done].
Qed.

(** serde parses what it printed. *)
Section roundtrip.
Context (lines_from_slice : list Z → option (list PocV3Line)) (sub_from_slice : list Z → option PocV3Submission).
Hypothesis lines_roundtrip : ∀ ls b, lines_to_vec ls = Some b → lines_from_slice b = Some ls.
Hypothesis sub_roundtrip : ∀ s b, sub_to_vec s = Some b → sub_from_slice b = Some s.

Lemma decode_encoded a sub lines off len bs bl :
  encoded a sub lines off len bs bl →
  decode_submission lines_from_slice sub_from_slice off len a = (Ok (Ok (sub, lines)), a).
Proof.
  intros [(sj & H1 & -> & H3 & H4) [-> H6] (lj & H7 & H8 & H9 & H10) H11 [[B1 B2] [B3 B4]]].
  unfold decode_submission.
  rewrite (SE_bind_run _ _ _ _ _ (reads_bounded_run _ _ _ H4 ltac:(lia))).
  rewrite (sub_roundtrip _ _ H1), H6.
  change 4 with (Z.of_nat (length (to_le_bytes (Z.of_nat (length lj))))) at 1.
  rewrite (SE_bind_run _ _ _ _ _ (reads_bounded_run _ _ _ H9 ltac:(cbn [length to_le_bytes]; lia))).
  cbn [length to_le_bytes Nat.eqb negb].
  change [_ `mod` 256; _; _; _] with (to_le_bytes (Z.of_nat (length lj))).
  rewrite from_to_le_bytes by (unfold ARENA_BYTES in *; lia).
  unfold wrap_u32. rewrite Z.mod_small by (unfold ARENA_BYTES in *; lia).
  replace (bl.1 + 8 + 4) with (bl.1 + 12) by lia.
  rewrite (SE_bind_run _ _ _ _ _ (reads_bounded_run _ _ _ H10 ltac:(lia))).
  rewrite (lines_roundtrip _ _ H7), H11, Z.eqb_refl. done.
Qed.

(** C29: A submission survives its stay in the arena.  Allocating the blocks of an
    enqueue either fails and leaves its clients owning what they owned, or stores
    the submission so that, for as long as nobody writes into its two blocks,
    decoding at the returned offset gives back exactly the submission (with its
    line count and offset filled in) and its lines; no block anyone else owns is
    touched in either case. *)
Theorem submission_survives_arena a L sub lines pool_ids :
  owns a L → texts_fit sub lines → pool_ids ≠ [] → Z.of_nat (length pool_ids) ≤ 65535 →
  ∃ r sub' a', try_alloc_blocks sub lines pool_ids a = (Ok (r, sub'), a') ∧ unchanged L a a' ∧
    match r with
    | AllocOk off len keys => ∃ bp bs bl, owns a' (bp :: bs :: bl :: L) ∧
        sub' = with_lines (Z.of_nat (length lines)) (bl.1 + 8) sub ∧
        ∀ a'', unchanged [bs; bl] a' a'' →
          decode_submission lines_from_slice sub_from_slice off len a'' = (Ok (Ok (sub', lines)), a'')
    | _ => owns a' L
    end.
Proof.
  intros Ho Hfit Hne Hlen.
  destruct (try_alloc_blocks_spec a L sub lines pool_ids Ho Hfit Hne Hlen) as (r & sub' & a' & R & U & H).
  exists r, sub', a'. split_and!; [done|done|]. destruct r as [off len keys| |e]; [|done|done].
  destruct H as (bp & bs & bl & O & _ & E & _ & Hsub). exists bp, bs, bl. split_and!; [done|done|].
  intros a'' U''. eapply decode_encoded, encoded_stable; [exact E|..].
  - intros i Hi. exact (U'' bs i ltac:(by left) Hi).
  - intros i Hi. exact (U'' bl i ltac:(by right; left) Hi).
Qed.

End roundtrip.

(** * The life of a submission's blocks *)
Record Job := { job_sub : PocV3Submission; job_lines : list PocV3Line; job_pools : list Z }.
Definition job_fits (j : Job) : Prop :=
  texts_fit (job_sub j) (job_lines j) ∧ job_pools j ≠ [] ∧ Z.of_nat (length (job_pools j)) ≤ 65535.

(** Enqueue, and once the submission is committed, the release by the cleanup. *)
Definition serve (j : Job) : Mem bool :=
  r ← try_alloc_blocks (job_sub j) (job_lines j) (job_pools j);
  match r.1 with
  | AllocOk payload_off _ pool_keys_off => free_staging_arena_blocks payload_off pool_keys_off;; mret true
  | _ => mret false
  end.
Fixpoint serve_all (js : list Job) : Mem bool :=
  match js with
  | [] => mret true
  | j :: js => ok ← serve j; if ok : bool then serve_all js else mret false
  end.

Lemma serve_spec a L j :
  owns a L → job_fits j →
  ∃ ok a', serve j a = (Ok ok, a') ∧
    (if ok : bool then ∃ bl, owns a' (bl :: L) else owns a' L).
Proof.
  intros Ho (Hfit & Hne & Hlen). unfold serve.
  destruct (try_alloc_blocks_spec a L _ _ _ Ho Hfit Hne Hlen) as (r & sub' & a1 & R1 & _ & H1).
  rewrite (SE_bind_run _ _ _ _ _ R1). cbn [fst]. destruct r as [off len keys| |e]; [|by exists false, a1..].
  destruct H1 as ([hp sp] & [hs ss] & bl & O1 & -> & E1 & _ & _).
  destruct (en_off _ _ _ _ _ _ _ E1) as [-> _]. cbn [fst].
  assert (owns a1 ((hs, ss) :: (hp, sp) :: bl :: L)) as O1' by (eapply owns_perm; [|exact O1]; constructor).
  destruct (free_nonzero_run _ _ _ _ O1') as (a2 & R2 & O2 & _).
  destruct (free_nonzero_run _ _ _ _ O2) as (a3 & R3 & O3 & _).
  exists true, a3. split; [|by exists bl]. unfold free_staging_arena_blocks.
  erewrite SE_bind_run; [reflexivity|]. by rewrite (SE_bind_run _ _ _ _ _ R2).
Qed.

(** The cleanup does not give back all a submission took.  Every submission
    that is enqueued and cleaned up leaves the block of its lines allocated: after
    [n] of them, with nothing in flight, [n] blocks are still owned.  So the arena
    serves at most 2^23 submissions before it stays full. *)
Theorem cleanup_leaks_lines a L js :
  owns a L → Forall job_fits js →
  ∃ ok a', serve_all js a = (Ok ok, a') ∧
    (ok = true → (∃ leaked, length leaked = length js ∧ owns a' (leaked ++ L)) ∧
                 Z.of_nat (length js) ≤ 2 ^ 23).
Proof.
  intros Ho Hjs.
  assert (∃ ok a', serve_all js a = (Ok ok, a') ∧
    (ok = true → ∃ leaked, length leaked = length js ∧ owns a' (leaked ++ L))) as (ok & a' & R & H).
  { revert a L Ho. induction Hjs as [|j js Hj Hjs IH]; intros a L Ho.
    - exists true, a. split; [done|]. intros _. by exists [].
    - cbn [serve_all]. destruct (serve_spec a L j Ho Hj) as ([] & a1 & R1 & H1); rewrite (SE_bind_run _ _ _ _ _ R1).
      + destruct H1 as [bl O1]. destruct (IH a1 (bl :: L) O1) as (ok & a2 & R2 & H2).
        exists ok, a2. split; [done|]. intros Hok. destruct (H2 Hok) as (lk & Hlk & O2).
        exists (lk ++ [bl]). rewrite length_app. cbn. split; [lia|]. by rewrite <-app_assoc.
      + by exists false, a1. }
  exists ok, a'. split; [done|]. intros Hok. destruct (H Hok) as (lk & Hlk & O).
  split; [by exists lk|]. apply owns_room in O. rewrite length_app in O. unfold ARENA_BYTES in O. lia.
Qed.
End payload.
