(* ===== verification/V3Group.v ===== *)
(** Path B of the two-path ledger: the database half of a commit group
    (ledger-routed, committer.rs).  The submissions of a group are planned
    against one snapshot, those that fail are excluded and the walk restarts, and
    the clean plans are written under one savepoint that is retried without a
    submission whose document exists already. *)
From S2P Require Import Prelude V3Plan V3Layered V3Wac V3Method V3Books V3Db V3Hydrate V3Refine.
From S2P Require Import V3Commit V3Safe V3Sim V3Direct V3Payload.

(** * Submissions as they come out of the arena *)
Record Decoded := {
  dc_staging_idx : Z;
  dc_user_tx_xid : Z;
  dc_submission : PocV3Submission;
  dc_lines : list PocV3Line;
}.

Definition poc_line_request (l : PocV3Line) (lt : LineType) : TrxLineRequest :=
  {| req_pool_id := ln_pool_id l; req_line_type := lt; req_source_id := ln_source_id l;
     req_qty := ln_qty l; req_unit_cost := ln_unit_cost l;
     req_debit_account := ln_debit_account l; req_credit_account := ln_credit_account l |}.
Fixpoint decode_lines (ls : list PocV3Line) : Res string (list TrxLineRequest) :=
  match ls with
  | [] => Ok []
  | l :: ls =>
      match decode_line_type (ln_line_type l) with
      | None => Err ("unknown line_type '" +:+ ln_line_type l +:+ "'")
      | Some lt => rs ← decode_lines ls; Ok (poc_line_request l lt :: rs)
      end
  end.

(** * Planning with exclusion *)
Record PlannedSubmission := {
  pl_idx_in_kept : nat;
  pl_trx_type : string;
  pl_source_id : Z;
  pl_posted_at : Timestamp;
  pl_plan : PlanResult;
}.

(** How one walk over the kept submissions ends. *)
Inductive Pass : Type :=
| PassClean (plans : list PlannedSubmission)
| PassFailed (i : nat)
| PassFatal (msg : string)
| PassPanicked (msg : string).

Inductive PlanOutcome : Type :=
| Clean (plans : list PlannedSubmission)
| AllExcluded
| FatalDecode (msg : string)
| PlanPanicked (msg : string).

Inductive WriteOutcome : Type :=
| Committed (count : nat)
| UniqueViolationAt (idx : nat)
| WriteUnwound (e : SqlError).

(** How the loop ends when it does not return a count: with its error value, or
    unwound by an SQL error that no handler catches. *)
Inductive LoopFault : Type :=
| LoopErr (msg : string)
| LoopUnwound (e : SqlError).

Section group.
(** [DateTime::from_timestamp_micros] (chrono): [None] out of its range. *)
Context (from_timestamp_micros : Z → option Timestamp).

Fixpoint plan_walk (i : nat) (kept : list Decoded) (excluded : gset nat) (s : Snapshot) : Pass :=
  match kept with
  | [] => PassClean []
  | d :: kept =>
      if decide (i ∈ excluded) then plan_walk (S i) kept excluded s else
      match from_timestamp_micros (sub_posted_at_micros (dc_submission d)) with
      | None => PassFatal ("submission #" +:+ pretty i +:+ " posted_at_micros " +:+
                           pretty (sub_posted_at_micros (dc_submission d)) +:+ " out of range")
      | Some posted_at =>
          match decode_lines (dc_lines d) with
          | Err e => PassFatal ("submission #" +:+ pretty i +:+ ": " +:+ e)
          | Ok reqs =>
              match plan_apply s reqs posted_at with
              | (Err (Panicked msg), _) => PassPanicked msg
              | (Err (Returned _), _) => PassFailed i
              | (Ok plan, s') =>
                  match plan_walk (S i) kept excluded s' with
                  | PassClean plans =>
                      PassClean ({| pl_idx_in_kept := i;
                                    pl_trx_type := sub_trx_type (dc_submission d);
                                    pl_source_id := sub_source_id (dc_submission d);
                                    pl_posted_at := posted_at; pl_plan := plan |} :: plans)
                  | other => other
                  end
              end
          end
      end
  end.

Fixpoint plan_all_from (cap : nat) (pristine : Snapshot) (kept : list Decoded)
    (excluded : gset nat) : PlanOutcome * gset nat :=
  match cap with
  | O => (AllExcluded, excluded)
  | S cap =>
      match plan_walk 0 kept excluded pristine with
      | PassFatal msg => (FatalDecode msg, excluded)
      | PassPanicked msg => (PlanPanicked msg, excluded)
      | PassFailed i => plan_all_from cap pristine kept ({[i]} ∪ excluded)
      | PassClean [] => (AllExcluded, excluded)
      | PassClean plans => (Clean plans, excluded)
      end
  end.
Definition plan_all_with_inner_replay (pristine : Snapshot) (kept : list Decoded)
    (excluded : gset nat) : PlanOutcome * gset nat :=
  plan_all_from (S (length kept)) pristine kept excluded.

(** * Writing under a savepoint *)
Fixpoint write_plans (plans : list PlannedSubmission) : SE Db (nat * SqlError) unit :=
  match plans with
  | [] => mret tt
  | p :: plans => λ d,
      match apply_plan_result (pl_trx_type p) (pl_source_id p) (pl_posted_at p) (pl_plan p) d with
      | (Ok _, d') => write_plans plans d'
      | (Err e, d') => (Err (pl_idx_in_kept p, e), d')
      end
  end.

Definition is_unique_violation (e : SqlError) : bool :=
  match e with SqlRaised code _ => bool_decide (code = "23505"%string) | _ => false end.

(** [catch_when] takes unique violations only; any other error keeps unwinding
    and aborts the transaction around the savepoint. *)
Definition write_plans_in_subtx (plans : list PlannedSubmission) (d : Db) : WriteOutcome * Db :=
  match write_plans plans d with
  | (Ok _, d') => (Committed (length plans), d')
  | (Err (idx, e), d') =>
      if is_unique_violation e then (UniqueViolationAt idx, rollback d d')
      else (WriteUnwound e, d')
  end.

Fixpoint replay_from (cap : nat) (pristine : Snapshot) (kept : list Decoded)
    (excluded : gset nat) : SE Db LoopFault nat :=
  match cap with
  | O => throw (LoopErr "pristine-replay exceeded its iterations without convergence")
  | S cap => λ d,
      match plan_all_with_inner_replay pristine kept excluded with
      | (AllExcluded, _) => (Ok 0%nat, d)
      | (FatalDecode e, _) => (Err (LoopErr e), d)
      | (PlanPanicked msg, _) => (Err (LoopUnwound (RustPanicked msg)), d)
      | (Clean plans, excluded) =>
          match write_plans_in_subtx plans d with
          | (Committed count, d') => (Ok count, d')
          | (UniqueViolationAt idx, d') => replay_from cap pristine kept ({[idx]} ∪ excluded) d'
          | (WriteUnwound e, d') => (Err (LoopUnwound e), d')
          end
      end
  end.
Definition run_pristine_replay_loop (pristine : Snapshot) (kept : list Decoded)
    : SE Db LoopFault nat := replay_from (S (length kept)) pristine kept ∅.

(** Steps 5 to 9 of [process_commit_group_inner]: the pool union, the locks, the
    pristine snapshot, the replay loop. *)
Definition pool_union (kept : list Decoded) : list Z :=
  sorted_dedup (concat (map (λ d, map ln_pool_id (dc_lines d)) kept)).
Definition commit_kept (kept : list Decoded) : SE Db LoopFault nat := λ d,
  match acquire_pool_locks (pool_union kept) d with
  | (Err e, d') => (Err (LoopUnwound e), d')
  | (Ok _, d') => run_pristine_replay_loop (hydrate_snapshot d' (pool_union kept)) kept d'
  end.
(** [BackgroundWorker::transaction] commits when the closure returns, also with
    an error value, and aborts when it unwinds. *)
Definition group_transaction (kept : list Decoded) : SE Db LoopFault nat := λ d,
  match commit_kept kept d with
  | (Err (LoopUnwound e), d') => (Err (LoopUnwound e), rollback d d')
  | other => other
  end.

(** * The loops run to their end *)
Definition remaining (n : nat) (excluded : gset nat) : nat :=
  length (filter (λ i, i ∉ excluded) (seq 0 n)).

Lemma remaining_le n excluded : (remaining n excluded ≤ n)%nat.
Proof. unfold remaining. rewrite <-(length_seq n 0) at 2. apply length_filter. Qed.
Lemma remaining_mono n (E E' : gset nat) : E ⊆ E' → (remaining n E' ≤ remaining n E)%nat.
Proof.
  intros HE. unfold remaining. induction (seq 0 n) as [|i l IH]; [done|]. rewrite !filter_cons.
  destruct (decide (i ∉ E')), (decide (i ∉ E)); cbn; [lia|set_solver|lia|lia].
Qed.
Lemma remaining_lt n (E : gset nat) j :
  (j < n)%nat → j ∉ E → (remaining n ({[j]} ∪ E) < remaining n E)%nat.
Proof.
  intros Hj HE. unfold remaining.
  assert (j ∈ seq 0 n) as Hin by (apply elem_of_seq; lia).
  apply elem_of_Permutation in Hin as [k Hk].
  assert (∀ F : gset nat, length (filter (λ i, i ∉ F) (seq 0 n)) = length (filter (λ i, i ∉ F) (j :: k))) as H
    by (intros F; by rewrite Hk).
  rewrite !H, !filter_cons, decide_False, decide_True by set_solver. cbn.
  apply Nat.lt_succ_r. clear. induction k as [|i k IH]; [done|]. rewrite !filter_cons.
  destruct (decide (i ∉ {[j]} ∪ E)), (decide (i ∉ E)); cbn; [lia|set_solver|lia|lia].
Qed.

Lemma plan_walk_failed i kept E s j :
  plan_walk i kept E s = PassFailed j → (j ∉ E) ∧ (i ≤ j < i + length kept)%nat.
Proof.
  revert i s. induction kept as [|d kept IH]; intros i s; cbn [plan_walk length]; [done|].
  intros H. repeat case_match; simplify_eq; try (apply IH in H as [? ?]; split; [done|lia]);
    try (match goal with H : plan_walk _ _ _ _ = PassFailed _ |- _ => apply IH in H as [? ?] end;
         split; [done|lia]).
  split; [done|lia].
Qed.
Lemma plan_walk_clean i kept E s ps :
  plan_walk i kept E s = PassClean ps →
  Forall (λ p, (pl_idx_in_kept p ∉ E) ∧ (i ≤ pl_idx_in_kept p < i + length kept)%nat) ps.
Proof.
  revert i s ps. induction kept as [|d kept IH]; intros i s ps; cbn [plan_walk length].
  { intros [= <-]. constructor. }
  assert (∀ ps, Forall (λ p, (pl_idx_in_kept p ∉ E) ∧ (S i ≤ pl_idx_in_kept p < S i + length kept)%nat) ps →
    Forall (λ p, (pl_idx_in_kept p ∉ E) ∧ (i ≤ pl_idx_in_kept p < i + S (length kept))%nat) ps) as Hup.
  { intros k Hk. eapply Forall_impl; [exact Hk|]. cbn. intros p [? ?]. split; [done|lia]. }
  intros H. repeat case_match; simplify_eq.
  - apply Hup. by eapply IH.
  - constructor; [cbn; split; [done|lia]|]. apply Hup. by eapply IH.
Qed.

(** What the inner loop returns: a grown exclusion set, and clean plans of
    submissions outside it. *)
Lemma plan_all_from_spec cap pristine kept E out E' :
  plan_all_from cap pristine kept E = (out, E') →
  E ⊆ E' ∧ match out with
           | Clean ps => ps ≠ [] ∧ Forall (λ p, (pl_idx_in_kept p ∉ E') ∧ (pl_idx_in_kept p < length kept)%nat) ps
           | FatalDecode msg => ∃ m, msg = ("submission #" +:+ m)%string
           | _ => True
           end.
Proof.
  revert E. induction cap as [|cap IH]; intros E; cbn [plan_all_from]; [by intros [= <- <-]|].
  destruct (plan_walk 0 kept E pristine) as [ps|j|msg|msg] eqn:Hw.
  - pose proof (plan_walk_clean _ _ _ _ _ Hw) as Hps. destruct ps as [|p ps]; intros [= <- <-]; [done|].
    split; [done|]. split; [done|]. eapply Forall_impl; [exact Hps|]. cbn. naive_solver lia.
  - intros (? & ?)%IH. split; [set_solver|done].
  - intros [= <- <-]. split; [done|]. clear IH. revert Hw. generalize 0%nat. revert pristine.
    induction kept as [|d kept IHk]; intros s i; cbn [plan_walk]; [done|].
    intros H. repeat case_match; simplify_eq; eauto.
  - by intros [= <- <-].
Qed.

(** Enough iterations: one more than the submissions not yet excluded. *)
Lemma plan_all_from_enough cap k pristine kept E :
  (remaining (length kept) E < cap)%nat →
  plan_all_from (cap + k) pristine kept E = plan_all_from cap pristine kept E.
Proof.
  revert E. induction cap as [|cap IH]; intros E Hcap; [lia|]. cbn [plan_all_from Nat.add].
  destruct (plan_walk 0 kept E pristine) as [ps|j|msg|msg] eqn:Hw; try done.
  apply IH. apply plan_walk_failed in Hw as [Hj ?].
  pose proof (remaining_lt (length kept) E j ltac:(lia) Hj). lia.
Qed.

Lemma write_plans_failed plans d idx e d' :
  write_plans plans d = (Err (idx, e), d') → ∃ p, p ∈ plans ∧ pl_idx_in_kept p = idx.
Proof.
  revert d. induction plans as [|p plans IH]; intros d; cbn [write_plans]; [done|].
  destruct (apply_plan_result _ _ _ _ _) as [[i|e'] d1].
  - intros (q & Hq & <-)%IH. exists q. split; [by right|done].
  - intros [= <- <- <-]. exists p. split; [by left|done].
Qed.

Definition convergence_error : string :=
  "pristine-replay exceeded its iterations without convergence".

Lemma replay_from_enough cap k pristine kept E d :
  (remaining (length kept) E < cap)%nat →
  replay_from (cap + k) pristine kept E d = replay_from cap pristine kept E d ∧
  (replay_from cap pristine kept E d).1 ≠ Err (LoopErr convergence_error).
Proof.
  revert E d. induction cap as [|cap IH]; intros E d Hcap; [lia|]. cbn [replay_from Nat.add].
  unfold plan_all_with_inner_replay.
  destruct (plan_all_from _ pristine kept E) as [[ps| |msg|msg] E'] eqn:Hp; try done.
  - apply plan_all_from_spec in Hp as (HE & _ & Hps). unfold write_plans_in_subtx.
    destruct (write_plans ps d) as [[[]|[idx e]] d'] eqn:Hw; [done|].
    destruct (is_unique_violation e); [|done]. apply IH.
    apply write_plans_failed in Hw as (p & Hpin & <-). rewrite Forall_forall in Hps.
    destruct (Hps p Hpin) as [Hn Hlt].
    pose proof (remaining_lt _ _ _ Hlt Hn). pose proof (remaining_mono (length kept) _ _ HE). lia.
  - apply plan_all_from_spec in Hp as (_ & m & ->). split; [done|]. cbn. by intros [= ?].
Qed.

(** C35: The replay loops of a commit group converge.  The caps the code puts on
    them, one more than the number of submissions, are never what ends them:
    more iterations would change neither the planning pass nor the write loop,
    for any snapshot, any submissions and any database, and the loop never
    reports the failure to converge. *)
Theorem replay_loops_converge pristine kept d k :
  (∀ E, plan_all_from (S (length kept) + k) pristine kept E =
        plan_all_with_inner_replay pristine kept E) ∧
  replay_from (S (length kept) + k) pristine kept ∅ d = run_pristine_replay_loop pristine kept d ∧
  (run_pristine_replay_loop pristine kept d).1 ≠ Err (LoopErr convergence_error).
Proof.
  split.
  - intros E. apply plan_all_from_enough. pose proof (remaining_le (length kept) E). lia.
  - apply replay_from_enough. pose proof (remaining_le (length kept) ∅). lia.
Qed.
End group.
