(* ===== verification/V3Equiv.v ===== *)
(** The two paths agree: a commit group of Path B writes what the submissions of
    the group, made one after the other through Path A, would have written. *)
From S2P Require Import Prelude V3Plan V3Layered V3Wac V3Method V3Books V3Db V3Hydrate V3Refine.
From S2P Require Import V3Commit V3Safe V3Sim V3Direct V3Payload V3Group.

(** * Databases with the same books

    Equal tables, up to the provenance links of lines and the lock rows. *)
Definition unlink_row (r : LineRow) : LineRow :=
  {| tl_trx_id := tl_trx_id r; tl_pool_id := tl_pool_id r; tl_line_type := tl_line_type r;
     tl_source_id := tl_source_id r; tl_qty := tl_qty r; tl_unit_cost := tl_unit_cost r;
     tl_trx_seq := tl_trx_seq r; tl_source_trx_line_id := None |}.
Definition books_of (d : Db) : Db :=
  {| db_account := db_account d; db_pool := db_pool d; db_pool_state := db_pool_state d;
     db_pool_lock := ∅; db_trx := db_trx d; db_trx_line := unlink_row <$> db_trx_line d;
     db_posting_line := db_posting_line d; db_provisional := db_provisional d;
     db_trx_last := db_trx_last d; db_trx_line_last := db_trx_line_last d;
     db_posting_last := db_posting_last d; db_provisional_last := db_provisional_last d |}.
Definition same_books (x y : Db) : Prop := books_of x = books_of y.
#[global] Instance same_books_equiv : Equivalence same_books.
Proof. split; [by intros ?|by intros ??|by intros ??? H; unfold same_books in *; rewrite H]. Qed.

Lemma same_books_lock l d : same_books (set_pool_lock l d) d.
Proof. done. Qed.

(** A successful step on one side is matched on the other. *)
Definition follows {A} (f g : Tx A) (P : Db → Prop) : Prop :=
  ∀ x y a x', same_books x y → P y → f x = (Ok a, x') → ∃ y', g y = (Ok a, y') ∧ same_books x' y'.

Lemma follows_bind {A B} (f g : Tx A) (h k : A → Tx B) (P Q : Db → Prop) :
  follows f g P → (∀ a, follows (h a) (k a) Q) →
  (∀ y a y', P y → g y = (Ok a, y') → Q y') → follows (f ≫= h) (g ≫= k) P.
Proof.
  intros Hf Hh HQ x y b x' Hxy HP (a & x1 & H1 & H2)%SE_bind_Ok.
  destruct (Hf x y a x1 Hxy HP H1) as (y1 & Hy1 & Hs).
  destruct (Hh a x1 y1 b x' Hs (HQ _ _ _ HP Hy1) H2) as (y2 & Hy2 & Hs2).
  exists y2. split; [|done]. by rewrite (SE_bind_run _ _ _ _ _ Hy1).
Qed.
Lemma follows_ret {A} (a : A) P : follows (mret a) (mret a) P.
Proof. intros x y b x' Hxy _ [= <- <-]. by exists y. Qed.
(** Steps of the current tables that only see the books. *)
Lemma follows_books {A} (f : Tx A) P :
  (∀ x y, same_books x y → ∀ a x', f x = (Ok a, x') → ∃ y', f y = (Ok a, y') ∧ same_books x' y') →
  follows f f P.
Proof. intros H x y a x' Hxy _ Hf. by eapply H. Qed.

Lemma follows_iterM {X Y} (f : X → Tx unit) (g : Y → Tx unit) l l' (R : X → Y → Prop) (P : Db → Prop) :
  Forall2 R l l' → (∀ a b, R a b → b ∈ l' → follows (f a) (g b) P) →
  (∀ b y y', b ∈ l' → P y → g b y = (Ok tt, y') → P y') → follows (iterM f l) (iterM g l') P.
Proof.
  intros Hl Hf HP. induction Hl as [|a b l l' Hab Hl IH]; cbn; [apply follows_ret|].
  eapply follows_bind; [apply Hf; [done|by left]| |].
  - intros _. apply IH.
    + intros c d Hcd Hd. apply Hf; [done|by right].
    + intros c y y' Hc. apply HP. by right.
  - intros y [] y' Hy Hg. refine (HP b y y' _ Hy Hg). by left.
Qed.
Lemma follows_mapM {X Y B} (f : X → Tx B) (g : Y → Tx B) l l' (R : X → Y → Prop) :
  Forall2 R l l' → (∀ a b, R a b → follows (f a) (g b) (λ _, True)) →
  follows (mapM_tx f l) (mapM_tx g l') (λ _, True).
Proof.
  intros Hl Hf. induction Hl as [|a b l l' Hab Hl IH]; cbn; [apply follows_ret|].
  apply (follows_bind _ _ _ _ _ (λ _, True)); [by apply Hf| |done]. intros c.
  apply (follows_bind _ _ _ _ _ (λ _, True)); [exact IH| |done]. intros cs. apply follows_ret.
Qed.

(** * The bulk write sees the books only *)
Lemma same_books_fields x y :
  same_books x y →
  db_account x = db_account y ∧ db_pool x = db_pool y ∧ db_pool_state x = db_pool_state y ∧
  db_trx x = db_trx y ∧ unlink_row <$> db_trx_line x = unlink_row <$> db_trx_line y ∧
  db_posting_line x = db_posting_line y ∧ db_provisional x = db_provisional y ∧
  db_trx_last x = db_trx_last y ∧ db_trx_line_last x = db_trx_line_last y ∧
  db_posting_last x = db_posting_last y ∧ db_provisional_last x = db_provisional_last y.
Proof. intros H. injection H. naive_solver. Qed.
Lemma same_books_lines x y i :
  same_books x y → unlink_row <$> db_trx_line x !! i = unlink_row <$> db_trx_line y !! i.
Proof.
  intros (_ & _ & _ & _ & H & _)%same_books_fields. by rewrite <-!lookup_fmap, H.
Qed.
Lemma books_of_add_trx r d : books_of (add_trx r d) = add_trx r (books_of d).
Proof. done. Qed.
Lemma books_of_add_line r d : books_of (add_trx_line r d) = add_trx_line (unlink_row r) (books_of d).
Proof. unfold books_of, add_trx_line. cbn. by rewrite fmap_insert. Qed.

Lemma insert_trx_follows ty src t P : follows (insert_trx ty src t) (insert_trx ty src t) P.
Proof.
  apply follows_books. intros x y Hxy a x' H.
  destruct (same_books_fields _ _ Hxy) as (_ & _ & _ & Ht & _ & _ & _ & Hl & _).
  unfold insert_trx in *. inv_run. rewrite Ht in *. exists (add_trx {| trx_trx_type := ty;
    trx_source_id := src; trx_posted_at := t |} y). split.
  - unfold mbind, SE_bind, gets, id. cbv beta iota. rewrite ?Hcond, ?Hcond0. cbn. by rewrite Hl.
  - unfold same_books. rewrite !books_of_add_trx. by rewrite Hxy.
Qed.

Lemma line_keys_books x y (k : Z * Z) :
  same_books x y →
  map_Forall (λ _ r, (tl_pool_id r, tl_trx_seq r) ≠ k) (db_trx_line x) →
  map_Forall (λ _ r, (tl_pool_id r, tl_trx_seq r) ≠ k) (db_trx_line y).
Proof.
  intros Hxy H i r Hr. pose proof (same_books_lines _ _ i Hxy) as Hi. rewrite Hr in Hi.
  destruct (db_trx_line x !! i) as [r'|] eqn:Hr'; [|done]. cbn in Hi. injection Hi as ? Hp ? ? ? ? Hs.
  rewrite <-Hp, <-Hs. by eapply H.
Qed.

Lemma insert_line_follows r r' P :
  unlink_row r = unlink_row r' → follows (insert_trx_line_row r) (insert_trx_line_row r') P.
Proof.
  intros Hr x y a x' Hxy _ H.
  assert (same_books (add_trx_line r x) (add_trx_line r' y)) as Hsb
    by (unfold same_books; by rewrite !books_of_add_line, Hxy, Hr).
  unfold unlink_row in Hr. injection Hr as ? Hp ? ? ? ? Hs. unfold insert_trx_line_row in *. inv_run. apply bool_decide_eq_true in Hcond.
  destruct (same_books_fields _ _ Hxy) as (_ & _ & _ & _ & _ & _ & _ & _ & Hl & _).
  exists (add_trx_line r' y). split.
  - unfold mbind, SE_bind, gets, id. cbv beta iota. rewrite bool_decide_eq_true_2; last first.
    { rewrite <-Hp, <-Hs. by eapply line_keys_books. }
    cbn. by rewrite Hl, Hp, Hs.
  - exact Hsb.
Qed.

(** Links of the second side are valid where they point. *)
Definition link_valid (o : TrxLineOutput) (d : Db) : Prop :=
  ∀ i, out_source_trx_line_id o = Some i → is_Some (db_trx_line d !! i).

Lemma check_line_follows trx_id o o' :
  unlink o = unlink o' →
  follows (check_line_references (line_row trx_id o)) (check_line_references (line_row trx_id o')) (link_valid o').
Proof.
  intros Ho x y a x' Hxy Hv H. unfold unlink in Ho. injection Ho as Hp ? ? ? ? ?.
  unfold check_line_references in *. inv_run.
  destruct (same_books_fields _ _ Hxy) as (_ & Hpool & _). exists y. split; [|done].
  unfold mbind, SE_bind, gets, id. cbn [tl_pool_id line_row tl_source_trx_line_id] in *.
  rewrite <-Hpool, <-Hp, ?Hcond. destruct (out_source_trx_line_id o') as [l|] eqn:El; [|done].
  by rewrite bool_decide_eq_true_2 by (by apply Hv).
Qed.

Lemma follows_weaken {A} (f g : Tx A) (P Q : Db → Prop) :
  follows f g Q → (∀ y, P y → Q y) → follows f g P.
Proof. intros H HP x y a x' Hxy Hy. apply H; auto. Qed.

Definition links_valid (outs : list TrxLineOutput) (d : Db) : Prop := Forall (λ o, link_valid o d) outs.
Lemma links_valid_grow outs d d' : counters_le d d' → links_valid outs d → links_valid outs d'.
Proof.
  intros Hc H. eapply Forall_impl; [exact H|]. intros o Ho i Hi. destruct Hc.
  specialize (Ho i Hi). rewrite <-elem_of_dom in *. set_solver.
Qed.

Lemma insert_trx_lines_follows trx_id outs outs' :
  Forall2 (λ o o', unlink o = unlink o') outs outs' →
  follows (insert_trx_lines trx_id outs) (insert_trx_lines trx_id outs') (links_valid outs').
Proof.
  intros Ho. destruct Ho as [|o o' outs outs' Hoo Hos]; [apply follows_ret|].
  unfold insert_trx_lines. set (ls := o :: outs). set (ls' := o' :: outs').
  assert (Forall2 (λ o o', unlink o = unlink o') ls ls') as Ho by (by constructor).
  clearbody ls ls'. clear Hoo Hos o o' outs outs'.
  eapply (follows_bind _ _ _ _ _ (links_valid ls')).
  - apply (follows_weaken _ _ _ (λ _, True)); [|done]. eapply follows_mapM; [exact Ho|]. intros a b Hab.
    apply insert_line_follows. unfold unlink in Hab. unfold unlink_row, line_row. cbn.
    injection Hab as -> -> -> -> -> ->. done.
  - intros returned. eapply (follows_bind _ _ _ _ _ (λ _, True)); [|intros _|done].
    + eapply follows_iterM; [exact Ho| |].
      * intros a b Hab Hb. eapply follows_weaken; [by apply check_line_follows|].
        intros y Hy. unfold links_valid in Hy. rewrite Forall_forall in Hy. by apply Hy.
      * intros b y y' _ Hy H. unfold check_line_references in H. inv_run. done.
    + cbv zeta. eapply follows_mapM; [exact Ho|]. intros a b Hab. unfold unlink in Hab.
      injection Hab as -> -> _ _ _ _. case_match; [apply follows_ret|]. by intros x y c x' _ _ [=].
  - intros y a y' Hy H. eapply links_valid_grow; [|exact Hy].
    eapply (advances_mapM _ _ _ _ _ _ H).
    Unshelve. intros b. unfold insert_trx_line_row. solve_advances.
Qed.

Lemma apply_states_follows ms ids P :
  follows (apply_pool_state_mutations ms ids) (apply_pool_state_mutations ms ids) P.
Proof.
  apply follows_books. intros x y Hxy a x' H.
  destruct (same_books_fields _ _ Hxy) as (_ & _ & Hs & _).
  unfold apply_pool_state_mutations in *. unfold mbind, SE_bind, gets, lift, modify, id in *.
  destruct (ok_or _ _) as [b|]; [|done]. rewrite <-Hs.
  destruct (run_batches b (db_pool_state x)) as [m|]; [|done]. injection H as <- <-.
  eexists. split; [done|]. unfold same_books, books_of, set_pool_state in *. cbn. by injection Hxy as -> -> ? -> -> -> -> -> -> -> ->.
Qed.

Lemma insert_posting_row_follows r P : follows (insert_posting_row r) (insert_posting_row r) P.
Proof.
  apply follows_books. intros x y Hxy a x' H.
  destruct (same_books_fields _ _ Hxy) as (Ha & _ & _ & _ & _ & _ & _ & _ & _ & Hl & _).
  unfold insert_posting_row in *. unfold mbind, SE_bind, gets, modify, id in *. cbv beta iota in *.
  rewrite <-Ha. destruct (bool_decide _); [|done]. destruct (bool_decide _); [|done].
  injection H as <- <-. eexists. split; [by cbn; rewrite <-Hl|].
  unfold same_books, books_of, add_posting in *. cbn. by injection Hxy as -> -> -> -> -> -> -> -> -> -> ->.
Qed.

Lemma index_or_panic_follows {A} (l : list A) i P : follows (index_or_panic l i) (index_or_panic l i) P.
Proof. unfold index_or_panic. destruct (l !! i); [apply follows_ret|]. by intros ??????. Qed.

Lemma Forall2_eq_refl {A} (l : list A) : Forall2 eq l l.
Proof. by induction l; constructor. Qed.

Lemma insert_postings_follows reqs ids :
  follows (insert_posting_lines reqs ids) (insert_posting_lines reqs ids) (λ _, True).
Proof.
  unfold insert_posting_lines. apply (follows_bind _ _ _ _ _ (λ _, True)); [| |done].
  - eapply follows_mapM; [apply Forall2_eq_refl|]. intros r ? <-.
    apply (follows_bind _ _ _ _ _ (λ _, True)); [apply index_or_panic_follows| |done].
    intros. apply follows_ret.
  - intros rows. eapply follows_mapM; [apply Forall2_eq_refl|]. intros r ? <-. apply insert_posting_row_follows.
Qed.

Lemma insert_provisionals_follows pvs ids :
  follows (insert_provisional_postings pvs ids) (insert_provisional_postings pvs ids) (λ _, True).
Proof.
  unfold insert_provisional_postings. apply (follows_bind _ _ _ _ _ (λ _, True)); [| |done].
  - eapply follows_mapM; [apply Forall2_eq_refl|]. intros r ? <-.
    apply (follows_bind _ _ _ _ _ (λ _, True)); [apply index_or_panic_follows| |done].
    intros. apply follows_ret.
  - intros rows. eapply follows_iterM; [apply Forall2_eq_refl| |done]. intros r ? <- _.
    apply follows_books. intros x y Hxy a x' H.
    destruct (same_books_fields _ _ Hxy) as (_ & _ & _ & _ & _ & _ & Hp & _).
    unfold mbind, SE_bind, gets, modify, id in *. cbv beta iota in *. rewrite <-Hp.
    destruct (bool_decide _); [|done]. injection H as <- <-. eexists. split; [done|].
    unfold same_books, books_of, add_provisional in *. cbn.
    by injection Hxy as -> -> -> -> -> -> -> -> -> -> ->.
Qed.

(** Two plans with the same content, written to databases with the same books. *)
Lemma apply_plan_result_follows ty src t r r' :
  same_plan r r' →
  follows (apply_plan_result ty src t r) (apply_plan_result ty src t r') (links_valid (trx_lines r')).
Proof.
  intros [Hl Hm Hp Hv]. unfold apply_plan_result. rewrite Hm, Hp, Hv.
  eapply (follows_bind _ _ _ _ _ (links_valid (trx_lines r'))); [apply insert_trx_follows| |].
  - intros trx_id. apply (follows_bind _ _ _ _ _ (λ _, True)); [| |done].
    { apply insert_trx_lines_follows. apply (Forall2_fmap unlink unlink eq).
      change (unlink <$> ?l) with (map unlink l). rewrite Hl. apply Forall2_eq_refl. }
    intros ids. apply (follows_bind _ _ _ _ _ (λ _, True)); [apply apply_states_follows| |done].
    intros _. apply (follows_bind _ _ _ _ _ (λ _, True)); [apply insert_postings_follows| |done].
    intros pids. apply (follows_bind _ _ _ _ _ (λ _, True)); [apply insert_provisionals_follows| |done].
    intros _. apply follows_ret.
  - intros y a y' Hy H. eapply links_valid_grow; [|exact Hy].
    assert (advances (insert_trx ty src t)) as Ha by (unfold insert_trx; solve_advances).
    by eapply Ha.
Qed.

(** * A snapshot that tracks a database *)
Definition tracks (ids : list Z) (s : Snapshot) (d : Db) : Prop :=
  ∀ p, p ∈ ids → same_pool (db_method d) (hydrate_snapshot d ids) s p.

Lemma same_pool_trans meth s1 s2 s3 p :
  same_pool meth s1 s2 p → same_pool meth s2 s3 p → same_pool meth s1 s3 p.
Proof.
  intros [[A1 A2] A3 A4 A5] [[B1 B2] B3 B4 B5]. split; [done|congruence|..].
  - intros m Hm Hl. by rewrite (A4 m), (B4 m).
  - intros m Hm Hl. by rewrite (A5 m), (B5 m).
Qed.

Lemma find_layer_head x rows : Forall (seq_lt x) rows → find_layer (layer_seq x) rows = None.
Proof.
  intros H. apply find_layer_notin. eapply Forall_impl; [exact H|]. unfold seq_lt. intros. lia.
Qed.

(** Strictly ordered layers are determined by what is found at each number. *)
Lemma sorted_core_unique a b :
  StronglySorted seq_lt a → StronglySorted seq_lt b →
  (∀ l, row_value <$> find_layer l a = row_value <$> find_layer l b) →
  map row_core a = map row_core b.
Proof.
  intros Ha. revert b. induction Ha as [|x a Ha IH Hx]; intros [|y b] Hb H; [done|..].
  - specialize (H (layer_seq y)). rewrite find_layer_cons, Z.eqb_refl in H. done.
  - specialize (H (layer_seq x)). rewrite find_layer_cons, Z.eqb_refl in H. done.
  - inversion_clear Hb as [|?? Hb' Hy].
    assert (layer_seq x = layer_seq y) as Hxy.
    { destruct (Z.lt_trichotomy (layer_seq x) (layer_seq y)) as [Hlt|[Heq|Hgt]]; [|done|].
      - specialize (H (layer_seq x)). rewrite !find_layer_cons, Z.eqb_refl in H.
        rewrite (proj2 (Z.eqb_neq _ _)) in H by lia. rewrite find_layer_notin in H; [done|].
        eapply Forall_impl; [exact Hy|]. unfold seq_lt. intros. lia.
      - specialize (H (layer_seq y)). rewrite !find_layer_cons, Z.eqb_refl in H.
        rewrite (proj2 (Z.eqb_neq _ _)) in H by lia. rewrite find_layer_notin in H; [done|].
        eapply Forall_impl; [exact Hx|]. unfold seq_lt. intros. lia. }
    pose proof (H (layer_seq x)) as H0. rewrite !find_layer_cons, <-Hxy, Z.eqb_refl in H0.
    cbn in H0. injection H0 as Hq Hu. cbn. f_equal; [unfold row_core; congruence|].
    apply IH; [done|]. intros l. specialize (H l). rewrite !find_layer_cons, <-Hxy in H.
    destruct (layer_seq x =? l) eqn:E; [|done]. apply Z.eqb_eq in E. subst l.
    rewrite find_layer_head by done. rewrite Hxy, find_layer_head by done. done.
Qed.

(** What hydration reads of a pool is determined by the table and the counter. *)
Lemma hydrate_agrees d ids u p :
  db_wf d → p ∈ ids → method_of u !! p = db_method d p → max_seq u p = max_trx_seq d p →
  (∀ m, db_method d p = Some m → layered m → layers_wf (rows_of u p) (max_seq u p)) →
  (is_Some (db_method d p) → ∀ l, state_val <$> db_pool_state d !! (p, l) = row_value <$> find_layer l (live_rows u p)) →
  same_pool (db_method d) (hydrate_snapshot d ids) u p.
Proof.
  intros Hwf Hp Hm Hseq Hlw Hval.
  assert (method_of (hydrate_snapshot d ids) !! p = db_method d p) as Hmh by (by rewrite hydrate_method, decide_True).
  split; [done|by rewrite hydrate_max_seq, decide_True|..].
  - intros m Hd Hl. apply sorted_core_unique.
    + eapply (hydrate_wf d ids Hwf p m); [by rewrite Hmh|done].
    + by eapply Hlw.
    + intros l. specialize (Hval ltac:(by rewrite Hd) l).
      rewrite (live_rows_layered u p m) in Hval by (congruence || done).
      rewrite filter_live_all in Hval by (by eapply Hlw). rewrite <-Hval.
      rewrite hydrate_rows, decide_True, find_pool_rows by done. by destruct (db_pool_state d !! (p, l)).
  - intros m Hd Hav. rewrite !read_layer0_find.
    specialize (Hval ltac:(by rewrite Hd) 0). rewrite (live_rows_averaged u p m) in Hval by (congruence || done).
    rewrite hydrate_rows, decide_True by done. change (List.find is_layer0 ?l) with (find_layer 0 l).
    rewrite find_pool_rows.
    destruct (db_pool_state d !! (p, 0)), (find_layer 0 (rows_of u p)); cbn in *; try done.
    by injection Hval as -> ->.
Qed.

Lemma same_pool_ext meth meth' s s' p :
  (∀ q, meth q = meth' q) → same_pool meth s s' p → same_pool meth' s s' p.
Proof. intros H [[] ? ? ?]. split; by rewrite <-?H. Qed.

Lemma hydrate_part d ids part p :
  p ∈ ids → p ∈ part → same_pool (db_method d) (hydrate_snapshot d part) (hydrate_snapshot d ids) p.
Proof.
  intros Hi Hp. split.
  - by rewrite !hydrate_method, !decide_True.
  - by rewrite !hydrate_max_seq, !decide_True.
  - intros m _ _. by rewrite !hydrate_rows, !decide_True.
  - intros m _ _. by rewrite !read_layer0_find, !hydrate_rows, !decide_True.
Qed.

(** The snapshot threaded through a group keeps tracking the database of the
    one-by-one run. *)
Lemma tracks_submitted d ids lines t rA sA rB s s' trx d' :
  let part := sorted_dedup (map req_pool_id lines) in
  db_wf d → tracks ids s d → (∀ p, p ∈ part → p ∈ ids) →
  plan_apply (hydrate_snapshot d part) lines t = (Ok rA, sA) →
  plan_apply s lines t = (Ok rB, s') → (∀ p, p ∈ part → same_pool (db_method d) sA s' p) →
  submitted d part sA trx d' → tracks ids s' d'.
Proof.
  intros part Hwf Htr Hsub HpA HpB Hsame [Hwf' Hsh Hmax Hoth [Hswf Hmeth] [Hpool _] _] p Hp.
  assert (∀ q, db_method d q = db_method d' q) as Hdm by (intros q; unfold db_method; by rewrite Hpool).
  destruct (decide (p ∈ part)) as [Hin|Hin].
  - eapply same_pool_trans; [|eapply same_pool_ext; [exact Hdm|by apply Hsame]].
    assert (method_of sA !! p = db_method d' p) as Hm
      by (by rewrite Hmeth, hydrate_method, decide_True, Hdm).
    apply hydrate_agrees; [done|done|done|by rewrite Hmax, decide_True|..].
    + intros m Hd Hl. apply (Hswf p m); [by rewrite Hm|done].
    + intros Hd l. rewrite <-lookup_fmap. apply Hsh. by rewrite Hm.
  - destruct (plan_frame _ _ _ _ _ p HpB) as (F1 & F2 & F3).
    { intros Hx. apply Hin. by apply elem_of_sorted_dedup. }
    apply (same_pool_trans _ _ (hydrate_snapshot d ids)).
    + apply hydrate_agrees; [done|done|..].
      * by rewrite hydrate_method, decide_True.
      * by rewrite hydrate_max_seq, decide_True, Hmax, decide_False.
      * intros m Hd Hl. apply (hydrate_wf d ids Hwf p m); [|done].
        by rewrite hydrate_method, decide_True, Hdm.
      * intros Hd l. rewrite Hoth by done. rewrite <-lookup_fmap. apply hydrate_shows; [done|].
        by rewrite hydrate_method, decide_True, Hdm.
    + eapply same_pool_ext; [exact Hdm|]. destruct (Htr p Hp) as [[A1 A2] A3 A4 A5]. split.
      * by rewrite F1.
      * by rewrite F3.
      * intros m Hd Hl. rewrite F2. by eapply A4.
      * intros m Hd Hl. rewrite (A5 m Hd Hl), !read_layer0_find. by rewrite F2.
Qed.

(** * Groups *)
Section group.
Context (from_timestamp_micros : Z → option Timestamp).
Abbreviation micros m := (from_timestamp_micros (sub_posted_at_micros (dc_submission m))).

Definition document (m : Decoded) : string * Z :=
  (sub_trx_type (dc_submission m), sub_source_id (dc_submission m)).

(** A submission that decodes, of a new document, known pools and accounts. *)
Definition member_valid (d : Db) (m : Decoded) : Prop :=
  ∃ t lines, micros m = Some t ∧ decode_lines (dc_lines m) = Ok lines ∧
    submission_valid (document m).1 (document m).2 lines d.
Definition group_valid (d : Db) (kept : list Decoded) : Prop :=
  Forall (member_valid d) kept ∧ NoDup (map document kept).

(** The same submissions through Path A, one transaction each. *)
Definition submit_decoded (m : Decoded) : Tx Z :=
  match micros m, decode_lines (dc_lines m) with
  | Some t, Ok lines => submit_lines (document m).1 (document m).2 t lines
  | _, _ => throw (SqlRaised "22023" "undecodable submission")
  end.
Fixpoint submit_each (kept : list Decoded) (d : Db) : nat * Db :=
  match kept with
  | [] => (0%nat, d)
  | m :: kept =>
      match in_transaction (submit_decoded m) d with
      | (Ok _, d') => let '(n, d'') := submit_each kept d' in (S n, d'')
      | (Err _, d') => submit_each kept d'
      end
  end.

(** The plans of a group, submission by submission: one that fails to plan is
    passed over. *)
Fixpoint greedy (i : nat) (kept : list Decoded) (excluded : gset nat) (s : Snapshot)
    : list PlannedSubmission :=
  match kept with
  | [] => []
  | m :: kept =>
      if decide (i ∈ excluded) then greedy (S i) kept excluded s else
      match micros m, decode_lines (dc_lines m) with
      | Some t, Ok lines =>
          match plan_apply s lines t with
          | (Ok plan, s') =>
              {| pl_idx_in_kept := i; pl_trx_type := (document m).1; pl_source_id := (document m).2;
                 pl_posted_at := t; pl_plan := plan |} :: greedy (S i) kept excluded s'
          | (Err _, _) => greedy (S i) kept excluded s
          end
      | _, _ => []
      end
  end.

Definition decodable (m : Decoded) : Prop :=
  is_Some (micros m) ∧ ∃ lines, decode_lines (dc_lines m) = Ok lines.

Lemma greedy_irrelevant i j kept E s :
  (j < i)%nat → greedy i kept ({[j]} ∪ E) s = greedy i kept E s.
Proof.
  revert i s. induction kept as [|m kept IH]; intros i s Hj; [done|]. cbn [greedy].
  assert (i ∈ {[j]} ∪ E ↔ i ∈ E) as Hiff by (rewrite elem_of_union, elem_of_singleton; naive_solver lia).
  destruct (decide (i ∈ E)) as [Hi|Hi].
  - rewrite decide_True by tauto. apply IH. lia.
  - rewrite decide_False by tauto. repeat case_match; try done; try apply IH; try lia.
    rewrite IH by lia. done.
Qed.

Lemma walk_failed_greedy i kept E s j :
  plan_walk from_timestamp_micros i kept E s = PassFailed j →
  greedy i kept ({[j]} ∪ E) s = greedy i kept E s.
Proof.
  revert i s. induction kept as [|m kept IH]; intros i s; [done|]. intros H.
  pose proof (plan_walk_failed _ _ _ _ _ _ H) as [_ Hj]. cbn [plan_walk] in H. cbn [greedy].
  destruct (decide (i ∈ E)) as [Hi|Hi].
  { rewrite decide_True by set_solver. by apply IH. }
  destruct (micros m) as [t|]; [|done]. destruct (decode_lines (dc_lines m)) as [lines|]; [|done].
  destruct (plan_apply s lines t) as [[plan|[e|msg]] s'] eqn:Hp; [| |done].
  - destruct (plan_walk _ (S i) kept E s') as [ps|k|msg|msg] eqn:Hw; try done. injection H as ->.
    pose proof (plan_walk_failed _ _ _ _ _ _ Hw) as [_ Hk].
    rewrite decide_False by (rewrite elem_of_union, elem_of_singleton; intros [->|?]; [lia|done]).
    f_equal. by apply IH.
  - injection H as <-. rewrite decide_True by set_solver. by apply greedy_irrelevant, Nat.lt_succ_diag_r.
Qed.

Lemma walk_clean_greedy i kept E s ps :
  plan_walk from_timestamp_micros i kept E s = PassClean ps → ps = greedy i kept E s.
Proof.
  revert i s ps. induction kept as [|m kept IH]; intros i s ps; cbn [plan_walk greedy]; [by intros [= <-]|].
  intros H. repeat case_match; simplify_eq; try by apply IH. f_equal. by apply IH.
Qed.

Lemma walk_decodable i kept E s :
  Forall decodable kept →
  match plan_walk from_timestamp_micros i kept E s with PassClean _ | PassFailed _ => True | _ => False end.
Proof.
  intros Hd. revert i s. induction Hd as [|m kept [[t Ht] [lines Hl]] Hd IH]; intros i s; [done|].
  cbn [plan_walk]. case_decide; [apply IH|]. rewrite Ht, Hl.
  pose proof (plan_apply_returns s lines t) as Hr.
  destruct (plan_apply s lines t) as [[plan|[e|msg]] s']; [|done|done].
  specialize (IH (S i) s'). by destruct (plan_walk _ _ _ _ _).
Qed.

(** The inner loop arrives at the greedy plans. *)
Lemma plan_all_greedy cap kept E s :
  Forall decodable kept → (remaining (length kept) E < cap)%nat →
  (plan_all_from from_timestamp_micros cap s kept E).1 =
    match greedy 0 kept E s with [] => AllExcluded | ps => Clean ps end.
Proof.
  intros Hd. revert E. induction cap as [|cap IH]; intros E Hcap; [lia|]. cbn [plan_all_from].
  pose proof (walk_decodable 0 kept E s Hd) as Hw.
  destruct (plan_walk _ 0 kept E s) as [ps|j|msg|msg] eqn:Hp; try done.
  - apply walk_clean_greedy in Hp as <-. by destruct ps.
  - rewrite IH.
    + by rewrite (walk_failed_greedy _ _ _ _ _ Hp).
    + apply plan_walk_failed in Hp as [Hj ?].
      pose proof (remaining_lt (length kept) E j ltac:(lia) Hj). lia.
Qed.

Lemma payload_lines_pools ls lines :
  decode_lines ls = Ok lines → map req_pool_id lines = map ln_pool_id ls.
Proof.
  revert lines. induction ls as [|l ls IH]; intros lines; cbn; [by intros [= <-]|].
  destruct (decode_line_type _) as [lt|]; [|done]. intros H. inv_run. cbn. f_equal. by apply IH.
Qed.

Lemma group_valid_next d part s trx d' m kept :
  group_valid d (m :: kept) → submitted d part s trx d' →
  (trx_trx_type trx, trx_source_id trx) = document m → group_valid d' kept.
Proof.
  intros [Hv Hnd] [_ _ _ _ _ [Hpool Hacc] Htrx] Hdoc. cbn in Hnd. apply NoDup_cons in Hnd as [Hn Hnd].
  split; [|done]. inversion_clear Hv as [|?? _ Hks]. apply Forall_forall. intros k Hk.
  rewrite Forall_forall in Hks. destruct (Hks k Hk) as (t & lines & H1 & H2 & Hty & Hfresh & Hp & Ha).
  exists t, lines. split_and!; [done|done|]. split_and!; [done| |by rewrite Hpool|by rewrite Hacc].
  unfold document_fresh. rewrite Htrx. apply map_Forall_insert_2; [|done].
  rewrite Hdoc. destruct (document k) as [a b] eqn:E. cbn. intros Heq. apply Hn. rewrite Heq, <-E.
  by apply list_elem_of_fmap_2.
Qed.

(** One submission, on both paths. *)
Lemma member_step ids m kept s dA dB t lines :
  db_wf dA → tracks ids s dA → same_books dA dB →
  rows_linked (λ l, is_Some (db_trx_line dB !! l)) s → group_valid dA (m :: kept) →
  micros m = Some t → decode_lines (dc_lines m) = Ok lines → (∀ l, l ∈ lines → req_pool_id l ∈ ids) →
  match plan_apply s lines t with
  | (Ok plan, s') => ∃ n dA' dB', in_transaction (submit_decoded m) dA = (Ok n, dA') ∧
      apply_plan_result (document m).1 (document m).2 t plan dB = (Ok n, dB') ∧
      db_wf dA' ∧ tracks ids s' dA' ∧ same_books dA' dB' ∧
      rows_linked (λ l, is_Some (db_trx_line dB' !! l)) s' ∧ group_valid dA' kept
  | (Err _, _) => ∃ e, in_transaction (submit_decoded m) dA = (Err e, dA)
  end.
Proof.
  intros Hwf Htr Hsb Hlink Hgv Ht Hl Hids. pose proof Hgv as [Hv _].
  apply Forall_cons in Hv as [(t' & lines' & Ht' & Hl' & Hval) _].
  rewrite Ht in Ht'. rewrite Hl in Hl'. injection Ht' as <-. injection Hl' as <-.
  set (part := sorted_dedup (map req_pool_id lines)).
  assert (∀ p, p ∈ part → p ∈ ids) as Hpart by (intros p Hp; apply touched_elem in Hp as (l1 & Hin & <-); by apply Hids).
  assert (lines_within (λ p, p ∈ part) lines) as Hwithin
    by (apply Forall_forall; intros l0 Hin; apply touched_elem; eauto).
  assert (∀ p, p ∈ part → same_pool (db_method dA) (hydrate_snapshot dA part) s p) as Hagree.
  { intros p Hp. eapply same_pool_trans; [by apply (hydrate_part dA ids part p); [apply Hpart|]|].
    by apply Htr, Hpart. }
  pose proof (plan_apply_alike _ _ _ _ lines t Hwithin Hagree) as Hal.
  pose proof (submit_lines_run (document m).1 (document m).2 t lines dA Hwf Hval) as Hrun. cbv zeta in Hrun. fold part in Hrun.
  destruct (submit_lines_cases (document m).1 (document m).2 t lines dA) as [lk Hcases].
  { intros l1 Hin. destruct Hval as (_ & _ & Hp & _). rewrite Forall_forall in Hp. by apply Hp. }
  cbv zeta in Hcases. fold part in Hcases.
  pose proof (plan_apply_returns s lines t) as HrB.
  assert (submit_decoded m = submit_lines (document m).1 (document m).2 t lines) as Hsd
    by (unfold submit_decoded; by rewrite Ht, Hl).
  rewrite Hsd. clear Hsd.
  destruct (plan_apply (hydrate_snapshot dA part) lines t) as [[rA|[eA|]] sA] eqn:HA; [| |done];
    destruct (plan_apply s lines t) as [[rB|[eB|]] sB] eqn:HB; try done.
  - destruct Hal as [Hplan Hsame].
    destruct Hrun as (dA' & Hin & Hsub). unfold in_transaction in Hin. rewrite Hcases in Hin.
    destruct (apply_plan_result _ _ _ rA _) as [[n|e] x] eqn:Hw; [|done]. injection Hin as -> ->.
    pose proof (plan_booked (λ _, True) (λ l, is_Some (db_trx_line dB !! l)) s lines t rB sB HB) as Hbk.
    destruct Hbk as [_ _ _ _ Hlinks _ Hrows]; [by apply Forall_true|done|].
    destruct (apply_plan_result_follows (document m).1 (document m).2 t rA rB Hplan
                (set_pool_lock lk dA) dB (db_trx_last dA + 1) dA') as (dB' & HwB & HsbB); [done|done|done|].
    exists (db_trx_last dA + 1), dA', dB'. unfold in_transaction. rewrite Hcases.
    split_and!; [done|done|by apply Hsub|by eapply tracks_submitted|done| |].
    + intros p. eapply Forall_impl; [apply Hrows|]. intros row Hrow Hpos. specialize (Hrow Hpos).
      apply apply_plan_result_advances in HwB as []. rewrite <-elem_of_dom in *. set_solver.
    + eapply group_valid_next; [exact Hgv|exact Hsub|]. by destruct (document m).
  - eauto.
Qed.

Definition pools_within (ids : list Z) (m : Decoded) : Prop :=
  ∀ l, l ∈ dc_lines m → ln_pool_id l ∈ ids.

(** The plans of a group can be written one after the other, and they write what
    the one-by-one run writes. *)
Lemma write_greedy ids kept i s dA dB :
  db_wf dA → tracks ids s dA → same_books dA dB →
  rows_linked (λ l, is_Some (db_trx_line dB !! l)) s → group_valid dA kept →
  Forall (pools_within ids) kept →
  ∃ dB', write_plans (greedy i kept ∅ s) dB = (Ok tt, dB') ∧
    (submit_each kept dA).1 = length (greedy i kept ∅ s) ∧
    same_books (submit_each kept dA).2 dB'.
Proof.
  revert i s dA dB. induction kept as [|m kept IH]; intros i s dA dB Hwf Htr Hsb Hlink Hgv Hin.
  { by exists dB. }
  inversion_clear Hin as [|?? Hm Hks]. cbn [greedy submit_each].
  rewrite decide_False by set_solver. pose proof Hgv as [Hv Hnd].
  apply Forall_cons in Hv as [(t & lines & Ht & Hl & Hval) Hv]. rewrite Ht, Hl.
  assert (∀ l, l ∈ lines → req_pool_id l ∈ ids) as Hids.
  { intros l Hin. assert (req_pool_id l ∈ map ln_pool_id (dc_lines m)) as Hp.
    { rewrite <-(payload_lines_pools _ _ Hl). by apply list_elem_of_fmap_2. }
    apply list_elem_of_fmap in Hp as (pl & -> & Hpl). by apply Hm. }
  pose proof (member_step ids m kept s dA dB t lines Hwf Htr Hsb Hlink Hgv Ht Hl Hids) as Hstep.
  destruct (plan_apply s lines t) as [[plan|e] s'].
  - destruct Hstep as (n & dA' & dB' & HA & HB & Hwf' & Htr' & Hsb' & Hlink' & Hgv'). rewrite HA.
    destruct (IH (S i) s' dA' dB') as (dB'' & Hw & Hn & Hs); [done..|].
    exists dB''. cbn [write_plans pl_trx_type pl_source_id pl_posted_at pl_plan]. rewrite HB.
    destruct (submit_each kept dA') as [k x]. cbn in *. split_and!; [done|lia|done].
  - destruct Hstep as [e' HA]. rewrite HA. apply IH; try done.
    by cbn in Hnd; apply NoDup_cons in Hnd as [_ Hnd].
Qed.

Lemma tracks_hydrate d ids : tracks ids (hydrate_snapshot d ids) d.
Proof. intros p Hp. by apply hydrate_part. Qed.

Lemma group_valid_lock l d kept : group_valid d kept → group_valid (set_pool_lock l d) kept.
Proof. done. Qed.

Lemma replay_loop_run ids kept dA dB :
  db_wf dA → db_wf dB → same_books dA dB → group_valid dA kept → Forall (pools_within ids) kept →
  tracks ids (hydrate_snapshot dB ids) dA →
  ∃ dB', run_pristine_replay_loop from_timestamp_micros (hydrate_snapshot dB ids) kept dB =
           (Ok (submit_each kept dA).1, dB') ∧ same_books (submit_each kept dA).2 dB'.
Proof.
  intros Hwf HwfB Hsb Hgv Hin Htr. set (s := hydrate_snapshot dB ids) in *.
  destruct (write_greedy ids kept 0 s dA dB) as (dB' & Hw & Hn & Hs); [done..| |done|done|].
  { by apply hydrate_linked. }
  exists dB'. split; [|done]. unfold run_pristine_replay_loop. cbn [replay_from].
  unfold plan_all_with_inner_replay.
  assert (Forall decodable kept) as Hdec.
  { destruct Hgv as [Hv _]. eapply Forall_impl; [exact Hv|].
    intros m (t & lines & Ht & Hl & _). split; [by rewrite Ht|eauto]. }
  pose proof (plan_all_greedy (S (length kept)) kept ∅ s Hdec) as Hp.
  specialize (Hp ltac:(pose proof (remaining_le (length kept) ∅); lia)).
  destruct (plan_all_from _ _ _ _ _) as [out E]. cbn [fst] in Hp. subst out. rewrite Hn.
  destruct (greedy 0 kept ∅ s) as [|p ps] eqn:Eg.
  - cbn in Hw. injection Hw as <-. done.
  - unfold write_plans_in_subtx. by rewrite Hw.
Qed.

(** C4: The two paths agree.  Take a well-formed database and a commit group of
    decodable submissions of distinct, new documents over known pools and
    accounts.  Planning the whole group against one snapshot, restarting without
    a submission that fails, and writing the surviving plans under one savepoint
    commits as many submissions as submitting them one after the other through
    Path A, and leaves the same books: the same transactions under the same
    identifiers, the same lines and postings, the same pool_state rows, the same
    sequences.  Only lock rows and the provenance links of lines may differ. *)
Theorem paths_agree d kept :
  db_wf d → group_valid d kept →
  ∃ dB, group_transaction from_timestamp_micros kept d = (Ok (submit_each kept d).1, dB) ∧
        same_books (submit_each kept d).2 dB.
Proof.
  intros Hwf Hgv. set (ids := pool_union kept).
  assert (Forall (pools_within ids) kept) as Hin.
  { apply Forall_forall. intros m Hm l Hl. apply elem_of_sorted_dedup.
    apply list_elem_of_In, in_concat. exists (map ln_pool_id (dc_lines m)).
    split; apply list_elem_of_In; [by apply (list_elem_of_fmap_2 (λ d, map ln_pool_id (dc_lines d)))|].
    by apply list_elem_of_fmap_2. }
  destruct (acquire_pool_locks_run ids d) as [lk Hlk].
  { intros p Hp. apply elem_of_sorted_dedup, list_elem_of_In, in_concat in Hp as (ps & Hps & Hp).
    apply list_elem_of_In, list_elem_of_fmap in Hps as (m & -> & Hm).
    destruct Hgv as [Hv _]. rewrite Forall_forall in Hv.
    destruct (Hv m Hm) as (t & lines & _ & Hl & _ & _ & Hpools & _).
    rewrite <-(payload_lines_pools _ _ Hl) in Hp. apply list_elem_of_In, list_elem_of_fmap in Hp as (l & -> & Hin').
    rewrite Forall_forall in Hpools. by apply Hpools. }
  destruct (replay_loop_run ids kept d (set_pool_lock lk d)) as (dB & Hrun & Hs);
    [done|by apply db_wf_lock|done|done|done|exact (tracks_hydrate d ids)|].
  exists dB. split; [|done]. unfold group_transaction, commit_kept. fold ids. rewrite Hlk. by rewrite Hrun.
Qed.
End group.
