(* ===== verification/V3Scenario.v ===== *)
(** A small database of the two-path ledger: the theorems at concrete inputs, and
    a commit group with a repeated document on which the two paths part. *)
From S2P Require Import Prelude V3Plan V3Layered V3Wac V3Method V3Books V3Db V3Hydrate V3Refine.
From S2P Require Import V3Commit V3Safe V3Sim V3Direct V3Payload V3Group V3Equiv.

(** Accounts 1 and 2; a FIFO pool 1 and a moving-average pool 2; no stock. *)
Definition db0 : Db :=
  {| db_account := {[1; 2]}; db_pool := <[1 := "fifo"%string]> (<[2 := "wac"%string]> ∅);
     db_pool_state := ∅; db_pool_lock := ∅; db_trx := ∅; db_trx_line := ∅; db_posting_line := ∅;
     db_provisional := ∅; db_trx_last := 0; db_trx_line_last := 0; db_posting_last := 0;
     db_provisional_last := 0 |}.

Definition sample_line (ty : string) (pool qty cost : Z) : PocV3Line :=
  {| ln_line_type := ty; ln_source_id := None; ln_pool_id := pool; ln_qty := qty;
     ln_unit_cost := cost; ln_debit_account := 1; ln_credit_account := 2 |}.
Definition sample (ty : string) (src : Z) (lines : list PocV3Line) : Decoded :=
  {| dc_staging_idx := src; dc_user_tx_xid := 700 + src;
     dc_submission := {| sub_trx_type := ty; sub_source_id := src; sub_posted_at_micros := 1000;
                         sub_line_count := Z.of_nat (length lines); sub_line_offset := 0 |};
     dc_lines := lines |}.
(** Every timestamp in range. *)
Definition in_range (t : Z) : option Timestamp := Some t.

Definition receipt (src pool qty cost : Z) : Decoded :=
  sample "po_receipt" src [sample_line "po_receipt_line" pool qty cost].
Definition issue (src pool qty : Z) : Decoded :=
  sample "inv_adjustment" src [sample_line "inv_adjustment_line" pool (- qty) 0].

Lemma db0_wf : db_wf db0.
Proof. by split; try (intros ???; done); try (intros ? ? ? ? [=]). Qed.

(** Receive 10 at 5 and 10 at 7, try to issue 40, issue 15, receive 4 into the average pool. *)
Definition group0 : list Decoded :=
  [receipt 1 1 10 5; receipt 2 1 10 7; issue 3 1 40; issue 4 1 15; receipt 5 2 4 9].

Ltac member_of_db0 :=
  eexists _, _; split_and!; [reflexivity|reflexivity|];
  split_and!; [by apply (bool_decide_unpack _); vm_compute|by apply map_Forall_empty| |];
  apply (bool_decide_unpack _); vm_compute; done.

#[local] Instance line_accounts_dec d : ∀ l, Decision (line_accounts (λ a, a ∈ db_account d) l).
Proof. intros l. unfold line_accounts. apply _. Defined.

Lemma group0_valid : group_valid in_range db0 group0.
Proof.
  split; [|by apply (bool_decide_unpack _); vm_compute].
  repeat (apply Forall_cons; split; [member_of_db0|]). constructor.
Qed.

Lemma paths_agree_witness :
  ∃ dB, group_transaction in_range group0 db0 = (Ok 4%nat, dB) ∧
        same_books (submit_each in_range group0 db0).2 dB.
Proof. exact (paths_agree in_range db0 group0 db0_wf group0_valid). Defined.

(** The first submission of the group, through the entry point of Path A. *)
Definition receipt_json : LineJson :=
  {| lj_pool_id := 1; lj_line_type := "po_receipt_line"; lj_source_id := None; lj_qty := 10;
     lj_unit_cost := 5; lj_debit_account := 1; lj_credit_account := 2 |}.
Definition any_time (s : string) : option Timestamp := Some 1000.
Definition db1 : Db := (in_transaction (ledger_submit_trx any_time id "po_receipt" 1 "now" (Some [receipt_json])) db0).2.

Lemma submit_trx_preserves_wf_witness : db_wf db1 ∧ 1 = db_trx_last db0 + 1.
Proof.
  exact (submit_trx_preserves_wf any_time id "po_receipt" 1 "now" (Some [receipt_json]) db0 (Ok 1) db1
           db0_wf eq_refl).
Defined.

Definition request1 : TrxLineRequest := line_request receipt_json PoReceiptLine.
Lemma request1_valid : submission_valid "po_receipt" 1 [request1] db0.
Proof.
  split_and!; [by apply (bool_decide_unpack _); vm_compute|by apply map_Forall_empty| |];
    apply (bool_decide_unpack _); vm_compute; done.
Qed.

(** A FIFO pool of two layers, 15 units requested. *)
Definition two_layers : Snapshot :=
  {| pools := {[1 := [{| layer_seq := 1; row_qty := 10; row_unit_cost := 5; last_trx_line_id := 11 |};
                      {| layer_seq := 2; row_qty := 10; row_unit_cost := 7; last_trx_line_id := 12 |}]]};
     method_of := {[1 := Fifo]}; max_trx_seq_of := {[1 := 2]}; std_cost_of := ∅ |}.
Definition issue15 : TrxLineRequest :=
  {| req_pool_id := 1; req_line_type := InvAdjustmentLine; req_source_id := None; req_qty := -15;
     req_unit_cost := 0; req_debit_account := 1; req_credit_account := 2 |}.
Lemma depletion_is_unit_queue_witness :
  ∃ st', layered_deplete issue15 0 Ascending (two_layers, plan_default) = (Ok tt, st') ∧
         units (rows_of st'.1 1) = [7; 7; 7; 7; 7] ∧ sumZ pst_amount (posting_lines st'.2) = 85.
Proof.
  pose proof (depletion_is_unit_queue issue15 0 Ascending (two_layers, plan_default)) as H.
  cbv zeta in H. rewrite decide_False in H by (vm_compute; lia).
  destruct H as (st' & H1 & H2 & H3 & _).
  - split; repeat constructor; vm_compute; done.
  - vm_compute. done.
  - vm_compute. done.
  - vm_compute. done.
  - vm_compute. done.
  - repeat constructor; vm_compute; done.
  - exists st'. split; [exact H1|]. split; [exact (eq_trans H2 eq_refl)|exact (eq_trans H3 eq_refl)].
Defined.

(** A repeated document in the middle of the group.  The repetition takes the
    stock in the plan, so the third submission fails to plan and is excluded; the
    write then excludes the repetition, but the third stays excluded. *)
Definition repeated_group : list Decoded :=
  [receipt 1 1 10 5; sample "po_receipt" 1 [sample_line "inv_adjustment_line" 1 (-10) 0]; issue 4 1 5].

(** With a repeated document the paths part: one by one, two of the submissions
    commit (the repetition is refused); as a group, only one does. *)
Theorem repeated_document_starves_group :
  (submit_each in_range repeated_group db0).1 = 2%nat ∧
  (group_transaction in_range repeated_group db0).1 = Ok 1%nat.
Proof. split; vm_compute; reflexivity. Qed.
