(* ===== verification/V3ArenaScenario.v ===== *)
(** The arena theorems at concrete inputs: a short allocation history, and one
    submission through the blocks of an enqueue and the release of the cleanup. *)
From S2P Require Import Prelude V3Arena V3Payload.

(** Allocate 5 bytes and 64 bytes, free the first. *)
Definition arena1 : SpilloverArena := (alloc 5 fresh_arena).2.
Definition arena2 : SpilloverArena := (alloc 64 arena1).2.
Definition arena3 : SpilloverArena := (free 16 arena2).2.

Lemma client3 : client arena3 [(24, 64)].
Proof.
  eapply (client_free arena2 [(24, 64); (8, 8)] _ (8, 8)); [|by constructor|by vm_compute].
  refine (client_alloc arena1 [(8, 8)] 64 32 arena2 _ _ _); [|lia|by vm_compute].
  refine (client_alloc fresh_arena [] 5 16 arena1 client_start _ _); [lia|by vm_compute].
Qed.
Lemma arena_keeps_blocks_witness :
  ∃ r a', alloc 3 arena3 = (Ok r, a') ∧ r = Some 16 ∧ same_payload (bytes arena3) (bytes a') (24, 64).
Proof.
  destruct (arena_keeps_blocks arena3 [(24, 64)] client3) as (_ & _ & H & _).
  destruct (H 3) as (r & a' & Hrun & Hp & _); [lia|]. exists r, a'. split; [exact Hrun|]. split.
  - vm_compute in Hrun. injection Hrun as <- _. reflexivity.
  - apply Hp. by left.
Defined.

(** A serializer for one submission text: enough to instantiate serde's part. *)
Definition line0 : PocV3Line :=
  {| ln_line_type := "po_receipt_line"; ln_source_id := None; ln_pool_id := 1; ln_qty := 10;
     ln_unit_cost := 5; ln_debit_account := 1; ln_credit_account := 2 |}.
Definition sub0 : PocV3Submission :=
  {| sub_trx_type := "po_receipt"; sub_source_id := 1; sub_posted_at_micros := 1000;
     sub_line_count := 0; sub_line_offset := 0 |}.
Definition lines_text (ls : list PocV3Line) : option (list Z) :=
  if decide (ls = [line0]) then Some [91; 93] else None.
Definition parse_lines (b : list Z) : option (list PocV3Line) :=
  if decide (b = [91; 93]) then Some [line0] else None.
Definition sub_text (s : PocV3Submission) : option (list Z) :=
  if decide (s = with_lines 1 16 sub0) then Some [123; 125; 10] else None.
Definition parse_sub (b : list Z) : option PocV3Submission :=
  if decide (b = [123; 125; 10]) then Some (with_lines 1 16 sub0) else None.

Lemma lines_text_roundtrip ls b : lines_text ls = Some b → parse_lines b = Some ls.
Proof. unfold lines_text. case_decide; [|done]. intros [= <-]. by subst. Qed.
Lemma sub_text_roundtrip s b : sub_text s = Some b → parse_sub b = Some s.
Proof. unfold sub_text. case_decide; [|done]. intros [= <-]. by subst. Qed.
Lemma texts_fit0 : texts_fit lines_text sub_text sub0 [line0].
Proof.
  split.
  - intros b [= <-]. cbn. lia.
  - intros n o b. unfold sub_text. case_decide; [|done]. intros [= <-]. cbn. lia.
Qed.

Lemma owns_nothing : owns fresh_arena [].
Proof. exact fresh_holds. Qed.

Lemma submission_survives_arena_witness :
  ∃ a', try_alloc_blocks lines_text sub_text sub0 [line0] [1] fresh_arena =
          (Ok (AllocOk 32 3 48, with_lines 1 16 sub0), a') ∧
        decode_submission parse_lines parse_sub 32 3 a' = (Ok (Ok (with_lines 1 16 sub0, [line0])), a').
Proof.
  destruct (submission_survives_arena lines_text sub_text parse_lines parse_sub lines_text_roundtrip
              sub_text_roundtrip fresh_arena [] sub0 [line0] [1] owns_nothing texts_fit0)
    as (r & sub' & a' & R & _ & H); [done|cbn; lia|].
  assert (r = AllocOk 32 3 48 ∧ sub' = with_lines 1 16 sub0) as [-> ->]
    by (vm_compute in R; injection R as <- <- _; done).
  exists a'. split; [exact R|]. destruct H as (bp & bs & bl & _ & _ & Hdec). by apply Hdec.
Defined.

Definition job0 : Job := {| job_sub := sub0; job_lines := [line0]; job_pools := [1] |}.
Lemma cleanup_leaks_lines_witness :
  ∃ a', serve_all lines_text sub_text [job0] fresh_arena = (Ok true, a') ∧
        ∃ leaked, length leaked = 1%nat ∧ owns a' leaked.
Proof.
  destruct (cleanup_leaks_lines lines_text sub_text fresh_arena [] [job0] owns_nothing)
    as (ok & a' & R & H).
  { constructor; [|constructor]. split_and!; [apply texts_fit0|done|cbn; lia]. }
  assert (ok = true) as -> by (vm_compute in R; injection R as <- _; done).
  exists a'. split; [exact R|]. destruct (H eq_refl) as [(lk & Hlk & O) _]. exists lk.
  split; [exact Hlk|]. by rewrite app_nil_r in O.
Defined.
