(* ===== verification/V3Affinity.v ===== *)
(** Affinity grouping of the Path B router (ledger-routed, router.rs): the
    disjoint-set forest with path compression and union by rank, and the
    partition of the pending submissions into commit groups.  The specification
    is the partition into connected components of the relation "touches a common
    pool". *)
From stdpp Require Import relations.
From S2P Require Import Prelude V3Arena.

(** * The forest

    Indexing past the end of a vector panics; a parent walk longer than the
    vector has come back to a node. *)
Inductive UfFault : Type := IndexOutOfRange | CyclicWalk.

Record UnionFind := { parent : list nat; rank : list Z }.
Definition uf_new (n : nat) : UnionFind := {| parent := seq 0 n; rank := replicate n 0 |}.
Definition set_parent (p : list nat) (uf : UnionFind) : UnionFind := {| parent := p; rank := rank uf |}.
Definition set_rank (r : list Z) (uf : UnionFind) : UnionFind := {| parent := parent uf; rank := r |}.

(** The first loop of [find]: up to the root. *)
Fixpoint find_root (fuel : nat) (p : list nat) (root : nat) : Res UfFault nat :=
  match fuel with
  | O => Err CyclicWalk
  | S fuel =>
      match p !! root with
      | None => Err IndexOutOfRange
      | Some q => if decide (q = root) then Ok root else find_root fuel p q
      end
  end.
(** The second loop: every node on the way is hung below the root. *)
Fixpoint compress (fuel : nat) (p : list nat) (cur root : nat) : Res UfFault (list nat) :=
  match fuel with
  | O => Err CyclicWalk
  | S fuel =>
      match p !! cur with
      | None => Err IndexOutOfRange
      | Some next => if decide (next = root) then Ok p else compress fuel (<[cur := root]> p) next root
      end
  end.
Definition find (x : nat) : SE UnionFind UfFault nat :=
  uf ← gets id;
  root ← lift (find_root (length (parent uf)) (parent uf) x);
  p ← lift (compress (length (parent uf)) (parent uf) x root);
  modify (set_parent p);;
  mret root.

(** Ranks are [u32]. *)
Definition union (a b : nat) : SE UnionFind UfFault unit :=
  ra ← find a;
  rb ← find b;
  if decide (ra = rb) then mret tt else
  uf ← gets id;
  ka ← lift (ok_or (rank uf !! ra) IndexOutOfRange);
  kb ← lift (ok_or (rank uf !! rb) IndexOutOfRange);
  match ka ?= kb with
  | Lt => modify (set_parent (<[ra := rb]> (parent uf)))
  | Gt => modify (set_parent (<[rb := ra]> (parent uf)))
  | Eq => modify (set_parent (<[rb := ra]> (parent uf)));;
          modify (set_rank (<[ra := wrap_u32 (ka + 1)]> (rank uf)))
  end.

(** * Grouping *)
Record Candidate := {
  cand_staging_idx : Z;
  cand_request_seq : Z;
  cand_pool_keys : list Z;
}.
#[global] Instance Candidate_eq_dec : EqDecision Candidate.
Proof. solve_decision. Defined.

(** [map.entry(k).or_default().push(v)] *)
Definition entry_push {K V} `{Countable K} (k : K) (v : V) (m : gmap K (list V)) : gmap K (list V) :=
  <[k := default [] (m !! k) ++ [v]]> m.

Definition pool_to_envs (candidates : list Candidate) : gmap Z (list nat) :=
  foldl (λ m e, entry_push e.1 e.2 m) ∅
    (concat (imap (λ idx cand, map (λ k, (k, idx)) (cand_pool_keys cand)) candidates)).

Definition union_envs (envs : list nat) : SE UnionFind UfFault unit :=
  match envs with
  | head :: ((_ :: _) as others) => iterM (union head) others
  | _ => mret tt
  end.

Fixpoint find_all (xs : list nat) : SE UnionFind UfFault (list nat) :=
  match xs with
  | [] => mret []
  | x :: xs => r ← find x; rs ← find_all xs; mret (r :: rs)
  end.

Definition by_root (roots : list nat) (candidates : list Candidate) : gmap nat (list Candidate) :=
  foldl (λ m e, entry_push e.1 e.2 m) ∅ (zip roots candidates).

Definition first_seq (g : list Candidate) : Z := from_option cand_request_seq 0 (head g).

Section grouping.
(** The order in which a [HashMap] hands out its values is unspecified. *)
Context (env_values : gmap Z (list nat) → list (list nat))
        (group_values : gmap nat (list Candidate) → list (list Candidate)).

Definition affinity_group (candidates : list Candidate) : Res UfFault (list (list Candidate)) :=
  let n := length candidates in
  if decide (n = 0%nat) then Ok [] else
  match (iterM union_envs (env_values (pool_to_envs candidates));; find_all (seq 0 n)) (uf_new n) with
  | (Err e, _) => Err e
  | (Ok roots, _) =>
      let groups := map (sort_by_key cand_request_seq) (group_values (by_root roots candidates)) in
      if decide ([] ∈ groups) then Err IndexOutOfRange
      else Ok (sort_by_key first_seq groups)
  end.
End grouping.

(** * Walks to the root *)
Inductive walk (p : list nat) : nat → nat → nat → Prop :=
| walk_root x : p !! x = Some x → walk p x x 0
| walk_step x q r k : p !! x = Some q → q ≠ x → walk p q r k → walk p x r (S k).

Lemma walk_functional p x r k r' k' : walk p x r k → walk p x r' k' → r = r' ∧ k = k'.
Proof.
  intros H. revert r' k'. induction H as [x Hx|x q r k Hx Hq _ IH]; intros r' k' H'; inversion H' as [?|?????? Hw]; simplify_eq; try done.
  destruct (IH _ _ Hw). by subst.
Qed.
Lemma walk_root_fixed p x r k : walk p x r k → p !! r = Some r.
Proof. by induction 1. Qed.

Definition root_of (p : list nat) (x r : nat) : Prop := ∃ k, walk p x r k.
Definition rk (ranks : list Z) (x : nat) : Z := default 0 (ranks !! x).

(** Parents have larger ranks, and every smaller rank is taken by some node. *)
Record uf_inv (n : nat) (uf : UnionFind) : Prop := {
  ui_parent : length (parent uf) = n;
  ui_rank : length (rank uf) = n;
  ui_range : ∀ x q, parent uf !! x = Some q → (q < n)%nat;
  ui_up : ∀ x q, parent uf !! x = Some q → q ≠ x → rk (rank uf) x < rk (rank uf) q;
  ui_dense : ∀ x r, 0 ≤ r < rk (rank uf) x → ∃ y, (y < n)%nat ∧ rk (rank uf) y = r;
  ui_pos : ∀ x, 0 ≤ rk (rank uf) x;
}.

Lemma nodes_bound (n : nat) (l : list nat) :
  NoDup l → (∀ x, x ∈ l → (x < n)%nat) → (length l ≤ n)%nat.
Proof.
  intros Hnd Hl. rewrite <-(length_seq n 0). apply submseteq_length, NoDup_submseteq; [done|].
  intros x Hx. apply elem_of_seq. specialize (Hl _ Hx). lia.
Qed.

Lemma rank_bound n uf x : uf_inv n uf → (x < n)%nat → rk (rank uf) x < Z.of_nat n.
Proof.
  intros Hinv Hx. set (R := rk (rank uf)).
  assert (∀ m : nat, Z.of_nat m ≤ R x →
    ∃ ys, length ys = m ∧ NoDup ys ∧ ∀ y, y ∈ ys → (y < n)%nat ∧ R y < Z.of_nat m) as Hys.
  { intros m. induction m as [|m IH]; intros Hm.
    - exists []. split_and!; [done|constructor|by intros ? ?%elem_of_nil].
    - destruct IH as (ys & H1 & H2 & H3); [lia|].
      destruct (ui_dense _ _ Hinv x (Z.of_nat m)) as (y & Hy & HR); [unfold R in *; lia|].
      exists (y :: ys). split_and!; [by cbn; rewrite H1| |].
      + constructor; [|done]. intros Hin. apply H3 in Hin as [_ Hin]. unfold R in *. lia.
      + intros z [->|Hz]%elem_of_cons; [unfold R in *; split; [done|lia]|]. apply H3 in Hz as [? ?]. split; [done|lia]. }
  pose proof (ui_pos _ _ Hinv x). destruct (Hys (Z.to_nat (R x))) as (ys & H1 & H2 & H3); [unfold R in *; lia|].
  assert (length (x :: ys) ≤ n)%nat as Hlen.
  { apply nodes_bound.
    - constructor; [|done]. intros [_ Hin]%H3. unfold R in *. lia.
    - intros z [->|[? _]%H3]%elem_of_cons; done. }
  cbn in Hlen. unfold R in *. lia.
Qed.

(** Every node reaches a root in fewer steps than there are nodes. *)
Lemma walk_total_from n uf (m : nat) visited x :
  uf_inv n uf → (n ≤ m + length visited)%nat → (x < n)%nat → NoDup visited →
  (∀ v, v ∈ visited → (v < n)%nat ∧ rk (rank uf) v < rk (rank uf) x) →
  ∃ r k, walk (parent uf) x r k ∧ (k + length visited < n)%nat.
Proof.
  intros Hinv. revert visited x. induction m as [|m IH]; intros visited x Hm Hx Hnd Hv.
  all: assert (NoDup (x :: visited)) as Hnd' by (constructor; [intros [_ ?]%Hv; lia|done]).
  all: assert (length (x :: visited) ≤ n)%nat as Hlen
         by (apply nodes_bound; [done|]; intros z [->|[? _]%Hv]%elem_of_cons; done).
  all: cbn in Hlen.
  - lia.
  - destruct (lookup_lt_is_Some_2 (parent uf) x) as [q Hq]; [by rewrite (ui_parent _ _ Hinv)|].
    destruct (decide (q = x)) as [->|Hne]; [exists x, 0%nat; split; [by constructor|lia]|].
    pose proof (ui_up _ _ Hinv _ _ Hq Hne) as Hup.
    destruct (IH (x :: visited) q) as (r & k & Hw & Hk).
    + cbn. lia.
    + by eapply (ui_range _ _ Hinv).
    + done.
    + intros v [->|[? ?]%Hv]%elem_of_cons; split; [done|done|done|lia].
    + exists r, (S k). split; [by eapply walk_step|]. cbn in Hk. lia.
Qed.
Lemma walk_total n uf x :
  uf_inv n uf → (x < n)%nat → ∃ r k, walk (parent uf) x r k ∧ (k < n)%nat.
Proof.
  intros Hinv Hx. destruct (walk_total_from n uf n [] x) as (r & k & Hw & Hk); cbn; try done.
  - lia.
  - constructor.
  - by intros ? ?%elem_of_nil.
  - cbn in Hk. exists r, k. split; [done|lia].
Qed.
Lemma walk_up n uf x r k :
  uf_inv n uf → walk (parent uf) x r k → x = r ∨ rk (rank uf) x < rk (rank uf) r.
Proof.
  intros Hinv. induction 1 as [|x q r k Hx Hq _ IH]; [by left|]. right.
  pose proof (ui_up _ _ Hinv _ _ Hx Hq). destruct IH as [->|IH]; lia.
Qed.
Lemma walk_range n uf x r k : uf_inv n uf → walk (parent uf) x r k → (x < n)%nat ∧ (r < n)%nat.
Proof.
  intros Hinv. induction 1 as [x Hx|x q r k Hx Hq _ [_ IH]].
  - apply lookup_lt_Some in Hx. rewrite (ui_parent _ _ Hinv) in Hx. done.
  - apply lookup_lt_Some in Hx. rewrite (ui_parent _ _ Hinv) in Hx. done.
Qed.

Lemma find_root_walk p x r k fuel : walk p x r k → (k < fuel)%nat → find_root fuel p x = Ok r.
Proof.
  intros H. revert fuel. induction H as [x Hx|x q r k Hx Hq _ IH]; intros [|fuel] Hf; try lia; cbn; rewrite Hx.
  - by rewrite decide_True.
  - rewrite decide_False by done. apply IH. lia.
Qed.

(** Hanging a node below its own root keeps every root. *)
Lemma shortcut_root p c r k : walk p c r k → c ≠ r → ∀ y s, root_of p y s → root_of (<[c := r]> p) y s.
Proof.
  intros Hc Hne y s [j Hy]. assert (c < length p)%nat as Hlen.
  { inversion Hc; subst; by eapply lookup_lt_Some. }
  assert (p !! r = Some r) as Hr by (by eapply walk_root_fixed).
  assert (p !! c ≠ Some c) as Hnc.
  { intros Hcc. destruct (walk_functional _ _ _ _ c 0 Hc); [by constructor|done]. }
  induction Hy as [y Hy|y q s j Hy Hq Hw IH].
  - exists 0%nat. constructor. rewrite list_lookup_insert_ne by congruence. done.
  - destruct (decide (y = c)) as [->|Hyc].
    + assert (s = r) as -> by (by destruct (walk_functional _ _ _ _ _ _ (walk_step _ _ _ _ _ Hy Hq Hw) Hc)).
      exists 1%nat. eapply walk_step; [by apply list_lookup_insert_eq|done|]. constructor.
      by rewrite list_lookup_insert_ne.
    + destruct IH as [i Hi]. exists (S i). eapply walk_step; [|done|done]. by rewrite list_lookup_insert_ne.
Qed.
Lemma shortcut_inv n uf c r k :
  uf_inv n uf → walk (parent uf) c r k → c ≠ r → uf_inv n (set_parent (<[c := r]> (parent uf)) uf).
Proof.
  intros Hinv Hc Hne. destruct (walk_range _ _ _ _ _ Hinv Hc) as [Hcn Hrn].
  destruct (walk_up _ _ _ _ _ Hinv Hc) as [?|Hup]; [done|]. pose proof Hinv as [H1 H2 H3 H4 H5 H6].
  split; cbn; [by rewrite length_insert|done| | |done|done].
  - intros x q. rewrite list_lookup_insert. case_decide; [by intros [= <-]|]. by apply H3.
  - intros x q. rewrite list_lookup_insert. case_decide as Hx; [destruct Hx as [-> _]; by intros [= <-]|]. by apply H4.
Qed.

(** A walk is not disturbed by a change at a node of lower rank. *)
Lemma walk_insert_low n uf y r k c v :
  uf_inv n uf → walk (parent uf) y r k → rk (rank uf) c < rk (rank uf) y →
  walk (<[c := v]> (parent uf)) y r k.
Proof.
  intros Hinv. induction 1 as [y Hy|y q r k Hy Hq _ IH]; intros Hc.
  - constructor. rewrite list_lookup_insert_ne; [done|]. intros ->. lia.
  - eapply walk_step; [|done|apply IH; pose proof (ui_up _ _ Hinv _ _ Hy Hq); lia].
    rewrite list_lookup_insert_ne; [done|]. intros ->. lia.
Qed.

Lemma set_parent_twice p p' uf : set_parent p (set_parent p' uf) = set_parent p uf.
Proof. done. Qed.
Lemma set_parent_same uf : set_parent (parent uf) uf = uf.
Proof. by destruct uf. Qed.

Definition roots_kept (p p' : list nat) : Prop := ∀ y s, root_of p y s → root_of p' y s.

Lemma compress_spec n uf fuel cur root k :
  uf_inv n uf → walk (parent uf) cur root k → (k < fuel)%nat →
  ∃ p, compress fuel (parent uf) cur root = Ok p ∧ uf_inv n (set_parent p uf) ∧ roots_kept (parent uf) p.
Proof.
  revert uf cur k. induction fuel as [|fuel IH]; intros uf cur k Hinv Hw Hk; [lia|]. cbn.
  inversion Hw as [x Hx|x q r j Hx Hq Hw']; subst; rewrite Hx.
  - rewrite decide_True by done. exists (parent uf). rewrite set_parent_same. split_and!; [done|done|by intros y s].
  - destruct (decide (q = root)) as [->|Hqr].
    { exists (parent uf). rewrite set_parent_same. split_and!; [done|done|by intros y s]. }
    assert (cur ≠ root) as Hcr.
    { intros ->. destruct (walk_functional _ _ _ _ root 0 Hw) as [_ ?]; [|done].
      constructor. by eapply walk_root_fixed. }
    pose proof (shortcut_inv _ _ _ _ _ Hinv Hw Hcr) as Hinv'.
    destruct (IH (set_parent (<[cur := root]> (parent uf)) uf) q j Hinv') as (p & Hp & Hi & Hkept).
    + cbn. eapply walk_insert_low; [done|done|]. by eapply (ui_up _ _ Hinv).
    + lia.
    + exists p. split_and!; [done|done|]. intros y s Hy. apply Hkept. by eapply shortcut_root.
Qed.

Lemma find_spec n uf x :
  uf_inv n uf → (x < n)%nat →
  ∃ r p, find x uf = (Ok r, set_parent p uf) ∧ uf_inv n (set_parent p uf) ∧
         root_of (parent uf) x r ∧ roots_kept (parent uf) p.
Proof.
  intros Hinv Hx. destruct (walk_total _ _ _ Hinv Hx) as (r & k & Hw & Hk).
  pose proof (ui_parent _ _ Hinv) as Hlen.
  destruct (compress_spec n uf (length (parent uf)) x r k Hinv Hw) as (p & Hp & Hi & Hkept); [lia|].
  exists r, p. split_and!; [|done|by exists k|done].
  unfold find, mbind, SE_bind, gets, lift, modify, id. cbv beta iota.
  rewrite (find_root_walk _ _ _ _ _ Hw) by lia. by rewrite Hp.
Qed.

(** * The partition a forest stands for *)
Definition joined (uf : UnionFind) (x y : nat) : Prop :=
  ∃ r, root_of (parent uf) x r ∧ root_of (parent uf) y r.

Lemma root_functional p x r r' : root_of p x r → root_of p x r' → r = r'.
Proof. intros [k Hk] [k' Hk']. by destruct (walk_functional _ _ _ _ _ _ Hk Hk'). Qed.
Lemma root_total n uf x : uf_inv n uf → (x < n)%nat → ∃ r, root_of (parent uf) x r.
Proof. intros Hinv Hx. destruct (walk_total _ _ _ Hinv Hx) as (r & k & Hw & _). exists r. by exists k. Qed.
Lemma joined_root uf x y r : root_of (parent uf) x r → joined uf x y ↔ root_of (parent uf) y r.
Proof.
  intros Hx. split; [|by exists r]. intros (s & Hxs & Hys). by rewrite (root_functional _ _ _ _ Hx Hxs).
Qed.
Lemma joined_roots uf x y rx ry :
  root_of (parent uf) x rx → root_of (parent uf) y ry → joined uf x y ↔ rx = ry.
Proof.
  intros Hx Hy. rewrite (joined_root _ _ _ _ Hx). split; [|by intros ->]. intros H. by eapply root_functional.
Qed.
Lemma roots_kept_joined n uf uf' x y :
  uf_inv n uf → roots_kept (parent uf) (parent uf') → (x < n)%nat → (y < n)%nat →
  joined uf' x y ↔ joined uf x y.
Proof.
  intros Hinv Hk Hx Hy. destruct (root_total _ _ _ Hinv Hx) as [rx Hrx], (root_total _ _ _ Hinv Hy) as [ry Hry].
  by rewrite (joined_roots uf' _ _ _ _ (Hk _ _ Hrx) (Hk _ _ Hry)), (joined_roots uf _ _ _ _ Hrx Hry).
Qed.

(** Hanging one root below another. *)
Lemma link_root p ra rb y s :
  p !! ra = Some ra → p !! rb = Some rb → ra ≠ rb → root_of p y s →
  root_of (<[rb := ra]> p) y (if decide (s = rb) then ra else s).
Proof.
  intros Ha Hb Hne [k Hw]. pose proof (lookup_lt_Some _ _ _ Hb) as Hlen.
  induction Hw as [y Hy|y q s k Hy Hq _ [j IH]].
  - case_decide as E; [subst y|].
    + exists 1%nat. eapply walk_step; [by apply list_lookup_insert_eq|done|]. constructor.
      by rewrite list_lookup_insert_ne.
    + exists 0%nat. constructor. by rewrite list_lookup_insert_ne.
  - exists (S j). eapply walk_step; [|done|done]. rewrite list_lookup_insert_ne; [done|]. intros <-. congruence.
Qed.

Definition merged (J : nat → nat → Prop) (a b x y : nat) : Prop :=
  J x y ∨ (J x a ∧ J y b) ∨ (J x b ∧ J y a).

Lemma link_joined n uf ra rb x y ranks :
  uf_inv n uf → parent uf !! ra = Some ra → parent uf !! rb = Some rb → ra ≠ rb → (x < n)%nat → (y < n)%nat →
  joined {| parent := <[rb := ra]> (parent uf); rank := ranks |} x y ↔ merged (joined uf) ra rb x y.
Proof.
  intros Hinv Ha Hb Hne Hx Hy.
  destruct (root_total _ _ _ Hinv Hx) as [rx Hrx], (root_total _ _ _ Hinv Hy) as [ry Hry].
  assert (root_of (parent uf) ra ra) as Hra by (exists 0%nat; by constructor).
  assert (root_of (parent uf) rb rb) as Hrb by (exists 0%nat; by constructor).
  unfold merged. rewrite (joined_roots uf x y _ _ Hrx Hry), (joined_roots uf x ra _ _ Hrx Hra),
    (joined_roots uf y rb _ _ Hry Hrb), (joined_roots uf x rb _ _ Hrx Hrb), (joined_roots uf y ra _ _ Hry Hra).
  rewrite (joined_roots {| parent := _; rank := ranks |} x y _ _ (link_root _ _ _ _ _ Ha Hb Hne Hrx) (link_root _ _ _ _ _ Ha Hb Hne Hry)).
  repeat case_decide; naive_solver.
Qed.

Lemma link_inv n uf child top :
  uf_inv n uf → (top < n)%nat → rk (rank uf) child < rk (rank uf) top →
  uf_inv n (set_parent (<[child := top]> (parent uf)) uf).
Proof.
  intros [H1 H2 H3 H4 H5 H6] Ht Hlt. split; cbn; [by rewrite length_insert|done| | |done|done].
  - intros x q. rewrite list_lookup_insert. case_decide; [by intros [= <-]|]. by apply H3.
  - intros x q. rewrite list_lookup_insert. case_decide as Hx; [destruct Hx as [-> _]; by intros [= <-]|]. by apply H4.
Qed.
Lemma rk_insert ranks a v x :
  (a < length ranks)%nat → rk (<[a := v]> ranks) x = if decide (x = a) then v else rk ranks x.
Proof.
  intros Ha. unfold rk. case_decide as E; [subst x; by rewrite list_lookup_insert_eq|].
  by rewrite list_lookup_insert_ne.
Qed.
(** Two roots of one rank: the winner's rank grows by one. *)
Lemma link_equal_inv n uf child top :
  uf_inv n uf → (top < n)%nat → (child < n)%nat → child ≠ top → parent uf !! top = Some top →
  rk (rank uf) child = rk (rank uf) top →
  uf_inv n {| parent := <[child := top]> (parent uf); rank := <[top := rk (rank uf) top + 1]> (rank uf) |}.
Proof.
  intros [H1 H2 H3 H4 H5 H6] Ht Hc Hne Htop Heq. pose proof (H6 top) as Hpos. split; cbn.
  - by rewrite length_insert.
  - by rewrite length_insert.
  - intros x q. rewrite list_lookup_insert. case_decide; [by intros [= <-]|]. by apply H3.
  - intros x q. rewrite !rk_insert by lia. rewrite list_lookup_insert. case_decide as Hx.
    + destruct Hx as [-> _]. intros [= <-] _. rewrite decide_False, decide_True by done. lia.
    + intros Hq Hxq. pose proof (H4 _ _ Hq Hxq). repeat case_decide; subst; try congruence; lia.
  - intros x r. rewrite rk_insert by lia. intros Hr.
    destruct (decide (r = rk (rank uf) top)) as [->|Hrt].
    + exists child. by rewrite rk_insert, decide_False by lia.
    + assert (∃ y, (y < n)%nat ∧ rk (rank uf) y = r) as (y & Hy & <-).
      { case_decide; [apply (H5 top); lia|by apply (H5 x)]. }
      exists y. rewrite rk_insert by lia. split; [done|]. rewrite decide_False by congruence. done.
  - intros x. rewrite rk_insert by lia. case_decide; [lia|done].
Qed.

Lemma merged_sym J a b x y : merged J a b x y ↔ merged J b a x y.
Proof. unfold merged. naive_solver. Qed.
#[global] Instance joined_Symmetric uf : Symmetric (joined uf).
Proof. intros x y (r & ? & ?). by exists r. Qed.
#[global] Instance joined_Transitive uf : Transitive (joined uf).
Proof.
  intros x y z (r & ? & Hy) (s & Hy' & ?). exists r. by destruct (root_functional _ _ _ _ Hy Hy').
Qed.

(** The two finds of a union: merging the classes of the roots is merging the
    classes of the arguments. *)
Lemma find_both n uf a b :
  uf_inv n uf → (a < n)%nat → (b < n)%nat →
  ∃ ra rb uf1 uf2, find a uf = (Ok ra, uf1) ∧ find b uf1 = (Ok rb, uf2) ∧ uf_inv n uf2 ∧
    (parent uf2 !! ra = Some ra ∧ (ra < n)%nat) ∧ (parent uf2 !! rb = Some rb ∧ (rb < n)%nat) ∧
    ∀ x y, (x < n)%nat → (y < n)%nat → merged (joined uf2) ra rb x y ↔ merged (joined uf) a b x y.
Proof.
  intros Hinv Ha Hb. destruct (find_spec _ _ _ Hinv Ha) as (ra & p1 & F1 & I1 & R1 & K1).
  destruct (find_spec _ _ _ I1 Hb) as (rb & p2 & F2 & I2 & R2 & K2). rewrite set_parent_twice in F2, I2.
  exists ra, rb, (set_parent p1 uf), (set_parent p2 uf). set (uf2 := set_parent p2 uf) in *.
  assert (∀ x y, (x < n)%nat → (y < n)%nat → joined uf2 x y ↔ joined uf x y) as Hsame.
  { intros x y Hx Hy. rewrite (roots_kept_joined n _ uf2 x y I1 K2 Hx Hy).
    by apply (roots_kept_joined n uf (set_parent p1 uf) x y Hinv K1). }
  apply K1, K2 in R1 as [k1 W1]. apply K2 in R2 as [k2 W2].
  pose proof (walk_root_fixed _ _ _ _ W1) as P1. pose proof (walk_root_fixed _ _ _ _ W2) as P2.
  destruct (walk_range _ uf2 _ _ _ I2 W1) as [_ N1], (walk_range _ uf2 _ _ _ I2 W2) as [_ N2].
  assert (joined uf2 a ra) as Ja by (exists ra; split; [by exists k1|exists 0%nat; by constructor]).
  assert (joined uf2 b rb) as Jb by (exists rb; split; [by exists k2|exists 0%nat; by constructor]).
  split_and!; try done. intros x y Hx Hy. unfold merged. rewrite <-!Hsame by done.
  split; (intros [?|[[??]|[??]]]; [by left|right; left|right; right]; split; by etrans).
Qed.

Lemma union_spec n uf a b :
  uf_inv n uf → Z.of_nat n < 2 ^ 32 → (a < n)%nat → (b < n)%nat →
  ∃ uf', union a b uf = (Ok tt, uf') ∧ uf_inv n uf' ∧
    ∀ x y, (x < n)%nat → (y < n)%nat → joined uf' x y ↔ merged (joined uf) a b x y.
Proof.
  intros Hinv Hn Ha Hb.
  destruct (find_both _ _ _ _ Hinv Ha Hb) as (ra & rb & uf1 & uf2 & F1 & F2 & I2 & [Pa Na] & [Pb Nb] & Hmerge).
  unfold union. rewrite (SE_bind_run _ _ _ _ _ F1), (SE_bind_run _ _ _ _ _ F2).
  destruct (decide (ra = rb)) as [->|Hne].
  { exists uf2. split_and!; [done|done|]. intros x y Hx Hy. rewrite <-Hmerge by done. unfold merged.
    split; [by left|]. intros [?|[[??]|[??]]]; [done|..]; by etrans; [|symmetry]. }
  destruct (lookup_lt_is_Some_2 (rank uf2) ra) as [ka Hka]; [by rewrite (ui_rank _ _ I2)|].
  destruct (lookup_lt_is_Some_2 (rank uf2) rb) as [kb Hkb]; [by rewrite (ui_rank _ _ I2)|].
  unfold mbind, SE_bind, gets, id, lift, modify. cbv beta iota. rewrite Hka, Hkb. cbn [ok_or].
  assert (rk (rank uf2) ra = ka ∧ rk (rank uf2) rb = kb) as [Ra Rb] by (unfold rk; by rewrite Hka, Hkb).
  destruct (Z.compare_spec ka kb) as [E|E|E]; eexists; (split; [reflexivity|]); split.
  - subst kb. pose proof (rank_bound _ _ _ I2 Na) as Hbnd. pose proof (ui_pos _ _ I2 ra).
    unfold wrap_u32. rewrite Z.mod_small by lia. rewrite <-Ra. apply link_equal_inv; auto. congruence.
  - intros x y Hx Hy. rewrite <-Hmerge by done. by apply (link_joined n).
  - apply link_inv; [done|done|lia].
  - intros x y Hx Hy. rewrite <-Hmerge, merged_sym by done. apply (link_joined n); auto.
  - apply link_inv; [done|done|lia].
  - intros x y Hx Hy. rewrite <-Hmerge by done. by apply (link_joined n).
Qed.

Lemma uf_new_inv n : uf_inv n (uf_new n).
Proof.
  assert (∀ x, rk (replicate n 0) x = 0) as Hrk.
  { intros x. unfold rk. destruct (replicate n 0 !! x) as [z|] eqn:E; [|done].
    by apply lookup_replicate in E as [-> _]. }
  split; cbn; intros; rewrite ?length_seq, ?length_replicate, ?Hrk in *; try done.
  - apply lookup_seq in H. lia.
  - apply lookup_seq in H as [? _]. lia.
  - lia.
Qed.
Lemma uf_new_joined n x y : (x < n)%nat → (y < n)%nat → joined (uf_new n) x y ↔ x = y.
Proof.
  intros Hx Hy. assert (∀ z, (z < n)%nat → root_of (parent (uf_new n)) z z) as Hr.
  { intros z Hz. exists 0%nat. constructor. cbn. by apply lookup_seq. }
  apply joined_roots; auto.
Qed.

(** * Runs of unions *)
Definition tied (E : list (nat * nat)) : nat → nat → Prop := rtsc (λ x y, (x, y) ∈ E).

#[global] Instance tied_Symmetric E : Symmetric (tied E).
Proof. unfold tied. apply _. Qed.
#[global] Instance tied_PreOrder E : PreOrder (tied E).
Proof. unfold tied. apply _. Qed.

Lemma tied_edge E a b : (a, b) ∈ E → tied E a b.
Proof. intros H. by apply rtsc_lr. Qed.
Lemma tied_snoc E a b x y : tied (E ++ [(a, b)]) x y ↔ merged (tied E) a b x y.
Proof.
  assert (∀ u v, tied E u v → tied (E ++ [(a, b)]) u v) as Hmono.
  { intros u v. apply rtc_subrel. intros ? ? [H|H]; [left|right]; apply elem_of_app; by left. }
  assert (tied (E ++ [(a, b)]) a b) as Hab by (apply tied_edge, elem_of_app; right; by left).
  split.
  - induction 1 as [x|x z y Hxz _ IH]; [by left|].
    assert (tied E x z ∨ (x = a ∧ z = b) ∨ (x = b ∧ z = a)) as Hstep.
    { destruct Hxz as [[H|H%list_elem_of_singleton]%elem_of_app|[H|H%list_elem_of_singleton]%elem_of_app].
      - left. by apply tied_edge.
      - right. left. by injection H.
      - left. symmetry. by apply tied_edge.
      - right. right. by injection H. }
    assert (∀ u v w, tied E u v → tied E v w → tied E u w) as Htr by (intros ???; apply transitivity).
    assert (∀ u v, tied E u v → tied E v u) as Hsy by (intros ??; apply symmetry).
    assert (∀ u, tied E u u) as Hre by (intros ?; reflexivity).
    unfold merged. destruct Hstep as [H|[[-> ->]|[-> ->]]], IH as [H1|[[H1 H2]|[H1 H2]]]; eauto 6.
  - intros [H|[[H1 H2]|[H1 H2]]]; [by apply Hmono|..]; apply Hmono in H1, H2.
    + etrans; [exact H1|]. etrans; [exact Hab|]. by symmetry.
    + etrans; [exact H1|]. etrans; [symmetry; exact Hab|]. by symmetry.
Qed.

(** The forest stands for the closure of the pairs united so far. *)
Definition represents (n : nat) (E : list (nat * nat)) (uf : UnionFind) : Prop :=
  uf_inv n uf ∧ ∀ x y, (x < n)%nat → (y < n)%nat → joined uf x y ↔ tied E x y.

Section runs.
Context (n : nat) (Hn : Z.of_nat n < 2 ^ 32).

Lemma represents_new : represents n [] (uf_new n).
Proof.
  split; [apply uf_new_inv|]. intros x y Hx Hy. rewrite uf_new_joined by done. split; [intros ->; reflexivity|].
  unfold tied. induction 1 as [|x z y [H|H] _ _]; [done|by apply elem_of_nil in H..].
Qed.
Lemma represents_union E uf a b :
  represents n E uf → (a < n)%nat → (b < n)%nat →
  ∃ uf', union a b uf = (Ok tt, uf') ∧ represents n (E ++ [(a, b)]) uf'.
Proof.
  intros [Hinv Hj] Ha Hb. destruct (union_spec n uf a b Hinv Hn Ha Hb) as (uf' & Hrun & Hinv' & Hj').
  exists uf'. split; [done|]. split; [done|]. intros x y Hx Hy. rewrite Hj', tied_snoc by done.
  unfold merged. by rewrite !Hj by done.
Qed.
Lemma represents_unions E uf h rest :
  represents n E uf → (h < n)%nat → (∀ x, x ∈ rest → (x < n)%nat) →
  ∃ uf', iterM (union h) rest uf = (Ok tt, uf') ∧ represents n (E ++ map (pair h) rest) uf'.
Proof.
  revert E uf. induction rest as [|x rest IH]; intros E uf Hr Hh Hx.
  - exists uf. by rewrite app_nil_r.
  - destruct (represents_union E uf h x Hr Hh) as (uf1 & Hrun & Hr1); [apply Hx; by left|].
    destruct (IH _ _ Hr1 Hh) as (uf2 & Hrun2 & Hr2); [intros; apply Hx; by right|].
    exists uf2. cbn [iterM map]. rewrite (SE_bind_run _ _ _ _ _ Hrun). split; [done|].
    by rewrite <-app_assoc in Hr2.
Qed.

Definition env_edges (envs : list nat) : list (nat * nat) :=
  match envs with [] => [] | h :: rest => map (pair h) rest end.

Lemma represents_envs E uf envs :
  represents n E uf → (∀ x, x ∈ envs → (x < n)%nat) →
  ∃ uf', union_envs envs uf = (Ok tt, uf') ∧ represents n (E ++ env_edges envs) uf'.
Proof.
  intros Hr Hx. destruct envs as [|h [|o rest]]; cbn [union_envs env_edges].
  1, 2: exists uf; by rewrite app_nil_r.
  apply represents_unions; [done|apply Hx; by left|]. intros x Hin. apply Hx. by right.
Qed.
Lemma represents_all E uf l :
  represents n E uf → (∀ envs x, envs ∈ l → x ∈ envs → (x < n)%nat) →
  ∃ uf', iterM union_envs l uf = (Ok tt, uf') ∧ represents n (E ++ concat (map env_edges l)) uf'.
Proof.
  revert E uf. induction l as [|envs l IH]; intros E uf Hr Hx.
  - exists uf. by rewrite app_nil_r.
  - destruct (represents_envs E uf envs Hr) as (uf1 & Hrun & Hr1); [intros; eapply Hx; [by left|done]|].
    destruct (IH _ _ Hr1) as (uf2 & Hrun2 & Hr2); [intros; eapply Hx; [by right|done]|].
    exists uf2. cbn [iterM map concat]. rewrite (SE_bind_run _ _ _ _ _ Hrun). split; [done|].
    by rewrite <-app_assoc in Hr2.
Qed.

Lemma find_all_spec uf xs :
  uf_inv n uf → (∀ x, x ∈ xs → (x < n)%nat) →
  ∃ rs uf', find_all xs uf = (Ok rs, uf') ∧ Forall2 (root_of (parent uf)) xs rs.
Proof.
  revert uf. induction xs as [|x xs IH]; intros uf Hinv Hx; [by exists [], uf|].
  destruct (find_spec n uf x Hinv) as (r & p & Hrun & Hinv1 & Hroot & Hkept); [apply Hx; by left|].
  destruct (IH _ Hinv1) as (rs & uf2 & Hrun2 & Hrs); [intros; apply Hx; by right|].
  exists (r :: rs), uf2. cbn [find_all]. rewrite (SE_bind_run _ _ _ _ _ Hrun), (SE_bind_run _ _ _ _ _ Hrun2).
  split; [done|]. constructor; [done|]. apply Forall2_same_length_lookup. apply Forall2_same_length_lookup in Hrs as [Hlen Hrs].
  split; [done|]. intros i y s Hy Hs. pose proof (Hrs _ _ _ Hy Hs) as Hys.
  destruct (root_total n uf y Hinv) as [s' Hs']; [apply Hx; right; by eapply list_elem_of_lookup_2|].
  by rewrite (root_functional _ _ _ _ Hys (Hkept _ _ Hs')).
Qed.
End runs.

(** * Hash maps of lists *)
Section entries.
Context {K V : Type} `{Countable K}.
Implicit Types (m : gmap K (list V)) (l : list (K * V)).
Definition push_all m l : gmap K (list V) := foldl (λ m e, entry_push e.1 e.2 m) m l.
Definition under (k : K) l : list V := (filter (λ e, e.1 = k) l).*2.

Lemma under_cons k k' v l :
  under k ((k', v) :: l) = if decide (k' = k) then v :: under k l else under k l.
Proof. unfold under. rewrite filter_cons. cbn. by case_decide. Qed.
Lemma push_all_lookup l m k : default [] (push_all m l !! k) = default [] (m !! k) ++ under k l.
Proof.
  revert m. induction l as [|[k' v] l IH]; intros m; [cbn; by rewrite app_nil_r|].
  change (push_all m ((k', v) :: l)) with (push_all (entry_push k' v m) l). rewrite IH, under_cons. unfold entry_push.
  destruct (decide (k' = k)) as [->|Hne].
  - rewrite lookup_insert_eq. cbn. by rewrite <-app_assoc.
  - by rewrite lookup_insert_ne.
Qed.
Lemma push_all_nonempty l m k v : (∀ k v, m !! k = Some v → v ≠ []) → push_all m l !! k = Some v → v ≠ [].
Proof.
  revert m. induction l as [|[k' w] l IH]; intros m Hm; [apply Hm|]. cbn. apply IH. intros j u. unfold entry_push.
  rewrite lookup_insert. case_decide; [|apply Hm]. intros [= <-]. by destruct (default [] (m !! k')).
Qed.
Lemma concat_perm (l l' : list (list V)) : l ≡ₚ l' → concat l ≡ₚ concat l'.
Proof.
  induction 1 as [|x l l' _ IH|x y l|l l' l'' _ IH1 _ IH2]; cbn; [done|by rewrite IH| |by etrans].
  rewrite !app_assoc. by rewrite (Permutation_app_comm x y).
Qed.
Lemma entry_push_values k v m :
  concat (map_to_list (entry_push k v m)).*2 ≡ₚ v :: concat (map_to_list m).*2.
Proof.
  assert (∀ w m', m' !! k = None → concat (map_to_list (<[k := w]> m')).*2 ≡ₚ w ++ concat (map_to_list m').*2) as Hins.
  { intros w m' Hm. change (w ++ concat (map_to_list m').*2) with (concat ((k, w) :: map_to_list m').*2).
    apply concat_perm, fmap_Permutation. by apply map_to_list_insert. }
  unfold entry_push. destruct (m !! k) as [w|] eqn:E; cbn.
  - rewrite <-(insert_delete_id m k w E) at 2. rewrite <-(insert_delete_eq m).
    rewrite !Hins by apply lookup_delete_eq. rewrite <-app_assoc. cbn. by rewrite <-Permutation_middle.
  - by rewrite Hins.
Qed.
Lemma push_all_values l m : concat (map_to_list (push_all m l)).*2 ≡ₚ concat (map_to_list m).*2 ++ l.*2.
Proof.
  revert m. induction l as [|[k v] l IH]; intros m; [cbn; by rewrite app_nil_r|].
  change (push_all m ((k, v) :: l)) with (push_all (entry_push k v m) l). rewrite IH, entry_push_values. cbn.
  by rewrite Permutation_middle.
Qed.
End entries.

(** * Components *)
Definition overlap (c d : Candidate) : Prop := ∃ k, k ∈ cand_pool_keys c ∧ k ∈ cand_pool_keys d.
Definition touching (candidates : list Candidate) (c d : Candidate) : Prop :=
  c ∈ candidates ∧ d ∈ candidates ∧ overlap c d.
(** Connected through submissions that share a pool. *)
Definition linked (candidates : list Candidate) : Candidate → Candidate → Prop := rtsc (touching candidates).

Section components.
Context (candidates : list Candidate).
Let n := length candidates.

Lemma pool_envs k i :
  i ∈ default [] (pool_to_envs candidates !! k) ↔ ∃ c, candidates !! i = Some c ∧ k ∈ cand_pool_keys c.
Proof.
  unfold pool_to_envs. change (foldl _ ∅ ?l) with (push_all ∅ l). rewrite push_all_lookup, lookup_empty. cbn [default app].
  unfold under. rewrite list_elem_of_fmap. setoid_rewrite list_elem_of_filter. split.
  - intros ([k' i'] & -> & Hk & Hin). cbn in Hk. subst k'.
    apply list_elem_of_In, in_concat in Hin as (l & Hl%list_elem_of_In & Hin%list_elem_of_In).
    apply elem_of_lookup_imap in Hl as (j & c & -> & Hc).
    apply list_elem_of_fmap in Hin as (k' & [= -> ->] & Hk'). by exists c.
  - intros (c & Hc & Hk). exists (k, i). split_and!; [done|done|].
    apply list_elem_of_In, in_concat. exists (map (λ k, (k, i)) (cand_pool_keys c)). split; apply list_elem_of_In.
    + apply elem_of_lookup_imap. by exists i, c.
    + apply list_elem_of_fmap. by exists k.
Qed.
Lemma pool_to_envs_nonempty k envs : pool_to_envs candidates !! k = Some envs → envs ≠ [].
Proof. apply push_all_nonempty. intros ? ?. by rewrite lookup_empty. Qed.

Context (env_values : gmap Z (list nat) → list (list nat)).
Hypothesis env_values_all : ∀ m, env_values m ≡ₚ (map_to_list m).*2.

Definition pool_edges : list (nat * nat) := concat (map env_edges (env_values (pool_to_envs candidates))).

Lemma env_value envs : envs ∈ env_values (pool_to_envs candidates) ↔ ∃ k, pool_to_envs candidates !! k = Some envs.
Proof.
  rewrite env_values_all, list_elem_of_fmap. split.
  - intros ([k v] & -> & Hin%elem_of_map_to_list). by exists k.
  - intros [k Hk%elem_of_map_to_list]. by exists (k, envs).
Qed.
Lemma env_in_range envs x : envs ∈ env_values (pool_to_envs candidates) → x ∈ envs → (x < n)%nat.
Proof.
  intros [k Hk]%env_value Hx. assert (x ∈ default [] (pool_to_envs candidates !! k)) as H by by rewrite Hk.
  apply pool_envs in H as (c & Hc & _). by eapply lookup_lt_Some.
Qed.

Definition overlap_at (i j : nat) : Prop :=
  ∃ c d, candidates !! i = Some c ∧ candidates !! j = Some d ∧ overlap c d.

Lemma pool_edge_overlap i j : (i, j) ∈ pool_edges → overlap_at i j.
Proof.
  unfold pool_edges. intros (l & Hl%list_elem_of_In & Hin%list_elem_of_In)%list_elem_of_In%in_concat.
  apply list_elem_of_fmap in Hl as (envs & -> & [k Hk]%env_value).
  assert (∀ x, x ∈ envs → ∃ c, candidates !! x = Some c ∧ k ∈ cand_pool_keys c) as Henv.
  { intros x Hx. apply pool_envs. by rewrite Hk. }
  destruct envs as [|h rest]; [by apply elem_of_nil in Hin|].
  apply list_elem_of_fmap in Hin as (o & [= -> ->] & Ho).
  destruct (Henv h) as (c & Hc & Hkc); [by left|]. destruct (Henv o) as (d & Hd & Hkd); [by right|].
  exists c, d. split_and!; [done|done|by exists k].
Qed.
Lemma overlap_tied i j : overlap_at i j → tied pool_edges i j.
Proof.
  intros (c & d & Hc & Hd & k & Hkc & Hkd).
  assert (i ∈ default [] (pool_to_envs candidates !! k)) as Hi by (apply pool_envs; eauto).
  assert (j ∈ default [] (pool_to_envs candidates !! k)) as Hj by (apply pool_envs; eauto).
  destruct (pool_to_envs candidates !! k) as [[|h rest]|] eqn:E; [by apply elem_of_nil in Hi| |by apply elem_of_nil in Hi].
  assert (∀ x, x ∈ h :: rest → tied pool_edges h x) as Hh.
  { intros x [->|Hx]%elem_of_cons; [reflexivity|]. apply tied_edge. unfold pool_edges.
    apply list_elem_of_In, in_concat. exists (env_edges (h :: rest)). split; apply list_elem_of_In.
    - apply list_elem_of_fmap. exists (h :: rest). split; [done|]. apply env_value. by exists k.
    - apply list_elem_of_fmap. by exists x. }
  etrans; [symmetry|]; by apply Hh.
Qed.

Context (Hdistinct : NoDup candidates).

Lemma tied_linked i j c d :
  candidates !! i = Some c → candidates !! j = Some d → tied pool_edges i j ↔ linked candidates c d.
Proof.
  intros Hc Hd. split.
  - intros H. revert c Hc. induction H as [i|i z j Hiz _ IH]; intros c Hc; [simplify_eq; reflexivity|].
    assert (∃ c' e, candidates !! i = Some c' ∧ candidates !! z = Some e ∧ sc (touching candidates) c' e) as (c' & e & Hc' & He & Hce).
    { destruct Hiz as [H|H]; apply pool_edge_overlap in H as (c1 & c2 & H1 & H2 & Ho).
      - exists c1, c2. split_and!; [done|done|]. left. split_and!; [by eapply list_elem_of_lookup_2..|done].
      - exists c2, c1. split_and!; [done|done|]. right. split_and!; [by eapply list_elem_of_lookup_2..|done]. }
    simplify_eq. eapply rtc_l; [exact Hce|]. by apply IH.
  - intros H. revert i Hc. induction H as [c|c e d Hce _ IH]; intros i Hc.
    + rewrite (NoDup_lookup _ _ _ _ Hdistinct Hc Hd). reflexivity.
    + assert (∃ z, candidates !! z = Some e) as [z Hz].
      { destruct Hce as [(_ & He & _)|(He & _)]; by apply list_elem_of_lookup_1. }
      etrans; [|by apply IH]. destruct Hce as [(_ & _ & Ho)|(_ & _ & Ho)]; [|symmetry]; apply overlap_tied; unfold overlap_at; eauto.
Qed.
End components.

(** * The commit groups of a window *)
Definition seq_lt (c d : Candidate) : Prop := cand_request_seq c < cand_request_seq d.

(** The groups are the components, each in submission order, oldest first. *)
Record component_groups (candidates : list Candidate) (groups : list (list Candidate)) : Prop := {
  cg_all : concat groups ≡ₚ candidates;
  cg_nonempty : [] ∉ groups;
  cg_members : ∀ g c d, g ∈ groups → c ∈ g → d ∈ g ↔ linked candidates c d;
  cg_sorted : ∀ g, g ∈ groups → StronglySorted seq_lt g;
  cg_order : StronglySorted (λ g h, first_seq g < first_seq h) groups;
}.

Lemma strictly_sorted {A} (key : A → Z) l :
  NoDup (key <$> l) → StronglySorted (key_le key) l → StronglySorted (λ a b, key a < key b) l.
Proof.
  intros Hnd. induction 1 as [|a l _ IH Hall]; [constructor|]. cbn in Hnd. apply NoDup_cons in Hnd as [Hna Hnd].
  constructor; [by apply IH|]. apply Forall_forall. intros b Hb. rewrite Forall_forall in Hall.
  specialize (Hall b Hb). unfold key_le in Hall. destruct (decide (key a = key b)) as [E|]; [|lia].
  destruct Hna. rewrite E. by apply list_elem_of_fmap_2.
Qed.
Lemma linked_in candidates c d : c ∈ candidates → linked candidates c d → d ∈ candidates.
Proof. intros Hc. induction 1 as [|x y z [(_ & ? & _)|(? & _)] _ IH]; auto. Qed.
Lemma first_seq_in g : g ≠ [] → ∃ c, c ∈ g ∧ first_seq g = cand_request_seq c.
Proof. destruct g as [|c g]; [done|]. intros _. exists c. split; [by left|done]. Qed.
Lemma in_concat_elem {A} (x : A) (l : list (list A)) : x ∈ concat l ↔ ∃ g, g ∈ l ∧ x ∈ g.
Proof.
  rewrite list_elem_of_In, in_concat. setoid_rewrite list_elem_of_In. done.
Qed.
(** In a list of non-empty lists with distinct members, a member determines its list. *)
Lemma concat_NoDup_same {A} (l : list (list A)) g h x :
  NoDup (concat l) → g ∈ l → h ∈ l → x ∈ g → x ∈ h → g = h.
Proof.
  induction l as [|k l IH]; [by intros _ ?%elem_of_nil|]. cbn. intros (H1 & H2 & H3)%NoDup_app.
  intros [->|Hg]%elem_of_cons [->|Hh]%elem_of_cons Hxg Hxh; [done|..|by apply IH].
  - destruct (H2 x Hxg). apply in_concat_elem. eauto.
  - destruct (H2 x Hxh). apply in_concat_elem. eauto.
Qed.
Lemma concat_NoDup_lists {A} (l : list (list A)) : NoDup (concat l) → [] ∉ l → NoDup l.
Proof.
  induction l as [|k l IH]; [constructor|]. cbn. intros (H1 & H2 & H3)%NoDup_app Hne.
  constructor; [|apply IH; [done|]; intros H; apply Hne; by right].
  intros Hk. destruct k as [|x k]; [apply Hne; by left|].
  destruct (H2 x); [by left|]. apply in_concat_elem. exists (x :: k). split; [done|by left].
Qed.

Lemma concat_NoDup_elem {A} (l : list (list A)) g : NoDup (concat l) → g ∈ l → NoDup g.
Proof.
  induction l as [|k l IH]; [by intros _ ?%elem_of_nil|]. cbn. intros (? & _ & ?)%NoDup_app.
  intros [->|?]%elem_of_cons; auto.
Qed.

Section groups.
Context (candidates : list Candidate) (Hseqs : NoDup (cand_request_seq <$> candidates)).

Lemma seqs_distinct c d :
  c ∈ candidates → d ∈ candidates → cand_request_seq c = cand_request_seq d → c = d.
Proof.
  intros [i Hi]%list_elem_of_lookup_1 [j Hj]%list_elem_of_lookup_1 E.
  assert (i = j) as ->; [|congruence]. eapply (NoDup_lookup _ _ _ (cand_request_seq c) Hseqs).
  - by rewrite list_lookup_fmap, Hi.
  - by rewrite list_lookup_fmap, Hj, E.
Qed.
Lemma candidates_NoDup : NoDup candidates.
Proof. by apply (NoDup_fmap_1 cand_request_seq). Qed.

Lemma sorted_members_eq g h :
  (∀ c, c ∈ g → c ∈ candidates) → StronglySorted seq_lt g → StronglySorted seq_lt h →
  (∀ c, c ∈ g ↔ c ∈ h) → g = h.
Proof.
  intros Hg Sg Sh Hmem.
  assert (∀ k, StronglySorted seq_lt k → NoDup k) as Hnd.
  { induction 1 as [|a k _ IH Hall]; constructor; [|done]. intros Ha. rewrite Forall_forall in Hall.
    specialize (Hall a Ha). unfold seq_lt in Hall. lia. }
  apply (StronglySorted_unique_strong seq_lt); [|done|done|by apply NoDup_Permutation; auto].
  unfold seq_lt. intros. lia.
Qed.

Lemma component_groups_unique G H :
  component_groups candidates G → component_groups candidates H → G = H.
Proof.
  intros HG HH. assert (∀ G H, component_groups candidates G → component_groups candidates H → ∀ g, g ∈ G → g ∈ H) as Hsub.
  { clear. intros G H HG HH g Hg.
    assert (g ≠ []) as Hne by (intros ->; by apply (cg_nonempty _ _ HG)).
    assert (∀ c, c ∈ g → c ∈ candidates) as Hgc.
    { intros c Hc. rewrite <-(cg_all _ _ HG). apply in_concat_elem. eauto. }
    destruct (first_seq_in g Hne) as (c & Hc & _). pose proof (Hgc c Hc) as Hcc.
    rewrite <-(cg_all _ _ HH) in Hcc. apply in_concat_elem in Hcc as (h & Hh & Hch).
    rewrite (sorted_members_eq g h); [done|done|by apply (cg_sorted _ _ HG)|by apply (cg_sorted _ _ HH)|].
    intros d. by rewrite (cg_members _ _ HG g c d), (cg_members _ _ HH h c d). }
  assert (∀ G, component_groups candidates G → NoDup G) as Hnd.
  { intros K HK. apply concat_NoDup_lists; [rewrite (cg_all _ _ HK); apply candidates_NoDup|apply (cg_nonempty _ _ HK)]. }
  apply (StronglySorted_unique_strong (λ g h, first_seq g < first_seq h)).
  - intros. lia.
  - apply (cg_order _ _ HG).
  - apply (cg_order _ _ HH).
  - apply NoDup_Permutation; [by apply Hnd..|]. intros g. split; by apply Hsub.
Qed.

(** Sorting the members of each group and then the groups. *)
Lemma sorted_groups groups :
  concat groups ≡ₚ candidates → [] ∉ groups →
  (∀ g c d, g ∈ groups → c ∈ g → d ∈ g ↔ linked candidates c d) →
  component_groups candidates (sort_by_key first_seq (map (sort_by_key cand_request_seq) groups)) ∧
  [] ∉ map (sort_by_key cand_request_seq) groups.
Proof.
  intros Hall Hne Hmem. set (sorted := map (sort_by_key cand_request_seq) groups).
  assert (∀ g, g ∈ sorted → ∃ g0, g0 ∈ groups ∧ g = sort_by_key cand_request_seq g0 ∧ g ≡ₚ g0) as Hs.
  { intros g (g0 & -> & ?)%list_elem_of_fmap. exists g0. split_and!; [done|done|]. apply sort_by_key_Permutation. }
  assert (concat sorted ≡ₚ candidates) as Hcs.
  { rewrite <-Hall. unfold sorted. clear. induction groups as [|g gs IH]; cbn; [done|].
    by rewrite IH, sort_by_key_Permutation. }
  assert ([] ∉ sorted) as Hne'.
  { intros (g0 & Hg0 & E & P)%Hs. apply Hne. by apply Permutation_nil_l in P as <-. }
  assert (NoDup (first_seq <$> sorted)) as Hfirst.
  { apply NoDup_fmap_2_strong.
    - intros g h Hg Hh E. assert (g ≠ []) as Hg0 by congruence. assert (h ≠ []) as Hh0 by congruence.
      destruct (first_seq_in g Hg0) as (c & Hc & Ec), (first_seq_in h Hh0) as (d & Hd & Ed).
      assert (∀ k x, k ∈ sorted → x ∈ k → x ∈ candidates) as Hin.
      { intros k x Hk Hx. rewrite <-Hcs. apply in_concat_elem. eauto. }
      assert (c = d) as -> by (apply seqs_distinct; [by apply (Hin g)|by apply (Hin h)|congruence]).
      eapply (concat_NoDup_same sorted); eauto. rewrite Hcs. apply candidates_NoDup.
    - apply concat_NoDup_lists; [rewrite Hcs; apply candidates_NoDup|done]. }
  split; [|done]. split.
  - rewrite <-Hcs. apply concat_perm, sort_by_key_Permutation.
  - by rewrite sort_by_key_Permutation.
  - intros g c d. rewrite sort_by_key_Permutation. intros (g0 & Hg0 & _ & P)%Hs. rewrite P. by apply Hmem.
  - intros g. rewrite sort_by_key_Permutation. intros Hg. destruct (Hs g Hg) as (g0 & Hg0 & -> & P).
    apply strictly_sorted; [|apply sort_by_key_sorted]. rewrite P.
    apply NoDup_fmap_2_strong.
    + intros c d Hc Hd. apply seqs_distinct; rewrite <-Hall; apply in_concat_elem; eauto.
    + eapply concat_NoDup_elem; [|exact Hg0]. rewrite Hall. apply candidates_NoDup.
  - apply strictly_sorted; [by rewrite sort_by_key_Permutation|apply sort_by_key_sorted].
Qed.
End groups.

(** Collecting the candidates under their roots. *)
Lemma by_root_groups candidates roots uf env_values group_values :
  NoDup (cand_request_seq <$> candidates) →
  (∀ m, env_values m ≡ₚ (map_to_list m).*2) → (∀ m, group_values m ≡ₚ (map_to_list m).*2) →
  represents (length candidates) (pool_edges candidates env_values) uf →
  Forall2 (root_of (parent uf)) (seq 0 (length candidates)) roots →
  let groups := group_values (by_root roots candidates) in
  concat groups ≡ₚ candidates ∧ [] ∉ groups ∧ ∀ g c d, g ∈ groups → c ∈ g → d ∈ g ↔ linked candidates c d.
Proof.
  intros Hseqs Hev Hgv [Hinv Hrep] Hroots groups. pose proof (candidates_NoDup _ Hseqs) as Hnd.
  pose proof (Forall2_length _ _ _ Hroots) as Hlen. rewrite length_seq in Hlen.
  assert (∀ i r, roots !! i = Some r → root_of (parent uf) i r) as Hroot.
  { intros i r Hi. pose proof (lookup_lt_Some _ _ _ Hi) as Hlt. eapply Forall2_lookup_lr; [exact Hroots| |exact Hi].
    apply lookup_seq. lia. }
  assert (∀ g, g ∈ groups → ∃ r, g = under r (zip roots candidates) ∧ g ≠ []) as Hg.
  { intros g. unfold groups. rewrite Hgv, list_elem_of_fmap. intros ([r g'] & -> & Hin%elem_of_map_to_list).
    exists r. cbn. split.
    - pose proof (push_all_lookup (zip roots candidates) ∅ r) as E. unfold push_all in E. unfold by_root in Hin.
      rewrite Hin, lookup_empty in E. exact E.
    - eapply push_all_nonempty; [|exact Hin]. intros ? ?. by rewrite lookup_empty. }
  assert (∀ r d, d ∈ under r (zip roots candidates) ↔ ∃ j, candidates !! j = Some d ∧ roots !! j = Some r) as Hunder.
  { intros r d. unfold under. rewrite list_elem_of_fmap. setoid_rewrite list_elem_of_filter. split.
    - intros ([r' d'] & -> & E & [j Hj]%list_elem_of_lookup_1). cbn in E. subst r'.
      apply lookup_zip_Some in Hj as [? ?]. by exists j.
    - intros (j & Hd & Hr). exists (r, d). split_and!; [done|done|]. eapply list_elem_of_lookup_2, lookup_zip_Some; eauto. }
  split_and!.
  - unfold groups. rewrite (concat_perm _ _ (Hgv _)). unfold by_root. change (foldl _ ∅ ?l) with (push_all ∅ l).
    rewrite push_all_values, map_to_list_empty. cbn. rewrite snd_zip by lia. done.
  - intros Hin. by apply Hg in Hin as (? & _ & ?).
  - intros g c d Hin Hc. destruct (Hg g Hin) as (r & -> & _). apply Hunder in Hc as (i & Hci & Hri).
    pose proof (lookup_lt_Some _ _ _ Hci) as Hi. rewrite Hunder. split.
    + intros (j & Hdj & Hrj). rewrite <-(tied_linked candidates env_values Hev Hnd i j) by done.
      apply Hrep; [done|by eapply lookup_lt_Some|]. exists r. auto.
    + intros Hl. assert (d ∈ candidates) as [j Hj]%list_elem_of_lookup_1.
      { eapply linked_in; [|exact Hl]. by eapply list_elem_of_lookup_2. }
      exists j. split; [done|]. pose proof (lookup_lt_Some _ _ _ Hj) as Hjn.
      destruct (lookup_lt_is_Some_2 roots j) as [r' Hr']; [lia|]. rewrite Hr'. f_equal.
      rewrite <-(tied_linked candidates env_values Hev Hnd i j), <-Hrep in Hl by done.
      by apply (joined_roots uf i j r r') in Hl; [|apply Hroot..].
Qed.

(** C12: whatever order the hash maps iterate in, affinity grouping terminates
    without a panic and returns exactly the connected components of "touches a
    common pool" among the pending submissions: every submission in one group,
    members in submission order, groups oldest first, and no other arrangement
    qualifies. *)
Theorem affinity_groups_are_components env_values group_values candidates :
  (∀ m, env_values m ≡ₚ (map_to_list m).*2) → (∀ m, group_values m ≡ₚ (map_to_list m).*2) →
  NoDup (cand_request_seq <$> candidates) → Z.of_nat (length candidates) < 2 ^ 32 →
  ∃ groups, affinity_group env_values group_values candidates = Ok groups ∧
    component_groups candidates groups ∧ ∀ other, component_groups candidates other → other = groups.
Proof.
  intros Hev Hgv Hseqs Hn. unfold affinity_group. case_decide as H0.
  { apply length_zero_iff_nil in H0 as ->. exists []. assert (component_groups [] []) as Hnil.
    { split; [done|by intros ?%elem_of_nil|by intros ??? ?%elem_of_nil|by intros ? ?%elem_of_nil|constructor]. }
    split_and!; [done|done|]. intros other Ho. by eapply component_groups_unique. }
  destruct (represents_all (length candidates) Hn [] (uf_new (length candidates)) (env_values (pool_to_envs candidates)))
    as (uf & Hrun & Hrep); [apply represents_new|by apply env_in_range|].
  destruct (find_all_spec (length candidates) uf (seq 0 (length candidates))) as (roots & uf' & Hrun' & Hroots).
  { apply Hrep. } { intros x Hx%elem_of_seq. lia. }
  rewrite (SE_bind_run _ _ _ _ _ Hrun), Hrun'.
  destruct (by_root_groups candidates roots uf env_values group_values) as (Ha & Hne & Hm); try done.
  destruct (sorted_groups candidates Hseqs _ Ha Hne Hm) as [Hcg Hne'].
  rewrite decide_False by done. eexists. split_and!; [done|done|]. intros other Ho. by eapply component_groups_unique.
Qed.
