(* ===== verification/V3PoolSeq.v ===== *)
(** Per-pool sequence numbers of Path B (ledger-routed): the table of shmem.rs,
    its use by the router when it emits a commit group (router.rs) and by the
    committers, who wait for their predecessors before they lock the pools and
    advance the table when they are done (committer.rs).  The specification is the
    order of the commits of each order-sensitive pool. *)
From S2P Require Import Prelude V3Arena.

(** * The table (shmem.rs)

    Two zero-filled arrays of atomics, indexed by pool id. *)
Record PoolSeqTable := {
  latest_assigned : gmap Z Z;
  latest_committed : gmap Z Z;
}.
Definition POOL_SEQ_TABLE_SIZE : Z := 16384.
Definition zeroed_table : PoolSeqTable := {| latest_assigned := ∅; latest_committed := ∅ |}.
Definition cell (m : gmap Z Z) (i : Z) : Z := default 0 (m !! i).

Definition pool_seq_idx (pool_id : Z) : Res string Z :=
  if pool_id <=? 0 then Err "tm09: invalid pool_id (must be > 0)"
  else if POOL_SEQ_TABLE_SIZE <=? pool_id then Err "tm09: pool_id exceeds POOL_SEQ_TABLE_SIZE"
  else Ok pool_id.

Definition assign_pool_seq (pool_id : Z) : SE PoolSeqTable string Z :=
  idx ← lift (pool_seq_idx pool_id);
  t ← gets id;
  let next := wrap_u64 (cell (latest_assigned t) idx + 1) in
  modify (λ t, {| latest_assigned := <[idx := next]> (latest_assigned t); latest_committed := latest_committed t |});;
  mret next.

Definition pool_seq_committed_load (pool_id : Z) (t : PoolSeqTable) : Z :=
  match pool_seq_idx pool_id with Ok idx => cell (latest_committed t) idx | Err _ => 0 end.

(** The compare-exchange loop takes effect at the exchange that succeeds. *)
Definition pool_seq_commit_advance (pool_id new_seq : Z) (t : PoolSeqTable) : PoolSeqTable :=
  match pool_seq_idx pool_id with
  | Err _ => t
  | Ok idx =>
      if cell (latest_committed t) idx <? new_seq
      then {| latest_assigned := latest_assigned t; latest_committed := <[idx := new_seq]> (latest_committed t) |}
      else t
  end.

(** * The router's side

    [pool_is_order_sensitive] reads the cache of cost methods. *)
Definition is_order_sensitive_method (method : string) : bool :=
  bool_decide (method ∈ ["fifo"; "lifo"; "specific"]%string).

Section router.
Context (pool_is_order_sensitive : Z → bool).

(** [assign_pool_seq(pid).unwrap_or(0)] for the order-sensitive pools of a group. *)
Fixpoint assign_pool_seqs (pools : list Z) (t : PoolSeqTable) : list Z * PoolSeqTable :=
  match pools with
  | [] => ([], t)
  | pid :: pools =>
      let '(seq, t) :=
        if pool_is_order_sensitive pid
        then match assign_pool_seq pid t with (Ok s, t) => (s, t) | (Err _, t) => (0, t) end
        else (0, t) in
      let '(seqs, t) := assign_pool_seqs pools t in
      (seq :: seqs, t)
  end.
End router.

(** The loop body shared by [rollforward_failed_pool_seqs] and
    [advance_committed_pool_seqs]. *)
Definition advance_pool_seqs (keyed : list (Z * Z)) (t : PoolSeqTable) : PoolSeqTable :=
  foldl (λ t e, if 0 <? e.2 then pool_seq_commit_advance e.1 e.2 t else t) t keyed.
Definition rollforward_failed_pool_seqs (pool_sorted pool_seqs : list Z) : PoolSeqTable → PoolSeqTable :=
  advance_pool_seqs (zip pool_sorted pool_seqs).

(** * The committer's side

    A poll of the wait loop reads the table and then the clock; when the observed
    polls run out the wait is still going on. *)
Inductive WaitEnd : Type := WaitTimeout (pool_id predecessor : Z) | WaitGoingOn.
Fixpoint wait_pool (pid predecessor deadline_ns : Z) (polls : list (PoolSeqTable * Z))
    : Res WaitEnd (list (PoolSeqTable * Z)) :=
  match polls with
  | [] => Err WaitGoingOn
  | (t, now_ns) :: polls =>
      if predecessor <=? pool_seq_committed_load pid t then Ok polls
      else if deadline_ns <? now_ns then Err (WaitTimeout pid predecessor)
      else wait_pool pid predecessor deadline_ns polls
  end.
Fixpoint wait_for_predecessor_pool_seqs (keyed : list (Z * Z)) (deadline_ns : Z)
    (polls : list (PoolSeqTable * Z)) : Res WaitEnd unit :=
  match keyed with
  | [] => Ok tt
  | (pid, my_seq) :: keyed =>
      if my_seq =? 0 then wait_for_predecessor_pool_seqs keyed deadline_ns polls else
      polls ← wait_pool pid (Z.max 0 (my_seq - 1)) deadline_ns polls;
      wait_for_predecessor_pool_seqs keyed deadline_ns polls
  end.
Definition advance_committed_pool_seqs : list (Z * Z) → PoolSeqTable → PoolSeqTable := advance_pool_seqs.

(** * Table laws *)
Definition committed (t : PoolSeqTable) (p : Z) : Z := cell (latest_committed t) p.
Definition assigned (t : PoolSeqTable) (p : Z) : Z := cell (latest_assigned t) p.
Definition in_table (p : Z) : Prop := 0 < p < POOL_SEQ_TABLE_SIZE.
#[global] Instance in_table_dec p : Decision (in_table p).
Proof. unfold in_table. apply _. Defined.

Lemma pool_seq_idx_Ok p i : pool_seq_idx p = Ok i ↔ i = p ∧ in_table p.
Proof.
  unfold pool_seq_idx, in_table. destruct (Z.leb_spec p 0), (Z.leb_spec POOL_SEQ_TABLE_SIZE p); split;
    try intros [= <-]; try intros [-> ?]; try done; lia.
Qed.
Lemma pool_seq_idx_in p : in_table p → pool_seq_idx p = Ok p.
Proof. intros. by apply pool_seq_idx_Ok. Qed.
Lemma pool_seq_idx_out p : ¬ in_table p → ∃ e, pool_seq_idx p = Err e.
Proof. intros H. destruct (pool_seq_idx p) as [i|e] eqn:E; [|eauto]. apply pool_seq_idx_Ok in E as [_ ?]. done. Qed.

Lemma load_committed p t : in_table p → pool_seq_committed_load p t = committed t p.
Proof. intros H. unfold pool_seq_committed_load. by rewrite pool_seq_idx_in. Qed.

(** Advancing takes the maximum, in one cell. *)
Lemma advance_one p s t q :
  committed (pool_seq_commit_advance p s t) q =
    (if decide (q = p ∧ in_table p) then Z.max (committed t q) s else committed t q) ∧
  assigned (pool_seq_commit_advance p s t) q = assigned t q.
Proof.
  unfold pool_seq_commit_advance. destruct (decide (in_table p)) as [Hp|Hp].
  - rewrite pool_seq_idx_in by done. unfold committed, assigned, cell.
    destruct (Z.ltb_spec (default 0 (latest_committed t !! p)) s); cbn; (split; [|done]).
    + destruct (decide (q = p ∧ in_table p)) as [[-> _]|Hne]; [rewrite lookup_insert_eq; cbn; lia|].
      rewrite lookup_insert_ne; [done|]. intros ->. by destruct Hne.
    + case_decide as E; [destruct E as [-> _]; lia|done].
  - destruct (pool_seq_idx_out p Hp) as [e ->]. split; [|done]. by rewrite decide_False by tauto.
Qed.
Lemma assign_one p t :
  in_table p → 0 ≤ assigned t p < 2 ^ 64 - 1 →
  ∃ t', assign_pool_seq p t = (Ok (assigned t p + 1), t') ∧
    (∀ q, assigned t' q = if decide (q = p) then assigned t p + 1 else assigned t q) ∧
    ∀ q, committed t' q = committed t q.
Proof.
  intros Hp Ha. unfold assign_pool_seq. rewrite pool_seq_idx_in by done.
  unfold lift, gets, modify, mbind, SE_bind, id, wrap_u64. cbv beta iota. fold (assigned t p). rewrite Z.mod_small by lia.
  eexists. split; [reflexivity|]. split; [|done]. intros q. unfold assigned at 1, cell. cbn.
  case_decide as E; [subst q; by rewrite lookup_insert_eq|by rewrite lookup_insert_ne].
Qed.

(** * The ordering protocol

    The groups in flight and those that committed, oldest commit first; each with
    its pools and their sequence numbers. *)
Record Orders := {
  ord_table : PoolSeqTable;
  ord_in_flight : list (list (Z * Z));
  ord_history : list (list (Z * Z));
}.
Definition no_orders : Orders := {| ord_table := zeroed_table; ord_in_flight := []; ord_history := [] |}.

Inductive OrderEvent : Type :=
| Emit (pools : list Z)           (* the router publishes a group on these pools *)
| EmitFailed (pools : list Z)     (* no arena block or no queue slot: roll forward *)
| Commit (i : nat)                (* the i-th group in flight waits, commits and advances *)
| Leave (i : nat).                (* ... or ends before it waits or in a timeout *)

Section protocol.
Context (pool_is_order_sensitive : Z → bool).

Definition order_step (ev : OrderEvent) (o : Orders) : option Orders :=
  match ev with
  | Emit pools =>
      if decide (NoDup pools) then
        let '(seqs, t) := assign_pool_seqs pool_is_order_sensitive pools (ord_table o) in
        Some {| ord_table := t; ord_in_flight := ord_in_flight o ++ [zip pools seqs]; ord_history := ord_history o |}
      else None
  | EmitFailed pools =>
      if decide (NoDup pools) then
        let '(seqs, t) := assign_pool_seqs pool_is_order_sensitive pools (ord_table o) in
        Some {| ord_table := rollforward_failed_pool_seqs pools seqs t; ord_in_flight := ord_in_flight o;
                ord_history := ord_history o |}
      else None
  | Commit i =>
      g ← ord_in_flight o !! i;
      match wait_for_predecessor_pool_seqs g 0 (map (λ _, (ord_table o, 0)) g) with
      | Ok _ => Some {| ord_table := advance_committed_pool_seqs g (ord_table o);
                        ord_in_flight := delete i (ord_in_flight o); ord_history := ord_history o ++ [g] |}
      | Err _ => None
      end
  | Leave i =>
      g ← ord_in_flight o !! i;
      Some {| ord_table := ord_table o; ord_in_flight := delete i (ord_in_flight o); ord_history := ord_history o |}
  end.
Fixpoint order_run (evs : list OrderEvent) (o : Orders) : option Orders :=
  match evs with
  | [] => Some o
  | ev :: evs => o ← order_step ev o; order_run evs o
  end.

Definition rolls_forward (ev : OrderEvent) : Prop := match ev with EmitFailed _ => True | _ => False end.
#[global] Instance rolls_forward_dec ev : Decision (rolls_forward ev).
Proof. destruct ev; apply _. Defined.

(** ** Sequence numbers of one pool *)
Definition seqs_in (p : Z) (g : list (Z * Z)) : list Z := (filter (λ e, e.1 = p ∧ 0 < e.2) g).*2.
Definition seqs_of (p : Z) (gs : list (list (Z * Z))) : list Z := concat (map (seqs_in p) gs).

Lemma seqs_in_cons p e g :
  seqs_in p (e :: g) = if decide (e.1 = p ∧ 0 < e.2) then e.2 :: seqs_in p g else seqs_in p g.
Proof. unfold seqs_in. rewrite filter_cons. by case_decide. Qed.
Lemma elem_of_seqs_in p s g : s ∈ seqs_in p g ↔ (p, s) ∈ g ∧ 0 < s.
Proof.
  unfold seqs_in. rewrite list_elem_of_fmap. setoid_rewrite list_elem_of_filter. split.
  - by intros ([q s'] & -> & [<- ?] & ?).
  - intros [? ?]. by exists (p, s).
Qed.
Lemma seqs_of_app p gs hs : seqs_of p (gs ++ hs) = seqs_of p gs ++ seqs_of p hs.
Proof. unfold seqs_of. by rewrite map_app, concat_app. Qed.
Lemma seqs_of_delete p gs i g : gs !! i = Some g → seqs_of p gs ≡ₚ seqs_in p g ++ seqs_of p (delete i gs).
Proof.
  intros Hi. rewrite delete_take_drop. rewrite <-(take_drop_middle gs i g Hi) at 1.
  rewrite !seqs_of_app. unfold seqs_of at 2. cbn [map concat]. rewrite app_assoc, (Permutation_app_comm _ (seqs_in p g)).
  by rewrite <-app_assoc.
Qed.
(** A group names a pool at most once. *)
Lemma seqs_in_unique p g : NoDup g.*1 → seqs_in p g = [] ∨ ∃ s, seqs_in p g = [s] ∧ (p, s) ∈ g ∧ 0 < s.
Proof.
  induction g as [|[q s] g IH]; [by left|]. rewrite fmap_cons. intros [Hq Hnd]%NoDup_cons. rewrite seqs_in_cons. cbn [fst snd].
  case_decide as E.
  - destruct E as [-> Hs]. right. exists s. split_and!; [|by left|done]. f_equal.
    destruct (seqs_in p g) as [|s' l] eqn:E; [done|]. assert (s' ∈ seqs_in p g) as [Hin _]%elem_of_seqs_in by (rewrite E; by left).
    destruct Hq. by apply (list_elem_of_fmap_2 fst) in Hin.
  - destruct (IH Hnd) as [->|(s' & -> & ? & ?)]; [by left|]. right. exists s'. split_and!; [done|by right|done].
Qed.

Lemma advance_seqs p g t :
  in_table p → committed (advance_pool_seqs g t) p = foldl Z.max (committed t p) (seqs_in p g).
Proof.
  intros Hp. revert t. induction g as [|[q s] g IH]; intros t; [done|]. rewrite seqs_in_cons. cbn [advance_pool_seqs foldl fst snd].
  change (foldl _ ?t g) with (advance_pool_seqs g t). rewrite IH. destruct (Z.ltb_spec 0 s) as [Hs|Hs].
  - rewrite (proj1 (advance_one _ _ _ _)). repeat case_decide; try (cbn; naive_solver); done.
  - rewrite decide_False by lia. done.
Qed.
Lemma advance_assigned g t p : assigned (advance_pool_seqs g t) p = assigned t p.
Proof.
  revert t. induction g as [|[q s] g IH]; intros t; [done|]. cbn [advance_pool_seqs foldl fst snd].
  change (foldl _ ?t g) with (advance_pool_seqs g t). rewrite IH. case_match; [|done]. apply advance_one.
Qed.

(** What the wait checks, with the table read once for each pool. *)
Lemma wait_ready g t polls :
  wait_for_predecessor_pool_seqs g 0 polls = Ok tt → Forall (λ e, e = (t, 0)) polls →
  ∀ p s, (p, s) ∈ g → 0 < s → s - 1 ≤ pool_seq_committed_load p t.
Proof.
  revert polls. induction g as [|[q r] g IH]; intros polls Hw Hp p s Hin Hs; [by apply elem_of_nil in Hin|].
  cbn in Hw. destruct (Z.eqb_spec r 0) as [->|Hr].
  { apply elem_of_cons in Hin as [[= -> ->]|Hin]; [lia|]. by eapply IH. }
  destruct polls as [|[t' now] polls]; [done|]. apply Forall_cons in Hp as [[= -> ->] Hp]. cbn in Hw.
  destruct (Z.leb_spec (Z.max 0 (r - 1)) (pool_seq_committed_load q t)) as [Hle|Hgt]; cbn in Hw.
  - apply elem_of_cons in Hin as [[= -> ->]|Hin]; [lia|]. by eapply IH.
  - exfalso. assert (∀ polls, Forall (λ e, e = (t, 0)) polls → ∀ l, wait_pool q (Z.max 0 (r - 1)) 0 polls ≠ Ok l) as Hno.
    { clear -Hgt. induction 1 as [|x l -> _ IH]; intros k; cbn; [done|]. rewrite (proj2 (Z.leb_gt _ _)) by lia. apply IH. }
    destruct (wait_pool _ _ _ polls) as [l|e] eqn:E; [by eapply Hno|done].
Qed.

(** ** Assignment *)
Definition sequenced (p : Z) : Prop := pool_is_order_sensitive p = true ∧ in_table p.
#[global] Instance sequenced_dec p : Decision (sequenced p).
Proof. unfold sequenced. apply _. Defined.

Lemma assign_step p t :
  (in_table p → 0 ≤ assigned t p < 2 ^ 64 - 1) →
  ∃ t', (if pool_is_order_sensitive p
         then match assign_pool_seq p t with (Ok s, t) => (s, t) | (Err _, t) => (0, t) end
         else (0, t)) = (if decide (sequenced p) then assigned t p + 1 else 0, t') ∧
    (∀ q, assigned t' q = if decide (q = p ∧ sequenced p) then assigned t p + 1 else assigned t q) ∧
    ∀ q, committed t' q = committed t q.
Proof.
  intros Ha. destruct (decide (sequenced p)) as [[Hs Hp]|Hns].
  - rewrite Hs. destruct (assign_one p t Hp (Ha Hp)) as (t' & -> & H1 & H2). exists t'. split_and!; [done| |done].
    intros q. rewrite H1. destruct (decide (q = p)) as [->|Hq]; [by rewrite decide_True|]. rewrite decide_False; [done|]. by intros [? _].
  - exists t. assert (∀ q, ¬ (q = p ∧ sequenced p)) as Hq by tauto.
    split_and!; [|intros q; by rewrite decide_False by apply Hq|done].
    destruct (pool_is_order_sensitive p) eqn:Hs; [|done].
    destruct (pool_seq_idx_out p) as [e He]; [by intros ?; apply Hns|].
    unfold assign_pool_seq, lift, mbind, SE_bind. by rewrite He.
Qed.

(** Every sequenced pool of the group gets the next number of its own. *)
Lemma assign_pool_seqs_spec pools t :
  NoDup pools → (∀ p, p ∈ pools → in_table p → 0 ≤ assigned t p < 2 ^ 64 - 1) →
  ∃ seqs t', assign_pool_seqs pool_is_order_sensitive pools t = (seqs, t') ∧
    zip pools seqs = map (λ p, (p, if decide (sequenced p) then assigned t p + 1 else 0)) pools ∧
    (∀ q, assigned t' q = if decide (q ∈ pools ∧ sequenced q) then assigned t q + 1 else assigned t q) ∧
    ∀ q, committed t' q = committed t q.
Proof.
  revert t. induction pools as [|p pools IH]; intros t Hnd Ha.
  { exists [], t. split_and!; [done|done| |done]. intros q. rewrite decide_False; [done|]. by intros [?%elem_of_nil _]. }
  apply NoDup_cons in Hnd as [Hp Hnd].
  destruct (assign_step p t) as (t1 & H1 & Ha1 & Hc1); [apply Ha; by left|].
  assert (∀ q, q ∈ pools → assigned t1 q = assigned t q) as Hsame.
  { intros q Hq. rewrite Ha1, decide_False; [done|]. intros [-> _]. done. }
  destruct (IH t1 Hnd) as (seqs & t2 & H2 & Hz & Ha2 & Hc2).
  { intros q Hq. rewrite Hsame by done. apply Ha. by right. }
  exists ((if decide (sequenced p) then assigned t p + 1 else 0) :: seqs), t2. cbn [assign_pool_seqs]. rewrite H1, H2.
  split_and!; [done|..].
  - cbn [zip zip_with map]. f_equal. rewrite Hz. apply map_ext_in. intros q Hq%list_elem_of_In. by rewrite Hsame.
  - intros q. rewrite Ha2. destruct (decide (q ∈ pools)) as [Hq|Hq].
    + rewrite Hsame by done. repeat case_decide; set_solver.
    + rewrite (decide_False (P := q ∈ pools ∧ sequenced q)) by tauto. rewrite Ha1. repeat case_decide; set_solver.
  - intros q. by rewrite Hc2, Hc1.
Qed.

(** What a new group adds to the numbers of a pool. *)
Lemma seqs_in_new p pools t :
  NoDup pools → (∀ q, in_table q → 0 ≤ assigned t q) →
  seqs_in p (map (λ p, (p, if decide (sequenced p) then assigned t p + 1 else 0)) pools) =
    if decide (p ∈ pools ∧ sequenced p) then [assigned t p + 1] else [].
Proof.
  intros Hnd Ha. induction pools as [|q pools IH].
  { rewrite decide_False; [done|]. by intros [?%elem_of_nil _]. }
  apply NoDup_cons in Hnd as [Hq Hnd]. cbn [map]. rewrite seqs_in_cons, IH by done. cbn [fst snd].
  destruct (decide (q = p)) as [->|Hne].
  - rewrite (decide_False (P := p ∈ pools ∧ sequenced p)) by tauto. destruct (decide (sequenced p)) as [Hs|Hs].
    + pose proof (Ha p (proj2 Hs)). rewrite decide_True by (split; [done|lia]). rewrite decide_True; [done|]. split; [by left|done].
    + rewrite decide_False by lia. by rewrite decide_False by tauto.
  - rewrite (decide_False (P := q = p ∧ _)) by tauto. repeat case_decide; set_solver.
Qed.

(** ** The order of the commits *)
Record pool_inv (n : Z) (o : Orders) (p : Z) : Prop := {
  pi_range : 0 ≤ committed (ord_table o) p ≤ assigned (ord_table o) p ∧ assigned (ord_table o) p ≤ n;
  pi_history : seqs_of p (ord_history o) = seqZ 1 (committed (ord_table o) p);
  pi_distinct : NoDup (seqs_of p (ord_in_flight o));
  pi_pending : ∀ s, s ∈ seqs_of p (ord_in_flight o) → committed (ord_table o) p < s ≤ assigned (ord_table o) p;
}.
Record ord_inv (n : Z) (o : Orders) : Prop := {
  oi_groups : ∀ g, g ∈ ord_in_flight o → NoDup g.*1;
  oi_pools : ∀ p, in_table p → pool_inv n o p;
}.

Lemma no_orders_inv : ord_inv 0 no_orders.
Proof.
  split; [by intros g ?%elem_of_nil|]. intros p _. split; cbn.
  - unfold committed, assigned, cell, zeroed_table. cbn. rewrite !lookup_empty. done.
  - unfold committed, cell, zeroed_table. cbn. by rewrite lookup_empty.
  - constructor.
  - by intros s ?%elem_of_nil.
Qed.

Lemma emit_spec n o pools :
  ord_inv n o → n < 2 ^ 64 - 1 → NoDup pools →
  ∃ o', order_step (Emit pools) o = Some o' ∧ ord_history o' = ord_history o ∧
    (∀ p, committed (ord_table o') p = committed (ord_table o) p) ∧
    (∀ p, assigned (ord_table o') p =
       if decide (p ∈ pools ∧ sequenced p) then assigned (ord_table o) p + 1 else assigned (ord_table o) p) ∧
    (∀ p, seqs_of p (ord_in_flight o') =
       seqs_of p (ord_in_flight o) ++ if decide (p ∈ pools ∧ sequenced p) then [assigned (ord_table o) p + 1] else []) ∧
    ∀ g, g ∈ ord_in_flight o' → g ∈ ord_in_flight o ∨ g.*1 = pools.
Proof.
  intros [Hg Hp] Hn Hnd.
  destruct (assign_pool_seqs_spec pools (ord_table o) Hnd) as (seqs & t' & Hrun & Hz & Ha & Hc).
  { intros p _ Hin. pose proof (pi_range _ _ _ (Hp p Hin)). lia. }
  eexists. cbn [order_step]. rewrite decide_True, Hrun by done. split; [reflexivity|]. cbn [ord_history ord_table ord_in_flight].
  split_and!; [done|done|done|..].
  - intros p. rewrite seqs_of_app. f_equal. rewrite Hz. unfold seqs_of. cbn [map concat]. rewrite app_nil_r.
    apply seqs_in_new; [done|]. intros q Hq. pose proof (pi_range _ _ _ (Hp q Hq)). lia.
  - intros g [?| ->%list_elem_of_singleton]%elem_of_app; [by left|right]. rewrite Hz.
    change (map ?f ?l) with (f <$> l). rewrite <-list_fmap_compose. cbn. by rewrite list_fmap_id.
Qed.
Lemma emit_inv n o pools o' :
  ord_inv n o → n < 2 ^ 64 - 1 → order_step (Emit pools) o = Some o' → ord_inv (n + 1) o'.
Proof.
  intros Hinv Hn Hstep. assert (NoDup pools) as Hnd by (cbn in Hstep; by case_decide).
  destruct (emit_spec n o pools Hinv Hn Hnd) as (o1 & H1 & Hh & Hc & Ha & Hs & Hg). rewrite H1 in Hstep. injection Hstep as ->.
  destruct Hinv as [Hgs Hps]. split; [intros g [?| ->]%Hg; auto|]. intros p Hp. destruct (Hps p Hp) as [R1 R2 R3 R4].
  split; rewrite ?Hc, ?Ha, ?Hh, ?Hs.
  - case_decide; lia.
  - done.
  - case_decide; [|by rewrite app_nil_r]. apply NoDup_app. split_and!; [done| |apply NoDup_singleton].
    intros s Hin ->%list_elem_of_singleton. apply R4 in Hin. lia.
  - intros s [Hin%R4|Hin]%elem_of_app; case_decide; try lia; [|by apply elem_of_nil in Hin].
    apply list_elem_of_singleton in Hin as ->. lia.
Qed.

(** A group in flight whose wait ends holds the next number of each of its pools. *)
Lemma commit_next n o i o' :
  ord_inv n o → order_step (Commit i) o = Some o' →
  ∃ g, ord_in_flight o !! i = Some g ∧ ord_in_flight o' = delete i (ord_in_flight o) ∧
    ord_history o' = ord_history o ++ [g] ∧ (∀ p, assigned (ord_table o') p = assigned (ord_table o) p) ∧
    ∀ p, in_table p →
      (seqs_in p g = [] ∧ committed (ord_table o') p = committed (ord_table o) p) ∨
      (seqs_in p g = [committed (ord_table o) p + 1] ∧ committed (ord_table o') p = committed (ord_table o) p + 1).
Proof.
  intros Hinv Hstep. cbn in Hstep. destruct (ord_in_flight o !! i) as [g|] eqn:Hi; [|done]. cbn in Hstep.
  destruct (wait_for_predecessor_pool_seqs _ _ _) as [[]|] eqn:Hw; [|done]. injection Hstep as <-. cbn.
  exists g. split_and!; [done|done|done|by intros; apply advance_assigned|]. intros p Hp.
  unfold advance_committed_pool_seqs. rewrite advance_seqs by done.
  destruct (seqs_in_unique p g) as [E|(s & E & Hin & Hs)].
  { apply (oi_groups _ _ Hinv). by eapply list_elem_of_lookup_2. }
  { left. by rewrite E. }
  right. rewrite E. pose proof (wait_ready g (ord_table o) _ Hw) as Hr. specialize (Hr ltac:(apply Forall_fmap, Forall_true; done) p s Hin Hs).
  rewrite load_committed in Hr by done. destruct (oi_pools _ _ Hinv p Hp) as [_ _ _ R4].
  assert (committed (ord_table o) p < s) as Hlt.
  { apply (R4 s). rewrite (seqs_of_delete p _ i g Hi), E. by left. }
  assert (s = committed (ord_table o) p + 1) as -> by lia. split; [done|]. cbn. lia.
Qed.
Lemma commit_inv n o i o' : ord_inv n o → order_step (Commit i) o = Some o' → ord_inv n o'.
Proof.
  intros Hinv Hstep. destruct (commit_next _ _ _ _ Hinv Hstep) as (g & Hi & Hf & Hh & Ha & Hc).
  destruct Hinv as [Hgs Hps]. split.
  { intros k Hk. rewrite Hf in Hk. apply Hgs. eapply elem_of_submseteq; [exact Hk|]. apply sublist_submseteq, sublist_delete. }
  intros p Hp. destruct (Hps p Hp) as [R1 R2 R3 R4]. specialize (Hc p Hp).
  rewrite (seqs_of_delete p _ i g Hi) in R3. apply NoDup_app in R3 as (_ & Hdis & R3).
  assert (∀ s, s ∈ seqs_of p (delete i (ord_in_flight o)) → s ∈ seqs_of p (ord_in_flight o)) as Hsub.
  { intros s Hs. rewrite (seqs_of_delete p _ i g Hi). apply elem_of_app. by right. }
  assert (seqs_in p g ≠ [] → committed (ord_table o) p + 1 ≤ assigned (ord_table o) p) as Hroom.
  { intros Hne. destruct (seqs_in p g) as [|s l] eqn:E; [done|].
    assert (s ∈ seqs_of p (ord_in_flight o)) as Hs%R4; [rewrite (seqs_of_delete p _ i g Hi), E; by left|lia]. }
  assert (seqs_of p [g] = seqs_in p g) as Hone by (unfold seqs_of; cbn [map concat]; by rewrite app_nil_r).
  split; rewrite ?Ha, ?Hf, ?Hh, ?seqs_of_app, ?Hone.
  - destruct Hc as [[_ ->]|[E ->]]; [done|]. rewrite E in Hroom. specialize (Hroom ltac:(done)). lia.
  - rewrite R2. destruct Hc as [[-> ->]|[-> ->]]; [by rewrite app_nil_r|].
    rewrite seqZ_app by lia. f_equal. rewrite Z.add_comm. done.
  - done.
  - intros s Hs. pose proof (R4 s (Hsub s Hs)). destruct Hc as [[_ ->]|[E ->]]; [done|].
    assert (s ≠ committed (ord_table o) p + 1); [|lia]. intros ->. apply (Hdis (committed (ord_table o) p + 1)); [|done].
    rewrite E. by left.
Qed.
Lemma leave_inv n o i o' : ord_inv n o → order_step (Leave i) o = Some o' → ord_inv n o'.
Proof.
  intros [Hgs Hps] Hstep. cbn in Hstep. destruct (ord_in_flight o !! i) as [g|] eqn:Hi; [|done]. injection Hstep as <-.
  split; cbn.
  { intros k Hk. apply Hgs. eapply elem_of_submseteq; [exact Hk|]. apply sublist_submseteq, sublist_delete. }
  intros p Hp. destruct (Hps p Hp) as [R1 R2 R3 R4]. rewrite (seqs_of_delete p _ i g Hi) in R3.
  apply NoDup_app in R3 as (_ & _ & R3). split; cbn; [done|done|done|].
  intros s Hs. apply R4. rewrite (seqs_of_delete p _ i g Hi). apply elem_of_app. by right.
Qed.

Lemma order_step_inv n ev o o' :
  ord_inv n o → n < 2 ^ 64 - 1 → ¬ rolls_forward ev → order_step ev o = Some o' → ord_inv (n + 1) o'.
Proof.
  intros Hinv Hn Hev Hstep.
  assert (∀ o, ord_inv n o → ord_inv (n + 1) o) as Hmono.
  { intros x [H1 H2]. split; [done|]. intros p Hp. destruct (H2 p Hp). split; auto with lia. }
  destruct ev as [pools|pools|i|i]; [by eapply emit_inv|by destruct Hev|by eapply Hmono, commit_inv|by eapply Hmono, leave_inv].
Qed.
Lemma order_run_inv evs n o o' :
  ord_inv n o → n + Z.of_nat (length evs) < 2 ^ 64 → Forall (λ ev, ¬ rolls_forward ev) evs →
  order_run evs o = Some o' → ord_inv (n + Z.of_nat (length evs)) o'.
Proof.
  revert n o. induction evs as [|ev evs IH]; intros n o Hinv Hn Hall Hrun; cbn in Hrun.
  { injection Hrun as ->. cbn. by rewrite Z.add_0_r. }
  apply Forall_cons in Hall as [Hev Hall]. destruct (order_step ev o) as [o1|] eqn:E; [|done].
  cbn [length] in *. replace (n + Z.of_nat (S (length evs))) with ((n + 1) + Z.of_nat (length evs)) by lia.
  eapply IH; [|lia|done|exact Hrun]. eapply order_step_inv; [exact Hinv|lia|done|done].
Qed.

(** What every step keeps, every run keeps. *)
Lemma order_run_keeps (P : Orders → Prop) (Q : OrderEvent → Prop) :
  (∀ ev, Q ev → ¬ rolls_forward ev) →
  (∀ n ev o o', ord_inv n o → n < 2 ^ 64 - 1 → Q ev → P o → order_step ev o = Some o' → P o') →
  ∀ evs n o o', ord_inv n o → n + Z.of_nat (length evs) < 2 ^ 64 → Forall Q evs → P o →
    order_run evs o = Some o' → P o'.
Proof.
  intros HQ Hstep evs. induction evs as [|ev evs IH]; intros n o o' Hinv Hn Hall Ho Hrun; cbn in Hrun; [by injection Hrun as <-|].
  apply Forall_cons in Hall as [Hev Hall]. destruct (order_step ev o) as [o1|] eqn:E; [|done]. cbn [length] in Hn.
  eapply (IH (n + 1)); [|lia|done| |exact Hrun].
  - eapply order_step_inv; [exact Hinv|lia|by apply HQ|done].
  - eapply Hstep; [exact Hinv|lia|done|done|done].
Qed.


(** ** A group that ends early *)
Definition given_up (p s : Z) (o : Orders) : Prop :=
  (s ∉ seqs_of p (ord_in_flight o)) ∧ (s ∉ seqs_of p (ord_history o)) ∧ (0 < s ≤ assigned (ord_table o) p).

Lemma given_up_step n p s ev o o' :
  ord_inv n o → n < 2 ^ 64 - 1 → ¬ rolls_forward ev → in_table p →
  given_up p s o → order_step ev o = Some o' → given_up p s o'.
Proof.
  intros Hinv Hn Hev Hp (H1 & H2 & H3) Hstep. destruct ev as [pools|pools|i|i]; [|by destruct Hev|..].
  - assert (NoDup pools) as Hnd by (cbn in Hstep; by case_decide).
    destruct (emit_spec n o pools Hinv Hn Hnd) as (o1 & E & Hh & Hc & Ha & Hs & _). rewrite E in Hstep. injection Hstep as ->.
    unfold given_up. rewrite Hs, Hh, Ha. split_and!; [|done|lia|case_decide; lia].
    intros [?|Hin]%elem_of_app; [done|]. case_decide; [|by apply elem_of_nil in Hin].
    apply list_elem_of_singleton in Hin. lia.
  - destruct (commit_next _ _ _ _ Hinv Hstep) as (g & Hi & Hf & Hh & Ha & _). unfold given_up. rewrite Hf, Hh, Ha, seqs_of_app.
    rewrite (seqs_of_delete p _ i g Hi) in H1. rewrite elem_of_app in H1. split_and!; [tauto| |lia|lia].
    rewrite elem_of_app. intros [?|Hin]; [done|]. apply H1. left. unfold seqs_of in Hin. cbn [map concat] in Hin. by rewrite app_nil_r in Hin.
  - cbn in Hstep. destruct (ord_in_flight o !! i) as [g|] eqn:Hi; [|done]. injection Hstep as <-. unfold given_up. cbn.
    rewrite (seqs_of_delete p _ i g Hi) in H1. rewrite elem_of_app in H1. tauto.
Qed.

(** When a commit group of an order-sensitive pool ends without advancing the
    table (all its submissions ejected, a payload that does not decode, a timed-out
    wait), no later group of that pool commits again, in any continuation without
    a failed emission: every number committed for the pool stays below the one the
    group held. *)
Theorem ended_group_blocks_pool evs i evs' o o' g p s :
  order_run evs no_orders = Some o → ord_in_flight o !! i = Some g → (p, s) ∈ g → 0 < s → in_table p →
  order_run (Leave i :: evs') o = Some o' → Forall (λ ev, ¬ rolls_forward ev) (evs ++ evs') →
  Z.of_nat (length evs + length evs') < 2 ^ 64 - 1 →
  ∀ s', s' ∈ seqs_of p (ord_history o') → s' < s.
Proof.
  intros Hrun Hi Hin Hs Hp Hrun' [Hall Hall']%Forall_app Hn.
  pose proof (order_run_inv evs 0 no_orders o no_orders_inv ltac:(lia) Hall Hrun) as Hinv.
  assert (s ∈ seqs_in p g) as Hsg by (apply elem_of_seqs_in; done).
  destruct (oi_pools _ _ Hinv p Hp) as [R1 R2 R3 R4].
  assert (given_up p s {| ord_table := ord_table o; ord_in_flight := delete i (ord_in_flight o); ord_history := ord_history o |}) as Hgu.
  { assert (s ∈ seqs_of p (ord_in_flight o)) as Hso by (rewrite (seqs_of_delete p _ i g Hi); apply elem_of_app; by left).
    pose proof (R4 s Hso). rewrite (seqs_of_delete p _ i g Hi) in R3. apply NoDup_app in R3 as (_ & Hdis & _).
    unfold given_up. cbn [ord_table ord_in_flight ord_history]. split_and!; [by apply Hdis| |lia|lia]. rewrite R2, elem_of_seqZ. lia. }
  cbn in Hrun'. rewrite Hi in Hrun'. cbn in Hrun'.
  pose proof (order_step_inv _ (Leave i) _ _ Hinv ltac:(lia) (λ H, H) ltac:(cbn; rewrite Hi; reflexivity)) as Hinv1.
  destruct (order_run_keeps (given_up p s) _ (λ _ H, H) (λ n ev x x' Hx Hlt Hev, given_up_step n p s ev x x' Hx Hlt Hev Hp)
              evs' _ _ _ Hinv1 ltac:(lia) Hall' Hgu Hrun') as (_ & Hnh & _).
  pose proof (order_run_inv evs' _ _ _ Hinv1 ltac:(lia) Hall' Hrun') as Hinv2.
  rewrite (pi_history _ _ _ (oi_pools _ _ Hinv2 p Hp)) in *. intros s' Hs'. rewrite elem_of_seqZ in Hnh, Hs'. lia.
Qed.

(** ** Progress *)
Definition flows (ev : OrderEvent) : Prop := match ev with Emit _ | Commit _ => True | _ => False end.
#[global] Instance flows_dec ev : Decision (flows ev).
Proof. destruct ev; apply _. Defined.
Lemma flows_no_roll ev : flows ev → ¬ rolls_forward ev.
Proof. destruct ev; cbn; tauto. Qed.

(** With every group either in flight or committed, the numbers in flight are
    those above the committed ones, in emission order. *)
Definition gapless (o : Orders) : Prop :=
  ∀ p, in_table p → seqs_of p (ord_in_flight o) =
    seqZ (committed (ord_table o) p + 1) (assigned (ord_table o) p - committed (ord_table o) p).

Lemma seqs_of_take p gs i g :
  gs !! i = Some g → seqs_of p gs = seqs_of p (take i gs) ++ seqs_in p g ++ seqs_of p (drop (S i) gs) ∧
    seqs_of p (delete i gs) = seqs_of p (take i gs) ++ seqs_of p (drop (S i) gs).
Proof.
  intros Hi. rewrite delete_take_drop, seqs_of_app. split; [|done].
  rewrite <-(take_drop_middle gs i g Hi) at 1. by rewrite seqs_of_app.
Qed.
Lemma gapless_step n ev o o' :
  ord_inv n o → n < 2 ^ 64 - 1 → flows ev → gapless o → order_step ev o = Some o' → gapless o'.
Proof.
  intros Hinv Hn Hev Hgap Hstep p Hp. specialize (Hgap p Hp). pose proof (pi_range _ _ _ (oi_pools _ _ Hinv p Hp)) as [Hr _].
  destruct ev as [pools|pools|i|i]; try done.
  - assert (NoDup pools) as Hnd by (cbn in Hstep; by case_decide).
    destruct (emit_spec n o pools Hinv Hn Hnd) as (o1 & E & _ & Hc & Ha & Hs & _). rewrite E in Hstep. injection Hstep as ->.
    rewrite Hs, Hc, Ha, Hgap. case_decide; [|by rewrite app_nil_r].
    replace (assigned (ord_table o) p + 1 - committed (ord_table o) p)
      with ((assigned (ord_table o) p - committed (ord_table o) p) + 1) by lia.
    rewrite seqZ_app by lia. f_equal. change (seqZ ?a 1) with [a]. f_equal. lia.
  - destruct (commit_next _ _ _ _ Hinv Hstep) as (g & Hi & Hf & _ & Ha & Hc). rewrite Hf, Ha.
    destruct (seqs_of_take p _ i g Hi) as [E1 E2]. rewrite E2. destruct (Hc p Hp) as [[E ->]|[E ->]]; rewrite E in E1.
    + rewrite <-Hgap, E1. done.
    + assert (committed (ord_table o) p < assigned (ord_table o) p) as Hlt.
      { assert (committed (ord_table o) p + 1 ∈ seqs_of p (ord_in_flight o)) as Hin%(pi_pending _ _ _ (oi_pools _ _ Hinv p Hp));
          [rewrite E1; set_solver|lia]. }
      rewrite Hgap, seqZ_cons in E1 by lia. destruct (seqs_of p (take i (ord_in_flight o))) as [|s l]; cbn in E1.
      * injection E1 as E1. cbn. rewrite <-E1. f_equal; lia.
      * injection E1 as <- E1. exfalso. assert (committed (ord_table o) p + 1 ∈ seqZ (Z.succ (committed (ord_table o) p + 1))
          (Z.pred (assigned (ord_table o) p - committed (ord_table o) p))) as Hin by (rewrite E1; set_solver).
        apply elem_of_seqZ in Hin. lia.
Qed.

(** The oldest group in flight does not wait. *)
Lemma wait_passes g t polls :
  (∀ p s, (p, s) ∈ g → s = 0 ∨ Z.max 0 (s - 1) ≤ pool_seq_committed_load p t) →
  Forall (λ e, e = (t, 0)) polls → (length g ≤ length polls)%nat →
  wait_for_predecessor_pool_seqs g 0 polls = Ok tt.
Proof.
  revert polls. induction g as [|[p s] g IH]; intros polls Hg Hp Hlen; [done|]. cbn in Hlen |- *.
  destruct (Z.eqb_spec s 0) as [->|Hs]; [apply IH; [|done|lia]; intros; apply Hg; by right|].
  destruct polls as [|[t' now] polls]; [cbn in Hlen; lia|]. apply Forall_cons in Hp as [[= -> ->] Hp]. cbn.
  destruct (Hg p s) as [?|Hle]; [by left|done|]. rewrite (proj2 (Z.leb_le _ _)) by done. cbn.
  apply IH; [|done|cbn in Hlen; lia]. intros. apply Hg. by right.
Qed.
Definition numbers_ok (o : Orders) : Prop :=
  ∀ g p s, g ∈ ord_in_flight o → (p, s) ∈ g → 0 ≤ s ∧ (0 < s → in_table p).
Lemma numbers_ok_step n ev o o' :
  ord_inv n o → n < 2 ^ 64 - 1 → flows ev → numbers_ok o → order_step ev o = Some o' → numbers_ok o'.
Proof.
  intros Hinv Hn Hev Hok Hstep. destruct ev as [pools|pools|i|i]; try done.
  - cbn in Hstep. case_decide as Hnd; [|done].
    destruct (assign_pool_seqs_spec pools (ord_table o) Hnd) as (seqs & t' & Hrun & Hz & _ & _).
    { intros p _ Hin. pose proof (pi_range _ _ _ (oi_pools _ _ Hinv p Hin)). lia. }
    rewrite Hrun in Hstep. injection Hstep as <-. intros g p s. cbn.
    intros [Hg| ->%list_elem_of_singleton]%elem_of_app; [by apply Hok|]. rewrite Hz.
    intros (q & [= -> ->] & _)%list_elem_of_fmap. case_decide as Hs; [|lia].
    pose proof (pi_range _ _ _ (oi_pools _ _ Hinv q (proj2 Hs))). split; [lia|]. intros _. apply Hs.
  - destruct (commit_next _ _ _ _ Hinv Hstep) as (g & Hi & Hf & _). intros k p s Hk. rewrite Hf in Hk. apply Hok.
    eapply elem_of_submseteq; [exact Hk|]. apply sublist_submseteq, sublist_delete.
Qed.

Lemma oldest_commits n o g gs :
  ord_inv n o → gapless o → numbers_ok o → ord_in_flight o = g :: gs →
  ∃ o', order_step (Commit 0) o = Some o' ∧ ord_in_flight o' = gs.
Proof.
  intros Hinv Hgap Hok Hf. cbn [order_step]. rewrite Hf. cbn [lookup list_lookup mbind option_bind].
  rewrite (wait_passes g (ord_table o)); [eexists; split; [reflexivity|done]| |by apply Forall_fmap, Forall_true|by rewrite length_map].
  intros p s Hin. destruct (Hok g p s) as [H0 Ht]; [rewrite Hf; by left|done|].
  destruct (decide (s = 0)) as [|Hs]; [by left|right]. specialize (Ht ltac:(lia)). rewrite load_committed by done.
  pose proof (pi_range _ _ _ (oi_pools _ _ Hinv p Ht)) as [Hr _]. specialize (Hgap p Ht). rewrite Hf in Hgap.
  change (seqs_of p (g :: gs)) with (seqs_in p g ++ seqs_of p gs) in Hgap.
  destruct (seqs_in_unique p g) as [E|(s' & E & _)].
  { apply (oi_groups _ _ Hinv). rewrite Hf. by left. }
  { assert (s ∈ seqs_in p g) as Hs' by (apply elem_of_seqs_in; split; [done|lia]). rewrite E in Hs'. by apply elem_of_nil in Hs'. }
  assert (s ∈ seqs_in p g) as Hs' by (apply elem_of_seqs_in; split; [done|lia]). rewrite E in Hs', Hgap.
  apply list_elem_of_singleton in Hs' as ->.
  destruct (decide (assigned (ord_table o) p - committed (ord_table o) p = 0)) as [E0|Hne]; [by rewrite E0 in Hgap|].
  rewrite seqZ_cons in Hgap by lia. injection Hgap as -> _. lia.
Qed.

(** C34: the waits do not deadlock.  As long as every emission succeeds and every
    claimed group reaches its commit, the oldest group in flight never has to wait,
    and committing the groups in flight in order empties the queue. *)
Theorem in_flight_groups_drain evs o :
  order_run evs no_orders = Some o → Forall flows evs →
  Z.of_nat (length evs + length (ord_in_flight o)) < 2 ^ 64 →
  ∃ o', order_run (replicate (length (ord_in_flight o)) (Commit 0)) o = Some o' ∧ ord_in_flight o' = [].
Proof.
  intros Hrun Hall Hn.
  assert (Forall (λ ev, ¬ rolls_forward ev) evs) as Hall' by (eapply Forall_impl; [exact Hall|exact flows_no_roll]).
  pose proof (order_run_inv evs 0 no_orders o no_orders_inv ltac:(lia) Hall' Hrun) as Hinv.
  assert (gapless o) as Hgap.
  { eapply (order_run_keeps gapless flows flows_no_roll gapless_step evs 0); [exact no_orders_inv|lia|done| |exact Hrun]. intros p Hp. cbn.
    unfold committed, assigned, cell. cbn. by rewrite !lookup_empty. }
  assert (numbers_ok o) as Hok.
  { eapply (order_run_keeps numbers_ok flows flows_no_roll numbers_ok_step evs 0); [exact no_orders_inv|lia|done| |exact Hrun]. by intros g p s ?%elem_of_nil. }
  clear Hrun Hall Hall'. set (n := 0 + Z.of_nat (length evs)) in *.
  assert (n + Z.of_nat (length (ord_in_flight o)) < 2 ^ 64) as Hbound by (unfold n; lia). clearbody n.
  remember (ord_in_flight o) as gs eqn:Hf. clear Hn. revert n o Hf Hinv Hgap Hok Hbound.
  induction gs as [|g gs IH]; intros n o Hf Hinv Hgap Hok Hbound; [by exists o|].
  destruct (oldest_commits n o g gs) as (o1 & Hstep & Hf1); [done..|]. cbn [length] in *.
  destruct (IH (n + 1) o1) as (o' & Hrun & Hend); [done|..|by exists o'; cbn [replicate order_run]; rewrite Hstep].
  - eapply order_step_inv; [exact Hinv|lia| |exact Hstep]. by intros [].
  - eapply gapless_step; [exact Hinv|lia| |done|exact Hstep]. done.
  - eapply numbers_ok_step; [exact Hinv|lia| |done|exact Hstep]. done.
  - lia.
Qed.
End protocol.

(** * Executions *)
Definition all_sensitive (p : Z) : bool := true.
Definition two_groups : list OrderEvent := [Emit [3; 7]; Emit [7]; Commit 0; Emit [3]; Commit 0].


(** A group that is left behind: pool 7 stays blocked for the group that follows. *)
Lemma ended_group_blocks_pool_witness :
  ∃ o o', order_run all_sensitive [Emit [7]; Emit [7]; Emit [3]] no_orders = Some o ∧
    order_run all_sensitive [Leave 0; Commit 1] o = Some o' ∧
    ∀ s', s' ∈ seqs_of 7 (ord_history o') → s' < 1.
Proof.
  eexists. eexists. split; [vm_compute; reflexivity|]. split; [vm_compute; reflexivity|].
  eapply (ended_group_blocks_pool all_sensitive [Emit [7]; Emit [7]; Emit [3]] 0 [Commit 1] _ _ [(7, 1)] 7 1);
    [vm_compute; reflexivity|reflexivity|by left|lia|by vm_compute|vm_compute; reflexivity| |by vm_compute].
  repeat constructor; cbn; tauto.
Defined.

Lemma in_flight_groups_drain_witness :
  ∃ o o', order_run all_sensitive two_groups no_orders = Some o ∧
    order_run all_sensitive (replicate (length (ord_in_flight o)) (Commit 0)) o = Some o' ∧ ord_in_flight o' = [].
Proof.
  eexists. edestruct (in_flight_groups_drain all_sensitive two_groups) as (o' & Hrun & Hend);
    [vm_compute; reflexivity|repeat constructor|by vm_compute|].
  exists o'. split; [vm_compute; reflexivity|]. split; [exact Hrun|exact Hend].
Defined.

(** A failed emission rolls the table past groups that are still in flight: with
    numbers 1 and 2 of pool 7 in flight and number 3 failed, number 4 commits
    before both. *)
Theorem rollforward_breaks_order :
  option_map (λ o, (ord_in_flight o, ord_history o))
    (order_run all_sensitive [Emit [7]; Emit [7]; EmitFailed [7]; Emit [7]; Commit 2] no_orders) =
  Some ([[(7, 1)]; [(7, 2)]], [[(7, 4)]]).
Proof. vm_compute. reflexivity. Qed.

(** A pool id past the end of the table is not sequenced at all. *)
Theorem large_pool_is_not_sequenced p t :
  POOL_SEQ_TABLE_SIZE ≤ p → assign_pool_seqs all_sensitive [p] t = ([0], t).
Proof.
  intros Hp. destruct (pool_seq_idx_out p) as [e He]; [unfold in_table; lia|].
  cbn. unfold assign_pool_seq, lift, mbind, SE_bind. by rewrite He.
Qed.
