(* ===== verification/V3Shmem.v ===== *)
(** The shared memory of Path B (ledger-routed, shmem.rs): the staging queue, the
    committer queue, the arena and the sequence table, and the programs of one
    process over it.  A process may be killed between any two of its writes; what
    it wrote stays.  A small calculus of weakest preconditions with a crash
    condition serves the proofs. *)
From S2P Require Import Prelude V3Arena V3PoolSeq.

(** * Queues *)
Record StagingEntry := {
  se_valid : Z;   (* 0 empty, 1 pending, 2 processing, 3 routed, 4 abandoned *)
  se_request_seq : Z;
  se_correlation_id : list Z;
  se_user_tx_xid : Z;
  se_trx_type_id : Z;
  se_payload_offset : Z;
  se_payload_length : Z;
  se_pool_count : Z;
  se_pool_keys_offset : Z;
  se_enqueued_at_micros : Z;
  se_backend_pid : Z;
  se_commit_group_id : Z;
  se_eject_count : Z;
  se_last_eject_at_ns : Z;
}.
Record StagingQueue := {
  sq_head : Z;
  sq_tail : Z;
  sq_next_request_seq : Z;
  sq_free_slot_wake_count : Z;
  sq_entries : list StagingEntry;
}.

Record CommitterQueueEntry := {
  ce_valid : Z;   (* 0 empty, 1 ready, 2 in flight, 3 completed *)
  ce_commit_group_id : Z;
  ce_submission_count : Z;
  ce_staging_entry_offsets : Z;
  ce_pool_keys_offset : Z;
  ce_pool_keys_count : Z;
  ce_committer_bgw_slot : Z;
  ce_committer_bgw_generation : Z;
  ce_committer_acquired_at_ns : Z;
  ce_committer_tx_id : Z;
  ce_enqueued_at_micros : Z;
  ce_pool_seqs_offset : Z;
}.
Record CommitterIdentitySlot := { id_pid : Z; id_generation : Z }.
(** The observability counters the router updates. *)
Inductive Counter : Type :=
| router_ticks_total | router_entries_scanned_total | router_window_defers_total
| router_order_sensitive_groups_total | router_cross_commit_group_for_update_waits
| router_commit_group_count | router_total_submissions | committer_takeover_count.
#[global] Instance Counter_eq_dec : EqDecision Counter.
Proof. solve_decision. Defined.
Record RouterStats := {
  counter : Counter → Z;
  router_submission_histogram : list Z;
  router_max_submission_count_per_group : Z;
}.
Record CommitterQueue := {
  cq_head : Z;
  cq_tail : Z;
  cq_next_commit_group_id : Z;
  cq_stats : RouterStats;
  cq_identity_slots : list CommitterIdentitySlot;
  cq_entries : list CommitterQueueEntry;
}.

Record Shmem := {
  STAGING_QUEUE : StagingQueue;
  COMMITTER_QUEUE : CommitterQueue;
  SPILLOVER_ARENA : SpilloverArena;
  POOL_SEQ_TABLE : PoolSeqTable;
}.

(** * Field updates *)
Definition se_with (v cg : Z) (e : StagingEntry) : StagingEntry :=
  {| se_valid := v; se_request_seq := se_request_seq e; se_correlation_id := se_correlation_id e;
     se_user_tx_xid := se_user_tx_xid e; se_trx_type_id := se_trx_type_id e;
     se_payload_offset := se_payload_offset e; se_payload_length := se_payload_length e;
     se_pool_count := se_pool_count e; se_pool_keys_offset := se_pool_keys_offset e;
     se_enqueued_at_micros := se_enqueued_at_micros e; se_backend_pid := se_backend_pid e;
     se_commit_group_id := cg; se_eject_count := se_eject_count e; se_last_eject_at_ns := se_last_eject_at_ns e |}.
Definition se_set_valid (v : Z) (e : StagingEntry) : StagingEntry := se_with v (se_commit_group_id e) e.
Definition se_set_cg (cg : Z) (e : StagingEntry) : StagingEntry := se_with (se_valid e) cg e.

Definition sq_set_entries (l : list StagingEntry) (q : StagingQueue) : StagingQueue :=
  {| sq_head := sq_head q; sq_tail := sq_tail q; sq_next_request_seq := sq_next_request_seq q;
     sq_free_slot_wake_count := sq_free_slot_wake_count q; sq_entries := l |}.
Definition sq_count_wake (q : StagingQueue) : StagingQueue :=
  {| sq_head := sq_head q; sq_tail := sq_tail q; sq_next_request_seq := sq_next_request_seq q;
     sq_free_slot_wake_count := wrap_u64 (sq_free_slot_wake_count q + 1); sq_entries := sq_entries q |}.
Definition cq_set_entries (l : list CommitterQueueEntry) (q : CommitterQueue) : CommitterQueue :=
  {| cq_head := cq_head q; cq_tail := cq_tail q; cq_next_commit_group_id := cq_next_commit_group_id q;
     cq_stats := cq_stats q; cq_identity_slots := cq_identity_slots q; cq_entries := l |}.
Definition cq_set_stats (s : RouterStats) (q : CommitterQueue) : CommitterQueue :=
  {| cq_head := cq_head q; cq_tail := cq_tail q; cq_next_commit_group_id := cq_next_commit_group_id q;
     cq_stats := s; cq_identity_slots := cq_identity_slots q; cq_entries := cq_entries q |}.

(** [counter.fetch_add(n)] *)
Definition fetch_add (c : Counter) (n : Z) (s : RouterStats) : RouterStats :=
  {| counter := λ c', if decide (c' = c) then wrap_u64 (counter s c + n) else counter s c';
     router_submission_histogram := router_submission_histogram s;
     router_max_submission_count_per_group := router_max_submission_count_per_group s |}.

Definition on_staging (f : StagingQueue → StagingQueue) (m : Shmem) : Shmem :=
  {| STAGING_QUEUE := f (STAGING_QUEUE m); COMMITTER_QUEUE := COMMITTER_QUEUE m;
     SPILLOVER_ARENA := SPILLOVER_ARENA m; POOL_SEQ_TABLE := POOL_SEQ_TABLE m |}.
Definition on_committers (f : CommitterQueue → CommitterQueue) (m : Shmem) : Shmem :=
  {| STAGING_QUEUE := STAGING_QUEUE m; COMMITTER_QUEUE := f (COMMITTER_QUEUE m);
     SPILLOVER_ARENA := SPILLOVER_ARENA m; POOL_SEQ_TABLE := POOL_SEQ_TABLE m |}.
Definition with_arena (a : SpilloverArena) (m : Shmem) : Shmem :=
  {| STAGING_QUEUE := STAGING_QUEUE m; COMMITTER_QUEUE := COMMITTER_QUEUE m;
     SPILLOVER_ARENA := a; POOL_SEQ_TABLE := POOL_SEQ_TABLE m |}.
Definition with_table (t : PoolSeqTable) (m : Shmem) : Shmem :=
  {| STAGING_QUEUE := STAGING_QUEUE m; COMMITTER_QUEUE := COMMITTER_QUEUE m;
     SPILLOVER_ARENA := SPILLOVER_ARENA m; POOL_SEQ_TABLE := t |}.

Definition slots (m : Shmem) : list StagingEntry := sq_entries (STAGING_QUEUE m).
Definition groups (m : Shmem) : list CommitterQueueEntry := cq_entries (COMMITTER_QUEUE m).
Definition on_slot (i : nat) (f : StagingEntry → StagingEntry) : Shmem → Shmem :=
  on_staging (λ q, sq_set_entries (alter f i (sq_entries q)) q).
Definition on_group (i : nat) (f : CommitterQueueEntry → CommitterQueueEntry) : Shmem → Shmem :=
  on_committers (λ q, cq_set_entries (alter f i (cq_entries q)) q).

(** * Processes

    [crash_after]: how many more writes the process performs before it is killed,
    if it is. *)
Record World := { crash_after : option nat; mem : Shmem }.
Inductive Stop : Type := Crashed | ArenaStopped (f : ArenaFault) | RustPanic.
Abbreviation Proc := (SE World Stop).

Definition step : Proc unit := λ w,
  match crash_after w with
  | None => (Ok tt, w)
  | Some O => (Err Crashed, w)
  | Some (S k) => (Ok tt, {| crash_after := Some k; mem := mem w |})
  end.
Definition look {A} (f : Shmem → A) : Proc A := gets (λ w, f (mem w)).
Definition write (f : Shmem → Shmem) : Proc unit :=
  step;; modify (λ w, {| crash_after := crash_after w; mem := f (mem w) |}).
(** The arena is used under its exclusive lock: an operation is one step. *)
Definition run_arena {A} (m : Mem A) : Proc A := λ w,
  match m (SPILLOVER_ARENA (mem w)) with
  | (Ok x, a) => (Ok x, {| crash_after := crash_after w; mem := with_arena a (mem w) |})
  | (Err f, a) => (Err (ArenaStopped f), {| crash_after := crash_after w; mem := with_arena a (mem w) |})
  end.
Definition with_lock_arena {A} (m : Mem A) : Proc A := step;; run_arena m.
(** Reads under the share lock. *)
Definition read_arena {A} (m : Mem A) : Proc A := λ w,
  match m (SPILLOVER_ARENA (mem w)) with
  | (Ok x, _) => (Ok x, w)
  | (Err f, _) => (Err (ArenaStopped f), w)
  end.

Definition bump (c : Counter) (n : Z) : Proc unit :=
  write (on_committers (λ q, cq_set_stats (fetch_add c n (cq_stats q)) q)).

Definition slot (i : nat) : Proc StagingEntry := λ w,
  match slots (mem w) !! i with Some s => (Ok s, w) | None => (Err RustPanic, w) end.
Definition group (i : nat) : Proc CommitterQueueEntry := λ w,
  match groups (mem w) !! i with Some e => (Ok e, w) | None => (Err RustPanic, w) end.
(** [entries[i].valid.compare_exchange(old, new)] on the staging queue. *)
Definition cas_slot (i : nat) (old new : Z) : Proc bool :=
  s ← slot i;
  if decide (se_valid s = old) then write (on_slot i (se_set_valid new));; mret true else mret false.
Definition store_cg (i : nat) (cg : Z) : Proc unit :=
  slot i;; write (on_slot i (se_set_cg cg)).

(** * Weakest preconditions

    [Q] holds of the result, [I] holds if the process is killed; it does not stop
    for another reason, and a process that is not killed is not. *)
Definition wp {A} (m : Proc A) (Q : A → Shmem → Prop) (I : Shmem → Prop) (σ : Shmem) : Prop :=
  ∀ k, match m {| crash_after := k; mem := σ |} with
       | (Ok a, w) => Q a (mem w) ∧ (k = None → crash_after w = None)
       | (Err Crashed, w) => I (mem w) ∧ k ≠ None
       | (Err _, _) => False
       end.

Lemma wp_ret {A} (a : A) (Q : A → Shmem → Prop) I σ : Q a σ → wp (mret a) Q I σ.
Proof. by intros H k. Qed.
Lemma wp_bind {A B} (m : Proc A) (f : A → Proc B) Q I σ :
  wp m (λ a σ, wp (f a) Q I σ) I σ → wp (m ≫= f) Q I σ.
Proof.
  intros H k. specialize (H k). unfold mbind, SE_bind. destruct (m _) as [[a|e] w]; [|by destruct e].
  destruct H as [Hf Hk]. destruct w as [k' σ']. cbn in Hf, Hk. specialize (Hf k').
  destruct (f a _) as [[b|e] w']; [destruct Hf as [? Hf]; split; [done|auto]|].
  destruct e; [|done..]. destruct Hf as [? Hf]. split; [done|auto].
Qed.
Lemma wp_mono {A} (m : Proc A) (Q Q' : A → Shmem → Prop) (I I' : Shmem → Prop) σ :
  wp m Q I σ → (∀ a σ', Q a σ' → Q' a σ') → (∀ σ', I σ' → I' σ') → wp m Q' I' σ.
Proof.
  intros H HQ HI k. specialize (H k). destruct (m _) as [[a|e] w]; [destruct H; auto|]. destruct e; [|done..].
  destruct H. auto.
Qed.
Lemma wp_look {A} (f : Shmem → A) (Q : A → Shmem → Prop) I σ : Q (f σ) σ → wp (look f) Q I σ.
Proof. by intros H k. Qed.
Lemma wp_write f (Q : unit → Shmem → Prop) (I : Shmem → Prop) σ : I σ → Q tt (f σ) → wp (write f) Q I σ.
Proof. intros HI HQ [[|k]|]; by split. Qed.
Lemma wp_slot i s (Q : StagingEntry → Shmem → Prop) I σ : slots σ !! i = Some s → Q s σ → wp (slot i) Q I σ.
Proof. intros Hs HQ k. unfold slot. cbn. by rewrite Hs. Qed.
Lemma wp_group i e (Q : CommitterQueueEntry → Shmem → Prop) I σ : groups σ !! i = Some e → Q e σ → wp (group i) Q I σ.
Proof. intros Hs HQ k. unfold group. cbn. by rewrite Hs. Qed.
Lemma wp_lock_arena {A} (m : Mem A) (Q : A → Shmem → Prop) (I : Shmem → Prop) σ x a :
  m (SPILLOVER_ARENA σ) = (Ok x, a) → I σ → Q x (with_arena a σ) → wp (with_lock_arena m) Q I σ.
Proof.
  intros Hm HI HQ [[|k]|]; unfold with_lock_arena, step, run_arena, mbind, SE_bind; cbn; [by split|rewrite Hm; by split..].
Qed.
Lemma wp_read_arena {A} (m : Mem A) (Q : A → Shmem → Prop) I σ x a :
  m (SPILLOVER_ARENA σ) = (Ok x, a) → Q x σ → wp (read_arena m) Q I σ.
Proof. intros Hm HQ k. unfold read_arena. cbn. by rewrite Hm. Qed.
Lemma wp_cas_slot i old new s (Q : bool → Shmem → Prop) (I : Shmem → Prop) σ :
  slots σ !! i = Some s → I σ →
  (se_valid s = old → Q true (on_slot i (se_set_valid new) σ)) → (se_valid s ≠ old → Q false σ) →
  wp (cas_slot i old new) Q I σ.
Proof.
  intros Hs HI Ht Hf. apply wp_bind, (wp_slot _ s); [done|]. case_decide as E; [|by apply wp_ret, Hf].
  apply wp_bind, wp_write; [done|]. by apply wp_ret, Ht.
Qed.
Lemma wp_store_cg i cg s (Q : unit → Shmem → Prop) (I : Shmem → Prop) σ :
  slots σ !! i = Some s → I σ → Q tt (on_slot i (se_set_cg cg) σ) → wp (store_cg i cg) Q I σ.
Proof. intros Hs HI HQ. apply wp_bind, (wp_slot _ s); [done|]. by apply wp_write. Qed.
(** A loop over a list, with an invariant of the part done. *)
Lemma wp_iter {A} (f : A → Proc unit) (P : list A → Shmem → Prop) (I : Shmem → Prop) l σ :
  P [] σ → (∀ l1 a l2 σ, l = l1 ++ a :: l2 → P l1 σ → wp (f a) (λ _, P (l1 ++ [a])) I σ) →
  wp (iterM f l) (λ _, P l) I σ.
Proof.
  intros H0 Hstep. assert (∀ l1 l2 σ, l = l1 ++ l2 → P l1 σ → wp (iterM f l2) (λ _, P l) I σ) as Hgen.
  { intros l1 l2. revert l1. induction l2 as [|a l2 IH]; intros l1 σ' Hl HP; cbn.
    - apply wp_ret. by rewrite Hl, app_nil_r.
    - apply wp_bind. eapply wp_mono; [by eapply Hstep|cbn|done]. intros _ σ1 H1.
      apply (IH (l1 ++ [a])); [by rewrite <-app_assoc|done]. }
  by apply (Hgen []).
Qed.
