(* ===== verification/V3Router.v ===== *)
(** The router of Path B (ledger-routed, router.rs) over the shared memory: the
    window scan, the emission of a commit group with its rollbacks, the tick that
    composes them, and the sweep a restarted router runs over what a killed one
    left behind. *)
From S2P Require Import Prelude V3Arena V3Payload V3PoolSeq V3Affinity V3Shmem.

(** * Machine integers and byte images *)
Definition wrap_u16 (z : Z) : Z := z `mod` 2 ^ 16.
Fixpoint chunks_exact_4 (bs : list Z) : list Z :=
  match bs with
  | b0 :: b1 :: b2 :: b3 :: bs => from_le_bytes [b0; b1; b2; b3] :: chunks_exact_4 bs
  | _ => []
  end.
Definition u64_from_le_bytes (bs : list Z) : Z := foldr (λ b acc, b + 256 * acc) 0 bs.
Definition i64_from_le_bytes (bs : list Z) : Z := wrap_i64 (u64_from_le_bytes bs).
Fixpoint chunks_exact_8 (bs : list Z) : list (list Z) :=
  match bs with
  | b0 :: b1 :: b2 :: b3 :: b4 :: b5 :: b6 :: b7 :: bs => [b0; b1; b2; b3; b4; b5; b6; b7] :: chunks_exact_8 bs
  | _ => []
  end.

(** * The window *)
Record CandidateMeta := {
  meta_staging_idx : Z;
  meta_request_seq : Z;
  meta_pool_keys_offset : Z;
  meta_pool_count : Z;
  meta_enqueued_at_micros : Z;
}.

Definition u64_max : Z := 2 ^ 64 - 1.
Definition is_in_eject_cooldown (eject_count last_eject_at_ns now_ns cooldown_ms : Z) : bool :=
  if (cooldown_ms =? 0) || (eject_count =? 0) then false else
  let cooldown_ns := Z.min u64_max (cooldown_ms * 1000000) in
  let elapsed := Z.max 0 (now_ns - last_eject_at_ns) in
  elapsed <? cooldown_ns.

(** The loop over the ring: [scanned] counts up, at most [window_limit] are taken. *)
Fixpoint scan_ring (entries : list StagingEntry) (head capacity window_limit now_ns cooldown_ms : Z)
    (scanned : Z) (fuel : nat) (out : list CandidateMeta) : option (list CandidateMeta) :=
  match fuel with
  | O => Some out
  | S fuel =>
      if window_limit <=? wrap_u32 (Z.of_nat (length out)) then Some out else
      let idx := wrap_u32 (head + scanned) `mod` capacity in
      match entries !! Z.to_nat idx with
      | None => None
      | Some s =>
          let out :=
            if (se_valid s =? 1) && negb (is_in_eject_cooldown (se_eject_count s) (se_last_eject_at_ns s) now_ns cooldown_ms)
            then out ++ [{| meta_staging_idx := idx; meta_request_seq := se_request_seq s;
                            meta_pool_keys_offset := se_pool_keys_offset s; meta_pool_count := se_pool_count s;
                            meta_enqueued_at_micros := se_enqueued_at_micros s |}]
            else out in
          scan_ring entries head capacity window_limit now_ns cooldown_ms (scanned + 1) fuel out
      end
  end.
(** [while scanned < staging_capacity]: one round per slot of the ring. *)
Definition collect_candidates (staging_capacity window_limit now_ns cooldown_ms : Z) : Proc (list CandidateMeta) :=
  q ← look STAGING_QUEUE;
  match scan_ring (sq_entries q) (sq_head q) staging_capacity window_limit now_ns cooldown_ms 0
          (Z.to_nat staging_capacity) [] with
  | Some out => mret out
  | None => throw RustPanic
  end.

Definition hydrate_candidate (m : CandidateMeta) : Proc Candidate :=
  pool_keys ← (if (0 <? meta_pool_count m) && negb (meta_pool_keys_offset m =? 0)
               then bytes ← read_arena (read_bytes (meta_pool_keys_offset m) (wrap_u32 (meta_pool_count m * 8)));
                    mret (map i64_from_le_bytes (chunks_exact_8 bytes))
               else mret []);
  mret {| cand_staging_idx := meta_staging_idx m; cand_request_seq := meta_request_seq m; cand_pool_keys := pool_keys |}.
Fixpoint hydrate_candidates (metas : list CandidateMeta) : Proc (list Candidate) :=
  match metas with
  | [] => mret []
  | m :: metas => c ← hydrate_candidate m; cs ← hydrate_candidates metas; mret (c :: cs)
  end.

(** * Arena blocks of a commit group *)
Section blocks.
Context {A : Type} `{!Allocator A}.
Abbreviation Mem := (SE A ArenaFault).

Definition staging_index_bytes (packed : list Candidate) : list Z :=
  concat (map (λ c, to_le_bytes (cand_staging_idx c)) packed).
Definition alloc_or (size : Z) (undo : Mem unit) : Mem (option Z) :=
  found ← al_alloc size;
  match found with Some v => mret (Some v) | None => undo;; mret None end.

Definition allocate_commit_group_arena (submission_count : Z) (packed : list Candidate)
    (pool_keys_count : Z) (pool_sorted : list Z) (pool_seqs : option (list Z)) : Mem (option (Z * Z * Z)) :=
  let offsets_bytes := wrap_u32 (submission_count * 4) in
  so ← al_alloc (Z.max offsets_bytes 1);
  match so with
  | None => mret None
  | Some so_off =>
  po ← (if 0 <? pool_keys_count then alloc_or (wrap_u32 (pool_keys_count * 8)) (al_free so_off) else mret (Some 0));
  match po with
  | None => mret None
  | Some pool_off =>
  qo ← (if bool_decide (is_Some pool_seqs) && (0 <? pool_keys_count)
        then alloc_or (wrap_u32 (pool_keys_count * 8)) (al_free so_off;; free_nonzero pool_off)
        else mret (Some 0));
  match qo with
  | None => mret None
  | Some seqs_off =>
      al_write so_off (staging_index_bytes packed);;
      (if 0 <? pool_keys_count then al_write pool_off (pool_ids_to_le_bytes pool_sorted) else mret tt);;
      (match pool_seqs with
       | Some seqs => if decide (seqs_off = 0) then mret tt else al_write seqs_off (pool_ids_to_le_bytes seqs)
       | None => mret tt
       end);;
      mret (Some (so_off, pool_off, seqs_off))
  end end end.

Definition free_commit_group_arena (staging_offsets_off pool_keys_off pool_seqs_off : Z) : Mem unit :=
  free_nonzero staging_offsets_off;; free_nonzero pool_keys_off;; free_nonzero pool_seqs_off.
End blocks.

(** * Statistics *)
Definition submission_histogram_bucket (submission_count : Z) : nat :=
  if submission_count =? 0 then 0%nat else Z.to_nat (Z.min (Z.log2 submission_count) 7).
Definition record_commit_group_stats (submission_count : Z) : Proc unit :=
  bump router_commit_group_count 1;;
  bump router_total_submissions submission_count;;
  write (on_committers (λ q, cq_set_stats
    (let s := cq_stats q in
     {| counter := counter s;
        router_submission_histogram :=
          alter (λ n, wrap_u64 (n + 1)) (submission_histogram_bucket submission_count) (router_submission_histogram s);
        router_max_submission_count_per_group := Z.max (router_max_submission_count_per_group s) submission_count |}) q)).

(** * Emission of one commit group *)
Inductive EmitOutcome : Type := Emitted | Empty | Exhausted.

Definition idx_of (c : Candidate) : nat := Z.to_nat (cand_staging_idx c).
(** The claim loop: those won by the exchange 1→2. *)
Fixpoint claim_chunk (chunk : list Candidate) : Proc (list Candidate) :=
  match chunk with
  | [] => mret []
  | cand :: chunk =>
      cas_ok ← cas_slot (idx_of cand) 1 2;
      packed ← claim_chunk chunk;
      mret (if cas_ok : bool then cand :: packed else packed)
  end.
Definition rollback_packed_to_pending (packed : list Candidate) : Proc unit :=
  iterM (λ cand, cas_slot (idx_of cand) 2 1;; mret tt) packed.

(** The deduplicated pool ids, ascending. *)
Definition pool_union_sorted (packed : list Candidate) : list Z :=
  sort_by_key id (remove_dups (concat (map cand_pool_keys packed))).

Section emit.
Context (pool_is_order_sensitive : Z → bool) (now_us : Z) (reorder : bool).

Fixpoint assign_seqs (pools : list Z) : Proc (list Z) :=
  match pools with
  | [] => mret []
  | pid :: pools =>
      seq ← (if pool_is_order_sensitive pid then
               t ← look POOL_SEQ_TABLE;
               match assign_pool_seq pid t with
               | (Ok s, t) => write (with_table t);; mret s
               | (Err _, _) => mret 0
               end
             else mret 0);
      seqs ← assign_seqs pools;
      mret (seq :: seqs)
  end.
Definition rollforward (pools seqs : list Z) : Proc unit :=
  iterM (λ e, if 0 <? e.2 then write (λ m, with_table (pool_seq_commit_advance e.1 e.2 (POOL_SEQ_TABLE m)) m) else mret tt)
    (zip pools seqs).

(** The first empty entry of the committer queue from the tail on. *)
Definition find_empty_group (q : CommitterQueue) (committer_capacity : Z) : option nat :=
  head (filter (λ idx, ce_valid <$> cq_entries q !! idx = Some 0)
    (map (λ i, Z.to_nat (wrap_u32 (cq_tail q + i) `mod` committer_capacity)) (seqZ 0 committer_capacity))).
Definition publish_group (cq_idx : nat) (submission_count so_off pool_off pool_keys_count seqs_off : Z)
    (committer_capacity : Z) (q : CommitterQueue) : CommitterQueue :=
  let cg_id := wrap_u64 (cq_next_commit_group_id q + 1) in
  {| cq_head := cq_head q; cq_tail := wrap_u32 (cq_tail q + 1) `mod` committer_capacity;
     cq_next_commit_group_id := cg_id; cq_stats := cq_stats q; cq_identity_slots := cq_identity_slots q;
     cq_entries := <[cq_idx :=
       {| ce_valid := 1; ce_commit_group_id := cg_id; ce_submission_count := submission_count;
          ce_staging_entry_offsets := so_off; ce_pool_keys_offset := pool_off; ce_pool_keys_count := pool_keys_count;
          ce_committer_bgw_slot := 2 ^ 32 - 1; ce_committer_bgw_generation := 0; ce_committer_acquired_at_ns := 0;
          ce_committer_tx_id := 0; ce_enqueued_at_micros := now_us; ce_pool_seqs_offset := seqs_off |}]> (cq_entries q) |}.

(** The stores of one entry; [reorder] is the test hook that swaps them. *)
Definition stamp (cg_id : Z) (cand : Candidate) : Proc unit :=
  if reorder then cas_slot (idx_of cand) 2 3;; store_cg (idx_of cand) cg_id
  else store_cg (idx_of cand) cg_id;; cas_slot (idx_of cand) 2 3;; mret tt.

Definition emit_commit_group (chunk : list Candidate) (committer_capacity : Z) : Proc EmitOutcome :=
  packed ← claim_chunk chunk;
  match packed with
  | [] => mret Empty
  | _ =>
      let submission_count := wrap_u16 (Z.of_nat (length packed)) in
      let pools := pool_union_sorted packed in
      let pool_keys_count := wrap_u16 (Z.of_nat (length pools)) in
      pool_seqs ← assign_seqs pools;
      let any_os_seq := existsb (λ s, 0 <? s) pool_seqs in
      let exhausted :=
        (rollback_packed_to_pending packed;;
         (if any_os_seq then rollforward pools pool_seqs else mret tt);;
         mret Exhausted) in
      blocks ← with_lock_arena (allocate_commit_group_arena submission_count packed pool_keys_count pools
                 (if any_os_seq then Some pool_seqs else None));
      match blocks with
      | None => exhausted
      | Some (so_off, pool_off, seqs_off) =>
          q ← look COMMITTER_QUEUE;
          match find_empty_group q committer_capacity with
          | None =>
              rollback_packed_to_pending packed;;
              with_lock_arena (free_commit_group_arena so_off pool_off seqs_off);;
              (if any_os_seq then rollforward pools pool_seqs else mret tt);;
              mret Exhausted
          | Some cq_idx =>
              write (on_committers (publish_group cq_idx submission_count so_off pool_off pool_keys_count seqs_off committer_capacity));;
              iterM (stamp (wrap_u64 (cq_next_commit_group_id q + 1))) packed;;
              record_commit_group_stats submission_count;;
              mret Emitted
          end
      end
  end.
End emit.

(** * The sweep of a restarted router *)
Fixpoint sumM {A} (f : A → Proc Z) (l : list A) : Proc Z :=
  match l with [] => mret 0 | a :: l => n ← f a; k ← sumM f l; mret (n + k) end.

Definition read_staging_indices (offset submission_count : Z) : Proc (list Z) :=
  if (submission_count =? 0) || (offset =? 0) then mret [] else
  bytes ← read_arena (read_bytes offset (wrap_u32 (submission_count * 4)));
  mret (chunks_exact_4 bytes).

Definition try_restamp_staging_to_routed (s_idx q_cg_id : Z) : Proc bool :=
  s ← slot (Z.to_nat s_idx);
  if negb (se_valid s =? 2) then mret false else
  if negb (se_commit_group_id s =? 0) && negb (se_commit_group_id s =? q_cg_id) then mret false else
  store_cg (Z.to_nat s_idx) q_cg_id;;
  cas_slot (Z.to_nat s_idx) 2 3.

Definition try_revert_orphan_staging (s_idx : nat) (active_cg_ids : list Z) : Proc bool :=
  s ← slot s_idx;
  if negb (se_valid s =? 2) then mret false else
  if negb (se_commit_group_id s =? 0) && bool_decide (se_commit_group_id s ∈ active_cg_ids) then mret false else
  ok ← cas_slot s_idx 2 1;
  if ok : bool then store_cg s_idx 0;; mret true else mret false.

Definition count_true (b : bool) : Z := if b then 1 else 0.

Section recovery.
(** [kill(pid, 0)] reports no such process, or not. *)
Context (process_exists : Z → bool).

Definition is_committer_alive (slot_idx expected_generation : Z) (q : CommitterQueue) : bool :=
  if expected_generation =? 0 then false else
  match cq_identity_slots q !! Z.to_nat slot_idx with
  | None => false
  | Some s =>
      if id_pid s =? 0 then false else
      if negb (id_generation s =? expected_generation) then false else
      process_exists (id_pid s)
  end.

Definition ce_set_valid (v : Z) (e : CommitterQueueEntry) : CommitterQueueEntry :=
  {| ce_valid := v; ce_commit_group_id := ce_commit_group_id e; ce_submission_count := ce_submission_count e;
     ce_staging_entry_offsets := ce_staging_entry_offsets e; ce_pool_keys_offset := ce_pool_keys_offset e;
     ce_pool_keys_count := ce_pool_keys_count e; ce_committer_bgw_slot := ce_committer_bgw_slot e;
     ce_committer_bgw_generation := ce_committer_bgw_generation e; ce_committer_acquired_at_ns := ce_committer_acquired_at_ns e;
     ce_committer_tx_id := ce_committer_tx_id e; ce_enqueued_at_micros := ce_enqueued_at_micros e;
     ce_pool_seqs_offset := ce_pool_seqs_offset e |}.
Definition ce_set_owner (slot gen acquired tx : Z) (e : CommitterQueueEntry) : CommitterQueueEntry :=
  {| ce_valid := ce_valid e; ce_commit_group_id := ce_commit_group_id e; ce_submission_count := ce_submission_count e;
     ce_staging_entry_offsets := ce_staging_entry_offsets e; ce_pool_keys_offset := ce_pool_keys_offset e;
     ce_pool_keys_count := ce_pool_keys_count e; ce_committer_bgw_slot := slot;
     ce_committer_bgw_generation := gen; ce_committer_acquired_at_ns := acquired;
     ce_committer_tx_id := tx; ce_enqueued_at_micros := ce_enqueued_at_micros e;
     ce_pool_seqs_offset := ce_pool_seqs_offset e |}.

Definition sweep_queue_entry (q_idx : nat) : Proc Z :=
  e ← group q_idx;
  if ce_valid e =? 1 then
    if (ce_submission_count e =? 0) || (ce_staging_entry_offsets e =? 0) then mret 0 else
    staging_indices ← read_staging_indices (ce_staging_entry_offsets e) (ce_submission_count e);
    sumM (λ s_idx, b ← try_restamp_staging_to_routed s_idx (ce_commit_group_id e); mret (count_true b)) staging_indices
  else if ce_valid e =? 2 then
    if ce_committer_bgw_generation e =? 0 then mret 0 else
    q ← look COMMITTER_QUEUE;
    if is_committer_alive (ce_committer_bgw_slot e) (ce_committer_bgw_generation e) q then mret 0 else
    write (on_group q_idx (ce_set_valid 1));;
    write (on_group q_idx (λ e, ce_set_owner (2 ^ 32 - 1) (ce_committer_bgw_generation e) (ce_committer_acquired_at_ns e) (ce_committer_tx_id e) e));;
    write (on_group q_idx (λ e, ce_set_owner (ce_committer_bgw_slot e) 0 (ce_committer_acquired_at_ns e) (ce_committer_tx_id e) e));;
    write (on_group q_idx (λ e, ce_set_owner (ce_committer_bgw_slot e) (ce_committer_bgw_generation e) 0 (ce_committer_tx_id e) e));;
    write (on_group q_idx (λ e, ce_set_owner (ce_committer_bgw_slot e) (ce_committer_bgw_generation e) (ce_committer_acquired_at_ns e) 0 e));;
    bump committer_takeover_count 1;;
    mret 1
  else mret 0.
Definition sweep_queue_phase : Proc Z :=
  n ← look (λ m, length (groups m));
  sumM sweep_queue_entry (seq 0 n).

Definition active_cg_ids (m : Shmem) : list Z :=
  map ce_commit_group_id (filter (λ e, ce_valid e ≠ 0) (groups m)).
Definition sweep_staging_phase : Proc Z :=
  active ← look active_cg_ids;
  n ← look (λ m, length (slots m));
  sumM (λ s_idx, ok ← try_revert_orphan_staging s_idx active;
                 if ok : bool then write (on_staging sq_count_wake);; mret 1 else mret 0) (seq 0 n).
Definition try_recover_router_orphan : Proc Z :=
  a ← sweep_queue_phase;
  b ← sweep_staging_phase;
  mret (a + b).
End recovery.

(** * One tick *)
Definition populate_method_cache (pool_method : Z → option string) (pool_ids : list Z) (cache : gmap Z bool) : gmap Z bool :=
  let unknown := filter (λ p, cache !! p = None) pool_ids in
  let cache := foldl (λ c p, <[p := false]> c) cache unknown in
  foldl (λ c p, match pool_method p with Some m => <[p := is_order_sensitive_method m]> c | None => c end) cache unknown.
Definition cached_order_sensitive (cache : gmap Z bool) (pool_id : Z) : bool := default false (cache !! pool_id).
Definition group_must_not_split (cache : gmap Z bool) (g : list Candidate) : bool :=
  existsb (cached_order_sensitive cache) (concat (map cand_pool_keys g)).

(** The settings the tick reads. *)
Record Gucs := {
  guc_router_window_size : Z;
  guc_batch_size_max : Z;
  guc_eject_cooldown_ms : Z;
  guc_batch_window_us : Z;
}.

Section tick.
Context (gucs : Gucs) (now_us now_ns : Z) (reorder : bool) (pool_method : Z → option string)
        (env_values : gmap Z (list nat) → list (list nat))
        (group_values : gmap nat (list Candidate) → list (list Candidate)).

(** [while !group.is_empty()]: the number of groups emitted, and whether the tick
    goes on.  Each round drains at least one candidate. *)
Fixpoint emit_chunks (cache : gmap Z bool) (committer_capacity : Z) (chunk_cap : nat) (fuel : nat)
    (g : list Candidate) : Proc (Z * bool) :=
  match fuel, g with
  | _, [] => mret (0, true)
  | O, _ => throw RustPanic
  | S fuel, _ =>
      let take_n := Nat.min (length g) chunk_cap in
      outcome ← emit_commit_group (cached_order_sensitive cache) now_us reorder (take take_n g) committer_capacity;
      match outcome with
      | Exhausted => mret (0, false)
      | _ => r ← emit_chunks cache committer_capacity chunk_cap fuel (drop take_n g);
             mret (match outcome with Emitted => r.1 + 1 | _ => r.1 end, r.2)
      end
  end.
Definition chunk_cap_of (cache : gmap Z bool) (batch_max : Z) (g : list Candidate) : nat :=
  if group_must_not_split cache g then Nat.max (length g) 1 else Z.to_nat batch_max.
Fixpoint emit_groups (cache : gmap Z bool) (committer_capacity batch_max : Z) (gs : list (list Candidate)) : Proc Z :=
  match gs with
  | [] => mret 0
  | g :: gs =>
      let cap := chunk_cap_of cache batch_max g in
      (if group_must_not_split cache g then bump router_order_sensitive_groups_total 1 else mret tt);;
      if decide (cap = 0%nat) then throw RustPanic (* div_ceil by zero *) else
      let group_chunks := Z.of_nat (length g) `div` Z.of_nat cap + (if decide (Z.of_nat (length g) `mod` Z.of_nat cap = 0) then 0 else 1) in
      (if 1 <? group_chunks then bump router_cross_commit_group_for_update_waits (group_chunks - 1) else mret tt);;
      r ← emit_chunks cache committer_capacity cap (length g) g;
      if r.2 : bool then n ← emit_groups cache committer_capacity batch_max gs; mret (r.1 + n) else mret r.1
  end.

Definition oldest_age_us (metas : list CandidateMeta) : Z :=
  foldl (λ acc m, Z.max acc (Z.max 0 (now_us - meta_enqueued_at_micros m))) 0 metas.

Definition router_tick (cache : gmap Z bool) : Proc (Z * gmap Z bool) :=
  staging_capacity ← look (λ m, Z.of_nat (length (slots m)));
  committer_capacity ← look (λ m, Z.of_nat (length (groups m)));
  let window_limit := wrap_u32 (Z.max (guc_router_window_size gucs) 1) in
  let batch_max := wrap_u16 (Z.max (guc_batch_size_max gucs) 1) in
  bump router_ticks_total 1;;
  let cooldown_ms := wrap_u32 (Z.max (guc_eject_cooldown_ms gucs) 0) in
  metas ← collect_candidates staging_capacity window_limit now_ns cooldown_ms;
  if decide (metas = []) then mret (0, cache) else
  bump router_entries_scanned_total (Z.of_nat (length metas));;
  let window_us := wrap_u64 (guc_batch_window_us gucs) in
  if (0 <? window_us) && (oldest_age_us metas <? window_us)
  then bump router_window_defers_total 1;; mret (0, cache)
  else
    candidates ← hydrate_candidates metas;
    match affinity_group env_values group_values candidates with
    | Err _ => throw RustPanic
    | Ok gs =>
        let cache := populate_method_cache pool_method (remove_dups (concat (map cand_pool_keys (concat gs)))) cache in
        n ← emit_groups cache committer_capacity batch_max gs;
        mret (n, cache)
    end.
End tick.
