(* ===== verification/V3Crash.v ===== *)
(** A router that is killed while it emits a commit group, and the sweep of the
    one that is started in its place: whichever write was the last, no submission
    is lost and none is handed out twice.  Committers are not running here: the
    entries they have claimed are owned by live processes. *)
From S2P Require Import Prelude V3Arena V3Payload V3PoolSeq V3Affinity V3Shmem V3Router.

(** * Index blocks *)
Definition index_bytes (idxs : list Z) : list Z := concat (map to_le_bytes idxs).
Lemma chunks_index_bytes idxs :
  Forall (λ z, 0 ≤ z < 2 ^ 32) idxs → chunks_exact_4 (index_bytes idxs) = idxs.
Proof.
  induction 1 as [|z idxs Hz _ IH]; [done|]. unfold index_bytes. cbn [map concat].
  change (to_le_bytes z ++ concat (map to_le_bytes idxs)) with
    (z `mod` 256 :: (z `div` 256) `mod` 256 :: (z `div` 65536) `mod` 256 :: (z `div` 16777216) `mod` 256
       :: index_bytes idxs). cbn [chunks_exact_4]. rewrite IH. f_equal. exact (from_to_le_bytes z Hz).
Qed.
Lemma index_bytes_length idxs : length (index_bytes idxs) = (4 * length idxs)%nat.
Proof.
  unfold index_bytes. induction idxs as [|z idxs IH]; [done|]. cbn [map concat]. rewrite length_app, IH. cbn. lia.
Qed.

Lemma reads_as_read (a : SpilloverArena) o data :
  reads_as a o data → read_at o (Z.of_nat (length data)) (bytes a) = data.
Proof.
  intros Hr. apply list_eq. intros k. unfold read_at. change (map ?f ?l) with (f <$> l). rewrite list_lookup_fmap.
  destruct (data !! k) as [x|] eqn:E.
  - pose proof (lookup_lt_Some _ _ _ E). rewrite lookup_seqZ_lt by lia. cbn. f_equal. rewrite Z.add_0_l. by apply Hr.
  - apply lookup_ge_None in E. by rewrite lookup_seqZ_ge by lia.
Qed.

(** The staging indices a group's block holds. *)
Definition indices_of (a : SpilloverArena) (e : CommitterQueueEntry) : list Z :=
  chunks_exact_4 (read_at (ce_staging_entry_offsets e) (ce_submission_count e * 4) (bytes a)).
Definition block_ok (L : list (Z * Z)) (e : CommitterQueueEntry) : Prop :=
  ∃ b, b ∈ L ∧ ce_staging_entry_offsets e = b.1 + 8 ∧ 0 < ce_submission_count e < 2 ^ 16 ∧
       4 * ce_submission_count e ≤ b.2.

Lemma indices_of_unchanged L a a' e :
  block_ok L e → unchanged L a a' → indices_of a' e = indices_of a e.
Proof.
  intros (b & Hb & Ho & Hc & Hs) Hu. unfold indices_of. f_equal. apply read_at_ext. intros i Hi.
  apply (Hu b i Hb). unfold payload_of. lia.
Qed.
Lemma read_indices_run L a e :
  owns a L → block_ok L e →
  read_bytes (ce_staging_entry_offsets e) (wrap_u32 (ce_submission_count e * 4)) a =
    (Ok (read_at (ce_staging_entry_offsets e) (ce_submission_count e * 4) (bytes a)), a).
Proof.
  intros Ho (b & Hb & Hoff & Hc & Hs). destruct (owns_in _ _ _ Ho Hb) as (H1 & H2 & H3).
  unfold wrap_u32. rewrite Z.mod_small by lia. exact (read_law a (ce_staging_entry_offsets e) (ce_submission_count e * 4) ltac:(lia) ltac:(lia)).
Qed.

(** * The blocks of a commit group *)
Section group_blocks.
Context {A : Type} `{!Allocator A}.
Abbreviation Mem := (SE A ArenaFault).

(** An optional block: offset 0 stands for none. *)
Definition opt_block (o : Z) (N : list (Z * Z)) : Prop := (o = 0 ∧ N = []) ∨ ∃ b, o = b.1 + 8 ∧ N = [b].

Lemma free_opt a o N L :
  owns a (N ++ L) → opt_block o N → ∃ a', free_nonzero o a = (Ok tt, a') ∧ owns a' L ∧ unchanged L a a'.
Proof.
  intros Ho [[-> ->]|([h s] & -> & ->)]; [by exists a|]. cbn in Ho |- *. by apply (free_nonzero_run a L h s).
Qed.
Lemma free_group_spec a so po qo N1 N2 N3 L :
  owns a (N1 ++ N2 ++ N3 ++ L) → opt_block so N1 → opt_block po N2 → opt_block qo N3 →
  ∃ a', free_commit_group_arena so po qo a = (Ok tt, a') ∧ owns a' L ∧ unchanged L a a'.
Proof.
  intros Ho H1 H2 H3. destruct (free_opt a so N1 _ Ho H1) as (a1 & R1 & O1 & U1).
  destruct (free_opt a1 po N2 _ O1 H2) as (a2 & R2 & O2 & U2). destruct (free_opt a2 qo N3 _ O2 H3) as (a3 & R3 & O3 & U3).
  exists a3. unfold free_commit_group_arena. rewrite (SE_bind_run _ _ _ _ _ R1), (SE_bind_run _ _ _ _ _ R2). split_and!; [done|done|].
  eapply unchanged_trans; [|exact U3]. eapply unchanged_trans; eapply unchanged_sub; [exact U1| |exact U2|]; set_solver.
Qed.

(** Writing into a block of one's own leaves the others alone. *)
Lemma write_own a N L b data :
  owns a (N ++ L) → b ∈ N → Z.of_nat (length data) ≤ b.2 →
  ∃ a', al_write (b.1 + 8) data a = (Ok tt, a') ∧ owns a' (N ++ L) ∧ unchanged L a a' ∧
    reads_as a' (b.1 + 8) data ∧ ∀ c, c ∈ N → c ≠ b → unchanged [c] a a'.
Proof.
  intros Ho Hb Hlen. assert (b ∈ N ++ L) as Hb' by (apply elem_of_app; by left).
  destruct (write_apart a (N ++ L) b (b.1 + 8) data Ho Hb' ltac:(lia) ltac:(lia)) as (a' & Hrun & Ho' & Hr & Hap & _).
  exists a'. split_and!; [done|done| |done|].
  - intros c i Hc. apply (Hap c); [apply elem_of_app; by right| |by left]. intros ->.
    apply owns_NoDup, NoDup_app in Ho as (_ & Hd & _). by apply (Hd b).
  - intros c Hc. apply Hap. apply elem_of_app. by left.
Qed.

Lemma alloc_or_spec a L size undo L0 :
  owns a L → 0 < size ≤ 2 ^ 32 - 16 → L0 ⊆ L →
  (∀ a1, owns a1 L → ∃ a2, undo a1 = (Ok tt, a2) ∧ owns a2 L0 ∧ unchanged L0 a1 a2) →
  ∃ r a', alloc_or size undo a = (Ok r, a') ∧ unchanged L0 a a' ∧
    match r with
    | Some o => ∃ b, o = b.1 + 8 ∧ size ≤ b.2 ∧ owns a' (b :: L) ∧ unchanged L a a'
    | None => owns a' L0
    end.
Proof.
  intros Ho Hs Hsub Hundo. unfold alloc_or.
  destruct (alloc_law a L size Ho Hs) as [(h & s & a' & Hrun & Hle & Ho' & Hu)|(a' & Hrun & Ho' & Hu)];
    rewrite (SE_bind_run _ _ _ _ _ Hrun).
  - exists (Some (h + 8)), a'. split_and!; [done|eapply unchanged_sub; [exact Hu|done]|]. exists (h, s). done.
  - destruct (Hundo a' Ho') as (a2 & Hrun2 & Ho2 & Hu2). exists None, a2. rewrite (SE_bind_run _ _ _ _ _ Hrun2).
    split_and!; [done| |done]. eapply unchanged_trans; [eapply unchanged_sub; [exact Hu|done]|done].
Qed.

Definition seqs_fit (pools : list Z) (pool_seqs : option (list Z)) : Prop :=
  ∀ seqs, pool_seqs = Some seqs → length seqs = length pools.

Lemma staging_index_bytes_eq packed : staging_index_bytes packed = index_bytes (map cand_staging_idx packed).
Proof. unfold staging_index_bytes, index_bytes. by rewrite map_map. Qed.

(** The last three writes. *)
Lemma write_group_blocks a L packed pools pool_seqs n k bs po qo N2 N3 :
  owns a ((bs :: N2 ++ N3) ++ L) → Z.of_nat (length packed) = n → 4 * n ≤ bs.2 →
  k = Z.of_nat (length pools) → seqs_fit pools pool_seqs →
  (0 < k → ∃ b, po = b.1 + 8 ∧ N2 = [b] ∧ 8 * k ≤ b.2) →
  (is_Some pool_seqs → qo ≠ 0 → ∃ b, qo = b.1 + 8 ∧ N3 = [b] ∧ 8 * k ≤ b.2) →
  ∃ a', (al_write (bs.1 + 8) (staging_index_bytes packed);;
         (if 0 <? k then al_write po (pool_ids_to_le_bytes pools) else mret tt);;
         (match pool_seqs with
          | Some seqs => if decide (qo = 0) then mret tt else al_write qo (pool_ids_to_le_bytes seqs)
          | None => mret tt
          end);;
         mret (Some (bs.1 + 8, po, qo))) a = (Ok (Some (bs.1 + 8, po, qo)), a') ∧
    owns a' ((bs :: N2 ++ N3) ++ L) ∧ unchanged L a a' ∧ reads_as a' (bs.1 + 8) (staging_index_bytes packed).
Proof.
  intros Ho Hn Hbs Hk Hfit H2 H3. set (N := bs :: N2 ++ N3) in *.
  assert (bs ∈ N) as HbsN by (by left).
  assert (Z.of_nat (length (staging_index_bytes packed)) = 4 * n) as Hlen.
  { rewrite staging_index_bytes_eq, index_bytes_length, length_map. lia. }
  destruct (write_own a N L bs (staging_index_bytes packed) Ho HbsN ltac:(lia)) as (a1 & R1 & O1 & U1 & Rd1 & _).
  assert (∀ c, c ∈ N2 ++ N3 → c ≠ bs) as Hne.
  { intros c Hc ->. apply owns_NoDup, NoDup_app in Ho as (Hnd & _). unfold N in Hnd. by apply NoDup_cons in Hnd as [? _]. }
  rewrite (SE_bind_run _ _ _ _ _ R1).
  (* the optional write of [data] into one of the other blocks *)
  assert (∀ x (m : Mem unit), owns x (N ++ L) → reads_as x (bs.1 + 8) (staging_index_bytes packed) →
    (m = mret tt ∨ ∃ b data, b ∈ N2 ++ N3 ∧ m = al_write (b.1 + 8) data ∧ Z.of_nat (length data) ≤ b.2) →
    ∃ x', m x = (Ok tt, x') ∧ owns x' (N ++ L) ∧ unchanged L x x' ∧ reads_as x' (bs.1 + 8) (staging_index_bytes packed)) as Hopt.
  { intros x m Hox Hrx [->|(b & data & Hb & -> & Hlb)]; [by exists x|].
    destruct (write_own x N L b data Hox ltac:(by right) Hlb) as (x' & R & O & U & _ & Uc). exists x'. split_and!; [done..|].
    eapply (reads_as_mono x x' _ _ bs); [exact Hrx|lia|lia|]. intros i Hi.
    refine (Uc bs HbsN _ bs i _ Hi); [|by left]. intros ->. by apply (Hne b). }
  destruct (Hopt a1 (if 0 <? k then al_write po (pool_ids_to_le_bytes pools) else mret tt) O1 Rd1) as (a2 & R2 & O2 & U2 & Rd2).
  { destruct (Z.ltb_spec 0 k) as [Hk0|]; [|by left]. right. destruct (H2 Hk0) as (b & -> & -> & Hb).
    exists b, (pool_ids_to_le_bytes pools). split_and!; [by left|done|]. rewrite pool_ids_bytes_length. lia. }
  rewrite (SE_bind_run _ _ _ _ _ R2).
  destruct (Hopt a2 (match pool_seqs with
          | Some seqs => if decide (qo = 0) then mret tt else al_write qo (pool_ids_to_le_bytes seqs)
          | None => mret tt end) O2 Rd2) as (a3 & R3 & O3 & U3 & Rd3).
  { destruct pool_seqs as [seqs|]; [|by left]. case_decide as Hq; [by left|]. right.
    destruct (H3 ltac:(by eexists) Hq) as (b & -> & -> & Hb). exists b, (pool_ids_to_le_bytes seqs).
    split_and!; [apply elem_of_app; right; by left|done|]. rewrite pool_ids_bytes_length, (Hfit seqs eq_refl). lia. }
  rewrite (SE_bind_run _ _ _ _ _ R3). exists a3. split_and!; [done|done| |done].
  eapply unchanged_trans; [exact U1|]. by eapply unchanged_trans.
Qed.

(** The second block, for the pool ids. *)
Lemma pool_block_spec a L h s k :
  owns a ((h, s) :: L) → 0 ≤ k < 2 ^ 16 →
  ∃ r a', (if 0 <? k then alloc_or (wrap_u32 (k * 8)) (al_free (h + 8)) else mret (Some 0)) a = (Ok r, a') ∧
    unchanged L a a' ∧
    match r with
    | None => owns a' L
    | Some po => ∃ N, owns a' (N ++ (h, s) :: L) ∧ opt_block po N ∧ (0 < k → ∃ b, po = b.1 + 8 ∧ N = [b] ∧ 8 * k ≤ b.2)
    end.
Proof.
  intros Ho Hk. destruct (Z.ltb_spec 0 k) as [Hk0|Hk0].
  - unfold wrap_u32. rewrite Z.mod_small by lia.
    destruct (alloc_or_spec a _ (k * 8) (al_free (h + 8)) L Ho ltac:(lia) ltac:(set_solver)) as (r & a2 & R & U & H).
    { intros x Hx. destruct (free_law _ _ _ _ Hx) as (x' & ? & ? & ?). by exists x'. }
    exists r, a2. split_and!; [done|done|]. destruct r as [o|]; [|done]. destruct H as (b & -> & Hb & Ho2 & _).
    exists [b]. split_and!; [done|right; eauto|]. intros _. exists b. split_and!; [done|done|lia].
  - exists (Some 0), a. split_and!; [done|by intros ???|]. exists []. split_and!; [done|by left|lia].
Qed.
(** The third, for the sequence numbers. *)
Lemma seqs_block_spec a L h s po N2 (wanted : bool) k :
  owns a (N2 ++ (h, s) :: L) → opt_block po N2 → 0 ≤ k < 2 ^ 16 →
  ∃ r a', (if wanted && (0 <? k) then alloc_or (wrap_u32 (k * 8)) (al_free (h + 8);; free_nonzero po) else mret (Some 0)) a = (Ok r, a') ∧
    unchanged L a a' ∧
    match r with
    | None => owns a' L
    | Some qo => ∃ N3, owns a' (N3 ++ N2 ++ (h, s) :: L) ∧ opt_block qo N3 ∧ (qo ≠ 0 → ∃ b, qo = b.1 + 8 ∧ N3 = [b] ∧ 8 * k ≤ b.2)
    end.
Proof.
  intros Ho Hopt Hk. destruct (wanted && (0 <? k)) eqn:E.
  - apply andb_prop in E as [_ Hk0%Z.ltb_lt]. unfold wrap_u32. rewrite Z.mod_small by lia.
    destruct (alloc_or_spec a _ (k * 8) (al_free (h + 8);; free_nonzero po) L Ho ltac:(lia) ltac:(set_solver)) as (r & a3 & R & U & H).
    { intros x Hx. assert (owns x ((h, s) :: N2 ++ L)) as Hx' by (eapply owns_perm; [|exact Hx]; by rewrite Permutation_middle).
      destruct (free_law _ _ _ _ Hx') as (x1 & Rx & Ox & Ux). destruct (free_opt x1 po N2 L Ox Hopt) as (x2 & Rx2 & Ox2 & Ux2).
      exists x2. rewrite (SE_bind_run _ _ _ _ _ Rx). split_and!; [done|done|].
      eapply unchanged_trans; [eapply unchanged_sub; [exact Ux|set_solver]|done]. }
    exists r, a3. split_and!; [done|done|]. destruct r as [o|]; [|done]. destruct H as (b & -> & Hb & Ho3 & _).
    exists [b]. split_and!; [done|right; eauto|]. intros _. exists b. split_and!; [done|done|lia].
  - exists (Some 0), a. split_and!; [done|by intros ???|]. exists []. split_and!; [done|by left|done].
Qed.

Lemma allocate_group_spec a L packed pools pool_seqs :
  owns a L → packed ≠ [] → Z.of_nat (length packed) < 2 ^ 16 → Z.of_nat (length pools) < 2 ^ 16 → seqs_fit pools pool_seqs →
  ∃ r a', allocate_commit_group_arena (Z.of_nat (length packed)) packed (Z.of_nat (length pools)) pools pool_seqs a = (Ok r, a') ∧
    unchanged L a a' ∧
    match r with
    | None => owns a' L
    | Some (so, po, qo) => ∃ bs N2 N3, so = bs.1 + 8 ∧ opt_block po N2 ∧ opt_block qo N3 ∧
        4 * Z.of_nat (length packed) ≤ bs.2 ∧ owns a' ((bs :: N2 ++ N3) ++ L) ∧ reads_as a' so (staging_index_bytes packed)
    end.
Proof.
  intros Ho Hne Hn Hk Hfit. set (n := Z.of_nat (length packed)) in *. set (k := Z.of_nat (length pools)) in *.
  assert (0 < n) as Hn0 by (destruct packed; [done|]; unfold n; cbn; lia). unfold allocate_commit_group_arena, wrap_u32.
  rewrite (Z.mod_small (n * 4)), Z.max_l by lia.
  destruct (alloc_law a L (n * 4) Ho ltac:(lia)) as [(h & s & a1 & R1 & Hs1 & O1 & U1)|(a1 & R1 & O1 & U1)];
    rewrite (SE_bind_run _ _ _ _ _ R1); [|by exists None, a1].
  destruct (pool_block_spec a1 L h s k O1 ltac:(lia)) as (r2 & a2 & R2 & U2 & H2).
  unfold wrap_u32 in R2. rewrite (SE_bind_run _ _ _ _ _ R2). pose proof (unchanged_trans _ _ _ _ U1 U2) as U12.
  destruct r2 as [po|]; [|by exists None, a2]. destruct H2 as (N2 & O2 & Hopt2 & H2).
  destruct (seqs_block_spec a2 L h s po N2 (bool_decide (is_Some pool_seqs)) k O2 Hopt2 ltac:(lia)) as (r3 & a3 & R3 & U3 & H3).
  unfold wrap_u32 in R3. rewrite (SE_bind_run _ _ _ _ _ R3). pose proof (unchanged_trans _ _ _ _ U12 U3) as U123.
  destruct r3 as [qo|]; [|by exists None, a3]. destruct H3 as (N3 & O3 & Hopt3 & H3).
  assert (owns a3 (((h, s) :: N2 ++ N3) ++ L)) as O3'.
  { eapply owns_perm; [|exact O3]. rewrite app_assoc, (Permutation_app_comm N3 N2). by rewrite <-Permutation_middle. }
  destruct (write_group_blocks a3 L packed pools pool_seqs n k (h, s) po qo N2 N3) as (a4 & R4 & O4 & U4 & Rd4); try done; [cbn; lia|].
  exists (Some (h + 8, po, qo)), a4. split_and!; [exact R4|by eapply unchanged_trans|].
  exists (h, s), N2, N3. split_and!; try done. cbn. lia.
Qed.
End group_blocks.

(** * Consistency *)
Section consistency.
Context (process_exists : Z → bool).

Definition ready (e : CommitterQueueEntry) : Prop := ce_valid e = 1.
(** The state of a slot that group [cg] lists; [lax] while the router is at work. *)
Definition slot_ok (lax : bool) (cg : Z) (s : StagingEntry) : Prop :=
  (se_valid s = 3 ∧ se_commit_group_id s = cg) ∨
  (lax = true ∧ se_valid s = 2 ∧ (se_commit_group_id s = 0 ∨ se_commit_group_id s = cg)).
Definition lists (σ : Shmem) (j : nat) (e : CommitterQueueEntry) (i : nat) : Prop :=
  groups σ !! j = Some e ∧ ready e ∧ Z.of_nat i ∈ indices_of (SPILLOVER_ARENA σ) e.

Record consistent (lax : bool) (L : list (Z * Z)) (σ : Shmem) : Prop := {
  co_owns : owns (SPILLOVER_ARENA σ) L;
  co_block : ∀ j e, groups σ !! j = Some e → ready e → block_ok L e;
  co_index : ∀ j e z, groups σ !! j = Some e → ready e → z ∈ indices_of (SPILLOVER_ARENA σ) e → 0 ≤ z;
  co_slots : ∀ j e i, lists σ j e i → ∃ s, slots σ !! i = Some s ∧ slot_ok lax (ce_commit_group_id e) s;
  co_apart : ∀ j j' e e' i, lists σ j e i → lists σ j' e' i → j = j';
  co_ids : ∀ j e, groups σ !! j = Some e → ce_valid e ≠ 0 →
    0 < ce_commit_group_id e ≤ cq_next_commit_group_id (COMMITTER_QUEUE σ);
  co_alive : ∀ j e, groups σ !! j = Some e → ce_valid e = 2 →
    is_committer_alive process_exists (ce_committer_bgw_slot e) (ce_committer_bgw_generation e) (COMMITTER_QUEUE σ) = true;
  co_next : 0 ≤ cq_next_commit_group_id (COMMITTER_QUEUE σ);
}.

(** Between two emissions. *)
Record idle (L : list (Z * Z)) (σ : Shmem) : Prop := {
  id_consistent : consistent false L σ;
  id_settled : ∀ i s, slots σ !! i = Some s → se_valid s ≠ 2;
  id_pending : ∀ i s, slots σ !! i = Some s → se_valid s = 1 → se_commit_group_id s = 0;
}.

(** What an emission from [σ0] may have done to a slot. *)
Definition moved (σ : Shmem) (i : nat) (s0 s : StagingEntry) : Prop :=
  s = se_with (se_valid s) (se_commit_group_id s) s0 ∧
  ((se_valid s = se_valid s0 ∧ se_commit_group_id s = se_commit_group_id s0) ∨
   (se_valid s0 = 1 ∧ se_valid s = 2 ∧ se_commit_group_id s = 0) ∨
   (se_valid s0 = 1 ∧ (se_valid s = 2 ∨ se_valid s = 3) ∧
      ∃ j e, lists σ j e i ∧ se_commit_group_id s = ce_commit_group_id e)).
Record mid (σ0 : Shmem) (L : list (Z * Z)) (σ : Shmem) : Prop := {
  mid_consistent : consistent true L σ;
  mid_length : length (slots σ) = length (slots σ0);
  mid_moved : ∀ i s0 s, slots σ0 !! i = Some s0 → slots σ !! i = Some s → moved σ i s0 s;
}.
Definition mid_of (σ0 σ : Shmem) : Prop := ∃ L, mid σ0 L σ.

(** ** Changing one slot *)
Lemma slots_on_slot σ i f k :
  slots (on_slot i f σ) !! k = if decide (k = i) then f <$> slots σ !! k else slots σ !! k.
Proof.
  unfold slots, on_slot, on_staging. cbn. case_decide as E; [subst k; apply list_lookup_alter_eq|].
  by apply list_lookup_alter_ne.
Qed.
Lemma on_slot_twice σ i f g : on_slot i g (on_slot i f σ) = on_slot i (λ s, g (f s)) σ.
Proof.
  unfold on_slot, on_staging, sq_set_entries. cbn.
  enough (alter g i (alter f i (sq_entries (STAGING_QUEUE σ))) = alter (λ s, g (f s)) i (sq_entries (STAGING_QUEUE σ))) as -> by done.
  apply list_eq. intros k. destruct (decide (k = i)) as [->|Hne].
  - rewrite !list_lookup_alter_eq. by destruct (sq_entries _ !! i).
  - by rewrite !list_lookup_alter_ne.
Qed.
Lemma length_on_slot σ i f : length (slots (on_slot i f σ)) = length (slots σ).
Proof. unfold slots, on_slot, on_staging. cbn. apply length_alter. Qed.
Lemma lists_on_slot σ i f j e k : lists (on_slot i f σ) j e k ↔ lists σ j e k.
Proof. done. Qed.

(** A slot takes a state that suits every group that lists it. *)
Lemma consistent_on_slot lax L σ i f s :
  consistent lax L σ → slots σ !! i = Some s →
  (∀ j e, lists σ j e i → slot_ok lax (ce_commit_group_id e) (f s)) → consistent lax L (on_slot i f σ).
Proof.
  intros [H1 H2 H3 H4 H5 H6 H7 H8] Hs Hf. split; try done. intros j e k Hl. rewrite slots_on_slot.
  destruct (H4 j e k Hl) as (s' & Hs' & Hok). case_decide as E; [|eauto].
  subst k. rewrite Hs. exists (f s). split; [done|]. by apply (Hf j e).
Qed.
Lemma mid_on_slot σ0 L σ i f s :
  mid σ0 L σ → slots σ !! i = Some s →
  (∀ j e, lists σ j e i → slot_ok true (ce_commit_group_id e) (f s)) →
  (∀ s0, slots σ0 !! i = Some s0 → moved σ i s0 s → moved σ i s0 (f s)) → mid σ0 L (on_slot i f σ).
Proof.
  intros [H1 H2 H3] Hs Hf Hm. split; [by eapply consistent_on_slot|by rewrite length_on_slot|].
  intros k s0 s' H0. rewrite slots_on_slot. case_decide as E; [|by apply H3].
  subst k. rewrite Hs. intros [= <-]. apply Hm; [done|]. by apply H3.
Qed.

(** * The sweep *)
Section sweep.
Context (σ0 : Shmem) (L : list (Z * Z)) (Hidle : idle L σ0).

Definition restamped (j : nat) (σ : Shmem) : Prop :=
  ∀ e i s, lists σ j e i → slots σ !! i = Some s → se_valid s = 3.
(** What the queue phase has reached after the entries [done]. *)
Definition queue_swept (L' : list (Z * Z)) (done : list nat) (σ : Shmem) : Prop :=
  mid σ0 L' σ ∧ ∀ j, j ∈ done → restamped j σ.

Lemma wp_sumM {A} (f : A → Proc Z) (P : list A → Shmem → Prop) (I : Shmem → Prop) l σ :
  P [] σ → (∀ l1 a l2 σ, l = l1 ++ a :: l2 → P l1 σ → wp (f a) (λ _, P (l1 ++ [a])) I σ) →
  wp (sumM f l) (λ _, P l) I σ.
Proof.
  intros H0 Hstep. assert (∀ l1 l2 σ, l = l1 ++ l2 → P l1 σ → wp (sumM f l2) (λ _, P l) I σ) as Hgen.
  { intros l1 l2. revert l1. induction l2 as [|a l2 IH]; intros l1 σ' Hl HP; cbn.
    - apply wp_ret. by rewrite Hl, app_nil_r.
    - apply wp_bind. eapply wp_mono; [by eapply Hstep|cbn|done]. intros n σ1 H1. apply wp_bind.
      eapply wp_mono; [apply (IH (l1 ++ [a])); [by rewrite <-app_assoc|done]|cbn|done]. intros k σ2 H2. by apply wp_ret. }
  by apply (Hgen []).
Qed.

(** Completing the stamp of a slot that a ready group lists. *)
Lemma moved_listed σ i s0 s v j e :
  moved σ i s0 s → se_valid s = 2 → lists σ j e i → (v = 2 ∨ v = 3) →
  (∀ s0, slots σ0 !! i = Some s0 → se_valid s0 ≠ 2) → slots σ0 !! i = Some s0 →
  moved σ i s0 (se_with v (ce_commit_group_id e) s).
Proof.
  intros [Hs Hm] Hv Hl Hvv Hset H0. split; [rewrite Hs at 1; done|]. right. right. cbn.
  specialize (Hset _ H0). split; [|split; [done|eauto]].
  destruct Hm as [[? _]|[[? _]|[? _]]]; [congruence|done|done].
Qed.
Lemma restamp_spec L' σ j e i P :
  mid σ0 L' σ → lists σ j e i →
  (∀ σ', mid σ0 L' σ' → groups σ' = groups σ → SPILLOVER_ARENA σ' = SPILLOVER_ARENA σ →
     (∀ k s s', slots σ !! k = Some s → slots σ' !! k = Some s' → se_valid s = 3 → se_valid s' = 3) →
     (∀ s, slots σ' !! i = Some s → se_valid s = 3) → ∀ b, P b σ') →
  wp (try_restamp_staging_to_routed (Z.of_nat i) (ce_commit_group_id e)) P (mid_of σ0) σ.
Proof.
  intros Hmid Hl HP. destruct (co_slots _ _ _ (mid_consistent _ _ _ Hmid) j e i Hl) as (s & Hs & Hok).
  assert (∀ s0, slots σ0 !! i = Some s0 → se_valid s0 ≠ 2) as Hset by (intros s0; apply (id_settled _ _ Hidle)).
  assert (∀ j' e', lists σ j' e' i → e' = e) as Hone.
  { intros j' e' Hl'. pose proof (co_apart _ _ _ (mid_consistent _ _ _ Hmid) _ _ _ _ _ Hl Hl') as <-.
    destruct Hl as [Hg _], Hl' as [Hg' _]. congruence. }
  unfold try_restamp_staging_to_routed. rewrite Nat2Z.id. apply wp_bind, (wp_slot _ s); [done|].
  destruct Hok as [[Hv Hcg]|(_ & Hv & Hcg)]; rewrite Hv; cbn -[slots].
  { apply wp_ret, HP; try done; [by intros; simplify_eq|]. intros s' Hs'. congruence. }
  assert ((negb (se_commit_group_id s =? 0) && negb (se_commit_group_id s =? ce_commit_group_id e)) = false) as ->.
  { destruct Hcg as [->| ->]; [done|]. rewrite Z.eqb_refl. by rewrite andb_false_r. }
  set (σ1 := on_slot i (se_set_cg (ce_commit_group_id e)) σ).
  assert (slots σ1 !! i = Some (se_set_cg (ce_commit_group_id e) s)) as Hs1.
  { unfold σ1. by rewrite slots_on_slot, decide_True, Hs by done. }
  assert (mid σ0 L' σ1) as Hmid1.
  { eapply mid_on_slot; [done|done|..].
    - intros j' e' Hl'. rewrite (Hone _ _ Hl'). right. cbn. auto.
    - intros s0 H0 Hm. unfold se_set_cg. rewrite Hv. by eapply moved_listed; eauto. }
  apply wp_bind, (wp_store_cg _ _ s); [done|by exists L'|]. fold σ1.
  apply (wp_cas_slot _ _ _ (se_set_cg (ce_commit_group_id e) s)); [done|by exists L'| |intros Hne; by destruct Hne].
  intros _. apply HP; try done.
  - eapply mid_on_slot; [done|done|..].
    + intros j' e' Hl'. rewrite (Hone _ _ Hl'). left. done.
    + intros s0 H0 Hm. change (se_set_valid 3 (se_set_cg (ce_commit_group_id e) s))
        with (se_with 3 (ce_commit_group_id e) (se_set_cg (ce_commit_group_id e) s)). by eapply moved_listed; eauto.
  - intros k t t' Ht Ht' Hv3. rewrite slots_on_slot in Ht'. unfold σ1 in Ht'. rewrite slots_on_slot in Ht'.
    repeat case_decide; congruence.
  - intros t Ht. rewrite slots_on_slot, decide_True, Hs1 in Ht by done. by injection Ht as <-.
Qed.

(** The slots of one ready group. *)
Lemma restamp_group_spec L' σ j e done :
  queue_swept L' done σ → groups σ !! j = Some e → ready e →
  wp (sumM (λ s_idx, b ← try_restamp_staging_to_routed s_idx (ce_commit_group_id e); mret (count_true b))
        (indices_of (SPILLOVER_ARENA σ) e))
     (λ _ σ', queue_swept L' (done ++ [j]) σ' ∧ groups σ' = groups σ) (mid_of σ0) σ.
Proof.
  intros [Hmid Hdone] He Hr. pose proof (mid_consistent _ _ _ Hmid) as Hco.
  eapply wp_mono; [apply (wp_sumM _ (λ l σ', mid σ0 L' σ' ∧ groups σ' = groups σ ∧ SPILLOVER_ARENA σ' = SPILLOVER_ARENA σ ∧
      (∀ k, k ∈ done → restamped k σ') ∧ ∀ z s, z ∈ l → slots σ' !! Z.to_nat z = Some s → se_valid s = 3))| |done].
  - split_and!; [done|done|done|done|by intros ? ? ?%elem_of_nil].
  - intros l1 z l2 σ1 Hl (M1 & M2 & M3 & M4 & M5). apply wp_bind.
    assert (z ∈ indices_of (SPILLOVER_ARENA σ) e) as Hz by (rewrite Hl; apply elem_of_app; right; by left).
    pose proof (co_index _ _ _ Hco j e z He Hr Hz) as Hz0.
    rewrite <-(Z2Nat.id z) at 1 by done. eapply (restamp_spec L' σ1 j e (Z.to_nat z)); [done| |].
    { split_and!; [by rewrite M2|done|]. rewrite M3, Z2Nat.id by done. done. }
    intros σ2 N1 N2 N3 N4 N5 b. apply wp_ret. split_and!; [done|congruence|congruence|..].
    + intros k Hk e' i s Hli Hs'. assert (lists σ1 k e' i) as Hli1 by (destruct Hli as (?&?&?); split_and!; congruence).
      destruct (co_slots _ _ _ (mid_consistent _ _ _ M1) _ _ _ Hli1) as (t & Ht & _).
      eapply N4; [exact Ht|exact Hs'|]. by eapply M4.
    + intros z' s [Hz'| ->%list_elem_of_singleton]%elem_of_app Hs'; [|by apply N5].
      assert (is_Some (slots σ1 !! Z.to_nat z')) as [t Ht].
      { apply lookup_lt_is_Some. rewrite (mid_length _ _ _ M1), <-(mid_length _ _ _ N1). by eapply lookup_lt_Some. }
      eapply N4; [exact Ht|exact Hs'|]. by eapply M5.
  - cbn. intros _ σ' (M1 & M2 & M3 & M4 & M5). split; [|done]. split; [done|].
    intros k [Hk| ->%list_elem_of_singleton]%elem_of_app; [by apply M4|]. intros e' i s (He' & _ & Hin) Hs'.
    rewrite M2 in He'. rewrite M3 in Hin. assert (e' = e) as -> by congruence. eapply M5; [exact Hin|]. by rewrite Nat2Z.id.
Qed.

(** One entry of the committer queue. *)
Lemma sweep_entry_spec L' σ j done :
  queue_swept L' done σ → (j < length (groups σ))%nat →
  wp (sweep_queue_entry process_exists j) (λ _ σ', queue_swept L' (done ++ [j]) σ' ∧ groups σ' = groups σ) (mid_of σ0) σ.
Proof.
  intros Hswept Hj. pose proof Hswept as [Hmid Hdone]. destruct (lookup_lt_is_Some_2 (groups σ) j Hj) as [e He].
  pose proof (mid_consistent _ _ _ Hmid) as Hco.
  assert (¬ ready e → queue_swept L' (done ++ [j]) σ ∧ groups σ = groups σ) as Hskip.
  { intros Hnr. split; [|done]. split; [done|]. intros k [Hk|Hk%list_elem_of_singleton]%elem_of_app; [by apply Hdone|].
    subst k. intros e' i s (He' & Hr & _). congruence. }
  unfold sweep_queue_entry. apply wp_bind, (wp_group _ e); [done|]. destruct (Z.eqb_spec (ce_valid e) 1) as [Hr|Hr].
  - destruct (co_block _ _ _ Hco j e He Hr) as (b & Hb & Hoff & Hc & Hs).
    destruct (owns_in _ _ _ (co_owns _ _ _ Hco) Hb) as (B1 & _ & _).
    assert ((ce_submission_count e =? 0) || (ce_staging_entry_offsets e =? 0) = false) as Hnz.
    { apply orb_false_iff. split; apply Z.eqb_neq; lia. }
    rewrite Hnz. apply wp_bind. unfold read_staging_indices. rewrite Hnz. apply wp_bind.
    eapply wp_read_arena; [apply (read_indices_run L'); [apply (co_owns _ _ _ Hco)|by eapply (co_block _ _ _ Hco)]|].
    apply wp_ret. by apply (restamp_group_spec L' σ j e).
  - destruct (Z.eqb_spec (ce_valid e) 2) as [H2|H2]; [|by apply wp_ret, Hskip].
    destruct (ce_committer_bgw_generation e =? 0); [by apply wp_ret, Hskip|]. apply wp_bind, wp_look.
    rewrite (co_alive _ _ _ Hco j e He H2). by apply wp_ret, Hskip.
Qed.
Lemma sweep_queue_spec L' σ :
  mid σ0 L' σ →
  wp (sweep_queue_phase process_exists) (λ _ σ', queue_swept L' (seq 0 (length (groups σ'))) σ') (mid_of σ0) σ.
Proof.
  intros Hmid. unfold sweep_queue_phase. apply wp_bind, wp_look.
  eapply wp_mono; [apply (wp_sumM _ (λ l σ', queue_swept L' l σ' ∧ length (groups σ') = length (groups σ)))| |done].
  - split; [|done]. split; [done|by intros ? ?%elem_of_nil].
  - intros l1 j l2 σ1 Hl [Hs Hlen]. eapply wp_mono; [apply (sweep_entry_spec L' σ1 j l1 Hs)| |done].
    + assert (j ∈ seq 0 (length (groups σ))) as Hj by (rewrite Hl; apply elem_of_app; right; by left).
      apply elem_of_seq in Hj. lia.
    + cbn. intros _ σ2 [H1 ->]. auto.
  - cbn. intros _ σ' [Hs ->]. done.
Qed.

Definition queue_settled (σ : Shmem) : Prop :=
  ∀ j e i s, lists σ j e i → slots σ !! i = Some s → se_valid s = 3.
Lemma queue_swept_settled L' σ : queue_swept L' (seq 0 (length (groups σ))) σ → queue_settled σ.
Proof.
  intros [_ H] j e i s Hl. apply (H j) with e; [|done]. apply elem_of_seq. destruct Hl as [Hj%lookup_lt_Some _]. lia.
Qed.
Lemma consistent_ext lax L' σ σ' :
  slots σ' = slots σ → COMMITTER_QUEUE σ' = COMMITTER_QUEUE σ → SPILLOVER_ARENA σ' = SPILLOVER_ARENA σ →
  consistent lax L' σ → consistent lax L' σ'.
Proof.
  intros Hs Hc Ha. destruct σ as [q c a t], σ' as [q' c' a' t']. cbn in Hc, Ha. subst c' a'.
  intros [H1 H2 H3 H4 H5 H6 H7 H8]. split; try done. intros j e i Hl. rewrite Hs. by apply (H4 j e i).
Qed.
Lemma mid_ext L' σ σ' :
  slots σ' = slots σ → COMMITTER_QUEUE σ' = COMMITTER_QUEUE σ → SPILLOVER_ARENA σ' = SPILLOVER_ARENA σ →
  mid σ0 L' σ → mid σ0 L' σ'.
Proof.
  intros Hs Hc Ha [H1 H2 H3]. split; [by eapply consistent_ext|by rewrite Hs|].
  intros i s0 s H0. rewrite Hs. intros H. destruct σ as [q c a t], σ' as [q' c' a' t']. cbn in Hc, Ha. subst c' a'.
  exact (H3 i s0 s H0 H).
Qed.

(** A slot still at 2 was never stamped, and goes back to pending. *)
Lemma unstamped L' σ i s :
  mid σ0 L' σ → queue_settled σ → slots σ !! i = Some s → se_valid s = 2 →
  se_commit_group_id s = 0 ∧ (∀ j e, ¬ lists σ j e i) ∧
  ∃ s0, slots σ0 !! i = Some s0 ∧ se_valid s0 = 1 ∧ se_commit_group_id s0 = 0 ∧ s = se_with 2 0 s0.
Proof.
  intros Hmid Hq Hs Hv. assert (∀ j e, ¬ lists σ j e i) as Hno by (intros j e Hl; pose proof (Hq j e i s Hl Hs); lia).
  destruct (lookup_lt_is_Some_2 (slots σ0) i) as [s0 H0].
  { rewrite <-(mid_length _ _ _ Hmid). by eapply lookup_lt_Some. }
  destruct (mid_moved _ _ _ Hmid i s0 s H0 Hs) as [Heq [[Hv0 _]|[(Hv0 & _ & Hcg)|(_ & _ & j & e & Hl & _)]]].
  - exfalso. apply (id_settled _ _ Hidle i s0 H0). lia.
  - split_and!; [done|done|]. exists s0. split_and!; [done|done|by eapply (id_pending _ _ Hidle)|]. by rewrite Heq, Hv, Hcg.
  - by destruct (Hno j e).
Qed.
Definition slots_swept (L' : list (Z * Z)) (done : list nat) (σ : Shmem) : Prop :=
  mid σ0 L' σ ∧ queue_settled σ ∧ ∀ i s, i ∈ done → slots σ !! i = Some s → se_valid s ≠ 2.

Lemma slots_swept_pending L' done σ i s f :
  slots_swept L' done σ → slots σ !! i = Some s → (∀ j e, ¬ lists σ j e i) →
  (∃ s0, slots σ0 !! i = Some s0 ∧ se_valid s0 = 1 ∧ se_commit_group_id s0 = 0 ∧ f s = se_with 1 0 s0) →
  slots_swept L' (done ++ [i]) (on_slot i f σ).
Proof.
  intros (Hmid & Hq & Hdone) Hs Hno (s0 & H0 & Hv0 & Hcg0 & Hf). split_and!.
  - eapply mid_on_slot; [done|done|by intros j e Hl; destruct (Hno j e)|].
    intros t0 Ht0 _. assert (t0 = s0) as -> by congruence. rewrite Hf. split; [done|]. left. cbn. by rewrite Hv0, Hcg0.
  - intros j e k t Hl. rewrite slots_on_slot. case_decide as E; [subst k; by destruct (Hno j e)|]. by apply Hq with j e.
  - intros k t Hk. rewrite slots_on_slot. case_decide as E.
    + subst k. rewrite Hs. intros [= <-]. rewrite Hf. done.
    + apply Hdone. apply elem_of_app in Hk as [?|?%list_elem_of_singleton]; done.
Qed.
Lemma sweep_slot_spec L' σ i done active :
  slots_swept L' done σ → (i < length (slots σ))%nat →
  wp (ok ← try_revert_orphan_staging i active; if ok : bool then write (on_staging sq_count_wake);; mret 1 else mret 0)
     (λ _, slots_swept L' (done ++ [i])) (mid_of σ0) σ.
Proof.
  intros Hsw Hi. pose proof Hsw as (Hmid & Hq & Hdone). destruct (lookup_lt_is_Some_2 (slots σ) i Hi) as [s Hs].
  apply wp_bind. unfold try_revert_orphan_staging. apply wp_bind, (wp_slot _ s); [done|].
  destruct (Z.eqb_spec (se_valid s) 2) as [Hv|Hv]; cbn [negb].
  2: { do 2 apply wp_ret. split_and!; [done|done|]. intros k t [Hk| ->%list_elem_of_singleton]%elem_of_app Ht; [by eapply Hdone|congruence]. }
  destruct (unstamped L' σ i s Hmid Hq Hs Hv) as (Hcg & Hno & s0 & H0 & Hv0 & Hcg0 & ->).
  rewrite Hcg. cbn [Z.eqb negb andb]. apply wp_bind.
  set (σ1 := on_slot i (se_set_valid 1) σ).
  assert (slots_swept L' (done ++ [i]) σ1) as Hsw1 by (eapply slots_swept_pending; eauto; by exists s0).
  assert (slots σ1 !! i = Some (se_with 1 0 s0)) as Hs1 by (unfold σ1; by rewrite slots_on_slot, decide_True, Hs).
  apply (wp_cas_slot _ _ _ (se_with 2 0 s0)); [done|by exists L'| |by intros []].
  intros _. fold σ1. apply wp_bind, (wp_store_cg _ _ (se_with 1 0 s0)); [done|exists L'; apply Hsw1|].
  assert (slots_swept L' (done ++ [i]) (on_slot i (se_set_cg 0) σ1)) as Hsw2.
  { pose proof (slots_swept_pending L' (done ++ [i]) σ1 i _ (se_set_cg 0) Hsw1 Hs1 Hno) as (A & B & C); [by exists s0|].
    split_and!; [done|done|]. intros k t Hk. apply C. apply elem_of_app. by left. }
  apply wp_ret, wp_bind, wp_write; [exists L'; apply Hsw2|]. apply wp_ret. destruct Hsw2 as (A & B & C).
  split_and!; [by eapply mid_ext; [..|exact A]|exact B|exact C].
Qed.
Lemma sweep_staging_spec L' σ :
  mid σ0 L' σ → queue_settled σ →
  wp sweep_staging_phase (λ _ σ', slots_swept L' (seq 0 (length (slots σ'))) σ') (mid_of σ0) σ.
Proof.
  intros Hmid Hq. unfold sweep_staging_phase. do 2 apply wp_bind, wp_look.
  eapply wp_mono; [apply (wp_sumM _ (λ l σ', slots_swept L' l σ'))| |done].
  - split_and!; [done|done|by intros ? ? ?%elem_of_nil].
  - intros l1 i l2 σ1 Hl Hsw. apply sweep_slot_spec; [done|]. rewrite (mid_length _ _ _ (proj1 Hsw)), <-(mid_length _ _ _ Hmid).
    assert (i ∈ seq 0 (length (slots σ))) as Hj by (rewrite Hl; apply elem_of_app; right; by left).
    apply elem_of_seq in Hj. lia.
  - cbn. intros _ σ' Hsw. rewrite (mid_length _ _ _ (proj1 Hsw)), <-(mid_length _ _ _ Hmid). done.
Qed.

(** What a recovered router starts from. *)
Definition recovered (L' : list (Z * Z)) (σ : Shmem) : Prop :=
  idle L' σ ∧ length (slots σ) = length (slots σ0) ∧
  ∀ i s0, slots σ0 !! i = Some s0 → ∃ s, slots σ !! i = Some s ∧
    s = se_with (se_valid s) (se_commit_group_id s) s0 ∧
    ((se_valid s = se_valid s0 ∧ se_commit_group_id s = se_commit_group_id s0) ∨
     (se_valid s0 = 1 ∧ se_valid s = 3 ∧ ∃ j e, lists σ j e i ∧ se_commit_group_id s = ce_commit_group_id e)).

Lemma settled_recovered L' σ :
  mid σ0 L' σ → queue_settled σ → (∀ i s, slots σ !! i = Some s → se_valid s ≠ 2) → recovered L' σ.
Proof.
  intros Hmid Hq Hn. pose proof (mid_length _ _ _ Hmid) as Hlen. split_and!; [|done|].
  - split; [|done|].
    + destruct (mid_consistent _ _ _ Hmid) as [H1 H2 H3 H4 H5 H6 H7 H8]. split; try done.
      intros j e i Hl. destruct (H4 j e i Hl) as (s & Hs & [Hok|(_ & Hv & _)]); [exists s; split; [done|by left]|].
      by destruct (Hn i s Hs).
    + intros i s Hs Hv. destruct (lookup_lt_is_Some_2 (slots σ0) i) as [s0 H0]; [rewrite <-Hlen; by eapply lookup_lt_Some|].
      destruct (mid_moved _ _ _ Hmid i s0 s H0 Hs) as [_ [[E1 E2]|[(_ & E & _)|(_ & E & _)]]]; [|lia|lia].
      rewrite E2. apply (id_pending _ _ Hidle i s0 H0). lia.
  - intros i s0 H0. destruct (lookup_lt_is_Some_2 (slots σ) i) as [s Hs]; [rewrite Hlen; by eapply lookup_lt_Some|].
    exists s. split; [done|]. destruct (mid_moved _ _ _ Hmid i s0 s H0 Hs) as [Heq [E|[(_ & E & _)|(E1 & E2 & E3)]]].
    + auto.
    + by destruct (Hn i s Hs).
    + split; [done|]. right. destruct E2 as [E2|E2]; [by destruct (Hn i s Hs)|]. done.
Qed.
Lemma recover_spec L' σ :
  mid σ0 L' σ →
  wp (try_recover_router_orphan process_exists) (λ _ σ', recovered L' σ' ∧ mid σ0 L' σ') (mid_of σ0) σ.
Proof.
  intros Hmid. unfold try_recover_router_orphan. apply wp_bind. eapply wp_mono; [by apply (sweep_queue_spec L')|cbn|done].
  intros a σ1 Hsw. pose proof (queue_swept_settled _ _ Hsw) as Hq. destruct Hsw as [Hmid1 _].
  apply wp_bind. eapply wp_mono; [by apply (sweep_staging_spec L')|cbn|done].
  intros b σ2 (H1 & H2 & H3). apply wp_ret. split; [|done]. apply settled_recovered; [done|done|]. intros i s Hs. eapply H3; [|exact Hs].
  apply elem_of_seq. apply lookup_lt_Some in Hs. lia.
Qed.
End sweep.

(** * Emission *)
Section emission.
Context (σ0 : Shmem) (L : list (Z * Z)) (Hidle : idle L σ0).

(** The slots [S] are claimed, and the blocks [N] allocated. *)
Record claimed (S : list nat) (N : list (Z * Z)) (σ : Shmem) : Prop := {
  cl_slot : ∀ i, slots σ !! i = (λ s0, if decide (i ∈ S) then se_set_valid 2 s0 else s0) <$> slots σ0 !! i;
  cl_pending : ∀ i, i ∈ S → ∃ s0, slots σ0 !! i = Some s0 ∧ se_valid s0 = 1;
  cl_queue : COMMITTER_QUEUE σ = COMMITTER_QUEUE σ0;
  cl_owns : owns (SPILLOVER_ARENA σ) (N ++ L);
  cl_unchanged : unchanged L (SPILLOVER_ARENA σ0) (SPILLOVER_ARENA σ);
}.

Lemma block_ok_mono N e : block_ok L e → block_ok (N ++ L) e.
Proof. intros (b & Hb & H). exists b. split; [apply elem_of_app; by right|done]. Qed.
Lemma same_length (σ : Shmem) (f : nat → StagingEntry → StagingEntry) :
  (∀ i, slots σ !! i = f i <$> slots σ0 !! i) → length (slots σ) = length (slots σ0).
Proof.
  intros H. apply Nat.le_antisymm; apply Nat.nlt_ge; intros Hlt.
  - destruct (lookup_lt_is_Some_2 _ _ Hlt) as [s Hs]. rewrite H, lookup_ge_None_2 in Hs by lia. done.
  - destruct (lookup_lt_is_Some_2 _ _ Hlt) as [s Hs]. pose proof (H (length (slots σ))) as E.
    rewrite Hs, lookup_ge_None_2 in E by lia. done.
Qed.
Lemma old_indices N a e j :
  unchanged L (SPILLOVER_ARENA σ0) a → groups σ0 !! j = Some e → ready e →
  indices_of a e = indices_of (SPILLOVER_ARENA σ0) e ∧ block_ok (N ++ L) e.
Proof.
  intros Hu Hj Hr. pose proof (co_block _ _ _ (id_consistent _ _ Hidle) j e Hj Hr) as Hb.
  split; [by eapply indices_of_unchanged|by apply block_ok_mono].
Qed.
(** A slot an old group lists is routed, so it is not one that was pending. *)
Lemma listed_not_pending j e i s0 :
  lists σ0 j e i → slots σ0 !! i = Some s0 → se_valid s0 = 3 ∧ se_commit_group_id s0 = ce_commit_group_id e.
Proof.
  intros Hl H0. destruct (co_slots _ _ _ (id_consistent _ _ Hidle) j e i Hl) as (s & Hs & [Hok|(? & _)]); [|done].
  by simplify_eq.
Qed.

Lemma claimed_lists S N σ j e i : claimed S N σ → lists σ j e i ↔ lists σ0 j e i.
Proof.
  intros Hc. unfold lists, groups. rewrite (cl_queue _ _ _ Hc).
  split; intros (H1 & H2 & H3); split_and!; try done; destruct (old_indices N _ e j (cl_unchanged _ _ _ Hc) H1 H2) as [E _]; congruence.
Qed.
Lemma claimed_consistent lax S N σ : claimed S N σ → consistent lax (N ++ L) σ.
Proof.
  intros Hc. pose proof (id_consistent _ _ Hidle) as [H1 H2 H3 H4 H5 H6 H7 H8].
  pose proof (λ j e i, claimed_lists S N σ j e i Hc) as Hl.
  split; unfold groups; rewrite ?(cl_queue _ _ _ Hc); try done.
  - apply (cl_owns _ _ _ Hc).
  - intros j e Hj Hr. by apply block_ok_mono, (H2 j).
  - intros j e z Hj Hr. destruct (old_indices N _ e j (cl_unchanged _ _ _ Hc) Hj Hr) as [-> _]. by apply (H3 j).
  - intros j e i Hli%Hl. destruct (H4 j e i Hli) as (s & Hs & Hok). exists s.
    rewrite (cl_slot _ _ _ Hc), Hs. cbn. rewrite decide_False; [split; [done|left; by destruct Hok as [|[? _]]]|].
    intros Hin. destruct (cl_pending _ _ _ Hc i Hin) as (s0 & H0 & Hv). destruct (listed_not_pending j e i s0 Hli H0). lia.
  - intros j j' e e' i Ha%Hl Hb%Hl. by eapply H5.
Qed.
Lemma claimed_mid S N σ : claimed S N σ → mid σ0 (N ++ L) σ.
Proof.
  intros Hc. split; [by eapply claimed_consistent|by eapply same_length, (cl_slot _ _ _ Hc)|].
  intros i s0 s H0. rewrite (cl_slot _ _ _ Hc), H0. cbn. intros [= <-].
  case_decide as Hin; [|split; [by destruct s0|by left]]. split; [done|]. right. left.
  destruct (cl_pending _ _ _ Hc i Hin) as (s & Hs & Hv). simplify_eq. split_and!; [done|done|].
  by apply (id_pending _ _ Hidle i s0).
Qed.
Lemma claimed_idle N σ : claimed [] N σ → idle (N ++ L) σ.
Proof.
  intros Hc. assert (∀ i, slots σ !! i = slots σ0 !! i) as Hs.
  { intros i. rewrite (cl_slot _ _ _ Hc). destruct (slots σ0 !! i); [|done]. cbn. rewrite decide_False; [done|]. by intros ?%elem_of_nil. }
  split; [by eapply claimed_consistent|..]; intros i s; rewrite Hs; [apply (id_settled _ _ Hidle)|apply (id_pending _ _ Hidle)].
Qed.
Lemma claimed_start : claimed [] [] σ0.
Proof.
  split; [|by intros i ?%elem_of_nil|done|apply (co_owns _ _ _ (id_consistent _ _ Hidle))|by intros ???].
  intros i. destruct (slots σ0 !! i); [|done]. cbn. rewrite decide_False; [done|]. by intros ?%elem_of_nil.
Qed.
Lemma claimed_ext S N σ σ' :
  slots σ' = slots σ → COMMITTER_QUEUE σ' = COMMITTER_QUEUE σ → SPILLOVER_ARENA σ' = SPILLOVER_ARENA σ →
  claimed S N σ → claimed S N σ'.
Proof. intros E1 E2 E3 [H1 H2 H3 H4 H5]. split; by rewrite ?E1, ?E2, ?E3. Qed.
Lemma claimed_crash S N σ : claimed S N σ → mid_of σ0 σ.
Proof. intros Hc. exists (N ++ L). by eapply claimed_mid. Qed.

Definition in_range (chunk : list Candidate) : Prop := ∀ c, c ∈ chunk → (idx_of c < length (slots σ0))%nat.

Lemma claim_slot_step S N σ i s :
  claimed S N σ → slots σ !! i = Some s → se_valid s = 1 → claimed (S ++ [i]) N (on_slot i (se_set_valid 2) σ).
Proof.
  intros [H1 H2 H3 H4 H5] Hs Hv. pose proof Hs as Hs0. rewrite H1 in Hs0.
  destruct (slots σ0 !! i) as [s0|] eqn:H0; [|done]. cbn in Hs0.
  assert ((i ∉ S) ∧ s = s0) as [Hni ->] by (case_decide; injection Hs0 as <-; done).
  split; try done.
  - intros k. rewrite slots_on_slot. destruct (decide (k = i)) as [->|Hne].
    + rewrite H0, Hs. cbn. rewrite decide_True; [done|]. apply elem_of_app. right. by left.
    + rewrite H1. destruct (slots σ0 !! k); [|done]. cbn. f_equal.
      destruct (decide (k ∈ S)), (decide (k ∈ S ++ [i])); try done; set_solver.
  - intros k [Hk| ->%list_elem_of_singleton]%elem_of_app; [by apply H2|]. by exists s0.
Qed.
Lemma claim_chunk_spec S σ chunk :
  claimed S [] σ → in_range chunk →
  wp (claim_chunk chunk) (λ packed σ', claimed (S ++ map idx_of packed) [] σ' ∧ sublist packed chunk) (mid_of σ0) σ.
Proof.
  revert S σ. induction chunk as [|c chunk IH]; intros S σ Hc Hr; cbn [claim_chunk].
  { apply wp_ret. cbn. rewrite app_nil_r. split; [done|constructor]. }
  assert (in_range chunk) as Hr' by (intros d Hd; apply Hr; by right).
  destruct (lookup_lt_is_Some_2 (slots σ) (idx_of c)) as [s Hs].
  { rewrite (same_length _ _ (cl_slot _ _ _ Hc)). apply Hr. by left. }
  apply wp_bind, (wp_cas_slot _ _ _ s); [done|by eapply claimed_crash| |].
  - intros Hv. apply wp_bind. eapply wp_mono; [apply (IH (S ++ [idx_of c])); [by eapply claim_slot_step|done]| |done].
    intros packed σ' [Hc' Hsub]. apply wp_ret. cbn [map]. split; [by rewrite <-app_assoc in Hc'|by constructor].
  - intros _. apply wp_bind. eapply wp_mono; [apply (IH S); [done|done]| |done].
    intros packed σ' [Hc' Hsub]. apply wp_ret. split; [done|by constructor].
Qed.
Lemma assign_seqs_spec sens S N σ pools :
  claimed S N σ → wp (assign_seqs sens pools) (λ seqs σ', claimed S N σ' ∧ length seqs = length pools) (mid_of σ0) σ.
Proof.
  revert σ. induction pools as [|p pools IH]; intros σ Hc; cbn [assign_seqs]; [by apply wp_ret|].
  assert (∀ x σ', claimed S N σ' → wp (seqs ← assign_seqs sens pools; mret (x :: seqs))
    (λ seqs σ', claimed S N σ' ∧ length seqs = Datatypes.S (length pools)) (mid_of σ0) σ') as Hrest.
  { intros x σ' Hc'. apply wp_bind. eapply wp_mono; [by apply IH| |done]. intros seqs σ'' [? Hl]. apply wp_ret. cbn. by rewrite Hl. }
  apply wp_bind. destruct (sens p); [|by apply wp_ret, Hrest]. apply wp_bind, wp_look.
  destruct (assign_pool_seq p (POOL_SEQ_TABLE σ)) as [[s|] t]; [|by apply wp_ret, Hrest].
  apply wp_bind, wp_write; [by eapply claimed_crash|]. apply wp_ret, Hrest. by eapply claimed_ext; [..|exact Hc].
Qed.
Lemma rollforward_spec S N σ pools seqs :
  claimed S N σ → wp (rollforward pools seqs) (λ _, claimed S N) (mid_of σ0) σ.
Proof.
  intros Hc. unfold rollforward. apply (wp_iter _ (λ _, claimed S N)); [done|]. intros _ e _ σ' _ Hc'.
  destruct (0 <? e.2); [|by apply wp_ret]. apply wp_write; [by eapply claimed_crash|]. by eapply claimed_ext; [..|exact Hc'].
Qed.

(** Back to pending, slot by slot. *)
Lemma unclaim_slot_step i S N σ :
  claimed (i :: S) N σ → i ∉ S → ∃ s, slots σ !! i = Some s ∧ se_valid s = 2 ∧ claimed S N (on_slot i (se_set_valid 1) σ).
Proof.
  intros [H1 H2 H3 H4 H5] Hni. destruct (H2 i ltac:(by left)) as (s0 & H0 & Hv). exists (se_set_valid 2 s0).
  assert (slots σ !! i = Some (se_set_valid 2 s0)) as Hs by (rewrite H1, H0; cbn; rewrite decide_True; [done|by left]).
  split_and!; [done|done|]. split; try done.
  - intros k. rewrite slots_on_slot. destruct (decide (k = i)) as [->|Hne].
    + rewrite H0, Hs. cbn. rewrite decide_False by done. f_equal. unfold se_set_valid. cbn. rewrite <-Hv. by destruct s0.
    + rewrite H1. destruct (slots σ0 !! k); [|done]. cbn. f_equal.
      destruct (decide (k ∈ S)), (decide (k ∈ i :: S)); try done; set_solver.
  - intros k Hk. apply H2. by right.
Qed.
Lemma rollback_spec N σ packed :
  NoDup (map idx_of packed) → claimed (map idx_of packed) N σ →
  wp (rollback_packed_to_pending packed) (λ _, claimed [] N) (mid_of σ0) σ.
Proof.
  intros Hnd Hc. unfold rollback_packed_to_pending.
  eapply wp_mono; [apply (wp_iter _ (λ l σ', ∃ l', packed = l ++ l' ∧ claimed (map idx_of l') N σ'))| |done].
  - by exists packed.
  - intros l1 c l2 σ1 Hl (l' & E & Hc1). rewrite Hl in E. apply app_inv_head in E. subst l'. cbn [map] in Hc1.
    assert (idx_of c ∉ map idx_of l2) as Hni.
    { rewrite Hl, map_app in Hnd. apply NoDup_app in Hnd as (_ & _ & Hnd). cbn in Hnd. by apply NoDup_cons in Hnd as [? _]. }
    destruct (unclaim_slot_step _ _ _ _ Hc1 Hni) as (s & Hs & Hv & Hc2).
    apply wp_bind, (wp_cas_slot _ _ _ s); [done|by eapply claimed_crash| |done].
    intros _. apply wp_ret. exists l2. split; [by rewrite Hl, <-app_assoc|done].
  - cbn. intros _ σ' (l' & E & Hc'). rewrite <-(app_nil_r packed) in E at 1. apply app_inv_head in E. by subst l'.
Qed.

(** ** A published group

    Slots [D] are stamped, [C] holds the group id but not yet the state, [S] are
    still unstamped. *)
Section published.
Context (j : nat) (e : CommitterQueueEntry) (N : list (Z * Z)).

Definition progress (D C S : list nat) (i : nat) (s0 : StagingEntry) : StagingEntry :=
  if decide (i ∈ D) then se_with 3 (ce_commit_group_id e) s0
  else if decide (i ∈ C) then se_with 2 (ce_commit_group_id e) s0
  else if decide (i ∈ S) then se_set_valid 2 s0 else s0.
Record published (D C S : list nat) (σ : Shmem) : Prop := {
  pb_slot : ∀ i, slots σ !! i = progress D C S i <$> slots σ0 !! i;
  pb_pending : ∀ i, i ∈ D ++ C ++ S → ∃ s0, slots σ0 !! i = Some s0 ∧ se_valid s0 = 1;
  pb_groups : groups σ = <[j := e]> (groups σ0);
  pb_free : ∃ e0, groups σ0 !! j = Some e0 ∧ ce_valid e0 = 0;
  pb_ready : ready e;
  pb_id : ce_commit_group_id e = cq_next_commit_group_id (COMMITTER_QUEUE σ0) + 1;
  pb_next : cq_next_commit_group_id (COMMITTER_QUEUE σ) = ce_commit_group_id e;
  pb_identity : cq_identity_slots (COMMITTER_QUEUE σ) = cq_identity_slots (COMMITTER_QUEUE σ0);
  pb_block : block_ok (N ++ L) e;
  pb_indices : ∀ z, z ∈ indices_of (SPILLOVER_ARENA σ) e ↔ ∃ i, z = Z.of_nat i ∧ i ∈ D ++ C ++ S;
  pb_owns : owns (SPILLOVER_ARENA σ) (N ++ L);
  pb_unchanged : unchanged L (SPILLOVER_ARENA σ0) (SPILLOVER_ARENA σ);
}.

Lemma published_lists D C S σ k e' i :
  published D C S σ → lists σ k e' i ↔ (k = j ∧ e' = e ∧ i ∈ D ++ C ++ S) ∨ (k ≠ j ∧ lists σ0 k e' i).
Proof.
  intros H. unfold lists. rewrite (pb_groups _ _ _ _ H). destruct (pb_free _ _ _ _ H) as (e0 & He0 & _).
  destruct (decide (k = j)) as [->|Hne].
  - rewrite list_lookup_insert_eq by (by eapply lookup_lt_Some). split.
    + intros ([= <-] & _ & Hin). left. split_and!; [done|done|]. apply (pb_indices _ _ _ _ H) in Hin as (i' & ->%Nat2Z.inj & ?). done.
    + intros [(_ & -> & Hin)|[? _]]; [|done]. split_and!; [done|apply (pb_ready _ _ _ _ H)|]. apply (pb_indices _ _ _ _ H). eauto.
  - rewrite list_lookup_insert_ne by done. split.
    + intros (H1 & H2 & H3). right. destruct (old_indices N _ e' k (pb_unchanged _ _ _ _ H) H1 H2) as [E _].
      split_and!; [done|done|done|]. congruence.
    + intros [(? & _)|(_ & H1 & H2 & H3)]; [done|]. destruct (old_indices N _ e' k (pb_unchanged _ _ _ _ H) H1 H2) as [E _].
      split_and!; [done|done|]. congruence.
Qed.
(** The slots of the group itself, and those of the older groups. *)
Lemma published_slot D C S σ i :
  published D C S σ → i ∈ D ++ C ++ S →
  ∃ s, slots σ !! i = Some s ∧ slot_ok true (ce_commit_group_id e) s ∧ (C = [] → S = [] → slot_ok false (ce_commit_group_id e) s).
Proof.
  intros H Hin. destruct (pb_pending _ _ _ _ H i Hin) as (s0 & H0 & Hv0).
  pose proof (id_pending _ _ Hidle i s0 H0 Hv0) as Hcg. exists (progress D C S i s0). rewrite (pb_slot _ _ _ _ H), H0.
  split; [done|]. unfold progress, slot_ok. repeat case_decide; cbn; [naive_solver|split; [naive_solver|]..|set_solver].
  - intros -> _. set_solver.
  - intros _ ->. set_solver.
Qed.
Lemma published_old_slot D C S σ k e' i :
  published D C S σ → lists σ0 k e' i → ∃ s, slots σ !! i = Some s ∧ slot_ok false (ce_commit_group_id e') s.
Proof.
  intros H Hl. destruct (co_slots _ _ _ (id_consistent _ _ Hidle) k e' i Hl) as (s0 & H0 & Hok).
  exists s0. split; [|done]. rewrite (pb_slot _ _ _ _ H), H0. cbn. f_equal.
  destruct (listed_not_pending k e' i s0 Hl H0) as [Hv _].
  assert (i ∉ D ++ C ++ S) as Hni by (intros Hin; destruct (pb_pending _ _ _ _ H i Hin) as (s1 & H1 & Hv1); simplify_eq; lia).
  unfold progress. repeat case_decide; [set_solver..|done].
Qed.
Lemma published_consistent D C S σ lax :
  published D C S σ → (lax = false → C = [] ∧ S = []) → consistent lax (N ++ L) σ.
Proof.
  intros H Hlax. pose proof (id_consistent _ _ Hidle) as [C1 C2 C3 C4 C5 C6 C7 C8].
  pose proof (λ k e' i, published_lists D C S σ k e' i H) as Hl.
  assert (∀ k e', groups σ !! k = Some e' → (k = j ∧ e' = e) ∨ (k ≠ j ∧ groups σ0 !! k = Some e')) as Hg.
  { intros k e'. rewrite (pb_groups _ _ _ _ H). destruct (pb_free _ _ _ _ H) as (e0 & He0 & _). rewrite list_lookup_insert.
    case_decide as E; [intros [= <-]; left; naive_solver|]. intros Hk. right. split; [|done]. intros ->.
    apply E. split; [done|by eapply lookup_lt_Some]. }
  pose proof (pb_id _ _ _ _ H) as Hid. pose proof (pb_next _ _ _ _ H) as Hnext.
  split.
  - apply (pb_owns _ _ _ _ H).
  - intros k e' [[-> ->]|[_ Hk]]%Hg Hr; [apply (pb_block _ _ _ _ H)|]. by apply block_ok_mono, (C2 k).
  - intros k e' z [[-> ->]|[_ Hk]]%Hg Hr; [intros (i & -> & _)%(pb_indices _ _ _ _ H); lia|].
    destruct (old_indices N _ e' k (pb_unchanged _ _ _ _ H) Hk Hr) as [-> _]. by apply (C3 k).
  - intros k e' i [(-> & -> & Hin)|[_ Hli]]%Hl.
    + destruct (published_slot D C S σ i H Hin) as (s & Hs & Ht & Hf). exists s. split; [done|].
      destruct lax; [done|]. destruct (Hlax eq_refl). auto.
    + destruct (published_old_slot D C S σ k e' i H Hli) as (s & Hs & Hok). exists s. split; [done|].
      left. by destruct Hok as [|[? _]].
  - assert (∀ k e' i, i ∈ D ++ C ++ S → ¬ lists σ0 k e' i) as Hno.
    { intros k e' i Hin Hli. destruct (pb_pending _ _ _ _ H i Hin) as (s0 & H0 & Hv). destruct (listed_not_pending k e' i s0 Hli H0). lia. }
    intros k k' e1 e2 i [(-> & _ & H1)|[_ H1]]%Hl [(-> & _ & H2)|[_ H2]]%Hl; [done|by destruct (Hno k' e2 i)|by destruct (Hno k e1 i)|by eapply C5].
  - intros k e' [[-> ->]|[_ Hk]]%Hg Hv; rewrite Hnext; [lia|]. pose proof (C6 k e' Hk Hv). lia.
  - intros k e' [[-> ->]|[_ Hk]]%Hg Hv; [pose proof (pb_ready _ _ _ _ H) as Hr; unfold ready in Hr; lia|].
    pose proof (C7 k e' Hk Hv) as Ha. unfold is_committer_alive in *. by rewrite (pb_identity _ _ _ _ H).
  - rewrite Hnext. lia.
Qed.
Lemma published_mid D C S σ : published D C S σ → mid σ0 (N ++ L) σ.
Proof.
  intros H. split; [by eapply published_consistent|by eapply same_length, (pb_slot _ _ _ _ H)|].
  intros i s0 s H0. rewrite (pb_slot _ _ _ _ H), H0. cbn. intros [= <-].
  destruct (decide (i ∈ D ++ C ++ S)) as [Hin|Hni].
  2: { unfold progress. rewrite !decide_False by set_solver. split; [by destruct s0|by left]. }
  destruct (pb_pending _ _ _ _ H i Hin) as (s & Hs & Hv). simplify_eq.
  assert (lists σ j e i) as Hl by (apply (published_lists D C S σ j e i H); left; done).
  unfold progress. repeat case_decide; [| | |set_solver].
  - split; [done|]. right. right. split_and!; [done|by right|eauto].
  - split; [done|]. right. right. split_and!; [done|by left|eauto].
  - split; [done|]. right. left. split_and!; [done|done|]. by apply (id_pending _ _ Hidle i s0).
Qed.
Lemma published_idle D σ : published D [] [] σ → idle (N ++ L) σ.
Proof.
  intros H. split; [by eapply published_consistent|..]; intros i s; rewrite (pb_slot _ _ _ _ H);
    destruct (slots σ0 !! i) as [s0|] eqn:H0; cbn; try done; intros [= <-]; unfold progress.
  - rewrite (decide_False (P := i ∈ [])) by (intros ?%elem_of_nil; done). case_decide; [done|]. by apply (id_settled _ _ Hidle i).
  - rewrite (decide_False (P := i ∈ [])) by (intros ?%elem_of_nil; done). case_decide; [done|]. by apply (id_pending _ _ Hidle i).
Qed.
Lemma published_crash D C S σ : published D C S σ → mid_of σ0 σ.
Proof. intros H. exists (N ++ L). by eapply published_mid. Qed.

(** The two stores of a stamp. *)
Lemma stamp_spec D i S σ c :
  idx_of c = i → i ∉ D → i ∉ S → published D [] (i :: S) σ →
  wp (stamp false (ce_commit_group_id e) c) (λ _, published (D ++ [i]) [] S) (mid_of σ0) σ.
Proof.
  intros <- HD HS H. set (i := idx_of c) in *. pose proof H as [H1 H2 H3 H4 H5 H6 H7 H8 H9 H10 H11 H12].
  destruct (H2 i) as (s0 & H0 & Hv0); [set_solver|].
  assert (slots σ !! i = Some (se_set_valid 2 s0)) as Hs.
  { rewrite H1, H0. cbn. unfold progress. rewrite (decide_False (P := i ∈ D)) by done.
    rewrite (decide_False (P := i ∈ [])) by (intros ?%elem_of_nil; done). by rewrite decide_True by (by left). }
  assert (∀ f D' C' S', (∀ k, k ≠ i → (k ∈ D' ↔ k ∈ D) ∧ (k ∉ C') ∧ (k ∈ S' ↔ k ∈ S)) → (∀ k, k ∈ D' ++ C' ++ S' ↔ k ∈ D ++ [] ++ i :: S) →
    f (se_set_valid 2 s0) = progress D' C' S' i s0 → published D' C' S' (on_slot i f σ)) as Hstep.
  { intros f D' C' S' Hk Hall Hf. split; try done.
    - intros k. rewrite slots_on_slot. case_decide as E; [subst k; by rewrite Hs, H0; cbn; rewrite Hf|].
      rewrite H1. destruct (slots σ0 !! k); [|done]. cbn. f_equal. destruct (Hk k E) as (K1 & K2 & K3). unfold progress.
      rewrite (decide_False (P := k ∈ C')) by done. rewrite (decide_False (P := k ∈ [])) by (intros ?%elem_of_nil; done).
      repeat case_decide; try done; set_solver.
    - intros k Hin%Hall. by apply H2.
    - intros z. rewrite H10. by setoid_rewrite Hall. }
  unfold stamp. fold i. apply wp_bind, (wp_store_cg _ _ (se_set_valid 2 s0)); [done|by eapply published_crash|].
  assert (published D [i] S (on_slot i (se_set_cg (ce_commit_group_id e)) σ)) as Hmid.
  { apply Hstep; [set_solver|set_solver|]. unfold progress. rewrite decide_False, decide_True by set_solver. done. }
  apply wp_bind, (wp_cas_slot _ _ _ (se_with 2 (ce_commit_group_id e) s0)).
  { rewrite slots_on_slot, decide_True, Hs by done. done. }
  { by eapply published_crash. }
  2: { by intros []. }
  intros _. apply wp_ret. assert (published (D ++ [i]) [] S (on_slot i (λ s, se_set_valid 3 (se_set_cg (ce_commit_group_id e) s)) σ)) as Hend.
  { apply Hstep; [set_solver|set_solver|]. unfold progress. rewrite decide_True by set_solver. done. }
  by rewrite on_slot_twice.
Qed.
End published.

(** ** The whole emission *)
Lemma find_empty_group_spec q cap j :
  find_empty_group q cap = Some j → ∃ e0, cq_entries q !! j = Some e0 ∧ ce_valid e0 = 0.
Proof.
  unfold find_empty_group. intros H. apply head_Some_elem_of, list_elem_of_filter in H as [H _].
  destruct (cq_entries q !! j) as [e0|]; [|done]. exists e0. split; [done|]. by injection H.
Qed.

(** Every candidate names its slot. *)
Definition named (packed : list Candidate) : Prop := ∀ c, c ∈ packed → cand_staging_idx c = Z.of_nat (idx_of c) ∧ cand_staging_idx c < 2 ^ 32.

Definition new_group (now_us so po qo : Z) (packed : list Candidate) (keys_count : Z) : CommitterQueueEntry :=
  {| ce_valid := 1; ce_commit_group_id := cq_next_commit_group_id (COMMITTER_QUEUE σ0) + 1;
     ce_submission_count := Z.of_nat (length packed); ce_staging_entry_offsets := so; ce_pool_keys_offset := po;
     ce_pool_keys_count := keys_count; ce_committer_bgw_slot := 2 ^ 32 - 1; ce_committer_bgw_generation := 0;
     ce_committer_acquired_at_ns := 0; ce_committer_tx_id := 0; ce_enqueued_at_micros := now_us; ce_pool_seqs_offset := qo |}.

Lemma indices_of_new a now_us (bs : Z * Z) po qo packed keys_count :
  named packed → reads_as a (bs.1 + 8) (staging_index_bytes packed) →
  indices_of a (new_group now_us (bs.1 + 8) po qo packed keys_count) = map cand_staging_idx packed.
Proof.
  intros Hn Hr. unfold indices_of. cbn [ce_submission_count ce_staging_entry_offsets new_group].
  rewrite staging_index_bytes_eq in Hr.
  assert (read_at (bs.1 + 8) (Z.of_nat (length packed) * 4) (bytes a) = index_bytes (map cand_staging_idx packed)) as ->.
  { replace (Z.of_nat (length packed) * 4) with (Z.of_nat (length (index_bytes (map cand_staging_idx packed))))
      by (rewrite index_bytes_length, length_map; lia).
    by apply reads_as_read. }
  apply chunks_index_bytes, Forall_forall. intros z (c & -> & Hc)%list_elem_of_fmap. destruct (Hn c Hc) as [E ?]. lia.
Qed.

(** Publishing turns the claimed slots into those of a group still to be stamped. *)
Lemma publish_spec σ now_us cap packed k j (bs : Z * Z) po qo N2 N3 :
  claimed (map idx_of packed) (bs :: N2 ++ N3) σ → named packed → packed ≠ [] → Z.of_nat (length packed) < 2 ^ 16 →
  4 * Z.of_nat (length packed) ≤ bs.2 → reads_as (SPILLOVER_ARENA σ) (bs.1 + 8) (staging_index_bytes packed) →
  find_empty_group (COMMITTER_QUEUE σ) cap = Some j → cq_next_commit_group_id (COMMITTER_QUEUE σ0) < 2 ^ 64 - 1 →
  published j (new_group now_us (bs.1 + 8) po qo packed k) (bs :: N2 ++ N3) [] [] (map idx_of packed)
    (on_committers (publish_group now_us j (Z.of_nat (length packed)) (bs.1 + 8) po k qo cap) σ).
Proof.
  intros [H1 H2 H3 H4 H5] Hn Hne Hlen Hbs Hr Hj Hnext. pose proof (co_next _ _ _ (id_consistent _ _ Hidle)) as Hnext0.
  assert (wrap_u64 (cq_next_commit_group_id (COMMITTER_QUEUE σ0) + 1) = cq_next_commit_group_id (COMMITTER_QUEUE σ0) + 1) as Hw.
  { unfold wrap_u64. rewrite Z.mod_small; lia. }
  rewrite H3 in Hj. destruct (find_empty_group_spec _ _ _ Hj) as (e0 & He0 & Hv0).
  assert (0 < Z.of_nat (length packed)) as Hpos by (destruct packed; [done|]; cbn; lia).
  split; cbn [SPILLOVER_ARENA COMMITTER_QUEUE on_committers]; try done.
  - unfold groups. cbn. rewrite H3, Hw. done.
  - by exists e0.
  - cbn. by rewrite H3, Hw.
  - cbn. by rewrite H3.
  - exists bs. cbn. split_and!; [by left|done|lia|lia|lia].
  - intros z. rewrite (indices_of_new _ now_us bs po qo packed k Hn Hr). rewrite list_elem_of_fmap. cbn. setoid_rewrite list_elem_of_fmap. split.
    + intros (c & -> & Hc). destruct (Hn c Hc) as [E _]. exists (idx_of c). split; [done|]. by exists c.
    + intros (i & -> & c & -> & Hc). destruct (Hn c Hc) as [E _]. by exists c.
Qed.
Lemma published_stats j e N D C S f σ :
  published j e N D C S σ → published j e N D C S (on_committers (λ q, cq_set_stats (f q) q) σ).
Proof. intros []. by split. Qed.
Lemma stats_spec j e N D n σ :
  published j e N D [] [] σ → wp (record_commit_group_stats n) (λ _, published j e N D [] []) (mid_of σ0) σ.
Proof.
  intros H. unfold record_commit_group_stats, bump.
  apply wp_bind, wp_write; [by eapply published_crash|]. apply wp_bind, wp_write; [by eapply published_crash, published_stats|].
  apply wp_write; [by eapply published_crash; do 2 apply published_stats|]. by do 3 apply published_stats.
Qed.
Lemma stamps_spec j e N packed σ :
  NoDup (map idx_of packed) → published j e N [] [] (map idx_of packed) σ →
  wp (iterM (stamp false (ce_commit_group_id e)) packed) (λ _, published j e N (map idx_of packed) [] []) (mid_of σ0) σ.
Proof.
  intros Hnd Hp.
  eapply wp_mono; [apply (wp_iter _ (λ l σ', ∃ l', packed = l ++ l' ∧ published j e N (map idx_of l) [] (map idx_of l') σ'))| |done].
  - by exists packed.
  - intros l1 c l2 σ1 Hl (l' & E & H1). rewrite Hl in E. apply app_inv_head in E. subst l'. cbn [map] in H1.
    rewrite Hl, map_app in Hnd. apply NoDup_app in Hnd as (_ & Hd & [Hc _]%NoDup_cons).
    eapply wp_mono; [apply (stamp_spec j e N (map idx_of l1) (idx_of c) (map idx_of l2)); [done| |done|done]| |done].
    + intros Hin. apply (Hd (idx_of c) Hin). by left.
    + cbn. intros _ σ2 H2. exists l2. rewrite map_app. split; [by rewrite Hl, <-app_assoc|done].
  - cbn. intros _ σ' (l' & E & H'). rewrite <-(app_nil_r packed) in E at 1. apply app_inv_head in E. by subst l'.
Qed.

(** What the router hands to an emission. *)
Record chunk_ok (chunk : list Candidate) : Prop := {
  ch_range : in_range chunk;
  ch_distinct : NoDup (map idx_of chunk);
  ch_named : named chunk;
  ch_count : Z.of_nat (length chunk) < 2 ^ 16;
  ch_pools : Z.of_nat (length (concat (map cand_pool_keys chunk))) < 2 ^ 16;
  ch_next : cq_next_commit_group_id (COMMITTER_QUEUE σ0) < 2 ^ 64 - 1;
}.
Definition emit_end (outcome : EmitOutcome) (σ : Shmem) : Prop := ∃ L', idle L' σ ∧ mid σ0 L' σ.

Lemma claimed_end N σ o : claimed [] N σ → emit_end o σ.
Proof. intros Hc. exists (N ++ L). split; [by apply claimed_idle|by eapply claimed_mid]. Qed.

Lemma give_up_spec N σ packed (any_os : bool) pools seqs :
  NoDup (map idx_of packed) → claimed (map idx_of packed) N σ →
  wp (rollback_packed_to_pending packed;; (if any_os then rollforward pools seqs else mret tt);; mret Exhausted)
    emit_end (mid_of σ0) σ.
Proof.
  intros Hnd Hc. apply wp_bind. eapply wp_mono; [by apply (rollback_spec N)|cbn|done]. intros _ σ1 Hc1. apply wp_bind.
  assert (wp (if any_os then rollforward pools seqs else mret tt) (λ _, claimed [] N) (mid_of σ0) σ1) as Hr.
  { destruct any_os; [by apply rollforward_spec|by apply wp_ret]. }
  eapply wp_mono; [exact Hr|cbn|done]. intros _ σ2 Hc2. by eapply wp_ret, claimed_end.
Qed.
Lemma queue_full_spec σ packed (any_os : bool) pools seqs (bs : Z * Z) po qo N2 N3 :
  NoDup (map idx_of packed) → claimed (map idx_of packed) (bs :: N2 ++ N3) σ → opt_block po N2 → opt_block qo N3 →
  wp (rollback_packed_to_pending packed;; with_lock_arena (free_commit_group_arena (bs.1 + 8) po qo);;
      (if any_os then rollforward pools seqs else mret tt);; mret Exhausted) emit_end (mid_of σ0) σ.
Proof.
  intros Hnd Hc H2 H3. apply wp_bind. eapply wp_mono; [by apply (rollback_spec (bs :: N2 ++ N3))|cbn|done].
  intros _ σ1 Hc1. destruct (free_group_spec (SPILLOVER_ARENA σ1) (bs.1 + 8) po qo [bs] N2 N3 L) as (a' & Hrun & Ho & Hu); [|right; eauto|done|done|].
  { pose proof (cl_owns _ _ _ Hc1) as Ho. cbn in Ho |- *. by rewrite <-app_assoc in Ho. }
  apply wp_bind. eapply wp_lock_arena; [exact Hrun|by eapply claimed_crash|].
  assert (claimed [] [] (with_arena a' σ1)) as Hc2.
  { destruct Hc1 as [C1 C2 C3 C4 C5]. split; try done. by eapply unchanged_trans. }
  apply wp_bind. assert (wp (if any_os then rollforward pools seqs else mret tt) (λ _, claimed [] []) (mid_of σ0) (with_arena a' σ1)) as Hr.
  { destruct any_os; [by apply rollforward_spec|by apply wp_ret]. }
  eapply wp_mono; [exact Hr|cbn|done]. intros _ σ2 Hc3. by eapply wp_ret, claimed_end.
Qed.

Lemma pool_union_length packed chunk :
  sublist packed chunk → (length (pool_union_sorted packed) ≤ length (concat (map cand_pool_keys chunk)))%nat.
Proof.
  intros Hsub. unfold pool_union_sorted. rewrite (Permutation_length (sort_by_key_Permutation _ _)).
  transitivity (length (concat (map cand_pool_keys packed))).
  - apply submseteq_length, NoDup_submseteq; [apply NoDup_remove_dups|]. intros p. by rewrite elem_of_remove_dups.
  - induction Hsub as [|c l k _ IH|c l k _ IH]; cbn; rewrite ?length_app; lia.
Qed.
Lemma emit_spec_crash sens now_us chunk cap :
  chunk_ok chunk → wp (emit_commit_group sens now_us false chunk cap) emit_end (mid_of σ0) σ0.
Proof.
  intros [Hr Hd Hnm Hcnt Hpl Hnx]. unfold emit_commit_group. apply wp_bind.
  eapply wp_mono; [apply (claim_chunk_spec []); [apply claimed_start|done]|cbn [app]|done].
  intros packed σ1 [Hc1 Hsub]. destruct (decide (packed = [])) as [->|Hne]; [by eapply wp_ret, claimed_end|].
  assert (NoDup (map idx_of packed)) as Hnd by (eapply sublist_NoDup; [exact Hd|by apply fmap_sublist]).
  assert (named packed) as Hnm' by (intros c Hc; apply Hnm; by eapply elem_of_sublist).
  assert (Z.of_nat (length packed) < 2 ^ 16) as Hcnt' by (apply sublist_length in Hsub; lia).
  pose proof (pool_union_length _ _ Hsub) as Hpl'.
  destruct packed as [|c0 packed0] eqn:Hpk; [done|]. rewrite <-Hpk in *. clear Hpk c0 packed0.
  unfold wrap_u16. rewrite !Z.mod_small by lia. set (pools := pool_union_sorted packed) in *.
  apply wp_bind. eapply wp_mono; [by apply (assign_seqs_spec sens (map idx_of packed) [])|cbn|done]. intros seqs σ2 [Hc2 Hlen].
  set (any_os := existsb (λ s, 0 <? s) seqs).
  destruct (allocate_group_spec (SPILLOVER_ARENA σ2) L packed pools (if any_os then Some seqs else None)) as (r & a' & Hrun & Hu & Hres);
    [apply (cl_owns _ _ _ Hc2)|done|done|lia|destruct any_os; [by intros ? [= <-]|done]|].
  apply wp_bind. eapply wp_lock_arena; [exact Hrun|by eapply claimed_crash|].
  assert (∀ N, owns a' (N ++ L) → claimed (map idx_of packed) N (with_arena a' σ2)) as Hc3.
  { intros N Ho. destruct Hc2 as [C1 C2 C3 C4 C5]. split; try done. by eapply unchanged_trans. }
  destruct r as [[[so po] qo]|]; [|by apply (give_up_spec []); [|apply Hc3]].
  destruct Hres as (bs & N2 & N3 & -> & H2 & H3 & Hbs & Ho & Hrd). specialize (Hc3 _ Ho).
  apply wp_bind, wp_look. destruct (find_empty_group _ cap) as [j|] eqn:Hj; [|by eapply queue_full_spec].
  pose proof (publish_spec _ now_us cap packed (Z.of_nat (length pools)) j bs po qo N2 N3 Hc3 Hnm' Hne Hcnt' Hbs Hrd Hj Hnx) as Hp.
  apply wp_bind, wp_write; [by eapply claimed_crash|]. apply wp_bind. rewrite (cl_queue _ _ _ Hc3).
  pose proof (co_next _ _ _ (id_consistent _ _ Hidle)) as Hnext0.
  assert (wrap_u64 (cq_next_commit_group_id (COMMITTER_QUEUE σ0) + 1) = cq_next_commit_group_id (COMMITTER_QUEUE σ0) + 1) as ->
    by (unfold wrap_u64; rewrite Z.mod_small; lia).
  eapply wp_mono; [exact (stamps_spec _ _ _ packed _ Hnd Hp)|cbn|done]. intros _ σ3 Hp3. apply wp_bind.
  eapply wp_mono; [exact (stats_spec _ _ _ _ _ _ Hp3)|cbn|done]. intros _ σ4 Hp4. apply wp_ret.
  eexists. split; [exact (published_idle _ _ _ _ _ Hp4)|exact (published_mid _ _ _ _ _ _ _ Hp4)].
Qed.
End emission.

(** * Restarts *)
Definition crash_emission (sens : Z → bool) (now_us : Z) (chunk : list Candidate) (cap : Z) (k : nat) (σ : Shmem) : Shmem :=
  mem (emit_commit_group sens now_us false chunk cap {| crash_after := Some k; mem := σ |}).2.
Definition crash_recovery (σ : Shmem) (k : nat) : Shmem :=
  mem (try_recover_router_orphan process_exists {| crash_after := Some k; mem := σ |}).2.

Lemma wp_mem {A} (m : Proc A) (Q : A → Shmem → Prop) (I : Shmem → Prop) σ k :
  wp m Q I σ → (∀ a σ', Q a σ' → I σ') → I (mem (m {| crash_after := k; mem := σ |}).2).
Proof.
  intros H HQ. specialize (H k). destruct (m _) as [[a|e] w]; cbn; [by eapply HQ, H|]. destruct e; [apply H|done..].
Qed.

(** An emission that is not killed ends, between two emissions again. *)
Lemma emission_returns L σ0 sens now_us chunk cap :
  idle L σ0 → chunk_ok σ0 chunk →
  ∃ o w, emit_commit_group sens now_us false chunk cap {| crash_after := None; mem := σ0 |} = (Ok o, w) ∧ ∃ L', idle L' (mem w).
Proof.
  intros Hidle Hok. pose proof (emit_spec_crash σ0 L Hidle sens now_us chunk cap Hok None) as H.
  destruct (emit_commit_group _ _ _ _ _ _) as [[o|e] w]; [|by destruct e; [destruct H|..]].
  exists o, w. split; [done|]. destruct H as [(L' & ? & _) _]. by exists L'.
Qed.

(** C6: a router can be killed after any of its writes while it emits a commit
    group, and its successors while they recover; the first sweep that completes
    leaves a consistent queue in which every pending submission is still pending
    or is routed and listed by a ready group, each by one only, and nothing else
    has changed. *)
Theorem router_crash_recovers L σ0 sens now_us chunk cap k ks :
  idle L σ0 → chunk_ok σ0 chunk →
  ∃ n w, try_recover_router_orphan process_exists
           {| crash_after := None; mem := foldl crash_recovery (crash_emission sens now_us chunk cap k σ0) ks |} = (Ok n, w) ∧
    ∃ L', recovered σ0 L' (mem w).
Proof.
  intros Hidle Hok. assert (mid_of σ0 (crash_emission sens now_us chunk cap k σ0)) as Hmid.
  { eapply (wp_mem _ _ (mid_of σ0)); [by eapply emit_spec_crash|]. intros o σ' (L' & _ & ?). by exists L'. }
  assert (mid_of σ0 (foldl crash_recovery (crash_emission sens now_us chunk cap k σ0) ks)) as [L' Hmid'].
  { revert Hmid. generalize (crash_emission sens now_us chunk cap k σ0). induction ks as [|k' ks IH]; intros σ Hmid; cbn; [done|].
    apply IH. destruct Hmid as [L1 Hmid1]. eapply (wp_mem _ _ (mid_of σ0)); [by eapply (recover_spec σ0 L Hidle L1)|].
    intros a σ' [_ ?]. by exists L1. }
  pose proof (recover_spec σ0 L Hidle L' _ Hmid' None) as H.
  destruct (try_recover_router_orphan _ _) as [[n|e] w]; [|by destruct e; [destruct H|..]].
  exists n, w. split; [done|]. exists L'. apply H.
Qed.
End consistency.
