(* ===== verification/V3Slots.v ===== *)
(** The other operations on the queues of Path B (ledger-routed): publishing an
    enqueued submission (enqueue.rs), claiming and ejecting (committer.rs), the
    cleanup after a commit group (cleanup.rs), identities (identity.rs).  Together
    with the router they move a staging slot through its states; the life cycle is
    proved for every operation, killed anywhere or not. *)
From stdpp Require Import relations.
From S2P Require Import Prelude V3Arena V3Payload V3PoolSeq V3Affinity V3Shmem V3Router.

(** * Publishing a submission (enqueue.rs) *)
Definition trx_type_to_id (trx_type : string) : Z :=
  if decide (trx_type = "po_receipt") then 1 else
  if decide (trx_type = "wo_completion") then 2 else
  if decide (trx_type = "inv_adjustment") then 3 else
  if decide (trx_type = "transfer_shipment") then 4 else
  if decide (trx_type = "transfer_receipt") then 5 else
  if decide (trx_type = "manual_adjustment") then 6 else
  if decide (trx_type = "revaluation_run") then 7 else 0.
(** [lines.iter().map(|l| l.pool_id).collect::<BTreeSet<_>>()] *)
Definition pack_pool_ids (lines : list PocV3Line) : list Z :=
  sort_by_key id (remove_dups (map ln_pool_id lines)).

Definition sq_take_seq (q : StagingQueue) : StagingQueue :=
  {| sq_head := sq_head q; sq_tail := sq_tail q; sq_next_request_seq := wrap_u64 (sq_next_request_seq q + 1);
     sq_free_slot_wake_count := sq_free_slot_wake_count q; sq_entries := sq_entries q |}.
Definition sq_set_tail (t : Z) (q : StagingQueue) : StagingQueue :=
  {| sq_head := sq_head q; sq_tail := t; sq_next_request_seq := sq_next_request_seq q;
     sq_free_slot_wake_count := sq_free_slot_wake_count q; sq_entries := sq_entries q |}.
Definition se_fill (seq payload_offset payload_length pool_count pool_keys_offset trx_type_id user_tx_xid now pid : Z)
    (e : StagingEntry) : StagingEntry :=
  {| se_valid := se_valid e; se_request_seq := seq; se_correlation_id := replicate 16 0; se_user_tx_xid := user_tx_xid;
     se_trx_type_id := trx_type_id; se_payload_offset := payload_offset; se_payload_length := payload_length;
     se_pool_count := pool_count; se_pool_keys_offset := pool_keys_offset; se_enqueued_at_micros := now;
     se_backend_pid := pid; se_commit_group_id := 0; se_eject_count := 0; se_last_eject_at_ns := se_last_eject_at_ns e |}.

(** The slot scan: the slots are tried in ring order, occupied ones skipped.
    [Ok] carries the slot and the request number; [None] is [QueueFull]. *)
Fixpoint push_scan (fill : Z → StagingEntry → StagingEntry) (capacity tail : Z) (rounds : list Z) : Proc (option (Z * Z)) :=
  match rounds with
  | [] => mret None
  | i :: rounds =>
      let idx := wrap_u32 (tail + i) `mod` capacity in
      s ← slot (Z.to_nat idx);
      if negb (se_valid s =? 0) then push_scan fill capacity tail rounds else
      request_seq ← look (λ m, sq_next_request_seq (STAGING_QUEUE m));
      write (on_staging sq_take_seq);;
      write (on_slot (Z.to_nat idx) (fill request_seq));;
      ok ← cas_slot (Z.to_nat idx) 0 1;
      if ok : bool then
        write (on_staging (sq_set_tail (wrap_u32 (tail + i + 1) `mod` capacity)));; mret (Some (idx, request_seq))
      else push_scan fill capacity tail rounds
  end.
Definition push_entry_into_queue (payload_offset payload_length pool_count pool_keys_offset trx_type_id user_tx_xid now pid : Z)
    : Proc (option (Z * Z)) :=
  capacity ← look (λ m, Z.of_nat (length (slots m)));
  tail ← look (λ m, sq_tail (STAGING_QUEUE m));
  push_scan (λ seq, se_fill seq payload_offset payload_length pool_count pool_keys_offset trx_type_id user_tx_xid now pid)
    capacity tail (seqZ 0 capacity).

(** * Committers (identity.rs, committer.rs) *)
Definition cq_set_head (h : Z) (q : CommitterQueue) : CommitterQueue :=
  {| cq_head := h; cq_tail := cq_tail q; cq_next_commit_group_id := cq_next_commit_group_id q;
     cq_stats := cq_stats q; cq_identity_slots := cq_identity_slots q; cq_entries := cq_entries q |}.
Definition on_identity (i : nat) (f : CommitterIdentitySlot → CommitterIdentitySlot) : Shmem → Shmem :=
  on_committers (λ q, {| cq_head := cq_head q; cq_tail := cq_tail q; cq_next_commit_group_id := cq_next_commit_group_id q;
     cq_stats := cq_stats q; cq_identity_slots := alter f i (cq_identity_slots q); cq_entries := cq_entries q |}).
Definition take_identity (i : nat) (my_pid : Z) (s : CommitterIdentitySlot) : Proc (Z * Z) :=
  write (on_identity i (λ s, {| id_pid := my_pid; id_generation := id_generation s |}));;
  write (on_identity i (λ s, {| id_pid := id_pid s; id_generation := wrap_u32 (id_generation s + 1) |}));;
  mret (Z.of_nat i, wrap_u32 (id_generation s + 1)).
(** First a free slot, then one whose occupant is gone. *)
Definition claim_committer_identity (process_exists : Z → bool) (my_pid : Z) : Proc (Z * Z) :=
  ids ← look (λ m, imap pair (cq_identity_slots (COMMITTER_QUEUE m)));
  match head (filter (λ e, id_pid e.2 = 0) ids) with
  | Some (i, s) => take_identity i my_pid s
  | None =>
      match head (filter (λ e, id_pid e.2 ≠ my_pid ∧ process_exists (id_pid e.2) = false) ids) with
      | Some (i, s) => take_identity i my_pid s
      | None => throw RustPanic
      end
  end.
Definition release_committer_identity (slot_idx : nat) : Proc unit :=
  n ← look (λ m, length (cq_identity_slots (COMMITTER_QUEUE m)));
  if (n <=? slot_idx)%nat then mret tt else
  write (on_identity slot_idx (λ s, {| id_pid := id_pid s; id_generation := wrap_u32 (id_generation s + 1) |}));;
  write (on_identity slot_idx (λ s, {| id_pid := 0; id_generation := id_generation s |})).

Fixpoint claim_scan (my_slot my_gen now_ns capacity head : Z) (rounds : list Z) : Proc (option Z) :=
  match rounds with
  | [] => mret None
  | i :: rounds =>
      let idx := wrap_u32 (head + i) `mod` capacity in
      let j := Z.to_nat idx in
      e ← group j;
      if (ce_valid e =? 1) && (ce_committer_bgw_generation e =? 0) then
        write (on_group j (λ e, ce_set_owner (ce_committer_bgw_slot e) my_gen (ce_committer_acquired_at_ns e) (ce_committer_tx_id e) e));;
        write (on_group j (λ e, ce_set_owner my_slot (ce_committer_bgw_generation e) (ce_committer_acquired_at_ns e) (ce_committer_tx_id e) e));;
        e ← group j;
        if ce_valid e =? 1 then
          write (on_group j (ce_set_valid 2));;
          write (on_group j (λ e, ce_set_owner (ce_committer_bgw_slot e) (ce_committer_bgw_generation e) now_ns (ce_committer_tx_id e) e));;
          write (on_committers (cq_set_head (wrap_u32 (head + i + 1) `mod` capacity)));;
          mret (Some idx)
        else
          write (on_group j (λ e, ce_set_owner (2 ^ 32 - 1) 0 (ce_committer_acquired_at_ns e) (ce_committer_tx_id e) e));;
          claim_scan my_slot my_gen now_ns capacity head rounds
      else claim_scan my_slot my_gen now_ns capacity head rounds
  end.
Definition claim_next_committer_entry (my_slot my_gen now_ns : Z) : Proc (option Z) :=
  capacity ← look (λ m, Z.of_nat (length (groups m)));
  head ← look (λ m, cq_head (COMMITTER_QUEUE m));
  claim_scan my_slot my_gen now_ns capacity head (seqZ 0 capacity).

(** ** Callers still in their transaction *)
Inductive CallerTxStatus : Type := CallerCommitted | CallerInProgress | CallerAborted | CallerUnknown.
Definition parse_caller_status (s : option string) : CallerTxStatus :=
  match s with
  | Some s => if decide (s = "committed") then CallerCommitted
              else if decide (s = "aborted") then CallerAborted
              else if decide (s = "in progress") then CallerInProgress else CallerUnknown
  | None => CallerUnknown
  end.
Inductive Verdict : Type := Keep | Drop | Eject.
Definition judge (max_ejects timeout_us now_us : Z) (status : CallerTxStatus) (s : StagingEntry) : Verdict :=
  match status with
  | CallerCommitted | CallerUnknown => Keep
  | CallerAborted => Drop
  | CallerInProgress =>
      let elapsed_us := Z.max 0 (now_us - se_enqueued_at_micros s) in
      let new_count := Z.min (2 ^ 32 - 1) (se_eject_count s + 1) in
      if (max_ejects <? new_count) || (timeout_us <? elapsed_us) then Drop else Eject
  end.
Definition se_count_eject (e : StagingEntry) : StagingEntry :=
  {| se_valid := se_valid e; se_request_seq := se_request_seq e; se_correlation_id := se_correlation_id e;
     se_user_tx_xid := se_user_tx_xid e; se_trx_type_id := se_trx_type_id e;
     se_payload_offset := se_payload_offset e; se_payload_length := se_payload_length e;
     se_pool_count := se_pool_count e; se_pool_keys_offset := se_pool_keys_offset e;
     se_enqueued_at_micros := se_enqueued_at_micros e; se_backend_pid := se_backend_pid e;
     se_commit_group_id := se_commit_group_id e; se_eject_count := wrap_u32 (se_eject_count e + 1);
     se_last_eject_at_ns := se_last_eject_at_ns e |}.
Definition se_set_last_eject (t : Z) (e : StagingEntry) : StagingEntry :=
  {| se_valid := se_valid e; se_request_seq := se_request_seq e; se_correlation_id := se_correlation_id e;
     se_user_tx_xid := se_user_tx_xid e; se_trx_type_id := se_trx_type_id e;
     se_payload_offset := se_payload_offset e; se_payload_length := se_payload_length e;
     se_pool_count := se_pool_count e; se_pool_keys_offset := se_pool_keys_offset e;
     se_enqueued_at_micros := se_enqueued_at_micros e; se_backend_pid := se_backend_pid e;
     se_commit_group_id := se_commit_group_id e; se_eject_count := se_eject_count e; se_last_eject_at_ns := t |}.
(** The stores of an eject, in the order of the source. *)
Definition eject_slot (now_ns : Z) (s_idx : nat) : Proc unit :=
  slot s_idx;;
  write (on_slot s_idx se_count_eject);;
  write (on_slot s_idx (se_set_last_eject now_ns));;
  store_cg s_idx 0;;
  cas_slot s_idx 3 1;;
  mret tt.
(** [classify_and_eject]: the kept submissions, by slot.  [status] is what
    pg_xact_status reports for a caller's transaction. *)
Fixpoint classify (status : Z → option string) (max_ejects timeout_us now_us : Z) (decoded : list nat) : Proc (list nat * list nat) :=
  match decoded with
  | [] => mret ([], [])
  | s_idx :: decoded =>
      s ← slot s_idx;
      r ← classify status max_ejects timeout_us now_us decoded;
      mret (match judge max_ejects timeout_us now_us (parse_caller_status (status (se_user_tx_xid s))) s with
            | Keep => (s_idx :: r.1, r.2)
            | Drop => r
            | Eject => (r.1, s_idx :: r.2)
            end)
  end.
Definition classify_and_eject (status : Z → option string) (max_ejects timeout_us now_us now_ns : Z)
    (decoded : list nat) : Proc (list nat) :=
  r ← classify status max_ejects timeout_us now_us decoded;
  iterM (eject_slot now_ns) r.2;;
  mret r.1.

(** * Cleanup (cleanup.rs) *)
Definition try_release_staging_slot (s_idx : nat) (commit_group_id : Z) : Proc (option (Z * Z)) :=
  s ← slot s_idx;
  ok ← (if se_commit_group_id s =? commit_group_id then cas_slot s_idx 3 0 else mret false);
  ok ← (if ok : bool then mret true
        else if se_eject_count s =? 0 then cas_slot s_idx 2 0 else mret false);
  mret (if ok : bool then Some (se_payload_offset s, se_pool_keys_offset s) else None).
Definition finalize_committer_queue_slot (cq_idx : nat) : Proc unit :=
  e ← group cq_idx;
  (if ce_valid e =? 2 then write (on_group cq_idx (ce_set_valid 3)) else mret tt);;
  e ← group cq_idx;
  (if ce_valid e =? 3 then write (on_group cq_idx (ce_set_valid 0)) else mret tt);;
  write (on_group cq_idx (ce_set_owner (2 ^ 32 - 1) 0 0 0)).
Definition cleanup_after_commit_group (cq_idx : nat) (commit_group_id : Z) (staging_indices : list nat)
    (staging_offsets_off pool_keys_off pool_seqs_off : Z) : Proc unit :=
  iterM (λ s_idx,
    offsets ← try_release_staging_slot s_idx commit_group_id;
    match offsets with
    | Some (payload_off, keys_off) =>
        write (on_staging sq_count_wake);;
        with_lock_arena (free_staging_arena_blocks payload_off keys_off)
    | None => mret tt
    end) staging_indices;;
  with_lock_arena (free_commit_group_arena staging_offsets_off pool_keys_off pool_seqs_off);;
  finalize_committer_queue_slot cq_idx.

(** * The life cycle of a staging slot *)
Inductive edge : Z → Z → Prop :=
| edge_enqueue : edge 0 1
| edge_claim : edge 1 2
| edge_rollback : edge 2 1
| edge_route : edge 2 3
| edge_eject : edge 3 1
| edge_release : edge 3 0
| edge_release_unstamped : edge 2 0.

Definition lifecycle (σ σ' : Shmem) : Prop :=
  length (slots σ') = length (slots σ) ∧
  ∀ i s, slots σ !! i = Some s → ∃ s', slots σ' !! i = Some s' ∧ rtc edge (se_valid s) (se_valid s').
#[global] Instance lifecycle_PreOrder : PreOrder lifecycle.
Proof.
  split.
  - intros σ. split; [done|]. intros i s Hs. exists s. split; [done|reflexivity].
  - intros σ1 σ2 σ3 [L1 H1] [L2 H2]. split; [congruence|]. intros i s Hs. destruct (H1 i s Hs) as (s' & Hs' & R1).
    destruct (H2 i s' Hs') as (s'' & Hs'' & R2). exists s''. split; [done|by etrans].
Qed.

(** [m] only moves slots along the life cycle, wherever it is killed. *)
Definition keeps {A} (m : Proc A) : Prop := ∀ w, lifecycle (mem w) (mem (m w).2).

Lemma moves_ret {A} (a : A) : keeps (mret a).
Proof. intros w. cbn. reflexivity. Qed.
Lemma moves_throw {A} e : keeps (throw e : Proc A).
Proof. intros w. cbn. reflexivity. Qed.
Lemma moves_bind {A B} (m : Proc A) (f : A → Proc B) : keeps m → (∀ a, keeps (f a)) → keeps (m ≫= f).
Proof.
  intros Hm Hf w. unfold mbind, SE_bind. specialize (Hm w). destruct (m w) as [[a|e] w']; [|done]. cbn in Hm.
  etrans; [exact Hm|apply Hf].
Qed.
Lemma keeps_look {A} (f : Shmem → A) : keeps (look f).
Proof. intros w. cbn. reflexivity. Qed.
Lemma keeps_step : keeps step.
Proof. intros [[[|k]|] σ]; cbn; reflexivity. Qed.
Lemma keeps_write f : (∀ σ, lifecycle σ (f σ)) → keeps (write f).
Proof. intros Hf. apply moves_bind; [apply keeps_step|]. intros _ w. apply Hf. Qed.
Lemma keeps_slot i : keeps (slot i).
Proof. intros w. unfold slot. destruct (slots (mem w) !! i); cbn; reflexivity. Qed.
Lemma keeps_group i : keeps (group i).
Proof. intros w. unfold group. destruct (groups (mem w) !! i); cbn; reflexivity. Qed.
Lemma lifecycle_arena a σ : lifecycle σ (with_arena a σ).
Proof. exact (reflexivity (R := lifecycle) σ). Qed.
Lemma keeps_lock_arena {A} (m : Mem A) : keeps (with_lock_arena m).
Proof.
  apply moves_bind; [apply keeps_step|]. intros _ w. unfold run_arena. destruct (m _) as [[x|f] a]; cbn; apply lifecycle_arena.
Qed.
Lemma keeps_read_arena {A} (m : Mem A) : keeps (read_arena m).
Proof. intros w. unfold read_arena. destruct (m _) as [[x|f] a]; cbn; reflexivity. Qed.

(** Writes outside the staging slots, and writes to the other fields of one. *)
Lemma lifecycle_committers f σ : lifecycle σ (on_committers f σ).
Proof. exact (reflexivity (R := lifecycle) σ). Qed.
Lemma lifecycle_table t σ : lifecycle σ (with_table t σ).
Proof. exact (reflexivity (R := lifecycle) σ). Qed.
Lemma lifecycle_staging f σ : (∀ q, sq_entries (f q) = sq_entries q) → lifecycle σ (on_staging f σ).
Proof.
  intros Hf. unfold lifecycle, slots, on_staging. cbn. rewrite Hf. split; [done|]. intros i s Hs. exists s. split; [done|reflexivity].
Qed.
Lemma lifecycle_slot i f σ s :
  slots σ !! i = Some s → rtc edge (se_valid s) (se_valid (f s)) → lifecycle σ (on_slot i f σ).
Proof.
  intros Hs Hr. unfold lifecycle, slots, on_slot, on_staging in *. cbn. split; [apply length_alter|]. intros k t Ht.
  destruct (decide (k = i)) as [->|Hne].
  - rewrite list_lookup_alter_eq, Hs. assert (t = s) as -> by congruence. by exists (f s).
  - rewrite list_lookup_alter_ne by done. exists t. split; [done|reflexivity].
Qed.
Lemma lifecycle_fields i f σ : (∀ s, se_valid (f s) = se_valid s) → lifecycle σ (on_slot i f σ).
Proof.
  intros Hf. destruct (slots σ !! i) as [s|] eqn:Hs; [eapply lifecycle_slot; [exact Hs|by rewrite Hf]|].
  assert (on_slot i f σ = σ) as ->; [|reflexivity]. unfold on_slot, on_staging. destruct σ as [[h t n k l] c a p]. cbn in *.
  unfold sq_set_entries. cbn. do 2 f_equal. apply list_alter_id_at. intros x Hx. unfold slots in Hs. cbn in Hs. congruence.
Qed.
Lemma keeps_cas_slot i old new : edge old new → keeps (cas_slot i old new).
Proof.
  intros He w. unfold cas_slot, mbind, SE_bind, slot. destruct (slots (mem w) !! i) as [s|] eqn:Hs; [|cbn; reflexivity].
  cbn. case_decide as E; [|cbn; reflexivity]. unfold write, step, mbind, SE_bind. destruct w as [[[|k]|] σ]; cbn; [reflexivity|..];
    (eapply lifecycle_slot; [exact Hs|]; cbn; rewrite E; by apply rtc_once).
Qed.
Lemma keeps_store_cg i cg : keeps (store_cg i cg).
Proof. apply moves_bind; [apply keeps_slot|]. intros _. apply keeps_write. intros σ. by apply lifecycle_fields. Qed.
Lemma keeps_iterM {A} (f : A → Proc unit) l : (∀ a, keeps (f a)) → keeps (iterM f l).
Proof. intros Hf. induction l as [|a l IH]; cbn; [apply moves_ret|]. apply moves_bind; [apply Hf|done]. Qed.
Lemma keeps_sumM {A} (f : A → Proc Z) l : (∀ a, keeps (f a)) → keeps (sumM f l).
Proof.
  intros Hf. induction l as [|a l IH]; cbn; [apply moves_ret|]. apply moves_bind; [apply Hf|]. intros n.
  apply moves_bind; [done|]. intros k. apply moves_ret.
Qed.

Create HintDb lifecycle discriminated.
#[export] Hint Constructors edge : lifecycle.
#[export] Hint Resolve moves_ret moves_throw keeps_look keeps_slot keeps_group keeps_lock_arena keeps_read_arena
  keeps_cas_slot keeps_store_cg lifecycle_committers lifecycle_table lifecycle_staging lifecycle_fields : lifecycle.
Ltac keeps_go :=
  repeat first
    [ progress intros | progress cbv zeta
    | solve [eauto with lifecycle]
    | apply keeps_write | apply keeps_iterM | apply keeps_sumM | apply moves_bind
    | case_decide
    | match goal with
      | |- keeps (match ?x with _ => _ end) => destruct x
      | |- keeps (let '(_, _) := ?x in _) => destruct x
      end
    | match goal with |- lifecycle _ _ => first [by apply lifecycle_fields | by apply lifecycle_staging] end ].

(** ** The operations *)
Lemma keeps_push_scan fill capacity tail rounds :
  (∀ seq s, se_valid (fill seq s) = se_valid s) → keeps (push_scan fill capacity tail rounds).
Proof. intros Hf. induction rounds as [|i rounds IH]; cbn [push_scan]; keeps_go. Qed.
Lemma keeps_push a b c d e f g h : keeps (push_entry_into_queue a b c d e f g h).
Proof. unfold push_entry_into_queue. keeps_go. by apply keeps_push_scan. Qed.

Lemma keeps_claim_scan my_slot my_gen now_ns capacity head rounds : keeps (claim_scan my_slot my_gen now_ns capacity head rounds).
Proof. induction rounds as [|i rounds IH]; cbn [claim_scan]; unfold on_group; keeps_go. Qed.
Lemma keeps_claim my_slot my_gen now_ns : keeps (claim_next_committer_entry my_slot my_gen now_ns).
Proof. unfold claim_next_committer_entry. keeps_go. apply keeps_claim_scan. Qed.
Lemma keeps_claim_identity pe pid : keeps (claim_committer_identity pe pid).
Proof. unfold claim_committer_identity, take_identity, on_identity. keeps_go. Qed.
Lemma keeps_release_identity i : keeps (release_committer_identity i).
Proof. unfold release_committer_identity, on_identity. keeps_go. Qed.

Lemma keeps_classify status m t n decoded : keeps (classify status m t n decoded).
Proof. induction decoded as [|i l IH]; cbn [classify]; keeps_go. Qed.
Lemma keeps_eject status m t n n' decoded : keeps (classify_and_eject status m t n n' decoded).
Proof. unfold classify_and_eject, eject_slot. keeps_go. apply keeps_classify. Qed.

Lemma keeps_cleanup cq cg l a b c : keeps (cleanup_after_commit_group cq cg l a b c).
Proof. unfold cleanup_after_commit_group, finalize_committer_queue_slot, on_group. keeps_go. Qed.

Lemma keeps_emit sens now reorder chunk cap : keeps (emit_commit_group sens now reorder chunk cap).
Proof.
  assert (∀ l, keeps (claim_chunk l)) as Hclaim by (induction l as [|c l IH]; cbn [claim_chunk]; keeps_go).
  assert (∀ l, keeps (assign_seqs sens l)) as Hassign by (induction l as [|c l IH]; cbn [assign_seqs]; keeps_go).
  assert (∀ l, keeps (rollback_packed_to_pending l)) as Hroll by (intros l; unfold rollback_packed_to_pending; keeps_go).
  assert (∀ l k, keeps (rollforward l k)) as Hfwd by (intros l k; unfold rollforward; keeps_go).
  assert (∀ cg c, keeps (stamp reorder cg c)) as Hstamp by (intros cg c; unfold stamp; destruct reorder; keeps_go).
  unfold emit_commit_group, record_commit_group_stats, bump. keeps_go.
Qed.
Lemma keeps_recover pe : keeps (try_recover_router_orphan pe).
Proof.
  unfold try_recover_router_orphan, sweep_queue_phase, sweep_queue_entry, sweep_staging_phase, read_staging_indices,
    try_restamp_staging_to_routed, try_revert_orphan_staging, on_group, bump. keeps_go.
Qed.
#[export] Hint Resolve keeps_emit : lifecycle.
Lemma keeps_tick gucs now_us now_ns reorder pm ev gv cache : keeps (router_tick gucs now_us now_ns reorder pm ev gv cache).
Proof.
  assert (∀ cache cap n fuel g, keeps (emit_chunks now_us reorder cache cap n fuel g)) as Hchunks.
  { intros cache' cap n fuel. induction fuel as [|fuel IH]; intros [|c g]; cbn [emit_chunks]; keeps_go. }
  assert (∀ cache cap b gs, keeps (emit_groups now_us reorder cache cap b gs)) as Hgroups.
  { intros cache' cap b gs. induction gs as [|g gs IH]; cbn [emit_groups]; unfold bump; keeps_go. }
  assert (∀ ms, keeps (hydrate_candidates ms)) as Hhyd.
  { induction ms as [|m ms IH]; cbn [hydrate_candidates]; unfold hydrate_candidate; keeps_go. }
  unfold router_tick, collect_candidates, bump. keeps_go.
Qed.

(** Any sequence of operations of any processes, each killed somewhere or not. *)
Inductive queue_op : ∀ A, Proc A → Prop :=
| op_push a b c d e f g h : queue_op _ (push_entry_into_queue a b c d e f g h)
| op_tick gucs now_us now_ns reorder pm ev gv cache : queue_op _ (router_tick gucs now_us now_ns reorder pm ev gv cache)
| op_recover pe : queue_op _ (try_recover_router_orphan pe)
| op_identity pe pid : queue_op _ (claim_committer_identity pe pid)
| op_release_identity i : queue_op _ (release_committer_identity i)
| op_claim my_slot my_gen now_ns : queue_op _ (claim_next_committer_entry my_slot my_gen now_ns)
| op_eject status m t n n' decoded : queue_op _ (classify_and_eject status m t n n' decoded)
| op_cleanup cq cg l a b c : queue_op _ (cleanup_after_commit_group cq cg l a b c).
Inductive evolves (σ : Shmem) : Shmem → Prop :=
| evolves_refl : evolves σ σ
| evolves_op σ' A (m : Proc A) k : evolves σ σ' → queue_op A m → evolves σ (mem (m {| crash_after := k; mem := σ' |}).2).

