(* ===== verification/V3QueueScenario.v ===== *)
(** Concrete runs of the queues of Path B: the states in which the theorems apply,
    and the interleavings they exclude. *)
From S2P Require Import Prelude V3Arena V3Payload V3PoolSeq V3Affinity V3Shmem V3Router V3Crash.
From S2P Require Import V3Slots.

(** * A small shared memory *)
Definition empty_slot : StagingEntry :=
  {| se_valid := 0; se_request_seq := 0; se_correlation_id := replicate 16 0; se_user_tx_xid := 0; se_trx_type_id := 0;
     se_payload_offset := 0; se_payload_length := 0; se_pool_count := 0; se_pool_keys_offset := 0;
     se_enqueued_at_micros := 0; se_backend_pid := 0; se_commit_group_id := 0; se_eject_count := 0; se_last_eject_at_ns := 0 |}.
Definition empty_group : CommitterQueueEntry :=
  {| ce_valid := 0; ce_commit_group_id := 0; ce_submission_count := 0; ce_staging_entry_offsets := 0; ce_pool_keys_offset := 0;
     ce_pool_keys_count := 0; ce_committer_bgw_slot := 0; ce_committer_bgw_generation := 0; ce_committer_acquired_at_ns := 0;
     ce_committer_tx_id := 0; ce_enqueued_at_micros := 0; ce_pool_seqs_offset := 0 |}.
Definition fresh_shmem : Shmem :=
  {| STAGING_QUEUE := {| sq_head := 0; sq_tail := 0; sq_next_request_seq := 0; sq_free_slot_wake_count := 0;
                         sq_entries := replicate 3 empty_slot |};
     COMMITTER_QUEUE := {| cq_head := 0; cq_tail := 0; cq_next_commit_group_id := 0;
       cq_stats := {| counter := λ _, 0; router_submission_histogram := replicate 8 0; router_max_submission_count_per_group := 0 |};
       cq_identity_slots := replicate 2 {| id_pid := 0; id_generation := 0 |}; cq_entries := replicate 2 empty_group |};
     SPILLOVER_ARENA := fresh_arena; POOL_SEQ_TABLE := zeroed_table |}.
Definition run {A} (m : Proc A) (σ : Shmem) : Shmem := mem (m {| crash_after := None; mem := σ |}).2.
Definition run_killed {A} (k : nat) (m : Proc A) (σ : Shmem) : Shmem := mem (m {| crash_after := Some k; mem := σ |}).2.
Definition slot_states (σ : Shmem) : list (Z * Z) := map (λ s, (se_valid s, se_commit_group_id s)) (slots σ).

(** Two submissions pending. *)
Definition pending2 : Shmem :=
  run (push_entry_into_queue 0 0 0 0 1 101 5 9) (run (push_entry_into_queue 0 0 0 0 1 100 5 9) fresh_shmem).
Definition chunk2 : list Candidate :=
  [{| cand_staging_idx := 0; cand_request_seq := 0; cand_pool_keys := [7] |};
   {| cand_staging_idx := 1; cand_request_seq := 1; cand_pool_keys := [7; 8] |}].
Definition alive (pid : Z) : bool := true.

Lemma pending2_idle : idle alive [] pending2.
Proof.
  assert (∀ j e, groups pending2 !! j = Some e → ce_valid e = 0) as Hg.
  { intros [|[|j]] e; vm_compute; by intros [= <-]. }
  assert (∀ j e i, ¬ lists pending2 j e i) as Hl by (intros j e i (Hj & Hr & _); apply Hg in Hj; unfold ready in Hr; lia).
  split.
  - split.
    + exact fresh_holds.
    + intros j e Hj Hr. apply Hg in Hj. unfold ready in Hr. lia.
    + intros j e z Hj Hr. apply Hg in Hj. unfold ready in Hr. lia.
    + intros j e i H. by destruct (Hl j e i).
    + intros j j' e e' i H. by destruct (Hl j e i).
    + intros j e Hj Hv. by apply Hg in Hj.
    + intros j e Hj Hv. apply Hg in Hj. lia.
    + vm_compute. discriminate.
  - intros [|[|[|i]]] s; vm_compute; by intros [= <-].
  - intros [|[|[|i]]] s; vm_compute; by intros [= <-].
Qed.
Lemma chunk2_ok : chunk_ok pending2 chunk2.
Proof.
  split.
  - intros c Hc. assert (idx_of c < 3)%nat; [|done]. revert c Hc. apply Forall_forall. by vm_compute; repeat constructor; lia.
  - apply (bool_decide_unpack _). by vm_compute.
  - intros c [->|[->|[]%elem_of_nil]%elem_of_cons]%elem_of_cons; by vm_compute.
  - by vm_compute.
  - by vm_compute.
  - by vm_compute.
Qed.

Lemma router_crash_recovers_witness :
  ∃ n w, try_recover_router_orphan alive
           {| crash_after := None; mem := foldl (crash_recovery alive) (crash_emission (λ _, true) 6 chunk2 2 7 pending2) [1%nat] |} = (Ok n, w) ∧
    ∃ L', recovered alive pending2 L' (mem w).
Proof. apply (router_crash_recovers alive [] pending2); [exact pending2_idle|exact chunk2_ok]. Defined.


(** * Affinity groups of a window

    The hash maps hand out their values in key order here. *)
Definition in_key_order {K V} `{Countable K} (m : gmap K V) : list V := (map_to_list m).*2.
Definition window4 : list Candidate :=
  [{| cand_staging_idx := 0; cand_request_seq := 50; cand_pool_keys := [10; 11] |};
   {| cand_staging_idx := 1; cand_request_seq := 20; cand_pool_keys := [20] |};
   {| cand_staging_idx := 2; cand_request_seq := 30; cand_pool_keys := [20; 21] |};
   {| cand_staging_idx := 3; cand_request_seq := 40; cand_pool_keys := [11] |}].
Lemma affinity_groups_are_components_witness :
  ∃ groups, affinity_group in_key_order in_key_order window4 = Ok groups ∧
    component_groups window4 groups ∧ ∀ other, component_groups window4 other → other = groups.
Proof.
  apply (affinity_groups_are_components in_key_order in_key_order window4); [done|done|apply (bool_decide_unpack _); by vm_compute|by vm_compute].
Defined.
Example window4_groups :
  map (map cand_request_seq) <$> (match affinity_group in_key_order in_key_order window4 with Ok g => Some g | Err _ => None end)
  = Some [[20; 30]; [40; 50]].
Proof. vm_compute. reflexivity. Qed.

(** * Interleavings outside the theorems *)
Definition emit2 (reorder : bool) : Proc EmitOutcome := emit_commit_group (λ _, true) 6 reorder chunk2 2.

(** With the two stores of a stamp swapped, a router killed between them leaves a
    slot routed to no group: neither the sweep nor the cleanup of the group takes
    it back. *)
Theorem swapped_stores_strand_slot :
  slot_states (run (cleanup_after_commit_group 0 1 [0%nat; 1%nat] 16 0 0)
    (run (try_recover_router_orphan alive) (run_killed 7 (emit2 true) pending2))) = [(3, 0); (0, 1); (0, 0)].
Proof. vm_compute. reflexivity. Qed.

(** A committer that claims a group before the killed router had stamped its
    slots: the sweep returns the slots to pending although the group, in flight
    with a live owner, is about to commit their submissions. *)
Definition claimed_unstamped : Shmem :=
  run (claim_next_committer_entry 0 1 50) (run (claim_committer_identity alive 77) (run_killed 6 (emit2 false) pending2)).
Theorem sweep_requeues_claimed_group :
  let σ := run (try_recover_router_orphan alive) claimed_unstamped in
  slot_states σ = [(1, 0); (1, 0); (0, 0)] ∧ map ce_valid (groups σ) = [2; 0] ∧
  option_map (indices_of (SPILLOVER_ARENA σ)) (groups σ !! 0%nat) = Some [0; 1].
Proof. vm_compute. auto. Qed.
(** The cleanup of that group then releases the slots under the router that has
    claimed them for the next one. *)
Theorem cleanup_releases_claimed_slots :
  let σ := run_killed 2 (emit2 false) (run (try_recover_router_orphan alive) claimed_unstamped) in
  slot_states σ = [(2, 0); (2, 0); (0, 0)] ∧
  slot_states (run (cleanup_after_commit_group 0 1 [0%nat; 1%nat] 16 0 0) σ) = [(0, 0); (0, 0); (0, 0)].
Proof. vm_compute. auto. Qed.

(** [batch_size_max] may be set up to 100000 and is cast to 16 bits: at 65536 the
    chunk size is 0 and the tick divides by it. *)
Theorem batch_size_65536_panics :
  (router_tick {| guc_router_window_size := 1000; guc_batch_size_max := 65536; guc_eject_cooldown_ms := 10; guc_batch_window_us := 0 |}
     6 6000 false (λ _, Some "wac"%string) in_key_order in_key_order ∅ {| crash_after := None; mem := pending2 |}).1 = Err RustPanic.
Proof. vm_compute. reflexivity. Qed.
