(* ===== verification/V3Journal.v ===== *)
(** The subledger and the journal of the two-path ledger: the book value of a
    pool, as its pool_state rows carry it, against the balance of the postings on
    its lines.  Tables that only grow by identity values, sums over them, and the
    tie between value and postings through planning and writing a submission. *)
From S2P Require Import Prelude V3Plan V3Layered V3Wac V3Method V3Books V3Db V3Hydrate.
From S2P Require Import V3Refine V3Commit V3Safe V3Sim V3Direct V3Payload V3Group V3Equiv.

(** * Tables with an identity column *)
Fixpoint append_rows {V} (last : Z) (vs : list V) (m : gmap Z V) : gmap Z V :=
  match vs with [] => m | v :: vs => append_rows (last + 1) vs (<[last + 1 := v]> m) end.
Definition below {V} (last : Z) (m : gmap Z V) : Prop := map_Forall (λ i _, i ≤ last) m.
Definition sum_rows {V} (f : V → Z) (m : gmap Z V) : Z := sumZ (λ kv, f kv.2) (map_to_list m).

Section tables.
Context {V : Type}.
Implicit Types (m : gmap Z V) (vs : list V).

Lemma below_fresh last m : below last m → m !! (last + 1) = None.
Proof. intros Hm. destruct (m !! _) as [v|] eqn:E; [|done]. apply Hm in E. lia. Qed.
Lemma below_insert last v m : below last m → below (last + 1) (<[last + 1 := v]> m).
Proof.
  intros Hm. apply map_Forall_insert_2; [lia|]. eapply map_Forall_impl; [exact Hm|]. cbn. lia.
Qed.
Lemma append_rows_below last vs m : below last m → below (last + Z.of_nat (length vs)) (append_rows last vs m).
Proof.
  revert last m. induction vs as [|v vs IH]; intros last m Hm; cbn [append_rows length].
  - by rewrite Z.add_0_r.
  - replace (last + Z.of_nat (S (length vs))) with (last + 1 + Z.of_nat (length vs)) by lia.
    by apply IH, below_insert.
Qed.
(** Old identities keep their rows, new ones take the rows in order. *)
Lemma append_rows_old last vs m i : i ≤ last → append_rows last vs m !! i = m !! i.
Proof.
  revert last m. induction vs as [|v vs IH]; intros last m Hi; cbn; [done|].
  rewrite IH by lia. by rewrite lookup_insert_ne by lia.
Qed.
Lemma append_rows_new last vs m (k : nat) v :
  vs !! k = Some v → append_rows last vs m !! (last + 1 + Z.of_nat k) = Some v.
Proof.
  revert last m k. induction vs as [|w vs IH]; intros last m [|k] Hk; cbn in *; [done|done|..].
  - injection Hk as ->. rewrite append_rows_old by lia. by rewrite Z.add_0_r, lookup_insert_eq.
  - replace (last + 1 + Z.of_nat (S k)) with (last + 1 + 1 + Z.of_nat k) by lia. by apply IH.
Qed.
Lemma append_rows_kept last vs m i v : below last m → m !! i = Some v → append_rows last vs m !! i = Some v.
Proof. intros Hm Hi. rewrite append_rows_old; [done|]. by apply Hm in Hi. Qed.
Lemma sum_insert f last v m : below last m → sum_rows f (<[last + 1 := v]> m) = sum_rows f m + f v.
Proof.
  intros Hm. unfold sum_rows. rewrite map_to_list_insert by (by apply below_fresh). rewrite sumZ_cons. cbn. lia.
Qed.
Lemma sum_append f last vs m : below last m → sum_rows f (append_rows last vs m) = sum_rows f m + sumZ f vs.
Proof.
  revert last m. induction vs as [|v vs IH]; intros last m Hm; cbn [append_rows].
  - rewrite sumZ_nil. lia.
  - rewrite IH by (by apply below_insert). rewrite sum_insert, sumZ_cons by done. lia.
Qed.
Lemma sum_rows_ext f g m : (∀ i v, m !! i = Some v → f v = g v) → sum_rows f m = sum_rows g m.
Proof. intros H. apply sumZ_ext. intros [i v] Hin. apply (H i). by apply elem_of_map_to_list. Qed.
End tables.

(** * Values *)
Definition signed_amount (e : PostingEventType) (amount : Z) : Z :=
  match e with InventoryReceipt => amount | InventoryDepletion => - amount | _ => 0 end.
Definition layer_value (rows : list PoolStateRow) : Z := sumZ (λ r, row_qty r * row_unit_cost r) rows.
(** The value a method keeps: quantity times cost over the live layers, or the
    value column of row 0. *)
Definition snap_value (m : PoolMethod) (s : Snapshot) (p : Z) : Z :=
  if decide (layered m) then layer_value (live_rows s p) else wac_value s p.
(** Layers are exact; the subtractions of the average methods wrap. *)
Definition tied (m : PoolMethod) (a b : Z) : Prop :=
  if decide (layered m) then a = b else ∃ k, a = b + k * 2 ^ 64.

Lemma tied_eq m a b : a = b → tied m a b.
Proof. intros ->. unfold tied. case_decide; [done|]. exists 0. lia. Qed.
Lemma tied_trans m a b c : tied m a b → tied m b c → tied m a c.
Proof. unfold tied. case_decide; [congruence|]. intros [k ->] [j ->]. exists (k + j). lia. Qed.
Lemma tied_add m a b c : tied m a b → tied m (a + c) (b + c).
Proof. unfold tied. case_decide; [congruence|]. intros [k ->]. exists k. lia. Qed.
Lemma tied_wrap m a b : ¬ layered m → wrap_i64 a = b → tied m b a.
Proof.
  intros Hl <-. unfold tied. rewrite decide_False by done. unfold wrap_i64.
  exists (- ((a + 2 ^ 63) `div` 2 ^ 64)). pose proof (Z.div_mod (a + 2 ^ 63) (2 ^ 64)). lia.
Qed.

(** The postings of a plan on the lines of one pool. *)
Definition line_pool (r : PlanResult) (i : nat) : option Z := out_pool_id <$> trx_lines r !! i.
Definition posting_on (p : Z) (r : PlanResult) (po : PostingLineRequest) : Z :=
  if decide (line_pool r (pst_trx_line_idx po) = Some p)
  then signed_amount (pst_event_type po) (pst_amount po) else 0.
Definition plan_value (p : Z) (r : PlanResult) : Z := sumZ (posting_on p r) (posting_lines r).

Lemma plan_value_step p r r' o po :
  trx_lines r' = trx_lines r ++ [o] → posting_lines r' = posting_lines r ++ [po] →
  pst_trx_line_idx po = length (trx_lines r) →
  Forall (λ q, (pst_trx_line_idx q < length (trx_lines r))%nat) (posting_lines r) →
  plan_value p r' = plan_value p r +
    (if decide (out_pool_id o = p) then signed_amount (pst_event_type po) (pst_amount po) else 0).
Proof.
  intros Ht Hp Hidx Hold. unfold plan_value. rewrite Hp, sumZ_app, sumZ_cons, sumZ_nil. f_equal.
  - apply sumZ_ext. intros q Hq. rewrite Forall_forall in Hold. specialize (Hold q Hq).
    unfold posting_on, line_pool. by rewrite Ht, lookup_app_l.
  - unfold posting_on, line_pool. rewrite Ht, Hidx, lookup_app_r, Nat.sub_diag by lia. cbn.
    repeat case_decide; simplify_eq; lia.
Qed.

(** * Lines keep value and postings tied *)
Abbreviation any := (λ _ : Z, True).
(** A line books an amount on its own pool only, and moves its value by as much. *)
Definition line_ties (m : PoolMethod) (q : Z) (x x' : Snapshot * PlanResult) : Prop :=
  ∃ δ, (∀ p, plan_value p x'.2 = plan_value p x.2 + if decide (q = p) then δ else 0) ∧
    line_frame q x.1 x'.1 ∧ (m ≠ Std → tied m (snap_value m x'.1 q) (snap_value m x.1 q + δ)).

Lemma snap_value_frame q m p s s' : line_frame q s s' → p ≠ q → snap_value m s' p = snap_value m s p.
Proof.
  intros Hf Hp. unfold snap_value, wac_value. rewrite (live_rows_frame _ _ _ _ Hf Hp), !read_layer0_find.
  by rewrite (rows_of_frame _ _ _ _ Hf Hp).
Qed.
Lemma line_ties_at ml q x x' m p :
  line_ties ml q x x' → method_of x.1 !! q = Some ml → method_of x.1 !! p = Some m → m ≠ Std →
  tied m (snap_value m x'.1 p) (snap_value m x.1 p + (plan_value p x'.2 - plan_value p x.2)).
Proof.
  intros (δ & Hv & Hf & Ht) Hq Hp Hm. rewrite Hv. case_decide as E.
  - subst p. simplify_eq. rewrite Z.add_simpl_l. by apply Ht.
  - apply tied_eq. rewrite (snap_value_frame _ _ _ _ _ Hf) by done. lia.
Qed.

Lemma books_value line x x' p po :
  books any line x x' → plan_indexed x.2 → posting_lines x'.2 = posting_lines x.2 ++ [po] →
  plan_value p x'.2 = plan_value p x.2 +
    (if decide (req_pool_id line = p) then signed_amount (pst_event_type po) (pst_amount po) else 0).
Proof.
  intros [_ _ _ (o & Ho & Hop & _) _ (po' & Hpo & Hidx & _) _ _] [_ Hi _ _] Hpo'.
  rewrite Hpo in Hpo'. simplify_list_eq. rewrite <-Hop. by apply plan_value_step.
Qed.
Lemma books_ties m line x x' po :
  books any line x x' → plan_indexed x.2 → posting_lines x'.2 = posting_lines x.2 ++ [po] →
  line_frame (req_pool_id line) x.1 x'.1 →
  (m ≠ Std → tied m (snap_value m x'.1 (req_pool_id line))
    (snap_value m x.1 (req_pool_id line) + signed_amount (pst_event_type po) (pst_amount po))) →
  line_ties m (req_pool_id line) x x'.
Proof. intros Hb Hi Hpo Hf Ht. eexists. split; [|by split]. intros p. by apply books_value. Qed.

Lemma layered_receipt_ties line t x x' m :
  layered_receipt line t x = (Ok tt, x') → plan_indexed x.2 → 0 < req_qty line →
  method_of x.1 !! req_pool_id line = Some m → layered m → line_ties m (req_pool_id line) x x'.
Proof.
  intros H Hi Hq Hm Hl. pose proof (layered_receipt_books any _ _ _ _ H) as Hb.
  apply layered_receipt_Ok in H as (Hf & Hrows & _ & _ & Hpost). cbv zeta in *.
  eapply books_ties; [done..|]. intros _. cbn. apply tied_eq. unfold snap_value. rewrite !decide_True by done.
  rewrite !(live_rows_layered _ _ m), Hrows, filter_app by (by rewrite ?(lf_method _ _ _ Hf)).
  unfold layer_value. rewrite sumZ_app, filter_cons, decide_True by done. rewrite sumZ_cons. cbn.
  rewrite sumZ_nil. lia.
Qed.

Lemma touches_value line t ts x x' p :
  iterM (touch_layer line t) ts x = (Ok tt, x') → plan_indexed x.2 →
  plan_value p x'.2 = plan_value p x.2 - (if decide (req_pool_id line = p) then sumZ touch_cost ts else 0).
Proof.
  revert x. induction ts as [|lt ts IH]; intros x; cbn [iterM].
  - intros [= <-] _. rewrite sumZ_nil. case_decide; lia.
  - intros ([] & x1 & Hlt & Hts)%SE_bind_Ok Hi.
    pose proof (touch_layer_books any _ _ _ _ _ (λ _, I) Hlt) as Hb.
    rewrite (IH x1 Hts) by (by eapply books_indexed).
    rewrite (books_value _ _ _ p _ Hb Hi (td_post _ _ _ _ _ (touch_layer_touched _ _ _ _ _ Hlt))). cbn.
    rewrite sumZ_cons. case_decide; lia.
Qed.

Lemma layer_value_units rows : Forall (λ r, 0 ≤ row_qty r) rows → layer_value rows = sumZ id (units rows).
Proof.
  unfold layer_value. induction 1 as [|r rows Hr _ IH]; [done|].
  rewrite sumZ_cons, units_cons, sumZ_app, sum_replicate, IH, Z2Nat.id by done. done.
Qed.
(** What a walk over live layers takes off their value is what it charges. *)
Lemma layer_value_walk o rows top rem :
  layers_wf rows top → 0 ≤ rem →
  let ts := walk_layers rows (sorted_idx o rows) rem in
  layer_value (filter has_stock (foldl apply_touch rows ts)) = layer_value rows - sumZ touch_cost ts.
Proof.
  intros Hwf Hrem ts. pose proof (touches_wf o rows top rem Hwf) as Hdep. fold ts in Hdep.
  assert (Forall (λ r, 0 ≤ row_qty r) (oriented o rows)) as Hnn.
  { apply Forall_oriented, layers_nonneg. apply Hwf. }
  pose proof (depleted_bounds rem _ Hnn Hrem) as Hbd. rewrite <-Hdep in Hbd.
  assert (Forall (λ r, 0 ≤ row_qty r) (oriented o (foldl apply_touch rows ts))) as Hnn'.
  { eapply Forall2_Forall_r; [exact Hbd|]. apply Forall_true. naive_solver. }
  assert (∀ l, layer_value l = layer_value (oriented o l)) as Hor by (intros l; unfold layer_value; by rewrite oriented_sum).
  rewrite (Hor (filter _ _)), oriented_filter, (Hor rows), !layer_value_units; [|done|by apply Forall_filter_rows].
  rewrite units_filter, Hdep, units_depleted by done. unfold ts.
  rewrite (walk_cost _ _ (oriented o rows)) by (by try eapply picks_sorted_idx).
  rewrite <-(take_drop (Z.to_nat rem) (units (oriented o rows))) at 2. rewrite sumZ_app. lia.
Qed.

Lemma layered_deplete_ties line t o x x' m :
  layered_deplete line t o x = (Ok tt, x') → plan_indexed x.2 → snapshot_wf x.1 →
  method_of x.1 !! req_pool_id line = Some m → layered m → line_ties m (req_pool_id line) x x'.
Proof.
  intros H Hi Hwf Hm Hl. pose proof (layered_deplete_Ok _ _ _ _ _ H) as (x1 & _ & Hf & Hrows & _ & Hres).
  assert (∃ x2, iterM (touch_layer line t) (walk_layers (rows_of x.1 (req_pool_id line))
            (sorted_idx o (rows_of x.1 (req_pool_id line))) (Z.abs (req_qty line))) x = (Ok tt, x2) ∧ x'.2 = x2.2) as (x2 & Hit & Hr).
  { clear x1 Hf Hrows Hres. unfold layered_deplete in H. core_inv.
    match goal with Hp : pools ?s !! _ = Some ?l |- _ =>
      assert (rows_of s (req_pool_id line) = l) as -> by (unfold rows_of; by rewrite Hp) end.
    match goal with Hit : iterM _ _ _ = (Ok tt, ?y) |- _ => exists y; split; [exact Hit|]; by destruct y end. }
  exists (- sumZ touch_cost (walk_layers (rows_of x.1 (req_pool_id line))
            (sorted_idx o (rows_of x.1 (req_pool_id line))) (Z.abs (req_qty line)))).
  split; [|split; [exact Hf|intros _]].
  - intros p. rewrite Hr, (touches_value _ _ _ _ _ p Hit Hi). case_decide; lia.
  - apply tied_eq. unfold snap_value. rewrite !decide_True by done. specialize (Hwf _ _ Hm Hl).
    rewrite !(live_rows_layered _ _ m), Hrows, list_filter_filter_l by (by rewrite ?(lf_method _ _ _ Hf)).
    rewrite (layer_value_walk o _ _ _ Hwf) by lia. rewrite filter_live_all by apply Hwf. lia.
Qed.

Lemma wac_value_upsert q v rows s p :
  rows_of s p = upsert_layer0_rows q v rows → wac_value s p = v.
Proof.
  intros H. unfold wac_value. rewrite read_layer0_find, H. by destruct (find_upsert_layer0 q v rows) as [i ->].
Qed.
Lemma cumulative_receipt_ties name line t x x' m :
  cumulative_receipt name line t x = (Ok tt, x') → plan_indexed x.2 → averaged m →
  line_ties m (req_pool_id line) x x'.
Proof.
  intros H Hi Hav. pose proof (cumulative_receipt_books any _ _ _ _ _ H) as Hb.
  apply cumulative_receipt_Ok in H. cbv zeta in H.
  destruct (read_layer0 _ _) as [[q v] ex] eqn:Hread. destruct H as (Hf & Hrows & _ & Hpost).
  eapply books_ties; [done..|]. intros _. cbn.
  apply tied_eq. unfold snap_value. rewrite !decide_False by (by apply averaged_not_layered).
  rewrite (wac_value_upsert _ _ _ _ _ Hrows). unfold wac_value. by rewrite Hread.
Qed.
Lemma cumulative_deplete_ties name prov line t x x' m :
  cumulative_deplete name prov line t x = (Ok tt, x') → req_qty line ≠ 0 → plan_indexed x.2 → averaged m →
  line_ties m (req_pool_id line) x x'.
Proof.
  intros H Hq Hi Hav. pose proof (cumulative_deplete_books any _ _ _ _ _ _ H) as Hb.
  apply cumulative_deplete_Ok in H; [|done]. cbv zeta in H.
  destruct (read_layer0 _ _) as [[q v] ex] eqn:Hread. destruct H as (_ & _ & Hf & Hrows & _ & Hpost & _).
  eapply books_ties; [done..|]. intros _. cbn.
  unfold snap_value. rewrite !decide_False by (by apply averaged_not_layered).
  rewrite (wac_value_upsert _ _ _ _ _ Hrows). unfold wac_value. rewrite Hread. cbn.
  apply tied_wrap; [by apply averaged_not_layered|]. unfold wsub. by f_equal.
Qed.
Lemma apply_std_ties line t x x' :
  apply_std line t x = (Ok tt, x') → plan_indexed x.2 → line_ties Std (req_pool_id line) x x'.
Proof.
  intros H Hi. pose proof (apply_std_books any _ _ _ _ H) as Hb. apply apply_std_Ok in H as (Hf & _ & _ & Hpost).
  by eapply books_ties.
Qed.
Lemma line_ties_refl m q x : line_ties m q x x.
Proof.
  exists 0. split; [intros p; case_decide; lia|]. split; [apply line_frame_refl|]. intros _. apply tied_eq. lia.
Qed.

Lemma apply_line_ties t line x x' :
  apply_line t line x = (Ok tt, x') → snapshot_wf x.1 → plan_indexed x.2 →
  ∃ m, method_of x.1 !! req_pool_id line = Some m ∧ line_ties m (req_pool_id line) x x'.
Proof.
  unfold apply_line. intros H Hwf Hi. core_inv.
  match goal with Hm : method_of _ !! _ = Some ?m' |- _ => exists m'; split; [done|]; rename Hm into Hml; destruct m' end.
  all: unfold apply_fifo, apply_lifo, apply_specific, apply_wac, apply_wac_periodic, apply_layered in *; core_inv;
    try match goal with Hs : expect_method _ _ _ = _ |- _ => apply expects_method_Ok in Hs as [_ ->] end.
  all: try (destruct (req_qty line ?= 0) eqn:Hc; rewrite ?Z.compare_lt_iff, ?Z.compare_gt_iff in Hc;
            [core_inv; apply line_ties_refl|..]).
  all: first [eapply layered_deplete_ties; (eassumption || (unfold layered; tauto))
             |eapply layered_receipt_ties; (eassumption || (unfold layered; tauto))
             |eapply cumulative_deplete_ties; (eassumption || lia || (unfold averaged; tauto))
             |eapply cumulative_receipt_ties; (eassumption || (unfold averaged; tauto))
             |by eapply apply_std_ties].
Qed.

(** A plan moves the value of every pool by the postings it makes on it. *)
Lemma plan_ties s lines t r s' st m p :
  plan_apply s lines t = (Ok r, s') → snapshot_wf s → shows s st → method_of s !! p = Some m → m ≠ Std →
  tied m (snap_value m s' p) (snap_value m s p + plan_value p r).
Proof.
  intros (r1 & Hrun & ->)%plan_apply_Ok Hwf Hsh Hm Hstd.
  pose (good := λ x, in_step (method_of s) st (max_seq s) x ∧ booked (method_of s) (max_seq s) any any x ∧
            tied m (snap_value m x.1 p) (snap_value m s p + plan_value p x.2)).
  assert (good (s', r1)) as (_ & _ & Ht); [|done]. refine (iterM_inv good _ _ _ _ _ Hrun _).
  - intros line x x' _ Hl (Hx & Hb & Ht). pose proof (bd_method _ _ _ _ _ Hb) as Hmx. pose proof Hx as (_ & Hxwf & _).
    destruct (apply_line_ties _ _ _ _ Hl Hxwf (bd_indexed _ _ _ _ _ Hb)) as (ml & Hml & Hties).
    split_and!; [by eapply apply_line_step|by eapply apply_line_booked|].
    eapply tied_trans; [eapply line_ties_at; [exact Hties|done|by rewrite Hmx|done]|].
    eapply tied_trans; [by apply tied_add|]. apply tied_eq. lia.
  - split_and!.
    + split_and!; [done|done|]. exists st. split; [done|constructor].
    + split; cbn; [done|by split; constructor| |by constructor..|].
      * intros q. by rewrite Z.sub_diag.
      * intros q. by apply Forall_true.
    + apply tied_eq. unfold plan_value. cbn. rewrite sumZ_nil. cbn. lia.
Qed.

(** * The tables of a submission *)
Lemma add_lines_append trx_id outs d :
  db_trx_line (add_lines trx_id outs d) = append_rows (db_trx_line_last d) (map (line_row trx_id) outs) (db_trx_line d).
Proof.
  revert d. induction outs as [|o outs IH]; intros d; [done|]. cbn [add_lines foldl map append_rows].
  change (foldl _ ?x outs) with (add_lines trx_id outs x). by rewrite IH.
Qed.
Lemma add_postings_append rows d :
  db_posting_line (add_postings rows d) = append_rows (db_posting_last d) rows (db_posting_line d).
Proof.
  revert d. induction rows as [|r rows IH]; intros d; [done|]. cbn [add_postings foldl append_rows].
  change (foldl _ ?x rows) with (add_postings rows x). by rewrite IH.
Qed.
Lemma add_provisionals_append rows d :
  db_provisional (add_provisionals rows d) = append_rows (db_provisional_last d) rows (db_provisional d) ∧
  db_provisional_last (add_provisionals rows d) = db_provisional_last d + Z.of_nat (length rows).
Proof.
  revert d. induction rows as [|r rows IH]; intros d; [cbn; split; [done|lia]|].
  cbn [add_provisionals foldl append_rows length]. change (foldl _ ?x rows) with (add_provisionals rows x).
  destruct (IH (add_provisional r d)) as [-> ->]. cbn. split; [done|lia].
Qed.

Record appended (d : Db) (r : PlanResult) (i : Z) (d' : Db) : Prop := {
  ar_lines : db_trx_line d' = append_rows (db_trx_line_last d) (map (line_row i) (trx_lines r)) (db_trx_line d);
  ar_postings : db_posting_line d' = append_rows (db_posting_last d)
    (posting_rows (fresh_ids (db_trx_line_last d) (length (trx_lines r))) (posting_lines r)) (db_posting_line d);
  ar_provisionals : db_provisional d' = append_rows (db_provisional_last d)
    (provisional_rows (fresh_ids (db_posting_last d) (length (posting_lines r))) (provisional_postings r)) (db_provisional d);
  ar_counter : db_provisional_last d ≤ db_provisional_last d';
}.

Lemma commit_appends d ids lines t r s' ty src :
  db_wf d → plan_apply (hydrate_snapshot d ids) lines t = (Ok r, s') →
  ty ∈ trx_types → document_fresh ty src d → Forall (posting_accounts d) (posting_lines r) →
  ∃ d', apply_plan_result ty src t r d = (Ok (db_trx_last d + 1), d') ∧ appended d r (db_trx_last d + 1) d'.
Proof.
  intros Hwf Hplan Hty Hdoc Hacc.
  destruct (states_run d ids lines t r s' ty src Hwf Hplan) as (m & st & Hrun & _).
  eexists. split; [by eapply write_runs|]. unfold committed.
  set (rows := provisional_rows _ _). set (d2 := add_lines _ _ _).
  destruct (add_lines_frame (db_trx_last d + 1) (trx_lines r)
    (add_trx {| trx_trx_type := ty; trx_source_id := src; trx_posted_at := t |} d)) as [_ _ _ _ [Hpo Hpl] [Hpv Hpvl]].
  fold d2 in Hpo, Hpl, Hpv, Hpvl. cbn in Hpo, Hpl, Hpv, Hpvl.
  destruct (add_postings_frame (posting_rows (fresh_ids (db_trx_line_last d) (length (trx_lines r))) (posting_lines r))
    (set_pool_state m d2)) as (_ & Q2 & _ & _ & _ & _ & _ & Q8 & Q9 & _).
  set (d4 := add_postings _ _) in *.
  destruct (add_provisionals_append rows d4) as [Hprov Hlast].
  destruct (add_provisionals_frame rows d4) as (_ & P2 & _ & _ & _ & _ & _ & P8 & _).
  split.
  - rewrite P2, Q2. unfold d2. cbn. by rewrite add_lines_append.
  - rewrite P8. unfold d4. rewrite add_postings_append. cbn. by rewrite Hpo, Hpl.
  - rewrite Hprov, Q8, Q9. cbn. by rewrite Hpv, Hpvl.
  - rewrite Hlast, Q9. cbn. rewrite Hpvl. lia.
Qed.

(** * Book value and journal of a pool *)
Definition event_value (event_type : string) (amount : Z) : Z :=
  if decide (event_type = "inventory_receipt"%string) then amount
  else if decide (event_type = "inventory_depletion"%string) then - amount else 0.
Definition posting_value (d : Db) (p : Z) (r : PostingRow) : Z :=
  if decide (tl_pool_id <$> db_trx_line d !! pr_trx_line_id r = Some p)
  then event_value (pr_event_type r) (pr_amount r) else 0.
Definition journal (d : Db) (p : Z) : Z := sum_rows (posting_value d p) (db_posting_line d).
Definition pool_value (d : Db) (m : PoolMethod) (p : Z) : Z :=
  if decide (layered m) then layer_value (pool_rows d p)
  else from_option ps_unit_cost 0 (db_pool_state d !! (p, 0)).
(** Postings name their line, provisional rows their posting and a periodic pool. *)
Record journal_wf (d : Db) : Prop := {
  jw_line : map_Forall (λ _ r, is_Some (db_trx_line d !! pr_trx_line_id r)) (db_posting_line d);
  jw_posting : map_Forall (λ _ r, is_Some (db_posting_line d !! pv_posting_line_id r)) (db_provisional d);
  jw_flag : map_Forall (λ _ r, 0 < pv_qty r ∧ db_method d (pv_pool_id r) = Some WacPeriodic ∧
                               is_Some (db_pool_state d !! (pv_pool_id r, 0))) (db_provisional d);
}.

Lemma event_value_signed e amount : event_value (posting_event_type_as_sql e) amount = signed_amount e amount.
Proof. by destruct e. Qed.

Lemma layer_value_core a b : map row_core a = map row_core b → layer_value a = layer_value b.
Proof.
  assert (∀ l, layer_value l = sumZ (λ c : Z * Z * Z, c.1.2 * c.2) (map row_core l)) as H; [|intros E; by rewrite !H, E].
  intros l. unfold layer_value. induction l as [|r l IH]; [done|]. cbn [map]. rewrite !sumZ_cons, IH. done.
Qed.
(** Two tables that show the same rows of a pool value it alike. *)
Lemma pool_value_ext d d' m p :
  (∀ l, state_val <$> db_pool_state d' !! (p, l) = state_val <$> db_pool_state d !! (p, l)) →
  pool_value d' m p = pool_value d m p.
Proof.
  intros H. unfold pool_value. case_decide.
  - apply layer_value_core, sorted_core_unique; [apply pool_rows_sorted..|]. intros l. rewrite !find_pool_rows.
    specialize (H l). destruct (db_pool_state d' !! (p, l)) as [[]|], (db_pool_state d !! (p, l)) as [[]|]; cbn in *; unfold state_val, row_value in *; cbn in *; congruence.
  - specialize (H 0). destruct (db_pool_state d' !! (p, 0)) as [[]|], (db_pool_state d !! (p, 0)) as [[]|]; cbn in *; unfold state_val, row_value in *; cbn in *; congruence.
Qed.
Lemma shown_value d s m p :
  shows s (state_val <$> db_pool_state d) → snapshot_wf s → method_of s !! p = Some m → m ≠ Std →
  snap_value m s p = pool_value d m p.
Proof.
  intros Hsh Hwf Hm Hstd. assert (∀ l, state_val <$> db_pool_state d !! (p, l) = row_value <$> find_layer l (live_rows s p)) as H.
  { intros l. rewrite <-Hsh by (by rewrite Hm). by rewrite lookup_fmap. }
  unfold snap_value, pool_value. case_decide as Hl.
  - apply layer_value_core, sorted_core_unique; [|apply pool_rows_sorted|].
    + rewrite (live_rows_layered _ _ m) by done. apply Sorted_filter_rows. by apply (Hwf p m).
    + intros l. rewrite <-H, find_pool_rows. by destruct (db_pool_state d !! (p, l)) as [[]|].
  - unfold wac_value. rewrite read_layer0_find. change (List.find is_layer0) with (find_layer 0).
    specialize (H 0). unfold live_rows in H. rewrite Hm, decide_False in H by done.
    destruct (find_layer 0 _) as [r|], (db_pool_state d !! (p, 0)) as [[]|]; cbn in *; unfold state_val, row_value in *; cbn in *; congruence.
Qed.

Lemma journal_appended d r i d' p :
  db_wf d → journal_wf d → plan_indexed r → appended d r i d' →
  journal d' p = journal d p + plan_value p r.
Proof.
  intros Hwf Hj [_ Hidx _ _] [Hl Hp _ _]. unfold journal. rewrite Hp, sum_append by apply (dw_post _ Hwf). f_equal.
  - apply sum_rows_ext. intros k v Hk. apply (jw_line _ Hj) in Hk as [row Hrow]. unfold posting_value.
    rewrite Hl, (append_rows_kept _ _ _ _ row), Hrow; [done| |done]. eapply map_Forall_impl; [apply (dw_line _ Hwf)|]. cbn. lia.
  - unfold posting_rows, plan_value. rewrite <-sumZ_map, <-(sumZ_map (posting_on p r)), map_map. f_equal.
    apply map_ext_Forall. eapply Forall_impl; [exact Hidx|]. intros po Hpo. unfold posting_value, posting_on, line_pool. cbn.
    apply lookup_lt_is_Some_2 in Hpo as [o Ho]. unfold nth_id. rewrite fresh_ids_lookup by (by eapply lookup_lt_Some).
    cbn. rewrite Hl, (append_rows_new _ _ _ (pst_trx_line_idx po) (line_row i o)) by (by rewrite list_lookup_fmap, Ho).
    rewrite Ho. cbn. by rewrite event_value_signed.
Qed.

(** Row 0 of an average pool stays once it is there. *)
Definition has_row0 (s : Snapshot) (p : Z) : Prop := is_Some (find_layer 0 (rows_of s p)).
Lemma has_row0_upsert s p q v rows : rows_of s p = upsert_layer0_rows q v rows → has_row0 s p.
Proof.
  intros H. unfold has_row0. rewrite H. change (find_layer 0) with (List.find is_layer0).
  destruct (find_upsert_layer0 q v rows) as [i ->]. by eexists.
Qed.
Lemma apply_line_row0 t line x x' m p :
  apply_line t line x = (Ok tt, x') → method_of x.1 !! p = Some m → averaged m → has_row0 x.1 p → has_row0 x'.1 p.
Proof.
  intros H Hm Hav Hx. pose proof (apply_line_scope _ _ _ _ H) as Hf. destruct (decide (p = req_pool_id line)) as [->|Hne].
  2: { unfold has_row0. by rewrite (rows_of_frame _ _ _ _ Hf Hne). }
  unfold apply_line in H. core_inv.
  destruct Hav as [-> | ->]; unfold apply_wac, apply_wac_periodic in *; core_inv;
    match goal with Hs : expect_method _ _ _ = _ |- _ => apply expects_method_Ok in Hs as [_ ->] end;
    (destruct (req_qty line ?= 0) eqn:Hc; rewrite ?Z.compare_lt_iff, ?Z.compare_gt_iff in Hc; [by core_inv|..]);
    match goal with
    | H : wac_deplete _ _ _ = _ |- _ => apply cumulative_deplete_Ok in H; [|lia]
    | H : wac_periodic_deplete _ _ _ = _ |- _ => apply cumulative_deplete_Ok in H; [|lia]
    | H : wac_receipt _ _ _ = _ |- _ => apply cumulative_receipt_Ok in H
    | H : wac_periodic_receipt _ _ _ = _ |- _ => apply cumulative_receipt_Ok in H
    end; cbv zeta in *; destruct (read_layer0 _ _) as [[??]?]; eapply has_row0_upsert; naive_solver.
Qed.

(** Provisional rows carry the quantity of a depletion of a periodic pool. *)
Definition flag_ok (s : Snapshot) (v : ProvisionalPostingRequest) : Prop :=
  0 < prov_qty v ∧ method_of s !! prov_pool_id v = Some WacPeriodic ∧ has_row0 s (prov_pool_id v).
Definition flags_ok (x : Snapshot * PlanResult) : Prop := Forall (flag_ok x.1) (provisional_postings x.2).
Lemma flag_ok_line t line x x' v : apply_line t line x = (Ok tt, x') → flag_ok x.1 v → flag_ok x'.1 v.
Proof.
  intros H (Hq & Hm & H0). split; [done|]. split.
  - by rewrite (lf_method _ _ _ (apply_line_scope _ _ _ _ H)).
  - eapply apply_line_row0; [exact H|exact Hm|by right|done].
Qed.
Lemma touches_flags line t ts x x' :
  iterM (touch_layer line t) ts x = (Ok tt, x') → provisional_postings x'.2 = provisional_postings x.2.
Proof.
  revert x. induction ts as [|lt ts IH]; intros x; cbn [iterM]; [by intros [= <-]|].
  intros ([] & x1 & Hlt%touch_layer_touched & Hts)%SE_bind_Ok. rewrite (IH x1 Hts). apply Hlt.
Qed.
Lemma periodic_flags line t x x' :
  wac_periodic_deplete line t x = (Ok tt, x') → req_qty line ≠ 0 → method_of x.1 !! req_pool_id line = Some WacPeriodic →
  ∃ v, provisional_postings x'.2 = provisional_postings x.2 ++ [v] ∧ flag_ok x'.1 v.
Proof.
  intros H Hq Hm. apply cumulative_deplete_Ok in H; [|done]. cbv zeta in H. destruct (read_layer0 _ _) as [[q v] ex].
  destruct H as (_ & _ & Hf & Hrows & _ & _ & Hp). eexists. split; [exact Hp|]. unfold flag_ok. cbn.
  rewrite (lf_method _ _ _ Hf). split_and!; [lia|done|by eapply has_row0_upsert].
Qed.
Lemma wac_flags line t x x' :
  wac_deplete line t x = (Ok tt, x') → req_qty line ≠ 0 → provisional_postings x'.2 = provisional_postings x.2.
Proof.
  intros H Hq. apply cumulative_deplete_Ok in H; [|done]. cbv zeta in H. destruct (read_layer0 _ _) as [[q v] ex].
  destruct H as (_ & _ & _ & _ & _ & _ & Hp). by rewrite Hp, app_nil_r.
Qed.
Lemma layered_receipt_flags line t x x' :
  layered_receipt line t x = (Ok tt, x') → provisional_postings x'.2 = provisional_postings x.2.
Proof.
  unfold layered_receipt. intros H. core_inv.
  match goal with Hs : next_trx_seq _ _ = _ |- _ => by apply next_trx_seq_Ok in Hs as (-> & _ & ->) end.
Qed.
Lemma layered_deplete_flags line t o x x' :
  layered_deplete line t o x = (Ok tt, x') → provisional_postings x'.2 = provisional_postings x.2.
Proof.
  unfold layered_deplete. intros H. core_inv.
  match goal with Hi : iterM _ _ _ = _ |- _ => by apply touches_flags in Hi end.
Qed.
Lemma cumulative_receipt_flags name line t x x' :
  cumulative_receipt name line t x = (Ok tt, x') → provisional_postings x'.2 = provisional_postings x.2.
Proof.
  unfold cumulative_receipt. intros H. core_inv. destruct (read_layer0 _ _) as [[??]?]. core_inv.
  match goal with Hs : next_trx_seq _ _ = _ |- _ => by apply next_trx_seq_Ok in Hs as (-> & _ & ->) end.
Qed.
Lemma apply_std_flags line t x x' :
  apply_std line t x = (Ok tt, x') → provisional_postings x'.2 = provisional_postings x.2.
Proof.
  unfold apply_std. intros H. core_inv.
  match goal with Hs : expect_method _ _ _ = _ |- _ => by apply expects_method_Ok in Hs as [_ ->] end.
Qed.
Lemma apply_line_flags t line x x' : apply_line t line x = (Ok tt, x') → flags_ok x → flags_ok x'.
Proof.
  intros H Hx. assert (Forall (flag_ok x'.1) (provisional_postings x.2)) as Hold.
  { eapply Forall_impl; [exact Hx|]. intros v. by eapply flag_ok_line. }
  assert (provisional_postings x'.2 = provisional_postings x.2 ∨
          ∃ v, provisional_postings x'.2 = provisional_postings x.2 ++ [v] ∧ flag_ok x'.1 v) as [Hp|(v & Hp & Hv)].
  2,3: unfold flags_ok; rewrite Hp; rewrite ?Forall_app, ?Forall_singleton; done.
  unfold apply_line in H. core_inv. match goal with Hm : method_of _ !! _ = Some ?m |- _ => rename Hm into Hml; destruct m end.
  all: unfold apply_fifo, apply_lifo, apply_specific, apply_wac, apply_wac_periodic, apply_layered in *; core_inv;
    try match goal with Hs : expect_method _ _ _ = _ |- _ => apply expects_method_Ok in Hs as [_ ->] end.
  all: try (destruct (req_qty line ?= 0) eqn:Hc; rewrite ?Z.compare_lt_iff, ?Z.compare_gt_iff in Hc; [by core_inv; left|..]).
  all: first [right; by eapply periodic_flags; [eassumption|lia|]|left].
  all: first [by eapply layered_receipt_flags|by eapply layered_deplete_flags|by eapply cumulative_receipt_flags
             |by eapply apply_std_flags|eapply wac_flags; [eassumption|lia]].
Qed.
Lemma plan_flags s lines t r s' :
  plan_apply s lines t = (Ok r, s') → Forall (flag_ok s') (provisional_postings r).
Proof.
  intros (r1 & Hrun & ->)%plan_apply_Ok. assert (flags_ok (s', r1)) as H; [|done].
  refine (iterM_inv flags_ok _ _ _ _ _ Hrun _); [|constructor]. intros line x x' _. apply apply_line_flags.
Qed.
(** ... and for all pools of the snapshot through a plan. *)
Lemma plan_row0 s lines t r s' m p :
  plan_apply s lines t = (Ok r, s') → method_of s !! p = Some m → averaged m → has_row0 s p → has_row0 s' p.
Proof.
  intros (r1 & Hrun & _)%plan_apply_Ok Hm Hav H0.
  assert (method_of s' !! p = Some m ∧ has_row0 s' p) as [_ ?]; [|done].
  refine (iterM_inv (λ x, method_of x.1 !! p = Some m ∧ has_row0 x.1 p) _ _ _ _ _ Hrun (conj Hm H0)).
  intros line x x' _ Hl [Hx Hx0]. split; [by rewrite (lf_method _ _ _ (apply_line_scope _ _ _ _ Hl))|].
  by eapply apply_line_row0.
Qed.
Lemma shown_row0 d s p :
  shows s (state_val <$> db_pool_state d) → method_of s !! p = Some WacPeriodic →
  has_row0 s p ↔ is_Some (db_pool_state d !! (p, 0)).
Proof.
  intros Hsh Hm. specialize (Hsh p 0 ltac:(by rewrite Hm)). rewrite lookup_fmap, (live_rows_averaged _ _ WacPeriodic) in Hsh;
    [|done|by right]. unfold has_row0.
  destruct (find_layer 0 _), (db_pool_state d !! (p, 0)); cbn in *; split; (intros [? ?]; eauto || done).
Qed.

Lemma journal_wf_appended d r i d' :
  db_wf d → journal_wf d → plan_indexed r →
  Forall (λ v, 0 < prov_qty v ∧ db_method d' (prov_pool_id v) = Some WacPeriodic ∧
               is_Some (db_pool_state d' !! (prov_pool_id v, 0))) (provisional_postings r) →
  (∀ p, db_method d p = Some WacPeriodic → is_Some (db_pool_state d !! (p, 0)) → is_Some (db_pool_state d' !! (p, 0))) →
  appended d r i d' → db_pool d' = db_pool d → journal_wf d'.
Proof.
  intros Hwf [H1 H2 H3] [_ Hidx Hpv _] Hpos Hrow0 [Hl Hp Hv _] Hpool.
  assert (below (db_trx_line_last d) (db_trx_line d)) as Hbl by (eapply map_Forall_impl; [apply (dw_line _ Hwf)|]; cbn; lia).
  assert (∀ {V} (Q : V → Prop) last vs (m : gmap Z V), map_Forall (λ _ v, Q v) m → Forall Q vs →
            map_Forall (λ _ v, Q v) (append_rows last vs m)) as Happ.
  { intros V Q last vs. revert last. induction vs as [|v vs IH]; intros last m Hm; [done|].
    intros [Hq Hvs]%Forall_cons. apply IH; [by apply map_Forall_insert_2|done]. }
  split; rewrite ?Hp, ?Hv; apply Happ.
  - eapply map_Forall_impl; [exact H1|]. cbn. intros k v [row Hrow]. rewrite Hl, (append_rows_kept _ _ _ _ row); eauto.
  - unfold posting_rows. apply Forall_map. eapply Forall_impl; [exact Hidx|]. cbn. intros po Hpo.
    apply lookup_lt_is_Some_2 in Hpo as [o Ho]. unfold nth_id. rewrite fresh_ids_lookup by (by eapply lookup_lt_Some). cbn.
    rewrite Hl, (append_rows_new _ _ _ (pst_trx_line_idx po) (line_row i o)); [by eexists|by rewrite list_lookup_fmap, Ho].
  - eapply map_Forall_impl; [exact H2|]. cbn. intros k v [row Hrow].
    rewrite (append_rows_kept _ _ _ _ row); [by eexists|apply (dw_post _ Hwf)|done].
  - unfold provisional_rows. apply Forall_map. eapply Forall_impl; [exact Hpv|]. cbn. intros pv Hlt.
    unfold nth_id. rewrite fresh_ids_lookup by done. cbn.
    apply lookup_lt_is_Some_2 in Hlt as [po Hpo].
    rewrite (append_rows_new _ _ _ (prov_posting_line_idx pv)
      (posting_row (nth_id (fresh_ids (db_trx_line_last d) (length (trx_lines r))) (pst_trx_line_idx po)) po)); [by eexists|].
    unfold posting_rows. by rewrite list_lookup_fmap, Hpo.
  - eapply map_Forall_impl; [exact H3|]. cbn. intros k v (? & ? & ?). split; [done|]. split; [|by apply Hrow0].
    unfold db_method in *. by rewrite Hpool.
  - unfold provisional_rows. by apply Forall_map.
Qed.

(** A submission through Path A moves the value of every pool by the postings it
    makes on it, and leaves a well-formed journal. *)
Lemma submit_lines_ties ty src t lines d i d' :
  db_wf d → journal_wf d → submit_lines ty src t lines d = (Ok i, d') →
  journal_wf d' ∧ db_pool d' = db_pool d ∧
  (∃ vs, db_provisional d' = append_rows (db_provisional_last d) vs (db_provisional d)) ∧
  ∀ p m, db_method d p = Some m → m ≠ Std → tied m (pool_value d' m p) (pool_value d m p + (journal d' p - journal d p)).
Proof.
  unfold submit_lines. intros Hwf Hj E. apply SE_bind_Ok in E as (ids & d2 & Hlk & E).
  apply acquire_pool_locks_Ok in Hlk as [l ->]. apply SE_bind_Ok in E as (s & d3 & [= <- <-] & E).
  destruct (plan_apply _ _ _) as [[r|e] s'] eqn:Hplan; [|done].
  pose proof (apply_plan_result_inv _ _ _ _ _ _ _ E) as (Hty & Hdoc & Hacc).
  pose proof (db_wf_lock l d Hwf) as Hwf'. assert (journal_wf (set_pool_lock l d)) as Hj' by (by destruct Hj).
  destruct (commit_plan _ _ _ _ _ _ ty src Hwf' Hplan) as (d1 & Hrun & _ & Hsh & _ & Hoth & Hswf & Hmeth & Hpool & _); [done..|].
  destruct (commit_appends _ _ _ _ _ _ ty src Hwf' Hplan) as (d1' & Hrun' & Happ); [done..|].
  rewrite Hrun in E, Hrun'. injection E as <- <-. injection Hrun' as <-.
  pose proof (plan_booked any any _ _ _ _ _ Hplan ltac:(by apply Forall_true) ltac:(intros ?; by apply Forall_true)) as Hb.
  pose proof (bd_indexed _ _ _ _ _ Hb) as Hix. cbn in Hix.
  split_and!; [|done|by eexists; apply Happ|].
  - eapply journal_wf_appended; [exact Hwf'|done|done|..|done|done].
    + eapply Forall_impl; [by eapply plan_flags|]. intros v (Hq & Hm & H0). split; [done|].
      split; [|by eapply shown_row0]. rewrite Hmeth, hydrate_method in Hm. case_decide; [|done].
      unfold db_method in *. by rewrite Hpool.
    + intros p Hm H0. destruct (decide (p ∈ sorted_dedup (map req_pool_id lines))) as [Hin|Hin].
      * assert (method_of (hydrate_snapshot (set_pool_lock l d) (sorted_dedup (map req_pool_id lines))) !! p = Some WacPeriodic)
          as Hms by (by rewrite hydrate_method, decide_True).
        eapply (shown_row0 d1 s'); [done|by rewrite Hmeth|]. eapply plan_row0; [exact Hplan|done|by right|].
        by eapply (shown_row0 (set_pool_lock l d)); [apply hydrate_shows|..].
      * specialize (Hoth p 0 Hin). destruct H0 as [row H0]. rewrite H0 in Hoth.
        destruct (db_pool_state d1 !! (p, 0)); [by eexists|done].
  - intros p m Hm Hstd.
    rewrite (journal_appended (set_pool_lock l d) r (db_trx_last d + 1) d1 p) by done.
    change (journal (set_pool_lock l d) p) with (journal d p). rewrite Z.add_simpl_l.
    change (pool_value d m p) with (pool_value (set_pool_lock l d) m p).
    set (touched := sorted_dedup _) in *. destruct (decide (p ∈ touched)) as [Hin|Hin].
    + assert (method_of (hydrate_snapshot (set_pool_lock l d) touched) !! p = Some m) as Hms
        by (by rewrite hydrate_method, decide_True).
      rewrite <-(shown_value d1 s' m p), <-(shown_value (set_pool_lock l d) (hydrate_snapshot (set_pool_lock l d) touched) m p);
        [|by apply hydrate_shows|by apply hydrate_wf|done..|by rewrite Hmeth|done].
      eapply plan_ties; [exact Hplan|by apply hydrate_wf|by apply hydrate_shows|done|done].
    + apply tied_eq. rewrite (pool_value_ext (set_pool_lock l d) d1) by (intros l'; by apply Hoth).
      assert (plan_value p r = 0) as ->; [|lia]. unfold plan_value.
      rewrite (sumZ_ext _ (λ _, 0)); [clear; induction (posting_lines r) as [|? ? IH]; [done|by rewrite sumZ_cons, IH]|].
      intros po _. unfold posting_on. case_decide as Hp; [|done]. exfalso. apply Hin.
      unfold line_pool in Hp. destruct (trx_lines r !! _) as [o|] eqn:Ho; [|done]. injection Hp as <-.
      pose proof (bd_pools _ _ _ _ _ Hb) as Hbp. rewrite Forall_lookup in Hbp. specialize (Hbp _ _ Ho).
      rewrite hydrate_method in Hbp. case_decide; [done|]. by destruct Hbp.
Qed.
