(* ===== verification/V3Close.v ===== *)
(** [ledger_close_period] of the two-path ledger (ledger-direct, close_period.rs):
    at the end of a period the depletions of its periodic-average pools, posted
    provisionally at the running average, are restated at the period's final
    average.  The theorems say what a close writes and what it leaves alone. *)
From S2P Require Import Prelude V3Plan V3Layered V3Wac V3Method V3Books V3Db V3Hydrate.
From S2P Require Import V3Refine V3Commit V3Safe V3Direct V3Journal.

(** * Tables (migrations 0002 and 0007)

    The columns of posting_lines_provisional that a close fills in are kept by the
    id of their row; a row that is not finalized has none of them. *)
Record AccountingPeriod := {
  ap_start_date : Z;
  ap_end_date : Z;
  ap_state : string;
  ap_closed_at : option Timestamp;
}.
Record Finalization := {
  fz_finalized_at : Timestamp;
  fz_variance_amount : Z;
  fz_variance_posting_line_id : option Z;
}.
Record CloseDb := {
  cd_db : Db;
  cd_period : gmap Z AccountingPeriod;
  cd_final : gmap Z Finalization;
}.
Abbreviation CTx := (SE CloseDb SqlError).

Definition with_db (d : Db) (c : CloseDb) : CloseDb :=
  {| cd_db := d; cd_period := cd_period c; cd_final := cd_final c |}.
Definition on_db {A} (m : Tx A) : CTx A := λ c, let '(r, d) := m (cd_db c) in (r, with_db d c).
Definition set_period (i : Z) (ap : AccountingPeriod) (c : CloseDb) : CloseDb :=
  {| cd_db := cd_db c; cd_period := <[i := ap]> (cd_period c); cd_final := cd_final c |}.
Definition set_final (m : gmap Z Finalization) (c : CloseDb) : CloseDb :=
  {| cd_db := cd_db c; cd_period := cd_period c; cd_final := m |}.

(** An aborted call leaves the rows and keeps the sequences. *)
Definition close_transaction {A} (m : CTx A) : CTx A := λ c,
  match m c with
  | (Ok a, c') => (Ok a, c')
  | (Err e, c') => (Err e, with_db (rollback (cd_db c) (cd_db c')) c)
  end.

(** * Reading the period *)
Record Provisional := {
  prv_id : Z;
  prv_posting_line_id : Z;
  prv_pool_id : Z;
  prv_qty : Z;
  prv_provisional_amount : Z;
  prv_debit_account : Z;
  prv_credit_account : Z;
  prv_posted_at : Timestamp;   (* what the rendered text denotes when it is read back *)
}.
Record CloseSummary := {
  cs_period_id : Z;
  cs_provisional_finalized : Z;
  cs_variance_posted : Z;
  cs_zero_variance : Z;
  cs_pools_affected : Z;
}.
Record VarianceRow := {
  vr_pool_id : Z;
  vr_unit_cost : Z;
  vr_trx_seq : Z;
  vr_amount : Z;
  vr_debit : Z;
  vr_credit : Z;
  vr_posted_at : Timestamp;
}.

Definition bigint (z : Z) : Res SqlError Z :=
  ok_or (i64_try_from z) (SqlRaised "22003" "bigint out of range").

Section close.
(** The session's time zone: the instant at which a date begins, and the offset
    from UTC at an instant.  [now] is the start of the transaction. *)
Context (date_start : Z → Timestamp) (utc_offset : Timestamp → Z) (now : Timestamp).

Definition in_period (ap : AccountingPeriod) (t : Timestamp) : bool :=
  (date_start (ap_start_date ap) <=? t) && (t <? date_start (ap_end_date ap + 1)).

Definition read_period_for_update (period_id : Z) : CTx AccountingPeriod :=
  c ← gets id;
  lift (ok_or (cd_period c !! period_id) (SqlRaised "XX000" "no accounting_period")).

Definition set_state (period_id : Z) (state : string) (closed_at : option Timestamp) : CTx unit :=
  modify (λ c, match cd_period c !! period_id with
               | Some ap => set_period period_id
                   {| ap_start_date := ap_start_date ap; ap_end_date := ap_end_date ap;
                      ap_state := state;
                      ap_closed_at := (match closed_at with Some t => Some t | None => ap_closed_at ap end) |} c
               | None => c
               end).

(** [to_char] renders the local time and appends a fixed "+00:00": read back, the
    text denotes the instant moved by the session's offset. *)
Definition rendered (t : Timestamp) : Timestamp := t + utc_offset t.
Definition provisional_of (ap : AccountingPeriod) (c : CloseDb) (ir : Z * ProvisionalRow) : option Provisional :=
  match cd_final c !! ir.1 with
  | Some _ => None
  | None =>
      pl ← db_posting_line (cd_db c) !! pv_posting_line_id ir.2;
      if in_period ap (pr_posted_at pl)
      then Some {| prv_id := ir.1; prv_posting_line_id := pv_posting_line_id ir.2;
                   prv_pool_id := pv_pool_id ir.2; prv_qty := pv_qty ir.2;
                   prv_provisional_amount := pv_provisional_amount ir.2;
                   prv_debit_account := pr_debit_account pl; prv_credit_account := pr_credit_account pl;
                   prv_posted_at := rendered (pr_posted_at pl) |}
      else None
  end.
Definition read_unfinalized_in_period (ap : AccountingPeriod) (c : CloseDb) : list Provisional :=
  sort_by_key prv_id (omap (provisional_of ap c) (map_to_list (db_provisional (cd_db c)))).

(** ** The final average: value and quantity of the receipts of the period *)
Definition in_period_receipts (ap : AccountingPeriod) (d : Db) (pool_id : Z) : list (Z * Z) :=
  omap (λ ir : Z * PostingRow,
    tl ← db_trx_line d !! pr_trx_line_id ir.2;
    if bool_decide (pr_event_type ir.2 = "inventory_receipt"%string ∧ tl_pool_id tl = pool_id) &&
       in_period ap (pr_posted_at ir.2)
    then Some (pr_amount ir.2, tl_qty tl) else None) (map_to_list (db_posting_line d)).
Definition pool_final_avg (ap : AccountingPeriod) (d : Db) (pool_id : Z) : Res SqlError (option Z) :=
  match in_period_receipts ap d pool_id with
  | [] => Ok None
  | rows =>
      val ← bigint (sumZ fst rows);
      qty ← bigint (sumZ snd rows);
      Ok (if 0 <? qty then Some (val `quot` qty) else None)
  end.
Fixpoint compute_final_avg_per_pool (ap : AccountingPeriod) (d : Db) (pool_ids : list Z)
    : Res SqlError (gmap Z Z) :=
  match pool_ids with
  | [] => Ok ∅
  | p :: pool_ids =>
      avg ← pool_final_avg ap d p;
      m ← compute_final_avg_per_pool ap d pool_ids;
      Ok (match avg with Some a => <[p := a]> m | None => m end)
  end.

(** ** Variances *)
Definition variance_of (final_avg : gmap Z Z) (p : Provisional) : Res SqlError Z :=
  avg ← ok_or (final_avg !! prv_pool_id p) (RustPanicked "no entry found for key");
  restated ← ok_or (checked_mul avg (prv_qty p)) (SqlRaised "XX000" "overflow restating pool");
  ok_or (checked_sub restated (prv_provisional_amount p)) (SqlRaised "XX000" "overflow variance").
Fixpoint variances (final_avg : gmap Z Z) (ps : list Provisional) : Res SqlError (list Z) :=
  match ps with
  | [] => Ok []
  | p :: ps => v ← variance_of final_avg p; vs ← variances final_avg ps; Ok (v :: vs)
  end.
Definition pool_variance_sum (pvs : list (Provisional * Z)) : gmap Z Z :=
  foldl (λ m pv, <[prv_pool_id pv.1 := wadd (default 0 (m !! prv_pool_id pv.1)) pv.2]> m) ∅ pvs.

(** The rows of the non-zero variances, and for each provisional row the index of
    the posting that carries its variance. *)
Fixpoint variance_rows (next_seq : gmap Z Z) (pvs : list (Provisional * Z)) (n : nat)
    : Res SqlError (list VarianceRow * list (option nat)) :=
  match pvs with
  | [] => Ok ([], [])
  | (prov, var) :: pvs =>
      if decide (var = 0)
      then r ← variance_rows next_seq pvs n; Ok (r.1, None :: r.2)
      else
        let seq := wadd (default 0 (next_seq !! prv_pool_id prov)) 1 in
        unit_cost ← ok_or (i64_div var (prv_qty prov)) (RustPanicked "attempt to divide");
        r ← variance_rows (<[prv_pool_id prov := seq]> next_seq) pvs (S n);
        Ok ({| vr_pool_id := prv_pool_id prov; vr_unit_cost := unit_cost; vr_trx_seq := seq;
               vr_amount := wrap_i64 (Z.abs var);
               vr_debit := (if 0 <? var then prv_debit_account prov else prv_credit_account prov);
               vr_credit := (if 0 <? var then prv_credit_account prov else prv_debit_account prov);
               vr_posted_at := prv_posted_at prov |} :: r.1, Some n :: r.2)
  end.
Definition read_max_trx_seq_per_pool (d : Db) (pool_ids : list Z) : gmap Z Z :=
  list_to_map (map (λ p, (p, max_trx_seq d p)) pool_ids).

(** ** Writing *)
Definition insert_close_trx (period_id : Z) : Tx Z := insert_trx "revaluation_run" period_id now.
Definition variance_line (trx_id : Z) (v : VarianceRow) : LineRow :=
  {| tl_trx_id := trx_id; tl_pool_id := vr_pool_id v; tl_line_type := "revaluation_line";
     tl_source_id := None; tl_qty := 0; tl_unit_cost := vr_unit_cost v; tl_trx_seq := vr_trx_seq v;
     tl_source_trx_line_id := None |}.
Definition insert_variance_trx_lines (trx_id : Z) (vs : list VarianceRow) : Tx (list Z) :=
  returned ← mapM_tx (λ v, insert_trx_line_row (variance_line trx_id v)) vs;
  iterM (λ v, check_line_references (variance_line trx_id v)) vs;;
  mret (map (λ r, r.1.1) returned).
Definition variance_posting (trx_line_id : Z) (v : VarianceRow) : PostingRow :=
  {| pr_trx_line_id := trx_line_id; pr_event_type := "variance"; pr_amount := vr_amount v;
     pr_debit_account := vr_debit v; pr_credit_account := vr_credit v; pr_posted_at := vr_posted_at v |}.
Definition insert_variance_posting_lines (trx_line_ids : list Z) (vs : list VarianceRow) : Tx (list Z) :=
  mapM_tx (λ iv, insert_posting_row (variance_posting iv.1 iv.2)) (zip trx_line_ids vs).
Definition insert_variances (trx_id : Z) (vs : list VarianceRow) : Tx (list Z) :=
  match vs with
  | [] => mret []
  | _ => ids ← insert_variance_trx_lines trx_id vs; insert_variance_posting_lines ids vs
  end.

Definition set_unit_cost (u : Z) (r : StateRow) : StateRow :=
  {| ps_qty := ps_qty r; ps_unit_cost := u; ps_last_trx_line_id := ps_last_trx_line_id r |}.
(** UPDATE pool_state SET unit_cost = unit_cost - delta at layer 0. *)
Fixpoint adjust_states (deltas : list (Z * Z)) (m : gmap (Z * Z) StateRow)
    : Res SqlError (gmap (Z * Z) StateRow) :=
  match deltas with
  | [] => Ok m
  | (p, delta) :: deltas =>
      match m !! (p, 0) with
      | None => adjust_states deltas m
      | Some r => u ← bigint (ps_unit_cost r - delta);
                  adjust_states deltas (<[(p, 0) := set_unit_cost u r]> m)
      end
  end.
Definition deltas_of (sums : gmap Z Z) : list (Z * Z) :=
  List.filter (λ ps, negb (ps.2 =? 0)) (sort_by_key fst (map_to_list sums)).
Definition adjust_pool_states (sums : gmap Z Z) : Tx unit :=
  d ← gets id;
  m ← lift (adjust_states (deltas_of sums) (db_pool_state d));
  modify (set_pool_state m).

Definition finalization (variance_posting_ids : list Z) (var : Z) (posting : option nat) : Res SqlError Finalization :=
  match posting with
  | None => Ok {| fz_finalized_at := now; fz_variance_amount := var; fz_variance_posting_line_id := None |}
  | Some i =>
      id ← ok_or (variance_posting_ids !! i) (RustPanicked "index out of bounds");
      Ok {| fz_finalized_at := now; fz_variance_amount := var; fz_variance_posting_line_id := Some id |}
  end.
Fixpoint finalize_rows (variance_posting_ids : list Z) (pvs : list (Provisional * Z))
    (postings : list (option nat)) (m : gmap Z Finalization) : Res SqlError (gmap Z Finalization) :=
  match pvs, postings with
  | (prov, var) :: pvs, posting :: postings =>
      f ← finalization variance_posting_ids var posting;
      finalize_rows variance_posting_ids pvs postings (<[prv_id prov := f]> m)
  | _, _ => Ok m
  end.
Definition finalize_provisionals (variance_posting_ids : list Z) (pvs : list (Provisional * Z))
    (postings : list (option nat)) : CTx unit :=
  c ← gets id;
  m ← lift (finalize_rows variance_posting_ids pvs postings (cd_final c));
  modify (set_final m).

(** Steps 4 to 10, for a period with provisional rows. *)
Definition restate_provisionals (period_id : Z) (ap : AccountingPeriod) (provisionals : list Provisional)
    : CTx CloseSummary :=
  let pool_ids := sorted_dedup (map prv_pool_id provisionals) in
  on_db (acquire_pool_locks pool_ids);;
  c ← gets id;
  final_avg ← lift (compute_final_avg_per_pool ap (cd_db c) pool_ids);
  ensure (forallb (λ p, bool_decide (is_Some (final_avg !! p))) pool_ids)
    else (SqlRaised "55000" "provisional depletions but no in-period receipts");
  vars ← lift (variances final_avg provisionals);
  let pvs := zip provisionals vars in
  close_trx_id ← on_db (insert_close_trx period_id);
  c ← gets id;
  r ← lift (variance_rows (read_max_trx_seq_per_pool (cd_db c) pool_ids) pvs 0);
  variance_posting_ids ← on_db (insert_variances close_trx_id r.1);
  on_db (adjust_pool_states (pool_variance_sum pvs));;
  finalize_provisionals variance_posting_ids pvs r.2;;
  mret {| cs_period_id := period_id; cs_provisional_finalized := Z.of_nat (length provisionals);
          cs_variance_posted := Z.of_nat (length r.1);
          cs_zero_variance := Z.of_nat (length (filter (λ v, v = 0) vars));
          cs_pools_affected := Z.of_nat (length pool_ids) |}.

Definition close_period_impl (period_id : Z) : CTx CloseSummary :=
  ap ← read_period_for_update period_id;
  ensure (bool_decide (ap_state ap = "open"%string)) else (SqlRaised "55000" "period not open");
  set_state period_id "closing" None;;
  provisionals ← gets (read_unfinalized_in_period ap);
  summary ← (match provisionals with
             | [] => mret {| cs_period_id := period_id; cs_provisional_finalized := 0; cs_variance_posted := 0;
                             cs_zero_variance := 0; cs_pools_affected := 0 |}
             | _ => restate_provisionals period_id ap provisionals
             end);
  set_state period_id "closed" (Some now);;
  mret summary.
Definition ledger_close_period (period_id : Z) : CTx CloseSummary := close_transaction (close_period_impl period_id).

(** * Writes of a close *)
Definition add_line_rows (rows : list LineRow) (d : Db) : Db := foldl (λ d r, add_trx_line r d) d rows.

Lemma on_db_Ok {A} (m : Tx A) c a c' :
  on_db m c = (Ok a, c') ↔ ∃ d', m (cd_db c) = (Ok a, d') ∧ c' = with_db d' c.
Proof.
  unfold on_db. destruct (m (cd_db c)) as [r d']. split; [intros [= -> <-]; eauto|]. intros (d'' & [= -> ->] & ->). done.
Qed.
Lemma insert_close_trx_Ok ty src t d i d' :
  insert_trx ty src t d = (Ok i, d') →
  i = db_trx_last d + 1 ∧ d' = add_trx {| trx_trx_type := ty; trx_source_id := src; trx_posted_at := t |} d.
Proof. unfold insert_trx. intros H. inv_run. done. Qed.
Lemma insert_line_rows_Ok {A} (f : A → LineRow) vs d xs d' :
  mapM_tx (λ v, insert_trx_line_row (f v)) vs d = (Ok xs, d') →
  d' = add_line_rows (map f vs) d ∧ map (λ r, r.1.1) xs = fresh_ids (db_trx_line_last d) (length vs).
Proof.
  revert d xs. induction vs as [|v vs IH]; intros d xs; cbn [mapM_tx]; [by intros [= <- <-]|].
  intros (x & d1 & H1 & (ys & d2 & H2 & [= <- <-])%SE_bind_Ok)%SE_bind_Ok.
  unfold insert_trx_line_row in H1. inv_run. apply IH in H2 as [-> Hids]. cbn [map length]. rewrite fresh_ids_S, Hids. done.
Qed.
Lemma check_references_Ok {A} (f : A → LineRow) vs d d' :
  iterM (λ v, check_line_references (f v)) vs d = (Ok tt, d') → d' = d.
Proof.
  revert d. induction vs as [|v vs IH]; intros d; cbn [iterM]; [by intros [= <-]|].
  intros ([] & d1 & H1 & H2)%SE_bind_Ok. apply IH in H2 as ->. unfold check_line_references in H1. by inv_run.
Qed.
Lemma insert_postings_Ok {A} (f : A → PostingRow) vs d xs d' :
  mapM_tx (λ v, insert_posting_row (f v)) vs d = (Ok xs, d') →
  d' = add_postings (map f vs) d ∧ xs = fresh_ids (db_posting_last d) (length vs).
Proof.
  revert d xs. induction vs as [|v vs IH]; intros d xs; cbn [mapM_tx]; [by intros [= <- <-]|].
  intros (x & d1 & H1 & (ys & d2 & H2 & [= <- <-])%SE_bind_Ok)%SE_bind_Ok.
  unfold insert_posting_row in H1. inv_run. apply IH in H2 as [-> ->]. cbn [map length]. by rewrite fresh_ids_S.
Qed.
Lemma zip_with_map {A B C} (f : A → B → C) l k : map (λ ab : A * B, f ab.1 ab.2) (zip l k) = zip_with f l k.
Proof. revert k. induction l as [|a l IH]; intros [|b k]; cbn; [done..|]. by rewrite IH. Qed.

(** The lines and postings of the variances, under fresh identities. *)
Definition add_variances (trx_id : Z) (vs : list VarianceRow) (d : Db) : Db :=
  add_postings (zip_with variance_posting (fresh_ids (db_trx_line_last d) (length vs)) vs)
    (add_line_rows (map (variance_line trx_id) vs) d).
Lemma insert_variances_Ok trx_id vs d ids d' :
  insert_variances trx_id vs d = (Ok ids, d') →
  d' = add_variances trx_id vs d ∧ ids = fresh_ids (db_posting_last d) (length vs).
Proof.
  unfold insert_variances, add_variances. destruct vs as [|v vs]; [by intros [= <- <-]|]. set (w := v :: vs).
  intros (lids & d1 & H1 & H2)%SE_bind_Ok. unfold insert_variance_trx_lines in H1.
  apply SE_bind_Ok in H1 as (xs & d2 & H1 & (u & d3 & H3 & [= <- <-])%SE_bind_Ok). destruct u.
  apply insert_line_rows_Ok in H1 as [-> Hids]. apply check_references_Ok in H3 as ->.
  unfold insert_variance_posting_lines in H2. apply insert_postings_Ok in H2 as [-> ->].
  rewrite Hids, zip_with_map. split; [done|]. rewrite length_zip_with, fresh_ids_length, Nat.min_id. f_equal.
  clear. generalize (map (variance_line trx_id) w). intros l. revert d. induction l as [|r l IH]; intros d; [done|].
  cbn. change (foldl _ ?x l) with (add_line_rows l x). by rewrite IH.
Qed.

Record variances_added (trx_id : Z) (vs : list VarianceRow) (d d' : Db) : Prop := {
  va_lines : db_trx_line d' = append_rows (db_trx_line_last d) (map (variance_line trx_id) vs) (db_trx_line d) ∧
             db_trx_line_last d' = db_trx_line_last d + Z.of_nat (length vs);
  va_postings : db_posting_line d' = append_rows (db_posting_last d)
                  (zip_with variance_posting (fresh_ids (db_trx_line_last d) (length vs)) vs) (db_posting_line d) ∧
                db_posting_last d' = db_posting_last d + Z.of_nat (length vs);
  va_charts : db_pool d' = db_pool d ∧ db_account d' = db_account d;
  va_provisional : db_provisional d' = db_provisional d ∧ db_provisional_last d' = db_provisional_last d;
}.
Lemma add_line_rows_frame rows d :
  same_but_lines d (add_line_rows rows d) ∧
  db_trx_line (add_line_rows rows d) = append_rows (db_trx_line_last d) rows (db_trx_line d) ∧
  db_trx_line_last (add_line_rows rows d) = db_trx_line_last d + Z.of_nat (length rows).
Proof.
  revert d. induction rows as [|r rows IH]; intros d; [split_and!; [by split|done|cbn; lia]|].
  cbn [add_line_rows foldl append_rows length]. change (foldl _ ?x rows) with (add_line_rows rows x).
  destruct (IH (add_trx_line r d)) as ([H1 H2 H3 H4 H5 H6] & -> & ->). cbn in *. split_and!; [by split|done|lia].
Qed.
Lemma add_variances_spec trx_id vs d :
  variances_added trx_id vs d (add_variances trx_id vs d) ∧
  db_pool_state (add_variances trx_id vs d) = db_pool_state d ∧
  db_trx (add_variances trx_id vs d) = db_trx d ∧ db_trx_last (add_variances trx_id vs d) = db_trx_last d.
Proof.
  unfold add_variances. set (ps := zip_with _ _ _). set (d1 := add_line_rows _ _).
  destruct (add_line_rows_frame (map (variance_line trx_id) vs) d) as ([H1 H2 H3 H4 H5 H6] & Hl & Hll). fold d1 in H1, H2, H3, H4, H5, H6, Hl, Hll.
  destruct (add_postings_frame ps d1) as (P1 & P2 & P3 & P4 & P5 & P6 & P7 & P8 & P9 & P10 & _).
  assert (length ps = length vs) as Hlen by (unfold ps; rewrite length_zip_with, fresh_ids_length; lia).
  rewrite length_map in Hll.
  split; [|rewrite P1, P6, P7; naive_solver].
  split; rewrite ?P1, ?P2, ?P3, ?P4, ?P5, ?P6, ?P7, ?P8, ?P9, ?P10, ?Hlen, ?add_postings_append; try done.
  destruct H5 as [-> ->]. done.
Qed.

(** ** The value columns *)
Definition delta_at (deltas : list (Z * Z)) (p : Z) : Z := sumZ (λ pd, if decide (pd.1 = p) then pd.2 else 0) deltas.
Lemma delta_at_notin deltas p : p ∉ map fst deltas → delta_at deltas p = 0.
Proof.
  unfold delta_at. induction deltas as [|[q x] deltas IH]; [done|]. cbn. intros [Hq Hp]%not_elem_of_cons.
  rewrite sumZ_cons, IH by done. cbn. by rewrite decide_False.
Qed.
Lemma adjust_states_Ok deltas m m' p l :
  NoDup (map fst deltas) → adjust_states deltas m = Ok m' →
  m' !! (p, l) = if decide (l = 0) then (λ r, set_unit_cost (ps_unit_cost r - delta_at deltas p) r) <$> m !! (p, 0)
                 else m !! (p, l).
Proof.
  revert m. induction deltas as [|[q x] deltas IH]; intros m; cbn [map adjust_states].
  - intros _ [= ->]. case_decide as E; [subst l|done]. unfold delta_at. rewrite sumZ_nil. cbn.
    destruct (m' !! (p, 0)) as [[]|]; [|done]. cbn. unfold set_unit_cost. cbn. by rewrite Z.sub_0_r.
  - intros [Hq Hnd]%NoDup_cons H. unfold delta_at. rewrite sumZ_cons. fold (delta_at deltas p). cbn [fst snd].
    destruct (m !! (q, 0)) as [r|] eqn:Hr.
    + apply Res_bind_Ok in H as (u & Hu & H). unfold bigint in Hu. apply ok_or_Ok, i64_try_from_Some in Hu as [-> _].
      rewrite (IH _ Hnd H). destruct (decide (q = p)) as [->|Hne].
      * rewrite (delta_at_notin deltas p) by done. destruct (decide (l = 0)) as [->|Hl].
        -- rewrite lookup_insert_eq, Hr. cbn. unfold set_unit_cost. cbn. do 2 f_equal. lia.
        -- by rewrite lookup_insert_ne by congruence.
      * rewrite !lookup_insert_ne by congruence. done.
    + rewrite (IH _ Hnd H). destruct (decide (q = p)) as [->|Hne]; [|done]. by rewrite Hr.
Qed.
Lemma deltas_of_at sums p : NoDup (map fst (deltas_of sums)) ∧ delta_at (deltas_of sums) p = default 0 (sums !! p).
Proof.
  unfold deltas_of. set (l := sort_by_key fst (map_to_list sums)).
  assert (l ≡ₚ map_to_list sums) as Hl by apply sort_by_key_Permutation.
  assert (NoDup (map fst l)) as Hnd by (rewrite Hl; apply NoDup_fst_map_to_list).
  assert (delta_at l p = default 0 (sums !! p)) as Hd.
  { unfold delta_at. rewrite Hl. destruct (sums !! p) as [x|] eqn:Hx; cbn.
    - rewrite <-(map_to_list_delete _ _ _ Hx), sumZ_cons. cbn. rewrite decide_True by done.
      fold (delta_at (map_to_list (delete p sums)) p). rewrite delta_at_notin; [lia|].
      intros ([q y] & -> & Hin%elem_of_map_to_list)%list_elem_of_fmap. cbn in Hin. by rewrite lookup_delete_eq in Hin.
    - fold (delta_at (map_to_list sums) p). apply delta_at_notin.
      intros ([q y] & -> & Hin%elem_of_map_to_list)%list_elem_of_fmap. cbn in *. congruence. }
  rewrite <-Hd. clear Hl Hd. induction l as [|[q x] l IH]; [done|]. cbn in Hnd. apply NoDup_cons in Hnd as [Hq Hnd].
  destruct (IH Hnd) as [IH1 IH2]. cbn [List.filter snd]. unfold delta_at in *. rewrite sumZ_cons. cbn [fst snd].
  destruct (x =? 0) eqn:E; cbn [negb].
  - apply Z.eqb_eq in E as ->. rewrite IH2. split; [done|]. by case_decide.
  - cbn [map]. rewrite sumZ_cons, IH2. split; [|done]. constructor; [|done]. intros Hin. apply Hq.
    cbn in Hin |- *. apply list_elem_of_fmap in Hin as (y & Hqy & Hy). apply list_elem_of_fmap. exists y. split; [done|].
    apply list_elem_of_In, List.filter_In in Hy as [Hy _]. by apply list_elem_of_In.
Qed.

Definition variance_on (p : Z) (pv : Provisional * Z) : Z := if decide (prv_pool_id pv.1 = p) then pv.2 else 0.
Lemma pool_variance_sum_at pvs p : default 0 (pool_variance_sum pvs !! p) = wrap_i64 (sumZ (variance_on p) pvs).
Proof.
  unfold pool_variance_sum.
  assert (∀ (m : gmap Z Z) a, default 0 (m !! p) = wrap_i64 a →
    default 0 (foldl (λ m pv, <[prv_pool_id pv.1 := wadd (default 0 (m !! prv_pool_id pv.1)) pv.2]> m) m pvs !! p) =
      wrap_i64 (a + sumZ (variance_on p) pvs)) as H; [|rewrite (H ∅ 0); [done|by rewrite lookup_empty]].
  induction pvs as [|pv pvs IH]; intros m a Hm; cbn [foldl].
  - by rewrite sumZ_nil, Z.add_0_r.
  - rewrite sumZ_cons, Z.add_assoc. apply IH. unfold variance_on. case_decide as E.
    + rewrite <-E, lookup_insert_eq in *. cbn. unfold wadd. by rewrite Hm, wrap_i64_add.
    + by rewrite lookup_insert_ne, Z.add_0_r.
Qed.

(** ** The rows of a close, one provisional row at a time *)
Definition carries (prov : Provisional) (var : Z) (v : VarianceRow) : Prop :=
  vr_pool_id v = prv_pool_id prov ∧ vr_amount v = wrap_i64 (Z.abs var) ∧
  (vr_debit v, vr_credit v) = (if 0 <? var then (prv_debit_account prov, prv_credit_account prov)
                               else (prv_credit_account prov, prv_debit_account prov)) ∧
  vr_posted_at v = prv_posted_at prov.

Lemma variance_rows_Ok next_seq pvs n rows posts :
  variance_rows next_seq pvs n = Ok (rows, posts) →
  length posts = length pvs ∧ length rows = length (filter (λ pv, pv.2 ≠ 0) pvs) ∧
  ∀ k prov var, pvs !! k = Some (prov, var) →
    if decide (var = 0) then posts !! k = Some None
    else ∃ j v, posts !! k = Some (Some (n + j)%nat) ∧ rows !! j = Some v ∧ carries prov var v.
Proof.
  revert next_seq n rows posts. induction pvs as [|[prov var] pvs IH]; intros next_seq n rows posts; cbn [variance_rows].
  { intros [= <- <-]. done. }
  rewrite filter_cons. cbn [snd]. destruct (decide (var = 0)) as [Hv|Hv].
  - intros ([rows' posts'] & H & [= <- <-])%Res_bind_Ok. apply IH in H as (Hlen & Hr & H). cbn.
    rewrite decide_False by (intros ?; done). split; [by rewrite Hlen|]. split; [done|].
    intros [|k] prov' var'; cbn; [|apply H]. intros [= <- <-]. by rewrite decide_True.
  - intros (u & _ & ([rows' posts'] & H & [= <- <-])%Res_bind_Ok)%Res_bind_Ok. apply IH in H as (Hlen & Hr & H). cbn.
    rewrite decide_True by done. split; [by rewrite Hlen|]. split; [cbn; by rewrite Hr|]. intros [|k] prov' var'; cbn.
    + intros [= <- <-]. rewrite decide_False by done. exists 0%nat. eexists. rewrite Nat.add_0_r.
      split; [done|]. split; [done|]. unfold carries. cbn. by destruct (0 <? var).
    + intros Hk%H. case_decide; [done|]. destruct Hk as (j & v & Hp & Hj & Hc). exists (S j), v.
      split_and!; [|done|done]. rewrite Nat.add_succ_r. exact Hp.
Qed.
(** Line numbers of the variances follow the pool's newest one, as long as bigint has room. *)
Lemma variance_rows_seq next_seq pvs n rows posts :
  (∀ p, 0 ≤ default 0 (next_seq !! p) ∧ default 0 (next_seq !! p) + Z.of_nat (length pvs) ≤ i64_max) →
  variance_rows next_seq pvs n = Ok (rows, posts) → Forall (λ v, 0 < vr_trx_seq v) rows.
Proof.
  revert next_seq n rows posts. induction pvs as [|[prov var] pvs IH]; intros next_seq n rows posts Hroom; cbn [variance_rows].
  { intros [= <- <-]. constructor. }
  cbn [length] in Hroom. case_decide.
  - intros ([rows' posts'] & H' & [= <- <-])%Res_bind_Ok. eapply IH; [|exact H']. intros p. specialize (Hroom p). lia.
  - intros (u & _ & ([rows' posts'] & H' & [= <- <-])%Res_bind_Ok)%Res_bind_Ok.
    assert (wadd (default 0 (next_seq !! prv_pool_id prov)) 1 = default 0 (next_seq !! prv_pool_id prov) + 1) as Hw.
    { unfold wadd. apply wrap_i64_id. specialize (Hroom (prv_pool_id prov)). split; unfold i64_min, i64_max in *; lia. }
    constructor; [cbn; rewrite Hw; specialize (Hroom (prv_pool_id prov)); lia|]. eapply IH; [|exact H']. intros p.
    specialize (Hroom p) as Hp. specialize (Hroom (prv_pool_id prov)). rewrite Hw. destruct (decide (p = prv_pool_id prov)) as [->|Hne].
    + rewrite lookup_insert_eq. cbn. lia.
    + rewrite lookup_insert_ne by done. lia.
Qed.
Lemma finalize_rows_Ok vids pvs posts m m' :
  NoDup (map (λ pv, prv_id pv.1) pvs) → length posts = length pvs → finalize_rows vids pvs posts m = Ok m' →
  (∀ i, i ∉ map (λ pv, prv_id pv.1) pvs → m' !! i = m !! i) ∧
  ∀ k prov var po, pvs !! k = Some (prov, var) → posts !! k = Some po →
    ∃ f, finalization vids var po = Ok f ∧ m' !! prv_id prov = Some f.
Proof.
  revert posts m. induction pvs as [|[prov var] pvs IH]; intros [|po posts] m Hnd Hlen; try done; cbn [finalize_rows].
  { by intros [= <-]. }
  cbn in Hnd. apply NoDup_cons in Hnd as [Hn Hnd]. intros (f & Hf & H)%Res_bind_Ok.
  apply IH in H as [H1 H2]; [|done|by injection Hlen]. cbn [map]. split.
  - intros i [Hi Hi']%not_elem_of_cons. rewrite H1 by done. by rewrite lookup_insert_ne.
  - intros [|k] prov' var' po'; cbn; [|apply H2]. intros [= <- <-] [= <-]. exists f. split; [done|].
    rewrite H1 by done. by rewrite lookup_insert_eq.
Qed.

Lemma compute_final_avg_Ok ap d ids avgs :
  compute_final_avg_per_pool ap d ids = Ok avgs →
  (∀ p, p ∉ ids → avgs !! p = None) ∧ ∀ p, p ∈ ids → pool_final_avg ap d p = Ok (avgs !! p).
Proof.
  revert avgs. induction ids as [|q ids IH]; intros avgs; cbn [compute_final_avg_per_pool].
  { intros [= <-]. split; [by intros; rewrite lookup_empty|by intros ? ?%elem_of_nil]. }
  intros (avg & Havg & (m & Hm & [= <-])%Res_bind_Ok)%Res_bind_Ok. apply IH in Hm as [H1 H2].
  split.
  - intros p [Hq Hp]%not_elem_of_cons. destruct avg; [rewrite lookup_insert_ne by done|]; by apply H1.
  - intros p Hp. destruct (decide (p = q)) as [->|Hne].
    + rewrite Havg. destruct avg as [a|]; [by rewrite lookup_insert_eq|].
      destruct (decide (q ∈ ids)) as [Hin|Hin]; [by rewrite <-H2, Havg|by rewrite H1].
    + apply elem_of_cons in Hp as [->|Hp]; [done|]. destruct avg; [rewrite lookup_insert_ne by done|]; by apply H2.
Qed.
Lemma variances_Ok avgs ps vs : variances avgs ps = Ok vs → Forall2 (λ p v, variance_of avgs p = Ok v) ps vs.
Proof.
  revert vs. induction ps as [|p ps IH]; intros vs; cbn [variances]; [intros [= <-]; constructor|].
  intros (v & Hv & (vs' & Hvs & [= <-])%Res_bind_Ok)%Res_bind_Ok. constructor; [done|by apply IH].
Qed.
Lemma variance_of_Ok avgs p v :
  variance_of avgs p = Ok v →
  ∃ avg, avgs !! prv_pool_id p = Some avg ∧ v = avg * prv_qty p - prv_provisional_amount p ∧ in_i64 v.
Proof.
  unfold variance_of. intros (avg & Havg%ok_or_Ok & (r & Hr%ok_or_Ok & Hv%ok_or_Ok)%Res_bind_Ok)%Res_bind_Ok.
  apply checked_mul_Some in Hr as [-> _]. apply checked_sub_Some in Hv as [-> ?]. eauto.
Qed.

(** ** The provisional rows of a period *)
Lemma elem_of_provisionals ap c p :
  p ∈ read_unfinalized_in_period ap c ↔
  ∃ i r, db_provisional (cd_db c) !! i = Some r ∧ provisional_of ap c (i, r) = Some p.
Proof.
  unfold read_unfinalized_in_period. rewrite sort_by_key_Permutation, list_elem_of_omap. split.
  - intros ([i r] & Hin%elem_of_map_to_list & Hp). eauto.
  - intros (i & r & Hin & Hp). exists (i, r). by rewrite elem_of_map_to_list.
Qed.
Lemma provisional_of_Some ap c i r p :
  provisional_of ap c (i, r) = Some p →
  prv_id p = i ∧ cd_final c !! i = None ∧ prv_pool_id p = pv_pool_id r ∧ prv_qty p = pv_qty r ∧
  prv_provisional_amount p = pv_provisional_amount r ∧
  ∃ pl, db_posting_line (cd_db c) !! pv_posting_line_id r = Some pl ∧ in_period ap (pr_posted_at pl) = true.
Proof.
  unfold provisional_of. cbn. destruct (cd_final c !! i) eqn:Hf; [done|].
  destruct (db_posting_line (cd_db c) !! _) as [pl|] eqn:Hpl; [|done]. cbn.
  destruct (in_period ap (pr_posted_at pl)) eqn:Hin; [|done]. intros [= <-]. cbn. split_and!; eauto.
Qed.
Lemma provisionals_NoDup ap c : NoDup (map prv_id (read_unfinalized_in_period ap c)).
Proof.
  unfold read_unfinalized_in_period. rewrite (sort_by_key_Permutation prv_id).
  pose proof (NoDup_fst_map_to_list (db_provisional (cd_db c))) as Hnd.
  induction (map_to_list (db_provisional (cd_db c))) as [|[i r] l IH]; [constructor|].
  cbn in Hnd. apply NoDup_cons in Hnd as [Hi Hnd]. cbn [omap list_omap].
  destruct (provisional_of ap c (i, r)) as [p|] eqn:Hp; [|by apply IH].
  cbn [map]. constructor; [|by apply IH]. apply provisional_of_Some in Hp as [-> _].
  intros (q & Hq & ([j r'] & Hin & Hp')%list_elem_of_omap)%list_elem_of_fmap.
  apply provisional_of_Some in Hp' as [<- _]. apply Hi. rewrite Hq. change (prv_id q) with (prv_id q, r').1.
  by apply list_elem_of_fmap_2.
Qed.

Lemma provisionals_length ap c : (length (read_unfinalized_in_period ap c) ≤ size (db_provisional (cd_db c)))%nat.
Proof.
  unfold read_unfinalized_in_period. rewrite sort_by_key_Permutation, <-length_map_to_list.
  induction (map_to_list _) as [|ir l IH]; cbn; [done|]. destruct (provisional_of ap c ir); cbn; lia.
Qed.
Lemma read_max_seq_bound d ids p : 0 ≤ max_trx_seq d p → 0 ≤ default 0 (read_max_trx_seq_per_pool d ids !! p) ≤ max_trx_seq d p.
Proof.
  intros Hd. unfold read_max_trx_seq_per_pool. induction ids as [|q ids IH]; cbn; [by rewrite lookup_empty|].
  destruct (decide (p = q)) as [->|Hne]; [rewrite lookup_insert_eq; cbn; lia|]. by rewrite lookup_insert_ne.
Qed.

(** * What a close leaves *)
Lemma restate_Ok period_id ap rows c sm c' :
  restate_provisionals period_id ap rows c = (Ok sm, c') →
  ∃ lk avgs vars vs posts m fm,
    let d1 := set_pool_lock lk (cd_db c) in
    let d2 := add_trx {| trx_trx_type := "revaluation_run"; trx_source_id := period_id; trx_posted_at := now |} d1 in
    compute_final_avg_per_pool ap d1 (sorted_dedup (map prv_pool_id rows)) = Ok avgs ∧
    variances avgs rows = Ok vars ∧
    variance_rows (read_max_trx_seq_per_pool d2 (sorted_dedup (map prv_pool_id rows))) (zip rows vars) 0 = Ok (vs, posts) ∧
    adjust_states (deltas_of (pool_variance_sum (zip rows vars))) (db_pool_state (cd_db c)) = Ok m ∧
    finalize_rows (fresh_ids (db_posting_last (cd_db c)) (length vs)) (zip rows vars) posts (cd_final c) = Ok fm ∧
    c' = set_final fm (with_db (set_pool_state m (add_variances (db_trx_last (cd_db c) + 1) vs d2)) c) ∧
    sm = {| cs_period_id := period_id; cs_provisional_finalized := Z.of_nat (length rows);
            cs_variance_posted := Z.of_nat (length vs); cs_zero_variance := Z.of_nat (length (filter (λ v, v = 0) vars));
            cs_pools_affected := Z.of_nat (length (sorted_dedup (map prv_pool_id rows))) |}.
Proof.
  unfold restate_provisionals. intros (ids & c1 & (d1 & Hlk & ->)%on_db_Ok & H)%SE_bind_Ok.
  apply acquire_pool_locks_Ok in Hlk as [lk ->]. apply SE_bind_Ok in H as (cc & c1 & [= <- <-] & H).
  apply SE_bind_Ok in H as (avgs & c1 & Havgs & H). injection Havgs as Havgs <-.
  destruct (forallb _ _); [|done]. apply SE_bind_Ok in H as (vars & c1 & Hvars & H). injection Hvars as Hvars <-.
  apply SE_bind_Ok in H as (tid & c1 & (d2 & Htrx & ->)%on_db_Ok & H).
  apply insert_close_trx_Ok in Htrx as [-> ->].
  apply SE_bind_Ok in H as (cc & c1 & [= <- <-] & H).
  apply SE_bind_Ok in H as ([vs posts] & c1 & Hvs & H). injection Hvs as Hvs <-.
  apply SE_bind_Ok in H as (pids & c1 & (d3 & Hins & ->)%on_db_Ok & H). cbn [fst snd cd_db with_db] in *.
  apply insert_variances_Ok in Hins as [-> ->].
  apply SE_bind_Ok in H as ([] & c1 & (d4 & Hadj & ->)%on_db_Ok & H). unfold adjust_pool_states in Hadj.
  apply SE_bind_Ok in Hadj as (dd & d5 & [= <- <-] & Hadj). apply SE_bind_Ok in Hadj as (m & d5 & Hm & [= <-]).
  injection Hm as Hm <-. unfold id in Hm. cbn [cd_db with_db] in *. rewrite (proj1 (proj2 (add_variances_spec _ _ _))) in Hm.
  apply SE_bind_Ok in H as ([] & c1 & Hfin & [= <- <-]). unfold finalize_provisionals in Hfin.
  apply SE_bind_Ok in Hfin as (cc & c2 & [= <- <-] & Hfin). apply SE_bind_Ok in Hfin as (fm & c2 & Hf & [= <-]).
  injection Hf as Hf <-. exists lk, avgs, vars, vs, posts, m, fm. cbv zeta. split_and!; done.
Qed.

(** A provisional row after the close: finalized at the final average of the
    period, with its variance in the journal when there is one. *)
Definition restated (ap : AccountingPeriod) (c c' : CloseDb) (p : Provisional) : Prop :=
  ∃ avg f, pool_final_avg ap (cd_db c) (prv_pool_id p) = Ok (Some avg) ∧
    cd_final c' !! prv_id p = Some f ∧ fz_finalized_at f = now ∧
    fz_variance_amount f = avg * prv_qty p - prv_provisional_amount p ∧
    match fz_variance_posting_line_id f with
    | None => fz_variance_amount f = 0
    | Some i =>
        fz_variance_amount f ≠ 0 ∧ db_posting_line (cd_db c) !! i = None ∧
        ∃ pr tl, db_posting_line (cd_db c') !! i = Some pr ∧ db_trx_line (cd_db c') !! pr_trx_line_id pr = Some tl ∧
          tl_pool_id tl = prv_pool_id p ∧ tl_qty tl = 0 ∧ pr_event_type pr = "variance"%string ∧
          pr_amount pr = wrap_i64 (Z.abs (fz_variance_amount f)) ∧
          (pr_debit_account pr, pr_credit_account pr) =
            (if 0 <? fz_variance_amount f then (prv_debit_account p, prv_credit_account p)
             else (prv_credit_account p, prv_debit_account p)) ∧
          pr_posted_at pr = prv_posted_at p
    end.
Definition variance_in (c : CloseDb) (i : Z) : Z := from_option fz_variance_amount 0 (cd_final c !! i).
Definition pool_variance (c : CloseDb) (q : Z) (rows : list Provisional) : Z :=
  sumZ (λ p, if decide (prv_pool_id p = q) then variance_in c (prv_id p) else 0) rows.

(** Over the provisional rows of a pool: provisional amounts and variances add up to
    the final average of all the units issued. *)
Definition on_pool (q : Z) (f : Provisional → Z) (p : Provisional) : Z := if decide (prv_pool_id p = q) then f p else 0.
Definition aggregate (ap : AccountingPeriod) (c c' : CloseDb) (rows : list Provisional) : Prop :=
  ∀ q avg, pool_final_avg ap (cd_db c) q = Ok (Some avg) →
    sumZ (on_pool q prv_provisional_amount) rows + pool_variance c' q rows = avg * sumZ (on_pool q prv_qty) rows.
Lemma restated_aggregate ap c c' rows : (∀ p, p ∈ rows → restated ap c c' p) → aggregate ap c c' rows.
Proof.
  intros H q avg Havg. unfold pool_variance. induction rows as [|p rows IH]; [rewrite !sumZ_nil; lia|].
  rewrite !sumZ_cons. specialize (IH ltac:(intros; apply H; by right)).
  destruct (H p ltac:(by left)) as (a & f & Ha & Hf & _ & Hv & _). unfold on_pool, variance_in in *. rewrite Hf. cbn. rewrite Hv.
  case_decide as E; [|lia]. rewrite E, Havg in Ha. injection Ha as <-. lia.
Qed.

(** Room for one more line per provisional row on every pool. *)
Definition seq_room (c : CloseDb) : Prop :=
  map_Forall (λ _ r, tl_trx_seq r + Z.of_nat (size (db_provisional (cd_db c))) ≤ i64_max) (db_trx_line (cd_db c)) ∧
  Z.of_nat (size (db_provisional (cd_db c))) ≤ i64_max.
Lemma seq_room_max c p : seq_room c → max_trx_seq (cd_db c) p + Z.of_nat (size (db_provisional (cd_db c))) ≤ i64_max.
Proof.
  intros [Hl H0]. destruct (max_trx_seq_spec (cd_db c) p) as [_ [(i & r & Hi & _ & <-)|[-> _]]]; [|done]. by apply Hl in Hi.
Qed.

Record closes (period_id : Z) (ap : AccountingPeriod) (sm : CloseSummary) (c c' : CloseDb) : Prop := {
  cp_period : cd_period c' = <[period_id := {| ap_start_date := ap_start_date ap; ap_end_date := ap_end_date ap;
                                               ap_state := "closed"; ap_closed_at := Some now |}]> (cd_period c);
  cp_restated : ∀ p, p ∈ read_unfinalized_in_period ap c → restated ap c c' p;
  cp_others : ∀ i, i ∉ map prv_id (read_unfinalized_in_period ap c) → cd_final c' !! i = cd_final c !! i;
  cp_values : ∀ q l, db_pool_state (cd_db c') !! (q, l) =
    if decide (l = 0)
    then (λ r, set_unit_cost (ps_unit_cost r - wrap_i64 (pool_variance c' q (read_unfinalized_in_period ap c))) r) <$>
           db_pool_state (cd_db c) !! (q, 0)
    else db_pool_state (cd_db c) !! (q, l);
  cp_journal : ∃ trx_id vs, variances_added trx_id vs (cd_db c) (cd_db c') ∧ cs_variance_posted sm = Z.of_nat (length vs) ∧
    (db_wf (cd_db c) → seq_room c → Forall (λ v, 0 < vr_trx_seq v) vs);
  cp_trx : (db_trx (cd_db c') = db_trx (cd_db c) ∧ db_trx_last (cd_db c') = db_trx_last (cd_db c)) ∨
    (db_trx_last (cd_db c') = db_trx_last (cd_db c) + 1 ∧
     db_trx (cd_db c') = <[db_trx_last (cd_db c) + 1 :=
       {| trx_trx_type := "revaluation_run"; trx_source_id := period_id; trx_posted_at := now |}]> (db_trx (cd_db c)));
}.

Lemma variances_added_ext trx_id vs d0 d d' :
  db_trx_line d0 = db_trx_line d → db_trx_line_last d0 = db_trx_line_last d → db_posting_line d0 = db_posting_line d →
  db_posting_last d0 = db_posting_last d → db_pool d0 = db_pool d → db_account d0 = db_account d →
  db_provisional d0 = db_provisional d → db_provisional_last d0 = db_provisional_last d →
  variances_added trx_id vs d0 d' → variances_added trx_id vs d d'.
Proof. intros E1 E2 E3 E4 E5 E6 E7 E8 [H1 H2 H3 H4]. rewrite E1, E2, E3, E4, E5, E6, E7, E8 in *. by split. Qed.

Lemma zip_lookup {A B} (l : list A) (k : list B) i a b : l !! i = Some a → k !! i = Some b → zip l k !! i = Some (a, b).
Proof. intros Ha Hb. by rewrite lookup_zip_with, Ha, Hb. Qed.
(** The k-th row of a restatement. *)
Lemma restate_row ap rows c avgs vars vs posts fm d1 c' nseq k p :
  below (db_posting_last (cd_db c)) (db_posting_line (cd_db c)) → NoDup (map prv_id rows) →
  (∀ q, q ∈ rows → pool_final_avg ap (cd_db c) (prv_pool_id q) = Ok (avgs !! prv_pool_id q)) →
  variances avgs rows = Ok vars → variance_rows nseq (zip rows vars) 0 = Ok (vs, posts) →
  finalize_rows (fresh_ids (db_posting_last (cd_db c)) (length vs)) (zip rows vars) posts (cd_final c) = Ok fm →
  variances_added d1 vs (cd_db c) (cd_db c') → cd_final c' = fm →
  rows !! k = Some p → restated ap c c' p ∧ vars !! k = Some (variance_in c' (prv_id p)).
Proof.
  intros Hbel Hnd Havg Hvars Hvs Hfin [[Hl _] [Hpo _] _ _] Hfm Hk.
  apply variances_Ok in Hvars. destruct (Forall2_lookup_l _ _ _ _ _ Hvars Hk) as (v & Hv & Hvar).
  apply variance_of_Ok in Hvar as (avg & Ha & -> & _). set (v := avg * _ - _) in *.
  apply variance_rows_Ok in Hvs as (Hlen & _ & Hvs). pose proof (zip_lookup _ _ _ _ _ Hk Hv) as Hz.
  apply finalize_rows_Ok in Hfin as [_ Hfin];
    [|rewrite <-(map_map fst prv_id), fst_zip; [done|by rewrite (Forall2_length _ _ _ Hvars)]|done].
  specialize (Hvs k p v Hz).
  destruct (lookup_lt_is_Some_2 posts k) as [po Hpo']; [rewrite Hlen; by eapply lookup_lt_Some|].
  destruct (Hfin k p v po Hz Hpo') as (f & Hf & Hlook). rewrite Hpo' in Hvs.
  assert (fz_variance_amount f = v) as Hfv.
  { destruct po; cbn in Hf; [apply Res_bind_Ok in Hf as (? & _ & Hf)|]; by injection Hf as <-. }
  split; [|rewrite Hv; unfold variance_in; rewrite Hfm, Hlook; cbn; by rewrite Hfv].
  exists avg, f. rewrite Hfm, Hlook. split_and!; [by rewrite Havg, Ha by (by eapply list_elem_of_lookup_2)|done| |done|].
  - destruct po; cbn in Hf; [apply Res_bind_Ok in Hf as (? & _ & Hf)|]; by injection Hf as <-.
  - case_decide as H0.
    + injection Hvs as ->. injection Hf as <-. done.
    + destruct Hvs as (j & row & [= ->] & Hrow & Hc). cbn in Hf. apply Res_bind_Ok in Hf as (i & Hi%ok_or_Ok & Hf).
      injection Hf as <-. cbn. apply lookup_lt_Some in Hrow as Hj. rewrite fresh_ids_lookup in Hi by done. injection Hi as <-.
      split; [done|]. split.
      { destruct (db_posting_line (cd_db c) !! _) eqn:E; [|done]. apply Hbel in E. lia. }
      exists (variance_posting (db_trx_line_last (cd_db c) + 1 + Z.of_nat j) row), (variance_line d1 row).
      destruct Hc as (C1 & C2 & C3 & C4). split_and!; [..|done|done|done|done|done|done].
      * rewrite Hpo. apply append_rows_new. by rewrite lookup_zip_with, fresh_ids_lookup, Hrow.
      * cbn. rewrite Hl. apply append_rows_new. by rewrite list_lookup_fmap, Hrow.
Qed.

Lemma pool_variance_zip c' q rows vars :
  (∀ k p, rows !! k = Some p → vars !! k = Some (variance_in c' (prv_id p))) → length vars = length rows →
  sumZ (variance_on q) (zip rows vars) = pool_variance c' q rows.
Proof.
  unfold pool_variance. revert vars. induction rows as [|p rows IH]; intros [|v vars] H Hlen; try done.
  cbn [zip zip_with]. rewrite !sumZ_cons, IH; [|intros k p' Hk; by apply (H (S k))|by injection Hlen].
  specialize (H 0%nat p eq_refl). cbn in H. injection H as ->. done.
Qed.

Lemma restate_closes period_id ap c sm c1 :
  below (db_posting_last (cd_db c)) (db_posting_line (cd_db c)) →
  restate_provisionals period_id ap (read_unfinalized_in_period ap c) (set_period period_id
    {| ap_start_date := ap_start_date ap; ap_end_date := ap_end_date ap; ap_state := "closing"; ap_closed_at := ap_closed_at ap |} c)
    = (Ok sm, c1) →
  closes period_id ap sm c (set_period period_id
    {| ap_start_date := ap_start_date ap; ap_end_date := ap_end_date ap; ap_state := "closed"; ap_closed_at := Some now |} c1).
Proof.
  intros Hbel (lk & avgs & vars & vs & posts & m & fm & Havgs & Hvars & Hvs & Hm & Hfm & -> & ->)%restate_Ok.
  set (rows := read_unfinalized_in_period ap c) in *. cbn [cd_db cd_final set_period] in *.
  set (d2 := add_trx _ _) in *. destruct (add_variances_spec (db_trx_last (cd_db c) + 1) vs d2) as (Hadd & _ & Htrx & Htl).
  apply compute_final_avg_Ok in Havgs as [_ Havgs].
  assert (length vars = length rows) as Hlen by (symmetry; by eapply Forall2_length, variances_Ok).
  set (c' := set_period _ _ _).
  assert (variances_added (db_trx_last (cd_db c) + 1) vs (cd_db c) (cd_db c')) as Hadd'.
  { eapply (variances_added_ext _ _ d2); [done..|]. destruct Hadd. by split. }
  assert (∀ k p, rows !! k = Some p → restated ap c c' p ∧ vars !! k = Some (variance_in c' (prv_id p))) as Hrow.
  { intros k p. eapply restate_row; [done|apply provisionals_NoDup| |exact Hvars|exact Hvs|exact Hfm|exact Hadd'|done].
    intros q Hq. change (pool_final_avg ap (cd_db c) (prv_pool_id q)) with
      (pool_final_avg ap (set_pool_lock lk (cd_db c)) (prv_pool_id q)). apply Havgs.
    apply elem_of_sorted_dedup, list_elem_of_fmap_2, Hq. }
  split.
  - unfold c'. cbn. by rewrite insert_insert_eq.
  - intros p [k Hk]%list_elem_of_lookup. by eapply Hrow.
  - intros i Hi. apply variance_rows_Ok in Hvs as (Hlen' & _).
    apply finalize_rows_Ok in Hfm as [Hfm _]; [|rewrite <-(map_map fst prv_id), fst_zip by lia; apply provisionals_NoDup|done].
    unfold c'. cbn. apply Hfm. by rewrite <-(map_map fst prv_id), fst_zip by lia.
  - intros q l. destruct (deltas_of_at (pool_variance_sum (zip rows vars)) q) as [Hnd Hd].
    unfold c' at 1. cbn. rewrite (adjust_states_Ok _ _ _ q l Hnd Hm), Hd, pool_variance_sum_at.
    rewrite (pool_variance_zip c') by (naive_solver || done). done.
  - exists (db_trx_last (cd_db c) + 1), vs. split_and!; [done|done|]. intros Hwf Hroom. eapply variance_rows_seq, Hvs.
    intros p. apply (seq_room_max c p) in Hroom. pose proof (max_trx_seq_nonneg _ p Hwf) as H0.
    pose proof (read_max_seq_bound d2 (sorted_dedup (map prv_pool_id rows)) p H0) as Hb.
    change (max_trx_seq d2 p) with (max_trx_seq (cd_db c) p) in Hb.
    pose proof (provisionals_length ap c) as Hr. fold rows in Hr. rewrite length_zip_with. lia.
  - right. unfold c'. cbn. rewrite Htrx, Htl. done.
Qed.

Lemma close_period_Ok period_id c sm c' :
  below (db_posting_last (cd_db c)) (db_posting_line (cd_db c)) →
  ledger_close_period period_id c = (Ok sm, c') →
  ∃ ap, cd_period c !! period_id = Some ap ∧ ap_state ap = "open"%string ∧ closes period_id ap sm c c'.
Proof.
  unfold ledger_close_period, close_transaction. intros Hbel H.
  destruct (close_period_impl period_id c) as [[sm'|e] c1] eqn:E; [|done]. injection H as -> ->.
  unfold close_period_impl in E. apply SE_bind_Ok in E as (ap & c1 & Hap & E). unfold read_period_for_update in Hap.
  apply SE_bind_Ok in Hap as (cc & c2 & [= <- <-] & Hap). injection Hap as Hap%ok_or_Ok <-. unfold id in Hap.
  destruct (bool_decide _) eqn:Hst; [|done]. apply bool_decide_eq_true in Hst. exists ap. split; [done|]. split; [done|].
  apply SE_bind_Ok in E as ([] & c1 & [= <-] & E). rewrite Hap in E. set (c1 := set_period _ _ _) in E.
  apply SE_bind_Ok in E as (rows & c2 & [= <- <-] & E).
  change (read_unfinalized_in_period ap c1) with (read_unfinalized_in_period ap c) in E.
  apply SE_bind_Ok in E as (sm1 & c2 & Hres & E). apply SE_bind_Ok in E as ([] & c3 & [= <-] & [= <- <-]).
  destruct (read_unfinalized_in_period ap c) as [|p rows] eqn:Hrows.
  - injection Hres as <- <-. unfold c1. cbn. rewrite lookup_insert_eq. unfold set_period. cbn. rewrite insert_insert_eq.
    split; rewrite ?Hrows; cbn; try done.
    + by intros p ?%elem_of_nil.
    + intros q l. unfold pool_variance. rewrite sumZ_nil. case_decide as Hl; [subst l|done].
      destruct (db_pool_state (cd_db c) !! (q, 0)) as [[]|]; [|done]. cbn. unfold set_unit_cost. cbn.
      change (wrap_i64 0) with 0. by rewrite Z.sub_0_r.
    + exists 0, []. split_and!; [|done|by constructor]. split; cbn; rewrite ?Z.add_0_r; done.
    + by left.
  - rewrite <-Hrows in Hres. pose proof (restate_closes _ _ _ _ _ Hbel Hres) as Hcl.
    assert (cd_period c2 !! period_id = Some {| ap_start_date := ap_start_date ap; ap_end_date := ap_end_date ap;
              ap_state := "closing"; ap_closed_at := ap_closed_at ap |}) as ->; [|done].
    apply restate_Ok in Hres as (? & ? & ? & ? & ? & ? & ? & _ & _ & _ & _ & _ & -> & _). cbn. by rewrite lookup_insert_eq.
Qed.
End close.
