(* ===== verification/V3Ledger.v ===== *)
(** Runs of the two-path ledger: submissions through Path A and period closes, in
    any order and with any outcome.  The value that pool_state carries for a pool
    stays tied to the journal, restated by the variances of the closes. *)
From S2P Require Import Prelude V3Plan V3Layered V3Wac V3Method V3Books V3Db V3Hydrate.
From S2P Require Import V3Refine V3Commit V3Safe V3Direct V3Journal V3Close.

(** * Books *)
Definition restatement_of (c : CloseDb) (p : Z) (ir : Z * ProvisionalRow) : Z :=
  if decide (pv_pool_id ir.2 = p) then variance_in c ir.1 else 0.
(** The variances booked on a pool so far, and the balance they restate. *)
Definition restatement (c : CloseDb) (p : Z) : Z := sumZ (restatement_of c p) (map_to_list (db_provisional (cd_db c))).
Definition book (c : CloseDb) (p : Z) : Z := journal (cd_db c) p - restatement c p.

Record ledger_inv (c : CloseDb) : Prop := {
  li_db : db_wf (cd_db c);
  li_journal : journal_wf (cd_db c);
  li_final : below (db_provisional_last (cd_db c)) (cd_final c);
  li_tied : ∀ p m, db_method (cd_db c) p = Some m → m ≠ Std → tied m (pool_value (cd_db c) m p) (book c p);
}.

(** * Submissions *)
Lemma sum_append_keyed {V} (g : Z * V → Z) last vs m :
  below last m → (∀ i v, last < i → g (i, v) = 0) →
  sumZ g (map_to_list (append_rows last vs m)) = sumZ g (map_to_list m).
Proof.
  revert last m. induction vs as [|v vs IH]; intros last m Hm Hg; cbn [append_rows]; [done|].
  rewrite IH; [|by apply below_insert|intros; apply Hg; lia].
  rewrite map_to_list_insert by (by apply below_fresh). rewrite sumZ_cons, Hg by lia. done.
Qed.
Lemma variance_in_new c i : below (db_provisional_last (cd_db c)) (cd_final c) → db_provisional_last (cd_db c) < i → variance_in c i = 0.
Proof.
  intros Hb Hi. unfold variance_in. destruct (cd_final c !! i) eqn:E; [|done]. apply Hb in E. lia.
Qed.

Lemma submit_restatement c vs d' p :
  ledger_inv c → db_provisional d' = append_rows (db_provisional_last (cd_db c)) vs (db_provisional (cd_db c)) →
  restatement (with_db d' c) p = restatement c p.
Proof.
  intros [Hwf _ Hf _] Hv. unfold restatement. cbn. rewrite Hv. apply sum_append_keyed.
  - eapply map_Forall_impl; [apply (dw_prov _ Hwf)|]. cbn. lia.
  - intros i v Hi. unfold restatement_of. cbn. rewrite variance_in_new by done. by case_decide.
Qed.

(** A call that fails leaves the rows and may move the sequences. *)
Lemma ledger_inv_rollback c d' : counters_le (cd_db c) d' → ledger_inv c → ledger_inv (with_db (rollback (cd_db c) d') c).
Proof.
  intros Hle [Hwf [] Hf Ht]. split; [by apply rollback_wf|by split| |done].
  eapply map_Forall_impl; [exact Hf|]. cbn. pose proof (cl_prov _ _ Hle). lia.
Qed.

Section runs.
Context {Json : Type} (parse : string → option Timestamp) (from : Json → option (list LineJson)).
Context (date_start : Z → Timestamp) (utc_offset : Timestamp → Z).

Lemma submit_inv ty src posted_at lines c r d' :
  ledger_inv c → in_transaction (ledger_submit_trx parse from ty src posted_at lines) (cd_db c) = (r, d') →
  ledger_inv (with_db d' c).
Proof.
  intros Hinv. unfold in_transaction. destruct (ledger_submit_trx _ _ _ _ _ _ _) as [[i|e] d1] eqn:E; intros [= <- <-].
  2: { apply ledger_inv_rollback; [|done]. by eapply submit_trx_advances. }
  pose proof (submit_trx_advances _ _ _ _ _ _ _ _ _ E) as Hle.
  unfold ledger_submit_trx in E. destruct (parse posted_at) as [t|]; [|done]. destruct (from lines) as [ls|]; [|done].
  apply SE_bind_Ok in E as (reqs & d0 & E0 & E). injection E0 as _ <-.
  destruct (submit_lines_ties _ _ _ _ _ _ _ (li_db _ Hinv) (li_journal _ Hinv) E) as (Hj & Hpool & (vs & Hv) & Ht).
  split; cbn; [by eapply submit_lines_Ok, E; apply Hinv|done| |].
  - eapply map_Forall_impl; [apply Hinv|]. cbn. pose proof (cl_prov _ _ Hle). lia.
  - intros p m Hm Hstd. unfold book. rewrite (submit_restatement _ vs) by done. cbn.
    assert (db_method (cd_db c) p = Some m) as Hm' by (unfold db_method in *; by rewrite <-Hpool).
    eapply tied_trans; [by apply Ht|]. eapply tied_trans; [apply tied_add; by apply (li_tied _ Hinv)|].
    apply tied_eq. unfold book. lia.
Qed.

(** * Closes *)
Lemma sum_omap {A B} (h : A → option B) (g g' : A → Z) (k : B → Z) l :
  (∀ x, x ∈ l → g' x = g x + from_option k 0 (h x)) → sumZ g' l = sumZ g l + sumZ k (omap h l).
Proof.
  induction l as [|x l IH]; intros H; [done|]. rewrite !sumZ_cons, IH by (intros; apply H; by right).
  rewrite (H x) by (by left). cbn [omap list_omap]. destruct (h x); cbn; rewrite ?sumZ_cons; lia.
Qed.

Section close_step.
Context (now : Timestamp) (period_id : Z) (ap : AccountingPeriod) (sm : CloseSummary) (c c' : CloseDb).
Hypothesis Hinv : ledger_inv c.
Hypothesis Hcl : closes date_start utc_offset now period_id ap sm c c'.
Let rows := read_unfinalized_in_period date_start utc_offset ap c.

Lemma close_restatement p : restatement c' p = restatement c p + pool_variance c' p rows.
Proof using Hinv Hcl.
  destruct (cp_journal _ _ _ _ _ _ _ _ Hcl) as (tid & vs & [_ _ _ [Hprov _]] & _).
  unfold restatement, pool_variance, rows, read_unfinalized_in_period. rewrite Hprov, sort_by_key_Permutation.
  apply sum_omap. intros [i r] Hin%elem_of_map_to_list. unfold restatement_of. cbn.
  destruct (provisional_of _ _ ap c (i, r)) as [q|] eqn:Hq.
  - apply provisional_of_Some in Hq as (Ei & Hn & Ep & _). cbn. rewrite Ei, Ep. case_decide; [|lia].
    unfold variance_in at 2. rewrite Hn. cbn. lia.
  - assert (i ∉ map prv_id rows) as Hi.
    { intros (q & -> & Hin')%list_elem_of_fmap. apply elem_of_provisionals in Hin' as (j & r' & Hj & Hp).
      pose proof (provisional_of_Some _ _ _ _ _ _ _ Hp) as [E _]. subst j. simplify_eq. }
    unfold variance_in. rewrite (cp_others _ _ _ _ _ _ _ _ Hcl i Hi). cbn. case_decide; lia.
Qed.

(** Only periodic pools have provisional rows. *)
Lemma close_pools q : q ∈ rows → db_method (cd_db c) (prv_pool_id q) = Some WacPeriodic ∧ is_Some (db_pool_state (cd_db c) !! (prv_pool_id q, 0)).
Proof using Hinv.
  intros (i & r & Hi & Hp)%elem_of_provisionals. apply provisional_of_Some in Hp as (_ & _ & -> & _).
  by apply (jw_flag _ (li_journal _ Hinv)) in Hi as (_ & ? & ?).
Qed.
Lemma pool_variance_0 p : (∀ q, q ∈ rows → prv_pool_id q ≠ p) → pool_variance c' p rows = 0.
Proof using.
  unfold pool_variance. induction rows as [|q l IH]; intros H; [done|].
  rewrite sumZ_cons, IH by (intros; apply H; by right). rewrite decide_False by (apply H; by left). done.
Qed.
Lemma close_value p m :
  db_method (cd_db c) p = Some m → m ≠ Std →
  tied m (pool_value (cd_db c') m p) (pool_value (cd_db c) m p - pool_variance c' p rows).
Proof using Hinv Hcl.
  intros Hm Hstd. destruct (decide (m = WacPeriodic)) as [->|Hne].
  - unfold tied, pool_value. rewrite !decide_False by (unfold layered; naive_solver).
    rewrite (cp_values _ _ _ _ _ _ _ _ Hcl p 0), decide_True by done. fold rows.
    destruct (db_pool_state (cd_db c) !! (p, 0)) as [r|] eqn:Hr; cbn.
    + unfold wrap_i64. set (V := pool_variance _ _ _). exists ((V + 2 ^ 63) `div` 2 ^ 64).
      pose proof (Z.div_mod (V + 2 ^ 63) (2 ^ 64)). lia.
    + rewrite pool_variance_0; [exists 0; lia|]. intros q [_ H]%close_pools <-. rewrite Hr in H. by destruct H.
  - assert (pool_variance c' p rows = 0) as Hv.
    { apply pool_variance_0. intros q [H _]%close_pools <-. congruence. }
    rewrite Hv. apply tied_eq. rewrite Z.sub_0_r. apply pool_value_ext. intros l.
    rewrite (cp_values _ _ _ _ _ _ _ _ Hcl p l). fold rows. rewrite Hv. case_decide as Hl; [subst l|done].
    destruct (db_pool_state (cd_db c) !! (p, 0)) as [[]|]; [|done]. unfold set_unit_cost. cbn.
    change (wrap_i64 0) with 0. by rewrite Z.sub_0_r.
Qed.

Lemma close_line i r : db_trx_line (cd_db c) !! i = Some r → db_trx_line (cd_db c') !! i = Some r.
Proof using Hinv Hcl.
  destruct (cp_journal _ _ _ _ _ _ _ _ Hcl) as (tid & vs & [[-> _] _ _ _] & _). intros Hi. apply append_rows_kept; [|done].
  eapply map_Forall_impl; [apply (dw_line _ (li_db _ Hinv))|]. cbn. lia.
Qed.
Lemma sum_zero {A} (f : A → Z) l : (∀ x, x ∈ l → f x = 0) → sumZ f l = 0.
Proof using. induction l as [|x l IH]; intros H; [done|]. rewrite sumZ_cons, IH, (H x); [done|by left|intros; apply H; by right]. Qed.
(** Variances are booked beside the receipts and depletions of the pool. *)
Lemma close_journal p : journal (cd_db c') p = journal (cd_db c) p.
Proof using Hinv Hcl.
  pose proof close_line as Hline. destruct (cp_journal _ _ _ _ _ _ _ _ Hcl) as (tid & vs & [_ [Hp _] _ _] & _).
  unfold journal. rewrite Hp, sum_append by apply (dw_post _ (li_db _ Hinv)).
  rewrite (sum_zero _ (zip_with _ _ _)), Z.add_0_r.
  - apply sum_rows_ext. intros k v Hk. apply (jw_line _ (li_journal _ Hinv)) in Hk as [row Hrow]. unfold posting_value.
    by rewrite Hrow, (Hline _ _ Hrow).
  - intros x Hx. apply elem_of_lookup_zip_with in Hx as (? & i & v & -> & _). unfold posting_value. by case_decide.
Qed.

Lemma append_rows_Forall {V} (Q : Z → V → Prop) last vs m :
  map_Forall Q m → (∀ k v, vs !! k = Some v → Q (last + 1 + Z.of_nat k) v) → map_Forall Q (append_rows last vs m).
Proof using.
  revert last m. induction vs as [|v vs IH]; intros last m Hm Hvs; cbn [append_rows]; [done|]. apply IH.
  - apply map_Forall_insert_2; [|done]. specialize (Hvs 0%nat v eq_refl). by rewrite Z.add_0_r in Hvs.
  - intros k w Hk. replace (last + 1 + 1 + Z.of_nat k) with (last + 1 + Z.of_nat (S k)) by lia. by apply Hvs.
Qed.
Lemma max_trx_seq_mono d d' p :
  (∀ i r, db_trx_line d !! i = Some r → db_trx_line d' !! i = Some r) → 0 ≤ max_trx_seq d' p → max_trx_seq d p ≤ max_trx_seq d' p.
Proof using.
  intros Hsub H0. destruct (max_trx_seq_spec d p) as [_ [(i & r & Hi & Hp & <-)|[-> _]]]; [|done].
  destruct (max_trx_seq_spec d' p) as [H _]. by eapply H; [apply Hsub|].
Qed.

Lemma close_db_wf : seq_room c → db_wf (cd_db c').
Proof using Hinv Hcl.
  intros Hroom. pose proof close_line as Hline. pose proof (li_db _ Hinv) as Hwf. pose proof Hwf as [W1 W2 W3 W4 W5 W6 W7].
  pose proof (cp_values _ _ _ _ _ _ _ _ Hcl) as Hval.
  destruct (cp_journal _ _ _ _ _ _ _ _ Hcl) as (tid & vs & [[Hl Hll] [Hp Hpl] [Hpool _] [Hv Hvl]] & _ & Hseq).
  specialize (Hseq Hwf Hroom). rewrite Forall_lookup in Hseq.
  assert (map_Forall (λ i r, 0 < i ≤ db_trx_line_last (cd_db c') ∧ 0 < tl_trx_seq r) (db_trx_line (cd_db c'))) as HW2.
  { rewrite Hl, Hll. apply append_rows_Forall; [eapply map_Forall_impl; [exact W2|]; cbn; lia|].
    intros k v Hk. apply list_lookup_fmap_Some in Hk as (w & -> & Hw). cbn.
    specialize (Hseq _ _ Hw). apply lookup_lt_Some in Hw. lia. }
  split; [| done | | | | | lia].
  - destruct (cp_trx _ _ _ _ _ _ _ _ Hcl) as [[-> ->]|[-> ->]]; [done|].
    apply map_Forall_insert_2; [lia|]. eapply map_Forall_impl; [exact W1|]. cbn. lia.
  - rewrite Hp, Hpl. apply append_rows_Forall; [eapply map_Forall_impl; [exact W3|]; cbn; lia|].
    intros k v Hk%lookup_lt_Some. rewrite length_zip_with in Hk. lia.
  - rewrite Hv, Hvl, Hpl. eapply map_Forall_impl; [exact W4|]. cbn. lia.
  - intros p l r m Hr Hm Hlay. assert (db_method (cd_db c) p = Some m) as Hm' by (unfold db_method in *; by rewrite <-Hpool).
    assert (max_trx_seq (cd_db c) p ≤ max_trx_seq (cd_db c') p) as Hmax.
    { apply max_trx_seq_mono; [done|]. destruct (max_trx_seq_spec (cd_db c') p) as [_ [(i & x & Hi & _ & <-)|[-> _]]]; [|done].
      apply HW2 in Hi. lia. }
    rewrite Hval in Hr. case_decide; [subst l; apply fmap_Some in Hr as (r0 & Hr & ->)|];
      destruct (W5 _ _ _ _ Hr Hm' Hlay); split; cbn; lia.
  - intros [p l] r Hr. rewrite Hval in Hr.
    assert (∃ r0, db_pool_state (cd_db c) !! (p, l) = Some r0 ∧ ps_last_trx_line_id r = ps_last_trx_line_id r0) as (r0 & H0 & ->).
    { case_decide; [subst l; apply fmap_Some in Hr as (r0 & Hr & ->)|]; eauto. }
    apply W6 in H0 as [x Hx]. apply Hline in Hx. by eexists.
Qed.
Lemma close_journal_wf : journal_wf (cd_db c').
Proof using Hinv Hcl.
  pose proof close_line as Hline. pose proof (li_journal _ Hinv) as [J1 J2 J3]. pose proof (cp_values _ _ _ _ _ _ _ _ Hcl) as Hval.
  destruct (cp_journal _ _ _ _ _ _ _ _ Hcl) as (tid & vs & [[Hl _] [Hp _] [Hpool _] [Hv _]] & _).
  split; rewrite ?Hv.
  - rewrite Hp. apply append_rows_Forall.
    + eapply map_Forall_impl; [exact J1|]. intros k v [x Hx%Hline]. by eexists.
    + intros k v Hk. apply lookup_zip_with_Some in Hk as (i & w & -> & Hi & Hw). cbn.
      rewrite fresh_ids_lookup in Hi by (by eapply lookup_lt_Some). injection Hi as <-.
      rewrite Hl, (append_rows_new _ _ _ k (variance_line tid w)); [by eexists|by rewrite list_lookup_fmap, Hw].
  - eapply map_Forall_impl; [exact J2|]. intros k v [x Hx]. rewrite Hp, (append_rows_kept _ _ _ _ x); [by eexists| |done].
    apply (dw_post _ (li_db _ Hinv)).
  - eapply map_Forall_impl; [exact J3|]. cbn. intros k v (? & ? & [x Hx]). unfold db_method in *. rewrite Hpool, Hval, Hx.
    split_and!; [done|done|]. by eexists.
Qed.
Lemma close_inv : seq_room c → ledger_inv c'.
Proof using Hinv Hcl.
  intros Hroom. split; [by apply close_db_wf|apply close_journal_wf|..].
  - destruct (cp_journal _ _ _ _ _ _ _ _ Hcl) as (tid & vs & [_ _ _ [_ Hvl]] & _). intros i f Hf. rewrite Hvl.
    destruct (decide (i ∈ map prv_id rows)) as [Hin|Hin].
    + apply list_elem_of_fmap in Hin as (q & -> & (j & r & Hj & Hp)%elem_of_provisionals).
      apply provisional_of_Some in Hp as [-> _]. by apply (dw_prov _ (li_db _ Hinv)) in Hj as [? _].
    + rewrite (cp_others _ _ _ _ _ _ _ _ Hcl i Hin) in Hf. by apply (li_final _ Hinv) in Hf.
  - intros p m Hm Hstd. destruct (cp_journal _ _ _ _ _ _ _ _ Hcl) as (tid & vs & [_ _ [Hpool _] _] & _).
    assert (db_method (cd_db c) p = Some m) as Hm' by (unfold db_method in *; by rewrite <-Hpool).
    eapply tied_trans; [by apply close_value|]. unfold book. rewrite close_journal, close_restatement.
    eapply tied_trans; [apply (tied_add _ _ (book c p)); by apply (li_tied _ Hinv)|]. apply tied_eq. unfold book. lia.
Qed.
End close_step.

(** A failing close: the tables of the call are dropped, and what was left to
    check about them is that the sequences moved forward only. *)
Definition close_advances {A} (m : CTx A) : Prop := ∀ c r c', m c = (r, c') → counters_le (cd_db c) (cd_db c').
Lemma close_advances_bind {A B} (m : CTx A) (f : A → CTx B) :
  close_advances m → (∀ a, close_advances (f a)) → close_advances (m ≫= f).
Proof.
  intros Hm Hf c r c'. unfold mbind, SE_bind. destruct (m c) as [[a|e] c1] eqn:E.
  - intros H. etrans; [by eapply Hm|by eapply Hf].
  - intros [= <- <-]. by eapply Hm.
Qed.
Lemma close_advances_pure {A} (m : CTx A) : (∀ c, cd_db (m c).2 = cd_db c) → close_advances m.
Proof. intros H c r c' E. specialize (H c). rewrite E in H. cbn in H. by rewrite H. Qed.
Lemma close_advances_on_db {A} (m : Tx A) : advances m → close_advances (on_db m).
Proof. intros Hm c r c'. unfold on_db. destruct (m (cd_db c)) as [r0 d] eqn:E. intros [= <- <-]. by eapply Hm. Qed.
Lemma insert_variances_advances trx_id vs : advances (insert_variances trx_id vs).
Proof.
  unfold insert_variances, insert_variance_trx_lines, insert_variance_posting_lines, insert_trx_line_row,
    check_line_references, insert_posting_row. solve_advances.
Qed.
Lemma close_impl_advances now period_id : close_advances (close_period_impl date_start utc_offset now period_id).
Proof.
  assert (∀ ap rows, close_advances (restate_provisionals date_start now period_id ap rows)) as Hres.
  { intros ap rows. unfold restate_provisionals, acquire_pool_locks, insert_close_trx, insert_trx, adjust_pool_states, finalize_provisionals.
    cbv zeta. repeat first [apply close_advances_on_db; first [apply insert_variances_advances|solve_advances]
      |apply close_advances_bind; [|intros ?]|apply close_advances_pure; by intros ?|case_match]. }
  assert (∀ state t, close_advances (set_state period_id state t)) as Hset.
  { intros state t. apply close_advances_pure. intros c. cbn. by destruct (cd_period c !! period_id). }
  unfold close_period_impl, read_period_for_update.
  repeat first [apply Hres|apply Hset|apply close_advances_bind; [|intros ?]|apply close_advances_pure; by intros ?|case_match].
Qed.
Lemma close_step_inv now period_id c r c' :
  ledger_inv c → seq_room c → ledger_close_period date_start utc_offset now period_id c = (r, c') → ledger_inv c'.
Proof.
  intros Hinv Hroom H. destruct r as [sm|e].
  - apply close_period_Ok in H as (ap & _ & _ & Hcl); [|apply (dw_post _ (li_db _ Hinv))]. by eapply close_inv.
  - unfold ledger_close_period, close_transaction in H. destruct (close_period_impl _ _ _ _ c) as [[sm|e'] c1] eqn:E; [done|].
    injection H as -> <-. apply ledger_inv_rollback; [|done]. by eapply close_impl_advances.
Qed.

(** * Runs *)
Inductive ledger_step (c : CloseDb) : CloseDb → Prop :=
  | step_submit ty src posted_at lines r d' :
      in_transaction (ledger_submit_trx parse from ty src posted_at lines) (cd_db c) = (r, d') →
      ledger_step c (with_db d' c)
  | step_close now period_id r c' :
      seq_room c → ledger_close_period date_start utc_offset now period_id c = (r, c') → ledger_step c c'
  | step_period i ap : cd_period c !! i = None → ledger_step c (set_period i ap c).

Lemma ledger_step_inv c c' : ledger_step c c' → ledger_inv c → ledger_inv c'.
Proof.
  intros [ty src posted_at lines r d' H|now period_id r c1 Hroom H|i ap H] Hinv.
  - by eapply submit_inv.
  - by eapply close_step_inv.
  - by destruct Hinv.
Qed.
Lemma ledger_run_inv c c' : rtc ledger_step c c' → ledger_inv c → ledger_inv c'.
Proof. induction 1; [done|]. intros Hinv. by eapply IHrtc, ledger_step_inv. Qed.
End runs.

(** A ledger before its first submission. *)
Definition opening (accounts : gset Z) (pools : gmap Z string) : CloseDb :=
  {| cd_db := {| db_account := accounts; db_pool := pools; db_pool_state := ∅; db_pool_lock := ∅; db_trx := ∅;
                 db_trx_line := ∅; db_posting_line := ∅; db_provisional := ∅; db_trx_last := 0; db_trx_line_last := 0;
                 db_posting_last := 0; db_provisional_last := 0 |};
     cd_period := ∅; cd_final := ∅ |}.
Lemma opening_inv accounts pools : ledger_inv (opening accounts pools).
Proof.
  split; [..|intros p m _ _].
  1,2: split; cbn; first [lia|apply map_Forall_empty|intros p l r m H; by rewrite lookup_empty in H].
  - apply map_Forall_empty.
  - apply tied_eq. unfold pool_value, book, journal, restatement, sum_rows. cbn. rewrite map_to_list_empty. cbn.
    unfold pool_rows. cbn. rewrite map_to_list_empty, lookup_empty. by case_decide.
Qed.

