(* ===== verification/V3CloseSafe.v ===== *)
(** [ledger_close_period] on a ledger in order: a close that fails raises an SQL
    error, it never runs into one of the panics of its code (the lookup of the
    final average, the division by the quantity, the index of the posting). *)
From S2P Require Import Prelude V3Plan V3Layered V3Wac V3Method V3Books V3Db V3Hydrate.
From S2P Require Import V3Refine V3Commit V3Safe V3Direct V3Journal V3Close V3Ledger.

(** * Computations that raise *)
Definition raised (e : SqlError) : Prop := match e with SqlRaised _ _ => True | _ => False end.
Definition res_raises {A} (r : Res SqlError A) : Prop := match r with Err e => raised e | Ok _ => True end.
Definition raises {St A} (m : SE St SqlError A) : Prop := ∀ s, res_raises (m s).1.

Lemma res_raises_ok_or {A} (o : option A) e : raised e → res_raises (ok_or o e).
Proof. by destruct o. Qed.
Lemma res_raises_bind {A B} (r : Res SqlError A) (f : A → Res SqlError B) :
  res_raises r → (∀ a, r = Ok a → res_raises (f a)) → res_raises (r ≫= f).
Proof. destruct r as [a|e]; cbn; [|done]. intros _ H. by apply H. Qed.

Section monadic.
Context {St : Type}.
Lemma raises_bind {A B} (m : SE St SqlError A) (f : A → SE St SqlError B) :
  raises m → (∀ s a s', m s = (Ok a, s') → raises (f a)) → raises (m ≫= f).
Proof.
  intros Hm Hf s. specialize (Hm s). unfold mbind, SE_bind. destruct (m s) as [[a|e] s1] eqn:E; [|done]. by eapply Hf.
Qed.
Lemma raises_lift {A} (r : Res SqlError A) : res_raises r → raises (lift (S := St) r).
Proof. by intros H s. Qed.
Lemma raises_pure {A} (m : SE St SqlError A) : (∀ s, ∃ a, (m s).1 = Ok a) → raises m.
Proof. intros H s. by destruct (H s) as [a ->]. Qed.
Lemma raises_iterM {X} (f : X → SE St SqlError unit) l : (∀ a, raises (f a)) → raises (iterM f l).
Proof. intros Hf. induction l; cbn; [by apply raises_pure; eauto|]. by apply raises_bind. Qed.
End monadic.
Lemma raises_mapM {X B} (f : X → Tx B) l : (∀ a, raises (f a)) → raises (mapM_tx f l).
Proof.
  intros Hf. induction l; cbn; [by apply raises_pure; eauto|]. apply raises_bind; [done|]. intros _ b _ _.
  apply raises_bind; [done|]. intros _ bs _ _. by apply raises_pure; eauto.
Qed.
Lemma raises_on_db {A} (m : Tx A) : raises m → raises (on_db m).
Proof. intros Hm c. specialize (Hm (cd_db c)). unfold on_db. by destruct (m (cd_db c)). Qed.
Ltac solve_raises :=
  repeat first
    [ apply raises_iterM; intros ?
    | apply raises_mapM; intros ?
    | apply raises_on_db
    | apply raises_bind; [|intros ????]
    | intros ?; exact I
    | progress cbv zeta
    | case_match ].

Lemma variances_raise avgs rows :
  (∀ p, p ∈ rows → is_Some (avgs !! prv_pool_id p)) → res_raises (variances avgs rows).
Proof.
  induction rows as [|p rows IH]; intros H; cbn [variances]; [done|]. apply res_raises_bind.
  - unfold variance_of. destruct (H p ltac:(by left)) as [avg ->]. cbn.
    apply res_raises_bind; [by apply res_raises_ok_or|]. intros r _. by apply res_raises_ok_or.
  - intros v _. apply res_raises_bind; [|by intros]. apply IH. intros q Hq. apply H. by right.
Qed.
Lemma quot_i64 a b : in_i64 a → 0 < b → in_i64 (a `quot` b).
Proof.
  unfold in_i64, i64_min, i64_max. intros Ha Hb. pose proof (Z.quot_rem a b ltac:(lia)) as H.
  set (q := a `quot` b) in *. destruct (decide (0 ≤ a)).
  - assert (0 ≤ Z.rem a b < b) by (apply Z.rem_bound_pos; lia). assert (0 ≤ q) by (apply Z.quot_pos; lia). nia.
  - assert (- b < Z.rem a b ≤ 0) by (apply Z.rem_bound_pos_neg; lia). assert (q ≤ 0) by nia. nia.
Qed.
Lemma variance_rows_run next_seq pvs n :
  Forall (λ pv, 0 < prv_qty pv.1 ∧ in_i64 pv.2) pvs → ∃ r, variance_rows next_seq pvs n = Ok r.
Proof.
  intros H. revert next_seq n. induction H as [|[prov var] pvs [Hq Hv] _ IH]; intros next_seq n; cbn [variance_rows]; [by eexists|].
  case_decide.
  - destruct (IH next_seq n) as [r ->]. by eexists.
  - unfold i64_div. cbn in Hq. rewrite decide_False by lia. rewrite i64_try_from_in by (by apply quot_i64). cbn.
    edestruct IH as [r ->]. by eexists.
Qed.
Lemma variance_rows_posts next_seq pvs n rows posts i :
  variance_rows next_seq pvs n = Ok (rows, posts) → Some i ∈ posts → (i < n + length rows)%nat.
Proof.
  revert next_seq n rows posts. induction pvs as [|[prov var] pvs IH]; intros next_seq n rows posts; cbn [variance_rows].
  { intros [= <- <-]. by intros ?%elem_of_nil. }
  case_decide.
  - intros ([rows' posts'] & H' & [= <- <-])%Res_bind_Ok. cbn. intros [?|Hi]%elem_of_cons; [done|]. by eapply IH.
  - intros (u & _ & ([rows' posts'] & H' & [= <- <-])%Res_bind_Ok)%Res_bind_Ok. cbn.
    intros [[= ->]|Hi]%elem_of_cons; [lia|]. eapply IH in H'; [|done]. lia.
Qed.

Section close.
Context (date_start : Z → Timestamp) (utc_offset : Timestamp → Z) (now : Timestamp).

Lemma finalize_rows_run vids pvs posts m :
  (∀ i, Some i ∈ posts → (i < length vids)%nat) → ∃ m', finalize_rows now vids pvs posts m = Ok m'.
Proof.
  revert posts m. induction pvs as [|[prov var] pvs IH]; intros posts m H; [by eexists|].
  destruct posts as [|po posts]; [by eexists|]. cbn [finalize_rows].
  assert (∃ f, finalization now vids var po = Ok f) as [f ->].
  { destruct po as [i|]; [|by eexists]. destruct (lookup_lt_is_Some_2 vids i) as [x Hx]; [apply H; by left|].
    cbn. rewrite Hx. by eexists. }
  apply IH. intros i Hi. apply H. by right.
Qed.
Lemma pool_final_avg_raises ap d p : res_raises (pool_final_avg date_start ap d p).
Proof.
  unfold pool_final_avg. destruct (in_period_receipts _ _ _ _); [done|].
  apply res_raises_bind; [by apply res_raises_ok_or|]. intros v _.
  apply res_raises_bind; [by apply res_raises_ok_or|]. by intros.
Qed.
Lemma compute_final_avg_raises ap d ids : res_raises (compute_final_avg_per_pool date_start ap d ids).
Proof.
  induction ids as [|p ids IH]; cbn; [done|]. apply res_raises_bind; [apply pool_final_avg_raises|]. intros a _.
  apply res_raises_bind; [done|]. by intros.
Qed.
Lemma adjust_states_raises deltas m : res_raises (adjust_states deltas m).
Proof.
  revert m. induction deltas as [|[p x] deltas IH]; intros m; cbn [adjust_states]; [done|].
  destruct (m !! (p, 0)); [|apply IH]. apply res_raises_bind; [by apply res_raises_ok_or|]. intros u _. apply IH.
Qed.

Lemma restate_raises period_id ap rows :
  Forall (λ p, 0 < prv_qty p) rows → raises (restate_provisionals date_start now period_id ap rows).
Proof.
  intros Hqty. unfold restate_provisionals. cbv zeta. apply raises_bind; [unfold acquire_pool_locks; solve_raises|].
  intros _ _ _ _. apply raises_bind; [by apply raises_pure; eauto|]. intros _ c _ _.
  apply raises_bind; [apply raises_lift, compute_final_avg_raises|]. intros _ avgs _ _.
  destruct (forallb _ _) eqn:Hall; [|by intros ?]. rewrite forallb_forall in Hall.
  apply raises_bind.
  { apply raises_lift, variances_raise. intros p Hp. specialize (Hall (prv_pool_id p)).
    rewrite bool_decide_eq_true in Hall. by apply Hall, list_elem_of_In, elem_of_sorted_dedup, list_elem_of_fmap_2. }
  intros s vars s' [= Hvars <-]. apply raises_bind; [unfold insert_close_trx, insert_trx; solve_raises|].
  intros _ trx_id _ _. apply raises_bind; [by apply raises_pure; eauto|]. intros _ c2 _ _.
  destruct (variance_rows_run (read_max_trx_seq_per_pool (cd_db c2) (sorted_dedup (map prv_pool_id rows))) (zip rows vars) 0)
    as [[vs posts] Hvs].
  { apply variances_Ok in Hvars. clear -Hqty Hvars. induction Hvars as [|p v rows vars Hv _ IH]; [constructor|].
    apply Forall_cons in Hqty as [Hq Hqty]. apply variance_of_Ok in Hv as (_ & _ & _ & Hv). constructor; [done|by apply IH]. }
  rewrite Hvs. apply raises_bind; [by apply raises_pure; eauto|]. intros s1 r s2 [= <- <-]. cbn [fst snd].
  apply raises_bind.
  { unfold insert_variances, insert_variance_trx_lines, insert_variance_posting_lines, insert_trx_line_row,
      check_line_references, insert_posting_row. solve_raises. }
  intros s3 vids s4 (d & [_ ->]%insert_variances_Ok & _)%on_db_Ok.
  apply raises_bind.
  { apply raises_on_db. unfold adjust_pool_states. apply raises_bind; [by apply raises_pure; eauto|]. intros _ d' _ _.
    apply raises_bind; [apply raises_lift, adjust_states_raises|]. intros. by apply raises_pure; eauto. }
  intros _ _ _ _. apply raises_bind; [|intros; by apply raises_pure; eauto].
  unfold finalize_provisionals. apply raises_bind; [by apply raises_pure; eauto|]. intros _ c3 _ _.
  apply raises_bind; [|intros; by apply raises_pure; eauto]. apply raises_lift.
  destruct (finalize_rows_run (fresh_ids (db_posting_last (cd_db s3)) (length vs)) (zip rows vars) posts (cd_final c3)) as [m Hm];
    [|unfold id; by rewrite Hm]. intros i Hi. rewrite fresh_ids_length. by apply (variance_rows_posts _ _ _ _ _ _ Hvs Hi).
Qed.
Lemma close_raises period_id c e c' :
  ledger_inv c → ledger_close_period date_start utc_offset now period_id c = (Err e, c') → raised e.
Proof.
  intros Hinv H. unfold ledger_close_period, close_transaction in H.
  destruct (close_period_impl _ _ _ _ c) as [[sm|e'] c1] eqn:E; [done|]. injection H as -> _.
  unfold close_period_impl, read_period_for_update, mbind, SE_bind, gets, lift, id in E.
  destruct (cd_period c !! period_id) as [ap|] eqn:Hap; cbn in E; [|by injection E as <- _].
  destruct (bool_decide _); [|by injection E as <- _]. rewrite Hap in E. set (c2 := set_period _ _ _) in E.
  assert (Forall (λ p, 0 < prv_qty p) (read_unfinalized_in_period date_start utc_offset ap c2)) as Hqty.
  { apply Forall_forall. intros p (i & r & Hi & Hp)%elem_of_provisionals.
    apply provisional_of_Some in Hp as (_ & _ & _ & -> & _). by apply (jw_flag _ (li_journal _ Hinv)) in Hi as [? _]. }
  destruct (read_unfinalized_in_period _ _ ap c2) as [|p rows]; [done|].
  pose proof (restate_raises period_id ap _ Hqty c2) as Hr. destruct (restate_provisionals _ _ _ _ _ c2) as [[sm|e1] c3]; [done|].
  by injection E as <- _.
Qed.
End close.

