(* ===== verification/V3LedgerScenario.v ===== *)
(** A ledger with a periodic-average pool through two receipts, an issue and the
    close of its period: the theorems on closes and runs at concrete inputs, and
    three closes that do not give what an accountant would expect. *)
From S2P Require Import Prelude V3Plan V3Layered V3Wac V3Method V3Books V3Db V3Hydrate.
From S2P Require Import V3Refine V3Commit V3Safe V3Direct V3Journal V3Close V3Ledger V3CloseSafe.

(** Days of 1000 units of time, in a session [off] ahead of UTC. *)
Definition day_start (off : Z) (d : Z) : Timestamp := d * 1000 - off.
Definition constant_offset (off : Z) (t : Timestamp) : Z := off.
(** The timestamp texts of the scenario. *)
Definition clock (s : string) : option Timestamp :=
  if decide (s = "yesterday"%string) then Some 900 else if decide (s = "today"%string) then Some 1100 else None.
Definition periodic_line (ty : string) (qty cost : Z) : LineJson :=
  {| lj_pool_id := 3; lj_line_type := ty; lj_source_id := None; lj_qty := qty; lj_unit_cost := cost;
     lj_debit_account := 1; lj_credit_account := 2 |}.
Definition submit_line (ty : string) (src : Z) (when : string) (l : LineJson) (c : CloseDb) : CloseDb :=
  with_db (in_transaction (ledger_submit_trx clock id ty src when (Some [l])) (cd_db c)).2 c.
Definition receive (src : Z) (when : string) (qty cost : Z) : CloseDb → CloseDb :=
  submit_line "po_receipt" src when (periodic_line "po_receipt_line" qty cost).
Definition issue_units (src : Z) (when : string) (qty : Z) : CloseDb → CloseDb :=
  submit_line "inv_adjustment" src when (periodic_line "inv_adjustment_line" (- qty) 0).
Definition day1 : AccountingPeriod := {| ap_start_date := 1; ap_end_date := 1; ap_state := "open"; ap_closed_at := None |}.

Definition lc0 : CloseDb := opening {[1; 2]} (<[1 := "fifo"%string]> (<[3 := "wac_periodic"%string]> ∅)).
Definition lc1 : CloseDb := set_period 1 day1 lc0.
Definition lc4 : CloseDb := receive 2 "today" 10 7 (issue_units 1 "today" 4 (receive 1 "today" 10 5 lc1)).
Definition close_day1 (off : Z) : CTx CloseSummary := ledger_close_period (day_start off) (constant_offset off) 2500 1.
Definition lc5 : CloseDb := (close_day1 0 lc4).2.

Abbreviation run_step := (ledger_step clock id (day_start 0) (constant_offset 0)).
Lemma submit_line_step ty src when l c : run_step c (submit_line ty src when l c).
Proof. eapply step_submit. apply surjective_pairing. Qed.
Lemma lc4_run : rtc run_step lc0 lc4.
Proof.
  eapply rtc_l; [by apply (step_period _ _ _ _ lc0 1 day1)|]. do 3 (eapply rtc_l; [apply submit_line_step|]). apply rtc_refl.
Qed.
Lemma lc4_room : seq_room lc4.
Proof. split; [apply (bool_decide_unpack _); vm_compute; done|vm_compute; done]. Qed.
Lemma lc5_run : rtc run_step lc0 lc5.
Proof.
  eapply rtc_r; [exact lc4_run|]. apply (step_close _ _ _ _ lc4 2500 1 (close_day1 0 lc4).1 lc5 lc4_room). apply surjective_pairing.
Qed.
Lemma lc4_inv : ledger_inv lc4.
Proof. eapply ledger_run_inv; [exact lc4_run|apply opening_inv]. Qed.



(** * Closes with a surprise *)

(** The final average leaves out the stock a period opens with: ten units bought at
    5 the day before, issued against one bought at 100, leave one unit at -850. *)
Example opening_stock_ignored :
  let c := receive 2 "today" 1 100 (issue_units 1 "today" 10 (receive 1 "yesterday" 10 5 lc1)) in
  let c' := (close_day1 0 c).2 in
  pool_value (cd_db c) WacPeriodic 3 = 100 ∧ pool_value (cd_db c') WacPeriodic 3 = - 850 ∧
  ps_qty <$> db_pool_state (cd_db c') !! (3, 0) = Some 1.
Proof. vm_compute. done. Qed.

(** A closed period still takes submissions; the provisional row of one is not
    finalized, and the period cannot be closed again. *)
Example late_issue_stays_provisional :
  let c := issue_units 9 "today" 2 lc5 in
  (in_transaction (ledger_submit_trx clock id "inv_adjustment" 9 "today" (Some [periodic_line "inv_adjustment_line" (-2) 0]))
     (cd_db lc5)).1 = Ok 5 ∧
  ap_state <$> cd_period c !! 1 = Some "closed"%string ∧
  length (read_unfinalized_in_period (day_start 0) (constant_offset 0) day1 c) = 1%nat ∧
  (close_day1 0 c).1 = Err (SqlRaised "55000" "period not open").
Proof. vm_compute. done. Qed.

(** In a session 90 units behind UTC the variance of an issue of the period is dated
    before the period. *)
Example variance_dated_outside :
  let c := (close_day1 (-90) lc4).2 in
  map (λ ir, in_period (day_start (-90)) day1 (pr_posted_at ir.2))
    (List.filter (λ ir, bool_decide (pr_event_type ir.2 = "variance"%string)) (map_to_list (db_posting_line (cd_db c)))) = [false].
Proof. vm_compute. done. Qed.
