(* ===== verification/ExtTable.v ===== *)
(** The shared-memory tables of the balance extension (ledger-extension, lib.rs and
    fifo.rs): fixed arrays of buckets probed by open addressing.  The balance table
    and the FIFO arena use the same probing on their own buckets, so it is stated
    once over an interface, [Slot].  The theorems say that the array behaves as a
    finite map from keys to buckets, as long as nothing is removed from it. *)
From S2P Require Import Prelude.

(** * Widths *)
Definition as_u64 (z : Z) : Z := z `mod` 2 ^ 64.
Definition as_u32 (z : Z) : Z := z `mod` 2 ^ 32.
Definition as_u16 (z : Z) : Z := z `mod` 2 ^ 16.
Definition as_u8 (z : Z) : Z := z `mod` 2 ^ 8.
Definition as_i64 (z : Z) : Z := wrap_i64 z.
Definition as_i32 (z : Z) : Z := (z + 2 ^ 31) `mod` 2 ^ 32 - 2 ^ 31.
Definition as_i16 (z : Z) : Z := (z + 2 ^ 15) `mod` 2 ^ 16 - 2 ^ 15.

(** * Keys *)
Definition pack_key (account_id period_id currency_id ledger_kind : Z) : Z :=
  Z.lor (Z.lor (Z.lor (Z.shiftl (as_u64 account_id) 64) (Z.shiftl (as_u32 period_id) 32))
               (Z.shiftl (as_u16 currency_id) 16)) (Z.shiftl ledger_kind 8).
Definition unpack_key (key : Z) : Z * Z * Z * Z :=
  (as_i64 (as_u64 (Z.shiftr key 64)), as_i32 (as_u32 (Z.land (Z.shiftr key 32) 0xFFFFFFFF)),
   as_i16 (as_u16 (Z.land (Z.shiftr key 16) 0xFFFF)), as_u8 (Z.land (Z.shiftr key 8) 0xFF)).
Definition pack_fifo_key_poc (pool_account_id : Z) : Z := Z.shiftl (as_u64 pool_account_id) 64.
Definition pack_bal_qty (balance qty : Z) : Z := Z.lor (Z.shiftl (as_u64 balance) 64) (as_u64 qty).
Definition unpack_bal_qty (packed : Z) : Z * Z := (as_i64 (as_u64 (Z.shiftr packed 64)), as_i64 (as_u64 packed)).

Definition N_BUCKETS : Z := 16384.
Definition slot_for (key : Z) : Z :=
  let z := Z.lxor (as_u64 key) (as_u64 (Z.shiftr key 64)) in
  let z := as_u64 (Z.lxor z (Z.shiftr z 30) * 0xbf58476d1ce4e5b9) in
  let z := as_u64 (Z.lxor z (Z.shiftr z 27) * 0x94d049bb133111eb) in
  let z := Z.lxor z (Z.shiftr z 31) in
  Z.land z (N_BUCKETS - 1).
Definition slot_for_fifo (key : Z) : Z := slot_for key.

(** * Probing *)
Class Slot (B : Type) := {
  sl_occupied : B → Z;
  sl_key_hi : B → Z;
  sl_key_lo : B → Z;
  sl_zeroed : B;
  sl_empty : sl_occupied sl_zeroed = 0;
}.
(** Where a probe ends: at the bucket of the key, at an empty one, or nowhere. *)
Inductive Probe := Hit (idx : Z) | Vacant (idx : Z) | Full.

Section probing.
Context {B : Type} `{!Slot B}.
(** A bucket that was never written is zeroed. *)
Definition bucket (t : gmap Z B) (idx : Z) : B := default sl_zeroed (t !! idx).
Definition probe_idx (start probe : Z) : Z := Z.land (start + probe) (N_BUCKETS - 1).
Definition key_hi (key : Z) : Z := as_u64 (Z.shiftr key 64).
Definition key_lo (key : Z) : Z := as_u64 key.
Definition at_key (b : B) (key : Z) : bool := (sl_key_hi b =? key_hi key) && (sl_key_lo b =? key_lo key).

Fixpoint probe_loop (t : gmap Z B) (key : Z) (todo : nat) (probe : Z) : Probe :=
  match todo with
  | O => Full
  | S todo =>
      let idx := probe_idx (slot_for key) probe in
      let b := bucket t idx in
      if sl_occupied b =? 0 then Vacant idx
      else if at_key b key then Hit idx
      else probe_loop t key todo (probe + 1)
  end.
Definition probe_table (t : gmap Z B) (key : Z) : Probe := probe_loop t key (Z.to_nat N_BUCKETS) 0.
(** The insertion loop that looks for an empty bucket only. *)
Fixpoint vacant_loop (t : gmap Z B) (key : Z) (todo : nat) (probe : Z) : option Z :=
  match todo with
  | O => None
  | S todo =>
      let idx := probe_idx (slot_for key) probe in
      if sl_occupied (bucket t idx) =? 0 then Some idx else vacant_loop t key todo (probe + 1)
  end.
Definition find_vacant (t : gmap Z B) (key : Z) : option Z := vacant_loop t key (Z.to_nat N_BUCKETS) 0.

(** * The table as a map *)
Definition occupied (t : gmap Z B) (i : Z) : Prop := sl_occupied (bucket t i) ≠ 0.
Definition holds_key (t : gmap Z B) (key i : Z) : Prop := occupied t i ∧ at_key (bucket t i) key = true.
(** Every bucket in use is reached from its key without passing an empty one, nor
    the key itself. *)
Record table_wf (t : gmap Z B) : Prop := {
  tw_range : ∀ i, occupied t i → 0 ≤ i < N_BUCKETS;
  tw_reached : ∀ i key, holds_key t key i → ∃ n, 0 ≤ n < N_BUCKETS ∧ i = probe_idx (slot_for key) n ∧
    ∀ m, 0 ≤ m < n → occupied t (probe_idx (slot_for key) m) ∧ at_key (bucket t (probe_idx (slot_for key) m)) key = false;
}.

Lemma probe_idx_mod s p : probe_idx s p = (s + p) `mod` N_BUCKETS.
Proof. unfold probe_idx. change (N_BUCKETS - 1) with (Z.ones 14). by rewrite Z.land_ones. Qed.
Lemma probe_idx_range s p : 0 ≤ probe_idx s p < N_BUCKETS.
Proof. rewrite probe_idx_mod. apply Z.mod_pos_bound. done. Qed.
(** The probe sequence visits every bucket. *)
Lemma probe_idx_onto s i : 0 ≤ i < N_BUCKETS → ∃ n, 0 ≤ n < N_BUCKETS ∧ probe_idx s n = i.
Proof.
  intros Hi. exists ((i - s) `mod` N_BUCKETS). split; [by apply Z.mod_pos_bound|].
  rewrite probe_idx_mod, Zplus_mod_idemp_r. replace (s + (i - s)) with i by lia. by apply Z.mod_small.
Qed.

Lemma probe_loop_spec t key todo probe :
  match probe_loop t key todo probe with
  | Hit i => ∃ n, probe ≤ n < probe + Z.of_nat todo ∧ i = probe_idx (slot_for key) n ∧ holds_key t key i ∧
      ∀ m, probe ≤ m < n → occupied t (probe_idx (slot_for key) m) ∧ at_key (bucket t (probe_idx (slot_for key) m)) key = false
  | Vacant i => ∃ n, probe ≤ n < probe + Z.of_nat todo ∧ i = probe_idx (slot_for key) n ∧ sl_occupied (bucket t i) = 0 ∧
      ∀ m, probe ≤ m < n → occupied t (probe_idx (slot_for key) m) ∧ at_key (bucket t (probe_idx (slot_for key) m)) key = false
  | Full => ∀ m, probe ≤ m < probe + Z.of_nat todo →
      occupied t (probe_idx (slot_for key) m) ∧ at_key (bucket t (probe_idx (slot_for key) m)) key = false
  end.
Proof.
  revert probe. induction todo as [|todo IH]; intros probe; cbn [probe_loop]; [lia|].
  destruct (sl_occupied _ =? 0) eqn:Hocc; [apply Z.eqb_eq in Hocc; exists probe; split_and!; [lia..|done|done|lia]|].
  apply Z.eqb_neq in Hocc.
  destruct (at_key _ _) eqn:Hkey; [exists probe; split_and!; [lia..|done|by split|lia]|].
  specialize (IH (probe + 1)). destruct (probe_loop t key todo (probe + 1)) as [i|i|].
  1,2: destruct IH as (n & Hn & Hi & Hh & Hm); exists n; split_and!; [lia..|done|done|];
       intros m Hlt; destruct (decide (m = probe)) as [->|]; [done|apply Hm; lia].
  intros m Hlt. destruct (decide (m = probe)) as [->|]; [done|apply IH; lia].
Qed.
Lemma probe_table_spec t key :
  match probe_table t key with
  | Hit i => ∃ n, 0 ≤ n < N_BUCKETS ∧ i = probe_idx (slot_for key) n ∧ holds_key t key i ∧
      ∀ m, 0 ≤ m < n → occupied t (probe_idx (slot_for key) m) ∧ at_key (bucket t (probe_idx (slot_for key) m)) key = false
  | Vacant i => ∃ n, 0 ≤ n < N_BUCKETS ∧ i = probe_idx (slot_for key) n ∧ sl_occupied (bucket t i) = 0 ∧
      ∀ m, 0 ≤ m < n → occupied t (probe_idx (slot_for key) m) ∧ at_key (bucket t (probe_idx (slot_for key) m)) key = false
  | Full => ∀ m, 0 ≤ m < N_BUCKETS →
      occupied t (probe_idx (slot_for key) m) ∧ at_key (bucket t (probe_idx (slot_for key) m)) key = false
  end.
Proof. pose proof (probe_loop_spec t key (Z.to_nat N_BUCKETS) 0) as H. rewrite Z2Nat.id, Z.add_0_l in H by done. exact H. Qed.

(** A probe finds the bucket of a key exactly when there is one. *)
Lemma probe_holds t key i : table_wf t → holds_key t key i → probe_table t key = Hit i.
Proof.
  intros Hwf Hh. destruct (tw_reached _ Hwf _ _ Hh) as (n & Hn & -> & Hbefore).
  pose proof (probe_table_spec t key) as H. destruct (probe_table t key) as [j|j|].
  - destruct H as (k & Hk & -> & [Ho Hkey] & Hm). f_equal. destruct (Z.lt_trichotomy k n) as [Hlt|[->|Hlt]]; [|done|].
    + destruct (Hbefore k) as [_ Hne]; [lia|]. congruence.
    + destruct (Hm n) as [_ Hne]; [lia|]. destruct Hh. congruence.
  - destruct H as (k & Hk & -> & Ho & Hm). destruct (Z.lt_trichotomy k n) as [Hlt|[->|Hlt]].
    + by destruct (Hbefore k) as [? _]; [lia|].
    + by destruct Hh.
    + destruct (Hm n) as [_ Hne]; [lia|]. destruct Hh. congruence.
  - destruct (H n Hn) as [_ Hne]. destruct Hh. congruence.
Qed.
Lemma probe_Hit t key i : probe_table t key = Hit i → holds_key t key i ∧ 0 ≤ i < N_BUCKETS.
Proof.
  intros E. pose proof (probe_table_spec t key) as H. rewrite E in H. destruct H as (n & _ & -> & ? & _).
  split; [done|apply probe_idx_range].
Qed.
Lemma probe_miss t key i : table_wf t → (∀ j, probe_table t key ≠ Hit j) → ¬ holds_key t key i.
Proof. intros Hwf H Hi. by apply (H i), probe_holds. Qed.
Lemma probe_Full t key i : probe_table t key = Full → 0 ≤ i < N_BUCKETS → occupied t i.
Proof.
  intros E Hi. pose proof (probe_table_spec t key) as H. rewrite E in H.
  destruct (probe_idx_onto (slot_for key) i Hi) as (n & Hn & <-). by apply H.
Qed.
Lemma probe_Vacant t key i : probe_table t key = Vacant i → ¬ occupied t i ∧ 0 ≤ i < N_BUCKETS.
Proof.
  intros E. pose proof (probe_table_spec t key) as H. rewrite E in H. destruct H as (n & _ & -> & Ho & _).
  split; [|apply probe_idx_range]. intros Hocc. by apply Hocc.
Qed.

(** ** Writing *)
Lemma bucket_insert t i b : bucket (<[i := b]> t) i = b.
Proof. unfold bucket. by rewrite lookup_insert_eq. Qed.
Lemma bucket_insert_ne t i j b : i ≠ j → bucket (<[i := b]> t) j = bucket t j.
Proof. intros H. unfold bucket. by rewrite lookup_insert_ne. Qed.

(** Filling the vacant bucket a probe ended at. *)
Lemma insert_wf t key i b :
  table_wf t → probe_table t key = Vacant i → sl_occupied b ≠ 0 → (∀ k, at_key b k = true → slot_for k = slot_for key ∧ ∀ x, at_key x k = at_key x key) →
  table_wf (<[i := b]> t).
Proof.
  intros Hwf E Hb Hkey. pose proof (probe_table_spec t key) as H. rewrite E in H. destruct H as (n & Hn & Hi & Ho & Hbefore).
  assert (∀ j, occupied (<[i := b]> t) j ↔ j = i ∨ occupied t j) as Hocc.
  { intros j. unfold occupied. destruct (decide (j = i)) as [->|Hne].
    - rewrite bucket_insert. naive_solver.
    - rewrite bucket_insert_ne by congruence. naive_solver. }
  split.
  - intros j [->|Hj]%Hocc; [subst i; apply probe_idx_range|by apply (tw_range _ Hwf)].
  - intros j k [Hj Hat]. destruct (decide (j = i)) as [->|Hne].
    + rewrite bucket_insert in Hat. destruct (Hkey k Hat) as [-> Hk]. exists n. split; [done|]. split; [done|].
      intros m Hm. destruct (Hbefore m Hm) as [Hom Hkm]. rewrite Hk.
      assert (probe_idx (slot_for key) m ≠ i) as Hmi by (intros Heq; rewrite Heq in Hom; by apply Hom).
      rewrite Hocc, bucket_insert_ne by congruence. auto.
    + rewrite bucket_insert_ne in Hat by congruence. apply Hocc in Hj as [->|Hj]; [done|].
      destruct (tw_reached _ Hwf j k (conj Hj Hat)) as (n' & Hn' & -> & Hb'). exists n'. split; [done|]. split; [done|].
      intros m Hm. destruct (Hb' m Hm) as [Hom Hkm].
      assert (probe_idx (slot_for k) m ≠ i) as Hmi by (intros Heq; rewrite Heq in Hom; by apply Hom).
      rewrite Hocc, bucket_insert_ne by congruence. auto.
Qed.
(** Changing the contents of a bucket in use. *)
Lemma update_wf t i b :
  table_wf t → occupied t i → sl_occupied b ≠ 0 → (∀ k, at_key b k = at_key (bucket t i) k) → table_wf (<[i := b]> t).
Proof.
  intros Hwf Hi Hb Hkey.
  assert (∀ j, occupied (<[i := b]> t) j ↔ occupied t j) as Hocc.
  { intros j. unfold occupied. destruct (decide (j = i)) as [->|Hne]; [by rewrite bucket_insert|by rewrite bucket_insert_ne]. }
  assert (∀ j k, at_key (bucket (<[i := b]> t) j) k = at_key (bucket t j) k) as Hat.
  { intros j k. destruct (decide (j = i)) as [->|Hne]; [by rewrite bucket_insert|by rewrite bucket_insert_ne]. }
  split.
  - intros j Hj%Hocc. by apply (tw_range _ Hwf).
  - intros j k [Hj%Hocc Hk]. rewrite Hat in Hk. destruct (tw_reached _ Hwf j k (conj Hj Hk)) as (n & Hn & -> & Hb').
    exists n. split; [done|]. split; [done|]. intros m Hm. rewrite Hocc, Hat. auto.
Qed.
Lemma empty_wf : table_wf ∅.
Proof.
  assert (∀ i, ¬ occupied ∅ i) as H by (intros i Hi; apply Hi; unfold bucket; rewrite lookup_empty; apply sl_empty).
  split; [by intros i Hi%H|]. by intros i k [Hi%H _].
Qed.

(** A key that is not in the table goes to the first empty bucket of its sequence. *)
Lemma vacant_loop_probe t key todo probe :
  (∀ j, probe_loop t key todo probe ≠ Hit j) →
  vacant_loop t key todo probe = match probe_loop t key todo probe with Vacant i => Some i | _ => None end.
Proof.
  revert probe. induction todo as [|todo IH]; intros probe; cbn [vacant_loop probe_loop]; [done|].
  destruct (sl_occupied _ =? 0); [done|]. destruct (at_key _ _); [intros H; by destruct (H (probe_idx (slot_for key) probe))|apply IH].
Qed.
Lemma find_vacant_probe t key :
  (∀ j, probe_table t key ≠ Hit j) → find_vacant t key = match probe_table t key with Vacant i => Some i | _ => None end.
Proof. apply vacant_loop_probe. Qed.
End probing.

Section keys.
Context {B : Type} `{!Slot B}.
Implicit Types (t : gmap Z B) (b : B).

Definition same_key (k k' : Z) : Prop := key_hi k = key_hi k' ∧ key_lo k = key_lo k'.
Lemma slot_for_same k k' : same_key k k' → slot_for k = slot_for k'.
Proof. unfold same_key, key_hi, key_lo, slot_for. by intros [-> ->]. Qed.
Lemma at_key_same b k k' : same_key k k' → at_key b k = at_key b k'.
Proof. unfold at_key. by intros [-> ->]. Qed.
Lemma at_key_true b k : at_key b k = true ↔ sl_key_hi b = key_hi k ∧ sl_key_lo b = key_lo k.
Proof. unfold at_key. rewrite andb_true_iff, !Z.eqb_eq. done. Qed.
Lemma at_key_two b k k' : at_key b k = true → at_key b k' = true → same_key k k'.
Proof. rewrite !at_key_true. intros [H1 H2] [H3 H4]. split; congruence. Qed.

(** A new bucket for a key, and an update in place. *)
Lemma insert_key_wf t key i b :
  table_wf t → probe_table t key = Vacant i → sl_occupied b ≠ 0 → at_key b key = true → table_wf (<[i := b]> t).
Proof.
  intros Hwf E Hb Hk. eapply insert_wf; [done..|]. intros k Hk'. pose proof (at_key_two _ _ _ Hk' Hk) as Hs.
  split; [by apply slot_for_same|]. intros x. by apply at_key_same.
Qed.
Lemma insert_key_probe t key i b k :
  table_wf t → probe_table t key = Vacant i → sl_occupied b ≠ 0 → at_key b key = true → 
  (same_key k key → probe_table (<[i := b]> t) k = Hit i) ∧
  (¬ same_key k key → ∀ j, probe_table (<[i := b]> t) k = Hit j ↔ probe_table t k = Hit j).
Proof.
  intros Hwf E Hb Hk. pose proof (insert_key_wf _ _ _ _ Hwf E Hb Hk) as Hwf'. split.
  - intros Hs. apply probe_holds; [done|]. unfold holds_key, occupied. rewrite bucket_insert. split; [done|].
    by rewrite (at_key_same _ _ _ Hs).
  - intros Hns j. destruct (probe_Vacant _ _ _ E) as [Ho _]. split; intros H%probe_Hit; apply probe_holds; try done.
    + destruct H as [[Hj Hat] _]. unfold holds_key, occupied in *. destruct (decide (j = i)) as [->|Hne].
      * rewrite bucket_insert in Hat. by destruct Hns; eapply at_key_two.
      * by rewrite bucket_insert_ne in * by congruence.
    + destruct H as [[Hj Hat] _]. unfold holds_key, occupied in *. destruct (decide (j = i)) as [->|Hne]; [done|].
      by rewrite bucket_insert_ne by congruence.
Qed.
Lemma update_key_probe t i b k j :
  table_wf t → occupied t i → sl_occupied b ≠ 0 → (∀ k, at_key b k = at_key (bucket t i) k) →
  probe_table (<[i := b]> t) k = Hit j ↔ probe_table t k = Hit j.
Proof.
  intros Hwf Hi Hb Hk. pose proof (update_wf _ _ _ Hwf Hi Hb Hk) as Hwf'.
  assert (∀ j, holds_key (<[i := b]> t) k j ↔ holds_key t k j) as Hh.
  { intros j'. unfold holds_key, occupied. destruct (decide (j' = i)) as [->|Hne].
    - rewrite bucket_insert, Hk. naive_solver.
    - by rewrite bucket_insert_ne by congruence. }
  split; intros [H _]%probe_Hit; apply probe_holds; try done; by apply Hh.
Qed.

(** * Occupancy *)
Definition count_upto (n : Z) t : Z := Z.of_nat (length (List.filter (λ i, negb (sl_occupied (bucket t i) =? 0)) (seqZ 0 n))).
Definition occupied_count t : Z := count_upto N_BUCKETS t.
Lemma count_insert (f g : Z → bool) (l : list Z) i :
  NoDup l → i ∈ l → f i = false → g i = true → (∀ j, j ≠ i → g j = f j) →
  length (List.filter g l) = S (length (List.filter f l)).
Proof.
  intros Hnd Hi Hf Hg Hother. induction l as [|j l IH]; [by apply elem_of_nil in Hi|]. apply NoDup_cons in Hnd as [Hj Hnd].
  cbn. destruct (decide (j = i)) as [->|Hne].
  - rewrite Hf, Hg. cbn. f_equal. clear IH Hi Hnd. induction l as [|k l IH]; [done|]. apply not_elem_of_cons in Hj as [Hk Hj].
    cbn. rewrite Hother by congruence. destruct (f k); cbn; by rewrite IH.
  - rewrite Hother by done. apply elem_of_cons in Hi as [->|Hi]; [done|]. destruct (f j); cbn; by rewrite IH.
Qed.
Lemma count_upto_insert n t i b :
  0 ≤ i < n → ¬ occupied t i → sl_occupied b ≠ 0 → count_upto n (<[i := b]> t) = count_upto n t + 1.
Proof.
  intros Hi Ho Hb. unfold count_upto.
  rewrite (count_insert (λ i, negb (sl_occupied (bucket t i) =? 0)) (λ j, negb (sl_occupied (bucket (<[i:=b]> t) j) =? 0)) _ i).
  - lia.
  - apply NoDup_seqZ.
  - apply elem_of_seqZ. lia.
  - unfold occupied in Ho. destruct (sl_occupied (bucket t i) =? 0) eqn:E; [done|]. apply Z.eqb_neq in E. done.
  - rewrite bucket_insert. by apply Z.eqb_neq in Hb as ->.
  - intros j Hj. by rewrite bucket_insert_ne.
Qed.
Lemma occupied_count_insert t i b :
  0 ≤ i < N_BUCKETS → ¬ occupied t i → sl_occupied b ≠ 0 → occupied_count (<[i := b]> t) = occupied_count t + 1.
Proof. apply count_upto_insert. Qed.
Lemma count_upto_update n t i b :
  occupied t i → sl_occupied b ≠ 0 → count_upto n (<[i := b]> t) = count_upto n t.
Proof.
  intros Ho Hb. unfold count_upto.
  rewrite (List.filter_ext _ (λ j, negb (sl_occupied (bucket t j) =? 0))); [done|]. intros j. destruct (decide (i = j)) as [<-|Hne].
  - rewrite bucket_insert. unfold occupied in Ho. by apply Z.eqb_neq in Hb as ->; apply Z.eqb_neq in Ho as ->.
  - by rewrite bucket_insert_ne.
Qed.
Lemma occupied_count_update t i b :
  occupied t i → sl_occupied b ≠ 0 → occupied_count (<[i := b]> t) = occupied_count t.
Proof. apply count_upto_update. Qed.
Lemma count_upto_below n t : 0 ≤ n → count_upto n t < n → ∃ i, 0 ≤ i < n ∧ ¬ occupied t i.
Proof.
  unfold count_upto. set (f := λ i, _). intros Hn Hlt.
  destruct (decide (Exists (λ i, f i = false) (seqZ 0 n))) as [(i & Hi & Hf)%Exists_exists|Hno].
  { apply elem_of_seqZ in Hi. exists i. split; [lia|]. unfold f in Hf. intros Ho. by apply Z.eqb_neq in Ho as E; rewrite E in Hf. }
  apply not_Exists_Forall in Hno; [|apply _].
  assert (List.filter f (seqZ 0 n) = seqZ 0 n) as Hall.
  { apply forallb_filter_id, forallb_forall. intros i Hi%list_elem_of_In. rewrite Forall_forall in Hno.
    specialize (Hno i Hi). unfold compose in Hno. destruct (f i); [done|by destruct Hno]. }
  rewrite Hall, length_seqZ, Z2Nat.id in Hlt by done. lia.
Qed.
Lemma count_upto_le n t : 0 ≤ n → count_upto n t ≤ n.
Proof.
  intros Hn. unfold count_upto. pose proof (List.filter_length_le (λ i, negb (sl_occupied (bucket t i) =? 0)) (seqZ 0 n)).
  rewrite length_seqZ in *. lia.
Qed.
Lemma occupied_count_le t : occupied_count t ≤ N_BUCKETS.
Proof. assert (0 ≤ N_BUCKETS) as Hn by (unfold N_BUCKETS; lia). unfold occupied_count. exact (count_upto_le _ _ Hn). Qed.
Lemma occupied_count_same t t' :
  (∀ i, sl_occupied (bucket t' i) = sl_occupied (bucket t i)) → occupied_count t' = occupied_count t.
Proof.
  intros H. unfold occupied_count, count_upto.
  by rewrite (List.filter_ext _ (λ i, negb (sl_occupied (bucket t i) =? 0))) by (intros i; by rewrite H).
Qed.
Lemma occupied_count_empty : occupied_count ∅ = 0.
Proof.
  unfold occupied_count, count_upto. induction (seqZ 0 N_BUCKETS) as [|i l IH]; [done|]. cbn [List.filter].
  unfold bucket at 1. rewrite lookup_empty. cbn. by rewrite sl_empty.
Qed.
Lemma occupied_count_pos t : 0 ≤ occupied_count t.
Proof. apply Nat2Z.is_nonneg. Qed.
(** A table that is not full has room for any key. *)
Lemma probe_not_full t key : occupied_count t < N_BUCKETS → probe_table t key ≠ Full.
Proof.
  unfold occupied_count. assert (0 ≤ N_BUCKETS) as Hn by (unfold N_BUCKETS; lia). intros Hlt E.
  destruct (count_upto_below _ _ Hn Hlt) as (i & Hi & Ho). exact (Ho (probe_Full t key i E Hi)).
Qed.
End keys.

(** * Packed words *)
Lemma land_shiftl_small a b n : 0 ≤ n → 0 ≤ b < 2 ^ n → Z.land (a * 2 ^ n) b = 0.
Proof.
  intros Hn Hb. apply Z.bits_inj'. intros i Hi. rewrite Z.land_spec, Z.bits_0. destruct (Z.lt_ge_cases i n).
  - by rewrite Z.mul_pow2_bits_low by done.
  - rewrite <-(Z.mod_small b (2 ^ n)) by done. rewrite Z.mod_pow2_bits_high by lia. apply andb_false_r.
Qed.
Lemma lor_shiftl a b n : 0 ≤ n → 0 ≤ b < 2 ^ n → Z.lor (Z.shiftl a n) b = a * 2 ^ n + b.
Proof.
  intros Hn Hb. rewrite Z.shiftl_mul_pow2 by done. pose proof (land_shiftl_small a b n Hn Hb) as H.
  by rewrite Z.add_nocarry_lxor, Z.lxor_lor.
Qed.
(** Linear goals with division and remainder by constants. *)
Ltac zdiv := Z.to_euclidean_division_equations; lia.
Lemma as_u64_range z : 0 ≤ as_u64 z < 2 ^ 64.
Proof. by apply Z.mod_pos_bound. Qed.
Lemma as_i64_u64 z : in_i64 z → as_i64 (as_u64 z) = z.
Proof. unfold as_i64, as_u64, wrap_i64, in_i64, i64_min, i64_max. intros. zdiv. Qed.

Definition in_i32 (z : Z) : Prop := - 2 ^ 31 ≤ z < 2 ^ 31.
Definition in_i16 (z : Z) : Prop := - 2 ^ 15 ≤ z < 2 ^ 15.
Lemma pack_key_value a p c k :
  0 ≤ k < 2 ^ 8 → pack_key a p c k = as_u64 a * 2 ^ 64 + as_u32 p * 2 ^ 32 + as_u16 c * 2 ^ 16 + k * 2 ^ 8.
Proof.
  intros Hk. unfold pack_key, as_u64, as_u32, as_u16. rewrite <-!Z.lor_assoc.
  assert (0 ≤ p `mod` 2 ^ 32 < 2 ^ 32) by (by apply Z.mod_pos_bound). assert (0 ≤ c `mod` 2 ^ 16 < 2 ^ 16) by (by apply Z.mod_pos_bound).
  rewrite (Z.shiftl_mul_pow2 k) by done.
  rewrite (lor_shiftl (c `mod` 2 ^ 16)) by lia. rewrite (lor_shiftl (p `mod` 2 ^ 32)) by lia. rewrite lor_shiftl by lia. lia.
Qed.
(** A packed key gives its four parts back: distinct cells have distinct keys. *)
Lemma unpack_pack_key a p c k :
  in_i64 a → in_i32 p → in_i16 c → 0 ≤ k < 2 ^ 8 → unpack_key (pack_key a p c k) = (a, p, c, k).
Proof.
  intros Ha Hp Hc Hk. rewrite pack_key_value by done. unfold unpack_key.
  change 0xFFFFFFFF with (Z.ones 32). change 0xFFFF with (Z.ones 16). change 0xFF with (Z.ones 8).
  rewrite !Z.land_ones, !Z.shiftr_div_pow2 by done.
  unfold as_u64, as_u32, as_u16, as_u8, as_i64, as_i32, as_i16, wrap_i64, in_i64, in_i32, in_i16, i64_min, i64_max in *.
  set (A := a `mod` 2 ^ 64). set (P := p `mod` 2 ^ 32). set (C := c `mod` 2 ^ 16).
  assert (0 ≤ A < 2 ^ 64) by (by apply Z.mod_pos_bound). assert (0 ≤ P < 2 ^ 32) by (by apply Z.mod_pos_bound).
  assert (0 ≤ C < 2 ^ 16) by (by apply Z.mod_pos_bound).
  set (K := A * 2 ^ 64 + P * 2 ^ 32 + C * 2 ^ 16 + k * 2 ^ 8).
  assert (K `div` 2 ^ 64 = A) as -> by zdiv. assert ((K `div` 2 ^ 32) `mod` 2 ^ 32 = P) as -> by zdiv.
  assert ((K `div` 2 ^ 16) `mod` 2 ^ 16 = C) as -> by zdiv. assert ((K `div` 2 ^ 8) `mod` 2 ^ 8 = k) as -> by zdiv.
  unfold A, P, C. repeat f_equal; zdiv.
Qed.
Lemma unpack_pack_bal_qty b q : in_i64 b → in_i64 q → unpack_bal_qty (pack_bal_qty b q) = (b, q).
Proof.
  intros Hb Hq. unfold unpack_bal_qty, pack_bal_qty. pose proof (as_u64_range b). pose proof (as_u64_range q).
  rewrite lor_shiftl, Z.shiftr_div_pow2 by done.
  assert ((as_u64 b * 2 ^ 64 + as_u64 q) `div` 2 ^ 64 = as_u64 b) as -> by zdiv.
  assert (as_u64 (as_u64 b * 2 ^ 64 + as_u64 q) = as_u64 q) as -> by (unfold as_u64; zdiv).
  assert (as_u64 (as_u64 b) = as_u64 b) as -> by (unfold as_u64; zdiv). by rewrite !as_i64_u64.
Qed.
(** Keys that fit in a u128 are told apart by their halves. *)
Lemma same_key_eq k k' : 0 ≤ k < 2 ^ 128 → 0 ≤ k' < 2 ^ 128 → same_key k k' → k = k'.
Proof.
  unfold same_key, key_hi, key_lo, as_u64. intros Hk Hk'. rewrite !Z.shiftr_div_pow2 by done. intros [H1 H2]. zdiv.
Qed.
Lemma pack_key_range a p c k : 0 ≤ k < 2 ^ 8 → 0 ≤ pack_key a p c k < 2 ^ 128.
Proof.
  intros Hk. rewrite pack_key_value by done. pose proof (as_u64_range a).
  assert (0 ≤ as_u32 p < 2 ^ 32) by (by apply Z.mod_pos_bound). assert (0 ≤ as_u16 c < 2 ^ 16) by (by apply Z.mod_pos_bound). lia.
Qed.
(** The loops run on a unary counter of [N_BUCKETS] steps: no unfolding by accident. *)
#[global] Opaque probe_table find_vacant occupied_count.
