(* ===== verification/ExtBalance.v ===== *)
(** The balance rollup of ledger-extension (lib.rs): balances per account, period,
    currency and ledger kept in a shared-memory table, deltas staged per backend and
    applied when the transaction commits, and a worker that drains dirty cells into
    the durable table account_balances_rollup. *)
From S2P Require Import Prelude ExtTable.

(** * State *)
Record Bucket := {
  bk_occupied : Z;
  bk_key_hi : Z;
  bk_key_lo : Z;
  bk_balance_qty : Z;
  bk_last_seq : Z;
  bk_drained_seq : Z;
}.
#[global, program] Instance Bucket_slot : Slot Bucket := {|
  sl_occupied := bk_occupied; sl_key_hi := bk_key_hi; sl_key_lo := bk_key_lo;
  sl_zeroed := {| bk_occupied := 0; bk_key_hi := 0; bk_key_lo := 0; bk_balance_qty := 0; bk_last_seq := 0; bk_drained_seq := 0 |} |}.
Solve Obligations with done.

(** account_id, period_id, currency_id, ledger_kind. *)
Abbreviation CellKey := (Z * Z * Z * Z)%type.
Record RollupRow := { ru_balance : Z; ru_qty : Z; ru_last_seq : Z }.
Record PendingEntry := {
  pe_amount_delta : Z;
  pe_qty_delta : Z;
  pe_rollup_seed : option (Z * Z * Z);
  pe_rollup_seed_captured : bool;
}.
Abbreviation Frame := (gmap Z PendingEntry).
(** Shared memory and the durable rollup.  The pending frames of a backend are a
    list with the innermost subtransaction first. *)
Record Shared := {
  HASH_TABLE : gmap Z Bucket;
  OCCUPIED_COUNT : Z;
  APPLY_SEQ : Z;
  LEDGER_SHMEM_INSERT_FAILURES : Z;
  LEDGER_DRAIN_CONSECUTIVE_FAILS : Z;
  LEDGER_DRAIN_TOTAL_FAILURES : Z;
  account_balances_rollup : gmap CellKey RollupRow;
}.
Definition set_table (t : gmap Z Bucket) (s : Shared) : Shared :=
  {| HASH_TABLE := t; OCCUPIED_COUNT := OCCUPIED_COUNT s; APPLY_SEQ := APPLY_SEQ s;
     LEDGER_SHMEM_INSERT_FAILURES := LEDGER_SHMEM_INSERT_FAILURES s;
     LEDGER_DRAIN_CONSECUTIVE_FAILS := LEDGER_DRAIN_CONSECUTIVE_FAILS s;
     LEDGER_DRAIN_TOTAL_FAILURES := LEDGER_DRAIN_TOTAL_FAILURES s;
     account_balances_rollup := account_balances_rollup s |}.
Definition set_occupied (n : Z) (s : Shared) : Shared :=
  {| HASH_TABLE := HASH_TABLE s; OCCUPIED_COUNT := n; APPLY_SEQ := APPLY_SEQ s;
     LEDGER_SHMEM_INSERT_FAILURES := LEDGER_SHMEM_INSERT_FAILURES s;
     LEDGER_DRAIN_CONSECUTIVE_FAILS := LEDGER_DRAIN_CONSECUTIVE_FAILS s;
     LEDGER_DRAIN_TOTAL_FAILURES := LEDGER_DRAIN_TOTAL_FAILURES s;
     account_balances_rollup := account_balances_rollup s |}.
Definition set_seq (n : Z) (s : Shared) : Shared :=
  {| HASH_TABLE := HASH_TABLE s; OCCUPIED_COUNT := OCCUPIED_COUNT s; APPLY_SEQ := n;
     LEDGER_SHMEM_INSERT_FAILURES := LEDGER_SHMEM_INSERT_FAILURES s;
     LEDGER_DRAIN_CONSECUTIVE_FAILS := LEDGER_DRAIN_CONSECUTIVE_FAILS s;
     LEDGER_DRAIN_TOTAL_FAILURES := LEDGER_DRAIN_TOTAL_FAILURES s;
     account_balances_rollup := account_balances_rollup s |}.
Definition count_insert_failure (s : Shared) : Shared :=
  {| HASH_TABLE := HASH_TABLE s; OCCUPIED_COUNT := OCCUPIED_COUNT s; APPLY_SEQ := APPLY_SEQ s;
     LEDGER_SHMEM_INSERT_FAILURES := as_u64 (LEDGER_SHMEM_INSERT_FAILURES s + 1);
     LEDGER_DRAIN_CONSECUTIVE_FAILS := LEDGER_DRAIN_CONSECUTIVE_FAILS s;
     LEDGER_DRAIN_TOTAL_FAILURES := LEDGER_DRAIN_TOTAL_FAILURES s;
     account_balances_rollup := account_balances_rollup s |}.
Definition set_rollup (m : gmap CellKey RollupRow) (s : Shared) : Shared :=
  {| HASH_TABLE := HASH_TABLE s; OCCUPIED_COUNT := OCCUPIED_COUNT s; APPLY_SEQ := APPLY_SEQ s;
     LEDGER_SHMEM_INSERT_FAILURES := LEDGER_SHMEM_INSERT_FAILURES s;
     LEDGER_DRAIN_CONSECUTIVE_FAILS := LEDGER_DRAIN_CONSECUTIVE_FAILS s;
     LEDGER_DRAIN_TOTAL_FAILURES := LEDGER_DRAIN_TOTAL_FAILURES s;
     account_balances_rollup := m |}.
Definition set_drain_fails (consecutive total : Z) (s : Shared) : Shared :=
  {| HASH_TABLE := HASH_TABLE s; OCCUPIED_COUNT := OCCUPIED_COUNT s; APPLY_SEQ := APPLY_SEQ s;
     LEDGER_SHMEM_INSERT_FAILURES := LEDGER_SHMEM_INSERT_FAILURES s;
     LEDGER_DRAIN_CONSECUTIVE_FAILS := consecutive; LEDGER_DRAIN_TOTAL_FAILURES := total;
     account_balances_rollup := account_balances_rollup s |}.

(** * Cells *)
Definition balance_qty_fetch_add (packed amount_delta qty_delta : Z) : Z :=
  let '(bal, q) := unpack_bal_qty packed in pack_bal_qty (wadd bal amount_delta) (wadd q qty_delta).
Definition next_seq (s : Shared) : Z * Shared :=
  (as_u64 (APPLY_SEQ s + 1), set_seq (as_u64 (APPLY_SEQ s + 1)) s).
Definition bk_apply (amount_delta qty_delta seq : Z) (b : Bucket) : Bucket :=
  {| bk_occupied := bk_occupied b; bk_key_hi := bk_key_hi b; bk_key_lo := bk_key_lo b;
     bk_balance_qty := balance_qty_fetch_add (bk_balance_qty b) amount_delta qty_delta;
     bk_last_seq := Z.max (bk_last_seq b) seq; bk_drained_seq := bk_drained_seq b |}.
Definition try_update_existing (key amount_delta qty_delta : Z) (s : Shared) : option Z * Shared :=
  match probe_table (HASH_TABLE s) key with
  | Hit idx =>
      let '(seq, s) := next_seq s in
      (Some seq, set_table (<[idx := bk_apply amount_delta qty_delta seq (bucket (HASH_TABLE s) idx)]> (HASH_TABLE s)) s)
  | _ => (None, s)
  end.
Definition insert_new_seeded (key : Z) (rollup_seed : option (Z * Z * Z)) (amount_delta qty_delta : Z) (s : Shared)
    : option Z * Shared :=
  let '(init_balance, init_qty, init_drained_seq, s) :=
    match rollup_seed with
    | Some (bal, qty, last_seq) => (wadd bal amount_delta, wadd qty qty_delta, last_seq, set_seq (Z.max (APPLY_SEQ s) last_seq) s)
    | None => (amount_delta, qty_delta, 0, s)
    end in
  match find_vacant (HASH_TABLE s) key with
  | Some idx =>
      let '(seq, s) := next_seq s in
      (Some seq, set_occupied (as_u64 (OCCUPIED_COUNT s + 1)) (set_table (<[idx :=
        {| bk_occupied := 1; bk_key_hi := key_hi key; bk_key_lo := key_lo key;
           bk_balance_qty := pack_bal_qty init_balance init_qty; bk_last_seq := seq;
           bk_drained_seq := init_drained_seq |}]> (HASH_TABLE s)) s))
  | None => (None, s)
  end.
Definition cell_exists (s : Shared) (key : Z) : bool :=
  match probe_table (HASH_TABLE s) key with Hit _ => true | _ => false end.
(** The durable row, or nothing: a failing query counts as no row. *)
Definition lookup_rollup_seed (spi_ok : bool) (s : Shared) (k : CellKey) : option (Z * Z * Z) :=
  if spi_ok then (λ r, (ru_balance r, ru_qty r, as_u64 (ru_last_seq r))) <$> account_balances_rollup s !! k else None.
Definition probe_shmem_pool (s : Shared) (pool_id : Z) : Z * Z :=
  match probe_table (HASH_TABLE s) (pack_key pool_id 1 1 1) with
  | Hit idx => unpack_bal_qty (bk_balance_qty (bucket (HASH_TABLE s) idx))
  | _ => (0, 0)
  end.
Definition ledger_balance_lookup (s : Shared) (account_id period_id currency_id ledger_kind : Z) : option (Z * Z * Z) :=
  match probe_table (HASH_TABLE s) (pack_key account_id period_id currency_id (as_u8 ledger_kind)) with
  | Hit idx => let b := bucket (HASH_TABLE s) idx in Some (unpack_bal_qty (bk_balance_qty b), as_i64 (bk_last_seq b))
  | _ => None
  end.
(** The SQL function [balance]: balance, quantity, sequence number and source. *)
Definition balance (s : Shared) (account_id period_id currency_id ledger_kind : Z) : Z * Z * Z * string :=
  match ledger_balance_lookup s account_id period_id currency_id ledger_kind with
  | Some (b, q, seq) => (b, q, seq, "shmem"%string)
  | None =>
      match account_balances_rollup s !! (account_id, period_id, currency_id, ledger_kind) with
      | Some r => (ru_balance r, ru_qty r, ru_last_seq r, "rollup"%string)
      | None => (0, 0, 0, "none"%string)
      end
  end.

(** * Staging and transactions *)
Definition saturate (z : Z) : Z := Z.max i64_min (Z.min i64_max z).
Definition saturating_add (a b : Z) : Z := saturate (a + b).
Definition saturating_mul (a b : Z) : Z := saturate (a * b).

Definition merged (e entry : PendingEntry) : PendingEntry :=
  {| pe_amount_delta := saturating_add (pe_amount_delta e) (pe_amount_delta entry);
     pe_qty_delta := saturating_add (pe_qty_delta e) (pe_qty_delta entry);
     pe_rollup_seed := (if pe_rollup_seed_captured e then pe_rollup_seed e else pe_rollup_seed entry);
     pe_rollup_seed_captured := pe_rollup_seed_captured e || pe_rollup_seed_captured entry |}.
(** [merge_entry] for every entry of a frame (each key occurs once in it). *)
Definition merge_frame (into frame : Frame) : Frame := union_with (λ e entry, Some (merged e entry)) into frame.
Definition ensure_top_frame (stack : list Frame) : list Frame := match stack with [] => [∅] | _ => stack end.
Definition top_frame (stack : list Frame) : Frame := match stack with f :: _ => f | [] => ∅ end.
Definition set_top (f : Frame) (stack : list Frame) : list Frame := match stack with _ :: fs => f :: fs | [] => [f] end.

Definition stage_apply (spi_ok : bool) (s : Shared) (account_id period_id currency_id ledger_kind amount_delta qty_delta : Z)
    (stack : list Frame) : list Frame :=
  let stack := ensure_top_frame stack in
  let key := pack_key account_id period_id currency_id (as_u8 ledger_kind) in
  match top_frame stack !! key with
  | Some e =>
      set_top (<[key := {| pe_amount_delta := saturating_add (pe_amount_delta e) amount_delta;
                           pe_qty_delta := saturating_add (pe_qty_delta e) qty_delta;
                           pe_rollup_seed := pe_rollup_seed e;
                           pe_rollup_seed_captured := pe_rollup_seed_captured e |}]> (top_frame stack)) stack
  | None =>
      let seed := if cell_exists s key then None
                  else lookup_rollup_seed spi_ok s (account_id, period_id, currency_id, ledger_kind) in
      set_top (<[key := {| pe_amount_delta := amount_delta; pe_qty_delta := qty_delta;
                           pe_rollup_seed := seed; pe_rollup_seed_captured := true |}]> (top_frame stack)) stack
  end.
Definition subxact_start_sub (stack : list Frame) : list Frame := ∅ :: stack.
Definition subxact_commit_sub (stack : list Frame) : list Frame :=
  match stack with
  | [] => [∅]
  | [popped] => [popped]
  | popped :: parent :: rest => merge_frame parent popped :: rest
  end.
Definition subxact_abort_sub (stack : list Frame) : list Frame := match stack with [] | [_] => [∅] | _ :: rest => rest end.
Definition xact_abort (stack : list Frame) : list Frame := [∅].
(** The outermost frame is merged first. *)
Definition drain_pending_stack (stack : list Frame) : Frame := foldr (λ f m, merge_frame m f) ∅ stack.

(** False: the hook raises and the transaction aborts. *)
Definition xact_pre_commit (s : Shared) (stack : list Frame) : bool :=
  let keys := elements (foldr (λ f ks, dom f ∪ ks) (∅ : gset Z) stack) in
  let new_inserts := Z.of_nat (length (List.filter (λ key, negb (cell_exists s key)) keys)) in
  negb ((0 <? new_inserts) && (N_BUCKETS <? OCCUPIED_COUNT s + new_inserts)).

Fixpoint update_pass (entries : list (Z * PendingEntry)) (s : Shared) : list (Z * PendingEntry) * Shared :=
  match entries with
  | [] => ([], s)
  | (key, e) :: entries =>
      let '(r, s) := try_update_existing key (pe_amount_delta e) (pe_qty_delta e) s in
      let '(needs_insert, s) := update_pass entries s in
      (match r with Some _ => needs_insert | None => (key, e) :: needs_insert end, s)
  end.
Definition insert_one (s : Shared) (ke : Z * PendingEntry) : Shared :=
  let '(key, e) := ke in
  match try_update_existing key (pe_amount_delta e) (pe_qty_delta e) s with
  | (Some _, s) => s
  | (None, s) =>
      match insert_new_seeded key (pe_rollup_seed e) (pe_amount_delta e) (pe_qty_delta e) s with
      | (Some _, s) => s
      | (None, s) => count_insert_failure s
      end
  end.
Definition insert_pass (entries : list (Z * PendingEntry)) (s : Shared) : Shared := foldl insert_one s entries.
(** [iter] is the order in which the hash map of entries is walked. *)
Definition xact_commit (iter : Frame → list (Z * PendingEntry)) (stack : list Frame) (s : Shared) : Shared * list Frame :=
  let '(needs_insert, s) := update_pass (iter (drain_pending_stack stack)) s in
  (insert_pass needs_insert s, [∅]).

(** * The drain worker *)
Record DirtyCell := { dc_cell : CellKey; dc_balance : Z; dc_qty : Z; dc_last : Z; dc_key : Z }.
Definition dirty_cell (t : gmap Z Bucket) (i : Z) : option DirtyCell :=
  let b := bucket t i in
  if (bk_occupied b =? 0) || (bk_last_seq b <=? bk_drained_seq b) then None
  else
    let key := Z.lor (Z.shiftl (bk_key_hi b) 64) (bk_key_lo b) in
    Some {| dc_cell := unpack_key key; dc_balance := (unpack_bal_qty (bk_balance_qty b)).1;
            dc_qty := (unpack_bal_qty (bk_balance_qty b)).2; dc_last := bk_last_seq b; dc_key := key |}.
Definition dirty_cells (t : gmap Z Bucket) : list DirtyCell := omap (dirty_cell t) (seqZ 0 N_BUCKETS).
(** INSERT ... ON CONFLICT DO UPDATE ... WHERE last_seq < EXCLUDED.last_seq. *)
Definition upsert_rollup (d : DirtyCell) (m : gmap CellKey RollupRow) : gmap CellKey RollupRow :=
  let row := {| ru_balance := dc_balance d; ru_qty := dc_qty d; ru_last_seq := as_i64 (dc_last d) |} in
  match m !! dc_cell d with
  | None => <[dc_cell d := row]> m
  | Some r => if ru_last_seq r <? as_i64 (dc_last d) then <[dc_cell d := row]> m else m
  end.
Definition bk_stamp (last_seq : Z) (b : Bucket) : Bucket :=
  {| bk_occupied := bk_occupied b; bk_key_hi := bk_key_hi b; bk_key_lo := bk_key_lo b;
     bk_balance_qty := bk_balance_qty b; bk_last_seq := bk_last_seq b;
     bk_drained_seq := Z.max (bk_drained_seq b) last_seq |}.
Definition stamp_drained (t : gmap Z Bucket) (key last_seq : Z) : gmap Z Bucket :=
  match probe_table t key with Hit idx => <[idx := bk_stamp last_seq (bucket t idx)]> t | _ => t end.
(** [spi_ok] tells which upserts go through. *)
Definition do_drain_tick (spi_ok : CellKey → bool) (s : Shared) : Shared :=
  match dirty_cells (HASH_TABLE s) with
  | [] => s
  | dirty =>
      let succeeded := List.filter (λ d, spi_ok (dc_cell d)) dirty in
      let failed := Z.of_nat (length dirty) - Z.of_nat (length succeeded) in
      let s := set_rollup (foldl (λ m d, upsert_rollup d m) (account_balances_rollup s) succeeded) s in
      let s := set_table (foldl (λ t d, stamp_drained t (dc_key d) (dc_last d)) (HASH_TABLE s) succeeded) s in
      if 0 <? failed
      then set_drain_fails (as_u64 (LEDGER_DRAIN_CONSECUTIVE_FAILS s + 1)) (as_u64 (LEDGER_DRAIN_TOTAL_FAILURES s + failed)) s
      else set_drain_fails 0 (LEDGER_DRAIN_TOTAL_FAILURES s) s
  end.
Definition ledger_shmem_reset (s : Shared) : Shared :=
  {| HASH_TABLE := ∅; OCCUPIED_COUNT := 0; APPLY_SEQ := 0; LEDGER_SHMEM_INSERT_FAILURES := 0;
     LEDGER_DRAIN_CONSECUTIVE_FAILS := 0; LEDGER_DRAIN_TOTAL_FAILURES := 0;
     account_balances_rollup := account_balances_rollup s |}.

(** * Cells and their values *)
Definition valid_cell (k : CellKey) : Prop :=
  let '(a, p, c, l) := k in in_i64 a ∧ in_i32 p ∧ in_i16 c ∧ 0 ≤ l < 2 ^ 8.
Definition pack_cell (k : CellKey) : Z := let '(a, p, c, l) := k in pack_key a p c l.
Definition valid_key (key : Z) : Prop := ∃ k, valid_cell k ∧ key = pack_cell k.
Definition add2 (x y : Z * Z) : Z * Z := (wadd x.1 y.1, wadd x.2 y.2).
Definition in2 (x : Z * Z) : Prop := in_i64 x.1 ∧ in_i64 x.2.

(** What a cell is worth: its bucket, or its durable row when it has none. *)
Definition cell_value (s : Shared) (key : Z) : Z * Z :=
  match probe_table (HASH_TABLE s) key with
  | Hit i => unpack_bal_qty (bk_balance_qty (bucket (HASH_TABLE s) i))
  | _ => from_option (λ r, (ru_balance r, ru_qty r)) (0, 0) (account_balances_rollup s !! unpack_key key)
  end.
Definition seed_of (s : Shared) (key : Z) : option (Z * Z * Z) := lookup_rollup_seed true s (unpack_key key).
Record shared_ok (s : Shared) : Prop := {
  so_table : table_wf (HASH_TABLE s);
  so_keys : ∀ i, occupied (HASH_TABLE s) i → ∃ key, valid_key key ∧ holds_key (HASH_TABLE s) key i;
  so_values : ∀ i, occupied (HASH_TABLE s) i → ∃ v, in2 v ∧ bk_balance_qty (bucket (HASH_TABLE s) i) = pack_bal_qty v.1 v.2;
  so_count : OCCUPIED_COUNT s = occupied_count (HASH_TABLE s);
  so_rollup : map_Forall (λ _ r, in2 (ru_balance r, ru_qty r)) (account_balances_rollup s);
}.

Lemma unpack_pack_cell k : valid_cell k → unpack_key (pack_cell k) = k.
Proof. destruct k as [[[a p] c] l]. intros (? & ? & ? & ?). by apply unpack_pack_key. Qed.
Lemma valid_key_range key : valid_key key → 0 ≤ key < 2 ^ 128.
Proof. intros ([[[a p] c] l] & (_ & _ & _ & H) & ->). by apply pack_key_range. Qed.
Lemma valid_same_key k k' : valid_key k → valid_key k' → same_key k k' → k = k'.
Proof. intros. apply same_key_eq; [by apply valid_key_range..|done]. Qed.
Lemma add2_in x y : in2 (add2 x y).
Proof. split; apply wrap_i64_range. Qed.
Lemma unpack_pack v : in2 v → unpack_bal_qty (pack_bal_qty v.1 v.2) = v.
Proof. intros [? ?]. rewrite unpack_pack_bal_qty by done. by destruct v. Qed.
Lemma cell_exists_spec s key : cell_exists s key = true ↔ ∃ i, probe_table (HASH_TABLE s) key = Hit i.
Proof. unfold cell_exists. destruct (probe_table _ _); split; try done; [eauto|by intros [? ?]..]. Qed.
Lemma cell_exists_false s key : cell_exists s key = false ↔ ∀ i, probe_table (HASH_TABLE s) key ≠ Hit i.
Proof. unfold cell_exists. destruct (probe_table _ _); split; try done. intros H. by destruct (H idx). Qed.
Lemma cell_value_in s key : shared_ok s → in2 (cell_value s key).
Proof.
  intros Hs. unfold cell_value. destruct (probe_table _ key) as [i| |] eqn:E.
  - apply probe_Hit in E as [[Ho _] _]. destruct (so_values _ Hs i Ho) as (v & Hv & ->). by rewrite unpack_pack.
  - destruct (account_balances_rollup s !! _) as [r|] eqn:Hr; [by apply (so_rollup _ Hs) in Hr|]. split; done.
  - destruct (account_balances_rollup s !! _) as [r|] eqn:Hr; [by apply (so_rollup _ Hs) in Hr|]. split; done.
Qed.

(** One delta applied: the cell moves by it, no other cell changes, and the cell is
    in the table from now on. *)
Record applied (key : Z) (δ : Z * Z) (s s' : Shared) : Prop := {
  ap_ok : shared_ok s';
  ap_rollup : account_balances_rollup s' = account_balances_rollup s;
  ap_value : ∀ k, valid_key k → cell_value s' k = if decide (k = key) then add2 (cell_value s k) δ else cell_value s k;
  ap_exists : ∀ k, valid_key k → cell_exists s' k = cell_exists s k || bool_decide (k = key);
}.

Lemma bk_apply_value v δ packed :
  in2 v → packed = pack_bal_qty v.1 v.2 →
  balance_qty_fetch_add packed δ.1 δ.2 = pack_bal_qty (add2 v δ).1 (add2 v δ).2.
Proof. intros Hv ->. unfold balance_qty_fetch_add. rewrite unpack_pack by done. by destruct v. Qed.

Lemma try_update_applied key δ s :
  shared_ok s → valid_key key → cell_exists s key = true →
  ∃ seq s', try_update_existing key δ.1 δ.2 s = (Some seq, s') ∧ applied key δ s s'.
Proof.
  intros Hs Hkey [i Hi]%cell_exists_spec. unfold try_update_existing. rewrite Hi. cbn.
  set (seq := as_u64 _). set (b := bk_apply _ _ _ _). eexists _, _. split; [done|].
  pose proof (probe_Hit _ _ _ Hi) as [[Ho Hat] Hr]. destruct (so_values _ Hs i Ho) as (v & Hv & Hp).
  assert (bk_balance_qty b = pack_bal_qty (add2 v δ).1 (add2 v δ).2) as Hbv by (by apply bk_apply_value).
  assert (sl_occupied b ≠ 0) as Hb by exact Ho. assert (∀ k, at_key b k = at_key (bucket (HASH_TABLE s) i) k) as Hk by done.
  assert (∀ k j, probe_table (<[i:=b]> (HASH_TABLE s)) k = Hit j ↔ probe_table (HASH_TABLE s) k = Hit j) as Hprobe.
  { intros k j. apply update_key_probe; [apply Hs|done..]. }
  assert (∀ j, occupied (<[i:=b]> (HASH_TABLE s)) j ↔ occupied (HASH_TABLE s) j) as Hocc.
  { intros j. unfold occupied. destruct (decide (j = i)) as [->|]; [by rewrite bucket_insert|by rewrite bucket_insert_ne]. }
  split; cbn.
  - split; cbn; [by apply update_wf; [apply Hs|..]| | | |apply Hs].
    + intros j Hj%Hocc. destruct (so_keys _ Hs j Hj) as (k & Hvk & Hh). exists k. split; [done|].
      apply probe_Hit, Hprobe, probe_holds; [apply Hs|done].
    + intros j Hj%Hocc. destruct (decide (j = i)) as [->|Hne].
      * rewrite bucket_insert. exists (add2 v δ). split; [apply add2_in|done].
      * rewrite bucket_insert_ne by congruence. by apply Hs.
    + rewrite occupied_count_update by done. apply Hs.
  - done.
  - intros k Hvk. unfold cell_value. cbn. case_decide as Heq.
    + subst k. rewrite (proj2 (Hprobe key i) Hi), Hi, bucket_insert, Hbv, Hp, !unpack_pack by (done || apply add2_in). done.
    + destruct (probe_table (HASH_TABLE s) k) as [j|j|] eqn:Ek.
      * rewrite (proj2 (Hprobe k j) Ek). rewrite bucket_insert_ne; [done|]. intros <-.
        apply probe_Hit in Ek as [[_ Hatk] _]. apply Heq. apply valid_same_key; [done..|]. by eapply at_key_two.
      * destruct (probe_table (<[i:=b]> _) k) as [j'| |] eqn:E'; [|done|done]. apply Hprobe in E'. congruence.
      * destruct (probe_table (<[i:=b]> _) k) as [j'| |] eqn:E'; [|done|done]. apply Hprobe in E'. congruence.
  - intros k Hvk. destruct (cell_exists s k) eqn:Ek.
    + apply cell_exists_spec in Ek as [j Hj]. cbn. apply cell_exists_spec. exists j. cbn. by apply Hprobe.
    + cbn. case_bool_decide as Heq.
      * subst k. rewrite (proj2 (cell_exists_spec s key)) in Ek; [done|by eexists].
      * apply cell_exists_false. intros j Hj%Hprobe. rewrite cell_exists_false in Ek. by apply (Ek j).
Qed.

Lemma wadd_0_l x : in_i64 x → wadd 0 x = x.
Proof. intros. unfold wadd. rewrite Z.add_0_l. by apply wrap_i64_id. Qed.
(** The bucket written for a new cell. *)
Lemma fresh_applied key δ s s' i b :
  shared_ok s → valid_key key → probe_table (HASH_TABLE s) key = Vacant i →
  bk_occupied b = 1 → bk_key_hi b = key_hi key → bk_key_lo b = key_lo key →
  bk_balance_qty b = pack_bal_qty (add2 (cell_value s key) δ).1 (add2 (cell_value s key) δ).2 →
  HASH_TABLE s' = <[i := b]> (HASH_TABLE s) → OCCUPIED_COUNT s' = OCCUPIED_COUNT s + 1 →
  account_balances_rollup s' = account_balances_rollup s → applied key δ s s'.
Proof.
  intros Hs Hkey Hi Ho Hhi Hlo Hv Ht Hc Hr. pose proof (so_table _ Hs) as Hwf. pose proof (probe_Vacant _ _ _ Hi) as [Hni Hrange].
  assert (sl_occupied b ≠ 0) as Hb by (cbn; lia). assert (at_key b key = true) as Hat by (apply at_key_true; done).
  pose proof (insert_key_wf _ _ _ _ Hwf Hi Hb Hat) as Hwf'.
  assert (∀ k, valid_key k → k ≠ key → ∀ j, probe_table (<[i:=b]> (HASH_TABLE s)) k = Hit j ↔ probe_table (HASH_TABLE s) k = Hit j) as Hother.
  { intros k Hk Hne. eapply insert_key_probe; [done..|]. intros Hsame. apply Hne. by apply valid_same_key. }
  assert (probe_table (<[i:=b]> (HASH_TABLE s)) key = Hit i) as Hhit.
  { destruct (insert_key_probe _ _ _ _ key Hwf Hi Hb Hat) as [H _]. apply H. by split. }
  assert (∀ j, occupied (<[i:=b]> (HASH_TABLE s)) j → j ≠ i → occupied (HASH_TABLE s) j) as Hocc.
  { intros j Hj Hne. unfold occupied in *. by rewrite bucket_insert_ne in Hj by congruence. }
  split; rewrite ?Ht.
  - split; rewrite ?Ht, ?Hr; [done| | |rewrite occupied_count_insert by done; rewrite Hc; f_equal; apply Hs|apply Hs].
    + intros j Hj. destruct (decide (j = i)) as [->|Hne]; [exists key; split; [done|]; by apply probe_Hit|].
      destruct (so_keys _ Hs j (Hocc j Hj Hne)) as (k & Hk & [_ Hat']). exists k. split; [done|]. split; [done|].
      by rewrite bucket_insert_ne by congruence.
    + intros j Hj. destruct (decide (j = i)) as [->|Hne].
      * rewrite bucket_insert. eexists. split; [|exact Hv]. apply add2_in.
      * rewrite bucket_insert_ne by congruence. by apply (so_values _ Hs), Hocc.
  - done.
  - intros k Hk. case_decide as Heq.
    + subst k. unfold cell_value at 1. rewrite Ht, Hhit, bucket_insert, Hv. apply unpack_pack, add2_in.
    + unfold cell_value. rewrite Ht, Hr. destruct (probe_table (HASH_TABLE s) k) as [j| |] eqn:Ek.
      * rewrite (proj2 (Hother k Hk Heq j) Ek). rewrite bucket_insert_ne; [done|]. intros <-.
        by apply probe_Hit in Ek as [[? _] _].
      * destruct (probe_table (<[i:=b]> _) k) as [j'| |] eqn:E'; [|done|done]. apply Hother in E'; [congruence|done..].
      * destruct (probe_table (<[i:=b]> _) k) as [j'| |] eqn:E'; [|done|done]. apply Hother in E'; [congruence|done..].
  - intros k Hk. unfold cell_exists. rewrite Ht. case_bool_decide as Heq.
    + subst k. rewrite Hhit. by rewrite orb_true_r.
    + rewrite orb_false_r. destruct (probe_table (HASH_TABLE s) k) as [j| |] eqn:Ek.
      * by rewrite (proj2 (Hother k Hk Heq j) Ek).
      * destruct (probe_table (<[i:=b]> _) k) as [j'| |] eqn:E'; [|done|done]. apply Hother in E'; [congruence|done..].
      * destruct (probe_table (<[i:=b]> _) k) as [j'| |] eqn:E'; [|done|done]. apply Hother in E'; [congruence|done..].
Qed.
Lemma occupied_count_u64 s : shared_ok s → as_u64 (OCCUPIED_COUNT s + 1) = OCCUPIED_COUNT s + 1.
Proof.
  intros Hs. pose proof (occupied_count_le (HASH_TABLE s)) as Hle. unfold as_u64. apply Z.mod_small.
  rewrite (so_count _ Hs). pose proof (occupied_count_pos (HASH_TABLE s)) as Hpos. unfold N_BUCKETS in Hle.
  revert Hle Hpos. generalize (occupied_count (HASH_TABLE s)). clear. lia.
Qed.
Lemma insert_new_applied key δ s i :
  shared_ok s → valid_key key → in2 δ → probe_table (HASH_TABLE s) key = Vacant i →
  ∃ seq s', insert_new_seeded key (seed_of s key) δ.1 δ.2 s = (Some seq, s') ∧ applied key δ s s' ∧
            OCCUPIED_COUNT s' = OCCUPIED_COUNT s + 1.
Proof.
  intros Hs Hkey Hδ Ep. pose proof (occupied_count_u64 s Hs) as Hu.
  assert (find_vacant (HASH_TABLE s) key = Some i) as Hf by (rewrite find_vacant_probe by congruence; by rewrite Ep).
  unfold insert_new_seeded, seed_of, lookup_rollup_seed.
  destruct (account_balances_rollup s !! unpack_key key) as [r|] eqn:Hr; cbn.
  - rewrite Hf. cbn. eexists _, _. split; [done|]. cbn. rewrite Hu. split; [|done].
    eapply (fresh_applied key δ s _ i _ Hs Hkey Ep); cycle 4; [reflexivity|cbn; by rewrite ?Hu|done..|].
    cbn. unfold cell_value. rewrite Ep, Hr. done.
  - rewrite Hf. cbn. eexists _, _. split; [done|]. cbn. rewrite Hu. split; [|done].
    eapply (fresh_applied key δ s _ i _ Hs Hkey Ep); cycle 4; [reflexivity|cbn; by rewrite ?Hu|done..|].
    cbn. unfold cell_value. rewrite Ep, Hr. cbn. destruct Hδ. by rewrite !wadd_0_l.
Qed.
(** A full table takes no new cell, and only the sequence counter moves. *)
Lemma insert_new_full key seed a q s :
  probe_table (HASH_TABLE s) key = Full → ∃ n, insert_new_seeded key seed a q s = (None, set_seq n s).
Proof.
  intros E. assert (find_vacant (HASH_TABLE s) key = None) as Hf by (rewrite find_vacant_probe by congruence; by rewrite E).
  unfold insert_new_seeded. destruct seed as [[[? ?] ?]|]; cbn; rewrite Hf; [by eexists|]. exists (APPLY_SEQ s). by destruct s.
Qed.
Lemma elem_of_dirty_cells t d : d ∈ dirty_cells t ↔ ∃ i, 0 ≤ i < N_BUCKETS ∧ dirty_cell t i = Some d.
Proof.
  unfold dirty_cells. rewrite list_elem_of_omap. split; intros (i & Hi & Hd); exists i; (split; [|done]).
  - apply elem_of_seqZ in Hi. revert Hi. clear. generalize N_BUCKETS. lia.
  - apply elem_of_seqZ. revert Hi. clear. generalize N_BUCKETS. lia.
Qed.
Lemma NoDup_omap_by {A B K} (f : A → option B) (g : B → K) l :
  NoDup l → (∀ i j x y, f i = Some x → f j = Some y → g x = g y → i = j) → NoDup (g <$> omap f l).
Proof.
  intros Hnd Hinj. induction l as [|i l IH]; [constructor|]. apply NoDup_cons in Hnd as [Hi Hnd]. cbn.
  destruct (f i) as [x|] eqn:E; [|by apply IH]. cbn. apply NoDup_cons. split; [|by apply IH].
  intros (y & Hy & (j & Hj & E')%list_elem_of_omap)%list_elem_of_fmap. apply Hi. by rewrite (Hinj i j x y).
Qed.
Lemma NoDup_dirty_cells {K} (g : DirtyCell → K) t :
  (∀ i j x y, dirty_cell t i = Some x → dirty_cell t j = Some y → g x = g y → i = j) → NoDup (g <$> dirty_cells t).
Proof. apply NoDup_omap_by, NoDup_seqZ. Qed.
#[global] Opaque dirty_cells.
