(* ===== verification/ExtNested.v ===== *)
(** The balance rollup against its specification: nested transactions on a plain
    map of balances.  Staging, subtransactions, commits, aborts and drains of any
    number of backends, in any order, show the balances the specification has. *)
From S2P Require Import Prelude ExtTable ExtBalance.

(** * A commit *)
Definition delta (e : PendingEntry) : Z * Z := (pe_amount_delta e, pe_qty_delta e).
(** An entry staged for a cell that is not in the table carries its durable row. *)
Definition entry_ok (s : Shared) (key : Z) (e : PendingEntry) : Prop :=
  valid_key key ∧ in2 (delta e) ∧ pe_rollup_seed_captured e = true ∧
  (cell_exists s key = false → pe_rollup_seed e = seed_of s key).
Definition entries_ok (s : Shared) (l : list (Z * PendingEntry)) : Prop :=
  NoDup l.*1 ∧ ∀ key e, (key, e) ∈ l → entry_ok s key e.
(** Every cell moves by its entry. *)
Record moved (l : list (Z * PendingEntry)) (s s' : Shared) : Prop := {
  mv_ok : shared_ok s';
  mv_rollup : account_balances_rollup s' = account_balances_rollup s;
  mv_in : ∀ key e, valid_key key → (key, e) ∈ l → cell_value s' key = add2 (cell_value s key) (delta e);
  mv_out : ∀ key, valid_key key → key ∉ l.*1 → cell_value s' key = cell_value s key;
  mv_exists : ∀ key, valid_key key → cell_exists s' key = cell_exists s key || bool_decide (key ∈ l.*1);
}.

Lemma fst_elem {A} (l : list (Z * A)) key e : (key, e) ∈ l → key ∈ l.*1.
Proof. intros H. change key with (key, e).1. by apply list_elem_of_fmap_2. Qed.
Lemma moved_nil s : shared_ok s → moved [] s s.
Proof.
  intros Hs. split; try done; [by intros ? ? _ ?%elem_of_nil|]. intros key _.
  rewrite bool_decide_eq_false_2 by apply not_elem_of_nil. by rewrite orb_false_r.
Qed.
Lemma moved_cons key e l s s1 s' :
  valid_key key → key ∉ l.*1 → applied key (delta e) s s1 → moved l s1 s' → moved ((key, e) :: l) s s'.
Proof.
  intros Hv Hn [A1 A2 A3 A4] [M1 M2 M4 M5 M6]. split; [done|congruence|..].
  - intros k e' Hk [[= -> ->]|Hin]%elem_of_cons.
    + rewrite M5, A3 by done. by rewrite decide_True.
    + rewrite (M4 k e') by done. rewrite A3 by done. rewrite decide_False; [done|].
      intros ->. by apply Hn, (fst_elem _ _ e').
  - intros k Hk [Hne Hin]%not_elem_of_cons. rewrite M5, A3 by done. by rewrite decide_False.
  - intros k Hk. rewrite M6, A4 by done. destruct (cell_exists s k); [done|]. cbn.
    destruct (decide (k = key)) as [->|Hne].
    + rewrite (bool_decide_eq_true_2 (key = key)), (bool_decide_eq_true_2 (key ∈ key :: l.*1)) by (done || by left). done.
    + rewrite (bool_decide_eq_false_2 (k = key)) by done. cbn. apply bool_decide_ext. rewrite elem_of_cons. naive_solver.
Qed.

Lemma try_update_frame key a q s r s' :
  try_update_existing key a q s = (r, s') →
  OCCUPIED_COUNT s' = OCCUPIED_COUNT s ∧ LEDGER_SHMEM_INSERT_FAILURES s' = LEDGER_SHMEM_INSERT_FAILURES s.
Proof. unfold try_update_existing. destruct (probe_table _ _); intros [= <- <-]; done. Qed.
Lemma try_update_absent key a q s : cell_exists s key = false → try_update_existing key a q s = (None, s).
Proof. unfold cell_exists, try_update_existing. by destruct (probe_table _ _). Qed.

Lemma update_pass_spec l s :
  shared_ok s → entries_ok s l →
  ∃ s1, update_pass l s = (List.filter (λ ke : Z * PendingEntry, negb (cell_exists s ke.1)) l, s1) ∧ OCCUPIED_COUNT s1 = OCCUPIED_COUNT s ∧
        LEDGER_SHMEM_INSERT_FAILURES s1 = LEDGER_SHMEM_INSERT_FAILURES s ∧
        moved (List.filter (λ ke, cell_exists s ke.1) l) s s1.
Proof.
  revert s. induction l as [|[key e] l IH]; intros s Hs [Hnd Hl]; cbn [update_pass List.filter].
  { exists s. split_and!; [done..|by apply moved_nil]. }
  cbn in Hnd. apply NoDup_cons in Hnd as [Hn Hnd]. destruct (Hl key e ltac:(by left)) as (Hv & Hδ & _ & _).
  cbn [fst]. destruct (cell_exists s key) eqn:Hex; cbn [negb].
  - destruct (try_update_applied key (delta e) s Hs Hv Hex) as (seq & s1 & Hrun & Happ). cbn in Hrun. rewrite Hrun.
    pose proof (try_update_frame _ _ _ _ _ _ Hrun) as [Hocc Hfail].
    assert (∀ k e', (k, e') ∈ l → cell_exists s1 k = cell_exists s k) as Hsame.
    { intros k e' Hin. destruct (Hl k e' ltac:(by right)) as (Hvk & _). rewrite (ap_exists _ _ _ _ Happ) by done.
      rewrite bool_decide_eq_false_2; [by rewrite orb_false_r|]. intros ->. by apply Hn, (fst_elem _ _ e'). }
    destruct (IH s1 (ap_ok _ _ _ _ Happ)) as (s2 & Hrun2 & Hocc2 & Hfail2 & Hmv).
    { split; [done|]. intros k e' Hin. destruct (Hl k e' ltac:(by right)) as (Hvk & Hd & Hc & Hseed). split_and!; [done..|].
      rewrite (Hsame _ _ Hin). intros Ha. unfold seed_of, lookup_rollup_seed. rewrite (ap_rollup _ _ _ _ Happ). by apply Hseed. }
    rewrite Hrun2. exists s2. split_and!; [|congruence..|].
    + f_equal. apply List.filter_ext_in. intros [k e'] Hin%list_elem_of_In. cbn. by rewrite (Hsame _ _ Hin).
    + eapply moved_cons; [done| |done|].
      * intros ([k e'] & -> & Hin)%list_elem_of_fmap. apply list_elem_of_In, List.filter_In in Hin as [Hin _].
        apply Hn. eapply (fst_elem _ _ e'). by apply list_elem_of_In.
      * erewrite List.filter_ext_in; [exact Hmv|]. intros [k e'] Hin%list_elem_of_In. cbn. by rewrite (Hsame _ _ Hin).
  - rewrite try_update_absent by done. destruct (IH s Hs) as (s2 & Hrun2 & Hocc2 & Hfail2 & Hmv).
    { split; [done|]. intros k e' Hin. apply Hl. by right. }
    rewrite Hrun2. exists s2. done.
Qed.

Lemma moved_app l l1 l2 s s1 s2 :
  moved l1 s s1 → moved l2 s1 s2 → l ≡ₚ l1 ++ l2 → NoDup l.*1 → moved l s s2.
Proof.
  intros [A1 A2 A4 A5 A6] [M1 M2 M4 M5 M6] Hp Hnd. rewrite Hp, fmap_app in Hnd. apply NoDup_app in Hnd as (_ & Hdis & _).
  split; [done|congruence|..].
  - intros k e Hk. rewrite Hp, elem_of_app. intros [Hin|Hin].
    + rewrite M5 by (done || by apply Hdis, (fst_elem _ _ e)). by apply A4.
    + rewrite (M4 k e) by done. rewrite A5; [done..|]. intros Hin1. by apply (Hdis k Hin1), (fst_elem _ _ e).
  - intros k Hk. rewrite Hp, fmap_app, not_elem_of_app. intros [H1 H2]. by rewrite M5, A5.
  - intros k Hk. rewrite M6, A6 by done. rewrite <-orb_assoc. f_equal.
    rewrite <-bool_decide_or. apply bool_decide_ext. by rewrite Hp, fmap_app, elem_of_app.
Qed.
Lemma entries_ok_cons s s1 key e l :
  entries_ok s ((key, e) :: l) → account_balances_rollup s1 = account_balances_rollup s →
  (∀ k, valid_key k → k ≠ key → cell_exists s1 k = cell_exists s k) → entries_ok s1 l.
Proof.
  intros [Hnd Hl] Hr Hsame. cbn in Hnd. apply NoDup_cons in Hnd as [Hn Hnd]. split; [done|]. intros k e' Hin.
  destruct (Hl k e' ltac:(by right)) as (Hvk & Hd & Hc & Hseed). split_and!; [done..|].
  rewrite Hsame; [|done|]. 2: { intros ->. by apply Hn, (fst_elem _ _ e'). }
  intros Ha. unfold seed_of, lookup_rollup_seed. rewrite Hr. by apply Hseed.
Qed.
(** Only the counters differ. *)
Lemma same_table_moved s s' :
  shared_ok s → HASH_TABLE s' = HASH_TABLE s → OCCUPIED_COUNT s' = OCCUPIED_COUNT s →
  account_balances_rollup s' = account_balances_rollup s → moved [] s s'.
Proof.
  intros Hs Ht Hc Hr. split; [|done|by intros ? ? _ ?%elem_of_nil|..].
  - split; rewrite ?Ht, ?Hc, ?Hr; apply Hs.
  - intros key _ _. unfold cell_value. by rewrite Ht, Hr.
  - intros key _. unfold cell_exists. rewrite Ht, bool_decide_eq_false_2 by apply not_elem_of_nil. by rewrite orb_false_r.
Qed.
(** The entries that found room are applied and the others are counted. *)
Record inserts (l : list (Z * PendingEntry)) (n : Z) (s s' : Shared) (applied_l lost : list (Z * PendingEntry)) : Prop := {
  is_split : l ≡ₚ applied_l ++ lost;
  is_moved : moved applied_l s s';
  is_lost : LEDGER_SHMEM_INSERT_FAILURES s' = as_u64 (n + Z.of_nat (length lost));
  is_room : OCCUPIED_COUNT s + Z.of_nat (length l) ≤ N_BUCKETS → lost = [];
}.
Lemma insert_new_failures key seed a q s r s' :
  insert_new_seeded key seed a q s = (r, s') → LEDGER_SHMEM_INSERT_FAILURES s' = LEDGER_SHMEM_INSERT_FAILURES s.
Proof. unfold insert_new_seeded. destruct seed as [[[? ?] ?]|]; destruct (find_vacant _ key); by intros [= _ <-]. Qed.
Lemma insert_full_room s key : shared_ok s → probe_table (HASH_TABLE s) key = Full → N_BUCKETS ≤ OCCUPIED_COUNT s.
Proof.
  intros Hs E. rewrite (so_count _ Hs). apply Z.nlt_ge. intros Hlt. by apply (probe_not_full _ key) in Hlt.
Qed.
Lemma as_u64_succ n m : as_u64 (as_u64 n + m) = as_u64 (n + m).
Proof. apply Zplus_mod_idemp_l. Qed.
Lemma insert_pass_spec l n s :
  shared_ok s → entries_ok s l → (∀ ke, ke ∈ l → cell_exists s ke.1 = false) →
  LEDGER_SHMEM_INSERT_FAILURES s = as_u64 n → ∃ applied_l lost, inserts l n s (insert_pass l s) applied_l lost.
Proof.
  revert n s. unfold insert_pass. induction l as [|[key e] l IH]; intros n s Hs Hl Habs Hn.
  { exists [], []. split; [done|by apply moved_nil|by rewrite Z.add_0_r|done]. }
  cbn [foldl length]. pose proof Hl as [Hnd Hall]. cbn in Hnd. apply NoDup_cons in Hnd as [Hnin Hnd].
  destruct (Hall key e ltac:(by left)) as (Hv & Hδ & _ & Hseed).
  assert (cell_exists s key = false) as Hno by (apply (Habs (key, e)); by left).
  assert (∀ ke, ke ∈ l → valid_key ke.1 ∧ ke.1 ≠ key) as Hkeys.
  { intros [k e'] Hin. destruct (Hall k e' ltac:(by right)) as (Hvk & _). split; [done|]. cbn. intros ->. by apply Hnin, (fst_elem _ _ e'). }
  pose proof (proj1 (cell_exists_false s key) Hno) as Hmiss. destruct (probe_table (HASH_TABLE s) key) as [j|i|] eqn:Ep.
  - by destruct (Hmiss j).
  - destruct (insert_new_applied key (delta e) s i Hs Hv Hδ Ep) as (seq & s1 & Hrun & Happ & Hocc).
    assert (insert_one s (key, e) = s1) as ->.
    { unfold insert_one. rewrite try_update_absent by done. rewrite (Hseed Hno).
      change (pe_amount_delta e) with (delta e).1. change (pe_qty_delta e) with (delta e).2. by rewrite Hrun. }
    assert (∀ k, valid_key k → k ≠ key → cell_exists s1 k = cell_exists s k) as Hsame.
    { intros k Hk Hne. rewrite (ap_exists _ _ _ _ Happ) by done. rewrite bool_decide_eq_false_2 by done. by rewrite orb_false_r. }
    destruct (IH n s1) as (al & lost & [I1 I2 I3 I4]).
    + apply Happ.
    + eapply entries_ok_cons; [exact Hl|apply Happ|done].
    + intros ke Hin. destruct (Hkeys ke Hin). rewrite Hsame by done. apply Habs. by right.
    + rewrite (insert_new_failures _ _ _ _ _ _ _ Hrun). done.
    + exists ((key, e) :: al), lost. split; [by rewrite I1|..|done|].
      * eapply moved_cons; [done| |done|done]. intros Hin. apply Hnin. rewrite I1, fmap_app. by apply elem_of_app; left.
      * intros Hroom. apply I4. rewrite Hocc. cbn [length] in Hroom. lia.
  - destruct (insert_new_full key (pe_rollup_seed e) (pe_amount_delta e) (pe_qty_delta e) s Ep) as (m & Hrun).
    assert (insert_one s (key, e) = count_insert_failure (set_seq m s)) as ->.
    { unfold insert_one. rewrite try_update_absent by done. by rewrite Hrun. }
    set (s1 := count_insert_failure (set_seq m s)). pose proof (same_table_moved s s1 Hs eq_refl eq_refl eq_refl) as Hmv.
    destruct (IH (n + 1) s1) as (al & lost & [I1 I2 I3 I4]).
    + apply Hmv.
    + eapply entries_ok_cons; [exact Hl|done|done].
    + intros ke Hin. apply (Habs ke). by right.
    + cbn. by rewrite Hn, as_u64_succ.
    + exists al, ((key, e) :: lost). split.
      * rewrite I1. apply Permutation_middle.
      * apply (moved_app al [] al s s1); [done..|]. rewrite I1, fmap_app in Hnd. by apply NoDup_app in Hnd as (? & _).
      * rewrite I3. f_equal. cbn [length]. lia.
      * intros Hroom. pose proof (insert_full_room s key Hs Ep). cbn [length] in Hroom. lia.
Qed.

Lemma filter_split_perm {A} (f : A → bool) l : l ≡ₚ List.filter f l ++ List.filter (λ x, negb (f x)) l.
Proof.
  induction l as [|a l IH]; [done|]. cbn. destruct (f a); cbn; [by constructor|]. rewrite <-Permutation_middle. by constructor.
Qed.

Definition fits (l : list (Z * PendingEntry)) (s : Shared) : Prop :=
  let fresh := List.filter (λ ke : Z * PendingEntry, negb (cell_exists s ke.1)) l in
  OCCUPIED_COUNT s + Z.of_nat (length fresh) ≤ N_BUCKETS.
(** What the first pass leaves for the second. *)
Lemma update_pass_fresh l s :
  shared_ok s → entries_ok s l →
  shared_ok (update_pass l s).2 ∧ entries_ok (update_pass l s).2 (update_pass l s).1 ∧
  (∀ ke, ke ∈ (update_pass l s).1 → cell_exists (update_pass l s).2 ke.1 = false).
Proof.
  intros Hs [Hnd Hl]. destruct (update_pass_spec l s Hs (conj Hnd Hl)) as (s1 & -> & _ & _ & Hmv). cbn [fst snd].
  set (fresh := List.filter _ l). set (old := List.filter (λ ke : Z * PendingEntry, cell_exists s ke.1) l) in *.
  assert (l ≡ₚ old ++ fresh) as Hp by exact (filter_split_perm (λ ke, cell_exists s ke.1) l).
  assert (∀ k e, (k, e) ∈ fresh → (k, e) ∈ l ∧ cell_exists s k = false) as Habs.
  { intros k e [Hin Ha]%list_elem_of_In%List.filter_In. split; [by apply list_elem_of_In|].
    cbn [fst] in Ha. by destruct (cell_exists s k). }
  rewrite Hp, fmap_app in Hnd. apply NoDup_app in Hnd as (_ & Hdis & Hndf). split_and!; [apply Hmv|split; [done|]|].
  - intros k e Hin. destruct (Habs k e Hin) as [Hin' Ha]. destruct (Hl k e Hin') as (Hv & Hd & Hc & Hsd).
    split_and!; [done..|]. intros _. unfold seed_of, lookup_rollup_seed. rewrite (mv_rollup _ _ _ Hmv). by apply Hsd.
  - intros [k e] Hin. destruct (Habs k e Hin) as [Hin' Ha]. destruct (Hl k e Hin') as (Hv & _). cbn.
    rewrite (mv_exists _ _ _ Hmv) by done. rewrite Ha. cbn. apply bool_decide_eq_false_2. intros Ho.
    by apply (Hdis k Ho), (fst_elem _ _ e).
Qed.
(** A commit applies every entry that is not counted as lost, and all of them when
    the table has room for the new cells. *)
Lemma commit_moved l n s :
  shared_ok s → entries_ok s l → LEDGER_SHMEM_INSERT_FAILURES s = as_u64 n →
  ∃ applied_l lost, l ≡ₚ applied_l ++ lost ∧ moved applied_l s (insert_pass (update_pass l s).1 (update_pass l s).2) ∧
    LEDGER_SHMEM_INSERT_FAILURES (insert_pass (update_pass l s).1 (update_pass l s).2) = as_u64 (n + Z.of_nat (length lost)) ∧
    (fits l s → lost = []).
Proof.
  intros Hs Hl Hn. destruct (update_pass_fresh l s Hs Hl) as (Hs1 & Hok & Habs).
  destruct (update_pass_spec l s Hs Hl) as (s1 & E & Hocc & Hfail & Hmv). rewrite E in *. cbn [fst snd] in *.
  pose proof (filter_split_perm (λ ke : Z * PendingEntry, cell_exists s ke.1) l) as Hp.
  destruct (insert_pass_spec _ n s1 Hs1 Hok Habs) as (al & lost & [I1 I2 I3 I4]); [congruence|].
  eexists (_ ++ al), lost. split_and!; [|eapply moved_app; [exact Hmv|exact I2|reflexivity|]|done|].
  - rewrite Hp at 1. rewrite I1. by rewrite app_assoc.
  - destruct Hl as [Hnd _]. rewrite Hp, I1, app_assoc, fmap_app in Hnd. by apply NoDup_app in Hnd as (? & _).
  - intros Hroom. apply I4. by rewrite Hocc.
Qed.

(** * A drain *)
Definition core (b : Bucket) : Z * Z * Z * Z := (bk_occupied b, bk_key_hi b, bk_key_lo b, bk_balance_qty b).
(** The same cells with the same values, in the same places. *)
Record same_cells (t t' : gmap Z Bucket) : Prop := {
  sc_wf : table_wf t';
  sc_core : ∀ i, core (bucket t' i) = core (bucket t i);
}.
Lemma same_cells_occupied t t' i : same_cells t t' → occupied t' i ↔ occupied t i.
Proof. intros [_ H]. specialize (H i). unfold core in H. unfold occupied. cbn. by injection H as -> _ _ _. Qed.
Lemma same_cells_at t t' i k : same_cells t t' → at_key (bucket t' i) k = at_key (bucket t i) k.
Proof. intros [_ H]. specialize (H i). unfold core in H. unfold at_key. cbn. by injection H as _ -> -> _. Qed.
Lemma same_cells_probe t t' k j : table_wf t → same_cells t t' → probe_table t' k = Hit j ↔ probe_table t k = Hit j.
Proof.
  intros Hwf Hsc. split; intros [[Ho Hat] _]%probe_Hit; apply probe_holds; try done.
  - split; [by apply (same_cells_occupied t t')|by rewrite <-(same_cells_at t t')].
  - apply Hsc.
  - split; [by apply (same_cells_occupied t t')|by rewrite (same_cells_at t t')].
Qed.
Lemma same_cells_trans t1 t2 t3 : same_cells t1 t2 → same_cells t2 t3 → same_cells t1 t3.
Proof. intros [_ H1] [H2 H3]. split; [done|]. intros i. by rewrite H3. Qed.
Lemma stamp_same t key last : table_wf t → same_cells t (stamp_drained t key last).
Proof.
  intros Hwf. unfold stamp_drained. destruct (probe_table t key) as [i| |] eqn:E; [|by split..].
  apply probe_Hit in E as [[Ho _] _]. split; [by apply update_wf|]. intros j.
  destruct (decide (j = i)) as [->|]; [by rewrite bucket_insert|by rewrite bucket_insert_ne].
Qed.
Lemma stamps_same l t : table_wf t → same_cells t (foldl (λ t d, stamp_drained t (dc_key d) (dc_last d)) t l).
Proof.
  revert t. induction l as [|d l IH]; intros t Hwf; [by split|]. cbn.
  pose proof (stamp_same t (dc_key d) (dc_last d) Hwf) as H. eapply same_cells_trans; [exact H|]. apply IH, H.
Qed.

Lemma key_rebuilt (b : Bucket) key : valid_key key → at_key b key = true → Z.lor (Z.shiftl (bk_key_hi b) 64) (bk_key_lo b) = key.
Proof.
  intros Hv%valid_key_range [Hhi Hlo]%at_key_true. cbn in Hhi, Hlo. rewrite Hhi, Hlo. unfold key_hi, key_lo.
  rewrite lor_shiftl by (done || apply as_u64_range). rewrite Z.shiftr_div_pow2 by done. unfold as_u64.
  rewrite (Z.mod_small (key `div` 2 ^ 64)) by zdiv. zdiv.
Qed.
(** A dirty cell is a cell of the table, under its own key. *)
Lemma dirty_cell_key s i d :
  shared_ok s → dirty_cell (HASH_TABLE s) i = Some d →
  ∃ key, valid_key key ∧ holds_key (HASH_TABLE s) key i ∧ dc_key d = key ∧ dc_cell d = unpack_key key ∧
         (dc_balance d, dc_qty d) = cell_value s key ∧ dc_last d = bk_last_seq (bucket (HASH_TABLE s) i) ∧
         bk_drained_seq (bucket (HASH_TABLE s) i) < dc_last d.
Proof.
  intros Hs. unfold dirty_cell. destruct (bk_occupied _ =? 0) eqn:Ho; [done|]. destruct (_ <=? _) eqn:Hd; [done|].
  cbn. intros [= <-]. cbn. apply Z.eqb_neq in Ho. apply Z.leb_gt in Hd. destruct (so_keys _ Hs i Ho) as (key & Hv & Hh).
  exists key. rewrite (key_rebuilt _ key Hv (proj2 Hh)). split_and!; try done. unfold cell_value.
  by rewrite (probe_holds _ _ _ (so_table _ Hs) Hh).
Qed.
Lemma unpack_key_inj k k' : valid_key k → valid_key k' → unpack_key k = unpack_key k' → k = k'.
Proof. intros (c & Hc & ->) (c' & Hc' & ->). rewrite !unpack_pack_cell by done. by intros ->. Qed.
Lemma unpack_bal_qty_in z : in2 (unpack_bal_qty z).
Proof. split; apply wrap_i64_range. Qed.

Lemma upserts_other l m c : c ∉ dc_cell <$> l → foldl (λ m d, upsert_rollup d m) m l !! c = m !! c.
Proof.
  revert m. induction l as [|d l IH]; intros m; [done|]. cbn. intros [Hne Hin]%not_elem_of_cons. rewrite IH by done.
  unfold upsert_rollup. destruct (m !! dc_cell d) as [r|]; [destruct (_ <? _)|]; by rewrite ?lookup_insert_ne by done.
Qed.
Lemma upserts_in l m :
  (∀ d, d ∈ l → in2 (dc_balance d, dc_qty d)) → map_Forall (λ _ r, in2 (ru_balance r, ru_qty r)) m →
  map_Forall (λ _ r, in2 (ru_balance r, ru_qty r)) (foldl (λ m d, upsert_rollup d m) m l).
Proof.
  revert m. induction l as [|d l IH]; intros m Hd Hm; [done|]. cbn. apply IH; [intros d' Hin; apply Hd; by right|].
  assert (in2 (dc_balance d, dc_qty d)) as Hin by (apply Hd; by left).
  unfold upsert_rollup. destruct (m !! dc_cell d) as [r|]; [destruct (_ <? _)|]; try done; by apply map_Forall_insert_2.
Qed.
(** A drain, whichever of its writes go through, leaves every value as it is. *)
Record drained (s s' : Shared) : Prop := {
  dr_ok : shared_ok s';
  dr_value : ∀ key, valid_key key → cell_value s' key = cell_value s key;
  dr_exists : ∀ key, valid_key key → cell_exists s' key = cell_exists s key;
  dr_seed : ∀ key, valid_key key → cell_exists s key = false → seed_of s' key = seed_of s key;
  dr_failures : LEDGER_SHMEM_INSERT_FAILURES s' = LEDGER_SHMEM_INSERT_FAILURES s;
}.
Lemma drained_from s s' l :
  shared_ok s → (∀ d, d ∈ l → ∃ i, dirty_cell (HASH_TABLE s) i = Some d) →
  same_cells (HASH_TABLE s) (HASH_TABLE s') → OCCUPIED_COUNT s' = OCCUPIED_COUNT s →
  account_balances_rollup s' = foldl (λ m d, upsert_rollup d m) (account_balances_rollup s) l →
  LEDGER_SHMEM_INSERT_FAILURES s' = LEDGER_SHMEM_INSERT_FAILURES s → drained s s'.
Proof.
  intros Hs Hl Hsc Hocc Hr Hfail. pose proof (so_table _ Hs) as Hwf.
  assert (∀ key, valid_key key → cell_exists s key = false →
    account_balances_rollup s' !! unpack_key key = account_balances_rollup s !! unpack_key key) as Hrow.
  { intros key Hv Hno. rewrite Hr. apply upserts_other. intros (d & Hd & Hin)%list_elem_of_fmap.
    destruct (Hl d Hin) as (i & Hi). apply dirty_cell_key in Hi as (key' & Hv' & Hh & _ & Hc & _); [|done].
    rewrite Hc in Hd. apply unpack_key_inj in Hd; [|done..]. subst key'.
    apply (cell_exists_false s key) with (i := i) in Hno. by destruct Hno; apply probe_holds. }
  assert (∀ key, cell_exists s' key = cell_exists s key) as Hex.
  { intros key. destruct (cell_exists s key) eqn:E.
    - apply cell_exists_spec in E as [i Hi]. apply cell_exists_spec. exists i. by apply (same_cells_probe (HASH_TABLE s)).
    - rewrite cell_exists_false in *. intros i Hi%(same_cells_probe (HASH_TABLE s)); [|done..]. by apply (E i). }
  assert (∀ i, bk_balance_qty (bucket (HASH_TABLE s') i) = bk_balance_qty (bucket (HASH_TABLE s) i)) as Hbal.
  { intros i. pose proof (sc_core _ _ Hsc i) as H. unfold core in H. by injection H. }
  split; [split|..]; try done.
  - apply Hsc.
  - intros i Ho%(same_cells_occupied (HASH_TABLE s)); [|done]. destruct (so_keys _ Hs i Ho) as (key & Hv & Hh).
    exists key. split; [done|]. apply probe_Hit, (same_cells_probe (HASH_TABLE s)), probe_holds; done.
  - intros i Ho%(same_cells_occupied (HASH_TABLE s)); [|done]. rewrite Hbal. by apply (so_values _ Hs).
  - rewrite Hocc, (so_count _ Hs). symmetry. apply occupied_count_same. intros i.
    pose proof (sc_core _ _ Hsc i) as H. unfold core in H. by injection H.
  - rewrite Hr. apply upserts_in; [|apply Hs]. intros d Hin. destruct (Hl d Hin) as (i & Hi).
    apply dirty_cell_key in Hi as (key & _ & _ & _ & _ & -> & _); [|done]. by apply cell_value_in.
  - intros key Hv. specialize (Hex key). unfold cell_value. destruct (probe_table (HASH_TABLE s) key) as [i| |] eqn:E.
    1: by rewrite (proj2 (same_cells_probe _ _ key i Hwf Hsc) E), Hbal.
    all: assert (cell_exists s key = false) as Hno by (unfold cell_exists; by rewrite E);
      rewrite (Hrow key Hv Hno); rewrite Hno in Hex; unfold cell_exists in Hex; by destruct (probe_table (HASH_TABLE s') key).
  - intros key Hv Hno. unfold seed_of, lookup_rollup_seed. by rewrite Hrow.
Qed.
Lemma drain_tick_drained spi_ok s : shared_ok s → drained s (do_drain_tick spi_ok s).
Proof.
  intros Hs. unfold do_drain_tick. destruct (dirty_cells (HASH_TABLE s)) as [|d0 dirty] eqn:E; [by split|].
  set (succeeded := List.filter _ _). apply drained_from with (l := succeeded); [done|..].
  - intros d [Hin _]%list_elem_of_In%List.filter_In. rewrite <-E in Hin. apply list_elem_of_In, elem_of_dirty_cells in Hin as (i & _ & Hi).
    by exists i.
  - destruct (0 <? _); apply stamps_same, Hs.
  - by destruct (0 <? _).
  - by destruct (0 <? _).
  - by destruct (0 <? _).
Qed.
