(* ===== verification/ExtTransactions.v ===== *)
(** The balance rollup against its specification.  The specification is a table of
    balances and, per backend, a stack of deltas, one level per open subtransaction.
    Staging, subtransactions, the check before a commit, commits, aborts and drains
    of any number of backends, in any order, show the balances of the specification,
    less the deltas that the failure counter counts. *)
From stdpp Require Import functions.
From S2P Require Import Prelude ExtTable ExtBalance ExtNested.

(** * The specification *)
Definition Staged : Type := CellKey → Z * Z.
Definition nothing : Staged := λ _, (0, 0).
Definition sat2 (x y : Z * Z) : Z * Z := (saturating_add x.1 y.1, saturating_add x.2 y.2).
Record Spec := {
  sp_balance : CellKey → Z * Z;
  sp_frames : nat → list Staged;
  sp_lost : Z;
}.
Definition sp_with (b : nat) (fs : list Staged) (sp : Spec) : Spec :=
  {| sp_balance := sp_balance sp; sp_frames := <[b := fs]> (sp_frames sp); sp_lost := sp_lost sp |}.
Definition stage_at (c : CellKey) (δ : Z * Z) (f : Staged) : Staged := λ c', if decide (c' = c) then sat2 (f c') δ else f c'.
Definition merge_staged (f g : Staged) : Staged := λ c, sat2 (f c) (g c).
Definition commit_staged (lost : gset CellKey) (f : Staged) (bal : CellKey → Z * Z) : CellKey → Z * Z :=
  λ c, if decide (c ∈ lost) then bal c else add2 (bal c) (f c).

Inductive spec_step (sp : Spec) : Spec → Prop :=
  | spec_stage b c δ f fs : sp_frames sp b = f :: fs → spec_step sp (sp_with b (stage_at c δ f :: fs) sp)
  | spec_start_sub b : spec_step sp (sp_with b (nothing :: sp_frames sp b) sp)
  | spec_commit_sub b f g fs : sp_frames sp b = f :: g :: fs → spec_step sp (sp_with b (merge_staged g f :: fs) sp)
  | spec_abort_sub b f g fs : sp_frames sp b = f :: g :: fs → spec_step sp (sp_with b (g :: fs) sp)
  | spec_abort b : spec_step sp (sp_with b [nothing] sp)
  | spec_commit b f lost : sp_frames sp b = [f] →
      spec_step sp {| sp_balance := commit_staged lost f (sp_balance sp); sp_frames := <[b := [nothing]]> (sp_frames sp);
                      sp_lost := sp_lost sp + Z.of_nat (size lost) |}.

(** * The extension *)
(** The nesting depth is the server's: its callbacks fire on open subtransactions only. *)
Record World := {
  w_shared : Shared;
  w_stack : nat → list Frame;
  w_depth : nat → nat;
  w_checked : nat → bool;
}.
Definition w_with (b : nat) (stack : list Frame) (depth : nat) (checked : bool) (w : World) : World :=
  {| w_shared := w_shared w; w_stack := <[b := stack]> (w_stack w); w_depth := <[b := depth]> (w_depth w);
     w_checked := <[b := checked]> (w_checked w) |}.
Definition w_set_shared (s : Shared) (w : World) : World :=
  {| w_shared := s; w_stack := w_stack w; w_depth := w_depth w; w_checked := w_checked w |}.

Inductive step (w : World) : World → Prop :=
  | do_stage b a p c l x q :
      w_checked w b = false → valid_cell (a, p, c, l) → in2 (x, q) →
      step w (w_with b (stage_apply true (w_shared w) a p c l x q (w_stack w b)) (w_depth w b) false w)
  | do_start_sub b :
      w_checked w b = false → step w (w_with b (subxact_start_sub (w_stack w b)) (S (w_depth w b)) false w)
  | do_commit_sub b d :
      w_checked w b = false → w_depth w b = S d → step w (w_with b (subxact_commit_sub (w_stack w b)) d false w)
  | do_abort_sub b d :
      w_checked w b = false → w_depth w b = S d → step w (w_with b (subxact_abort_sub (w_stack w b)) d false w)
  | do_pre_commit b :
      w_checked w b = false → w_depth w b = O →
      step w (if xact_pre_commit (w_shared w) (w_stack w b) then w_with b (w_stack w b) O true w
              else w_with b (xact_abort (w_stack w b)) O false w)
  | do_commit b iter :
      w_checked w b = true → w_depth w b = O → (∀ m, iter m ≡ₚ map_to_list m) →
      step w (w_set_shared (xact_commit iter (w_stack w b) (w_shared w)).1
                (w_with b (xact_commit iter (w_stack w b) (w_shared w)).2 O false w))
  | do_abort b : step w (w_with b (xact_abort (w_stack w b)) O false w)
  | do_drain spi_ok : step w (w_set_shared (do_drain_tick spi_ok (w_shared w)) w).

(** * The relation *)
Definition frame_rel (sf : Staged) (f : Frame) : Prop :=
  ∀ c, valid_cell c → sf c = from_option delta (0, 0) (f !! pack_cell c).
(** A backend that has staged nothing at the outermost level may lack its frame. *)
Definition stack_rel (sfs : list Staged) (stack : list Frame) : Prop :=
  Forall2 frame_rel sfs stack ∨ Forall2 frame_rel sfs (stack ++ [∅]).
Definition frames_ok (s : Shared) (stack : list Frame) : Prop := Forall (map_Forall (entry_ok s)) stack.
Record sim (w : World) (sp : Spec) : Prop := {
  sm_shared : shared_ok (w_shared w);
  sm_balance : ∀ c, valid_cell c → sp_balance sp c = cell_value (w_shared w) (pack_cell c);
  sm_stack : ∀ b, stack_rel (sp_frames sp b) (w_stack w b);
  sm_depth : ∀ b, length (sp_frames sp b) = S (w_depth w b);
  sm_frames : ∀ b, frames_ok (w_shared w) (w_stack w b);
  sm_lost : LEDGER_SHMEM_INSERT_FAILURES (w_shared w) = as_u64 (sp_lost sp);
}.

Lemma saturate_id z : in_i64 z → saturate z = z.
Proof. unfold saturate, in_i64. lia. Qed.
Lemma saturate_in z : in_i64 (saturate z).
Proof. unfold saturate, in_i64, i64_min, i64_max. lia. Qed.
Lemma sat2_in x y : in2 (sat2 x y).
Proof. split; apply saturate_in. Qed.
Lemma sat2_zero_l x : in2 x → sat2 (0, 0) x = x.
Proof. destruct x. intros [? ?]. unfold sat2, saturating_add. cbn in *. by rewrite !Z.add_0_l, !saturate_id. Qed.
Lemma sat2_zero_r x : in2 x → sat2 x (0, 0) = x.
Proof. destruct x. intros [? ?]. unfold sat2, saturating_add. cbn in *. by rewrite !Z.add_0_r, !saturate_id. Qed.
Lemma add2_zero_r x : in2 x → add2 x (0, 0) = x.
Proof. destruct x. intros [? ?]. unfold add2, wadd. cbn in *. by rewrite !Z.add_0_r, !wrap_i64_id. Qed.
Lemma delta_merged e e' : delta (merged e e') = sat2 (delta e) (delta e').
Proof. done. Qed.
Lemma pack_cell_inj c c' : valid_cell c → valid_cell c' → pack_cell c = pack_cell c' → c = c'.
Proof. intros H H' E. by rewrite <-(unpack_pack_cell c), <-(unpack_pack_cell c'), E. Qed.
Lemma frame_rel_empty : frame_rel nothing ∅.
Proof. intros c _. by rewrite lookup_empty. Qed.

(** Entries stay good: cells never leave the table, and the durable row of a cell that
    is not in it does not change. *)
Definition later (s s' : Shared) : Prop :=
  ∀ key, valid_key key → cell_exists s' key = false → cell_exists s key = false ∧ seed_of s' key = seed_of s key.
Lemma frames_ok_later s s' stack : later s s' → frames_ok s stack → frames_ok s' stack.
Proof.
  intros Hl Hs. eapply Forall_impl; [exact Hs|]. intros f Hf key e He. destruct (Hf key e He) as (Hv & Hd & Hc & Hseed).
  split_and!; [done..|]. intros Hno. destruct (Hl key Hv Hno) as [Hno' ->]. by apply Hseed.
Qed.
Lemma moved_later l s s' : moved l s s' → later s s'.
Proof.
  intros Hm key Hv. rewrite (mv_exists _ _ _ Hm) by done. intros [Hno _]%orb_false_iff. split; [done|].
  unfold seed_of, lookup_rollup_seed. by rewrite (mv_rollup _ _ _ Hm).
Qed.
Lemma drained_later s s' : drained s s' → later s s'.
Proof. intros [_ _ Hex Hseed _] key Hv. rewrite Hex by done. intros Hno. split; [done|]. by apply Hseed. Qed.
Lemma entry_ok_in s key e : entry_ok s key e → in2 (delta e).
Proof. intros (_ & H & _). done. Qed.
Lemma merge_frame_empty f : merge_frame ∅ f = f.
Proof. apply (left_id_L ∅ (union_with (M := Frame) _)). Qed.
Lemma merge_frame_ok s f g :
  map_Forall (entry_ok s) f → map_Forall (entry_ok s) g → map_Forall (entry_ok s) (merge_frame f g).
Proof.
  intros Hf Hg key e. unfold merge_frame. rewrite lookup_union_with.
  destruct (f !! key) as [e1|] eqn:E1; destruct (g !! key) as [e2|] eqn:E2; cbn; intros [= <-].
  - destruct (Hf _ _ E1) as (Hv & _ & Hc & Hseed). split_and!; [done|rewrite delta_merged; apply sat2_in|cbn; by rewrite Hc|].
    intros Hno. cbn. rewrite Hc. by apply Hseed.
  - by apply Hf.
  - by apply Hg.
Qed.
Lemma merge_frame_rel s sf sg f g :
  map_Forall (entry_ok s) f → map_Forall (entry_ok s) g → frame_rel sf f → frame_rel sg g →
  frame_rel (merge_staged sf sg) (merge_frame f g).
Proof.
  intros Hf Hg Hrf Hrg c Hc. unfold merge_staged, merge_frame. rewrite Hrf, Hrg, lookup_union_with by done.
  destruct (f !! pack_cell c) as [e1|] eqn:E1; destruct (g !! pack_cell c) as [e2|] eqn:E2; cbn [from_option union_with option_union_with].
  - done.
  - by apply sat2_zero_r, (entry_ok_in s (pack_cell c)), Hf.
  - by apply sat2_zero_l, (entry_ok_in s (pack_cell c)), Hg.
  - done.
Qed.

(** * Steps of one backend *)
Lemma sim_local w sp b sfs stack d checked :
  sim w sp → stack_rel sfs stack → length sfs = S d → frames_ok (w_shared w) stack →
  sim (w_with b stack d checked w) (sp_with b sfs sp).
Proof.
  intros [H1 H2 H3 H4 H5 H6] Hst Hd Hf. split; [done|done|..|done]; intros b'; cbn;
    (destruct (decide (b = b')) as [<-|]; [rewrite !fn_lookup_insert|rewrite !fn_lookup_insert_ne by done]); done.
Qed.
Lemma stack_top f fs stack :
  stack_rel (f :: fs) stack → ∃ top rest, ensure_top_frame stack = top :: rest ∧ frame_rel f top ∧
    ∀ f' top', frame_rel f' top' → stack_rel (f' :: fs) (top' :: rest).
Proof.
  intros [H|H].
  - destruct stack as [|top rest]; [by inversion H|]. apply Forall2_cons in H as [Ht Hr]. exists top, rest.
    split_and!; [done..|]. intros. left. by constructor.
  - destruct stack as [|top rest].
    + apply Forall2_cons in H as [Ht Hr]. exists ∅, []. split_and!; [done..|]. intros. left. by constructor.
    + apply Forall2_cons in H as [Ht Hr]. exists top, rest. split_and!; [done..|]. intros. right. by constructor.
Qed.
Lemma stack_two f g fs stack :
  stack_rel (f :: g :: fs) stack →
  (∃ x y rest, stack = x :: y :: rest ∧ frame_rel f x ∧ frame_rel g y ∧
     ∀ g' y', frame_rel g' y' → stack_rel (g' :: fs) (y' :: rest)) ∨
  (∃ x, stack = [x] ∧ fs = [] ∧ frame_rel f x ∧ frame_rel g ∅).
Proof.
  intros [H|H].
  - destruct stack as [|x [|y rest]]; [by inversion H|by apply Forall2_cons in H as [_ H]; inversion H|]. left.
    apply Forall2_cons in H as [Hx [Hy Hr]%Forall2_cons]. exists x, y, rest. split_and!; [done..|]. intros. left. by constructor.
  - destruct stack as [|x [|y rest]]; [by apply Forall2_cons in H as [_ H]; inversion H|right|left].
    + apply Forall2_cons in H as [Hx [Hy Hr]%Forall2_cons]. inversion Hr. by exists x.
    + apply Forall2_cons in H as [Hx [Hy Hr]%Forall2_cons]. exists x, y, rest. split_and!; [done..|]. intros. right. by constructor.
Qed.
Lemma frame_rel_insert sf f c δ e :
  valid_cell c → frame_rel sf f → delta e = sat2 (sf c) δ → frame_rel (stage_at c δ sf) (<[pack_cell c := e]> f).
Proof.
  intros Hc Hf He c' Hc'. unfold stage_at. case_decide as E; [subst c'; by rewrite lookup_insert_eq|].
  rewrite lookup_insert_ne; [by apply Hf|]. intros Heq. by apply E, pack_cell_inj.
Qed.
Lemma valid_key_of c : valid_cell c → valid_key (pack_cell c).
Proof. intros. by exists c. Qed.
Lemma as_u8_id l : 0 ≤ l < 2 ^ 8 → as_u8 l = l.
Proof. intros. by apply Z.mod_small. Qed.

Lemma stage_rel s a p c l x q f fs stack :
  valid_cell (a, p, c, l) → in2 (x, q) → stack_rel (f :: fs) stack → frames_ok s stack →
  stack_rel (stage_at (a, p, c, l) (x, q) f :: fs) (stage_apply true s a p c l x q stack) ∧
  frames_ok s (stage_apply true s a p c l x q stack).
Proof.
  intros Hv Hδ Hst Hok. pose proof (valid_key_of _ Hv) as Hkey. pose proof Hv as (_ & _ & _ & Hl).
  unfold stage_apply. rewrite as_u8_id by done. change (pack_key a p c l) with (pack_cell (a, p, c, l)).
  destruct (stack_top _ _ _ Hst) as (top & rest & Htop & Hf & Hback).
  assert (frames_ok s (top :: rest)) as [Ht Hr]%Forall_cons.
  { rewrite <-Htop. destruct stack; [|done]. by constructor. }
  rewrite Htop. cbn [top_frame set_top]. specialize (Hf (a, p, c, l) Hv) as Hval.
  destruct (top !! pack_cell (a, p, c, l)) as [e|] eqn:E; cbn [from_option] in Hval.
  - destruct (Ht _ _ E) as (_ & _ & Hc & Hseed). split; [apply Hback, frame_rel_insert; try done; by rewrite Hval|].
    constructor; [|done]. apply map_Forall_insert_2; [|done]. split_and!; [done|split; apply saturate_in|done|done].
  - split; [apply Hback, frame_rel_insert; try done; by rewrite Hval, sat2_zero_l|].
    constructor; [|done]. apply map_Forall_insert_2; [|done]. split_and!; [done..|]. intros Hno.
    cbn [pe_rollup_seed]. rewrite Hno. unfold seed_of. by rewrite unpack_pack_cell.
Qed.
Lemma commit_sub_rel s f g fs stack :
  stack_rel (f :: g :: fs) stack → frames_ok s stack →
  stack_rel (merge_staged g f :: fs) (subxact_commit_sub stack) ∧ frames_ok s (subxact_commit_sub stack).
Proof.
  intros [(x & y & rest & -> & Hx & Hy & Hback)|(x & -> & -> & Hx & Hy)]%stack_two Hok.
  - apply Forall_cons in Hok as [Hokx [Hoky Hok]%Forall_cons]. split; [by apply Hback, (merge_frame_rel s)|].
    constructor; [by apply merge_frame_ok|done].
  - apply Forall_cons in Hok as [Hokx _]. split; [|by constructor]. left. constructor; [|done].
    rewrite <-(merge_frame_empty x). by apply (merge_frame_rel s).
Qed.
Lemma abort_sub_rel s f g fs stack :
  stack_rel (f :: g :: fs) stack → frames_ok s stack →
  stack_rel (g :: fs) (subxact_abort_sub stack) ∧ frames_ok s (subxact_abort_sub stack).
Proof.
  intros [(x & y & rest & -> & Hx & Hy & Hback)|(x & -> & -> & Hx & Hy)]%stack_two Hok.
  - apply Forall_cons in Hok as [_ Hok]. split; [by apply Hback|done].
  - split; [left; by constructor|by constructor].
Qed.
Lemma start_sub_rel s fs stack :
  stack_rel fs stack → frames_ok s stack → stack_rel (nothing :: fs) (subxact_start_sub stack) ∧ frames_ok s (subxact_start_sub stack).
Proof.
  intros [H|H] Hok; (split; [|by constructor]); [left|right]; constructor; by try apply frame_rel_empty.
Qed.
Lemma abort_rel s stack : stack_rel [nothing] (xact_abort stack) ∧ frames_ok s (xact_abort stack).
Proof. split; [left; constructor; [apply frame_rel_empty|done]|by constructor]. Qed.

(** * A commit *)
Lemma stack_one f stack :
  stack_rel [f] stack → frame_rel f (drain_pending_stack stack) ∧ (stack = [] ∨ stack = [drain_pending_stack stack]).
Proof.
  intros [H|H].
  - destruct stack as [|x [|? ?]]; [by inversion H| |by apply Forall2_cons in H as [_ H]; inversion H].
    cbn. rewrite merge_frame_empty. apply Forall2_cons in H as [H _]. auto.
  - destruct stack as [|x [|? ?]]; [|by apply Forall2_cons in H as [_ H]; inversion H..].
    apply Forall2_cons in H as [H _]. auto.
Qed.
Lemma drain_one_ok s stack m :
  stack = [] ∨ stack = [m] → m = drain_pending_stack stack → frames_ok s stack → map_Forall (entry_ok s) m.
Proof. intros [-> | ->]; [by intros ->|]. by intros _ [? _]%Forall_cons. Qed.
Lemma iter_entries_ok (iter : Frame → list (Z * PendingEntry)) s m :
  iter m ≡ₚ map_to_list m → map_Forall (entry_ok s) m → entries_ok s (iter m).
Proof.
  intros Hp Hm. split; [rewrite Hp; apply NoDup_fst_map_to_list|]. intros key e. rewrite Hp, elem_of_map_to_list. apply Hm.
Qed.
Definition lost_cells (lost : list (Z * PendingEntry)) : gset CellKey := list_to_set (unpack_key <$> lost.*1).
Lemma elem_of_lost_cells s lost c :
  valid_cell c → entries_ok s lost → c ∈ lost_cells lost ↔ pack_cell c ∈ lost.*1.
Proof.
  intros Hc [_ Hl]. unfold lost_cells. rewrite elem_of_list_to_set, list_elem_of_fmap. split.
  - intros (key & -> & Hin). apply list_elem_of_fmap in Hin as Hin'. destruct Hin' as ([k e] & -> & Hke). cbn [fst] in *.
    destruct (Hl k e Hke) as ((c & Hc' & ->) & _). by rewrite unpack_pack_cell.
  - intros Hin. exists (pack_cell c). by rewrite unpack_pack_cell.
Qed.
Lemma size_lost_cells s lost : entries_ok s lost → size (lost_cells lost) = length lost.
Proof.
  intros [Hnd Hl]. unfold lost_cells. rewrite size_list_to_set; [by rewrite !length_fmap|].
  apply NoDup_fmap_2_strong; [|done]. intros x y ([kx ex] & -> & Hx)%list_elem_of_fmap ([ky ey] & -> & Hy)%list_elem_of_fmap.
  destruct (Hl _ _ Hx) as (Hvx & _). destruct (Hl _ _ Hy) as (Hvy & _). by apply unpack_key_inj.
Qed.
Lemma entries_ok_app_r s l l1 l2 : l ≡ₚ l1 ++ l2 → entries_ok s l → entries_ok s l2.
Proof.
  intros Hp [Hnd Hl]. rewrite Hp, fmap_app in Hnd. apply NoDup_app in Hnd as (_ & _ & Hnd). split; [done|].
  intros key e Hin. apply Hl. rewrite Hp. apply elem_of_app. by right.
Qed.

(** Every cell moves by what was staged for it, except the lost ones. *)
Lemma commit_values s s' m l1 lost f c :
  shared_ok s → map_Forall (entry_ok s) m → frame_rel f m → map_to_list m ≡ₚ l1 ++ lost → moved l1 s s' → valid_cell c →
  cell_value s' (pack_cell c) = commit_staged (lost_cells lost) f (λ c, cell_value s (pack_cell c)) c.
Proof.
  intros Hs Hm Hf Hp Hmv Hc. pose proof (valid_key_of _ Hc) as Hkey. unfold commit_staged.
  pose proof (iter_entries_ok map_to_list s m (Permutation_refl _) Hm) as Hok.
  pose proof (entries_ok_app_r s _ _ _ Hp Hok) as Hlost. destruct Hok as [Hnd _].
  pose proof (elem_of_lost_cells s lost c Hc Hlost) as Hiff. rewrite Hp, fmap_app in Hnd. apply NoDup_app in Hnd as (_ & Hdis & _).
  rewrite Hf by done. case_decide as Hin.
  - apply Hiff in Hin. apply (mv_out _ _ _ Hmv); [done|]. intros H1. by apply (Hdis _ H1).
  - destruct (m !! pack_cell c) as [e|] eqn:E; cbn [from_option].
    + apply elem_of_map_to_list in E. rewrite Hp in E. apply elem_of_app in E as [E|E].
      * by apply (mv_in _ _ _ Hmv).
      * destruct Hin. by apply Hiff, (fst_elem _ _ e).
    + rewrite add2_zero_r by by apply cell_value_in. apply (mv_out _ _ _ Hmv); [done|]. intros H1.
      apply list_elem_of_fmap in H1 as ([k e] & Hk & H1). cbn in Hk. subst k.
      assert ((pack_cell c, e) ∈ map_to_list m) as H2 by (rewrite Hp; apply elem_of_app; by left).
      apply elem_of_map_to_list in H2. congruence.
Qed.
Lemma sim_commit w sp b f iter :
  sim w sp → sp_frames sp b = [f] → (∀ m, iter m ≡ₚ map_to_list m) →
  ∃ lost, sim (w_set_shared (xact_commit iter (w_stack w b) (w_shared w)).1
                 (w_with b (xact_commit iter (w_stack w b) (w_shared w)).2 O false w))
              {| sp_balance := commit_staged lost f (sp_balance sp); sp_frames := <[b := [nothing]]> (sp_frames sp);
                 sp_lost := sp_lost sp + Z.of_nat (size lost) |}.
Proof.
  intros Hsim Hfr Hiter. pose proof (sm_shared _ _ Hsim) as Hs. pose proof (sm_stack _ _ Hsim b) as Hst. rewrite Hfr in Hst.
  destruct (stack_one _ _ Hst) as [Hrel Hform]. set (m := drain_pending_stack (w_stack w b)) in *.
  assert (map_Forall (entry_ok (w_shared w)) m) as Hm by (eapply drain_one_ok; [done|done|apply Hsim]).
  pose proof (iter_entries_ok iter _ _ (Hiter m) Hm) as Hok.
  destruct (commit_moved (iter m) (sp_lost sp) _ Hs Hok (sm_lost _ _ Hsim)) as (l1 & lost & Hp & Hmv & Hlost & _).
  unfold xact_commit. fold m. destruct (update_pass (iter m) (w_shared w)) as [needs s1]. cbn [fst snd] in *.
  exists (lost_cells lost). split; cbn.
  - apply Hmv.
  - intros c Hc. unfold m in Hp. rewrite Hiter in Hp. rewrite (commit_values _ _ m l1 lost f c) by done. unfold commit_staged.
    by rewrite (sm_balance _ _ Hsim).
  - intros b'. destruct (decide (b = b')) as [<-|]; [rewrite !fn_lookup_insert|rewrite !fn_lookup_insert_ne by done]; [|apply Hsim].
    by apply (abort_rel (w_shared w) []).
  - intros b'. destruct (decide (b = b')) as [<-|]; [by rewrite !fn_lookup_insert|rewrite !fn_lookup_insert_ne by done; apply Hsim].
  - intros b'. destruct (decide (b = b')) as [<-|]; [rewrite !fn_lookup_insert; by apply (abort_rel _ [])|].
    rewrite fn_lookup_insert_ne by done. eapply frames_ok_later; [by eapply moved_later|apply Hsim].
  - rewrite (size_lost_cells (w_shared w)) by (by eapply entries_ok_app_r). done.
Qed.

(** * Every step *)
Lemma sim_drain w sp spi_ok : sim w sp → sim (w_set_shared (do_drain_tick spi_ok (w_shared w)) w) sp.
Proof.
  intros [H1 H2 H3 H4 H5 H6]. pose proof (drain_tick_drained spi_ok _ H1) as Hd. split; cbn; try done.
  - apply Hd.
  - intros c Hc. rewrite (dr_value _ _ Hd) by by apply valid_key_of. by apply H2.
  - intros b. eapply frames_ok_later; [by apply drained_later|apply H5].
  - by rewrite (dr_failures _ _ Hd).
Qed.
Lemma w_with_stutter w sp b checked : sim w sp → sim (w_with b (w_stack w b) (w_depth w b) checked w) sp.
Proof.
  intros [H1 H2 H3 H4 H5 H6]. split; [done|done|..|done]; intros b'; cbn;
    (destruct (decide (b = b')) as [<-|]; [rewrite !fn_lookup_insert|rewrite !fn_lookup_insert_ne by done]); done.
Qed.
Lemma sim_step w w' sp : sim w sp → step w w' → ∃ sp', rtc spec_step sp sp' ∧ sim w' sp'.
Proof.
  intros Hsim. destruct 1 as [b a p c l x q Hch Hv Hδ|b Hch|b d Hch Hd|b d Hch Hd|b Hch Hd|b iter Hch Hd Hiter|b|spi_ok].
  all: try (pose proof (sm_depth _ _ Hsim b) as Hlen; pose proof (sm_stack _ _ Hsim b) as Hst; pose proof (sm_frames _ _ Hsim b) as Hok).
  - destruct (sp_frames sp b) as [|f fs] eqn:E; [done|]. eexists. split; [by eapply rtc_once, spec_stage|].
    destruct (stage_rel (w_shared w) a p c l x q f fs _ Hv Hδ Hst Hok). by apply sim_local.
  - eexists. split; [by eapply rtc_once, spec_start_sub|]. destruct (start_sub_rel _ _ _ Hst Hok).
    apply sim_local; [done..| |done]. cbn. by rewrite Hlen.
  - rewrite Hd in Hlen. destruct (sp_frames sp b) as [|f [|g fs]] eqn:E; [done..|]. apply (f_equal pred) in Hlen.
    eexists. split; [by eapply rtc_once, spec_commit_sub|]. destruct (commit_sub_rel _ _ _ _ _ Hst Hok). by apply sim_local.
  - rewrite Hd in Hlen. destruct (sp_frames sp b) as [|f [|g fs]] eqn:E; [done..|]. apply (f_equal pred) in Hlen.
    eexists. split; [by eapply rtc_once, spec_abort_sub|]. destruct (abort_sub_rel _ _ _ _ _ Hst Hok). by apply sim_local.
  - destruct (xact_pre_commit _ _).
    { exists sp. split; [done|]. pose proof (w_with_stutter w sp b true Hsim) as Hw. by rewrite Hd in Hw. }
    eexists. split; [by eapply rtc_once, (spec_abort _ b)|]. destruct (abort_rel (w_shared w) (w_stack w b)). by apply sim_local.
  - rewrite Hd in Hlen. destruct (sp_frames sp b) as [|f [|? ?]] eqn:E; [done| |done].
    destruct (sim_commit w sp b f iter Hsim E Hiter) as (lost & Hs'). eexists. split; [|exact Hs']. by apply rtc_once, spec_commit.
  - eexists. split; [by eapply rtc_once, (spec_abort _ b)|]. destruct (abort_rel (w_shared w) (w_stack w b)). by apply sim_local.
  - exists sp. split; [done|]. by apply sim_drain.
Qed.
Lemma sim_steps w w' sp : sim w sp → rtc step w w' → ∃ sp', rtc spec_step sp sp' ∧ sim w' sp'.
Proof.
  intros Hsim Hsteps. revert sp Hsim. induction Hsteps as [w|w w1 w2 H1 H2 IH]; intros sp Hsim; [by exists sp|].
  destruct (sim_step _ _ _ Hsim H1) as (sp1 & Hr1 & Hs1). destruct (IH sp1 Hs1) as (sp2 & Hr2 & Hs2).
  exists sp2. split; [by etrans|done].
Qed.

(** * What a query shows *)
Definition shown (s : Shared) (c : CellKey) : Z * Z :=
  let '(a, p, cu, l) := c in let '(b, q, _, _) := balance s a p cu l in (b, q).
Lemma shown_cell_value s c : valid_cell c → shown s c = cell_value s (pack_cell c).
Proof.
  intros Hc. unfold shown, cell_value. rewrite unpack_pack_cell by done. destruct c as [[[a p] cu] l]. destruct Hc as (_ & _ & _ & Hl).
  unfold balance, ledger_balance_lookup. rewrite as_u8_id by done. change (pack_key a p cu l) with (pack_cell (a, p, cu, l)).
  destruct (probe_table _ _); [by destruct (unpack_bal_qty _)|..]; by destruct (account_balances_rollup s !! _).
Qed.
(** A server that has just started: empty shared memory, a durable table. *)
Definition rollup_ok (s : Shared) : Prop := map_Forall (λ _ r, in2 (ru_balance r, ru_qty r)) (account_balances_rollup s).
Definition booted (s : Shared) : World :=
  {| w_shared := ledger_shmem_reset s; w_stack := λ _, []; w_depth := λ _, O; w_checked := λ _, false |}.
Definition durable (s : Shared) : Spec :=
  {| sp_balance := λ c, from_option (λ r, (ru_balance r, ru_qty r)) (0, 0) (account_balances_rollup s !! c);
     sp_frames := λ _, [nothing]; sp_lost := 0 |}.
Lemma empty_probe k i : probe_table (B := Bucket) ∅ k ≠ Hit i.
Proof. intros [[Ho _] _]%probe_Hit. by apply Ho. Qed.
Lemma sim_booted s : rollup_ok s → sim (booted s) (durable s).
Proof.
  intros Hr. assert (∀ i, ¬ occupied (B := Bucket) ∅ i) as Hno by (intros i Ho; by apply Ho). split; cbn.
  - split; cbn; [apply empty_wf|by intros i ?%Hno|by intros i ?%Hno|by rewrite occupied_count_empty|done].
  - intros c Hc. unfold cell_value. cbn [ledger_shmem_reset HASH_TABLE account_balances_rollup]. rewrite unpack_pack_cell by done.
    destruct (probe_table ∅ _) as [i| |] eqn:E; [by destruct (empty_probe _ _ E)|done..].
  - intros b. right. constructor; [apply frame_rel_empty|done].
  - done.
  - intros b. constructor.
  - done.
Qed.


(** * A checked commit *)
Lemma Permutation_filter_bool {A} (P : A → bool) l l' : l ≡ₚ l' → List.filter P l ≡ₚ List.filter P l'.
Proof.
  induction 1 as [|x l l' _ IH|x y l|l1 l2 l3 _ IH1 _ IH2]; cbn; [done|by destruct (P x); [constructor|]| |by etrans].
  destruct (P x), (P y); try done. constructor.
Qed.
Lemma keys_filter_length (iter : Frame → list (Z * PendingEntry)) (P : Z → bool) m :
  iter m ≡ₚ map_to_list m →
  length (List.filter (λ ke : Z * PendingEntry, P ke.1) (iter m)) = length (List.filter P (elements (dom m ∪ (∅ : gset Z)))).
Proof.
  intros Hp. assert ((iter m).*1 ≡ₚ elements (dom m ∪ (∅ : gset Z))) as Hk.
  { rewrite Hp, (right_id_L ∅ (∪)). apply NoDup_Permutation; [apply NoDup_fst_map_to_list|apply NoDup_elements|].
    intros k. rewrite elem_of_elements, elem_of_dom, list_elem_of_fmap. split.
    - intros ([k' e] & -> & Hin%elem_of_map_to_list). by exists e.
    - intros [e He]. exists (k, e). by rewrite elem_of_map_to_list. }
  rewrite <-(Permutation_length (Permutation_filter_bool P _ _ Hk)). clear. induction (iter m) as [|[k e] l IH]; [done|]. cbn. destruct (P k); cbn; by rewrite IH.
Qed.
Lemma pre_commit_fits (iter : Frame → list (Z * PendingEntry)) s stack :
  shared_ok s → iter (drain_pending_stack stack) ≡ₚ map_to_list (drain_pending_stack stack) →
  stack = [] ∨ stack = [drain_pending_stack stack] → xact_pre_commit s stack = true → fits (iter (drain_pending_stack stack)) s.
Proof.
  intros Hs Hp Hform Hpre. unfold fits. rewrite (keys_filter_length iter (λ k, negb (cell_exists s k))) by done.
  pose proof (occupied_count_le (HASH_TABLE s)) as Hle. rewrite <-(so_count _ Hs) in Hle. unfold xact_pre_commit in Hpre.
  assert (foldr (λ f ks, dom f ∪ ks) (∅ : gset Z) stack = dom (drain_pending_stack stack) ∪ ∅) as Hdom.
  { destruct Hform as [->|Hf]; [cbn; by rewrite dom_empty_L, (left_id_L ∅ (∪))|]. rewrite Hf at 1. done. }
  rewrite Hdom in Hpre. revert Hpre. generalize (length (List.filter (λ k, negb (cell_exists s k)) (elements (dom (drain_pending_stack stack) ∪ ∅)))).
  intros n. rewrite negb_true_iff, andb_false_iff, !Z.ltb_ge. intros [?|?]; lia.
Qed.

Lemma checked_commit s w b iter :
  rollup_ok s → rtc step (booted s) w → w_depth w b = O → (∀ m, iter m ≡ₚ map_to_list m) →
  xact_pre_commit (w_shared w) (w_stack w b) = true →
  let staged := drain_pending_stack (w_stack w b) in
  let s' := (xact_commit iter (w_stack w b) (w_shared w)).1 in
  LEDGER_SHMEM_INSERT_FAILURES s' = LEDGER_SHMEM_INSERT_FAILURES (w_shared w) ∧
  ∀ c, valid_cell c →
    shown s' c = match staged !! pack_cell c with
                 | Some e => add2 (shown (w_shared w) c) (pe_amount_delta e, pe_qty_delta e)
                 | None => shown (w_shared w) c
                 end.
Proof.
  intros Hr Hsteps Hd Hiter Hpre m s'. destruct (sim_steps _ _ _ (sim_booted s Hr) Hsteps) as (sp & _ & Hsim).
  pose proof (sm_shared _ _ Hsim) as Hs. pose proof (sm_stack _ _ Hsim b) as Hst. pose proof (sm_depth _ _ Hsim b) as Hlen.
  rewrite Hd in Hlen. destruct (sp_frames sp b) as [|f [|? ?]]; [done| |done].
  destruct (stack_one _ _ Hst) as [Hrel Hform].
  assert (map_Forall (entry_ok (w_shared w)) m) as Hm by (eapply drain_one_ok; [done|done|apply Hsim]).
  destruct (commit_moved (iter m) (sp_lost sp) _ Hs (iter_entries_ok iter _ _ (Hiter m) Hm) (sm_lost _ _ Hsim)) as (l1 & lost & Hp & Hmv & Hlost & Hfit).
  rewrite Hfit in * by by apply pre_commit_fits. unfold s', xact_commit. fold m.
  destruct (update_pass (iter m) (w_shared w)) as [needs s1]. cbn [fst snd] in *.
  split; [rewrite Hlost, Z.add_0_r; symmetry; apply Hsim|]. intros c Hc. rewrite !shown_cell_value by done.
  rewrite Hiter in Hp. rewrite (commit_values _ _ m l1 [] f c) by done. unfold commit_staged. rewrite decide_False by set_solver.
  rewrite Hrel by done. fold m. destruct (m !! pack_cell c); [done|]. by apply add2_zero_r, cell_value_in.
Qed.

(** C25: A transaction whose check passed, and which commits before any other commit
    takes its room, loses nothing: the failure counter stays, every cell moves by the
    delta staged for it, and every other cell keeps its balance, in whatever order
    the entries are walked. *)
Theorem checked_commit_applies_all s w b iter :
  rollup_ok s → rtc step (booted s) w → w_depth w b = O → (∀ m, iter m ≡ₚ map_to_list m) →
  xact_pre_commit (w_shared w) (w_stack w b) = true →
  let staged := drain_pending_stack (w_stack w b) in
  let s' := (xact_commit iter (w_stack w b) (w_shared w)).1 in
  LEDGER_SHMEM_INSERT_FAILURES s' = LEDGER_SHMEM_INSERT_FAILURES (w_shared w) ∧
  ∀ c, valid_cell c →
    shown s' c = match staged !! pack_cell c with
                 | Some e => add2 (shown (w_shared w) c) (pe_amount_delta e, pe_qty_delta e)
                 | None => shown (w_shared w) c
                 end.
Proof. apply checked_commit. Qed.
