(* ===== verification/ExtDurable.v ===== *)
(** Sequence numbers of the balance rollup: what tells the drain worker which cells
    to write, and the durable table which write is newer.  With them in order, a
    drain followed by a restart of the server shows the balances it showed before. *)
From stdpp Require Import functions.
From S2P Require Import Prelude ExtTable ExtBalance ExtNested ExtTransactions.

(** A cell of the table and its durable row: a cell that is not dirty is written, and
    a dirty one is newer than its row. *)
Definition cell_seq (b : Bucket) (row : option RollupRow) (hi : Z) : Prop :=
  0 < bk_last_seq b ≤ hi ∧ 0 ≤ bk_drained_seq b ≤ hi ∧
  match row with
  | None => bk_drained_seq b < bk_last_seq b
  | Some r =>
      (bk_last_seq b ≤ bk_drained_seq b → unpack_bal_qty (bk_balance_qty b) = (ru_balance r, ru_qty r)) ∧
      ru_last_seq r ≤ bk_last_seq b ∧
      (bk_drained_seq b < bk_last_seq b → ru_last_seq r < bk_last_seq b)
  end.
Record seqs_ok (hi : Z) (s : Shared) : Prop := {
  sq_apply : 0 ≤ APPLY_SEQ s ≤ hi;
  sq_rows : map_Forall (λ _ r, 0 ≤ ru_last_seq r ≤ hi) (account_balances_rollup s);
  sq_cells : ∀ key i, valid_key key → probe_table (HASH_TABLE s) key = Hit i →
    cell_seq (bucket (HASH_TABLE s) i) (account_balances_rollup s !! unpack_key key) (APPLY_SEQ s);
}.
Lemma cell_seq_mono b row hi hi' : hi ≤ hi' → cell_seq b row hi → cell_seq b row hi'.
Proof. intros Hle (H1 & H2 & H3). split_and!; [lia..|done]. Qed.
Lemma seqs_ok_mono hi hi' s : hi ≤ hi' → seqs_ok hi s → seqs_ok hi' s.
Proof. intros Hle [H1 H2 H3]. split; [lia| |done]. eapply map_Forall_impl; [exact H2|]. cbn. lia. Qed.
Lemma as_u64_small z : 0 ≤ z < 2 ^ 64 → as_u64 z = z.
Proof. apply Z.mod_small. Qed.
Lemma as_i64_small z : 0 ≤ z < 2 ^ 63 → as_i64 z = z.
Proof. intros. apply wrap_i64_id. unfold in_i64, i64_min, i64_max. lia. Qed.

(** One cell written with the next sequence number. *)
Lemma seqs_write hi s s' key i b seq :
  seqs_ok hi s → valid_key key → HASH_TABLE s' = <[i := b]> (HASH_TABLE s) →
  account_balances_rollup s' = account_balances_rollup s → APPLY_SEQ s' = seq → APPLY_SEQ s ≤ seq ≤ hi + 1 →
  (∀ k j, valid_key k → probe_table (<[i := b]> (HASH_TABLE s)) k = Hit j →
     (k = key ∧ j = i) ∨ (j ≠ i ∧ probe_table (HASH_TABLE s) k = Hit j)) →
  cell_seq b (account_balances_rollup s !! unpack_key key) seq → seqs_ok (hi + 1) s'.
Proof.
  intros [H1 H2 H3] Hv Ht Hr Hs Hseq Hprobe Hb. split; rewrite ?Ht, ?Hr, ?Hs.
  - lia.
  - eapply map_Forall_impl; [exact H2|]. cbn. lia.
  - intros k j Hk Hj. destruct (Hprobe k j Hk Hj) as [[-> ->]|[Hne Hj']]; [by rewrite bucket_insert|].
    rewrite bucket_insert_ne by done. eapply cell_seq_mono; [|by apply H3]. lia.
Qed.
Lemma seqs_update hi key a q s r s' :
  shared_ok s → seqs_ok hi s → valid_key key → hi < 2 ^ 63 - 1 → try_update_existing key a q s = (r, s') → seqs_ok (hi + 1) s'.
Proof.
  intros Hs Hq Hv Hhi. pose proof Hq as [H1 H2 H3]. unfold try_update_existing.
  destruct (probe_table (HASH_TABLE s) key) as [i| |] eqn:E; cbn; [|intros [= <- <-]; eapply seqs_ok_mono; [|done]; lia..].
  intros [= <- <-]. rewrite as_u64_small by lia. pose proof (probe_Hit _ _ _ E) as [[Ho Hat] _].
  set (b := bk_apply _ _ _ _). destruct (H3 key i Hv E) as (Hl & Hd & Hrow).
  eapply (seqs_write hi s _ key i b); [done..|cbn; lia| |].
  - intros k j Hk Hj. apply update_key_probe in Hj; [|apply Hs|done..]. destruct (decide (j = i)) as [->|]; [left|by right].
    split; [|done]. apply probe_Hit in Hj as [[_ Hatk] _]. apply valid_same_key; [done..|]. by eapply at_key_two.
  - unfold cell_seq, b. cbn. rewrite Z.max_r by lia. split_and!; [lia..|].
    destruct (account_balances_rollup s !! unpack_key key) as [row|]; [|lia]. split_and!; lia.
Qed.
Lemma fresh_probe t key i (b : Bucket) k j :
  table_wf t → probe_table t key = Vacant i → bk_occupied b = 1 → bk_key_hi b = key_hi key → bk_key_lo b = key_lo key →
  valid_key key → valid_key k → probe_table (<[i := b]> t) k = Hit j → (k = key ∧ j = i) ∨ (j ≠ i ∧ probe_table t k = Hit j).
Proof.
  intros Hwf E Ho Hhi Hlo Hkey Hk Hj. assert (sl_occupied b ≠ 0) as Hb by (cbn; lia).
  assert (at_key b key = true) as Hat by (by apply at_key_true).
  destruct (insert_key_probe t key i b k Hwf E Hb Hat) as [Hsame Hother]. destruct (decide (k = key)) as [->|Hne].
  - left. split; [done|]. rewrite (Hsame (conj eq_refl eq_refl)) in Hj. congruence.
  - right. rewrite Hother in Hj; [|intros Hs; by apply Hne, valid_same_key]. split; [|done]. intros ->.
    apply probe_Hit in Hj as [[Hoc _] _]. exact (proj1 (probe_Vacant _ _ _ E) Hoc).
Qed.
Lemma seqs_insert hi key a q s r s' :
  shared_ok s → seqs_ok hi s → valid_key key → hi < 2 ^ 63 - 1 → cell_exists s key = false →
  insert_new_seeded key (seed_of s key) a q s = (r, s') → seqs_ok (hi + 1) s'.
Proof.
  intros Hs Hq Hv Hhi Hno. pose proof Hq as [H1 H2 H3]. rewrite cell_exists_false in Hno.
  assert (∀ n, APPLY_SEQ s ≤ n ≤ hi → seqs_ok (hi + 1) (set_seq n s)) as Hskip.
  { intros n Hn. split; cbn; [lia|eapply map_Forall_impl; [exact H2|]; cbn; lia|]. intros k j Hk Hj.
    eapply cell_seq_mono; [|by apply H3]. lia. }
  unfold insert_new_seeded, seed_of, lookup_rollup_seed.
  destruct (account_balances_rollup s !! unpack_key key) as [row|] eqn:Hrow; cbn; rewrite find_vacant_probe by done.
  - specialize (H2 _ _ Hrow). cbn in H2. rewrite (as_u64_small (ru_last_seq row)) by lia.
    destruct (probe_table (HASH_TABLE s) key) as [j|i|] eqn:E; [by destruct (Hno j)| |intros [= <- <-]; apply Hskip; lia].
    cbn. intros [= <- <-]. rewrite (as_u64_small (Z.max (APPLY_SEQ s) (ru_last_seq row) + 1)) by lia. eapply (seqs_write hi s _ key i); [done..|cbn; lia| |].
    + intros k j. eapply fresh_probe; [apply Hs|done..].
    + rewrite Hrow. unfold cell_seq. cbn. split_and!; lia.
  - destruct (probe_table (HASH_TABLE s) key) as [j|i|] eqn:E; [by destruct (Hno j)| |intros [= <- <-]; eapply seqs_ok_mono; [|done]; lia].
    cbn. intros [= <- <-]. rewrite (as_u64_small (APPLY_SEQ s + 1)) by lia. eapply (seqs_write hi s _ key i); [done..|cbn; lia| |].
    + intros k j. eapply fresh_probe; [apply Hs|done..].
    + rewrite Hrow. unfold cell_seq. cbn. lia.
Qed.

(** * Passes of a commit *)
Lemma seqs_update_pass hi l s :
  shared_ok s → seqs_ok hi s → entries_ok s l → hi + Z.of_nat (length l) < 2 ^ 63 → seqs_ok (hi + Z.of_nat (length l)) (update_pass l s).2.
Proof.
  revert hi s. induction l as [|[key e] l IH]; intros hi s Hs Hq Hl Hhi; cbn [update_pass length snd]; [by rewrite Z.add_0_r|].
  cbn [length] in Hhi. pose proof Hl as [_ Hall]. destruct (Hall key e ltac:(by left)) as (Hv & Hδ & _).
  destruct (try_update_existing _ _ _ s) as [r s1] eqn:E. pose proof (seqs_update hi _ _ _ s r s1 Hs Hq Hv ltac:(lia) E) as Hq1.
  assert (shared_ok s1 ∧ entries_ok s1 l) as [Hs1 Hl1].
  { destruct (cell_exists s key) eqn:Hex.
    - destruct (try_update_applied key (delta e) s Hs Hv Hex) as (seq & s1' & Hrun & Happ). cbn in Hrun. rewrite E in Hrun.
      injection Hrun as -> ->. split; [apply Happ|]. eapply entries_ok_cons; [exact Hl|apply Happ|].
      intros k Hk Hne. rewrite (ap_exists _ _ _ _ Happ) by done. rewrite bool_decide_eq_false_2 by done. by rewrite orb_false_r.
    - rewrite try_update_absent in E by done. injection E as <- <-. split; [done|]. by eapply entries_ok_cons. }
  specialize (IH (hi + 1) s1 Hs1 Hq1 Hl1 ltac:(lia)). destruct (update_pass l s1) as [needs s2]. cbn [snd] in *.
  replace (hi + Z.of_nat (S (length l))) with (hi + 1 + Z.of_nat (length l)) by lia. by destruct r.
Qed.
Lemma seqs_insert_one hi key e s :
  shared_ok s → seqs_ok hi s → entry_ok s key e → cell_exists s key = false → hi < 2 ^ 63 - 1 →
  shared_ok (insert_one s (key, e)) ∧ seqs_ok (hi + 1) (insert_one s (key, e)) ∧
  account_balances_rollup (insert_one s (key, e)) = account_balances_rollup s ∧
  ∀ k, valid_key k → k ≠ key → cell_exists (insert_one s (key, e)) k = cell_exists s k.
Proof.
  intros Hs Hq (Hv & Hδ & _ & Hseed) Hno Hhi. unfold insert_one. rewrite try_update_absent by done. rewrite (Hseed Hno).
  destruct (insert_new_seeded key _ _ _ s) as [r s1] eqn:E. pose proof (seqs_insert hi _ _ _ s r s1 Hs Hq Hv Hhi Hno E) as Hq1.
  rewrite cell_exists_false in Hno. destruct (probe_table (HASH_TABLE s) key) as [j|i|] eqn:Ep; [by destruct (Hno j)|..].
  - destruct (insert_new_applied key (delta e) s i Hs Hv Hδ Ep) as (seq & s1' & Hrun & Happ & _). cbn [delta fst snd] in Hrun. rewrite E in Hrun.
    injection Hrun as -> ->. split_and!; [apply Happ|done|apply Happ|]. intros k Hk Hne.
    rewrite (ap_exists _ _ _ _ Happ) by done. rewrite bool_decide_eq_false_2 by done. by rewrite orb_false_r.
  - destruct (insert_new_full key (seed_of s key) (pe_amount_delta e) (pe_qty_delta e) s Ep) as (n & Hrun). rewrite E in Hrun.
    injection Hrun as -> ->. split_and!; [|destruct Hq1; by split|done|done].
    apply (same_table_moved s _ Hs); done.
Qed.
Lemma seqs_insert_pass hi l s :
  shared_ok s → seqs_ok hi s → entries_ok s l → (∀ ke, ke ∈ l → cell_exists s ke.1 = false) →
  hi + Z.of_nat (length l) < 2 ^ 63 → seqs_ok (hi + Z.of_nat (length l)) (insert_pass l s).
Proof.
  revert hi s. unfold insert_pass. induction l as [|[key e] l IH]; intros hi s Hs Hq Hl Habs Hhi; cbn [foldl length]; [by rewrite Z.add_0_r|].
  cbn [length] in Hhi. pose proof Hl as [Hnd Hall]. cbn in Hnd. apply NoDup_cons in Hnd as [Hnin Hnd].
  destruct (seqs_insert_one hi key e s Hs Hq) as (Hs1 & Hq1 & Hr1 & Hex); [apply Hall; by left|apply (Habs (key, e)); by left|lia|].
  replace (hi + Z.of_nat (S (length l))) with (hi + 1 + Z.of_nat (length l)) by lia. apply IH; [done..| | |lia].
  - by eapply entries_ok_cons.
  - intros [k e'] Hin. destruct (Hall k e' ltac:(by right)) as (Hvk & _). rewrite Hex; [apply (Habs (k, e')); by right|done|].
    cbn. intros ->. by apply Hnin, (fst_elem _ _ e').
Qed.
Lemma seqs_commit hi iter stack s :
  shared_ok s → seqs_ok hi s → entries_ok s (iter (drain_pending_stack stack)) →
  hi + 2 * Z.of_nat (length (iter (drain_pending_stack stack))) < 2 ^ 63 →
  seqs_ok (hi + 2 * Z.of_nat (length (iter (drain_pending_stack stack)))) (xact_commit iter stack s).1.
Proof.
  intros Hs Hq Hl Hhi. unfold xact_commit. set (l := iter _) in *. destruct (update_pass_fresh l s Hs Hl) as (Hs1 & Hok & Habs).
  pose proof (seqs_update_pass hi l s Hs Hq Hl ltac:(lia)) as Hq1. destruct (update_pass_spec l s Hs Hl) as (s1 & E & _).
  assert (length (update_pass l s).1 ≤ length l)%nat as Hlen by (rewrite E; apply List.filter_length_le).
  destruct (update_pass l s) as [needs s2]. cbn [fst snd] in *.
  eapply seqs_ok_mono; [|apply (seqs_insert_pass (hi + Z.of_nat (length l))); [done..|lia]]. lia.
Qed.

(** * A drain, cell by cell *)
Lemma dirty_at s key i :
  shared_ok s → valid_key key → probe_table (HASH_TABLE s) key = Hit i →
  bk_drained_seq (bucket (HASH_TABLE s) i) < bk_last_seq (bucket (HASH_TABLE s) i) →
  ∃ d, d ∈ dirty_cells (HASH_TABLE s) ∧ dirty_cell (HASH_TABLE s) i = Some d ∧ dc_key d = key ∧ dc_cell d = unpack_key key ∧
       (dc_balance d, dc_qty d) = unpack_bal_qty (bk_balance_qty (bucket (HASH_TABLE s) i)) ∧ dc_last d = bk_last_seq (bucket (HASH_TABLE s) i).
Proof.
  intros Hs Hv Hi Hlt. pose proof (probe_Hit _ _ _ Hi) as [[Ho Hat] Hr].
  destruct (dirty_cell (HASH_TABLE s) i) as [d|] eqn:E.
  - pose proof (dirty_cell_key s i d Hs E) as (k & Hvk & Hh & Hk & Hc & Hval & Hl & _).
    assert (k = key) as -> by (apply valid_same_key; [done..|]; eapply at_key_two; [apply Hh|done]).
    exists d. split_and!; [apply elem_of_dirty_cells; by exists i|done..| |done]. rewrite Hval. unfold cell_value. by rewrite Hi.
  - unfold dirty_cell in E. apply Z.eqb_neq in Ho. cbn in Ho. rewrite Ho in E. apply Z.leb_gt in Hlt. by rewrite Hlt in E.
Qed.
Lemma dirty_keys_NoDup s : shared_ok s → NoDup (dc_key <$> dirty_cells (HASH_TABLE s)).
Proof.
  intros Hs. apply NoDup_dirty_cells. intros i j x y (k & Hk & Hh & Hkx & _)%(dirty_cell_key s) (k' & Hk' & Hh' & Hky & _)%(dirty_cell_key s) Heq; [|done..].
  assert (k = k') as <- by congruence. apply (probe_holds _ _ _ (so_table _ Hs)) in Hh, Hh'. congruence.
Qed.
Lemma dirty_unique s d d' :
  shared_ok s → d ∈ dirty_cells (HASH_TABLE s) → d' ∈ dirty_cells (HASH_TABLE s) → dc_key d = dc_key d' → d = d'.
Proof.
  intros Hs Hd Hd' Heq. pose proof (dirty_keys_NoDup s Hs) as Hnd. revert Hnd Hd Hd'. generalize (dirty_cells (HASH_TABLE s)).
  intros l Hnd. induction l as [|x l IH]; [by intros ?%elem_of_nil|]. cbn in Hnd. apply NoDup_cons in Hnd as [Hn Hnd].
  rewrite !elem_of_cons. intros [->|H1] [->|H2]; [done|..|by apply IH].
  - destruct Hn. rewrite Heq. by apply list_elem_of_fmap_2.
  - destruct Hn. rewrite <-Heq. by apply list_elem_of_fmap_2.
Qed.
Lemma upserts_at l m d :
  NoDup (dc_cell <$> l) → d ∈ l → foldl (λ m d, upsert_rollup d m) m l !! dc_cell d = upsert_rollup d m !! dc_cell d.
Proof.
  revert m. induction l as [|d' l IH]; intros m Hnd Hd; [by apply elem_of_nil in Hd|]. cbn in *. apply NoDup_cons in Hnd as [Hn Hnd].
  apply elem_of_cons in Hd as [->|Hd]; [by apply upserts_other|]. rewrite IH by done. unfold upsert_rollup at 1 3.
  assert (dc_cell d' ≠ dc_cell d) as Hne by (intros Heq; apply Hn; rewrite Heq; by apply list_elem_of_fmap_2).
  assert (upsert_rollup d' m !! dc_cell d = m !! dc_cell d) as ->.
  { unfold upsert_rollup. destruct (m !! dc_cell d') as [r|]; [destruct (_ <? _)|]; by rewrite ?lookup_insert_ne by done. }
  destruct (m !! dc_cell d) as [r|] eqn:Em; [destruct (_ <? _)|]; rewrite ?lookup_insert_eq; try done.
  unfold upsert_rollup. destruct (m !! dc_cell d') as [r'|]; [destruct (_ <? _)|]; by rewrite ?lookup_insert_ne by done.
Qed.
Lemma stamps_other l t i :
  (∀ d, d ∈ l → probe_table t (dc_key d) ≠ Hit i) → table_wf t →
  bucket (foldl (λ t d, stamp_drained t (dc_key d) (dc_last d)) t l) i = bucket t i.
Proof.
  revert t. induction l as [|d l IH]; intros t Hd Hwf; [done|]. cbn. pose proof (stamp_same t (dc_key d) (dc_last d) Hwf) as Hsc.
  rewrite IH; [|..|apply Hsc].
  - unfold stamp_drained. destruct (probe_table t (dc_key d)) as [j| |] eqn:E; [|done..].
    rewrite bucket_insert_ne; [done|]. intros ->. apply (Hd d); [by left|done].
  - intros d' Hd' Hp%(same_cells_probe t); [|done..]. apply (Hd d'); [by right|done].
Qed.
Lemma stamps_at l t d i :
  table_wf t → d ∈ l → NoDup (dc_key <$> l) → (∀ d', d' ∈ l → valid_key (dc_key d')) → probe_table t (dc_key d) = Hit i →
  bucket (foldl (λ t d, stamp_drained t (dc_key d) (dc_last d)) t l) i = bk_stamp (dc_last d) (bucket t i).
Proof.
  revert t. induction l as [|d' l IH]; intros t Hwf Hd Hnd Hv Hi; [by apply elem_of_nil in Hd|]. cbn in *.
  apply NoDup_cons in Hnd as [Hn Hnd]. pose proof (stamp_same t (dc_key d') (dc_last d') Hwf) as Hsc.
  assert (∀ x, x ∈ l → dc_key x ≠ dc_key d') as Hkeys by (intros x Hx Heq; apply Hn; rewrite <-Heq; by apply list_elem_of_fmap_2).
  assert (∀ x, x ∈ d' :: l → probe_table t (dc_key x) = Hit i → dc_key x = dc_key d) as Huniq.
  { intros x Hx Hpx. apply probe_Hit in Hpx as [[_ Hax] _], Hi as [[_ Had] _]. apply valid_same_key; [by apply Hv..|]. by eapply at_key_two. }
  apply elem_of_cons in Hd as [->|Hd].
  - rewrite stamps_other; [|..|apply Hsc].
    + unfold stamp_drained. rewrite Hi. by rewrite bucket_insert.
    + intros x Hx Hp%(same_cells_probe t); [|done..]. apply (Hkeys x Hx), Huniq; [by right|done].
  - rewrite IH; [|apply Hsc|done|done|intros x Hx; apply Hv; by right|by apply (same_cells_probe t)].
    unfold stamp_drained. destruct (probe_table t (dc_key d')) as [j| |] eqn:E; [|done..].
    rewrite bucket_insert_ne; [done|]. intros ->. apply (Hkeys d Hd). symmetry. apply Huniq; [by left|done].
Qed.

(** A tick writes the dirty cells whose upsert goes through and stamps them; it leaves
    the others alone. *)
Definition written (spi_ok : CellKey → bool) (s : Shared) : list DirtyCell :=
  List.filter (λ d, spi_ok (dc_cell d)) (dirty_cells (HASH_TABLE s)).
Lemma tick_shared spi_ok s :
  HASH_TABLE (do_drain_tick spi_ok s) = foldl (λ t d, stamp_drained t (dc_key d) (dc_last d)) (HASH_TABLE s) (written spi_ok s) ∧
  account_balances_rollup (do_drain_tick spi_ok s) = foldl (λ m d, upsert_rollup d m) (account_balances_rollup s) (written spi_ok s) ∧
  APPLY_SEQ (do_drain_tick spi_ok s) = APPLY_SEQ s.
Proof. unfold do_drain_tick, written. destruct (dirty_cells (HASH_TABLE s)) as [|d l]; [done|]. by destruct (0 <? _). Qed.
Lemma written_facts spi_ok s :
  shared_ok s → NoDup (dc_key <$> written spi_ok s) ∧ NoDup (dc_cell <$> written spi_ok s) ∧
  ∀ d, d ∈ written spi_ok s → spi_ok (dc_cell d) = true ∧ ∃ i, probe_table (HASH_TABLE s) (dc_key d) = Hit i ∧ valid_key (dc_key d) ∧
    dc_cell d = unpack_key (dc_key d) ∧ bk_drained_seq (bucket (HASH_TABLE s) i) < bk_last_seq (bucket (HASH_TABLE s) i).
Proof.
  intros Hs. assert (sublist (written spi_ok s) (dirty_cells (HASH_TABLE s))) as Hsub.
  { unfold written. generalize (dirty_cells (HASH_TABLE s)). intros l. induction l as [|d l IH]; [done|]. cbn. by destruct (spi_ok _); constructor. }
  assert (∀ d, d ∈ written spi_ok s → spi_ok (dc_cell d) = true ∧ ∃ i, probe_table (HASH_TABLE s) (dc_key d) = Hit i ∧ valid_key (dc_key d) ∧
    dc_cell d = unpack_key (dc_key d) ∧ bk_drained_seq (bucket (HASH_TABLE s) i) < bk_last_seq (bucket (HASH_TABLE s) i)) as Hall.
  { intros d [Hin Hok]%list_elem_of_In%List.filter_In. split; [done|]. apply list_elem_of_In, elem_of_dirty_cells in Hin as (i & _ & Hi).
    apply dirty_cell_key in Hi as (k & Hv & Hh & <- & Hc & _ & Hl & Hlt); [|done]. exists i. rewrite Hl in Hlt.
    split_and!; [by apply probe_holds; [apply Hs|]|done..]. }
  assert (NoDup (dc_key <$> written spi_ok s)) as Hnd.
  { eapply sublist_NoDup; [by apply dirty_keys_NoDup|]. by apply fmap_sublist. }
  split_and!; [done| |done]. revert Hnd Hall. generalize (written spi_ok s). intros l Hnd Hall.
  induction l as [|d l IH]; [constructor|]. cbn in *. apply NoDup_cons in Hnd as [Hn Hnd]. apply NoDup_cons. split.
  - intros (d' & Hd & Hin)%list_elem_of_fmap. destruct (Hall d ltac:(by left)) as (_ & _ & _ & Hv & Hc & _).
    destruct (Hall d' ltac:(by right)) as (_ & _ & _ & Hv' & Hc' & _). apply Hn. apply list_elem_of_fmap. exists d'. split; [|done].
    apply unpack_key_inj; [done..|congruence].
  - apply IH; [done|]. intros d' Hin. apply Hall. by right.
Qed.
Lemma tick_cell spi_ok s key i :
  shared_ok s → valid_key key → probe_table (HASH_TABLE s) key = Hit i →
  let b := bucket (HASH_TABLE s) i in let s' := do_drain_tick spi_ok s in
  if spi_ok (unpack_key key) && (bk_drained_seq b <? bk_last_seq b)
  then bucket (HASH_TABLE s') i = bk_stamp (bk_last_seq b) b ∧
       ∃ d, dc_cell d = unpack_key key ∧ dc_last d = bk_last_seq b ∧ (dc_balance d, dc_qty d) = unpack_bal_qty (bk_balance_qty b) ∧
            account_balances_rollup s' !! unpack_key key = upsert_rollup d (account_balances_rollup s) !! unpack_key key
  else bucket (HASH_TABLE s') i = b ∧ account_balances_rollup s' !! unpack_key key = account_balances_rollup s !! unpack_key key.
Proof.
  intros Hs Hv Hi b s'. destruct (tick_shared spi_ok s) as (Ht & Hr & _). unfold s'. rewrite Ht, Hr.
  destruct (written_facts spi_ok s Hs) as (Hnk & Hnc & Hall). destruct (_ && _) eqn:Hc.
  - apply andb_true_iff in Hc as [Hok Hlt]. apply Z.ltb_lt in Hlt.
    destruct (dirty_at s key i Hs Hv Hi Hlt) as (d & Hin & _ & Hk & Hcell & Hval & Hlast).
    assert (d ∈ written spi_ok s) as Hw.
    { apply list_elem_of_In, List.filter_In. rewrite Hcell. split; [by apply list_elem_of_In|done]. }
    split.
    + rewrite (stamps_at _ _ d); [by rewrite Hlast|apply Hs|done|done|by intros d' (_ & ? & _ & ? & _)%Hall|by rewrite Hk].
    + exists d. split_and!; [done..|]. rewrite <-Hcell. by apply upserts_at.
  - assert (∀ d, d ∈ written spi_ok s → dc_key d ≠ key) as Hne.
    { intros d Hd ->%eq_sym. destruct (Hall d Hd) as (Hok & j & Hj & _ & Hcd & Hlt). rewrite Hi in Hj. injection Hj as <-.
      rewrite <-Hcd, Hok in Hc. apply Z.ltb_ge in Hc. unfold b in Hc. lia. }
    split.
    + apply stamps_other; [|apply Hs]. intros d Hd Hp. apply (Hne d Hd). destruct (Hall d Hd) as (_ & _ & _ & Hvd & _).
      apply probe_Hit in Hp as [[_ Ha] _], Hi as [[_ Ha'] _]. apply valid_same_key; [done..|]. by eapply at_key_two.
    + apply upserts_other. intros (d & Hd & Hin)%list_elem_of_fmap. apply (Hne d Hin).
      destruct (Hall d Hin) as (_ & j & _ & Hvd & Hcd & _). apply unpack_key_inj; [done..|congruence].
Qed.
(** A dirty cell is newer than its row, so its write is not skipped. *)
Lemma upsert_newer d m c b hi :
  dc_cell d = c → dc_last d = bk_last_seq b → hi < 2 ^ 63 → cell_seq b (m !! c) hi → bk_drained_seq b < bk_last_seq b →
  upsert_rollup d m !! c = Some {| ru_balance := dc_balance d; ru_qty := dc_qty d; ru_last_seq := bk_last_seq b |}.
Proof.
  intros <- Hl Hhi (H1 & H2 & H3) Hlt. unfold upsert_rollup. rewrite Hl, as_i64_small by lia.
  destruct (m !! dc_cell d) as [r|]; [|by rewrite lookup_insert_eq]. destruct H3 as (_ & _ & H3). specialize (H3 Hlt).
  apply Z.ltb_lt in H3. rewrite H3. by rewrite lookup_insert_eq.
Qed.
Lemma upserts_rows l m hi :
  hi < 2 ^ 63 → (∀ d, d ∈ l → 0 ≤ dc_last d ≤ hi) → map_Forall (λ _ r, 0 ≤ ru_last_seq r ≤ hi) m →
  map_Forall (λ _ r, 0 ≤ ru_last_seq r ≤ hi) (foldl (λ m d, upsert_rollup d m) m l).
Proof.
  intros Hhi. revert m. induction l as [|d l IH]; intros m Hd Hm; [done|]. cbn. apply IH; [intros d' Hin; apply Hd; by right|].
  assert (0 ≤ dc_last d ≤ hi) as Hl by (apply Hd; by left). unfold upsert_rollup. rewrite as_i64_small by lia.
  destruct (m !! dc_cell d) as [r|]; [destruct (_ <? _)|]; try done; by apply map_Forall_insert_2.
Qed.
Lemma seqs_tick hi spi_ok s : shared_ok s → seqs_ok hi s → hi < 2 ^ 63 → seqs_ok hi (do_drain_tick spi_ok s).
Proof.
  intros Hs Hq Hhi. pose proof Hq as [H1 H2 H3]. destruct (tick_shared spi_ok s) as (Ht & Hr & Ha).
  destruct (written_facts spi_ok s Hs) as (_ & _ & Hall). split; rewrite ?Ha; [done|..].
  - rewrite Hr. apply upserts_rows; [done| |done]. intros d Hd. destruct (Hall d Hd) as (_ & i & Hi & Hv & _ & Hlt).
    destruct (dirty_at s _ i Hs Hv Hi Hlt) as (d' & Hd' & _ & Hk & _ & _ & Hlast). destruct (H3 _ i Hv Hi) as (Hl & _).
    assert (d' = d) as <-; [|lia]. apply list_elem_of_In, List.filter_In in Hd as [Hd _]. apply list_elem_of_In in Hd.
    by eapply (dirty_unique s).
  - intros key i Hv Hi'. assert (probe_table (HASH_TABLE s) key = Hit i) as Hi.
    { rewrite Ht in Hi'. apply (same_cells_probe (HASH_TABLE s)) in Hi'; [done|apply Hs|]. apply stamps_same, Hs. }
    pose proof (H3 key i Hv Hi) as Hcell. pose proof (tick_cell spi_ok s key i Hs Hv Hi) as Hc. cbv zeta in Hc.
    destruct (_ && _) eqn:Hb; [|by destruct Hc as [-> ->]]. apply andb_true_iff in Hb as [_ Hlt%Z.ltb_lt].
    destruct Hc as (-> & d & Hdc & Hdl & Hdv & ->). rewrite (upsert_newer d _ _ _ _ Hdc Hdl (Z.le_lt_trans _ _ _ (proj2 H1) Hhi) Hcell Hlt).
    destruct Hcell as (Hl & Hd & _). unfold cell_seq, bk_stamp. cbn [bk_last_seq bk_drained_seq bk_balance_qty ru_balance ru_qty ru_last_seq].
    split_and!; [lia..|done|lia|lia].
Qed.
(** When every write goes through, every cell of the table has its value in its row. *)
Lemma full_tick_rows hi s key i :
  shared_ok s → seqs_ok hi s → hi < 2 ^ 63 → valid_key key → probe_table (HASH_TABLE s) key = Hit i →
  ∃ r, account_balances_rollup (do_drain_tick (λ _, true) s) !! unpack_key key = Some r ∧
       (ru_balance r, ru_qty r) = unpack_bal_qty (bk_balance_qty (bucket (HASH_TABLE s) i)).
Proof.
  intros Hs Hq Hhi Hv Hi. pose proof (sq_apply _ _ Hq) as Ha. pose proof (sq_cells _ _ Hq key i Hv Hi) as Hcell.
  pose proof (tick_cell (λ _, true) s key i Hs Hv Hi) as Hc. cbv zeta in Hc. cbn [andb] in Hc. destruct (_ <? _) eqn:Hb.
  - apply Z.ltb_lt in Hb. destruct Hc as (_ & d & Hdc & Hdl & Hdv & ->).
    rewrite (upsert_newer d _ _ _ _ Hdc Hdl (Z.le_lt_trans _ _ _ (proj2 Ha) Hhi) Hcell Hb). by eexists.
  - apply Z.ltb_ge in Hb. destruct Hc as [_ ->]. destruct Hcell as (Hl & Hd & Hrow).
    destruct (account_balances_rollup s !! unpack_key key) as [r|]; [|lia]. exists r. split; [done|]. symmetry. by apply Hrow.
Qed.

(** * Runs in which sequence numbers do not run out *)
Definition seqs_below (hi : Z) (s : Shared) : Prop :=
  APPLY_SEQ s ≤ hi ∧ map_Forall (λ _ r, ru_last_seq r ≤ hi) (account_balances_rollup s).
Definition seq_room (w : World) : Prop :=
  ∃ hi, seqs_below hi (w_shared w) ∧ ∀ b, hi + 2 * Z.of_nat (size (drain_pending_stack (w_stack w b))) < 2 ^ 63.
Definition roomy (w w' : World) : Prop := step w w' ∧ seq_room w.
Lemma seqs_ok_below hi hi' s : seqs_ok hi s → seqs_below hi' s → seqs_ok hi' s.
Proof. intros [H1 H2 H3] [B1 B2]. split; [lia| |done]. intros c r Hr. specialize (H2 c r Hr). specialize (B2 c r Hr). cbn in *. lia. Qed.
Lemma seqs_step hi w w' sp : sim w sp → seqs_ok hi (w_shared w) → roomy w w' → ∃ hi', seqs_ok hi' (w_shared w').
Proof.
  intros Hsim Hq0 [Hstep (hi' & Hbelow & Hroom)]. pose proof (seqs_ok_below _ _ _ Hq0 Hbelow) as Hq. clear Hq0 Hbelow hi.
  destruct Hstep as [| | | |b|b iter Hch Hd Hiter| |spi_ok]; try (by exists hi').
  - by exists hi'; destruct (xact_pre_commit _ _).
  - pose proof (sm_depth _ _ Hsim b) as Hlen. pose proof (sm_stack _ _ Hsim b) as Hst. rewrite Hd in Hlen.
    destruct (sp_frames sp b) as [|f [|? ?]]; [done| |done]. destruct (stack_one _ _ Hst) as [_ Hform].
    eexists. cbn. apply (seqs_commit hi'); [apply Hsim|done|..].
    + apply iter_entries_ok; [done|]. eapply drain_one_ok; [done|done|apply Hsim].
    + specialize (Hroom b). by rewrite Hiter, length_map_to_list.
  - exists hi'. cbn. apply seqs_tick; [apply Hsim|done|]. specialize (Hroom O). lia.
Qed.
Lemma roomy_run w w' sp hi :
  sim w sp → seqs_ok hi (w_shared w) → rtc roomy w w' → (∃ sp', sim w' sp') ∧ ∃ hi', seqs_ok hi' (w_shared w').
Proof.
  intros Hsim Hq Hr. revert sp hi Hsim Hq. induction Hr as [w|w w1 w2 H1 H2 IH]; intros sp hi Hsim Hq; [by eauto|].
  destruct (seqs_step hi w w1 sp Hsim Hq H1) as (hi1 & Hq1). destruct H1 as [H1 _].
  destruct (sim_step _ _ _ Hsim H1) as (sp1 & _ & Hs1). by eapply IH.
Qed.
Definition seqs_start (hi : Z) (s : Shared) : Prop := 0 ≤ hi ∧ map_Forall (λ _ r, 0 ≤ ru_last_seq r ≤ hi) (account_balances_rollup s).
Lemma seqs_booted hi s : seqs_start hi s → seqs_ok hi (w_shared (booted s)).
Proof. intros [H0 H]. split; cbn; [lia|done|]. intros key i _ Hi. by destruct (empty_probe _ _ Hi). Qed.

Lemma absent_value s key :
  cell_exists s key = false →
  cell_value s key = from_option (λ r, (ru_balance r, ru_qty r)) (0, 0) (account_balances_rollup s !! unpack_key key).
Proof. unfold cell_exists, cell_value. by destruct (probe_table _ _). Qed.

