(* ===== verification/ExtDispatch.v ===== *)
(** The batch entry points of the balance rollup (ledger-extension, lib.rs):
    [ledger_apply_batch] stages legs the caller computed, and the weighted-average
    dispatcher prices receipts and issues from the pools' balances first.  JSON
    decoding is a library's: an envelope is the values its keys decode to. *)
From stdpp Require Import functions.
From S2P Require Import Prelude ExtTable ExtBalance.

(** * Envelopes *)
Inductive DispatchError :=
  | NotAnArray
  | NotAnObject (idx : Z)
  | UnknownKind (idx : Z) (kind : string)
  | MissingKey (idx : Z) (key : string)
  | InvalidKey (idx : Z) (key : string)
  | EmptyPool (envelope_idx pool_id running_qty : Z)
  | ExceedsPool (envelope_idx qty running_qty : Z)
  | ShortBy (envelope_idx units pool_id : Z).
Abbreviation Checked A := (DispatchError + A)%type.
Definition bindC {A B} (x : Checked A) (f : A → Checked B) : Checked B := match x with inl e => inl e | inr a => f a end.
Notation "'let?' x := e1 'in' e2" := (bindC e1 (λ x, e2)) (at level 10, x pattern, e1 at level 100, e2 at level 200).
Definition require {A} (err : DispatchError) (o : option A) : Checked A := match o with Some a => inr a | None => inl err end.
Fixpoint traverse {A B} (f : Z → A → Checked B) (idx : Z) (l : list A) : Checked (list B) :=
  match l with
  | [] => inr []
  | a :: l => let? b := f idx a in let? bs := traverse f (idx + 1) l in inr (b :: bs)
  end.

(** ** Legs computed by the caller *)
Record LegJson := {
  lj_a : option Z; lj_p : option Z; lj_c : option Z; lj_k : option Z; lj_amt : option Z; lj_qty : option Z;
}.
Record ParsedLeg := { pg_account : Z; pg_period : Z; pg_currency : Z; pg_kind : Z; pg_amount : Z; pg_qty : Z }.
Definition parse_leg (idx : Z) (env : option LegJson) : Checked ParsedLeg :=
  let? obj := require (NotAnObject idx) env in
  let? a := require (MissingKey idx "a") (lj_a obj) in
  let? amt := require (MissingKey idx "amt") (lj_amt obj) in
  let? qty := require (MissingKey idx "qty") (lj_qty obj) in
  inr {| pg_account := a; pg_period := as_i32 (default 1 (lj_p obj)); pg_currency := as_i16 (default 1 (lj_c obj));
         pg_kind := as_i16 (default 1 (lj_k obj)); pg_amount := amt; pg_qty := qty |}.
Definition ledger_apply_batch (spi_ok : bool) (s : Shared) (envelopes : option (list (option LegJson))) (stack : list Frame)
    : Checked (Z * list Frame) :=
  let? arr := require NotAnArray envelopes in
  let? parsed := traverse parse_leg 0 arr in
  inr (Z.of_nat (length parsed),
       foldl (λ st g, stage_apply spi_ok s (pg_account g) (pg_period g) (pg_currency g) (pg_kind g) (pg_amount g) (pg_qty g) st) stack parsed).

(** ** Weighted average *)
Inductive WacKind := Transfer | WacReceipt | WacIssue.
Record EnvelopeJson := {
  ej_kind : option string; ej_envelope_idx : option Z; ej_debit : option Z; ej_credit : option Z;
  ej_amount : option Z; ej_qty : option Z; ej_unit_cost : option Z;
}.
Record Parsed := {
  pa_envelope_idx : Z; pa_kind : WacKind; pa_debit : Z; pa_credit : Z;
  pa_amount : option Z; pa_qty : option Z; pa_unit_cost : option Z;
}.
Definition wac_kind (idx : Z) (s : string) : Checked WacKind :=
  if decide (s = "transfer"%string) then inr Transfer
  else if decide (s = "wac_receipt"%string) then inr WacReceipt
  else if decide (s = "wac_issue"%string) then inr WacIssue
  else inl (UnknownKind idx s).
Definition positive_key (err : DispatchError) (o : option Z) : Checked unit := if default 0 o <=? 0 then inl err else inr tt.
Definition parse_wac (idx : Z) (env : option EnvelopeJson) : Checked Parsed :=
  let? obj := require (NotAnObject idx) env in
  let? kind := wac_kind idx (default "transfer"%string (ej_kind obj)) in
  let? debit := require (MissingKey idx "debit_account_id") (ej_debit obj) in
  let? credit := require (MissingKey idx "credit_account_id") (ej_credit obj) in
  let? _ := match kind with
            | Transfer => let? _ := require (MissingKey idx "amount") (ej_amount obj) in inr tt
            | WacReceipt =>
                let? _ := positive_key (InvalidKey idx "qty") (ej_qty obj) in positive_key (InvalidKey idx "unit_cost") (ej_unit_cost obj)
            | WacIssue => positive_key (InvalidKey idx "qty") (ej_qty obj)
            end in
  inr {| pa_envelope_idx := as_i32 (default idx (ej_envelope_idx obj)); pa_kind := kind; pa_debit := debit; pa_credit := credit;
         pa_amount := ej_amount obj; pa_qty := ej_qty obj; pa_unit_cost := ej_unit_cost obj |}.

Record PricedRow := { pr_envelope_idx : Z; pr_debit : Z; pr_credit : Z; pr_amount : Z; pr_qty : option Z }.
(** account, amount, quantity *)
Abbreviation Leg := (Z * Z * Z)%type.
Definition neg (z : Z) : Z := wrap_i64 (- z).
Definition wac_out (p : Parsed) (amount : Z) (qty : option Z) : PricedRow :=
  {| pr_envelope_idx := pa_envelope_idx p; pr_debit := pa_debit p; pr_credit := pa_credit p; pr_amount := amount; pr_qty := qty |}.
(** [seed] is the probe of the pool, used the first time the batch meets it. *)
Definition running (seed : Z → Z * Z) (pools : gmap Z (Z * Z)) (pool_id : Z) : Z * Z := default (seed pool_id) (pools !! pool_id).
Definition wac_price (seed : Z → Z * Z) (p : Parsed) (pools : gmap Z (Z * Z)) : Checked (PricedRow * list Leg * gmap Z (Z * Z)) :=
  match pa_kind p with
  | Transfer =>
      let amt := default 0 (pa_amount p) in
      inr (wac_out p amt None, [(pa_debit p, amt, 0); (pa_credit p, neg amt, 0)], pools)
  | WacReceipt =>
      let qty := default 0 (pa_qty p) in
      let amt := saturating_mul qty (default 0 (pa_unit_cost p)) in
      let '(value, on_hand) := running seed pools (pa_debit p) in
      inr (wac_out p amt (Some qty), [(pa_debit p, amt, qty); (pa_credit p, neg amt, 0)],
           <[pa_debit p := (saturating_add value amt, saturating_add on_hand qty)]> pools)
  | WacIssue =>
      let qty := default 0 (pa_qty p) in
      let '(value, on_hand) := running seed pools (pa_credit p) in
      if on_hand <=? 0 then inl (EmptyPool (pa_envelope_idx p) (pa_credit p) on_hand)
      else if on_hand <? qty then inl (ExceedsPool (pa_envelope_idx p) qty on_hand)
      else
        let amt := saturating_mul (Z.quot value on_hand) qty in
        inr (wac_out p amt (Some qty), [(pa_credit p, neg amt, neg qty); (pa_debit p, amt, 0)],
             <[pa_credit p := (wrap_i64 (value - amt), wrap_i64 (on_hand - qty))]> pools)
  end.
Fixpoint wac_price_all (seed : Z → Z * Z) (ps : list Parsed) (pools : gmap Z (Z * Z)) : Checked (list PricedRow * list Leg * gmap Z (Z * Z)) :=
  match ps with
  | [] => inr ([], [], pools)
  | p :: ps =>
      let? x := wac_price seed p pools in
      let? y := wac_price_all seed ps x.2 in
      inr (x.1.1 :: y.1.1, x.1.2 ++ y.1.2, y.2)
  end.
Definition stage_legs (spi_ok : bool) (s : Shared) (legs : list Leg) (stack : list Frame) : list Frame :=
  foldl (λ st g, stage_apply spi_ok s g.1.1 1 1 1 g.1.2 g.2 st) stack legs.
Definition ledger_dispatch_wac_batch (spi_ok : bool) (s : Shared) (envelopes : option (list (option EnvelopeJson))) (stack : list Frame)
    : Checked (list PricedRow * list Frame) :=
  let? arr := require NotAnArray envelopes in
  let? parsed := traverse parse_wac 0 arr in
  let? x := wac_price_all (probe_shmem_pool s) parsed ∅ in
  inr (x.1.1, stage_legs spi_ok s x.1.2 stack).
