(* ===== verification/ExtWac.v ===== *)
(** The weighted-average dispatcher and the balances it commits: the running totals the
    batch was priced with are the balances that are shown after the commit. *)
From stdpp Require Import functions.
From S2P Require Import Prelude ExtTable ExtBalance ExtNested ExtTransactions ExtDispatch.

(** * Legs of an account *)
Definition leg_on (a : Z) (f : Leg → Z) (legs : list Leg) : Z := sumZ (λ g, if decide (g.1.1 = a) then f g else 0) legs.
Definition amt_of (g : Leg) : Z := g.1.2.
Definition qty_of (g : Leg) : Z := g.2.
Definition bounded (a : Z) (v : Z * Z) (legs : list Leg) : Prop :=
  Z.abs v.1 + leg_on a (λ g, Z.abs (amt_of g)) legs ≤ i64_max ∧ Z.abs v.2 + leg_on a (λ g, Z.abs (qty_of g)) legs ≤ i64_max.
Definition moved_by (a : Z) (v : Z * Z) (legs : list Leg) : Z * Z := (v.1 + leg_on a amt_of legs, v.2 + leg_on a qty_of legs).
(** The pool of an envelope, and its other accounts. *)
Definition pool_of (p : Parsed) : option Z :=
  match pa_kind p with Transfer => None | WacReceipt => Some (pa_debit p) | WacIssue => Some (pa_credit p) end.
Definition others (p : Parsed) : list Z :=
  match pa_kind p with Transfer => [pa_debit p; pa_credit p] | WacReceipt => [pa_credit p] | WacIssue => [pa_debit p] end.
Definition pools_apart (ps : list Parsed) : Prop := ∀ p q a, p ∈ ps → q ∈ ps → pool_of p = Some a → a ∉ others q.
Definition ints_ok (p : Parsed) : Prop :=
  in_i64 (pa_debit p) ∧ in_i64 (pa_credit p) ∧ in_i64 (default 0 (pa_amount p)) ∧ in_i64 (default 0 (pa_qty p)) ∧ in_i64 (default 0 (pa_unit_cost p)).
Definition qty_ok (p : Parsed) : Prop := match pa_kind p with Transfer => True | _ => 0 < default 0 (pa_qty p) end.

Lemma leg_on_cons a f g legs : leg_on a f (g :: legs) = (if decide (g.1.1 = a) then f g else 0) + leg_on a f legs.
Proof. apply sumZ_cons. Qed.
Lemma leg_on_app a f l k : leg_on a f (l ++ k) = leg_on a f l + leg_on a f k.
Proof. apply sumZ_app. Qed.
Lemma leg_on_nil a f : leg_on a f [] = 0.
Proof. done. Qed.
Lemma leg_on_abs a f legs : Z.abs (leg_on a f legs) ≤ leg_on a (λ g, Z.abs (f g)) legs.
Proof. induction legs as [|g legs IH]; [done|]. rewrite !leg_on_cons. destruct (decide _); lia. Qed.
Lemma leg_on_abs_pos a f legs : 0 ≤ leg_on a (λ g, Z.abs (f g)) legs.
Proof. pose proof (leg_on_abs a f legs). lia. Qed.
Lemma bounded_app a v l k : bounded a v (l ++ k) → bounded a v l ∧ bounded a (moved_by a v l) k.
Proof.
  unfold bounded, moved_by. rewrite !leg_on_app. cbn. pose proof (leg_on_abs a amt_of l). pose proof (leg_on_abs a qty_of l).
  pose proof (leg_on_abs_pos a amt_of k). pose proof (leg_on_abs_pos a qty_of k). lia.
Qed.
Lemma neg_exact z : in_i64 z → Z.abs (neg z) ≤ i64_max → neg z = - z.
Proof. unfold neg, wrap_i64, in_i64, i64_min, i64_max. intros H1 H2. zdiv. Qed.
Lemma saturate_small z : Z.abs z ≤ i64_max → saturate z = z.
Proof. intros. apply saturate_id. unfold in_i64, i64_min, i64_max in *. lia. Qed.
Lemma wrap_small z : Z.abs z ≤ i64_max → wrap_i64 z = z.
Proof. intros. apply wrap_i64_id. unfold in_i64, i64_min, i64_max in *. lia. Qed.
Lemma running_insert seed pools a v : running seed (<[a := v]> pools) a = v.
Proof. unfold running. by rewrite lookup_insert_eq. Qed.
Lemma running_insert_ne seed pools a b v : a ≠ b → running seed (<[a := v]> pools) b = running seed pools b.
Proof. intros. unfold running. by rewrite lookup_insert_ne. Qed.

(** One envelope moves its pool by its leg. *)
Lemma wac_price_moves seed p pools row legs pools' a :
  ints_ok p → qty_ok p → wac_price seed p pools = inr (row, legs, pools') → a ∉ others p → bounded a (running seed pools a) legs →
  running seed pools' a = moved_by a (running seed pools a) legs.
Proof.
  intros (_ & _ & Hamt & Hqty & Huc) Hpos. unfold wac_price, others, qty_ok, bounded, moved_by in *. destruct (pa_kind p).
  - intros [= <- <- <-] [Hd [Hc _]%not_elem_of_cons]%not_elem_of_cons _. rewrite !leg_on_cons, !leg_on_nil. cbn.
    rewrite !decide_False by congruence. rewrite !Z.add_0_r. by destruct (running _ _ _).
  - destruct (running seed pools (pa_debit p)) as [v n] eqn:Er. intros [= <- <- <-] [Hc _]%not_elem_of_cons.
    rewrite !leg_on_cons, !leg_on_nil. cbn. rewrite !(decide_False (P := pa_credit p = a)) by congruence.
    destruct (decide (pa_debit p = a)) as [<-|Hne]; [|rewrite running_insert_ne by done; rewrite !Z.add_0_r; by destruct (running _ _ a)].
    rewrite running_insert, Er. cbn. intros [H1 H2]. unfold saturating_add. rewrite !Z.add_0_r in *.
    rewrite !saturate_small by lia. done.
  - destruct (running seed pools (pa_credit p)) as [v n] eqn:Er. destruct (Z.leb_spec n 0); [done|]. destruct (Z.ltb_spec n (default 0 (pa_qty p))); [done|].
    set (amt := saturating_mul _ _). intros [= <- <- <-] [Hd _]%not_elem_of_cons.
    rewrite !leg_on_cons, !leg_on_nil. cbn. rewrite !(decide_False (P := pa_debit p = a)) by congruence.
    destruct (decide (pa_credit p = a)) as [<-|Hne]; [|rewrite running_insert_ne by done; rewrite !Z.add_0_r; by destruct (running _ _ a)].
    rewrite running_insert, Er. cbn. rewrite !Z.add_0_r. intros [H1 H2].
    rewrite (neg_exact amt) in * by (apply saturate_in || lia). rewrite (neg_exact (default 0 (pa_qty p))) in * by (done || lia).
    rewrite !wrap_small by lia. f_equal; lia.
Qed.
Lemma wac_price_all_moves seed ps pools rows legs pools' a :
  Forall ints_ok ps → Forall qty_ok ps → wac_price_all seed ps pools = inr (rows, legs, pools') → (∀ p, p ∈ ps → a ∉ others p) →
  bounded a (running seed pools a) legs → running seed pools' a = moved_by a (running seed pools a) legs.
Proof.
  revert pools rows legs pools'. induction ps as [|p ps IH]; intros pools rows legs pools' Hi Hq; cbn [wac_price_all].
  { intros [= <- <- <-] _ _. unfold moved_by. rewrite !leg_on_nil, !Z.add_0_r. by destruct (running _ _ _). }
  apply Forall_cons in Hi as [Hi His], Hq as [Hq Hqs]. destruct (wac_price seed p pools) as [|[[row l1] pools1]] eqn:E1; [done|]. cbn.
  destruct (wac_price_all seed ps pools1) as [|[[rows2 l2] pools2]] eqn:E2; [done|]. cbn. intros [= <- <- <-] Hn [Hb1 Hb2]%bounded_app.
  pose proof (wac_price_moves _ _ _ _ _ _ a Hi Hq E1 (Hn p ltac:(by left)) Hb1) as H1.
  rewrite (IH pools1 rows2 l2 pools2 His Hqs E2); [|intros q Hin; apply Hn; by right|by rewrite H1].
  rewrite H1. unfold moved_by. rewrite !leg_on_app. cbn. f_equal; lia.
Qed.
(** Only pools of envelopes are tracked. *)
Lemma wac_price_all_dom seed ps pools rows legs pools' a :
  wac_price_all seed ps pools = inr (rows, legs, pools') → is_Some (pools' !! a) → is_Some (pools !! a) ∨ ∃ p, p ∈ ps ∧ pool_of p = Some a.
Proof.
  revert pools rows legs pools'. induction ps as [|p ps IH]; intros pools rows legs pools'; cbn [wac_price_all]; [intros [= <- <- <-]; auto|].
  destruct (wac_price seed p pools) as [|[[row l1] pools1]] eqn:E1; [done|]. cbn.
  destruct (wac_price_all seed ps pools1) as [|[[rows2 l2] pools2]] eqn:E2; [done|]. cbn. intros [= <- <- <-] Ha.
  destruct (IH _ _ _ _ E2 Ha) as [H1|(q & Hq & Hp)]; [|right; exists q; split; [by right|done]].
  revert E1. unfold wac_price. destruct (pa_kind p) eqn:Ek.
  - intros [= <- <- <-]. by left.
  - destruct (running _ _ _). intros [= <- <- <-]. destruct (decide (pa_debit p = a)) as [<-|Hne]; [|rewrite lookup_insert_ne in H1; auto].
    right. exists p. split; [by left|]. unfold pool_of. by rewrite Ek.
  - destruct (running _ _ _). destruct (_ <=? _); [done|]. destruct (_ <? _); [done|]. intros [= <- <- <-].
    destruct (decide (pa_credit p = a)) as [<-|Hne]; [|rewrite lookup_insert_ne in H1; auto].
    right. exists p. split; [by left|]. unfold pool_of. by rewrite Ek.
Qed.

(** ** The legs *)
Definition leg_ok (g : Leg) : Prop := in_i64 g.1.1 ∧ in2 (g.1.2, g.2).
Lemma neg_in z : in_i64 (neg z).
Proof. apply wrap_i64_range. Qed.
Lemma zero_in : in_i64 0.
Proof. done. Qed.
Ltac solve_legs := repeat (apply Forall_cons_2; [split_and!; first [done | apply neg_in]|]); apply Forall_nil_2.
Lemma wac_price_legs seed p pools row legs pools' :
  ints_ok p → wac_price seed p pools = inr (row, legs, pools') →
  Forall leg_ok legs ∧ (Forall (λ g, amt_of g ≠ i64_min) legs → sumZ amt_of legs = 0).
Proof.
  intros (Hd & Hc & Ha & Hq & _). pose proof zero_in. unfold wac_price, leg_ok, in2, amt_of.
  assert (∀ z, in_i64 z → neg z ≠ i64_min → z + (neg z + 0) = 0) as Hneg.
  { intros z Hz Hn. rewrite neg_exact; [lia|done|]. pose proof (neg_in z) as Hr. unfold in_i64, i64_min, i64_max in *. lia. }
  destruct (pa_kind p).
  - intros [= <- <- <-]. split; [solve_legs|]. rewrite !Forall_cons. cbn. intros (_ & Hn & _). by apply Hneg.
  - destruct (running _ _ _). intros [= <- <- <-]. pose proof (saturate_in (default 0 (pa_qty p) * default 0 (pa_unit_cost p))) as Hs.
    split; [solve_legs|]. rewrite !Forall_cons. cbn. intros (_ & Hn & _). by apply Hneg.
  - destruct (running _ _ _). destruct (_ <=? _); [done|]. destruct (_ <? _); [done|]. intros [= <- <- <-].
    pose proof (saturate_in (Z.quot z z0 * default 0 (pa_qty p))) as Hs.
    split; [solve_legs|]. rewrite !Forall_cons. cbn. intros (Hn & _).
    rewrite !sumZ_cons, sumZ_nil. cbn. rewrite Z.add_comm, <-Z.add_assoc. specialize (Hneg _ Hs Hn). unfold saturating_mul in *. lia.
Qed.
Lemma wac_price_all_legs seed ps pools rows legs pools' :
  Forall ints_ok ps → wac_price_all seed ps pools = inr (rows, legs, pools') →
  Forall leg_ok legs ∧ (Forall (λ g, amt_of g ≠ i64_min) legs → sumZ amt_of legs = 0).
Proof.
  revert pools rows legs pools'. induction ps as [|p ps IH]; intros pools rows legs pools' Hi; cbn [wac_price_all]; [by intros [= <- <- <-]|].
  apply Forall_cons in Hi as [Hi His]. destruct (wac_price seed p pools) as [|[[row l1] pools1]] eqn:E1; [done|]. cbn.
  destruct (wac_price_all seed ps pools1) as [|[[rows2 l2] pools2]] eqn:E2; [done|]. cbn. intros [= <- <- <-].
  destruct (wac_price_legs _ _ _ _ _ _ Hi E1) as [H1 H2]. destruct (IH _ _ _ _ His E2) as [H3 H4].
  split; [by apply Forall_app|]. rewrite Forall_app, sumZ_app. intros [? ?]. rewrite H2, H4 by done. done.
Qed.

(** ** Staging them *)
Definition pool_cell (a : Z) : CellKey := (a, 1, 1, 1).
Lemma pool_cell_valid a : in_i64 a → valid_cell (pool_cell a).
Proof. intros H. split_and!; [done|..]; unfold in_i32, in_i16; lia. Qed.
Definition staged_delta (f : Frame) (a : Z) : Z * Z := from_option delta (0, 0) (f !! pack_cell (pool_cell a)).
Lemma stage_apply_one s a x q st f :
  ensure_top_frame st = [f] →
  ∃ e, stage_apply true s a 1 1 1 x q st = [<[pack_cell (pool_cell a) := e]> f] ∧
       delta e = match f !! pack_cell (pool_cell a) with Some e0 => sat2 (delta e0) (x, q) | None => (x, q) end.
Proof.
  intros Hst. unfold stage_apply. rewrite Hst. cbn [top_frame set_top]. change (pack_key a 1 1 (as_u8 1)) with (pack_cell (pool_cell a)).
  destruct (f !! pack_cell (pool_cell a)) as [e0|]; eexists; (split; [reflexivity|done]).
Qed.
Lemma stage_one_delta f e g a :
  in_i64 a → leg_ok g → bounded a (staged_delta f a) [g] →
  delta e = match f !! pack_cell (pool_cell g.1.1) with Some e0 => sat2 (delta e0) (g.1.2, g.2) | None => (g.1.2, g.2) end →
  staged_delta (<[pack_cell (pool_cell g.1.1) := e]> f) a = moved_by a (staged_delta f a) [g].
Proof.
  intros Ha [Hg _] Hb He. unfold bounded, moved_by in *. rewrite !leg_on_cons, !leg_on_nil in *. unfold amt_of, qty_of in *.
  destruct (decide (g.1.1 = a)) as [<-|Hne].
  - unfold staged_delta in *. rewrite lookup_insert_eq. cbn [from_option]. rewrite He. destruct (f !! _) as [e0|]; cbn [from_option fst snd] in *.
    + unfold sat2, saturating_add. cbn [fst snd] in *. rewrite !Z.add_0_r in *. rewrite !saturate_small by lia. done.
    + by rewrite !Z.add_0_l, !Z.add_0_r.
  - rewrite !Z.add_0_r. unfold staged_delta. rewrite lookup_insert_ne; [by destruct (from_option _ _ _)|].
    intros Heq%pack_cell_inj; [by injection Heq|by apply pool_cell_valid..].
Qed.
Lemma stage_legs_delta s legs st f :
  ensure_top_frame st = [f] → Forall leg_ok legs →
  ∃ f', ensure_top_frame (stage_legs true s legs st) = [f'] ∧
        ∀ a, in_i64 a → bounded a (staged_delta f a) legs → staged_delta f' a = moved_by a (staged_delta f a) legs.
Proof.
  revert st f. unfold stage_legs. induction legs as [|g legs IH]; intros st f Hst Hg; cbn [foldl].
  { exists f. split; [done|]. intros a _ _. unfold moved_by. rewrite !leg_on_nil, !Z.add_0_r. by destruct (staged_delta f a). }
  apply Forall_cons in Hg as [Hg Hgs]. destruct (stage_apply_one s g.1.1 g.1.2 g.2 st f Hst) as (e & -> & He).
  set (f1 := <[pack_cell (pool_cell g.1.1) := e]> f). destruct (IH [f1] f1 eq_refl Hgs) as (f' & Hf' & Hd). exists f'. split; [exact Hf'|]. intros a Ha Hb.
  change (g :: legs) with ([g] ++ legs) in Hb. apply bounded_app in Hb as [Hb1 Hb2].
  pose proof (stage_one_delta f e g a Ha Hg Hb1 He) as Hs. fold f1 in Hs. rewrite Hd; [|done|by rewrite Hs]. rewrite Hs.
  unfold moved_by. change (g :: legs) with ([g] ++ legs). rewrite !leg_on_app. cbn. f_equal; lia.
Qed.
Lemma stage_legs_steps w b legs :
  Forall leg_ok legs → w_checked w b = false →
  ∃ w', rtc step w w' ∧ w_shared w' = w_shared w ∧ w_stack w' b = stage_legs true (w_shared w) legs (w_stack w b) ∧ w_depth w' b = w_depth w b.
Proof.
  revert w. unfold stage_legs. induction legs as [|g legs IH]; intros w Hg Hc; [by exists w|].
  apply Forall_cons in Hg as [[Ha Hd] Hgs]. pose proof (do_stage w b g.1.1 1 1 1 g.1.2 g.2 Hc (pool_cell_valid _ Ha) Hd) as Hstep.
  set (w1 := w_with _ _ _ _ _) in Hstep. destruct (IH w1 Hgs) as (w' & Hr & Hs & Hst & Hdp); [cbn; by rewrite fn_lookup_insert|].
  exists w'. cbn [foldl]. unfold w1, w_with in Hst, Hdp, Hs. cbn [w_shared w_stack w_depth] in Hst, Hdp, Hs.
  rewrite fn_lookup_insert in Hst. rewrite fn_lookup_insert in Hdp.
  split_and!; [by eapply rtc_l|done..].
Qed.

(** * A batch and its commit *)
Lemma bindC_inr {A B} (x : Checked A) (f : A → Checked B) b : bindC x f = inr b → ∃ a, x = inr a ∧ f a = inr b.
Proof. destruct x; [done|]. intros H. eauto. Qed.
Lemma parse_wac_qty_ok idx env p : parse_wac idx env = inr p → qty_ok p.
Proof.
  unfold parse_wac. intros (obj & _ & (kind & Hk & (d & _ & (c & _ & (u & Hu & [= <-])%bindC_inr)%bindC_inr)%bindC_inr)%bindC_inr)%bindC_inr.
  unfold qty_ok. cbn. destruct kind; [done|..].
  - apply bindC_inr in Hu as (u' & Hq & _). unfold positive_key in Hq. destruct (Z.leb_spec (default 0 (ej_qty obj)) 0); [done|lia].
  - unfold positive_key in Hu. destruct (Z.leb_spec (default 0 (ej_qty obj)) 0); [done|lia].
Qed.
Lemma traverse_qty_ok idx envs ps : traverse parse_wac idx envs = inr ps → Forall qty_ok ps.
Proof.
  revert idx ps. induction envs as [|env envs IH]; intros idx ps; cbn [traverse]; [intros [= <-]; constructor|].
  intros (p & Hp & (ps' & Hps & [= <-])%bindC_inr)%bindC_inr. constructor; [by eapply parse_wac_qty_ok|by eapply IH].
Qed.
Lemma drain_one st f : ensure_top_frame st = [f] → drain_pending_stack st = f.
Proof. destruct st as [|g [|]]; cbn; intros [= <-]; [done|]. apply merge_frame_empty. Qed.
Lemma add2_moved a v d legs :
  d = moved_by a (0, 0) legs → bounded a v legs → add2 v d = moved_by a v legs.
Proof.
  intros -> [H1 H2]. unfold add2, moved_by, wadd. cbn. pose proof (leg_on_abs a amt_of legs). pose proof (leg_on_abs a qty_of legs).
  rewrite !wrap_small by lia. done.
Qed.

