(* ===== verification/ExtScenario.v ===== *)
(** Runs of the balance rollup on concrete inputs. *)
From stdpp Require Import functions.
From S2P Require Import Prelude ExtTable ExtBalance ExtNested ExtTransactions ExtDurable ExtDispatch ExtWac.

Definition pool7 : CellKey := (7, 1, 1, 1).
Definition pool8 : CellKey := (8, 1, 1, 1).
(** A durable balance of 1000 for 10 units on pool 7, nothing on pool 8. *)
Definition stored : Shared :=
  {| HASH_TABLE := ∅; OCCUPIED_COUNT := 0; APPLY_SEQ := 0; LEDGER_SHMEM_INSERT_FAILURES := 0;
     LEDGER_DRAIN_CONSECUTIVE_FAILS := 0; LEDGER_DRAIN_TOTAL_FAILURES := 0;
     account_balances_rollup := {[ pool7 := {| ru_balance := 1000; ru_qty := 10; ru_last_seq := 5 |} ]} |}.
Definition stage (b : nat) (c : CellKey) (x q : Z) (w : World) : World :=
  let '(a, p, cu, l) := c in w_with b (stage_apply true (w_shared w) a p cu l x q (w_stack w b)) (w_depth w b) false w.
Definition start_sub (b : nat) (w : World) : World := w_with b (subxact_start_sub (w_stack w b)) (S (w_depth w b)) false w.
Definition commit_sub (b : nat) (w : World) : World := w_with b (subxact_commit_sub (w_stack w b)) (pred (w_depth w b)) false w.
Definition abort_sub (b : nat) (w : World) : World := w_with b (subxact_abort_sub (w_stack w b)) (pred (w_depth w b)) false w.
Definition checked (b : nat) (w : World) : World := w_with b (w_stack w b) O true w.
Definition commit (b : nat) (w : World) : World :=
  w_set_shared (xact_commit map_to_list (w_stack w b) (w_shared w)).1 (w_with b (xact_commit map_to_list (w_stack w b) (w_shared w)).2 O false w).

(** Backend 0 adds 300 for 3 units to pool 7 and, in a subtransaction that is kept,
    50 to pool 8; what it does in a second one is rolled back.  Backend 1 takes 1 unit
    from pool 7 in between. *)
Definition in_progress : World :=
  stage 1 pool7 (-100) (-1) (abort_sub 0 (stage 0 pool7 9999 99 (start_sub 0 (commit_sub 0
    (stage 0 pool8 50 5 (start_sub 0 (stage 0 pool7 300 3 (booted stored)))))))).
Definition both_committed : World := commit 1 (checked 1 (commit 0 (checked 0 in_progress))).

Lemma cells_valid : valid_cell pool7 ∧ valid_cell pool8.
Proof. unfold valid_cell, pool7, pool8, in_i64, in_i32, in_i16, i64_min, i64_max. lia. Qed.
Lemma in2_ex x q : (i64_min <=? x) && (x <=? i64_max) && (i64_min <=? q) && (q <=? i64_max) = true → in2 (x, q).
Proof. unfold in2, in_i64. cbn. lia. Qed.
Lemma stage_step b c x q w :
  w_checked w b = false → valid_cell c → in2 (x, q) → step w (stage b c x q w).
Proof. destruct c as [[[a p] cu] l]. apply do_stage. Qed.
Lemma checked_step b w :
  w_checked w b = false → w_depth w b = O → xact_pre_commit (w_shared w) (w_stack w b) = true → step w (checked b w).
Proof. intros Hc Hd Hp. pose proof (do_pre_commit w b Hc Hd) as H. by rewrite Hp in H. Qed.
Lemma commit_step b w : w_checked w b = true → w_depth w b = O → step w (commit b w).
Proof. intros Hc Hd. by apply (do_commit w b map_to_list). Qed.
Lemma stored_ok : rollup_ok stored ∧ seqs_start 5 stored.
Proof. split; [|split; [done|]]; (apply map_Forall_insert_2; [|apply map_Forall_empty]); [by apply in2_ex|]. cbn. lia. Qed.
Lemma run_in_progress : rtc step (booted stored) in_progress.
Proof.
  destruct cells_valid as [H7 H8]. unfold in_progress.
  eapply rtc_l; [by apply (stage_step 0 pool7 300 3); [|..|apply in2_ex]|].
  eapply rtc_l; [by apply (do_start_sub _ 0)|]. eapply rtc_l; [by apply (stage_step 0 pool8 50 5); [|..|apply in2_ex]|].
  eapply rtc_l; [by eapply (do_commit_sub _ 0)|]. eapply rtc_l; [by apply (do_start_sub _ 0)|].
  eapply rtc_l; [by apply (stage_step 0 pool7 9999 99); [|..|apply in2_ex]|]. eapply rtc_l; [by eapply (do_abort_sub _ 0)|].
  apply rtc_once. by apply (stage_step 1 pool7 (-100) (-1)); [|..|apply in2_ex].
Qed.
Lemma run_committed : rtc step in_progress both_committed.
Proof.
  unfold both_committed. eapply rtc_l; [apply (checked_step 0); by vm_compute|]. eapply rtc_l; [by apply (commit_step 0)|].
  eapply rtc_l; [apply (checked_step 1); by vm_compute|]. apply rtc_once. by apply (commit_step 1).
Qed.

Lemma checked_commit_applies_all_witness :
  xact_pre_commit (w_shared in_progress) (w_stack in_progress 0) = true ∧
  LEDGER_SHMEM_INSERT_FAILURES (xact_commit map_to_list (w_stack in_progress 0) (w_shared in_progress)).1 =
    LEDGER_SHMEM_INSERT_FAILURES (w_shared in_progress).
Proof.
  split; [by vm_compute|].
  apply (checked_commit_applies_all stored in_progress 0 map_to_list); [apply stored_ok|apply run_in_progress|done|done|by vm_compute].
Defined.
Definition one_committed : World := commit 0 (checked 0 (stage 0 pool7 300 3 (booted stored))).
Lemma seq_room_ex w hi :
  seqs_below hi (w_shared w) → hi + 2 * Z.of_nat (size (drain_pending_stack (w_stack w 0))) < 2 ^ 63 →
  (∀ b, w_stack w (S b) = []) → hi < 2 ^ 63 → seq_room w.
Proof. intros Hb H0 Hs Hhi. exists hi. split; [done|]. intros [|b]; [done|]. rewrite Hs. change (size _) with O. lia. Qed.
Ltac room := apply (seq_room_ex _ 100); [split; [by vm_compute|by apply (bool_decide_eq_true_1 _); vm_compute]|by vm_compute|done|done].
Lemma roomy_one_committed : rtc roomy (booted stored) one_committed.
Proof.
  destruct cells_valid as [H7 _]. unfold one_committed.
  eapply rtc_l; [split; [by apply (stage_step 0 pool7 300 3); [|..|apply in2_ex]|room]|].
  eapply rtc_l; [split; [apply (checked_step 0); by vm_compute|room]|].
  apply rtc_once. split; [by apply (commit_step 0)|room].
Qed.

(** After a restart the query of the balance reads the durable row; the pool probe of
    the weighted-average dispatcher reads shared memory only. *)
Example pool_probe_forgets :
  shown (w_shared (booted stored)) pool7 = (1000, 10) ∧ probe_shmem_pool (w_shared (booted stored)) 7 = (0, 0).
Proof. by vm_compute. Qed.
(** A durable row that could not be read counts as no row: the balance restarts from
    the delta, and the drain does not correct it. *)
Definition unread : World :=
  commit 0 (checked 0 (w_with 0 (stage_apply false (w_shared (booted stored)) 7 1 1 1 300 3 []) 0 false (booted stored))).
Example unread_row_is_lost :
  (let s := do_drain_tick (λ _, true) (w_shared unread) in
   (shown (w_shared unread) pool7, shown s pool7, shown (ledger_shmem_reset s) pool7)) = ((300, 3), (300, 3), (1000, 10)).
Proof. by vm_compute. Qed.

(** * Weighted-average batches *)
Definition wac (kind : string) (debit credit qty : Z) (unit_cost : option Z) : option EnvelopeJson :=
  Some {| ej_kind := Some kind; ej_envelope_idx := None; ej_debit := Some debit; ej_credit := Some credit; ej_amount := None;
          ej_qty := Some qty; ej_unit_cost := unit_cost |}.
Definition move (debit credit amount : Z) : option EnvelopeJson :=
  Some {| ej_kind := None; ej_envelope_idx := None; ej_debit := Some debit; ej_credit := Some credit; ej_amount := Some amount;
          ej_qty := None; ej_unit_cost := None |}.
(** Pool 7 holds 13 units worth 1300: receive 2 at 100 from account 50, issue 5 to account 60. *)
Definition wac_batch : list (option EnvelopeJson) := [wac "wac_receipt" 7 50 2 (Some 100); wac "wac_issue" 60 7 5 None].
Definition wac_parsed : list Parsed := match traverse parse_wac 0 wac_batch with inr ps => ps | inl _ => [] end.
Definition wac_priced : list PricedRow * list Leg * gmap Z (Z * Z) :=
  match wac_price_all (probe_shmem_pool (w_shared one_committed)) wac_parsed ∅ with inr x => x | inl _ => ([], [], ∅) end.
Lemma wac_ints_ok : Forall ints_ok wac_parsed.
Proof.
  change wac_parsed with [{| pa_envelope_idx := 0; pa_kind := WacReceipt; pa_debit := 7; pa_credit := 50; pa_amount := None; pa_qty := Some 2; pa_unit_cost := Some 100 |};
    {| pa_envelope_idx := 1; pa_kind := WacIssue; pa_debit := 60; pa_credit := 7; pa_amount := None; pa_qty := Some 5; pa_unit_cost := None |}].
  repeat (apply Forall_cons_2; [unfold ints_ok, in_i64, i64_min, i64_max; cbn; lia|]). constructor.
Qed.
Lemma wac_apart : pools_apart wac_parsed.
Proof.
  assert (∀ p, p ∈ wac_parsed → pool_of p = Some 7 ∧ 7 ∉ others p) as H.
  { intros p Hp. change wac_parsed with [{| pa_envelope_idx := 0; pa_kind := WacReceipt; pa_debit := 7; pa_credit := 50; pa_amount := None; pa_qty := Some 2; pa_unit_cost := Some 100 |};
      {| pa_envelope_idx := 1; pa_kind := WacIssue; pa_debit := 60; pa_credit := 7; pa_amount := None; pa_qty := Some 5; pa_unit_cost := None |}] in Hp.
    apply elem_of_cons in Hp as [->|[->|[]%not_elem_of_nil]%elem_of_cons]; (split; [done|]); cbn; set_solver. }
  intros p q a Hp Hq Ha. destruct (H p Hp) as [Hp7 _]. rewrite Ha in Hp7. injection Hp7 as ->. by apply H.
Qed.
Lemma run_one_committed : rtc step (booted stored) one_committed.
Proof. eapply rtc_subrel; [|apply roomy_one_committed]. by intros ? ? [? _]. Qed.

(** Batches of one transaction do not see each other: each may issue what the pool
    held before the transaction. *)
Definition dispatched (w : World) (batch : list (option EnvelopeJson)) (st : list Frame) : list Frame :=
  match ledger_dispatch_wac_batch true (w_shared w) (Some batch) st with inr (_, st) => st | inl _ => [] end.
Example batches_of_one_transaction_overdraw :
  (let st := dispatched one_committed [wac "wac_issue" 60 7 10 None] (dispatched one_committed [wac "wac_issue" 60 7 10 None] []) in
   shown (xact_commit map_to_list st (w_shared one_committed)).1 pool7) = (-700, -7).
Proof. by vm_compute. Qed.
(** A transfer on a pool account is not part of the running totals of its batch: the issue
    that empties the pool leaves the transferred value behind, with no quantity. *)
Example transfer_misses_running_totals :
  (let st := dispatched one_committed [move 7 50 650; wac "wac_issue" 60 7 13 None] [] in
   shown (xact_commit map_to_list st (w_shared one_committed)).1 pool7) = (650, 0).
Proof. by vm_compute. Qed.
