(* ===== verification/ExtRing.v ===== *)
(** The ring of cost layers of one FIFO cell (ledger-extension, fifo.rs): a circular
    array of layers, oldest at the head, with the list of quantities that are still
    to be written to the durable layers.  The ring is a queue of layers. *)
From S2P Require Import Prelude ExtTable ExtBalance.

(** * Data *)
Record Layer := { ly_qty : Z; ly_unit_cost : Z; ly_layer_id : Z }.
Record PendingDrain := { pd_layer_id : Z; pd_qty_consumed : Z }.
Record RingFields := {
  rf_head : Z;
  rf_n_layers : Z;
  rf_pending_drain_n : Z;
  rf_layers : gmap Z Layer;
  rf_pending_drain : gmap Z PendingDrain;
}.
Record ConsumedSlice := { cs_layer_id : Z; cs_qty_consumed : Z; cs_unit_cost : Z }.
Record ConsumeResult := { cr_total_cost : Z; cr_consumed : list ConsumedSlice; cr_shortage : Z }.
#[global] Instance Layer_eq_dec : EqDecision Layer.
Proof. solve_decision. Defined.

Definition MAX_LAYERS : Z := 256.
Definition PENDING_DRAIN_CAP : Z := 64.
(** Entries that were never written are zeroed. *)
Definition ring_layer (r : RingFields) (i : Z) : Layer :=
  default {| ly_qty := 0; ly_unit_cost := 0; ly_layer_id := 0 |} (rf_layers r !! i).
Definition ring_pending (r : RingFields) (i : Z) : PendingDrain :=
  default {| pd_layer_id := 0; pd_qty_consumed := 0 |} (rf_pending_drain r !! i).
Definition zeroed_ring : RingFields :=
  {| rf_head := 0; rf_n_layers := 0; rf_pending_drain_n := 0; rf_layers := ∅; rf_pending_drain := ∅ |}.

(** * Operations *)
Definition push_layer (r : RingFields) (layer : Layer) : bool * RingFields :=
  if MAX_LAYERS <=? rf_n_layers r then (false, r)
  else
    let tail := (rf_head r + rf_n_layers r) `mod` MAX_LAYERS in
    (true, {| rf_head := rf_head r; rf_n_layers := rf_n_layers r + 1; rf_pending_drain_n := rf_pending_drain_n r;
              rf_layers := <[tail := layer]> (rf_layers r); rf_pending_drain := rf_pending_drain r |}).
Definition push_pending_drain (r : RingFields) (layer_id qty_consumed : Z) : bool * RingFields :=
  if PENDING_DRAIN_CAP <=? rf_pending_drain_n r then (false, r)
  else
    (true, {| rf_head := rf_head r; rf_n_layers := rf_n_layers r; rf_pending_drain_n := rf_pending_drain_n r + 1;
              rf_layers := rf_layers r;
              rf_pending_drain := <[rf_pending_drain_n r := {| pd_layer_id := layer_id; pd_qty_consumed := qty_consumed |}]> (rf_pending_drain r) |}).
Definition drain_pending_into (r : RingFields) : list PendingDrain * RingFields :=
  if rf_pending_drain_n r =? 0 then ([], r)
  else
    (ring_pending r <$> seqZ 0 (rf_pending_drain_n r),
     {| rf_head := rf_head r; rf_n_layers := rf_n_layers r; rf_pending_drain_n := 0;
        rf_layers := rf_layers r; rf_pending_drain := rf_pending_drain r |}).

Definition advance_head (r : RingFields) : RingFields :=
  {| rf_head := (rf_head r + 1) `mod` MAX_LAYERS; rf_n_layers := rf_n_layers r - 1; rf_pending_drain_n := rf_pending_drain_n r;
     rf_layers := rf_layers r; rf_pending_drain := rf_pending_drain r |}.
Definition take_qty (take : Z) (l : Layer) : Layer :=
  {| ly_qty := ly_qty l - take; ly_unit_cost := ly_unit_cost l; ly_layer_id := ly_layer_id l |}.
Definition lower_head (take : Z) (r : RingFields) : RingFields :=
  {| rf_head := rf_head r; rf_n_layers := rf_n_layers r; rf_pending_drain_n := rf_pending_drain_n r;
     rf_layers := <[rf_head r := take_qty take (ring_layer r (rf_head r))]> (rf_layers r); rf_pending_drain := rf_pending_drain r |}.
Definition slice_of (l : Layer) (take : Z) : ConsumedSlice :=
  {| cs_layer_id := ly_layer_id l; cs_qty_consumed := take; cs_unit_cost := ly_unit_cost l |}.
Fixpoint consume_loop (todo : nat) (remaining total_cost : Z) (consumed : list ConsumedSlice) (r : RingFields)
    : ConsumeResult * RingFields :=
  match todo with
  | S todo =>
      if (0 <? remaining) && (0 <? rf_n_layers r) then
        let layer := ring_layer r (rf_head r) in
        let take := Z.min remaining (ly_qty layer) in
        consume_loop todo (remaining - take) (saturating_add total_cost (saturating_mul take (ly_unit_cost layer)))
          (consumed ++ [slice_of layer take]) (if take =? ly_qty layer then advance_head r else lower_head take r)
      else ({| cr_total_cost := total_cost; cr_consumed := consumed; cr_shortage := remaining |}, r)
  | O => ({| cr_total_cost := total_cost; cr_consumed := consumed; cr_shortage := remaining |}, r)
  end.
(** Every turn of the loop either uses up a layer or the quantity. *)
Definition consume_from_head (r : RingFields) (qty : Z) : ConsumeResult * RingFields :=
  consume_loop (S (Z.to_nat (rf_n_layers r))) qty 0 [] r.

(** * The ring as a queue *)
Definition queue (r : RingFields) : list Layer :=
  (λ k, ring_layer r ((rf_head r + k) `mod` MAX_LAYERS)) <$> seqZ 0 (rf_n_layers r).
Definition staged (r : RingFields) : list PendingDrain := ring_pending r <$> seqZ 0 (rf_pending_drain_n r).
Record ring_wf (r : RingFields) : Prop := {
  rw_head : 0 ≤ rf_head r < MAX_LAYERS;
  rw_layers : 0 ≤ rf_n_layers r ≤ MAX_LAYERS;
  rw_pending : 0 ≤ rf_pending_drain_n r ≤ PENDING_DRAIN_CAP;
}.
(** Taking from a queue, oldest layer first. *)
Fixpoint take_from (q : list Layer) (remaining : Z) : list ConsumedSlice * Z * list Layer :=
  match q with
  | [] => ([], remaining, [])
  | l :: q' =>
      if remaining <=? 0 then ([], remaining, q)
      else if remaining <? ly_qty l then ([slice_of l remaining], 0, take_qty remaining l :: q')
      else
        let '(consumed, shortage, rest) := take_from q' (remaining - ly_qty l) in
        (slice_of l (ly_qty l) :: consumed, shortage, rest)
  end.
Definition slices_cost (l : list ConsumedSlice) : Z :=
  foldl (λ t s, saturating_add t (saturating_mul (cs_qty_consumed s) (cs_unit_cost s))) 0 l.

Lemma length_queue r : ring_wf r → Z.of_nat (length (queue r)) = rf_n_layers r.
Proof. intros [_ H _]. unfold queue. rewrite length_fmap, length_seqZ. lia. Qed.
Lemma queue_cons r :
  ring_wf r → 0 < rf_n_layers r → queue r = ring_layer r (rf_head r) :: queue (advance_head r).
Proof.
  intros [Hh _ _] Hn. unfold queue. rewrite seqZ_cons by done. cbn [fmap list_fmap]. f_equal.
  - rewrite Z.add_0_r. by rewrite Z.mod_small.
  - cbn [advance_head rf_n_layers]. change (Z.succ 0) with (1 + 0). rewrite <-fmap_add_seqZ, <-list_fmap_compose.
    unfold Z.pred. apply list_fmap_ext. intros _ k _. cbn. f_equal. rewrite Zplus_mod_idemp_l. f_equal. lia.
Qed.
Lemma queue_nil r : rf_n_layers r = 0 → queue r = [].
Proof. intros H. unfold queue. by rewrite H. Qed.
Lemma ring_layer_insert r i l r' : rf_layers r' = <[i := l]> (rf_layers r) → ring_layer r' i = l.
Proof. intros H. unfold ring_layer. by rewrite H, lookup_insert_eq. Qed.
Lemma ring_layer_insert_ne r i j l r' : rf_layers r' = <[i := l]> (rf_layers r) → i ≠ j → ring_layer r' j = ring_layer r j.
Proof. intros H Hne. unfold ring_layer. by rewrite H, lookup_insert_ne. Qed.
(** Different positions of the queue are in different places of the array. *)
Lemma slot_inj h j k : 0 ≤ j < MAX_LAYERS → 0 ≤ k < MAX_LAYERS → (h + j) `mod` MAX_LAYERS = (h + k) `mod` MAX_LAYERS → j = k.
Proof. unfold MAX_LAYERS. intros Hj Hk H. zdiv. Qed.
Lemma lower_head_wf r take : ring_wf r → ring_wf (lower_head take r).
Proof. by intros []. Qed.
Lemma advance_head_wf r : ring_wf r → 0 < rf_n_layers r → ring_wf (advance_head r).
Proof. intros [? ? ?] Hn. split; cbn; [by apply Z.mod_pos_bound|lia|done]. Qed.
Lemma queue_lower r take :
  ring_wf r → 0 < rf_n_layers r → queue (lower_head take r) = take_qty take (ring_layer r (rf_head r)) :: queue (advance_head r).
Proof.
  intros Hwf Hn. rewrite (queue_cons (lower_head take r)) by (done || by apply lower_head_wf). f_equal; [by apply (ring_layer_insert r)|].
  unfold queue. apply list_fmap_ext. intros _ k Hk%list_elem_of_lookup_2%elem_of_seqZ. cbn in Hk.
  eapply (ring_layer_insert_ne r); [done|]. cbn [advance_head lower_head rf_head]. intros Heq. destruct Hwf as [Hh Hl _].
  rewrite Zplus_mod_idemp_l in Heq. rewrite <-(Z.mod_small (rf_head r) MAX_LAYERS) in Heq at 1 by done.
  replace (rf_head r) with (rf_head r + 0) in Heq at 1 by lia. rewrite <-Z.add_assoc in Heq. apply slot_inj in Heq; lia.
Qed.

(** ** Pushing *)
Lemma seqZ_one m : seqZ m 1 = [m].
Proof. by rewrite seqZ_cons. Qed.
Lemma push_layer_queue r layer ok r' :
  ring_wf r → push_layer r layer = (ok, r') →
  ring_wf r' ∧ staged r' = staged r ∧
  (ok, queue r') = if bool_decide (Z.of_nat (length (queue r)) < MAX_LAYERS) then (true, queue r ++ [layer]) else (false, queue r).
Proof.
  intros Hwf. pose proof (length_queue r Hwf) as Hlen. destruct Hwf as [Hh Hl Hp]. unfold push_layer. rewrite Hlen.
  destruct (Z.leb_spec MAX_LAYERS (rf_n_layers r)) as [Hfull|Hroom]; intros [= <- <-].
  { rewrite bool_decide_eq_false_2 by lia. done. }
  rewrite bool_decide_eq_true_2 by done. split_and!; [split; cbn; [done|lia|done]|done|]. f_equal.
  unfold queue at 1. cbn [rf_n_layers rf_head]. rewrite seqZ_app by lia. rewrite fmap_app. f_equal.
  - apply list_fmap_ext. intros _ k Hk%list_elem_of_lookup_2%elem_of_seqZ. eapply (ring_layer_insert_ne r); [done|].
    intros Heq%slot_inj; lia.
  - rewrite Z.add_0_l, seqZ_one. cbn. f_equal. by apply (ring_layer_insert r).
Qed.
Lemma push_pending_staged r lid q ok r' :
  ring_wf r → push_pending_drain r lid q = (ok, r') →
  ring_wf r' ∧ queue r' = queue r ∧
  (ok, staged r') = if bool_decide (Z.of_nat (length (staged r)) < PENDING_DRAIN_CAP)
                    then (true, staged r ++ [{| pd_layer_id := lid; pd_qty_consumed := q |}]) else (false, staged r).
Proof.
  intros [Hh Hl Hp]. assert (Z.of_nat (length (staged r)) = rf_pending_drain_n r) as Hlen.
  { unfold staged. rewrite length_fmap, length_seqZ. lia. }
  unfold push_pending_drain. rewrite Hlen. destruct (Z.leb_spec PENDING_DRAIN_CAP (rf_pending_drain_n r)) as [Hfull|Hroom]; intros [= <- <-].
  { rewrite bool_decide_eq_false_2 by lia. done. }
  rewrite bool_decide_eq_true_2 by done. split_and!; [split; cbn; [done|done|lia]|done|]. f_equal.
  unfold staged at 1. cbn [rf_pending_drain_n]. rewrite seqZ_app by lia. rewrite fmap_app. f_equal.
  - apply list_fmap_ext. intros _ k Hk%list_elem_of_lookup_2%elem_of_seqZ. unfold ring_pending. cbn. rewrite lookup_insert_ne by lia. done.
  - rewrite Z.add_0_l, seqZ_one. cbn. f_equal. unfold ring_pending. cbn. by rewrite lookup_insert_eq.
Qed.
Lemma drain_pending_staged r :
  ring_wf r → ring_wf (drain_pending_into r).2 ∧ (drain_pending_into r).1 = staged r ∧
              staged (drain_pending_into r).2 = [] ∧ queue (drain_pending_into r).2 = queue r.
Proof.
  intros [Hh Hl Hp]. unfold drain_pending_into, staged. destruct (Z.eqb_spec (rf_pending_drain_n r) 0) as [E|Hne]; cbn; [rewrite E; by split_and!|].
  by split_and!.
Qed.

(** ** Consuming *)
Lemma consume_loop_spec todo remaining total consumed r :
  ring_wf r → rf_n_layers r < Z.of_nat todo →
  match take_from (queue r) remaining, consume_loop todo remaining total consumed r with
  | (c, s, rest), (res, r') =>
      cr_consumed res = consumed ++ c ∧ cr_shortage res = s ∧
      cr_total_cost res = foldl (λ t sl, saturating_add t (saturating_mul (cs_qty_consumed sl) (cs_unit_cost sl))) total c ∧
      ring_wf r' ∧ queue r' = rest ∧ staged r' = staged r
  end.
Proof.
  revert remaining total consumed r. induction todo as [|todo IH]; intros remaining total consumed r Hwf Htodo.
  { pose proof (rw_layers _ Hwf). lia. }
  cbn [consume_loop]. destruct (Z.ltb_spec 0 (rf_n_layers r)) as [Hn|Hn].
  2: { rewrite queue_nil by (pose proof (rw_layers _ Hwf); lia). rewrite andb_false_r. cbn. rewrite app_nil_r.
       split_and!; try done. apply queue_nil. pose proof (rw_layers _ Hwf). lia. }
  pose proof (queue_cons r Hwf Hn) as Hq. rewrite andb_true_r. set (l := ring_layer r (rf_head r)) in *. rewrite Hq. cbn [take_from].
  destruct (Z.ltb_spec 0 remaining) as [Hr|Hr].
  2: { assert ((remaining <=? 0) = true) as -> by lia. cbn. by rewrite app_nil_r. }
  assert ((remaining <=? 0) = false) as -> by lia. destruct (Z.ltb_spec remaining (ly_qty l)) as [Hlt|Hge].
  - rewrite Z.min_l by lia. assert ((remaining =? ly_qty l) = false) as -> by lia.
    replace (remaining - remaining) with 0 by lia. destruct todo as [|todo]; cbn [consume_loop]; [lia|]. cbn.
    split_and!; try done; [by apply lower_head_wf|by apply queue_lower].
  - rewrite Z.min_r by lia. rewrite Z.eqb_refl.
    specialize (IH (remaining - ly_qty l) (saturating_add total (saturating_mul (ly_qty l) (ly_unit_cost l)))
      (consumed ++ [slice_of l (ly_qty l)]) (advance_head r) (advance_head_wf r Hwf Hn) ltac:(cbn; lia)).
    destruct (take_from (queue (advance_head r)) (remaining - ly_qty l)) as [[c s] rest].
    destruct (consume_loop todo _ _ _ (advance_head r)) as [res r']. destruct IH as (-> & ? & ? & ? & ? & ?).
    split_and!; try done. by rewrite <-app_assoc.
Qed.
Lemma consume_from_head_queue r qty :
  ring_wf r →
  match take_from (queue r) qty, consume_from_head r qty with
  | (c, s, rest), (res, r') =>
      cr_consumed res = c ∧ cr_shortage res = s ∧ cr_total_cost res = slices_cost c ∧ ring_wf r' ∧ queue r' = rest ∧ staged r' = staged r
  end.
Proof.
  intros Hwf. pose proof (consume_loop_spec (S (Z.to_nat (rf_n_layers r))) qty 0 [] r Hwf) as H.
  pose proof (rw_layers _ Hwf). specialize (H ltac:(lia)). unfold consume_from_head.
  destruct (take_from _ _) as [[c s] rest], (consume_loop _ _ _ _ _) as [res r']. exact H.
Qed.

(** What a queue of positive layers gives. *)
Definition positive (q : list Layer) : Prop := Forall (λ l, 0 < ly_qty l) q.
Definition on_hand (q : list Layer) : Z := sumZ ly_qty q.
Definition taken (c : list ConsumedSlice) : Z := sumZ cs_qty_consumed c.

Lemma on_hand_nonneg q : positive q → 0 ≤ on_hand q.
Proof. intros Hpos. apply sumZ_nonneg. intros x Hx. unfold positive in Hpos. rewrite Forall_forall in Hpos. specialize (Hpos x Hx). cbn in Hpos. lia. Qed.
Lemma take_from_total q n c s rest :
  positive q → 0 ≤ n → take_from q n = (c, s, rest) →
  positive rest ∧ taken c + s = n ∧ on_hand rest = on_hand q - taken c ∧ s = Z.max 0 (n - on_hand q) ∧ Forall (λ sl, 0 < cs_qty_consumed sl) c.
Proof.
  revert n c s rest. induction q as [|l q IH]; intros n c s rest Hpos Hn; cbn [take_from].
  { intros [= <- <- <-]. unfold taken, on_hand. rewrite !sumZ_nil. split_and!; try done; lia. }
  apply Forall_cons in Hpos as [Hl Hpos]. pose proof (on_hand_nonneg q Hpos) as H0.
  unfold taken, on_hand in *. destruct (Z.leb_spec n 0); [|destruct (Z.ltb_spec n (ly_qty l))].
  - intros [= <- <- <-]. rewrite !sumZ_cons, sumZ_nil. split_and!; [by constructor|lia|lia|lia|done].
  - intros [= <- <- <-]. rewrite !sumZ_cons, sumZ_nil. cbn. split_and!; [constructor; [cbn; lia|done]|lia..|]. constructor; [cbn; lia|done].
  - destruct (take_from q (n - ly_qty l)) as [[c' s'] rest'] eqn:E. intros [= <- <- <-].
    destruct (IH (n - ly_qty l) _ _ _ Hpos ltac:(lia) E) as (? & ? & ? & ? & ?). rewrite !sumZ_cons. cbn. split_and!; [done|lia..|]. by constructor.
Qed.
(** Taking what there is leaves the same queue as taking too much. *)
Lemma take_from_available q n c s rest :
  positive q → 0 < n → take_from q n = (c, s, rest) → take_from q (n - s) = (c, 0, rest).
Proof.
  revert n c s rest. induction q as [|l q IH]; intros n c s rest Hpos Hn; cbn [take_from].
  { intros [= <- <- <-]. by rewrite Z.sub_diag. }
  apply Forall_cons in Hpos as [Hl Hpos]. destruct (Z.leb_spec n 0); [lia|]. destruct (Z.ltb_spec n (ly_qty l)).
  - intros [= <- <- <-]. rewrite Z.sub_0_r. destruct (Z.leb_spec n 0); [lia|]. by destruct (Z.ltb_spec n (ly_qty l)); [|lia].
  - destruct (take_from q (n - ly_qty l)) as [[c' s'] rest'] eqn:E. intros [= <- <- <-].
    destruct (take_from_total q (n - ly_qty l) _ _ _ Hpos ltac:(lia) E) as (_ & Ht & _ & Hs & _).
    pose proof (on_hand_nonneg q Hpos) as Hq0. destruct (Z.leb_spec (n - s') 0); [lia|]. destruct (Z.ltb_spec (n - s') (ly_qty l)); [lia|].
    destruct (decide (n = ly_qty l)) as [->|].
    + rewrite Z.sub_diag in E. assert (s' = 0 ∧ c' = [] ∧ rest' = q) as (-> & -> & ->) by (by destruct q; injection E as <- <- <-).
      rewrite Z.sub_0_r, Z.sub_diag. by destruct q.
    + replace (n - s' - ly_qty l) with (n - ly_qty l - s') by lia. by rewrite (IH (n - ly_qty l) _ _ _ Hpos ltac:(lia) E).
Qed.
Lemma consume_loop_available todo n t c t' c' r cs s rest :
  ring_wf r → positive (queue r) → 0 < n → rf_n_layers r < Z.of_nat todo → take_from (queue r) n = (cs, s, rest) →
  (consume_loop todo n t c r).2 = (consume_loop todo (n - s) t' c' r).2.
Proof.
  revert n t c t' c' r cs s rest. induction todo as [|todo IH]; intros n t c t' c' r cs s rest Hwf Hpos Hn Htodo Htake; [done|].
  cbn [consume_loop]. destruct (Z.ltb_spec 0 (rf_n_layers r)) as [Hl|Hl]; [|by rewrite !andb_false_r]. rewrite !andb_true_r.
  pose proof (queue_cons r Hwf Hl) as Hq. rewrite Hq in Htake, Hpos. apply Forall_cons in Hpos as [Hpl Hpos]. set (l := ring_layer r (rf_head r)) in *.
  pose proof (on_hand_nonneg _ Hpos) as H0. cbn [take_from] in Htake. destruct (Z.ltb_spec 0 n); [|lia].
  destruct (Z.leb_spec n 0); [lia|]. destruct (Z.ltb_spec n (ly_qty l)) as [Hlt|Hge].
  - injection Htake as <- <- <-. rewrite Z.sub_0_r. destruct (Z.ltb_spec 0 n); [|lia]. rewrite Z.min_l by lia. rewrite Z.sub_diag.
    destruct (n =? ly_qty l) eqn:E; [lia|]. destruct todo; [lia|]. done.
  - destruct (take_from (queue (advance_head r)) (n - ly_qty l)) as [[cs' s'] rest'] eqn:E. injection Htake as <- <- <-.
    destruct (take_from_total _ (n - ly_qty l) _ _ _ Hpos ltac:(lia) E) as (_ & _ & _ & Hs & _).
    destruct (Z.ltb_spec 0 (n - s')); [|lia]. rewrite !Z.min_r, Z.eqb_refl by lia.
    pose proof (advance_head_wf r Hwf Hl) as Hwf'. destruct (decide (n = ly_qty l)) as [->|Hne].
    + assert (s' = 0) as -> by lia. rewrite Z.sub_0_r, Z.sub_diag. by destruct todo.
    + replace (n - s' - ly_qty l) with (n - ly_qty l - s') by lia. eapply IH; [done|done|lia|cbn; lia|exact E].
Qed.
(** The ring that asking for too much leaves is the one that asking for what there
    is leaves. *)
Lemma consume_available r n :
  ring_wf r → positive (queue r) → 0 < n →
  (consume_from_head r (n - cr_shortage (consume_from_head r n).1)).2 = (consume_from_head r n).2.
Proof.
  intros Hwf Hpos Hn. pose proof (consume_from_head_queue r n Hwf) as H. destruct (take_from (queue r) n) as [[c s] rest] eqn:E.
  destruct (consume_from_head r n) as [res r'] eqn:Er. destruct H as (_ & Hs & _). cbn [fst snd]. rewrite Hs.
  unfold consume_from_head in *. pose proof (rw_layers _ Hwf). change r' with (res, r').2. rewrite <-Er. symmetry.
  eapply consume_loop_available; [done|done|done|lia|exact E].
Qed.
