(* ===== verification/ExtShadow.v ===== *)
(** Deferred application on FIFO cells (ledger-extension, fifo.rs): a transaction works
    on shadows of the cells it touches, one frame per open subtransaction, and the
    operations recorded in a shadow are replayed on the cell when the transaction
    commits. *)
From S2P Require Import Prelude ExtTable ExtBalance ExtRing.

(** * Cells *)
Record FifoBucket := {
  fb_occupied : Z;
  fb_seeded : Z;
  fb_overflow_active : Z;
  fb_key_hi : Z;
  fb_key_lo : Z;
  fb_last_seq : Z;
  fb_drained_seq : Z;
  fb_overflow_first_spilled_layer_id : Z;
  fb_ring : RingFields;
}.
#[global, program] Instance FifoBucket_slot : Slot FifoBucket := {|
  sl_occupied := fb_occupied; sl_key_hi := fb_key_hi; sl_key_lo := fb_key_lo;
  sl_zeroed := {| fb_occupied := 0; fb_seeded := 0; fb_overflow_active := 0; fb_key_hi := 0; fb_key_lo := 0;
                  fb_last_seq := 0; fb_drained_seq := 0; fb_overflow_first_spilled_layer_id := 0; fb_ring := zeroed_ring |} |}.
Solve Obligations with done.
Abbreviation FifoArena := (gmap Z FifoBucket).
Definition fb_set_key (key : Z) (b : FifoBucket) : FifoBucket :=
  {| fb_occupied := 1; fb_seeded := fb_seeded b; fb_overflow_active := fb_overflow_active b; fb_key_hi := key_hi key; fb_key_lo := key_lo key;
     fb_last_seq := fb_last_seq b; fb_drained_seq := fb_drained_seq b;
     fb_overflow_first_spilled_layer_id := fb_overflow_first_spilled_layer_id b; fb_ring := fb_ring b |}.
Definition fb_set_ring (r : RingFields) (b : FifoBucket) : FifoBucket :=
  {| fb_occupied := fb_occupied b; fb_seeded := fb_seeded b; fb_overflow_active := fb_overflow_active b; fb_key_hi := fb_key_hi b;
     fb_key_lo := fb_key_lo b; fb_last_seq := fb_last_seq b; fb_drained_seq := fb_drained_seq b;
     fb_overflow_first_spilled_layer_id := fb_overflow_first_spilled_layer_id b; fb_ring := r |}.
(** Raise the flag and keep the first watermark. *)
Definition fb_overflow (watermark : Z) (b : FifoBucket) : FifoBucket :=
  {| fb_occupied := fb_occupied b; fb_seeded := fb_seeded b; fb_overflow_active := 1; fb_key_hi := fb_key_hi b; fb_key_lo := fb_key_lo b;
     fb_last_seq := fb_last_seq b; fb_drained_seq := fb_drained_seq b;
     fb_overflow_first_spilled_layer_id :=
       (if fb_overflow_first_spilled_layer_id b =? 0 then watermark else fb_overflow_first_spilled_layer_id b); fb_ring := fb_ring b |}.
Definition fb_set_seeded (b : FifoBucket) : FifoBucket :=
  {| fb_occupied := fb_occupied b; fb_seeded := 1; fb_overflow_active := fb_overflow_active b; fb_key_hi := fb_key_hi b; fb_key_lo := fb_key_lo b;
     fb_last_seq := fb_last_seq b; fb_drained_seq := fb_drained_seq b;
     fb_overflow_first_spilled_layer_id := fb_overflow_first_spilled_layer_id b; fb_ring := fb_ring b |}.
Definition fb_stamp_last (seq : Z) (b : FifoBucket) : FifoBucket :=
  {| fb_occupied := fb_occupied b; fb_seeded := fb_seeded b; fb_overflow_active := fb_overflow_active b; fb_key_hi := fb_key_hi b;
     fb_key_lo := fb_key_lo b; fb_last_seq := Z.max (fb_last_seq b) seq; fb_drained_seq := fb_drained_seq b;
     fb_overflow_first_spilled_layer_id := fb_overflow_first_spilled_layer_id b; fb_ring := fb_ring b |}.

Definition probe_fifo_cell (arena : FifoArena) (key : Z) : option Z :=
  match probe_table arena key with Hit idx => Some idx | _ => None end.
Definition insert_fifo_cell (arena : FifoArena) (key : Z) : option Z * FifoArena :=
  match probe_table arena key with
  | Hit idx => (Some idx, arena)
  | Vacant idx => (Some idx, <[idx := fb_set_key key (bucket arena idx)]> arena)
  | Full => (None, arena)
  end.

(** * Shadows *)
Inductive LayerOp :=
  | Push (layer : Layer)
  | Consume (qty : Z)
  | PendingDrainPush (layer_id qty_consumed : Z)
  | OverflowActivate (watermark : Z).
Record CellShadow := {
  sh_ring : RingFields;
  sh_overflow_active : Z;
  sh_overflow_watermark : Z;
  sh_stamp_seeded : bool;
  sh_seed_ops : list LayerOp;
  sh_ops : list LayerOp;
}.
Abbreviation FifoFrame := (gmap Z CellShadow).
Record SeedLayerSnapshot := { sd_layer_id : Z; sd_qty_remaining : Z; sd_unit_cost : Z }.
Definition seed_layer (s : SeedLayerSnapshot) : Layer :=
  {| ly_qty := sd_qty_remaining s; ly_unit_cost := sd_unit_cost s; ly_layer_id := sd_layer_id s |}.

(** A shadow with a new ring, and the operation that was recorded for it. *)
Definition sh_did (r : RingFields) (ops : list LayerOp) (sh : CellShadow) : CellShadow :=
  {| sh_ring := r; sh_overflow_active := sh_overflow_active sh; sh_overflow_watermark := sh_overflow_watermark sh;
     sh_stamp_seeded := sh_stamp_seeded sh; sh_seed_ops := sh_seed_ops sh; sh_ops := sh_ops sh ++ ops |}.
Definition sh_overflowed (watermark : Z) (sh : CellShadow) : CellShadow :=
  {| sh_ring := sh_ring sh; sh_overflow_active := 1;
     sh_overflow_watermark := (if sh_overflow_watermark sh =? 0 then watermark else sh_overflow_watermark sh);
     sh_stamp_seeded := sh_stamp_seeded sh; sh_seed_ops := sh_seed_ops sh; sh_ops := sh_ops sh |}.
Definition sh_seeded_with (r : RingFields) (ops : list LayerOp) (sh : CellShadow) : CellShadow :=
  {| sh_ring := r; sh_overflow_active := sh_overflow_active sh; sh_overflow_watermark := sh_overflow_watermark sh;
     sh_stamp_seeded := sh_stamp_seeded sh; sh_seed_ops := sh_seed_ops sh ++ ops; sh_ops := sh_ops sh |}.
Fixpoint seed_shadow (seeds : list SeedLayerSnapshot) (sh : CellShadow) : CellShadow :=
  match seeds with
  | [] => sh
  | s :: seeds =>
      match push_layer (sh_ring sh) (seed_layer s) with
      | (true, r) => seed_shadow seeds (sh_seeded_with r [Push (seed_layer s)] sh)
      | (false, r) =>
          if sh_overflow_active sh =? 0
          then sh_seeded_with r [OverflowActivate (sd_layer_id s)] (sh_overflowed (sd_layer_id s) sh)
          else sh
      end
  end.

(** The innermost frame first. *)
Fixpoint parent_shadow (stack : list FifoFrame) (cell_idx : Z) : option CellShadow :=
  match stack with
  | [] => None
  | f :: stack => match f !! cell_idx with Some sh => Some sh | None => parent_shadow stack cell_idx end
  end.
Definition fifo_ensure_top_frame (stack : list FifoFrame) : list FifoFrame := match stack with [] => [∅] | _ => stack end.
Definition snapshot (b : FifoBucket) (seeds : option (list SeedLayerSnapshot)) : CellShadow :=
  let needs_seed := fb_seeded b =? 0 in
  let shadow := {| sh_ring := fb_ring b; sh_overflow_active := fb_overflow_active b;
                   sh_overflow_watermark := fb_overflow_first_spilled_layer_id b; sh_stamp_seeded := needs_seed;
                   sh_seed_ops := []; sh_ops := [] |} in
  if needs_seed then from_option (λ s, seed_shadow s shadow) shadow seeds else shadow.
Definition fifo_acquire_shadow (arena : FifoArena) (seed_cache : gmap Z (list SeedLayerSnapshot)) (cell_idx : Z) (stack : list FifoFrame)
    : CellShadow * list FifoFrame :=
  match stack with
  | top :: rest =>
      match top !! cell_idx with
      | Some shadow => (shadow, delete cell_idx top :: rest)
      | None =>
          (match parent_shadow rest cell_idx with
           | Some p => {| sh_ring := sh_ring p; sh_overflow_active := sh_overflow_active p; sh_overflow_watermark := sh_overflow_watermark p;
                          sh_stamp_seeded := false; sh_seed_ops := []; sh_ops := [] |}
           | None => snapshot (bucket arena cell_idx) (seed_cache !! cell_idx)
           end, stack)
      end
  | [] => (snapshot (bucket arena cell_idx) (seed_cache !! cell_idx), [])
  end.
Definition fifo_install_shadow (cell_idx : Z) (shadow : CellShadow) (stack : list FifoFrame) : list FifoFrame :=
  match stack with top :: rest => <[cell_idx := shadow]> top :: rest | [] => [] end.

(** * Transactions *)
Definition fifo_replay_op (b : FifoBucket) (op : LayerOp) : FifoBucket :=
  match op with
  | Push layer =>
      match push_layer (fb_ring b) layer with
      | (true, r) => fb_set_ring r b
      | (false, r) => fb_overflow (ly_layer_id layer) b
      end
  | Consume qty => fb_set_ring (consume_from_head (fb_ring b) qty).2 b
  | PendingDrainPush layer_id qty_consumed => fb_set_ring (push_pending_drain (fb_ring b) layer_id qty_consumed).2 b
  | OverflowActivate watermark => fb_overflow watermark b
  end.
Definition merge_shadow (p sh : CellShadow) : CellShadow :=
  let adopt := sh_stamp_seeded sh && negb (sh_stamp_seeded p) in
  {| sh_ring := sh_ring sh; sh_overflow_active := sh_overflow_active sh; sh_overflow_watermark := sh_overflow_watermark sh;
     sh_stamp_seeded := if adopt then true else sh_stamp_seeded p;
     sh_seed_ops := if adopt then sh_seed_ops sh else sh_seed_ops p; sh_ops := sh_ops p ++ sh_ops sh |}.
Definition merge_frames (into f : FifoFrame) : FifoFrame := union_with (λ p sh, Some (merge_shadow p sh)) into f.
(** The outermost frame is merged first. *)
Definition merged_frames (stack : list FifoFrame) : FifoFrame := foldr (λ f m, merge_frames m f) ∅ stack.
Definition replay_shadow (shadow : CellShadow) (b : FifoBucket) : FifoBucket :=
  let b := if sh_stamp_seeded shadow && (fb_seeded b =? 0)
           then fb_set_seeded (foldl fifo_replay_op b (sh_seed_ops shadow)) else b in
  foldl fifo_replay_op b (sh_ops shadow).
Definition commit_cell (frame : FifoFrame) (st : FifoArena * Z) (idx : Z) : FifoArena * Z :=
  let '(arena, apply_seq) := st in
  match frame !! idx with
  | None => st
  | Some shadow =>
      let seq := as_u64 (apply_seq + 1) in
      (<[idx := fb_stamp_last seq (replay_shadow shadow (bucket arena idx))]> arena, seq)
  end.
(** Cells are replayed in ascending order; [apply_seq] is the shared sequence counter. *)
Definition fifo_xact_commit (stack : list FifoFrame) (arena : FifoArena) (apply_seq : Z) : FifoArena * Z * list FifoFrame :=
  match stack with
  | [] => (arena, apply_seq, [])
  | _ =>
      let frame := merged_frames stack in
      (foldl (commit_cell frame) (arena, apply_seq) (merge_sort (≤) (map_to_list frame).*1), [∅])
  end.
Definition fifo_xact_abort (stack : list FifoFrame) : list FifoFrame := [∅].
Definition fifo_subxact_start_sub (stack : list FifoFrame) : list FifoFrame := ∅ :: stack.
Definition fifo_subxact_commit_sub (stack : list FifoFrame) : list FifoFrame :=
  match stack with
  | [] => [∅]
  | [popped] => [popped]
  | popped :: parent :: rest => merge_frames parent popped :: rest
  end.
Definition fifo_subxact_abort_sub (stack : list FifoFrame) : list FifoFrame := match stack with [] | [_] => [∅] | _ :: rest => rest end.

(** * Envelopes on a shadow *)
(** A receipt: true when the layer went into the ring, false when it stays durable only. *)
Definition shadow_receipt (layer : Layer) (shadow : CellShadow) : bool * CellShadow :=
  if sh_overflow_active shadow =? 1 then (false, shadow)
  else
    match push_layer (sh_ring shadow) layer with
    | (true, r) => (true, sh_did r [Push layer] shadow)
    | (false, r) =>
        (false, if sh_overflow_active shadow =? 0
                then sh_did r [OverflowActivate (ly_layer_id layer)] (sh_overflowed (ly_layer_id layer) shadow) else shadow)
    end.
(** One slice of an issue: staged for the drain, or left to the inline update. *)
Definition stage_slice (st : list ConsumedSlice * CellShadow) (slice : ConsumedSlice) : list ConsumedSlice * CellShadow :=
  let '(inline, shadow) := st in
  match push_pending_drain (sh_ring shadow) (cs_layer_id slice) (cs_qty_consumed slice) with
  | (true, r) => (inline, sh_did r [PendingDrainPush (cs_layer_id slice) (cs_qty_consumed slice)] shadow)
  | (false, r) => (inline ++ [slice], shadow)
  end.
Definition shadow_issue (qty : Z) (shadow : CellShadow) : ConsumeResult * list ConsumedSlice * CellShadow :=
  let '(res, r) := consume_from_head (sh_ring shadow) qty in
  let in_shmem_qty := qty - cr_shortage res in
  let shadow := sh_did r (if 0 <? in_shmem_qty then [Consume in_shmem_qty] else []) shadow in
  let '(inline, shadow) := foldl stage_slice ([], shadow) (cr_consumed res) in
  (res, inline, shadow).
