(* ===== verification/ExtDeferred.v ===== *)
(** The ring of a FIFO cell against a bounded queue, and the log of a transaction against
    direct application.  The first part shows that any sequence of operations on the ring
    does what it does on a queue of layers and that an issue takes the oldest layers; the
    second that replaying the shadows of a transaction has the effect of applying its
    surviving operations at once. *)
From stdpp Require Import functions.
From S2P Require Import Prelude ExtTable ExtBalance ExtRing ExtShadow.

Record Cell := { ce_queue : list Layer; ce_staged : list PendingDrain; ce_overflow : Z; ce_watermark : Z }.
Definition ce_spill (watermark : Z) (c : Cell) : Cell :=
  {| ce_queue := ce_queue c; ce_staged := ce_staged c; ce_overflow := 1;
     ce_watermark := (if ce_watermark c =? 0 then watermark else ce_watermark c) |}.
Definition cell_op (c : Cell) (op : LayerOp) : Cell :=
  match op with
  | Push layer =>
      if bool_decide (Z.of_nat (length (ce_queue c)) < MAX_LAYERS)
      then {| ce_queue := ce_queue c ++ [layer]; ce_staged := ce_staged c; ce_overflow := ce_overflow c; ce_watermark := ce_watermark c |}
      else ce_spill (ly_layer_id layer) c
  | Consume qty =>
      {| ce_queue := (take_from (ce_queue c) qty).2; ce_staged := ce_staged c; ce_overflow := ce_overflow c; ce_watermark := ce_watermark c |}
  | PendingDrainPush layer_id qty_consumed =>
      if bool_decide (Z.of_nat (length (ce_staged c)) < PENDING_DRAIN_CAP)
      then {| ce_queue := ce_queue c; ce_staged := ce_staged c ++ [{| pd_layer_id := layer_id; pd_qty_consumed := qty_consumed |}];
              ce_overflow := ce_overflow c; ce_watermark := ce_watermark c |}
      else c
  | OverflowActivate watermark => ce_spill watermark c
  end.
Definition cell_of (b : FifoBucket) : Cell :=
  {| ce_queue := queue (fb_ring b); ce_staged := staged (fb_ring b); ce_overflow := fb_overflow_active b;
     ce_watermark := fb_overflow_first_spilled_layer_id b |}.

Lemma replay_op_cell b op :
  ring_wf (fb_ring b) → ring_wf (fb_ring (fifo_replay_op b op)) ∧ cell_of (fifo_replay_op b op) = cell_op (cell_of b) op.
Proof.
  intros Hwf. destruct op as [layer|qty|lid q|w]; cbn [fifo_replay_op cell_op].
  - destruct (push_layer (fb_ring b) layer) as [ok r] eqn:E. destruct (push_layer_queue _ _ _ _ Hwf E) as (Hwf' & Hst & Hq).
    cbn [cell_of ce_queue]. destruct (bool_decide _); injection Hq as -> Hq; (split; [done|]); unfold cell_of; cbn; [by rewrite Hq, Hst|done].
  - pose proof (consume_from_head_queue (fb_ring b) qty Hwf) as H. cbn [cell_of ce_queue].
    destruct (take_from _ qty) as [[c s] rest], (consume_from_head _ qty) as [res r]. destruct H as (_ & _ & _ & Hwf' & Hq & Hst).
    split; [done|]. unfold cell_of. cbn. by rewrite Hq, Hst.
  - destruct (push_pending_drain (fb_ring b) lid q) as [ok r] eqn:E. destruct (push_pending_staged _ _ _ _ _ Hwf E) as (Hwf' & Hq & Hst).
    cbn [cell_of ce_staged]. split; [done|]. unfold cell_of at 1. cbn. destruct (bool_decide _); injection Hst as _ Hst; by rewrite Hq, Hst.
  - done.
Qed.
(** C20: A cell behaves as a bounded FIFO queue: any sequence of pushes, consumptions,
    staged drains and overflow marks replayed on its ring gives the queue, the staged
    list and the mark that the same sequence gives on plain lists, wherever the head of
    the ring is, and the ring stays within its array. *)
Theorem ring_refines_queue ops b :
  ring_wf (fb_ring b) →
  cell_of (foldl fifo_replay_op b ops) = foldl cell_op (cell_of b) ops ∧ ring_wf (fb_ring (foldl fifo_replay_op b ops)).
Proof.
  revert b. induction ops as [|op ops IH]; intros b Hwf; [done|]. cbn [foldl].
  destruct (replay_op_cell b op Hwf) as [Hwf' <-]. by apply IH.
Qed.

(** * Issues *)
Definition whole (l : Layer) : ConsumedSlice := slice_of l (ly_qty l).
Lemma take_from_prefix q n c s rest :
  positive q → 0 < n → take_from q n = (c, s, rest) →
  ∃ gone kept, q = gone ++ kept ∧
    ((c = (whole <$> gone) ∧ rest = kept) ∨
     ∃ l kept' m, kept = l :: kept' ∧ 0 < m < ly_qty l ∧ c = (whole <$> gone) ++ [slice_of l m] ∧ rest = take_qty m l :: kept').
Proof.
  revert n c s rest. induction q as [|l q IH]; intros n c s rest Hpos Hn; cbn [take_from].
  { intros [= <- <- <-]. exists [], []. auto. }
  apply Forall_cons in Hpos as [Hl Hpos]. destruct (Z.leb_spec n 0); [lia|]. destruct (Z.ltb_spec n (ly_qty l)).
  - intros [= <- <- <-]. exists [], (l :: q). split; [done|]. right. exists l, q, n. done.
  - destruct (take_from q (n - ly_qty l)) as [[c' s'] rest'] eqn:E. intros [= <- <- <-]. destruct (decide (n = ly_qty l)) as [->|Hne].
    + rewrite Z.sub_diag in E. assert (c' = [] ∧ rest' = q) as [-> ->] by (by destruct q; injection E as <- <- <-).
      exists [l], q. auto.
    + destruct (IH (n - ly_qty l) _ _ _ Hpos ltac:(lia) E) as (gone & kept & -> & [[-> ->]|(l' & kept' & m & -> & Hm & -> & ->)]); exists (l :: gone); eauto 10.
Qed.
Lemma foldl_sat_sum (c : list ConsumedSlice) t :
  0 ≤ t → Forall (λ s, 0 ≤ cs_qty_consumed s * cs_unit_cost s) c →
  t + sumZ (λ s, cs_qty_consumed s * cs_unit_cost s) c ≤ i64_max →
  foldl (λ t s, saturating_add t (saturating_mul (cs_qty_consumed s) (cs_unit_cost s))) t c = t + sumZ (λ s, cs_qty_consumed s * cs_unit_cost s) c.
Proof.
  revert t. induction c as [|s c IH]; intros t Ht Hc; cbn [foldl]; [rewrite sumZ_nil; lia|]. apply Forall_cons in Hc as [Hs Hc].
  assert (0 ≤ sumZ (λ s, cs_qty_consumed s * cs_unit_cost s) c) as H0.
  { apply sumZ_nonneg. intros x Hx. by apply (Forall_forall (λ s, 0 ≤ _) c) with (x := x) in Hc. }
  rewrite sumZ_cons. intros Hle. unfold saturating_add, saturating_mul, saturate. unfold i64_max, i64_min in *.
  rewrite (Z.min_r _ (cs_qty_consumed s * cs_unit_cost s)), (Z.max_r _ (cs_qty_consumed s * cs_unit_cost s)) by lia.
  rewrite (Z.min_r _ (t + _)), (Z.max_r _ (t + _)) by lia. rewrite IH; [lia|lia|done|lia].
Qed.
Definition valued (q : list Layer) : Prop := Forall (λ l, 0 ≤ ly_unit_cost l) q ∧ sumZ (λ l, ly_qty l * ly_unit_cost l) q ≤ i64_max.
Lemma consumed_value q n c s rest :
  positive q → valued q → 0 < n → take_from q n = (c, s, rest) →
  Forall (λ s, 0 ≤ cs_qty_consumed s * cs_unit_cost s) c ∧
  sumZ (λ s, cs_qty_consumed s * cs_unit_cost s) c + sumZ (λ l, ly_qty l * ly_unit_cost l) rest = sumZ (λ l, ly_qty l * ly_unit_cost l) q ∧
  0 ≤ sumZ (λ l, ly_qty l * ly_unit_cost l) rest.
Proof.
  intros Hpos [Hc _]. revert n c s rest. induction q as [|l q IH]; intros n c s rest Hn; cbn [take_from].
  { intros [= <- <- <-]. done. }
  apply Forall_cons in Hpos as [Hl Hpos], Hc as [Hcl Hc].
  assert (0 ≤ sumZ (λ l, ly_qty l * ly_unit_cost l) q) as H0.
  { apply sumZ_nonneg. intros x Hx. apply (proj1 (Forall_forall _ _)) with (x := x) in Hpos, Hc; [|done..]. cbn in *. nia. }
  destruct (Z.leb_spec n 0); [lia|]. destruct (Z.ltb_spec n (ly_qty l)).
  - intros [= <- <- <-]. rewrite !sumZ_cons, sumZ_nil. cbn. split_and!; [constructor; [cbn; nia|done]|nia|nia].
  - destruct (take_from q (n - ly_qty l)) as [[c' s'] rest'] eqn:E. intros [= <- <- <-]. rewrite !sumZ_cons. cbn.
    destruct (decide (n = ly_qty l)) as [->|Hne].
    + rewrite Z.sub_diag in E. assert (c' = [] ∧ rest' = q) as [-> ->] by (by destruct q; injection E as <- <- <-).
      rewrite sumZ_nil. split_and!; [constructor; [cbn; nia|done]|lia|done].
    + destruct (IH Hpos Hc (n - ly_qty l) _ _ _ ltac:(lia) E) as (? & ? & ?). split_and!; [constructor; [cbn; nia|done]|lia|done].
Qed.

(** An issue takes whole layers from the oldest on, and part of one more layer at
    most; what it took and the shortage add up to the quantity asked for, there is a
    shortage exactly when the ring holds too little, and the cost is the sum of the
    quantities at their layers' unit costs: what the layers left are worth and the cost
    add up to what the ring was worth. *)
Theorem issue_takes_oldest r qty res r' :
  ring_wf r → positive (queue r) → valued (queue r) → 0 < qty → consume_from_head r qty = (res, r') →
  (∃ gone kept, queue r = gone ++ kept ∧
    ((cr_consumed res = (whole <$> gone) ∧ queue r' = kept) ∨
     ∃ l kept' m, kept = l :: kept' ∧ 0 < m < ly_qty l ∧
       cr_consumed res = (whole <$> gone) ++ [slice_of l m] ∧ queue r' = take_qty m l :: kept')) ∧
  taken (cr_consumed res) + cr_shortage res = qty ∧ cr_shortage res = Z.max 0 (qty - on_hand (queue r)) ∧
  cr_total_cost res = sumZ (λ s, cs_qty_consumed s * cs_unit_cost s) (cr_consumed res) ∧
  cr_total_cost res + sumZ (λ l, ly_qty l * ly_unit_cost l) (queue r') = sumZ (λ l, ly_qty l * ly_unit_cost l) (queue r).
Proof.
  intros Hwf Hpos Hval Hq E. pose proof (consume_from_head_queue r qty Hwf) as H. rewrite E in H.
  destruct (take_from (queue r) qty) as [[c s] rest] eqn:Et. destruct H as (-> & -> & -> & _ & -> & _).
  destruct (take_from_total _ qty _ _ _ Hpos ltac:(lia) Et) as (_ & Ht & _ & Hs & _).
  destruct (consumed_value _ _ _ _ _ Hpos Hval Hq Et) as (Hc & Hsum & H0). destruct Hval as [_ Hmax].
  unfold slices_cost. rewrite foldl_sat_sum by (done || lia). rewrite Z.add_0_l.
  split_and!; [by eapply take_from_prefix|done|done|done|done].
Qed.

(** * Deferred application *)
(** * The reference *)
Inductive Envelope := Receipt (layer : Layer) | Issue (qty : Z).
Inductive Outcome := Received (in_ring : bool) | Issued (res : ConsumeResult) (inline : list ConsumedSlice).
Record CellView := { cv_ring : RingFields; cv_overflow : Z; cv_watermark : Z; cv_seeded : bool }.
Definition cv_set_ring (r : RingFields) (v : CellView) : CellView :=
  {| cv_ring := r; cv_overflow := cv_overflow v; cv_watermark := cv_watermark v; cv_seeded := cv_seeded v |}.
Definition cv_spill (watermark : Z) (v : CellView) : CellView :=
  {| cv_ring := cv_ring v; cv_overflow := 1; cv_watermark := (if cv_watermark v =? 0 then watermark else cv_watermark v);
     cv_seeded := cv_seeded v |}.
Definition cv_mark_seeded (v : CellView) : CellView :=
  {| cv_ring := cv_ring v; cv_overflow := cv_overflow v; cv_watermark := cv_watermark v; cv_seeded := true |}.
Fixpoint load_seeds (seeds : list SeedLayerSnapshot) (v : CellView) : CellView :=
  match seeds with
  | [] => v
  | s :: seeds =>
      match push_layer (cv_ring v) (seed_layer s) with
      | (true, r) => load_seeds seeds (cv_set_ring r v)
      | (false, _) => if cv_overflow v =? 0 then cv_spill (sd_layer_id s) v else v
      end
  end.
Definition direct_seed (seeds : option (list SeedLayerSnapshot)) (v : CellView) : CellView :=
  if cv_seeded v then v else cv_mark_seeded (load_seeds (default [] seeds) v).
Definition direct_slice (st : list ConsumedSlice * CellView) (slice : ConsumedSlice) : list ConsumedSlice * CellView :=
  match push_pending_drain (cv_ring st.2) (cs_layer_id slice) (cs_qty_consumed slice) with
  | (true, r) => (st.1, cv_set_ring r st.2)
  | (false, _) => (st.1 ++ [slice], st.2)
  end.
Definition direct (e : Envelope) (v : CellView) : Outcome * CellView :=
  match e with
  | Receipt layer =>
      if cv_overflow v =? 1 then (Received false, v)
      else
        match push_layer (cv_ring v) layer with
        | (true, r) => (Received true, cv_set_ring r v)
        | (false, _) => (Received false, if cv_overflow v =? 0 then cv_spill (ly_layer_id layer) v else v)
        end
  | Issue qty =>
      let '(res, r) := consume_from_head (cv_ring v) qty in
      let '(inline, v) := foldl direct_slice ([], cv_set_ring r v) (cr_consumed res) in (Issued res inline, v)
  end.
Fixpoint run {E A} (f : E → A → Outcome * A) (es : list E) (a : A) : list Outcome * A :=
  match es with [] => ([], a) | e :: es => let '(o, a) := f e a in let '(os, a) := run f es a in (o :: os, a) end.

(** What a transaction does: batches of envelopes per cell, with the durable layers of
    cells that are not loaded yet, and subtransactions. *)
Inductive Event :=
  | Batch (seeds : gmap Z (list SeedLayerSnapshot)) (work : list (Z * list Envelope))
  | StartSub | CommitSub | AbortSub.
Definition direct_cell (seeds : gmap Z (list SeedLayerSnapshot)) (w : Z * list Envelope) (v : Z → CellView) : list Outcome * (Z → CellView) :=
  let '(os, v') := run direct w.2 (direct_seed (seeds !! w.1) (v w.1)) in (os, <[w.1 := v']> v).
Fixpoint each {W A} (f : W → A → list Outcome * A) (ws : list W) (a : A) : list Outcome * A :=
  match ws with [] => ([], a) | w :: ws => let '(os, a) := f w a in let '(os', a) := each f ws a in (os ++ os', a) end.
Definition direct_event (e : Event) (vs : list (Z → CellView)) : list Outcome * list (Z → CellView) :=
  match e, vs with
  | Batch seeds work, v :: vs => let '(os, v) := each (direct_cell seeds) work v in (os, v :: vs)
  | StartSub, v :: vs => ([], v :: v :: vs)
  | CommitSub, v :: _ :: vs => ([], v :: vs)
  | AbortSub, _ :: v :: vs => ([], v :: vs)
  | _, _ => ([], vs)
  end.

(** * The shadows *)
Definition shadowed (e : Envelope) (sh : CellShadow) : Outcome * CellShadow :=
  match e with
  | Receipt layer => let '(pushed, sh) := shadow_receipt layer sh in (Received pushed, sh)
  | Issue qty => let '(res, inline, sh) := shadow_issue qty sh in (Issued res inline, sh)
  end.
Definition shadow_cell (arena : FifoArena) (seeds : gmap Z (list SeedLayerSnapshot)) (w : Z * list Envelope) (stack : list FifoFrame)
    : list Outcome * list FifoFrame :=
  let '(sh, stack) := fifo_acquire_shadow arena seeds w.1 stack in
  let '(os, sh) := run shadowed w.2 sh in (os, fifo_install_shadow w.1 sh stack).
Definition shadow_event (arena : FifoArena) (e : Event) (stack : list FifoFrame) : list Outcome * list FifoFrame :=
  match e with
  | Batch seeds work => each (shadow_cell arena seeds) work (fifo_ensure_top_frame stack)
  | StartSub => ([], fifo_subxact_start_sub stack)
  | CommitSub => ([], fifo_subxact_commit_sub stack)
  | AbortSub => ([], fifo_subxact_abort_sub stack)
  end.
(** Subtransactions end in the order they started in, and all do. *)
Fixpoint nested (depth : nat) (es : list Event) : bool :=
  match es, depth with
  | [], O => true
  | [], S _ => false
  | Batch _ _ :: es, d => nested d es
  | StartSub :: es, d => nested (S d) es
  | (CommitSub | AbortSub) :: es, S d => nested d es
  | (CommitSub | AbortSub) :: es, O => false
  end.

(** * Views *)
Definition bview (b : FifoBucket) : CellView :=
  {| cv_ring := fb_ring b; cv_overflow := fb_overflow_active b; cv_watermark := fb_overflow_first_spilled_layer_id b;
     cv_seeded := negb (fb_seeded b =? 0) |}.
Definition sview (sh : CellShadow) : CellView :=
  {| cv_ring := sh_ring sh; cv_overflow := sh_overflow_active sh; cv_watermark := sh_overflow_watermark sh; cv_seeded := true |}.
Definition view_ok (v : CellView) : Prop := ring_wf (cv_ring v) ∧ positive (queue (cv_ring v)).
(** The same but for the seeded flag. *)
Definition agrees (b : FifoBucket) (sh : CellShadow) : Prop := cv_mark_seeded (bview b) = sview sh.

Definition env_ok (e : Envelope) : Prop := match e with Receipt l => 0 < ly_qty l | Issue q => 0 < q end.
Definition seeds_ok (seeds : list SeedLayerSnapshot) : Prop := Forall (λ s, 0 < sd_qty_remaining s) seeds.
Definition event_ok (e : Event) : Prop :=
  match e with Batch seeds work => map_Forall (λ _, seeds_ok) seeds ∧ Forall (λ w, Forall env_ok w.2) work | _ => True end.
Definition arena_ok (arena : FifoArena) : Prop := ∀ i, view_ok (bview (bucket arena i)).

Lemma push_view_ok r layer ok r' : ring_wf r → positive (queue r) → 0 < ly_qty layer → push_layer r layer = (ok, r') → ring_wf r' ∧ positive (queue r').
Proof.
  intros Hwf Hpos Hl E. destruct (push_layer_queue r layer ok r' Hwf E) as (Hwf' & _ & Hq). split; [done|].
  destruct (bool_decide _); injection Hq as -> ->; [|done]. apply Forall_app. split; [done|by constructor].
Qed.
Lemma push_false r layer r' : push_layer r layer = (false, r') → r' = r.
Proof. unfold push_layer. destruct (_ <=? _); congruence. Qed.
Lemma pending_false r i q r' : push_pending_drain r i q = (false, r') → r' = r.
Proof. unfold push_pending_drain. destruct (_ <=? _); congruence. Qed.
Lemma pending_view_ok r i q ok r' : ring_wf r → positive (queue r) → push_pending_drain r i q = (ok, r') → ring_wf r' ∧ positive (queue r').
Proof. intros Hwf Hpos E. destruct (push_pending_staged r i q ok r' Hwf E) as (Hwf' & Hq & _). by rewrite Hq. Qed.
Lemma consume_view_ok r n : ring_wf r → positive (queue r) → 0 ≤ n → ring_wf (consume_from_head r n).2 ∧ positive (queue (consume_from_head r n).2).
Proof.
  intros Hwf Hpos Hn. pose proof (consume_from_head_queue r n Hwf) as H. destruct (take_from (queue r) n) as [[c s] rest] eqn:E.
  destruct (consume_from_head r n) as [res r']. destruct H as (_ & _ & _ & Hwf' & <- & _). split; [done|].
  by eapply take_from_total in E as (? & _).
Qed.

(** ** What one envelope records *)
Record records (sh sh' : CellShadow) (new : list LayerOp) : Prop := {
  rc_ops : sh_ops sh' = sh_ops sh ++ new;
  rc_stamp : sh_stamp_seeded sh' = sh_stamp_seeded sh;
  rc_seed : sh_seed_ops sh' = sh_seed_ops sh;
  rc_replay : ∀ b, agrees b sh → agrees (foldl fifo_replay_op b new) sh';
}.
Lemma records_refl sh : records sh sh [].
Proof. split; [by rewrite app_nil_r|done..]. Qed.
Lemma records_trans sh1 sh2 sh3 n1 n2 : records sh1 sh2 n1 → records sh2 sh3 n2 → records sh1 sh3 (n1 ++ n2).
Proof.
  intros [A1 A2 A3 A4] [B1 B2 B3 B4]. split; [by rewrite B1, A1, app_assoc|congruence..|]. intros b Hb. rewrite foldl_app. auto.
Qed.
Lemma agrees_ring b sh : agrees b sh → fb_ring b = sh_ring sh.
Proof. unfold agrees, cv_mark_seeded, bview, sview. by intros [= ? ? ?]. Qed.
Lemma agrees_did b sh r ops : agrees b sh → agrees (fb_set_ring r b) (sh_did r ops sh).
Proof. unfold agrees, cv_mark_seeded, bview, sview. cbn. by intros [= _ -> ->]. Qed.
Lemma agrees_overflow b sh w r ops : agrees b sh → r = sh_ring sh → agrees (fb_overflow w b) (sh_did r ops (sh_overflowed w sh)).
Proof. unfold agrees, cv_mark_seeded, bview, sview. cbn. by intros [= -> _ ->] ->. Qed.

Lemma receipt_records layer sh pushed sh' :
  view_ok (sview sh) → 0 < ly_qty layer → shadow_receipt layer sh = (pushed, sh') →
  (∃ new, records sh sh' new) ∧ view_ok (sview sh') ∧ direct (Receipt layer) (sview sh) = (Received pushed, sview sh').
Proof.
  intros Hok Hl. unfold shadow_receipt, direct. cbn [sview cv_overflow cv_ring].
  destruct (sh_overflow_active sh =? 1); [intros [= <- <-]; eauto using records_refl|].
  destruct (push_layer (sh_ring sh) layer) as [[] r] eqn:E; intros [= <- <-].
  - split_and!; [exists [Push layer]|by destruct Hok; eapply push_view_ok|done]. split; [done..|]. intros b Hb. cbn.
    rewrite (agrees_ring _ _ Hb), E. by apply agrees_did.
  - apply push_false in E as ->. destruct (sh_overflow_active sh =? 0) eqn:Eo; [|eauto using records_refl].
    split_and!; [exists [OverflowActivate (ly_layer_id layer)]|done|done]. split; [done..|]. intros b Hb. cbn. by apply agrees_overflow.
Qed.
Lemma slices_record l inline sh inline' sh' :
  view_ok (sview sh) → foldl stage_slice (inline, sh) l = (inline', sh') →
  (∃ new, records sh sh' new) ∧ view_ok (sview sh') ∧ foldl direct_slice (inline, sview sh) l = (inline', sview sh').
Proof.
  revert inline sh. induction l as [|s l IH]; intros inline sh Hok; cbn [foldl]; [intros [= <- <-]; eauto using records_refl|].
  unfold stage_slice at 2, direct_slice at 2. cbn [fst snd sview cv_ring].
  destruct (push_pending_drain (sh_ring sh) _ _) as [[] r] eqn:E; intros Hrun.
  - set (sh1 := sh_did r _ sh) in *. assert (view_ok (sview sh1)) as Hok1 by (by destruct Hok; eapply pending_view_ok).
    destruct (IH _ _ Hok1 Hrun) as ((new & Hnew) & Hok' & Hd). split_and!; [|done|done].
    exists ([PendingDrainPush (cs_layer_id s) (cs_qty_consumed s)] ++ new). eapply records_trans; [|exact Hnew].
    split; [done..|]. intros b Hb. cbn. rewrite (agrees_ring _ _ Hb), E. by apply agrees_did.
  - by apply IH.
Qed.
Lemma issue_records qty sh res inline sh' :
  view_ok (sview sh) → 0 < qty → shadow_issue qty sh = (res, inline, sh') →
  (∃ new, records sh sh' new) ∧ view_ok (sview sh') ∧ direct (Issue qty) (sview sh) = (Issued res inline, sview sh').
Proof.
  intros Hok Hq. unfold shadow_issue, direct. cbn [sview cv_ring]. pose proof (consume_view_ok (sh_ring sh) qty (proj1 Hok) (proj2 Hok) ltac:(lia)) as Hok1.
  pose proof (consume_available (sh_ring sh) qty (proj1 Hok) (proj2 Hok) Hq) as Hav.
  pose proof (consume_from_head_queue (sh_ring sh) qty (proj1 Hok)) as Hspec. destruct (take_from _ qty) as [[c s] rest] eqn:Et.
  destruct (consume_from_head (sh_ring sh) qty) as [res0 r]. cbn [fst snd] in *. destruct Hspec as (_ & Hs & _).
  set (ops := if 0 <? _ then _ else _). destruct (foldl stage_slice _ _) as [inline0 sh0] eqn:E. intros [= <- <- <-].
  destruct (slices_record _ _ (sh_did r ops sh) _ _ Hok1 E) as ((new & Hnew) & Hok' & Hd). split_and!; [|done|].
  - exists (ops ++ new). eapply records_trans; [|exact Hnew]. split; [done..|]. intros b Hb. unfold ops.
    destruct (Z.ltb_spec 0 (qty - cr_shortage res0)) as [Hlt|Hge]; cbn [foldl fifo_replay_op].
    + rewrite (agrees_ring _ _ Hb), Hav. by apply agrees_did.
    + assert (r = sh_ring sh) as ->; [|by destruct b, sh; apply Hb]. rewrite <-Hav.
      apply take_from_total in Et as (_ & _ & _ & Hmax & _); [|apply Hok|lia]. pose proof (on_hand_nonneg _ (proj2 Hok)).
      replace (qty - cr_shortage res0) with 0 by (rewrite Hs in *; cbn in *; lia). done.
  - change (cv_set_ring r (sview sh)) with (sview (sh_did r ops sh)). by rewrite Hd.
Qed.
Lemma shadowed_records e sh o sh' :
  view_ok (sview sh) → env_ok e → shadowed e sh = (o, sh') →
  (∃ new, records sh sh' new) ∧ view_ok (sview sh') ∧ direct e (sview sh) = (o, sview sh').
Proof.
  intros Hok He. destruct e as [layer|qty]; cbn [shadowed].
  - destruct (shadow_receipt layer sh) as [p sh1] eqn:E. intros [= <- <-]. by apply receipt_records.
  - destruct (shadow_issue qty sh) as [[res i] sh1] eqn:E. intros [= <- <-]. by apply issue_records.
Qed.
Lemma run_records es sh os sh' :
  view_ok (sview sh) → Forall env_ok es → run shadowed es sh = (os, sh') →
  (∃ new, records sh sh' new) ∧ view_ok (sview sh') ∧ run direct es (sview sh) = (os, sview sh').
Proof.
  revert sh os. induction es as [|e es IH]; intros sh os Hok He; cbn [run]; [intros [= <- <-]; eauto using records_refl|].
  apply Forall_cons in He as [He Hes]. destruct (shadowed e sh) as [o sh1] eqn:E1.
  destruct (shadowed_records e sh o sh1 Hok He E1) as ((n1 & Hn1) & Hok1 & ->).
  destruct (run shadowed es sh1) as [os1 sh2] eqn:E2. intros [= <- <-].
  destruct (IH sh1 os1 Hok1 Hes E2) as ((n2 & Hn2) & Hok2 & ->). split_and!; [|done|done]. exists (n1 ++ n2). by eapply records_trans.
Qed.

(** ** Snapshots *)
Lemma seed_shadow_records seeds sh :
  view_ok (sview sh) → seeds_ok seeds →
  let sh' := seed_shadow seeds sh in
  view_ok (sview sh') ∧ sview sh' = cv_mark_seeded (load_seeds seeds (sview sh)) ∧ sh_stamp_seeded sh' = sh_stamp_seeded sh ∧
  sh_ops sh' = sh_ops sh ∧ ∃ new, sh_seed_ops sh' = sh_seed_ops sh ++ new ∧ ∀ b, agrees b sh → agrees (foldl fifo_replay_op b new) sh'.
Proof.
  revert sh. induction seeds as [|s seeds IH]; intros sh Hok Hs; cbn [seed_shadow load_seeds].
  { split_and!; try done. exists []. by rewrite app_nil_r. }
  apply Forall_cons in Hs as [Hq Hs]. cbn [sview cv_ring cv_overflow]. destruct (push_layer (sh_ring sh) (seed_layer s)) as [[] r] eqn:E.
  - set (sh1 := sh_seeded_with r _ sh). assert (view_ok (sview sh1)) as Hok1 by (by destruct Hok; eapply (push_view_ok (sh_ring sh) (seed_layer s))).
    destruct (IH sh1 Hok1 Hs) as (H1 & H2 & H3 & H4 & new & H5 & H6). split_and!; [done|done|done|done|].
    exists (Push (seed_layer s) :: new). split; [rewrite H5; cbn; by rewrite <-app_assoc|]. intros b Hb. cbn. apply H6.
    rewrite (agrees_ring _ _ Hb), E. exact (agrees_did b sh r [] Hb).
  - apply push_false in E as ->. destruct (sh_overflow_active sh =? 0) eqn:Eo.
    + split_and!; [done..|]. exists [OverflowActivate (sd_layer_id s)]. split; [done|]. intros b Hb.
      exact (agrees_overflow b sh (sd_layer_id s) (sh_ring sh) [] Hb eq_refl).
    + split_and!; [done..|]. exists []. by rewrite app_nil_r.
Qed.
(** A shadow of a cell, on its own: replaying it on the cell gives its view. *)
Record stands_for (b : FifoBucket) (sh : CellShadow) : Prop := {
  sf_replay : bview (replay_shadow sh b) = sview sh;
  sf_ok : view_ok (sview sh);
}.
Lemma replay_seeded op b : fb_seeded (fifo_replay_op b op) = fb_seeded b.
Proof. destruct op; cbn; [|done..]. by destruct (push_layer _ _) as [[] ?]. Qed.
Lemma replays_seeded ops b : fb_seeded (foldl fifo_replay_op b ops) = fb_seeded b.
Proof. revert b. induction ops as [|op ops IH]; intros b; [done|]. cbn. by rewrite IH, replay_seeded. Qed.
Lemma agrees_seeded b sh : fb_seeded b ≠ 0 → agrees b sh ↔ bview b = sview sh.
Proof. intros Hs. unfold agrees, cv_mark_seeded, bview. apply Z.eqb_neq in Hs. by rewrite Hs. Qed.
Lemma mark_load_seeds l v : cv_mark_seeded (load_seeds l (cv_mark_seeded v)) = cv_mark_seeded (load_seeds l v).
Proof.
  revert v. induction l as [|s l IH]; intros v; [done|]. cbn [load_seeds]. change (cv_ring (cv_mark_seeded v)) with (cv_ring v).
  destruct (push_layer _ _) as [[] r]; [|cbn; by destruct (cv_overflow v =? 0)]. exact (IH (cv_set_ring r v)).
Qed.
Lemma snapshot_stands b seeds :
  view_ok (bview b) → from_option seeds_ok True seeds →
  stands_for b (snapshot b seeds) ∧ sview (snapshot b seeds) = direct_seed seeds (bview b).
Proof.
  intros Hok Hs. unfold snapshot, direct_seed. cbn [bview cv_seeded]. destruct (Z.eqb_spec (fb_seeded b) 0) as [E|E]; cbn [negb].
  2: { split; [|unfold sview, bview; cbn; apply Z.eqb_neq in E; by rewrite E]. split; [|done]. unfold replay_shadow, bview, sview. cbn.
       apply Z.eqb_neq in E. by rewrite E. }
  set (sh := {| sh_ring := fb_ring b |}). assert (agrees b sh) as Hb by done.
  replace (from_option (λ s, seed_shadow s sh) sh seeds) with (seed_shadow (default [] seeds) sh) by (by destruct seeds).
  destruct (seed_shadow_records (default [] seeds) sh Hok) as (H1 & H2 & H3 & H4 & new & H5 & H6); [by destruct seeds; [|constructor]|].
  split; [split; [|done]|].
  - unfold replay_shadow. rewrite H3, H4, H5. cbn. rewrite E. cbn. specialize (H6 b Hb). unfold agrees in H6. rewrite <-H6. done.
  - rewrite H2. change (sview sh) with (cv_mark_seeded (bview b)). by rewrite mark_load_seeds.
Qed.

(** * Frames *)
Definition combine (o : option CellShadow) (sh : CellShadow) : CellShadow := match o with Some p => merge_shadow p sh | None => sh end.
Lemma merged_cons f fs i :
  merged_frames (f :: fs) !! i = match f !! i with Some sh => Some (combine (merged_frames fs !! i) sh) | None => merged_frames fs !! i end.
Proof.
  change (merged_frames (f :: fs)) with (merge_frames (merged_frames fs) f). unfold merge_frames. rewrite lookup_union_with.
  destruct (merged_frames fs !! i), (f !! i); done.
Qed.
Lemma merged_snoc fs : merged_frames (fs ++ [∅]) = merged_frames fs.
Proof. apply map_eq. intros i. induction fs as [|f fs IH]; [done|]. cbn [app]. rewrite !merged_cons. by rewrite IH. Qed.
Lemma sview_combine o sh : sview (combine o sh) = sview sh.
Proof. by destruct o. Qed.
Lemma merge_shadow_assoc a b c : merge_shadow (merge_shadow a b) c = merge_shadow a (merge_shadow b c).
Proof.
  unfold merge_shadow. cbn. f_equal; [..|by rewrite app_assoc].
  all: by destruct (sh_stamp_seeded a), (sh_stamp_seeded b), (sh_stamp_seeded c).
Qed.
Lemma merged_commit_sub f g rest : merged_frames (merge_frames g f :: rest) = merged_frames (f :: g :: rest).
Proof.
  apply map_eq. intros i. rewrite !merged_cons. unfold merge_frames. rewrite lookup_union_with.
  destruct (g !! i), (f !! i), (merged_frames rest !! i); try done. cbn. by rewrite merge_shadow_assoc.
Qed.
Lemma parent_merged fs i :
  match parent_shadow fs i with
  | Some p => ∃ M, merged_frames fs !! i = Some M ∧ sview M = sview p
  | None => merged_frames fs !! i = None
  end.
Proof.
  induction fs as [|f fs IH]; [done|]. cbn [parent_shadow]. rewrite merged_cons. destruct (f !! i) as [sh|]; [|done].
  eexists. split; [done|]. apply sview_combine.
Qed.
Lemma stands_records b o sh sh' new :
  stands_for b (combine o sh) → records sh sh' new → view_ok (sview sh') → stands_for b (combine o sh').
Proof.
  intros [Hr _] [R1 R2 R3 R4] Hok. rewrite sview_combine in Hr. split; [|by rewrite sview_combine]. rewrite sview_combine.
  assert (replay_shadow (combine o sh') b = foldl fifo_replay_op (replay_shadow (combine o sh) b) new) as ->.
  { unfold replay_shadow. destruct o as [p|]; cbn; rewrite R1, R2, ?R3, ?app_assoc, foldl_app; done. }
  assert (fb_seeded (replay_shadow (combine o sh) b) ≠ 0) as Hs.
  { intros E. apply (f_equal cv_seeded) in Hr. cbn in Hr. by rewrite E in Hr. }
  apply agrees_seeded; [by rewrite replays_seeded|]. by apply R4, agrees_seeded.
Qed.

Definition level_ok (arena : FifoArena) (v : Z → CellView) (m : FifoFrame) : Prop :=
  ∀ i, view_ok (v i) ∧
    match m !! i with Some M => v i = sview M ∧ stands_for (bucket arena i) M | None => v i = bview (bucket arena i) end.
Lemma acquire_level arena seeds i v top rest sh st :
  level_ok arena v (merged_frames (top :: rest)) → map_Forall (λ _, seeds_ok) seeds →
  fifo_acquire_shadow arena seeds i (top :: rest) = (sh, st) →
  st = delete i top :: rest ∧ sview sh = direct_seed (seeds !! i) (v i) ∧ stands_for (bucket arena i) (combine (merged_frames rest !! i) sh).
Proof.
  intros Hl Hs. destruct (Hl i) as [Hok Hi]. rewrite merged_cons in Hi. cbn [fifo_acquire_shadow].
  destruct (top !! i) as [sh0|] eqn:Et.
  - intros [= <- <-]. destruct Hi as [Hv Hst]. rewrite sview_combine in Hv. split_and!; [done| |done]. unfold direct_seed. by rewrite Hv.
  - rewrite (delete_id top) by done. pose proof (parent_merged rest i) as Hp. destruct (parent_shadow rest i) as [p|]; intros [= <- <-].
    + destruct Hp as (M & HM & Hview). rewrite HM in *. destruct Hi as [Hv [H1 H2]]. split_and!; [done| |].
      * unfold direct_seed. rewrite Hv. cbn. by rewrite Hview.
      * assert (merge_shadow M {| sh_ring := sh_ring p; sh_overflow_active := sh_overflow_active p; sh_overflow_watermark := sh_overflow_watermark p;
                                  sh_stamp_seeded := false; sh_seed_ops := []; sh_ops := [] |} = M) as E.
        { unfold merge_shadow. cbn. rewrite app_nil_r. destruct M, p. unfold sview in Hview. cbn in *. by injection Hview as -> -> ->. }
        cbn [combine]. rewrite E. by split.
    + rewrite Hp in *. rewrite Hi in *. destruct (snapshot_stands (bucket arena i) (seeds !! i)) as [H1 H2]; [done| |by split_and!].
      destruct (seeds !! i) as [l|] eqn:El; [|done]. by apply (Hs i).
Qed.
Lemma cell_level arena seeds w v top rest os st :
  level_ok arena v (merged_frames (top :: rest)) → map_Forall (λ _, seeds_ok) seeds → Forall env_ok w.2 →
  shadow_cell arena seeds w (top :: rest) = (os, st) →
  ∃ top' v', st = top' :: rest ∧ direct_cell seeds w v = (os, v') ∧ level_ok arena v' (merged_frames (top' :: rest)).
Proof.
  intros Hl Hs Hw. unfold shadow_cell, direct_cell. destruct (fifo_acquire_shadow _ _ _ _) as [sh st0] eqn:Ea.
  destruct (acquire_level _ _ _ _ _ _ _ _ Hl Hs Ea) as (-> & <- & Hst). destruct (run shadowed w.2 sh) as [os0 sh'] eqn:Er.
  intros [= <- <-]. destruct (run_records w.2 sh os0 sh') as ((new & Hnew) & Hok & ->); [by destruct Hst as [_ H]; rewrite sview_combine in H|done|done|].
  exists (<[w.1 := sh']> (delete w.1 top)), (<[w.1 := sview sh']> v). split_and!; [done|done|]. intros i. rewrite merged_cons.
  destruct (decide (w.1 = i)) as [<-|Hne].
  - rewrite lookup_insert_eq, fn_lookup_insert, sview_combine. split_and!; [done|done|]. by eapply stands_records.
  - rewrite lookup_insert_ne, lookup_delete_ne, fn_lookup_insert_ne by done. specialize (Hl i). by rewrite merged_cons in Hl.
Qed.
Lemma each_level arena seeds work v top rest os st :
  level_ok arena v (merged_frames (top :: rest)) → map_Forall (λ _, seeds_ok) seeds → Forall (λ w, Forall env_ok w.2) work →
  each (shadow_cell arena seeds) work (top :: rest) = (os, st) →
  ∃ top' v', st = top' :: rest ∧ each (direct_cell seeds) work v = (os, v') ∧ level_ok arena v' (merged_frames (top' :: rest)).
Proof.
  revert v top os. induction work as [|w work IH]; intros v top os Hl Hs Hw; cbn [each]; [intros [= <- <-]; by exists top, v|].
  apply Forall_cons in Hw as [Hw Hws]. destruct (shadow_cell arena seeds w (top :: rest)) as [os1 st1] eqn:E1.
  destruct (cell_level _ _ _ _ _ _ _ _ Hl Hs Hw E1) as (top1 & v1 & -> & -> & Hl1).
  destruct (each (shadow_cell arena seeds) work (top1 :: rest)) as [os2 st2] eqn:E2. intros [= <- <-].
  destruct (IH v1 top1 os2 Hl1 Hs Hws E2) as (top' & v' & -> & -> & Hl'). by exists top', v'.
Qed.

(** * Transactions *)
Fixpoint levels (arena : FifoArena) (vs : list (Z → CellView)) (fs : list FifoFrame) : Prop :=
  match vs, fs with
  | [], [] => True
  | v :: vs, f :: fs' => level_ok arena v (merged_frames fs) ∧ levels arena vs fs'
  | _, _ => False
  end.
(** A backend may lack the outermost frame as long as it has nothing in it. *)
Definition tracks (arena : FifoArena) (vs : list (Z → CellView)) (fs : list FifoFrame) : Prop :=
  levels arena vs fs ∨ levels arena vs (fs ++ [∅]).
Lemma tracks_cons arena v vs fs :
  tracks arena (v :: vs) fs → ∃ top rest, fifo_ensure_top_frame fs = top :: rest ∧ level_ok arena v (merged_frames (top :: rest)) ∧
    ∀ v' top', level_ok arena v' (merged_frames (top' :: rest)) → tracks arena (v' :: vs) (top' :: rest).
Proof.
  intros [H|H]; destruct fs as [|f fs]; cbn [levels app] in H; try done.
  - destruct H as [H1 H2]. exists f, fs. split_and!; [done..|]. intros v' f' H'. by left.
  - destruct H as [H1 H2]. exists ∅, []. split_and!; [done..|]. intros v' f' H'. by left.
  - destruct H as [H1 H2]. change (f :: fs ++ [∅]) with ((f :: fs) ++ [∅]) in H1. rewrite merged_snoc in H1.
    exists f, fs. split_and!; [done..|]. intros v' f' H'. right. split; [|done]. change (f' :: fs ++ [∅]) with ((f' :: fs) ++ [∅]). by rewrite merged_snoc.
Qed.
Lemma tracks_two arena v p vs fs :
  tracks arena (v :: p :: vs) fs → level_ok arena v (merged_frames fs) ∧
    ((∃ f g rest, fs = f :: g :: rest ∧ level_ok arena p (merged_frames (g :: rest)) ∧
        ∀ v' f', level_ok arena v' (merged_frames (f' :: rest)) → tracks arena (v' :: vs) (f' :: rest)) ∨
     (∃ f, fs = [f] ∧ vs = [] ∧ level_ok arena p ∅)).
Proof.
  intros [H|H]; destruct fs as [|f [|g rest]]; cbn [levels app] in H; try done.
  - by destruct H.
  - destruct H as (H1 & H2 & H3). split; [done|]. left. exists f, g, rest. split_and!; [done..|]. intros v' f' H'. by left.
  - by destruct H.
  - destruct H as (H1 & H2 & H3). change [f; ∅] with ([f] ++ [∅ : FifoFrame]) in H1. rewrite merged_snoc in H1. split; [done|]. right. exists f. by destruct vs.
  - destruct H as (H1 & H2 & H3). change (f :: g :: rest ++ [∅]) with ((f :: g :: rest) ++ [∅]) in H1.
    change (g :: rest ++ [∅]) with ((g :: rest) ++ [∅]) in H2. rewrite merged_snoc in *. split; [done|]. left.
    exists f, g, rest. split_and!; [done..|]. intros v' f' H'. right. split; [|done]. change (f' :: rest ++ [∅]) with ((f' :: rest) ++ [∅]). by rewrite merged_snoc.
Qed.
Lemma start_tracks arena v vs fs : tracks arena (v :: vs) fs → tracks arena (v :: v :: vs) (∅ :: fs).
Proof.
  assert (∀ fs, merged_frames (∅ :: fs) = merged_frames fs) as He.
  { intros l. apply map_eq. intros i. rewrite merged_cons. by rewrite lookup_empty. }
  intros [H|H]; [left|right]; cbn [levels app]; (split; [|done]); rewrite He.
  - destruct fs; [done|]. by destruct H.
  - destruct fs; cbn [levels app] in *; by destruct H.
Qed.
Definition depth_after (d : nat) (e : Event) : option nat :=
  match e, d with
  | Batch _ _, d => Some d
  | StartSub, d => Some (S d)
  | (CommitSub | AbortSub), S d => Some d
  | (CommitSub | AbortSub), O => None
  end.
Lemma event_tracks arena e d d' vs fs os fs' :
  length vs = S d → depth_after d e = Some d' → event_ok e → tracks arena vs fs → shadow_event arena e fs = (os, fs') →
  ∃ vs', direct_event e vs = (os, vs') ∧ length vs' = S d' ∧ tracks arena vs' fs'.
Proof.
  intros Hlen Hd He Ht. destruct vs as [|v vs]; [done|]. cbn in Hlen. destruct e as [seeds work| | |]; cbn [shadow_event direct_event].
  - destruct He as [Hs Hw]. injection Hd as <-. destruct (tracks_cons _ _ _ _ Ht) as (top & rest & -> & Hl & Hback). intros E.
    destruct (each_level _ _ _ _ _ _ _ _ Hl Hs Hw E) as (top' & v' & -> & -> & Hl'). exists (v' :: vs). split_and!; [done|done|]. by apply Hback.
  - injection Hd as <-. intros [= <- <-]. exists (v :: v :: vs). split_and!; [done|cbn; lia|]. by apply start_tracks.
  - destruct d; [done|]. injection Hd as <-. destruct vs as [|p vs]; [done|]. intros [= <- <-]. exists (v :: vs).
    split_and!; [done|cbn in *; lia|]. destruct (tracks_two _ _ _ _ _ Ht) as [Hl [(f & g & rest & -> & _ & Hback)|(f & -> & -> & _)]].
    + apply Hback. by rewrite merged_commit_sub.
    + by left.
  - destruct d; [done|]. injection Hd as <-. destruct vs as [|p vs]; [done|]. intros [= <- <-]. exists (p :: vs).
    split_and!; [done|cbn in *; lia|]. destruct (tracks_two _ _ _ _ _ Ht) as [_ [(f & g & rest & -> & Hp & Hback)|(f & -> & -> & Hp)]].
    + by apply Hback.
    + left. split; [|done]. exact Hp.
Qed.
Lemma nested_cons d e es : nested d (e :: es) = match depth_after d e with Some d' => nested d' es | None => false end.
Proof. by destruct e, d. Qed.
Lemma events_track arena es d vs fs os fs' :
  length vs = S d → nested d es = true → Forall event_ok es → tracks arena vs fs → each (shadow_event arena) es fs = (os, fs') →
  ∃ v, each direct_event es vs = (os, [v]) ∧ tracks arena [v] fs'.
Proof.
  revert d vs fs os. induction es as [|e es IH]; intros d vs fs os Hlen Hn He Ht; cbn [each].
  { intros [= <- <-]. destruct d; [|done]. destruct vs as [|v [|? ?]]; try done. by exists v. }
  rewrite nested_cons in Hn. destruct (depth_after d e) as [d'|] eqn:Hd; [|done]. apply Forall_cons in He as [He Hes].
  destruct (shadow_event arena e fs) as [os1 fs1] eqn:E1. destruct (event_tracks _ _ _ _ _ _ _ _ Hlen Hd He Ht E1) as (vs1 & -> & Hlen1 & Ht1).
  destruct (each (shadow_event arena) es fs1) as [os2 fs2] eqn:E2. intros [= <- <-].
  destruct (IH d' vs1 fs1 os2 Hlen1 Hn Hes Ht1 E2) as (v & -> & Hv). by exists v.
Qed.

(** ** The commit *)
Lemma commit_cells frame keys arena seq i :
  NoDup keys →
  let arena' := (foldl (commit_cell frame) (arena, seq) keys).1 in
  match frame !! i with
  | Some sh => if decide (i ∈ keys) then ∃ n, bucket arena' i = fb_stamp_last n (replay_shadow sh (bucket arena i)) else bucket arena' i = bucket arena i
  | None => bucket arena' i = bucket arena i
  end.
Proof.
  revert arena seq. induction keys as [|k keys IH]; intros arena seq Hnd; cbn [foldl].
  { cbn. destruct (frame !! i); [|done]. by rewrite decide_False by apply not_elem_of_nil. }
  apply NoDup_cons in Hnd as [Hk Hnd]. destruct (frame !! k) as [shk|] eqn:Ek.
  - assert (commit_cell frame (arena, seq) k = (<[k := fb_stamp_last (as_u64 (seq + 1)) (replay_shadow shk (bucket arena k))]> arena, as_u64 (seq + 1))) as ->
      by (unfold commit_cell; by rewrite Ek).
    specialize (IH (<[k := fb_stamp_last (as_u64 (seq + 1)) (replay_shadow shk (bucket arena k))]> arena) (as_u64 (seq + 1)) Hnd).
    cbn zeta in IH. destruct (decide (i = k)) as [->|Hne].
    + rewrite Ek in *. rewrite decide_False in IH by done. rewrite decide_True by by left. rewrite IH, bucket_insert. by eexists.
    + rewrite bucket_insert_ne in IH by congruence. destruct (frame !! i); [|exact IH].
      destruct (decide (i ∈ keys)); [rewrite decide_True by by right|rewrite decide_False by (rewrite elem_of_cons; naive_solver)]; done.
  - assert (commit_cell frame (arena, seq) k = (arena, seq)) as -> by (unfold commit_cell; by rewrite Ek).
    specialize (IH arena seq Hnd). cbn zeta in IH. destruct (frame !! i) eqn:Ei; [|done].
    assert (i ≠ k) by congruence.
    destruct (decide (i ∈ keys)); [rewrite decide_True by by right|rewrite decide_False by (rewrite elem_of_cons; naive_solver)]; done.
Qed.
Lemma commit_view arena seq v fs i :
  tracks arena [v] fs → bview (bucket (fifo_xact_commit fs arena seq).1.1 i) = v i.
Proof.
  intros Ht. assert (level_ok arena v (merged_frames fs)) as Hl.
  { destruct Ht as [H|H]; destruct fs as [|f fs]; cbn [levels app] in H; try done; destruct H as [H1 H2]; [done|done|].
    by rewrite app_comm_cons, merged_snoc in H1. }
  specialize (Hl i) as [_ Hi]. destruct fs as [|f fs]; [by rewrite Hi|]. cbn [fifo_xact_commit fst].
  set (m := merged_frames (f :: fs)) in *. set (keys := merge_sort (≤) (map_to_list m).*1).
  assert (keys ≡ₚ (map_to_list m).*1) as Hp by apply merge_sort_Permutation.
  pose proof (commit_cells m keys arena seq i) as H. cbn zeta in H. destruct (m !! i) as [M|] eqn:Em.
  - rewrite decide_True in H.
    + destruct H as [n ->]; [rewrite Hp; apply NoDup_fst_map_to_list|]. destruct Hi as [-> [Hr _]]. exact Hr.
    + rewrite Hp. change i with (i, M).1. by apply list_elem_of_fmap_2, elem_of_map_to_list.
  - rewrite H; [done|]. rewrite Hp. apply NoDup_fst_map_to_list.
Qed.

(** C7: Within a transaction that no other backend interferes with, working on shadows
    is the same as working on the cells: whatever batches of receipts and issues,
    savepoints, releases and rollbacks it consists of, every envelope has the outcome
    (layers consumed, cost, shortage, slices left for the inline update) that it has when
    applied directly, and after the commit every cell is what direct application
    leaves, rolled-back savepoints undone. *)
Theorem deferred_apply_is_direct arena seq es os stack :
  arena_ok arena → Forall event_ok es → nested O es = true → each (shadow_event arena) es [] = (os, stack) →
  ∃ v, each direct_event es [λ i, bview (bucket arena i)] = (os, [v]) ∧
       ∀ i, bview (bucket (fifo_xact_commit stack arena seq).1.1 i) = v i.
Proof.
  intros Ha He Hn Hrun. assert (tracks arena [λ i, bview (bucket arena i)] []) as Ht.
  { right. split; [|done]. intros i. split; [apply Ha|done]. }
  destruct (events_track arena es 0 [_] _ _ _ eq_refl Hn He Ht Hrun) as (v & Hd & Hv). exists v. split; [done|].
  intros i. by apply commit_view.
Qed.
