(* ===== verification/ExtFifoBatch.v ===== *)
(** FIFO batches over the arena and the durable tables (ledger-extension, fifo.rs).  First
    the tables (migrations 0001, 0002, 0007 and 0025 of batch-ledger) and the SQL statements
    run on them; sequences hand out [last + 1] and are not rolled back with their
    transaction.  Then [fifo_apply_batch_maximal]: envelopes are parsed, replays set aside,
    pools given cells of the arena, receipts numbered; each cell's envelopes run on its
    shadow; what the ring cannot give is walked in the durable layers; at the end the audit
    rows are written and the balance deltas staged.  JSON decoding is a library's: an
    envelope is the values its keys decode to.  Last the drain into the durable layers, the
    reconciliation queries and the transactions that run batches; transactions follow one
    another: what two backends do to one cell at the same time is outside this model. *)
From S2P Require Import Prelude ExtTable ExtBalance ExtRing ExtShadow.

(** Text conversions of the server: [uuid] input and output, [date] input. *)
Class PgText := {
  uuid_in : string → option Z;
  uuid_out : Z → string;
  date_in : string → option Z;
}.

(** * Tables *)
Record PostingLine := {
  pl_debit : Z; pl_credit : Z; pl_amount : Z; pl_currency : string; pl_key : Z; pl_date : Z; pl_qty : Z;
}.
Record CostLayer := {
  cl_pool : Z; cl_qty_remaining : Z; cl_qty_received : Z; cl_unit_cost : Z; cl_receipt_date : Z; cl_receipt_posting : option Z;
}.
Record Depletion := { dp_layer : Z; dp_issue_posting : Z; dp_qty_consumed : Z; dp_cost_amount : Z }.
Record FifoDb := {
  accounts : gmap Z string;
  posting_lines : gmap Z PostingLine;
  cost_layers : gmap Z CostLayer;
  depletions : gmap Z Depletion;
}.
Record FifoSeqs := { sq_posting : Z; sq_layer : Z; sq_depletion : Z }.
Definition set_postings (m : gmap Z PostingLine) (d : FifoDb) : FifoDb :=
  {| accounts := accounts d; posting_lines := m; cost_layers := cost_layers d; depletions := depletions d |}.
Definition set_layers (m : gmap Z CostLayer) (d : FifoDb) : FifoDb :=
  {| accounts := accounts d; posting_lines := posting_lines d; cost_layers := m; depletions := depletions d |}.
Definition set_depletions (m : gmap Z Depletion) (d : FifoDb) : FifoDb :=
  {| accounts := accounts d; posting_lines := posting_lines d; cost_layers := cost_layers d; depletions := m |}.
Definition set_remaining (q : Z) (l : CostLayer) : CostLayer :=
  {| cl_pool := cl_pool l; cl_qty_remaining := q; cl_qty_received := cl_qty_received l; cl_unit_cost := cl_unit_cost l;
     cl_receipt_date := cl_receipt_date l; cl_receipt_posting := cl_receipt_posting l |}.

(** * Errors *)
Inductive FifoError :=
  | NotArray
  | NotObject (idx : Z)
  | UnsupportedKind (idx : Z) (kind : string)
  | Missing (idx : Z) (field : string)
  | Invalid (idx : Z) (field : string)
  | ShortInRing (envelope_idx shortage pool : Z)
  | ShortInTail (envelope_idx shortage pool watermark : Z)
  | ShortDurable (envelope_idx shortage pool : Z)
  | NoCurrency (envelope_idx debit : Z)
  | KeyNotReturned (key : string)
  | SqlFailed (sqlstate : string).

(** * Statements *)
(** ORDER BY receipt_date, id. *)
Definition layer_before (a b : Z * CostLayer) : Prop :=
  cl_receipt_date a.2 < cl_receipt_date b.2 ∨ (cl_receipt_date a.2 = cl_receipt_date b.2 ∧ a.1 ≤ b.1).
#[global] Instance layer_before_dec : RelDecision layer_before.
Proof. intros a b. unfold layer_before. apply _. Defined.
(** The rows of a pool with [qty_remaining > 0], oldest first. *)
Definition open_layers (keep : Z → bool) (pool : Z) (d : FifoDb) : list (Z * CostLayer) :=
  merge_sort layer_before
    (List.filter (λ il, (cl_pool il.2 =? pool) && keep il.1 && (0 <? cl_qty_remaining il.2)) (map_to_list (cost_layers d))).
Definition seed_rows (pool : Z) (d : FifoDb) : list SeedLayerSnapshot :=
  (λ il, {| sd_layer_id := il.1; sd_qty_remaining := cl_qty_remaining il.2; sd_unit_cost := cl_unit_cost il.2 |}) <$>
    open_layers (λ _, true) pool d.

(** UPDATE cost_layers SET qty_remaining = qty_remaining - u.d, with the check that it
    stays non-negative. *)
Definition drained (drain : gmap Z Z) (id : Z) (l : CostLayer) : CostLayer :=
  match drain !! id with Some n => set_remaining (cl_qty_remaining l - n) l | None => l end.
Definition drain_allowed (drain : gmap Z Z) (layers : gmap Z CostLayer) : bool :=
  forallb (λ ln, match layers !! ln.1 with
                 | Some l => bool_decide (0 ≤ cl_qty_remaining l - ln.2 ≤ i64_max)
                 | None => true
                 end) (map_to_list drain).
Definition update_remaining (drain : gmap Z Z) (layers : gmap Z CostLayer) : Res FifoError (gmap Z CostLayer) :=
  if drain_allowed drain layers then Ok (map_imap (λ id l, Some (drained drain id l)) layers) else Err (SqlFailed "23514").

Section statements.
Context `{!PgText}.
Definition uuid_cast (s : string) : Res FifoError Z := ok_or (uuid_in s) (SqlFailed "22P02").
Definition date_cast (s : string) : Res FifoError Z := ok_or (date_in s) (SqlFailed "22007").
Fixpoint mapR {A B} (f : A → Res FifoError B) (l : list A) : Res FifoError (list B) :=
  match l with [] => Ok [] | a :: l => b ← f a; bs ← mapR f l; Ok (b :: bs) end.

(** SELECT idempotency_key::TEXT, id WHERE idempotency_key = ANY(keys). *)
Definition select_replays (keys : list string) (d : FifoDb) : Res FifoError (gmap string Z) :=
  us ← mapR uuid_cast keys;
  Ok (list_to_map ((λ il : Z * PostingLine, (uuid_out (pl_key il.2), il.1)) <$>
        List.filter (λ il, bool_decide (pl_key il.2 ∈ us)) (map_to_list (posting_lines d)))).

(** INSERT INTO posting_lines, one row. *)
Definition insert_posting (id : Z) (row : PostingLine) (d : FifoDb) : Res FifoError FifoDb :=
  if negb (0 <? pl_amount row) || (pl_debit row =? pl_credit row) then Err (SqlFailed "23514")
  else if negb (bool_decide (is_Some (accounts d !! pl_debit row))) || negb (bool_decide (is_Some (accounts d !! pl_credit row)))
  then Err (SqlFailed "23503")
  else if bool_decide (is_Some (posting_lines d !! id)) || bool_decide (map_Exists (λ _ r, pl_key r = pl_key row) (posting_lines d))
  then Err (SqlFailed "23505")
  else Ok (set_postings (<[id := row]> (posting_lines d)) d).
(** INSERT INTO cost_layers, one row. *)
Definition insert_layer (id : Z) (row : CostLayer) (d : FifoDb) : Res FifoError FifoDb :=
  if negb (0 <=? cl_qty_remaining row) || negb (0 <? cl_qty_received row) || negb (0 <? cl_unit_cost row) then Err (SqlFailed "23514")
  else if negb (bool_decide (is_Some (accounts d !! cl_pool row))) || negb (from_option (λ pl, bool_decide (is_Some (posting_lines d !! pl))) true (cl_receipt_posting row))
  then Err (SqlFailed "23503")
  else if bool_decide (is_Some (cost_layers d !! id)) then Err (SqlFailed "23505")
  else Ok (set_layers (<[id := row]> (cost_layers d)) d).
(** INSERT INTO cost_layer_depletions, one row. *)
Definition insert_depletion (id : Z) (row : Depletion) (d : FifoDb) : Res FifoError FifoDb :=
  if negb (0 <? dp_qty_consumed row) then Err (SqlFailed "23514")
  else if negb (bool_decide (is_Some (cost_layers d !! dp_layer row))) || negb (bool_decide (is_Some (posting_lines d !! dp_issue_posting row)))
  then Err (SqlFailed "23503")
  else if bool_decide (is_Some (depletions d !! id)) then Err (SqlFailed "23505")
  else Ok (set_depletions (<[id := row]> (depletions d)) d).
End statements.

(** * Envelopes *)
Inductive FifoKind := FifoReceipt | FifoIssue.
#[global] Instance FifoKind_eq_dec : EqDecision FifoKind.
Proof. solve_decision. Defined.
Record FifoJson := {
  fj_kind : option string; fj_envelope_idx : option Z; fj_debit : option Z; fj_credit : option Z; fj_qty : option Z;
  fj_unit_cost : option Z; fj_key : option string; fj_date : option string;
}.
Record Parsed := {
  pa_envelope_idx : Z; pa_kind : FifoKind; pa_debit : Z; pa_credit : Z; pa_qty : Z; pa_unit_cost : option Z;
  pa_key : string; pa_date : string;
}.
(** [as_i64]: an integer that does not fit is no number. *)
Definition json_i64 (o : option Z) : option Z := o ≫= i64_try_from.
Definition parse_fifo (idx : Z) (env : option FifoJson) : Res FifoError Parsed :=
  obj ← ok_or env (NotObject idx);
  kind ← (let k := default "fifo_receipt"%string (fj_kind obj) in
          if decide (k = "fifo_receipt"%string) then Ok FifoReceipt
          else if decide (k = "fifo_issue"%string) then Ok FifoIssue else Err (UnsupportedKind idx k));
  debit ← ok_or (json_i64 (fj_debit obj)) (Missing idx "debit_account_id");
  credit ← ok_or (json_i64 (fj_credit obj)) (Missing idx "credit_account_id");
  qty ← ok_or (json_i64 (fj_qty obj)) (Missing idx "qty");
  if qty <=? 0 then Err (Invalid idx "qty") else
  let unit_cost := json_i64 (fj_unit_cost obj) in
  if bool_decide (kind = FifoReceipt) && (default 0 unit_cost <=? 0) then Err (Invalid idx "unit_cost") else
  key ← ok_or (fj_key obj) (Missing idx "idempotency_key");
  date ← ok_or (fj_date obj) (Missing idx "business_date");
  Ok {| pa_envelope_idx := as_i32 (default idx (json_i64 (fj_envelope_idx obj))); pa_kind := kind; pa_debit := debit; pa_credit := credit;
        pa_qty := qty; pa_unit_cost := unit_cost; pa_key := key; pa_date := date |}.
Fixpoint parse_all (idx : Z) (arr : list (option FifoJson)) : Res FifoError (list Parsed) :=
  match arr with [] => Ok [] | e :: arr => p ← parse_fifo idx e; ps ← parse_all (idx + 1) arr; Ok (p :: ps) end.
Definition pool_of (p : Parsed) : Z := match pa_kind p with FifoReceipt => pa_debit p | FifoIssue => pa_credit p end.

(** * Cells *)
(** The cells of the pools that have one, and the pools that have none, in order of
    first appearance. *)
Definition probe_pool (arena : FifoArena) (st : gmap Z Z * list Z) (p : Parsed) : gmap Z Z * list Z :=
  match st.1 !! pool_of p with
  | Some _ => st
  | None =>
      match probe_fifo_cell arena (pack_fifo_key_poc (pool_of p)) with
      | Some cell => (<[pool_of p := cell]> st.1, st.2)
      | None => (st.1, if decide (pool_of p ∈ st.2) then st.2 else st.2 ++ [pool_of p])
      end
  end.
(** A pool for which the arena has no room gets no cell. *)
Definition insert_pool (st : gmap Z Z * FifoArena) (pool : Z) : gmap Z Z * FifoArena :=
  match insert_fifo_cell st.2 (pack_fifo_key_poc pool) with
  | (Some cell, arena) => (<[pool := cell]> st.1, arena)
  | (None, arena) => (st.1, arena)
  end.
Definition find_cells (fresh : list Parsed) (arena : FifoArena) : gmap Z Z * FifoArena :=
  let '(pool_to_cell, missing) := foldl (probe_pool arena) (∅, []) fresh in
  foldl insert_pool (pool_to_cell, arena) missing.

(** * Layer numbers *)
Abbreviation Work := (Parsed * option Z)%type.
Fixpoint number_receipts (next : Z) (fresh : list Parsed) : list Work :=
  match fresh with
  | [] => []
  | p :: fresh =>
      match pa_kind p with
      | FifoReceipt => (p, Some next) :: number_receipts (next + 1) fresh
      | FifoIssue => (p, None) :: number_receipts next fresh
      end
  end.
Definition count_receipts (fresh : list Parsed) : Z :=
  Z.of_nat (length (List.filter (λ p, bool_decide (pa_kind p = FifoReceipt)) fresh)).

(** * Loading and grouping *)
(** The durable layers of every cell the batch touches that was never loaded. *)
Definition seed_cells (arena : FifoArena) (d : FifoDb) (pool_to_cell : gmap Z Z) (fresh : list Parsed) : gmap Z (list SeedLayerSnapshot) :=
  foldl (λ m p,
    match pool_to_cell !! pool_of p with
    | None => m
    | Some cell => match m !! cell with
                   | Some _ => m
                   | None => if fb_seeded (bucket arena cell) =? 0 then <[cell := seed_rows (pool_of p) d]> m else m
                   end
    end) ∅ fresh.
Definition cell_of_work (pool_to_cell : gmap Z Z) (w : Work) : option Z := pool_to_cell !! pool_of w.1.
Definition cells_to_envelopes (pool_to_cell : gmap Z Z) (works : list Work) : list (Z * list Work) :=
  (λ cell, (cell, List.filter (λ w, bool_decide (cell_of_work pool_to_cell w = Some cell)) works)) <$>
    merge_sort (≤) (remove_dups (omap (cell_of_work pool_to_cell) works)).
Definition durable_only (pool_to_cell : gmap Z Z) (works : list Work) : list Work :=
  List.filter (λ w, bool_decide (cell_of_work pool_to_cell w = None)) works.

(** * Accumulators *)
Record Spill := { sp_env : Parsed; sp_shortage : Z; sp_in_shmem_cost : Z; sp_watermark : Z }.
Record Acc := {
  ac_postings : list (Parsed * Z);
  ac_layers : list (Parsed * Z);
  ac_depletions : list (Z * string * Z * Z);
  ac_drain : gmap Z Z;
  ac_balances : gmap Z (Z * Z);
  ac_spills : list Spill;
}.
Definition no_acc : Acc :=
  {| ac_postings := []; ac_layers := []; ac_depletions := []; ac_drain := ∅; ac_balances := ∅; ac_spills := [] |}.
Definition add_balance (account amount qty : Z) (m : gmap Z (Z * Z)) : gmap Z (Z * Z) :=
  let e := default (0, 0) (m !! account) in <[account := (wadd e.1 amount, wadd e.2 qty)]> m.
Definition add_drain (m : gmap Z Z) (layer_id qty : Z) : gmap Z Z := <[layer_id := wadd (default 0 (m !! layer_id)) qty]> m.
(** A receipt's posting, layer and balance deltas. *)
Definition acc_receipt (p : Parsed) (lid amount : Z) (a : Acc) : Acc :=
  {| ac_postings := ac_postings a ++ [(p, amount)]; ac_layers := ac_layers a ++ [(p, lid)]; ac_depletions := ac_depletions a;
     ac_drain := ac_drain a;
     ac_balances := add_balance (pa_credit p) (- amount) 0 (add_balance (pa_debit p) amount (pa_qty p) (ac_balances a));
     ac_spills := ac_spills a |}.
(** An issue's posting and balance deltas, once its cost is known. *)
Definition acc_issue (p : Parsed) (total_cost : Z) (a : Acc) : Acc :=
  {| ac_postings := ac_postings a ++ [(p, total_cost)]; ac_layers := ac_layers a; ac_depletions := ac_depletions a;
     ac_drain := ac_drain a;
     ac_balances := add_balance (pa_credit p) (- total_cost) (- pa_qty p) (add_balance (pa_debit p) total_cost 0 (ac_balances a));
     ac_spills := ac_spills a |}.
(** Slices consumed, with those whose layers are to be lowered inline. *)
Definition acc_slices (p : Parsed) (slices inline : list ConsumedSlice) (a : Acc) : Acc :=
  {| ac_postings := ac_postings a; ac_layers := ac_layers a;
     ac_depletions := ac_depletions a ++
       ((λ s, (cs_layer_id s, pa_key p, cs_qty_consumed s, saturating_mul (cs_qty_consumed s) (cs_unit_cost s))) <$> slices);
     ac_drain := foldl (λ m s, add_drain m (cs_layer_id s) (cs_qty_consumed s)) (ac_drain a) inline;
     ac_balances := ac_balances a; ac_spills := ac_spills a |}.
Definition acc_spill (sp : Spill) (a : Acc) : Acc :=
  {| ac_postings := ac_postings a; ac_layers := ac_layers a; ac_depletions := ac_depletions a; ac_drain := ac_drain a;
     ac_balances := ac_balances a; ac_spills := ac_spills a ++ [sp] |}.

(** * Applying *)
Definition new_layer (p : Parsed) (lid : Z) : Layer := {| ly_qty := pa_qty p; ly_unit_cost := default 0 (pa_unit_cost p); ly_layer_id := lid |}.
Definition receipt_amount (p : Parsed) : Z := saturating_mul (pa_qty p) (default 0 (pa_unit_cost p)).
(** Phase 8: one envelope on the shadow of its cell. *)
Definition apply_work (st : CellShadow * Acc) (w : Work) : Res FifoError (CellShadow * Acc) :=
  let '(shadow, a) := st in let p := w.1 in
  match pa_kind p with
  | FifoReceipt =>
      let lid := default 0 w.2 in
      Ok ((shadow_receipt (new_layer p lid) shadow).2, acc_receipt p lid (receipt_amount p) a)
  | FifoIssue =>
      let '(res, inline, shadow') := shadow_issue (pa_qty p) shadow in
      let a := acc_slices p (cr_consumed res) inline a in
      if 0 <? cr_shortage res then
        if sh_overflow_active shadow' =? 1
        then Ok (shadow', acc_spill {| sp_env := p; sp_shortage := cr_shortage res; sp_in_shmem_cost := cr_total_cost res;
                                       sp_watermark := sh_overflow_watermark shadow' |} a)
        else Err (ShortInRing (pa_envelope_idx p) (cr_shortage res) (pa_credit p))
      else Ok (shadow', acc_issue p (cr_total_cost res) a)
  end.
(** Walking durable rows, oldest first: what is still missing, the cost and the slices. *)
Fixpoint walk_rows (rows : list (Z * CostLayer)) (remaining total_cost : Z) (consumed : list ConsumedSlice) : Z * Z * list ConsumedSlice :=
  match rows with
  | [] => (remaining, total_cost, consumed)
  | (lid, row) :: rows =>
      if remaining =? 0 then (remaining, total_cost, consumed)
      else
        let take := Z.min remaining (cl_qty_remaining row) in
        walk_rows rows (remaining - take) (saturating_add total_cost (saturating_mul take (cl_unit_cost row)))
          (consumed ++ [{| cs_layer_id := lid; cs_qty_consumed := take; cs_unit_cost := cl_unit_cost row |}])
  end.
(** Phase 8.5: the rest of an issue from the durable rows at or after the watermark. *)
Definition apply_spill (d : FifoDb) (a : Acc) (sp : Spill) : Res FifoError Acc :=
  let p := sp_env sp in
  let '(remaining, cost, slices) := walk_rows (open_layers (λ id, sp_watermark sp <=? id) (pa_credit p) d) (sp_shortage sp) 0 [] in
  if 0 <? remaining then Err (ShortInTail (pa_envelope_idx p) remaining (pa_credit p) (sp_watermark sp))
  else Ok (acc_issue p (saturating_add (sp_in_shmem_cost sp) cost) (acc_slices p slices slices a)).
(** Phase 8.6: an envelope of a pool without a cell. *)
Definition apply_durable (d : FifoDb) (a : Acc) (w : Work) : Res FifoError Acc :=
  let p := w.1 in
  match pa_kind p with
  | FifoReceipt => Ok (acc_receipt p (default 0 w.2) (receipt_amount p) a)
  | FifoIssue =>
      let '(remaining, cost, slices) := walk_rows (open_layers (λ _, true) (pa_credit p) d) (pa_qty p) 0 [] in
      if 0 <? remaining then Err (ShortDurable (pa_envelope_idx p) remaining (pa_credit p))
      else Ok (acc_issue p cost (acc_slices p slices slices a))
  end.

(** * The session *)
Record Session := {
  ss_db : FifoDb;
  ss_seqs : FifoSeqs;
  ss_arena : FifoArena;
  ss_frames : list FifoFrame;
  ss_pending : list Frame;
}.
Definition set_db (d : FifoDb) (s : Session) : Session :=
  {| ss_db := d; ss_seqs := ss_seqs s; ss_arena := ss_arena s; ss_frames := ss_frames s; ss_pending := ss_pending s |}.
Definition set_seqs (q : FifoSeqs) (s : Session) : Session :=
  {| ss_db := ss_db s; ss_seqs := q; ss_arena := ss_arena s; ss_frames := ss_frames s; ss_pending := ss_pending s |}.
Definition set_arena (a : FifoArena) (s : Session) : Session :=
  {| ss_db := ss_db s; ss_seqs := ss_seqs s; ss_arena := a; ss_frames := ss_frames s; ss_pending := ss_pending s |}.
Definition set_frames (f : list FifoFrame) (s : Session) : Session :=
  {| ss_db := ss_db s; ss_seqs := ss_seqs s; ss_arena := ss_arena s; ss_frames := f; ss_pending := ss_pending s |}.
Definition set_pending (f : list Frame) (s : Session) : Session :=
  {| ss_db := ss_db s; ss_seqs := ss_seqs s; ss_arena := ss_arena s; ss_frames := ss_frames s; ss_pending := f |}.
Abbreviation FM := (SE Session FifoError).
Definition bump_posting (q : FifoSeqs) : FifoSeqs := {| sq_posting := sq_posting q + 1; sq_layer := sq_layer q; sq_depletion := sq_depletion q |}.
Definition bump_layer (n : Z) (q : FifoSeqs) : FifoSeqs := {| sq_posting := sq_posting q; sq_layer := sq_layer q + n; sq_depletion := sq_depletion q |}.
Definition bump_depletion (q : FifoSeqs) : FifoSeqs := {| sq_posting := sq_posting q; sq_layer := sq_layer q; sq_depletion := sq_depletion q + 1 |}.
Fixpoint foldS {A B} (f : B → A → FM B) (b : B) (l : list A) : FM B :=
  match l with [] => mret b | a :: l => f b a ≫= λ b', foldS f b' l end.
(** A statement on the tables. *)
Definition statement (f : FifoDb → Res FifoError FifoDb) : FM unit :=
  d ← gets ss_db; d' ← lift (f d); modify (set_db d').

(** Phase 8 on one cell. *)
Definition apply_cell (seeds : gmap Z (list SeedLayerSnapshot)) (a : Acc) (cw : Z * list Work) : FM Acc :=
  s ← gets id;
  let '(shadow, frames) := fifo_acquire_shadow (ss_arena s) seeds cw.1 (ss_frames s) in
  _ ← modify (set_frames frames);
  r ← lift (foldM apply_work (shadow, a) cw.2);
  _ ← modify (λ s, set_frames (fifo_install_shadow cw.1 r.1 (ss_frames s)) s);
  mret r.2.

Section batch.
Context `{!PgText}.
(** Phase 9a: the currency of a posting is that of its debit account. *)
Definition currency_of (d : FifoDb) (pa : Parsed * Z) : Res FifoError (Parsed * Z * string) :=
  c ← ok_or (accounts d !! pa_debit pa.1) (NoCurrency (pa_envelope_idx pa.1) (pa_debit pa.1)); Ok (pa, c).
(** Phase 9b: one posting, numbered from the sequence; the numbers are kept by the key's
    canonical text. *)
Definition add_posting (ids : gmap string Z) (row : Parsed * Z * string) : FM (gmap string Z) :=
  let p := row.1.1 in
  key ← lift (uuid_cast (pa_key p));
  date ← lift (date_cast (pa_date p));
  _ ← modify (λ s, set_seqs (bump_posting (ss_seqs s)) s);
  id ← gets (λ s, sq_posting (ss_seqs s));
  _ ← statement (insert_posting id {| pl_debit := pa_debit p; pl_credit := pa_credit p; pl_amount := row.1.2; pl_currency := row.2;
                                      pl_key := key; pl_date := date; pl_qty := pa_qty p |});
  mret (<[uuid_out key := id]> ids).
(** The number of the posting with a key of the batch. *)
Definition posting_id (ids : gmap string Z) (key : string) : Res FifoError Z := ok_or (ids !! key) (KeyNotReturned key).
(** Phase 9c: the layer of a receipt. *)
Definition add_layer (row : Parsed * Z * Z) : FM unit :=
  let p := row.1.1 in
  date ← lift (date_cast (pa_date p));
  statement (insert_layer row.1.2 {| cl_pool := pa_debit p; cl_qty_remaining := pa_qty p; cl_qty_received := pa_qty p;
                                     cl_unit_cost := default 0 (pa_unit_cost p); cl_receipt_date := date; cl_receipt_posting := Some row.2 |}).
(** Phase 9d: a depletion. *)
Definition add_depletion (row : Z * string * Z * Z * Z) : FM unit :=
  let '(lid, _, qty, cost, posting) := row in
  _ ← modify (λ s, set_seqs (bump_depletion (ss_seqs s)) s);
  id ← gets (λ s, sq_depletion (ss_seqs s));
  statement (insert_depletion id {| dp_layer := lid; dp_issue_posting := posting; dp_qty_consumed := qty; dp_cost_amount := cost |}).
(** Phase 9e. *)
Definition update_layers (drain : gmap Z Z) (d : FifoDb) : Res FifoError FifoDb :=
  m ← update_remaining drain (cost_layers d); Ok (set_layers m d).
Definition write_rows (a : Acc) : FM (gmap string Z) :=
  d ← gets ss_db;
  postings ← lift (mapR (currency_of d) (ac_postings a));
  ids ← foldS add_posting ∅ postings;
  layers ← lift (mapR (λ pl, id ← posting_id ids (pa_key pl.1); Ok (pl, id)) (ac_layers a));
  _ ← iterM add_layer layers;
  depls ← lift (mapR (λ dp : Z * string * Z * Z, id ← posting_id ids dp.1.1.2; Ok (dp, id)) (ac_depletions a));
  _ ← iterM add_depletion depls;
  _ ← statement (update_layers (ac_drain a));
  mret ids.

Record BatchRow := { br_envelope_idx : Z; br_status : string; br_posting_line_id : option Z }.
Definition batch_row (replays ids : gmap string Z) (p : Parsed) : BatchRow :=
  {| br_envelope_idx := pa_envelope_idx p;
     br_status := if decide (is_Some (replays !! pa_key p)) then "idempotent_replay" else "committed";
     br_posting_line_id := match replays !! pa_key p with Some id => Some id | None => ids !! pa_key p end |}.

(** The order in which a hash map is walked. *)
Variable hash_order : gmap Z (Z * Z) → list (Z * (Z * Z)).
(** The balance table the deltas are staged against, and whether its SQL lookups work. *)
Variables (shared : Shared) (spi_ok : bool).
(** Phase 10. *)
Definition stage_balances (deltas : gmap Z (Z * Z)) (stack : list Frame) : list Frame :=
  foldl (λ st e, stage_apply spi_ok shared e.1 1 1 1 e.2.1 e.2.2 st) stack (hash_order deltas).

(** Phases 5 to 11, once the new envelopes have their cells. *)
Definition apply_fresh (parsed fresh : list Parsed) (replays : gmap string Z) (pool_to_cell : gmap Z Z) (d : FifoDb) : FM (list BatchRow) :=
  arena ← gets ss_arena;
  next ← gets (λ s, sq_layer (ss_seqs s) + 1);
  _ ← modify (λ s, set_seqs (bump_layer (count_receipts fresh) (ss_seqs s)) s);
  let works := number_receipts next fresh in
  let seeds := seed_cells arena d pool_to_cell fresh in
  _ ← modify (λ s, set_frames (fifo_ensure_top_frame (ss_frames s)) s);
  a ← foldS (apply_cell seeds) no_acc (cells_to_envelopes pool_to_cell works);
  a ← lift (foldM (apply_spill d) a (ac_spills a));
  a ← lift (foldM (apply_durable d) a (durable_only pool_to_cell works));
  ids ← write_rows a;
  _ ← modify (λ s, set_pending (stage_balances (ac_balances a) (ss_pending s)) s);
  mret (batch_row replays ids <$> parsed).
Definition fifo_apply_batch_maximal (envelopes : option (list (option FifoJson))) : FM (list BatchRow) :=
  arr ← lift (ok_or envelopes NotArray);
  parsed ← lift (parse_all 0 arr);
  d ← gets ss_db;
  replays ← lift (select_replays (pa_key <$> parsed) d);
  let fresh := List.filter (λ p, bool_decide (replays !! pa_key p = None)) parsed in
  arena ← gets ss_arena;
  _ ← modify (set_arena (find_cells fresh arena).2);
  apply_fresh parsed fresh replays (find_cells fresh arena).1 d.
End batch.

(** [for i in 0..FIFO_N_BUCKETS]. *)
Fixpoint count_from (n : nat) (i : Z) : list Z := match n with O => [] | S n => i :: count_from n (i + 1) end.
Definition slots : list Z := count_from (Z.to_nat N_BUCKETS) 0.

(** * The drain tick *)
Record FifoCounters := { fc_rows : Z; fc_ticks : Z; fc_consecutive_fails : Z; fc_total_failures : Z }.
Definition fb_stamp_drained (seq : Z) (b : FifoBucket) : FifoBucket :=
  {| fb_occupied := fb_occupied b; fb_seeded := fb_seeded b; fb_overflow_active := fb_overflow_active b; fb_key_hi := fb_key_hi b;
     fb_key_lo := fb_key_lo b; fb_last_seq := fb_last_seq b; fb_drained_seq := Z.max (fb_drained_seq b) seq;
     fb_overflow_first_spilled_layer_id := fb_overflow_first_spilled_layer_id b; fb_ring := fb_ring b |}.
Definition fifo_dirty (arena : FifoArena) (i : Z) : bool :=
  let b := bucket arena i in negb (fb_occupied b =? 0) && (fb_drained_seq b <? fb_last_seq b).
Definition fifo_dirty_cells (arena : FifoArena) : list Z := List.filter (fifo_dirty arena) slots.
Abbreviation DrainSnapshot := (Z * Z * list PendingDrain)%type.
(** Take the staged entries out of a cell. *)
Definition take_pending (st : FifoArena * list DrainSnapshot) (i : Z) : FifoArena * list DrainSnapshot :=
  let b := bucket st.1 i in
  let '(entries, ring) := drain_pending_into (fb_ring b) in
  (<[i := fb_set_ring ring b]> st.1, st.2 ++ [(i, fb_last_seq b, entries)]).
Definition per_layer (snaps : list DrainSnapshot) : gmap Z Z :=
  foldl (λ m e, add_drain m (pd_layer_id e) (pd_qty_consumed e)) ∅ (concat (snd <$> snaps)).
Definition stamp_cell (arena : FifoArena) (sn : DrainSnapshot) : FifoArena :=
  <[sn.1.1 := fb_stamp_drained sn.1.2 (bucket arena sn.1.1)]> arena.
(** Put entries back whose update failed; what no longer fits is dropped. *)
Definition restage_cell (arena : FifoArena) (sn : DrainSnapshot) : FifoArena :=
  match sn.2 with
  | [] => arena
  | _ =>
      let b := bucket arena sn.1.1 in
      <[sn.1.1 := fb_set_ring (foldl (λ r e, (push_pending_drain r (pd_layer_id e) (pd_qty_consumed e)).2) (fb_ring b) sn.2) b]> arena
  end.
Definition do_fifo_drain_tick (spi_ok : bool) (arena : FifoArena) (d : FifoDb) (c : FifoCounters) : FifoArena * FifoDb * FifoCounters :=
  match fifo_dirty_cells arena with
  | [] => (arena, d, c)
  | dirty =>
      let '(arena, snaps) := foldl take_pending (arena, []) dirty in
      let drain := per_layer snaps in
      let rows := Z.of_nat (length (map_to_list drain)) in
      let ticks := as_u64 (fc_ticks c + 1) in
      let outcome := if rows =? 0 then Ok (cost_layers d)
                     else if spi_ok then update_remaining drain (cost_layers d) else Err (SqlFailed "42P01") in
      match outcome with
      | Ok layers =>
          (foldl stamp_cell arena snaps, set_layers layers d,
           {| fc_rows := as_u64 (fc_rows c + rows); fc_ticks := ticks; fc_consecutive_fails := 0; fc_total_failures := fc_total_failures c |})
      | Err _ =>
          (foldl restage_cell arena snaps, d,
           {| fc_rows := fc_rows c; fc_ticks := ticks; fc_consecutive_fails := as_u64 (fc_consecutive_fails c + 1);
              fc_total_failures := as_u64 (fc_total_failures c + rows) |})
      end
  end.

(** * Reset *)
Definition reset_ring (r : RingFields) : RingFields :=
  {| rf_head := 0; rf_n_layers := 0; rf_pending_drain_n := 0; rf_layers := rf_layers r; rf_pending_drain := rf_pending_drain r |}.
Definition reset_bucket (b : FifoBucket) : FifoBucket :=
  {| fb_occupied := 0; fb_seeded := 0; fb_overflow_active := 0; fb_key_hi := 0; fb_key_lo := 0; fb_last_seq := 0; fb_drained_seq := 0;
     fb_overflow_first_spilled_layer_id := 0; fb_ring := reset_ring (fb_ring b) |}.
Definition fifo_arena_reset (arena : FifoArena) : FifoArena := reset_bucket <$> arena.

(** * Filling the arena *)
(** [fifo_force_arena_full] occupies every free slot under a key no pool has;
    [fifo_release_sentinels] frees those slots again.  Both return how many. *)
Definition fb_set_sentinel (occupied seeded key_hi key_lo : Z) (b : FifoBucket) : FifoBucket :=
  {| fb_occupied := occupied; fb_seeded := seeded; fb_overflow_active := fb_overflow_active b; fb_key_hi := key_hi; fb_key_lo := key_lo;
     fb_last_seq := fb_last_seq b; fb_drained_seq := fb_drained_seq b;
     fb_overflow_first_spilled_layer_id := fb_overflow_first_spilled_layer_id b; fb_ring := fb_ring b |}.
Definition fifo_force_arena_full (arena : FifoArena) : Z * FifoArena :=
  foldl (λ st i, if negb (fb_occupied (bucket st.2 i) =? 0) then st
                 else (st.1 + 1, <[i := fb_set_sentinel 1 1 i 1 (bucket st.2 i)]> st.2)) (0, arena) slots.
Definition fifo_release_sentinels (arena : FifoArena) : Z * FifoArena :=
  foldl (λ st i, let b := bucket st.2 i in
                 if (fb_occupied b =? 0) || negb (fb_key_lo b =? 1) then st
                 else (st.1 + 1, <[i := fb_set_sentinel 0 0 0 0 b]> st.2)) (0, arena) slots.
(** [fifo_overflow_state]: the overflow flag and watermark of a pool's cell. *)
Definition fifo_overflow_state (arena : FifoArena) (pool : Z) : option (bool * Z) :=
  i ← probe_fifo_cell arena (pack_fifo_key_poc pool);
  Some (fb_overflow_active (bucket arena i) =? 1, fb_overflow_first_spilled_layer_id (bucket arena i)).

(** * Reconciliation *)
Record ReconCell := { rn_pool : Z; rn_live : Z; rn_pending : Z; rn_watermark : Z; rn_overflow : Z }.
Definition recon_cell (arena : FifoArena) (i : Z) : option ReconCell :=
  let b := bucket arena i in
  if (fb_occupied b =? 0) || negb (fb_key_lo b =? 0) then None
  else Some {| rn_pool := as_i64 (fb_key_hi b);
               rn_live := foldl saturating_add 0 ((λ k, ly_qty (ring_layer (fb_ring b) ((rf_head (fb_ring b) + k) `mod` MAX_LAYERS))) <$>
                            seqZ 0 (rf_n_layers (fb_ring b)));
               rn_pending := foldl saturating_add 0 ((λ k, pd_qty_consumed (ring_pending (fb_ring b) k)) <$>
                            seqZ 0 (rf_pending_drain_n (fb_ring b)));
               rn_watermark := fb_overflow_first_spilled_layer_id b; rn_overflow := fb_overflow_active b |}.
Record ReconRow := {
  rc_pool : Z; rc_live : Z; rc_pending : Z; rc_total : Z; rc_spilled : Z; rc_durable : option Z; rc_drift : option Z;
}.
Definition pool_rows (keep : Z → bool) (pool : Z) (d : FifoDb) : list (Z * CostLayer) :=
  List.filter (λ il, (cl_pool il.2 =? pool) && keep il.1) (map_to_list (cost_layers d)).
Definition pool_sum (keep : Z → bool) (pool : Z) (d : FifoDb) : Z := sumZ (λ il, cl_qty_remaining il.2) (pool_rows keep pool d).
(** None: a sum or a difference does not fit a bigint and the query fails. *)
Definition recon_row (d : FifoDb) (c : ReconCell) : option ReconRow :=
  durable ← i64_try_from (pool_sum (λ _, true) (rn_pool c) d);
  spilled ← (if (rn_overflow c =? 1) && (0 <? rn_watermark c)
             then i64_try_from (pool_sum (λ id, rn_watermark c <=? id) (rn_pool c) d) else Some 0);
  total ← i64_try_from (rn_live c + rn_pending c);
  match pool_rows (λ _, true) (rn_pool c) d with
  | [] => Some {| rc_pool := rn_pool c; rc_live := rn_live c; rc_pending := rn_pending c; rc_total := total; rc_spilled := spilled;
                  rc_durable := None; rc_drift := None |}
  | _ => shmem ← i64_try_from (durable - spilled);
         drift ← i64_try_from (shmem - total);
         Some {| rc_pool := rn_pool c; rc_live := rn_live c; rc_pending := rn_pending c; rc_total := total; rc_spilled := spilled;
                 rc_durable := Some durable; rc_drift := Some drift |}
  end.
Definition fallback_row (c : ReconCell) : ReconRow :=
  {| rc_pool := rn_pool c; rc_live := rn_live c; rc_pending := rn_pending c; rc_total := wadd (rn_live c) (rn_pending c); rc_spilled := 0;
     rc_durable := None; rc_drift := None |}.
Definition fifo_arena_recon (spi_ok : bool) (arena : FifoArena) (d : FifoDb) : list ReconRow :=
  let cells := omap (recon_cell arena) slots in
  match (if spi_ok then mapM (recon_row d) cells else None) with
  | Some rows => sort_by_key rc_pool rows
  | None => fallback_row <$> cells
  end.
(** Layers with more depletions than they received. *)
Definition consumed_of (d : FifoDb) (layer : Z) : Z :=
  sumZ (λ ir, if decide (dp_layer ir.2 = layer) then dp_qty_consumed ir.2 else 0) (map_to_list (depletions d)).
Record OverRow := { or_layer : Z; or_pool : Z; or_received : Z; or_consumed : Z; or_overshoot : Z }.
Definition over_row (d : FifoDb) (il : Z * CostLayer) : option OverRow :=
  total ← i64_try_from (consumed_of d il.1);
  overshoot ← i64_try_from (total - cl_qty_received il.2);
  Some {| or_layer := il.1; or_pool := cl_pool il.2; or_received := cl_qty_received il.2; or_consumed := total; or_overshoot := overshoot |}.
(** None: a sum does not fit a bigint and the query fails. *)
Definition fifo_overconsume_check (d : FifoDb) : option (list OverRow) :=
  sort_by_key or_layer <$>
    mapM (over_row d) (List.filter (λ il, cl_qty_received il.2 <? consumed_of d il.1) (map_to_list (cost_layers d))).

(** * Transactions *)
Inductive TxEvent := TxBatch (envelopes : option (list (option FifoJson))) | TxSavepoint | TxRelease | TxRollback.
Record Tx := { tx_session : Session; tx_saves : list FifoDb; tx_failed : bool }.
Record World := { wd_db : FifoDb; wd_seqs : FifoSeqs; wd_arena : FifoArena; wd_shared : Shared; wd_counters : FifoCounters }.
Definition tx_fail (s : Session) (t : Tx) : Tx := {| tx_session := s; tx_saves := tx_saves t; tx_failed := true |}.

Section transactions.
Context `{!PgText}.
Variable hash_order : gmap Z (Z * Z) → list (Z * (Z * Z)).
Variable frame_order : Frame → list (Z * PendingEntry).
Variables (shared : Shared) (spi_ok : bool).
(** A statement after an error is ignored until the subtransaction is rolled back. *)
Definition tx_event (t : Tx) (e : TxEvent) : Tx :=
  let s := tx_session t in
  match e, tx_saves t with
  | TxRollback, d :: saves =>
      {| tx_session := set_db d (set_frames (fifo_subxact_abort_sub (ss_frames s)) (set_pending (subxact_abort_sub (ss_pending s)) s));
         tx_saves := saves; tx_failed := false |}
  | TxRollback, [] => tx_fail s t
  | _, saves =>
      if tx_failed t then t
      else
        match e, saves with
        | TxBatch envelopes, _ =>
            match fifo_apply_batch_maximal hash_order shared spi_ok envelopes s with
            | (Ok _, s') => {| tx_session := s'; tx_saves := saves; tx_failed := false |}
            | (Err _, s') => tx_fail s' t
            end
        | TxSavepoint, _ =>
            {| tx_session := set_frames (fifo_subxact_start_sub (ss_frames s)) (set_pending (subxact_start_sub (ss_pending s)) s);
               tx_saves := ss_db s :: saves; tx_failed := false |}
        | TxRelease, _ :: saves =>
            {| tx_session := set_frames (fifo_subxact_commit_sub (ss_frames s)) (set_pending (subxact_commit_sub (ss_pending s)) s);
               tx_saves := saves; tx_failed := false |}
        | _, _ => tx_fail s t
        end
  end.
(** Savepoints that are still open are released by the commit. *)
Definition tx_run (t : Tx) (es : list TxEvent) : Tx :=
  let t := foldl tx_event t es in foldl (λ t _, tx_event t TxRelease) t (tx_saves t).
End transactions.

Section world.
Context `{!PgText}.
Variable hash_order : gmap Z (Z * Z) → list (Z * (Z * Z)).
Variable frame_order : Frame → list (Z * PendingEntry).
Definition tx_begin (frames : list FifoFrame) (pending : list Frame) (w : World) : Tx :=
  {| tx_session := {| ss_db := wd_db w; ss_seqs := wd_seqs w; ss_arena := wd_arena w; ss_frames := frames; ss_pending := pending |};
     tx_saves := []; tx_failed := false |}.
(** A transaction of a backend, new or used before: the arena's callback runs before
    the balance table's. *)
Definition transaction (used : bool) (spi_ok : bool) (es : list TxEvent) (commit : bool) (w : World) : World :=
  let t := tx_run hash_order (wd_shared w) spi_ok (tx_begin (if used then [∅] else []) (if used then [∅] else []) w) es in
  let s := tx_session t in
  if commit && negb (tx_failed t) && xact_pre_commit (wd_shared w) (ss_pending s) then
    let '(arena, seq, _) := fifo_xact_commit (ss_frames s) (ss_arena s) (APPLY_SEQ (wd_shared w)) in
    {| wd_db := ss_db s; wd_seqs := ss_seqs s; wd_arena := arena;
       wd_shared := (xact_commit frame_order (ss_pending s) (set_seq seq (wd_shared w))).1; wd_counters := wd_counters w |}
  else {| wd_db := wd_db w; wd_seqs := ss_seqs s; wd_arena := ss_arena s; wd_shared := wd_shared w; wd_counters := wd_counters w |}.
Definition drain_tick (spi_ok : bool) (w : World) : World :=
  let '(arena, d, c) := do_fifo_drain_tick spi_ok (wd_arena w) (wd_db w) (wd_counters w) in
  {| wd_db := d; wd_seqs := wd_seqs w; wd_arena := arena; wd_shared := wd_shared w; wd_counters := c |}.
Inductive WorldEvent :=
  | Transact (used spi_ok : bool) (es : list TxEvent) (commit : bool)
  | DrainTick (spi_ok : bool).
Definition world_event (w : World) (e : WorldEvent) : World :=
  match e with
  | Transact used spi_ok es commit => transaction used spi_ok es commit w
  | DrainTick spi_ok => drain_tick spi_ok w
  end.
End world.
