(* ===== verification/ExtFifoBooks.v ===== *)
(** What the FIFO arena owes the durable layers.  For every layer, the quantity a cell
    still holds of it and the quantity staged for the drain add up to the durable
    remainder, less what the running batch is about to take off it; and what was received
    is what is left and what was depleted.  This file follows these sums through the
    operations on a cell, through the accumulators of a batch (phases 8 to 8.6) and through
    the rows it writes (phase 9). *)
From stdpp Require Import functions.
From S2P Require Import Prelude ExtTable ExtBalance ExtRing ExtShadow ExtDeferred ExtFifoBatch.

(** * Quantities of a layer *)
Lemma sumZ_zeros {A} (f : A → Z) l : (∀ a, a ∈ l → f a = 0) → sumZ f l = 0.
Proof.
  induction l as [|a l IH]; intros H; [done|]. rewrite sumZ_cons, IH, H; [done|by left|]. intros b Hb. apply H. by right.
Qed.
Definition at_layer {A} (id qty : A → Z) (L : Z) (l : list A) : Z := sumZ (λ a, if decide (id a = L) then qty a else 0) l.
Abbreviation qty_at := (at_layer ly_layer_id ly_qty).
Abbreviation pend_at := (at_layer pd_layer_id pd_qty_consumed).
Abbreviation slices_at := (at_layer cs_layer_id cs_qty_consumed).

Section at_layer.
Context {A : Type} (id qty : A → Z).
Implicit Types (l k : list A).
Lemma at_layer_nil L : at_layer id qty L [] = 0.
Proof. done. Qed.
Lemma at_layer_cons L a l : at_layer id qty L (a :: l) = (if decide (id a = L) then qty a else 0) + at_layer id qty L l.
Proof. apply sumZ_cons. Qed.
Lemma at_layer_app L l k : at_layer id qty L (l ++ k) = at_layer id qty L l + at_layer id qty L k.
Proof. apply sumZ_app. Qed.
Lemma at_layer_notin L l : (∀ a, a ∈ l → id a ≠ L) → at_layer id qty L l = 0.
Proof.
  intros H. apply sumZ_zeros. intros a Ha. by rewrite decide_False by by apply H.
Qed.
Lemma at_layer_nonneg L l : Forall (λ a, 0 ≤ qty a) l → 0 ≤ at_layer id qty L l.
Proof. intros H. apply sumZ_nonneg. intros a Ha. rewrite Forall_forall in H. specialize (H a Ha). cbn in H. case_decide; lia. Qed.
Lemma at_layer_le L l a : Forall (λ a, 0 ≤ qty a) l → a ∈ l → id a = L → qty a ≤ at_layer id qty L l.
Proof.
  intros H. induction l as [|b l IH]; intros Ha Hid; [by apply not_elem_of_nil in Ha|]. apply Forall_cons in H as [Hb H].
  rewrite at_layer_cons. pose proof (at_layer_nonneg L l H). apply elem_of_cons in Ha as [->|Ha].
  - rewrite decide_True by done. lia.
  - specialize (IH H Ha Hid). case_decide; lia.
Qed.
Lemma at_layer_fmap {B} (f : B → A) L (l : list B) : at_layer id qty L (f <$> l) = at_layer (id ∘ f) (qty ∘ f) L l.
Proof. induction l as [|b l IH]; [done|]. cbn. by rewrite !at_layer_cons, IH. Qed.
(** Every element belongs to one of the layers of a list of distinct ones. *)
Lemma sumZ_at_layers (ids : list Z) l :
  NoDup ids → (∀ a, a ∈ l → id a ∈ ids) → sumZ (λ L, at_layer id qty L l) ids = sumZ qty l.
Proof.
  intros Hnd. assert (∀ a, id a ∈ ids → sumZ (λ L, if decide (id a = L) then qty a else 0) ids = qty a) as Hone.
  { intros a. induction ids as [|L ids IH]; intros Ha; [by apply not_elem_of_nil in Ha|]. apply NoDup_cons in Hnd as [HL Hnd].
    rewrite sumZ_cons. apply elem_of_cons in Ha as [->|Ha].
    - rewrite decide_True by done. rewrite sumZ_zeros; [lia|]. intros L' HL'. rewrite decide_False; [done|]. congruence.
    - rewrite decide_False by congruence. by rewrite (IH Hnd Ha). }
  induction l as [|a l IH]; intros Hin.
  { by apply sumZ_zeros. }
  rewrite sumZ_cons, <-IH by (intros; apply Hin; by right). rewrite <-(Hone a) by (apply Hin; by left).
  rewrite <-sumZ_add. apply sumZ_ext. intros L _. apply at_layer_cons.
Qed.
End at_layer.

Definition ids_of (v : CellView) : list Z := (ly_layer_id <$> queue (cv_ring v)) ++ (pd_layer_id <$> staged (cv_ring v)).
Lemma pend_at_notin v L : L ∉ ids_of v → pend_at L (staged (cv_ring v)) = 0.
Proof. intros H. apply at_layer_notin. intros e He <-. apply H, elem_of_app. right. by apply list_elem_of_fmap_2. Qed.
Lemma qty_at_notin v L : L ∉ ids_of v → qty_at L (queue (cv_ring v)) = 0.
Proof. intros H. apply at_layer_notin. intros e He <-. apply H, elem_of_app. left. by apply list_elem_of_fmap_2. Qed.

(** * Operations *)
Lemma take_from_at q n c s rest L :
  positive q → take_from q n = (c, s, rest) →
  qty_at L q = slices_at L c + qty_at L rest ∧
  (∀ sl, sl ∈ c → cs_layer_id sl ∈ ly_layer_id <$> q) ∧ (∀ l, l ∈ rest → ly_layer_id l ∈ ly_layer_id <$> q).
Proof.
  revert n c s rest. induction q as [|l q IH]; intros n c s rest Hpos; cbn [take_from].
  { intros [= <- <- <-]. split_and!; [done|by intros ? ?%not_elem_of_nil..]. }
  apply Forall_cons in Hpos as [Hl Hpos]. destruct (Z.leb_spec n 0); [|destruct (Z.ltb_spec n (ly_qty l))].
  - intros [= <- <- <-]. split_and!; [done|by intros ? ?%not_elem_of_nil|]. intros x Hx. by apply list_elem_of_fmap_2.
  - intros [= <- <- <-]. rewrite !at_layer_cons, at_layer_nil. cbn. split_and!.
    + case_decide; lia.
    + intros sl ->%list_elem_of_singleton. by left.
    + intros x [->|Hx]%elem_of_cons; [by left|right]. by apply list_elem_of_fmap_2.
  - destruct (take_from q (n - ly_qty l)) as [[c' s'] rest'] eqn:E. intros [= <- <- <-].
    destruct (IH _ _ _ _ Hpos E) as (H1 & H2 & H3). rewrite !at_layer_cons, H1. cbn. split_and!.
    + case_decide; lia.
    + intros sl [->|Hs]%elem_of_cons; [by left|right]. by apply H2.
    + intros x Hx. right. by apply H3.
Qed.
(** Slices go to the staged list, or are left over. *)
Lemma direct_slices_at c inline v inline' v' :
  ring_wf (cv_ring v) → foldl direct_slice (inline, v) c = (inline', v') →
  ring_wf (cv_ring v') ∧ queue (cv_ring v') = queue (cv_ring v) ∧ cv_overflow v' = cv_overflow v ∧ cv_seeded v' = cv_seeded v ∧
  (∃ more, inline' = inline ++ more ∧ ∀ s, s ∈ more → s ∈ c) ∧
  (∀ L, pend_at L (staged (cv_ring v')) + slices_at L inline' = pend_at L (staged (cv_ring v)) + slices_at L inline + slices_at L c) ∧
  (∀ e, e ∈ staged (cv_ring v') → e ∈ staged (cv_ring v) ∨ ∃ s, s ∈ c ∧ e = {| pd_layer_id := cs_layer_id s; pd_qty_consumed := cs_qty_consumed s |}).
Proof.
  revert inline v. induction c as [|s c IH]; intros inline v Hwf; cbn [foldl].
  { intros [= <- <-]. split_and!; try done; [exists []; by rewrite app_nil_r|intros; rewrite at_layer_nil; lia|by left]. }
  unfold direct_slice at 2. cbn [fst snd].
  destruct (push_pending_drain (cv_ring v) _ _) as [ok r] eqn:E. destruct (push_pending_staged _ _ _ _ _ Hwf E) as (Hwf' & Hq & Hst).
  intros Hrun. destruct ok.
  - destruct (IH _ _ (Hwf' : ring_wf (cv_ring (cv_set_ring r v))) Hrun) as (H1 & H2 & H3 & H4 & (more & H5 & H6) & H7 & H8). cbn [cv_set_ring cv_ring cv_overflow cv_seeded] in *.
    destruct (bool_decide _); [|done]. injection Hst as Hst. split_and!; [done|by rewrite H2|done|done| | |].
    + exists more. split; [done|]. intros x Hx. right. by apply H6.
    + intros L. rewrite H7, Hst, at_layer_app, !at_layer_cons, at_layer_nil. cbn. lia.
    + intros e He. destruct (H8 e He) as [He'|(x & Hx & He')]; [|right; exists x; split; [by right|done]]. rewrite Hst in He'.
      apply elem_of_app in He' as [|Hx]; [by left|]. apply list_elem_of_singleton in Hx as ->. right. exists s. split; [by left|done].
  - destruct (IH _ _ Hwf Hrun) as (H1 & H2 & H3 & H4 & (more & H5 & H6) & H7 & H8). split_and!; [done|done|done|done| | |].
    + exists (s :: more). rewrite H5, <-app_assoc. split; [done|]. intros x [->|Hx]%elem_of_cons; [by left|right; by apply H6].
    + intros L. rewrite H7, at_layer_app, !at_layer_cons, at_layer_nil. lia.
    + intros e He. destruct (H8 e He) as [|(x & Hx & He')]; [by left|right; exists x; split; [by right|done]].
Qed.
Lemma direct_issue_at n v res inline v' :
  view_ok v → direct (Issue n) v = (Issued res inline, v') → 0 < n →
  cv_overflow v' = cv_overflow v ∧ cv_seeded v' = cv_seeded v ∧
  (∀ L, qty_at L (queue (cv_ring v)) = slices_at L (cr_consumed res) + qty_at L (queue (cv_ring v')) ∧
        pend_at L (staged (cv_ring v')) + slices_at L inline = pend_at L (staged (cv_ring v)) + slices_at L (cr_consumed res)) ∧
  (∀ s, s ∈ cr_consumed res → 0 < cs_qty_consumed s ∧ cs_layer_id s ∈ ids_of v) ∧ (∀ s, s ∈ inline → s ∈ cr_consumed res) ∧
  (∀ L, L ∈ ids_of v' → L ∈ ids_of v) ∧ (Forall (λ e, 0 ≤ pd_qty_consumed e) (staged (cv_ring v)) → Forall (λ e, 0 ≤ pd_qty_consumed e) (staged (cv_ring v'))).
Proof.
  intros [Hwf Hpos]. cbn [direct]. pose proof (consume_from_head_queue (cv_ring v) n Hwf) as H.
  destruct (take_from (queue (cv_ring v)) n) as [[c s] rest] eqn:Et, (consume_from_head (cv_ring v) n) as [res0 r].
  destruct H as (Hc & _ & _ & Hwf' & Hq & Hst). destruct (foldl direct_slice _ _) as [inl v1] eqn:E. intros [= -> -> ->] Hn.
  destruct (direct_slices_at (cr_consumed res) [] (cv_set_ring r v) inline v' Hwf' E) as (_ & H2 & H3 & H4 & (more & H5 & H6) & H7 & H8).
  cbn [cv_set_ring cv_ring cv_overflow cv_seeded app] in *. subst more. rewrite Hc in *.
  assert (∀ L, qty_at L (queue (cv_ring v)) = slices_at L c + qty_at L rest) as Hat by (intros L; by apply (take_from_at _ _ _ _ _ L Hpos Et)).
  destruct (take_from_at _ _ _ _ _ 0 Hpos Et) as (_ & Hc1 & Hc2). destruct (take_from_total _ n _ _ _ Hpos ltac:(lia) Et) as (_ & _ & _ & _ & Hc3).
  rewrite Forall_forall in Hc3. assert (∀ x, x ∈ c → cs_layer_id x ∈ ids_of v) as Hids.
  { intros x Hx. apply elem_of_app. left. by apply Hc1. }
  split_and!; [done|done| | |done| |].
  - intros L. rewrite H2, Hq, Hat. split; [done|]. rewrite H7, Hst, at_layer_nil. lia.
  - intros x Hx. split; [by apply Hc3|by apply Hids].
  - intros L [Hx|Hx]%elem_of_app; apply list_elem_of_fmap in Hx as (x & -> & Hx).
    + rewrite H2, Hq in Hx. apply elem_of_app. left. by apply Hc2.
    + destruct (H8 x Hx) as [Hs|(y & Hy & ->)]; [rewrite Hst in Hs; apply elem_of_app; right; by apply list_elem_of_fmap_2|]. by apply Hids.
  - rewrite !Forall_forall. intros Hold e He. destruct (H8 e He) as [Hs|(y & Hy & ->)]; [rewrite Hst in Hs; by apply Hold|]. cbn. specialize (Hc3 y Hy). cbn in Hc3. lia.
Qed.
Lemma push_at r layer ok r' :
  ring_wf r → push_layer r layer = (ok, r') →
  ring_wf r' ∧ staged r' = staged r ∧ queue r' = if ok then queue r ++ [layer] else queue r.
Proof. intros Hwf E. destruct (push_layer_queue _ _ _ _ Hwf E) as (? & ? & H). destruct (bool_decide _); by injection H as -> ->. Qed.
Lemma direct_receipt_at layer v ok v' :
  ring_wf (cv_ring v) → direct (Receipt layer) v = (Received ok, v') →
  cv_seeded v' = cv_seeded v ∧ staged (cv_ring v') = staged (cv_ring v) ∧
  (queue (cv_ring v') = queue (cv_ring v) ++ [layer] ∨ queue (cv_ring v') = queue (cv_ring v)) ∧
  (cv_overflow v' = 0 → cv_overflow v = 0 ∧ queue (cv_ring v') = queue (cv_ring v) ++ [layer]).
Proof.
  intros Hwf. cbn [direct]. destruct (Z.eqb_spec (cv_overflow v) 1) as [E1|E1]; [intros [= <- <-]; split_and!; auto; lia|].
  destruct (push_layer (cv_ring v) layer) as [[] r] eqn:E; destruct (push_at _ _ _ _ Hwf E) as (_ & H1 & H2); intros [= <- <-].
  - cbn. split_and!; auto.
  - destruct (Z.eqb_spec (cv_overflow v) 0); cbn; split_and!; auto; lia.
Qed.
Lemma load_seeds_at seeds v :
  ring_wf (cv_ring v) →
  let v' := load_seeds seeds v in
  staged (cv_ring v') = staged (cv_ring v) ∧
  (∀ l, l ∈ queue (cv_ring v') → l ∈ queue (cv_ring v) ∨ l ∈ seed_layer <$> seeds) ∧
  (cv_overflow v' = 0 → cv_overflow v = 0 ∧ queue (cv_ring v') = queue (cv_ring v) ++ (seed_layer <$> seeds)).
Proof.
  revert v. induction seeds as [|s seeds IH]; intros v Hwf; cbn [load_seeds].
  { split_and!; [done|by left|]. rewrite app_nil_r. done. }
  destruct (push_layer (cv_ring v) (seed_layer s)) as [[] r] eqn:E; destruct (push_at _ _ _ _ Hwf E) as (Hwf' & H1 & H2).
  - destruct (IH (cv_set_ring r v) Hwf') as (H3 & H4 & H5). cbn [cv_set_ring cv_ring cv_overflow] in *. rewrite H1, H2 in *. split_and!; [done| |].
    + intros l Hl. destruct (H4 l Hl) as [[Hx|Hx]%elem_of_app|Hx]; [by left|right; by apply list_elem_of_singleton in Hx as ->; left|right; by right].
    + intros Ho. destruct (H5 Ho) as [? ->]. split; [done|]. by rewrite <-app_assoc.
  - destruct (Z.eqb_spec (cv_overflow v) 0); cbn; split_and!; auto; lia.
Qed.

(** * The books *)
Record LayerBook := { lb_pool : Z; lb_remaining : Z; lb_received : Z }.
(** A layer whose pool has the cell [v]: [dr] is to be taken off the durable row, [used] is
    what was depleted.  Nothing is claimed once the cell has overflowed. *)
Definition layer_ok (v : CellView) (L : Z) (lb : LayerBook) (dr used : Z) : Prop :=
  cv_overflow v = 0 →
  0 ≤ dr ∧ (if cv_seeded v then lb_remaining lb - dr = qty_at L (queue (cv_ring v)) + pend_at L (staged (cv_ring v)) else dr = 0) ∧
  lb_received lb = lb_remaining lb - dr - pend_at L (staged (cv_ring v)) + used.
(** [home] says where the arena looks for a pool. *)
Definition tied (home : Z → Probe) (V : Z → CellView) (L : Z) (lb : LayerBook) (dr used : Z) : Prop :=
  match home (lb_pool lb) with
  | Hit i => layer_ok (V i) L lb dr used
  | Vacant _ => dr = 0 ∧ lb_received lb = lb_remaining lb + used
  | Full => True
  end.
Definition blank (v : CellView) : Prop := queue (cv_ring v) = [] ∧ staged (cv_ring v) = [] ∧ cv_overflow v = 0.
Record books_ok (b : gmap Z LayerBook) (home : Z → Probe) (V : Z → CellView) (drain used : Z → Z) : Prop := {
  bo_range : ∀ L lb, b !! L = Some lb → in_i64 (lb_pool lb) ∧ 0 ≤ lb_remaining lb ≤ i64_max;
  bo_tied : ∀ L lb, b !! L = Some lb → tied home V L lb (drain L) (used L);
  bo_owned : ∀ i L, L ∈ ids_of (V i) → ∃ lb, b !! L = Some lb ∧ home (lb_pool lb) = Hit i;
  bo_blank : ∀ i, cv_seeded (V i) = false → blank (V i);
  bo_fresh : ∀ L, b !! L = None → drain L = 0 ∧ used L = 0;
  bo_staged : ∀ i, Forall (λ e, 0 ≤ pd_qty_consumed e) (staged (cv_ring (V i)));
}.

(** A loaded cell changes, and with it the sums of its own layers. *)
Lemma books_cell b home V drain used j v' drain' used' :
  books_ok b home V drain used → cv_seeded v' = true →
  Forall (λ e, 0 ≤ pd_qty_consumed e) (staged (cv_ring v')) → (∀ L, L ∉ ids_of (V j) → drain' L = drain L ∧ used' L = used L) →
  (∀ L, L ∈ ids_of v' → ∃ lb, b !! L = Some lb ∧ home (lb_pool lb) = Hit j) →
  (∀ L lb, b !! L = Some lb → home (lb_pool lb) = Hit j → layer_ok (V j) L lb (drain L) (used L) → layer_ok v' L lb (drain' L) (used' L)) →
  books_ok b home (<[j := v']> V) drain' used'.
Proof.
  intros [H1 H2 H3 H4 H5 H6] Hs Hst Hsame Hids Hok. split; [done| | | | |].
  - intros L lb Hb. specialize (H2 L lb Hb). unfold tied in *. destruct (home (lb_pool lb)) as [i|i|] eqn:Eh; [|destruct (Hsame L) as [-> ->]; [|done]|done].
    + destruct (decide (i = j)) as [->|Hne]; [rewrite fn_lookup_insert; by apply Hok|]. rewrite fn_lookup_insert_ne by done.
      destruct (Hsame L) as [-> ->]; [|done]. intros HL. destruct (H3 j L HL) as (lb' & Hb' & Hh). congruence.
    + intros HL. destruct (H3 j L HL) as (lb' & Hb' & Hh). congruence.
  - intros i L. destruct (decide (i = j)) as [->|Hne]; [rewrite fn_lookup_insert; apply Hids|]. rewrite fn_lookup_insert_ne by done. apply H3.
  - intros i. destruct (decide (i = j)) as [->|Hne]; [rewrite fn_lookup_insert, Hs; done|]. rewrite fn_lookup_insert_ne by done. apply H4.
  - intros L Hb. destruct (Hsame L) as [-> ->]; [|by apply H5]. intros HL. destruct (H3 j L HL) as (lb' & Hb' & Hh). congruence.
  - intros i. destruct (decide (i = j)) as [->|Hne]; [by rewrite fn_lookup_insert|]. by rewrite fn_lookup_insert_ne.
Qed.
(** Sums change only for layers nothing is claimed of. *)
Definition loose (home : Z → Probe) (V : Z → CellView) (pool : Z) : Prop :=
  match home pool with Hit i => cv_overflow (V i) ≠ 0 | Vacant _ => False | Full => True end.
Lemma books_loose b home V drain used drain' used' :
  books_ok b home V drain used →
  (∀ L, (drain' L = drain L ∧ used' L = used L) ∨ ∃ lb, b !! L = Some lb ∧ loose home V (lb_pool lb)) →
  books_ok b home V drain' used'.
Proof.
  intros [H1 H2 H3 H4 H5 H6] Hx. split; [done| |done|done| |done].
  - intros L lb Hb. destruct (Hx L) as [[-> ->]|(lb' & Hb' & Hl)]; [by apply H2|]. simplify_eq. unfold tied, loose in *.
    destruct (home _); [by intros Ho; exfalso; apply Hl|done|done].
  - intros L Hb. destruct (Hx L) as [[-> ->]|(lb' & Hb' & Hl)]; [by apply H5|congruence].
Qed.
(** A new layer, in a cell or loose. *)
Lemma books_new b home V drain used j v' L0 lb0 :
  books_ok b home V drain used → b !! L0 = None → in_i64 (lb_pool lb0) → 0 ≤ lb_remaining lb0 ≤ i64_max →
  home (lb_pool lb0) = Hit j → cv_seeded v' = true → Forall (λ e, 0 ≤ pd_qty_consumed e) (staged (cv_ring v')) → (∀ L, L ∈ ids_of v' → L ∈ ids_of (V j) ∨ L = L0) →
  (∀ L lb, b !! L = Some lb → layer_ok (V j) L lb (drain L) (used L) → layer_ok v' L lb (drain L) (used L)) →
  layer_ok v' L0 lb0 0 0 →
  books_ok (<[L0 := lb0]> b) home (<[j := v']> V) drain used.
Proof.
  intros [H1 H2 H3 H4 H5 H6] Hnew Hp Hr Hh Hs Hst Hids Hok Hok0. split.
  - intros L lb [[<- <-]|[_ Hb]]%lookup_insert_Some; [done|by apply (H1 L)].
  - intros L lb [[<- <-]|[Hne Hb]]%lookup_insert_Some.
    + destruct (H5 L0 Hnew) as [-> ->]. unfold tied. by rewrite Hh, fn_lookup_insert.
    + specialize (H2 L lb Hb). unfold tied in *. destruct (home (lb_pool lb)) as [i|i|] eqn:Eh; [|done..].
      destruct (decide (i = j)) as [->|Hij]; [rewrite fn_lookup_insert; by apply Hok|]. by rewrite fn_lookup_insert_ne.
  - intros i L. assert (∀ k, L ∈ ids_of (V k) → ∃ lb, <[L0:=lb0]> b !! L = Some lb ∧ home (lb_pool lb) = Hit k) as Hold.
    { intros k HL. destruct (H3 k L HL) as (lb & Hb & Hk). exists lb. rewrite lookup_insert_ne by congruence. done. }
    destruct (decide (i = j)) as [->|Hij]; [rewrite fn_lookup_insert|rewrite fn_lookup_insert_ne by done; apply Hold].
    intros [HL| ->]%Hids; [by apply Hold|]. exists lb0. by rewrite lookup_insert_eq.
  - intros i. destruct (decide (i = j)) as [->|Hij]; [rewrite fn_lookup_insert, Hs; done|]. rewrite fn_lookup_insert_ne by done. apply H4.
  - intros L [HL Hne]%lookup_insert_None. by apply H5.
  - intros i. destruct (decide (i = j)) as [->|Hne]; [by rewrite fn_lookup_insert|]. by rewrite fn_lookup_insert_ne.
Qed.
Lemma books_new_loose b home V drain used L0 lb0 :
  books_ok b home V drain used → b !! L0 = None → in_i64 (lb_pool lb0) → 0 ≤ lb_remaining lb0 ≤ i64_max → loose home V (lb_pool lb0) →
  books_ok (<[L0 := lb0]> b) home V drain used.
Proof.
  intros [H1 H2 H3 H4 H5 H6] Hnew Hp Hr Hl. split; [| | |done| |done].
  - intros L lb [[<- <-]|[_ Hb]]%lookup_insert_Some; [done|by apply (H1 L)].
  - intros L lb [[<- <-]|[Hne Hb]]%lookup_insert_Some; [|by apply H2]. unfold tied, loose in *. destruct (home _); [by intros ?|done|done].
  - intros i L HL. destruct (H3 i L HL) as (lb & Hb & Hk). exists lb. rewrite lookup_insert_ne by congruence. done.
  - intros L [HL Hne]%lookup_insert_None. by apply H5.
Qed.
(** Loading a cell from the durable rows of its pool. *)
Lemma books_seed b home V drain used j p seeds :
  books_ok b home V drain used → cv_seeded (V j) = false → ring_wf (cv_ring (V j)) → home p = Hit j →
  (∀ q, in_i64 q → home q = Hit j → q = p) →
  (∀ L lb, b !! L = Some lb → lb_pool lb = p → qty_at L (seed_layer <$> seeds) = lb_remaining lb) →
  (∀ s, s ∈ seeds → ∃ lb, b !! sd_layer_id s = Some lb ∧ lb_pool lb = p) →
  books_ok b home (<[j := direct_seed (Some seeds) (V j)]> V) drain used.
Proof.
  intros Hb Hs Hwf Hp Hinj Hrows Hown. destruct (bo_blank _ _ _ _ _ Hb j Hs) as (Hq & Hst & Ho).
  unfold direct_seed. rewrite Hs. change (default [] (Some seeds)) with seeds. destruct (load_seeds_at seeds (V j) Hwf) as (H1 & H2 & H3). set (v := load_seeds seeds (V j)) in *.
  rewrite Hq, Hst in *. apply (books_cell b home V drain used); [done|done|cbn [cv_mark_seeded cv_ring]; by rewrite H1|done| |].
  - intros L [Hx|Hx]%elem_of_app; cbn [cv_mark_seeded cv_ring] in Hx; [|rewrite H1 in Hx; by apply not_elem_of_nil in Hx].
    apply list_elem_of_fmap in Hx as (x & -> & Hx). destruct (H2 x Hx) as [Hx'|Hx']; [by apply not_elem_of_nil in Hx'|].
    apply list_elem_of_fmap in Hx' as (s & -> & Hx'). destruct (Hown s Hx') as (lb & Hlb & <-). by exists lb.
  - intros L lb Hlb Hh Hok Ho'. cbn [cv_mark_seeded cv_overflow cv_seeded cv_ring] in *. rewrite H1. destruct (H3 Ho') as [_ ->].
    specialize (Hok Ho). rewrite Hs, Hst in Hok. destruct Hok as (_ & -> & Hrecv).
    rewrite at_layer_nil in *. cbn [app]. rewrite (Hrows L lb Hlb); [split_and!; lia|]. apply Hinj; [|done]. by apply (bo_range _ _ _ _ _ Hb L).
Qed.
(** The arena gives more pools a cell. *)
Lemma books_home b home home' V drain used :
  books_ok b home V drain used →
  (∀ p i, home p = Hit i → home' p = Hit i) → (∀ p, home p = Full → home' p = Full) →
  (∀ p i k, home p = Vacant k → home' p = Hit i → cv_seeded (V i) = false) →
  books_ok b home' V drain used.
Proof.
  intros [H1 H2 H3 H4 H5 H6] Hhit Hfull Hvac. split; [done| | |done|done|done].
  - intros L lb Hb. specialize (H2 L lb Hb). unfold tied in *. destruct (home (lb_pool lb)) as [i|k|] eqn:Eh.
    + by rewrite (Hhit _ _ Eh).
    + destruct (home' (lb_pool lb)) as [i| |] eqn:Eh'; [|done|done]. destruct H2 as [-> Hr]. pose proof (Hvac _ _ _ Eh Eh') as Hs.
      destruct (H4 i Hs) as (_ & Hst & _). intros _. rewrite Hs, Hst, at_layer_nil. split_and!; lia.
    + by rewrite (Hfull _ Eh).
  - intros i L HL. destruct (H3 i L HL) as (lb & Hb & Hh). exists lb. auto.
Qed.
(** Only the queue, the staged list and the flags of a cell count. *)
Definition alike (v v' : CellView) : Prop :=
  queue (cv_ring v) = queue (cv_ring v') ∧ staged (cv_ring v) = staged (cv_ring v') ∧ cv_overflow v = cv_overflow v' ∧ cv_seeded v = cv_seeded v'.
Lemma books_alike b home V V' drain used :
  books_ok b home V drain used → (∀ i, alike (V i) (V' i)) → books_ok b home V' drain used.
Proof.
  intros [H1 H2 H3 H4 H5 H6] Ha. split; [done| | | |done|].
  - intros L lb Hb. specialize (H2 L lb Hb). unfold tied, layer_ok in *. destruct (home _) as [i| |]; [|done..]. destruct (Ha i) as (<- & <- & <- & <-). done.
  - intros i L HL. apply H3. unfold ids_of in *. by destruct (Ha i) as (-> & -> & _).
  - intros i. specialize (H4 i). unfold blank in *. by destruct (Ha i) as (<- & <- & <- & <-).
  - intros i. by destruct (Ha i) as (_ & <- & _).
Qed.

(** * The accumulators of a batch *)
(** * Books of the tables and of a batch *)
Definition book_of (l : CostLayer) : LayerBook :=
  {| lb_pool := cl_pool l; lb_remaining := cl_qty_remaining l; lb_received := cl_qty_received l |}.
Definition books_of (d : FifoDb) : gmap Z LayerBook := book_of <$> cost_layers d.
Definition new_book (p : Parsed) : LayerBook := {| lb_pool := pa_debit p; lb_remaining := pa_qty p; lb_received := pa_qty p |}.
Definition books_with (b : gmap Z LayerBook) (layers : list (Parsed * Z)) : gmap Z LayerBook :=
  foldl (λ m pl, <[pl.2 := new_book pl.1]> m) b layers.
Definition drain_at (a : Acc) (L : Z) : Z := default 0 (ac_drain a !! L).
Definition depleted_at (l : list (Z * string * Z * Z)) (L : Z) : Z := at_layer (λ r, r.1.1.1) (λ r, r.1.2) L l.
Definition used_at (d : FifoDb) (a : Acc) (L : Z) : Z := consumed_of d L + depleted_at (ac_depletions a) L.

Lemma books_with_snoc b l pl : books_with b (l ++ [pl]) = <[pl.2 := new_book pl.1]> (books_with b l).
Proof. unfold books_with. by rewrite foldl_app. Qed.
Lemma books_with_lookup b l L :
  books_with b l !! L = None ↔ b !! L = None ∧ L ∉ l.*2.
Proof.
  induction l as [|pl l IH] using rev_ind; [split; [intros H; split; [done|apply not_elem_of_nil]|by intros [? _]]|].
  rewrite books_with_snoc, lookup_insert_None, IH, fmap_app, not_elem_of_app. cbn. rewrite list_elem_of_singleton. naive_solver.
Qed.
Lemma books_with_old b l L lb : L ∉ l.*2 → b !! L = Some lb → books_with b l !! L = Some lb.
Proof.
  induction l as [|pl l IH] using rev_ind; [done|]. rewrite fmap_app, not_elem_of_app. cbn. rewrite list_elem_of_singleton. intros [H1 H2] Hb.
  rewrite books_with_snoc, lookup_insert_ne by congruence. auto.
Qed.
Lemma books_with_Some b l L lb :
  books_with b l !! L = Some lb → b !! L = Some lb ∨ ∃ p, (p, L) ∈ l ∧ lb = new_book p.
Proof.
  induction l as [|[p lid] l IH] using rev_ind; [by left|]. rewrite books_with_snoc. intros [[<- <-]|[_ H]]%lookup_insert_Some.
  - right. exists p. split; [apply elem_of_app; right; by apply list_elem_of_singleton|done].
  - destruct (IH H) as [|(q & Hq & ->)]; [by left|]. right. exists q. split; [apply elem_of_app; by left|done].
Qed.

(** The numbers of the new layers are new and distinct. *)
Definition fresh_layers (d : FifoDb) (l : list (Parsed * Z)) : Prop :=
  NoDup l.*2 ∧ ∀ pl, pl ∈ l → cost_layers d !! pl.2 = None.
Lemma fresh_layers_app d l k : fresh_layers d (l ++ k) → fresh_layers d l.
Proof.
  intros [H1 H2]. rewrite fmap_app in H1. apply NoDup_app in H1 as (H1 & _). split; [done|]. intros pl Hpl. apply H2, elem_of_app. by left.
Qed.
Lemma fresh_layers_snoc d l pl : fresh_layers d (l ++ [pl]) → books_with (books_of d) l !! pl.2 = None.
Proof.
  intros [H1 H2]. apply books_with_lookup. split.
  - unfold books_of. rewrite lookup_fmap, H2; [done|]. apply elem_of_app. right. by apply list_elem_of_singleton.
  - rewrite fmap_app in H1. apply NoDup_app in H1 as (_ & H1 & _). intros Hin. apply (H1 _ Hin). by left.
Qed.

(** ** Drain sums *)
Section add_drains.
Context {A : Type} (id qty : A → Z).
Implicit Type (m : gmap Z Z).
Definition add_drains (l : list A) m : gmap Z Z := foldl (λ m a, add_drain m (id a) (qty a)) m l.
Lemma add_drains_other l m L : (∀ a, a ∈ l → id a ≠ L) → default 0 (add_drains l m !! L) = default 0 (m !! L).
Proof.
  unfold add_drains. revert m. induction l as [|a l IH]; intros m H; [done|]. cbn [foldl]. rewrite IH by (intros; apply H; by right).
  unfold add_drain. rewrite lookup_insert_ne; [done|]. apply H. by left.
Qed.
Lemma add_drains_at l m L :
  Forall (λ a, 0 ≤ qty a) l → 0 ≤ default 0 (m !! L) → default 0 (m !! L) + at_layer id qty L l ≤ i64_max →
  default 0 (add_drains l m !! L) = default 0 (m !! L) + at_layer id qty L l.
Proof.
  unfold add_drains. revert m. induction l as [|a l IH]; intros m H H0 Hle; [rewrite at_layer_nil; cbn; lia|]. apply Forall_cons in H as [Ha H].
  pose proof (at_layer_nonneg id qty L l H). cbn [foldl]. rewrite at_layer_cons in *. unfold add_drain. case_decide as E.
  - subst L. assert (wadd (default 0 (m !! id a)) (qty a) = default 0 (m !! id a) + qty a) as Hw.
    { unfold wadd. apply wrap_i64_id. unfold in_i64, i64_min, i64_max in *. lia. }
    rewrite IH; rewrite ?lookup_insert_eq; cbn; rewrite ?Hw; try done; lia.
  - rewrite IH; rewrite ?lookup_insert_ne by done; try done; lia.
Qed.
End add_drains.

Lemma acc_slices_depleted p c inline a L :
  depleted_at (ac_depletions (acc_slices p c inline a)) L = depleted_at (ac_depletions a) L + slices_at L c.
Proof. unfold depleted_at, acc_slices. cbn. rewrite at_layer_app. f_equal. by rewrite at_layer_fmap. Qed.

(** * Phase 8 *)
Definition acc_books (d : FifoDb) (home : Z → Probe) (V : Z → CellView) (a : Acc) : Prop :=
  books_ok (books_with (books_of d) (ac_layers a)) home V (drain_at a) (used_at d a).
Record acc_ok (d : FifoDb) (home : Z → Probe) (V : Z → CellView) (a : Acc) : Prop := {
  ao_books : acc_books d home V a;
  ao_placed : ∀ pl, pl ∈ ac_layers a → ∃ i, home (pa_debit pl.1) = Hit i ∧ cv_seeded (V i) = true;
  ao_spills : ∀ sp, sp ∈ ac_spills a → loose home V (pa_credit (sp_env sp));
}.
Definition parsed_ok (p : Parsed) : Prop := in_i64 (pool_of p) ∧ 0 < pa_qty p ≤ i64_max.

(** The flags of a cell only go up. *)
Lemma loose_insert home V j v' pool : (cv_overflow v' = 0 → cv_overflow (V j) = 0) → loose home V pool → loose home (<[j := v']> V) pool.
Proof.
  unfold loose. destruct (home pool) as [i| |]; [|done..]. intros H Hi. destruct (decide (i = j)) as [->|]; [rewrite fn_lookup_insert; auto|].
  by rewrite fn_lookup_insert_ne.
Qed.
Lemma placed_insert home V j v' (p : Parsed) :
  cv_seeded v' = true → (∃ i, home (pa_debit p) = Hit i ∧ cv_seeded (V i) = true) →
  ∃ i, home (pa_debit p) = Hit i ∧ cv_seeded (<[j := v']> V i) = true.
Proof.
  intros Hs (i & Hi & Hv). exists i. split; [done|]. destruct (decide (i = j)) as [->|]; [by rewrite fn_lookup_insert|]. by rewrite fn_lookup_insert_ne.
Qed.

Lemma receipt_ok d home V j layer p a v' ok :
  acc_ok d home V a → cv_seeded (V j) = true → view_ok (V j) → home (pa_debit p) = Hit j → in_i64 (pa_debit p) → 0 < pa_qty p ≤ i64_max →
  ly_qty layer = pa_qty p → fresh_layers d (ac_layers a ++ [(p, ly_layer_id layer)]) → direct (Receipt layer) (V j) = (Received ok, v') →
  acc_ok d home (<[j := v']> V) (acc_receipt p (ly_layer_id layer) (receipt_amount p) a).
Proof.
  intros [Hb Hpl Hsp] Hs [Hwf _] Hh Hp Hq Hqty Hf Hd. destruct (direct_receipt_at _ _ _ _ Hwf Hd) as (Hs' & Hst & Hqueue & Hover). rewrite Hs in Hs'.
  pose proof (fresh_layers_snoc _ _ _ Hf) as Hnew. cbn [snd] in Hnew. set (L0 := ly_layer_id layer) in *.
  assert (∀ L, L ∈ ids_of (V j) → L ≠ L0) as Hold by (intros L HL ->; destruct (bo_owned _ _ _ _ _ Hb j L0 HL) as (? & ? & _); congruence).
  split; cbn [acc_receipt ac_layers ac_spills].
  - unfold acc_books. cbn [acc_receipt ac_layers]. rewrite books_with_snoc. apply (books_new _ home V (drain_at a) (used_at d a)); cbn [new_book lb_pool lb_remaining lb_received fst snd]; [done|done|done|lia|done|done|rewrite Hst; apply (bo_staged _ _ _ _ _ Hb)| | |].
    + intros L [HL|HL]%elem_of_app.
      * destruct Hqueue as [E|E]; rewrite E in HL; [rewrite fmap_app in HL; apply elem_of_app in HL as [HL|HL]; [left|right; by apply list_elem_of_singleton in HL]|left];
          by apply elem_of_app; left.
      * left. rewrite Hst in HL. by apply elem_of_app; right.
    + intros L lb HL Hok Ho. destruct (Hover Ho) as [Ho0 ->]. specialize (Hok Ho0). rewrite Hs in Hok. rewrite Hs', Hst.
      rewrite at_layer_app, at_layer_cons, at_layer_nil, decide_False; [|intros E; fold L0 in E; congruence].
      destruct Hok as (? & ? & ?). split_and!; lia.
    + intros Ho. destruct (Hover Ho) as [Ho0 ->]. rewrite Hs', Hst, at_layer_app, at_layer_cons, at_layer_nil, decide_True by done.
      assert (L0 ∉ ids_of (V j)) as Hni by (intros HL; by apply (Hold L0)). rewrite (qty_at_notin _ _ Hni), (pend_at_notin _ _ Hni).
      cbn [new_book lb_remaining lb_received]. split_and!; lia.
  - intros pl [Hin|Hin]%elem_of_app; [by apply placed_insert; auto|]. apply list_elem_of_singleton in Hin as ->. exists j. by rewrite fn_lookup_insert.
  - intros sp Hin. apply loose_insert; [|by apply Hsp]. intros Ho. by apply Hover.
Qed.
Lemma issue_ok d home V j n p res inline v' a :
  acc_ok d home V a → cv_seeded (V j) = true → view_ok (V j) → view_ok v' → 0 < n → direct (Issue n) (V j) = (Issued res inline, v') →
  acc_ok d home (<[j := v']> V) (acc_slices p (cr_consumed res) inline a).
Proof.
  intros [Hb Hpl Hsp] Hs Hok Hok' Hn Hd. destruct (direct_issue_at _ _ _ _ _ Hok Hd Hn) as (Ho & Hs' & Hat & Hc & Hin & Hids & Hnn). rewrite Hs in Hs'.
  assert (∀ L, depleted_at (ac_depletions (acc_slices p (cr_consumed res) inline a)) L = depleted_at (ac_depletions a) L + slices_at L (cr_consumed res)) as Hdep
    by apply acc_slices_depleted.
  assert (Forall (λ s, 0 ≤ cs_qty_consumed s) inline) as Hin0 by (apply Forall_forall; intros s Hsl%Hin%Hc; lia).
  assert (Forall (λ s, 0 ≤ cs_qty_consumed s) (cr_consumed res)) as Hc0 by (apply Forall_forall; intros s Hsl%Hc; lia).
  split; cbn [acc_slices ac_layers ac_spills].
  - pose proof (Hnn (bo_staged _ _ _ _ _ Hb j)) as Hst'. apply (books_cell _ home V (drain_at a) (used_at d a)); [done|done|done| | |].
    + intros L HL. assert (∀ s, s ∈ cr_consumed res → cs_layer_id s ≠ L) as Hne by (intros s Hsl <-; by apply HL, Hc).
      unfold drain_at, used_at. rewrite Hdep, (at_layer_notin _ _ L _ Hne). split; [|lia]. cbn [acc_slices ac_drain].
      apply (add_drains_other cs_layer_id cs_qty_consumed). intros s Hsl. by apply Hne, Hin.
    + intros L HL. by apply (bo_owned _ _ _ _ _ Hb), Hids.
    + intros L lb HL Hh Hlay Ho'. rewrite Ho in Ho'. specialize (Hlay Ho'). rewrite Hs in Hlay. rewrite Hs'. destruct Hlay as (H0 & H1 & H2).
      destruct (Hat L) as [E1 E2]. destruct (bo_range _ _ _ _ _ Hb L lb HL) as [_ Hr].
      pose proof (at_layer_nonneg cs_layer_id cs_qty_consumed L inline Hin0). pose proof (at_layer_nonneg pd_layer_id pd_qty_consumed L _ Hst').
      assert (0 ≤ qty_at L (queue (cv_ring v'))) as Hq'.
      { apply at_layer_nonneg, Forall_forall. intros x Hx. destruct Hok' as [_ Hpos]. unfold positive in Hpos. rewrite Forall_forall in Hpos. specialize (Hpos x Hx). cbn in Hpos. lia. }
      unfold drain_at, used_at in *. cbn [acc_slices ac_drain]. fold (add_drains cs_layer_id cs_qty_consumed inline (ac_drain a)).
      rewrite add_drains_at by (done || lia). rewrite Hdep. split_and!; lia.
  - intros pl Hpl'. apply placed_insert; auto.
  - intros sp Hsp'. apply loose_insert; [|by apply Hsp]. by rewrite Ho.
Qed.

(** ** One envelope *)
Definition work_ok (home : Z → Probe) (j : Z) (w : Work) : Prop := home (pool_of w.1) = Hit j ∧ parsed_ok w.1.
Lemma apply_work_layers st w st' : apply_work st w = Ok st' → ∃ more, ac_layers st'.2 = ac_layers st.2 ++ more.
Proof.
  destruct st as [sh a]. unfold apply_work. destruct (pa_kind w.1); [intros [= <-]; by eexists|].
  destruct (shadow_issue _ _) as [[res inl] sh']. repeat case_match; try done; intros [= <-]; exists []; by rewrite app_nil_r.
Qed.
Lemma acc_ok_same d home V a a' :
  acc_ok d home V a → ac_layers a' = ac_layers a → ac_drain a' = ac_drain a → ac_depletions a' = ac_depletions a →
  (∀ sp, sp ∈ ac_spills a' → sp ∈ ac_spills a ∨ loose home V (pa_credit (sp_env sp))) → acc_ok d home V a'.
Proof.
  intros [Hb Hpl Hsp] E1 E2 E3 Hs. split; [|by rewrite E1|intros sp [Hi|Hi]%Hs; auto].
  unfold acc_books, drain_at, used_at in *. by rewrite E1, E2, E3.
Qed.
Lemma acc_ok_ext d home V V' a : acc_ok d home V a → (∀ i, V i = V' i) → acc_ok d home V' a.
Proof.
  intros [Hb Hpl Hsp] E. split; [eapply books_alike; [done|]; intros i; by rewrite E| |].
  - intros pl Hin. destruct (Hpl pl Hin) as (i & Hi & Hv). exists i. by rewrite <-E.
  - intros sp Hin. specialize (Hsp sp Hin). unfold loose in *. destruct (home _); [by rewrite <-E|done|done].
Qed.
Lemma apply_work_ok d home V j sh a w sh' a' :
  acc_ok d home (<[j := sview sh]> V) a → view_ok (sview sh) → work_ok home j w → apply_work (sh, a) w = Ok (sh', a') →
  fresh_layers d (ac_layers a') →
  acc_ok d home (<[j := sview sh']> V) a' ∧ view_ok (sview sh') ∧ ∃ new, records sh sh' new.
Proof.
  intros Ha Hok [Hh [Hp Hq]] Happ Hf. unfold pool_of in *. unfold apply_work in Happ. set (V0 := <[j := sview sh]> V) in *.
  assert (V0 j = sview sh) as HV by apply fn_lookup_insert.
  assert (∀ v i, <[j := v]> V0 i = <[j := v]> V i) as HV0.
  { intros v i. unfold V0. destruct (decide (i = j)) as [->|]; [by rewrite !fn_lookup_insert|]. by rewrite !fn_lookup_insert_ne. }
  destruct (pa_kind w.1) eqn:Ek.
  - destruct (shadow_receipt _ sh) as [ok sh1] eqn:E. injection Happ as <- <-.
    destruct (receipt_records (new_layer w.1 (default 0 w.2)) _ _ _ Hok ltac:(cbn; lia) E) as (Hrec & Hok' & Hd). split_and!; [|done|done]. cbn [snd] in *.
    eapply acc_ok_ext; [|apply HV0]. eapply (receipt_ok d home V0 j (new_layer w.1 (default 0 w.2))); try done; by rewrite HV.
  - destruct (shadow_issue (pa_qty w.1) sh) as [[res inl] sh1] eqn:E.
    destruct (issue_records (pa_qty w.1) _ _ _ _ Hok ltac:(lia) E) as (Hrec & Hok' & Hd). rewrite <-HV in Hd, Hok.
    pose proof (issue_ok d home V0 j (pa_qty w.1) w.1 _ _ _ a Ha ltac:(by rewrite HV) Hok Hok' ltac:(lia) Hd) as Ha1.
    set (a1 := acc_slices _ _ _ a) in *. apply (acc_ok_ext _ _ _ _ _) with (2 := HV0 _) in Ha1. destruct (0 <? cr_shortage res).
    + destruct (Z.eqb_spec (sh_overflow_active sh1) 1) as [Eo|]; [|done]. injection Happ as <- <-. split_and!; [|done|done].
      apply (acc_ok_same _ _ _ a1); [done..|]. intros sp [Hsp|Hsp]%elem_of_app; [by left|]. apply list_elem_of_singleton in Hsp as ->. right.
      unfold loose. cbn [sp_env]. rewrite Hh, fn_lookup_insert. cbn. lia.
    + injection Happ as <- <-. split_and!; [|done|done]. apply (acc_ok_same _ _ _ a1); [done..|]. by left.
Qed.
Lemma foldM_layers ws st st' : foldM apply_work st ws = Ok st' → ∃ more, ac_layers st'.2 = ac_layers st.2 ++ more.
Proof.
  revert st. induction ws as [|w ws IH]; intros st; cbn [foldM]; [intros [= <-]; exists []; by rewrite app_nil_r|].
  intros (st1 & H1 & H2)%Res_bind_Ok. destruct (apply_work_layers _ _ _ H1) as [m1 E1]. destruct (IH _ H2) as [m2 E2].
  exists (m1 ++ m2). by rewrite E2, E1, app_assoc.
Qed.
Lemma apply_works_ok d home V j ws sh a sh' a' :
  acc_ok d home (<[j := sview sh]> V) a → view_ok (sview sh) → Forall (work_ok home j) ws → foldM apply_work (sh, a) ws = Ok (sh', a') →
  fresh_layers d (ac_layers a') →
  acc_ok d home (<[j := sview sh']> V) a' ∧ view_ok (sview sh') ∧ ∃ new, records sh sh' new.
Proof.
  revert sh a. induction ws as [|w ws IH]; intros sh a Ha Hok Hws; cbn [foldM].
  { intros [= <- <-] _. eauto using records_refl. }
  apply Forall_cons in Hws as [Hw Hws]. intros ([sh1 a1] & H1 & H2)%Res_bind_Ok Hf.
  assert (fresh_layers d (ac_layers a1)) as Hf1.
  { destruct (foldM_layers _ _ _ H2) as [m E]. cbn [snd] in E. rewrite E in Hf. by eapply fresh_layers_app. }
  destruct (apply_work_ok _ _ _ _ _ _ _ _ _ Ha Hok Hw H1 Hf1) as (Ha1 & Hok1 & n1 & Hn1).
  destruct (IH _ _ Ha1 Hok1 Hws H2 Hf) as (Ha2 & Hok2 & n2 & Hn2). split_and!; [done|done|]. exists (n1 ++ n2). by eapply records_trans.
Qed.

(** * Phases 8.5 and 8.6 *)
Lemma walk_rows_in rows n t c rem cost sl :
  walk_rows rows n t c = (rem, cost, sl) → ∀ s, s ∈ sl → s ∈ c ∨ ∃ row, (cs_layer_id s, row) ∈ rows.
Proof.
  revert n t c. induction rows as [|[lid row] rows IH]; intros n t c; cbn [walk_rows]; [intros [= <- <- <-]; by left|].
  destruct (n =? 0); [intros [= <- <- <-]; by left|]. intros H s Hs. destruct (IH _ _ _ H s Hs) as [[Hc|Hc]%elem_of_app|(r & Hr)]; [by left| |].
  - apply list_elem_of_singleton in Hc as ->. right. exists row. by left.
  - right. exists r. by right.
Qed.
Lemma open_layers_in keep pool d lid row :
  (lid, row) ∈ open_layers keep pool d → cost_layers d !! lid = Some row ∧ cl_pool row = pool ∧ 0 < cl_qty_remaining row.
Proof.
  unfold open_layers. rewrite merge_sort_Permutation. rewrite list_elem_of_In, filter_In, <-list_elem_of_In, elem_of_map_to_list.
  intros [H Hf]. cbn in Hf. apply andb_true_iff in Hf as [[H1 _]%andb_true_iff H2]. split_and!; [done|lia|lia].
Qed.
(** Slices of rows of a pool nothing is claimed of. *)
Lemma loose_slices d home V p slices a pool :
  acc_books d home V a → loose home V pool →
  (∀ s, s ∈ slices → ∃ row, cost_layers d !! cs_layer_id s = Some row ∧ cl_pool row = pool) → fresh_layers d (ac_layers a) →
  acc_books d home V (acc_slices p slices slices a).
Proof.
  intros Hb Hl Hin [_ Hf]. unfold acc_books. cbn [acc_slices ac_layers].
  apply (books_loose _ home V (drain_at a) (used_at d a)); [done|]. intros L.
  destruct (decide (L ∈ cs_layer_id <$> slices)) as [Hx|Hx].
  - right. apply list_elem_of_fmap in Hx as (s & -> & Hs). destruct (Hin s Hs) as (row & Hr & <-). exists (book_of row). split; [|done].
    apply books_with_old; [|unfold books_of; by rewrite lookup_fmap, Hr]. intros Hx. apply list_elem_of_fmap in Hx as (pl & E & Hpl').
    specialize (Hf pl Hpl'). congruence.
  - left. assert (∀ s, s ∈ slices → cs_layer_id s ≠ L) as Hne by (intros s Hs <-; by apply Hx, list_elem_of_fmap_2).
    unfold drain_at, used_at. rewrite acc_slices_depleted, (at_layer_notin _ _ L _ Hne). split; [|lia].
    by apply (add_drains_other cs_layer_id cs_qty_consumed).
Qed.
Lemma walk_slices keep d pool n t rem cost sl s :
  walk_rows (open_layers keep pool d) n t [] = (rem, cost, sl) → s ∈ sl → ∃ row, cost_layers d !! cs_layer_id s = Some row ∧ cl_pool row = pool.
Proof.
  intros H Hs. destruct (walk_rows_in _ _ _ _ _ _ _ H s Hs) as [Hx|(row & Hrow)]; [by apply not_elem_of_nil in Hx|].
  apply open_layers_in in Hrow as (? & ? & _). by exists row.
Qed.
Lemma apply_spill_ok d home V a sp a' :
  acc_books d home V a → loose home V (pa_credit (sp_env sp)) → fresh_layers d (ac_layers a) → apply_spill d a sp = Ok a' →
  acc_books d home V a' ∧ ac_layers a' = ac_layers a.
Proof.
  intros Ha Hl Hf. unfold apply_spill. destruct (walk_rows _ _ _ _) as [[rem cost] sl] eqn:E. destruct (0 <? rem); intros [= <-].
  split; [|done]. refine (loose_slices d home V (sp_env sp) sl a (pa_credit (sp_env sp)) Ha Hl _ Hf). intros s Hs. by eapply walk_slices.
Qed.
Lemma apply_spills_ok d home V sps a a' :
  acc_books d home V a → (∀ sp, sp ∈ sps → loose home V (pa_credit (sp_env sp))) → fresh_layers d (ac_layers a) → foldM (apply_spill d) a sps = Ok a' →
  acc_books d home V a' ∧ ac_layers a' = ac_layers a.
Proof.
  revert a. induction sps as [|sp sps IH]; intros a Ha Hl Hf; cbn [foldM]; [by intros [= <-]|]. intros (a1 & H1 & H2)%Res_bind_Ok.
  destruct (apply_spill_ok d home V a sp a1 Ha (Hl sp ltac:(by left)) Hf H1) as [Ha1 E1].
  destruct (IH a1 Ha1 ltac:(intros; apply Hl; by right) ltac:(by rewrite E1) H2) as [Ha2 E2]. split; [done|congruence].
Qed.
Lemma spills_layers d sps a a' : foldM (apply_spill d) a sps = Ok a' → ac_layers a' = ac_layers a.
Proof.
  revert a. induction sps as [|sp sps IH]; intros a; cbn [foldM]; [by intros [= <-]|]. intros (a1 & H1 & H2)%Res_bind_Ok. rewrite (IH _ H2).
  revert H1. unfold apply_spill. destruct (walk_rows _ _ _ _) as [[rem cost] sl]. by destruct (0 <? rem); intros [= <-].
Qed.
Lemma apply_durable_ok d home V a w a' :
  acc_books d home V a → home (pool_of w.1) = Full → parsed_ok w.1 → apply_durable d a w = Ok a' → fresh_layers d (ac_layers a') →
  acc_books d home V a'.
Proof.
  intros Ha Hh [Hp Hq] Happ Hf. unfold pool_of in *. unfold apply_durable in Happ. destruct (pa_kind w.1).
  - injection Happ as <-. unfold acc_books. cbn [acc_receipt ac_layers]. rewrite books_with_snoc.
    apply (books_new_loose _ home V (drain_at a) (used_at d a)); [done|by apply fresh_layers_snoc|done|cbn; lia|]. unfold loose. cbn. by rewrite Hh.
  - destruct (walk_rows _ _ _ _) as [[rem cost] sl] eqn:E. destruct (0 <? rem); [done|]. injection Happ as <-.
    refine (loose_slices d home V w.1 sl a (pa_credit w.1) Ha _ _ Hf); [unfold loose; by rewrite Hh|]. intros s Hs. by eapply walk_slices.
Qed.
Lemma durable_layers d ws a a' : foldM (apply_durable d) a ws = Ok a' → ∃ more, ac_layers a' = ac_layers a ++ more.
Proof.
  revert a. induction ws as [|w ws IH]; intros a; cbn [foldM]; [intros [= <-]; exists []; by rewrite app_nil_r|].
  intros (a1 & H1 & H2)%Res_bind_Ok. destruct (IH _ H2) as [m2 E2]. assert (∃ m1, ac_layers a1 = ac_layers a ++ m1) as [m1 E1].
  { revert H1. unfold apply_durable. repeat case_match; intros [= <-]; [by eexists|exists []; by rewrite app_nil_r]. }
  exists (m1 ++ m2). by rewrite E2, E1, app_assoc.
Qed.
Lemma apply_durables_ok d home V ws a a' :
  acc_books d home V a → Forall (λ w, home (pool_of w.1) = Full ∧ parsed_ok w.1) ws → foldM (apply_durable d) a ws = Ok a' →
  fresh_layers d (ac_layers a') → acc_books d home V a'.
Proof.
  revert a. induction ws as [|w ws IH]; intros a Ha Hw; cbn [foldM]; [by intros [= <-]|]. apply Forall_cons in Hw as [[Hh Hp] Hw].
  intros (a1 & H1 & H2)%Res_bind_Ok Hf. apply (IH a1); [|done..]. eapply apply_durable_ok; [done..|].
  destruct (durable_layers _ _ _ _ H2) as [m E]. rewrite E in Hf. by eapply fresh_layers_app.
Qed.

(** * The rows of a batch *)
(** * Statements *)
Lemma statement_Ok f s u s' : statement f s = (Ok u, s') ↔ ∃ d, f (ss_db s) = Ok d ∧ s' = set_db d s.
Proof.
  unfold statement. rewrite SE_bind_Ok. split.
  - intros (d & s1 & [= <- <-] & (d' & s2 & H1 & H2)%SE_bind_Ok). unfold lift in H1. injection H1 as H1 <-. injection H2 as <- <-. by exists d'.
  - intros (d' & H1 & ->). exists (ss_db s), s. split; [done|]. apply SE_bind_Ok. exists d', s. unfold lift. rewrite H1. by destruct u.
Qed.
(** What a computation leaves alone: everything but the tables and the sequences. *)
Definition same_memory (s s' : Session) : Prop := ss_arena s' = ss_arena s ∧ ss_frames s' = ss_frames s ∧ ss_pending s' = ss_pending s.
#[global] Instance same_memory_refl : PreOrder same_memory.
Proof. split; [done|]. intros s1 s2 s3 (A1 & B1 & C1) (A2 & B2 & C2). repeat split; congruence. Qed.

Lemma insert_layer_Ok id row d d' :
  insert_layer id row d = Ok d' → cost_layers d !! id = None ∧ d' = set_layers (<[id := row]> (cost_layers d)) d.
Proof.
  unfold insert_layer. intros H. repeat case_match; try done. injection H as <-. split; [|done].
  match goal with H : bool_decide (is_Some (cost_layers _ !! _)) = false |- _ => apply bool_decide_eq_false in H; by apply eq_None_not_Some in H end.
Qed.
Lemma insert_posting_Ok id row d d' : insert_posting id row d = Ok d' → d' = set_postings (<[id := row]> (posting_lines d)) d.
Proof. unfold insert_posting. intros H. repeat case_match; try done. by injection H as <-. Qed.
Lemma insert_depletion_Ok id row d d' :
  insert_depletion id row d = Ok d' →
  depletions d !! id = None ∧ is_Some (cost_layers d !! dp_layer row) ∧ d' = set_depletions (<[id := row]> (depletions d)) d.
Proof.
  unfold insert_depletion. intros H. destruct (negb (0 <? dp_qty_consumed row)); [done|].
  destruct (negb (bool_decide (is_Some (cost_layers d !! dp_layer row)))) eqn:E1; [done|]. cbn in H.
  destruct (negb (bool_decide (is_Some (posting_lines d !! dp_issue_posting row)))); [done|].
  destruct (bool_decide (is_Some (depletions d !! id))) eqn:E2; [done|]. injection H as <-. apply bool_decide_eq_false in E2.
  apply negb_false_iff, bool_decide_eq_true in E1. split_and!; [by apply eq_None_not_Some|done|done].
Qed.
Lemma consumed_insert id row d L :
  depletions d !! id = None →
  consumed_of (set_depletions (<[id := row]> (depletions d)) d) L = (if decide (dp_layer row = L) then dp_qty_consumed row else 0) + consumed_of d L.
Proof. intros H. unfold consumed_of. cbn. rewrite (map_to_list_insert _ _ _ H). by rewrite sumZ_cons. Qed.

(** * Phase 9 *)
Section rows.
Context {PT : PgText}.
Lemma mapR_fst {A B} (f : A → Res FifoError B) l l' : mapR (λ a, b ← f a; Ok (a, b)) l = Ok l' → l'.*1 = l.
Proof.
  revert l'. induction l as [|a l IH]; intros l'; cbn [mapR]; [by intros [= <-]|].
  intros (b & (x & Hx & [= <-])%Res_bind_Ok & (bs & H1 & [= <-])%Res_bind_Ok)%Res_bind_Ok. cbn. by rewrite (IH _ H1).
Qed.
Lemma add_posting_Ok ids row s ids' s' :
  add_posting ids row s = (Ok ids', s') →
  same_memory s s' ∧ cost_layers (ss_db s') = cost_layers (ss_db s) ∧ depletions (ss_db s') = depletions (ss_db s).
Proof.
  unfold add_posting. intros H. inv_run. match goal with H : statement _ _ = _ |- _ => apply statement_Ok in H as (d & Hd & ->) end.
  apply insert_posting_Ok in Hd as ->. done.
Qed.
Lemma add_postings_Ok rows ids s ids' s' :
  foldS add_posting ids rows s = (Ok ids', s') →
  same_memory s s' ∧ cost_layers (ss_db s') = cost_layers (ss_db s) ∧ depletions (ss_db s') = depletions (ss_db s).
Proof.
  revert ids s. induction rows as [|r rows IH]; intros ids s; cbn [foldS]; [by intros [= <- <-]|].
  intros (ids1 & s1 & H1 & H2)%SE_bind_Ok. apply add_posting_Ok in H1 as (M1 & C1 & D1).
  destruct (IH _ _ H2) as (M2 & C2 & D2). split_and!; [by etrans|congruence..].
Qed.
Lemma add_layer_Ok row s s' :
  add_layer row s = (Ok tt, s') →
  same_memory s s' ∧ depletions (ss_db s') = depletions (ss_db s) ∧ cost_layers (ss_db s) !! row.1.2 = None ∧
  books_of (ss_db s') = <[row.1.2 := new_book row.1.1]> (books_of (ss_db s)).
Proof.
  unfold add_layer. intros H. inv_run. match goal with H : statement _ _ = _ |- _ => apply statement_Ok in H as (d & Hd & ->) end.
  apply insert_layer_Ok in Hd as [Hn ->]. split_and!; [done|done|done|]. unfold books_of. cbn. by rewrite fmap_insert.
Qed.
Lemma add_layers_Ok rows s s' :
  iterM add_layer rows s = (Ok tt, s') →
  same_memory s s' ∧ depletions (ss_db s') = depletions (ss_db s) ∧ fresh_layers (ss_db s) rows.*1 ∧
  books_of (ss_db s') = books_with (books_of (ss_db s)) rows.*1.
Proof.
  revert s. induction rows as [|r rows IH]; intros s; cbn [iterM].
  { intros [= <-]. split_and!; [done|done| |done]. split; [constructor|]. by intros pl ?%not_elem_of_nil. }
  intros ([] & s1 & H1 & H2)%SE_bind_Ok. apply add_layer_Ok in H1 as (M1 & D1 & N1 & B1). destruct (IH _ H2) as (M2 & D2 & [Hnd Hf] & B2).
  assert (∀ L, cost_layers (ss_db s1) !! L = None → cost_layers (ss_db s) !! L = None ∧ r.1.2 ≠ L) as Hback.
  { intros L HL. assert (books_of (ss_db s1) !! L = None) as E by (unfold books_of; by rewrite lookup_fmap, HL).
    rewrite B1 in E. apply lookup_insert_None in E as [E ?]. unfold books_of in E. rewrite lookup_fmap, fmap_None in E. done. }
  split_and!; [by etrans|congruence| |by rewrite B2, B1]. split; cbn.
  - apply NoDup_cons. split; [|done]. intros Hx. apply list_elem_of_fmap in Hx as (pl & E & Hpl). by destruct (Hback _ (Hf pl Hpl)).
  - intros pl [->|Hpl]%elem_of_cons; [done|]. by apply Hback, Hf.
Qed.
Lemma add_depletion_Ok row s s' :
  add_depletion row s = (Ok tt, s') →
  same_memory s s' ∧ cost_layers (ss_db s') = cost_layers (ss_db s) ∧ is_Some (cost_layers (ss_db s) !! row.1.1.1.1) ∧
  ∀ L, consumed_of (ss_db s') L = consumed_of (ss_db s) L + (if decide (row.1.1.1.1 = L) then row.1.1.2 else 0).
Proof.
  destruct row as [[[[lid key] qty] cost] posting]. unfold add_depletion. intros H. inv_run.
  match goal with H : statement _ _ = _ |- _ => apply statement_Ok in H as (d & Hd & ->) end.
  apply insert_depletion_Ok in Hd as (Hn & Hl & ->). split_and!; [done|done|done|]. intros L. cbn [set_db ss_db] in *.
  rewrite consumed_insert by done. cbn. lia.
Qed.
Lemma add_depletions_Ok rows s s' :
  iterM add_depletion rows s = (Ok tt, s') →
  same_memory s s' ∧ cost_layers (ss_db s') = cost_layers (ss_db s) ∧ (∀ r, r ∈ rows → is_Some (cost_layers (ss_db s) !! r.1.1.1.1)) ∧
  ∀ L, consumed_of (ss_db s') L = consumed_of (ss_db s) L + depleted_at rows.*1 L.
Proof.
  revert s. induction rows as [|r rows IH]; intros s; cbn [iterM].
  { intros [= <-]. split_and!; [done|done|by intros r ?%not_elem_of_nil|]. intros L. unfold depleted_at. cbn. rewrite at_layer_nil. lia. }
  intros ([] & s1 & H1 & H2)%SE_bind_Ok. apply add_depletion_Ok in H1 as (M1 & C1 & N1 & U1). destruct (IH _ H2) as (M2 & C2 & N2 & U2).
  split_and!; [by etrans|congruence| |].
  - intros x [->|Hx]%elem_of_cons; [done|]. rewrite <-C1. by apply N2.
  - intros L. rewrite U2, U1. unfold depleted_at. cbn [fmap list_fmap]. rewrite at_layer_cons. lia.
Qed.

(** The update of the remainders. *)
Definition lowered (drain : gmap Z Z) (L : Z) (lb : LayerBook) : LayerBook :=
  {| lb_pool := lb_pool lb; lb_remaining := lb_remaining lb - default 0 (drain !! L); lb_received := lb_received lb |}.
Lemma update_remaining_Ok drain m m' :
  update_remaining drain m = Ok m' →
  (∀ L, book_of <$> m' !! L = lowered drain L <$> (book_of <$> m !! L)) ∧
  (∀ L l, m' !! L = Some l → is_Some (drain !! L) → 0 ≤ cl_qty_remaining l ≤ i64_max).
Proof.
  unfold update_remaining. destruct (drain_allowed drain m) eqn:E; [|done]. intros [= <-]. split.
  - intros L. rewrite map_lookup_imap. destruct (m !! L) as [l|]; [|done]. cbn. unfold drained, lowered, book_of, set_remaining.
    destruct (drain !! L); cbn; [done|]. by rewrite Z.sub_0_r.
  - intros L l Hl [n Hn]. rewrite map_lookup_imap in Hl. destruct (m !! L) as [l0|] eqn:Em; [|done]. injection Hl as <-.
    unfold drained. rewrite Hn. cbn. unfold drain_allowed in E. rewrite forallb_forall in E. specialize (E (L, n)).
    rewrite <-list_elem_of_In, elem_of_map_to_list in E. specialize (E Hn). cbn in E. rewrite Em in E. by apply bool_decide_eq_true in E.
Qed.
Lemma write_rows_Ok a s ids s' :
  write_rows a s = (Ok ids, s') →
  same_memory s s' ∧ fresh_layers (ss_db s) (ac_layers a) ∧
  (∀ L, books_of (ss_db s') !! L = lowered (ac_drain a) L <$> books_with (books_of (ss_db s)) (ac_layers a) !! L) ∧
  (∀ L lb, books_of (ss_db s') !! L = Some lb → is_Some (ac_drain a !! L) → 0 ≤ lb_remaining lb ≤ i64_max) ∧
  (∀ L, consumed_of (ss_db s') L = used_at (ss_db s) a L).
Proof.
  intros H. unfold write_rows in H. apply SE_bind_Ok in H as (d0 & s0 & [= <- <-] & H).
  apply SE_bind_Ok in H as (postings & s0 & Hpost & H). injection Hpost as Hpost <-.
  apply SE_bind_Ok in H as (ids' & s1 & (M1 & C1 & D1)%add_postings_Ok & H).
  apply SE_bind_Ok in H as (layers & s2 & Hlay & H). injection Hlay as Hlay <-. apply mapR_fst in Hlay.
  apply SE_bind_Ok in H as ([] & s2 & (M2 & D2 & F2 & B2)%add_layers_Ok & H).
  apply SE_bind_Ok in H as (depls & s3 & Hdep & H). injection Hdep as Hdep <-. apply (mapR_fst (λ dp, posting_id ids' dp.1.1.2)) in Hdep.
  apply SE_bind_Ok in H as ([] & s3 & (M3 & C3 & N3 & U3)%add_depletions_Ok & H).
  apply SE_bind_Ok in H as ([] & s4 & Hupd & [= <- <-]). apply statement_Ok in Hupd as (d4 & Hd4 & ->). unfold update_layers in Hd4.
  apply Res_bind_Ok in Hd4 as (m & Hm & [= <-]). destruct (update_remaining_Ok _ _ _ Hm) as [Hlow Hrange].
  assert (books_of (ss_db s1) = books_of (ss_db s)) as Eb by (unfold books_of; by rewrite C1).
  assert (∀ L, consumed_of (ss_db s2) L = consumed_of (ss_db s) L) as Ec by (intros L; unfold consumed_of; by rewrite D2, D1).
  rewrite Hlay, Eb in *. rewrite Hdep in *. split_and!.
  - etrans; [exact M1|]. etrans; [exact M2|]. by etrans; [exact M3|].
  - destruct F2 as [Hnd Hf]. split; [done|]. intros pl Hpl. rewrite <-C1. by apply Hf.
  - intros L. unfold books_of at 1. cbn. rewrite lookup_fmap, Hlow, <-lookup_fmap. fold (books_of (ss_db s3)).
    unfold books_of at 1. rewrite C3. fold (books_of (ss_db s2)). by rewrite B2.
  - intros L lb Hlb Hd. unfold books_of in Hlb. cbn in Hlb. rewrite lookup_fmap in Hlb. destruct (m !! L) as [l|] eqn:El; [|done].
    injection Hlb as <-. cbn. by apply (Hrange L).
  - intros L. unfold used_at. rewrite <-Ec, <-U3. done.
Qed.
End rows.
