(* ===== verification/ExtFifoTies.v ===== *)
(** Cells for the pools of a FIFO batch (where the arena looks for a pool, and what giving
    pools a cell changes), and the batch as a whole: when it succeeds, the tables it leaves
    tie with the cells as its transaction sees them. *)
From stdpp Require Import functions.
From S2P Require Import Prelude ExtTable ExtBalance ExtRing ExtShadow ExtDeferred ExtFifoBatch ExtFifoBooks.

Definition home (arena : FifoArena) (pool : Z) : Probe := probe_table arena (pack_fifo_key_poc pool).
Record arena_wf (arena : FifoArena) : Prop := {
  aw_table : table_wf arena;
  aw_keys : ∀ i, occupied arena i → ∃ p, in_i64 p ∧ holds_key arena (pack_fifo_key_poc p) i;
}.

(** * Keys *)
Lemma pack_fifo_value p : pack_fifo_key_poc p = as_u64 p * 2 ^ 64.
Proof. unfold pack_fifo_key_poc. by rewrite Z.shiftl_mul_pow2. Qed.
Lemma pack_fifo_key_hi p : key_hi (pack_fifo_key_poc p) = as_u64 p.
Proof.
  pose proof (as_u64_range p) as H. unfold key_hi. rewrite pack_fifo_value, Z.shiftr_div_pow2, Z.div_mul by done. by apply Z.mod_small.
Qed.
Lemma pack_fifo_key_lo p : key_lo (pack_fifo_key_poc p) = 0.
Proof. unfold key_lo. rewrite pack_fifo_value. unfold as_u64 at 1. by apply Z.mod_mul. Qed.
Lemma pack_fifo_inj p q : in_i64 p → in_i64 q → same_key (pack_fifo_key_poc p) (pack_fifo_key_poc q) → p = q.
Proof. intros Hp Hq [H _]. rewrite !pack_fifo_key_hi in H. rewrite <-(as_i64_u64 p Hp), <-(as_i64_u64 q Hq). congruence. Qed.
Lemma home_inj arena p q i : in_i64 p → in_i64 q → home arena p = Hit i → home arena q = Hit i → p = q.
Proof.
  intros Hp Hq [[_ H1] _]%probe_Hit [[_ H2] _]%probe_Hit. apply pack_fifo_inj; [done..|]. by eapply at_key_two.
Qed.
Lemma home_Hit_occupied arena p i : home arena p = Hit i → occupied arena i.
Proof. intros [[H _] _]%probe_Hit. exact H. Qed.

(** * Growing *)
Record grows (a a' : FifoArena) : Prop := {
  gr_wf : arena_wf a';
  gr_view : ∀ i, bview (bucket a' i) = bview (bucket a i);
  gr_occ : ∀ i, occupied a i → occupied a' i;
  gr_hit : ∀ p i, home a p = Hit i → home a' p = Hit i;
  gr_full : ∀ p, home a p = Full → home a' p = Full;
  gr_new : ∀ p i k, in_i64 p → home a p = Vacant k → home a' p = Hit i → ¬ occupied a i;
}.
Lemma arena_grows_refl a : arena_wf a → grows a a.
Proof. intros H. split; try done. intros p i k _ E1 E2. congruence. Qed.
Lemma grows_trans a b c : grows a b → grows b c → grows a c.
Proof.
  intros [A1 A2 A3 A4 A5 A6] [B1 B2 B3 B4 B5 B6]. split; [done|intros i; by rewrite B2| | | |]; try by auto.
  intros p i k Hp Ha Hc. destruct (home b p) as [j|j|] eqn:Eb.
  - assert (i = j) as -> by (apply B4 in Eb; congruence). by eapply A6.
  - intros Ho. by eapply (B6 p i), A3.
  - apply B5 in Eb. congruence.
Qed.
Lemma insert_cell_grows a p r a' :
  arena_wf a → in_i64 p → insert_fifo_cell a (pack_fifo_key_poc p) = (r, a') →
  grows a a' ∧ match r with Some i => home a' p = Hit i | None => home a' p = Full end.
Proof.
  intros [Hwf Hkeys] Hp. unfold insert_fifo_cell. destruct (probe_table a (pack_fifo_key_poc p)) as [i|i|] eqn:E; intros [= <- <-];
    [split; [by apply arena_grows_refl|done]| |split; [by apply arena_grows_refl|done]].
  set (key := pack_fifo_key_poc p) in *. set (b := fb_set_key key (bucket a i)). destruct (probe_Vacant _ _ _ E) as [Hvac Hi].
  assert (at_key b key = true) as Hk by (by apply at_key_true).
  assert (∀ k, (same_key k key → probe_table (<[i := b]> a) k = Hit i) ∧
               (¬ same_key k key → ∀ j, probe_table (<[i := b]> a) k = Hit j ↔ probe_table a k = Hit j)) as Hprobe by (intros k; by apply insert_key_probe).
  assert (∀ j, occupied a j → occupied (<[i := b]> a) j) as Hocc.
  { intros j Hj. unfold occupied in *. destruct (decide (i = j)) as [->|]; [by rewrite bucket_insert|]. by rewrite bucket_insert_ne. }
  assert (probe_table (<[i := b]> a) key = Hit i) as Ei by (exact (proj1 (Hprobe key) (conj eq_refl eq_refl))).
  split; [|exact Ei]. split.
  - split; [by eapply insert_key_wf|]. intros j Hj. destruct (decide (i = j)) as [->|Hne].
    + exists p. split; [done|]. split; [done|]. by rewrite bucket_insert.
    + unfold occupied in Hj. rewrite bucket_insert_ne in Hj by done. destruct (Hkeys j Hj) as (q & Hq & Hh). exists q. split; [done|].
      unfold holds_key, occupied in *. by rewrite bucket_insert_ne.
  - intros j. destruct (decide (i = j)) as [->|]; [by rewrite bucket_insert|]. by rewrite bucket_insert_ne.
  - exact Hocc.
  - intros q j Hq. unfold home in *. refine (proj2 (proj2 (Hprobe (pack_fifo_key_poc q)) _ j) Hq). intros Hs.
    assert (probe_table a key = probe_table a (pack_fifo_key_poc q)) as Eq; [|congruence].
    destruct (probe_Hit _ _ _ Hq) as [Hhold _]. rewrite Hq. apply probe_holds; [done|]. destruct Hhold as [Ho Hat]. split; [done|].
    rewrite <-Hat. symmetry. by apply at_key_same.
  - intros q Hq. exfalso. exact (Hvac (probe_Full _ _ i Hq Hi)).
  - intros q j k Hq Hv Hh Hj. unfold home in *. destruct (decide (q = p)) as [->|Hne].
    + fold key in Hh. assert (j = i) as -> by congruence. by apply Hvac.
    + assert (¬ same_key (pack_fifo_key_poc q) key) as Hs by (intros Hs; by apply Hne, pack_fifo_inj).
      pose proof (proj1 (proj2 (Hprobe (pack_fifo_key_poc q)) Hs j) Hh). congruence.
Qed.

(** * Finding cells *)
(** The map from pools to cells agrees with the arena. *)
Definition maps_home (a : FifoArena) (m : gmap Z Z) : Prop := ∀ p i, m !! p = Some i → in_i64 p ∧ home a p = Hit i.
Lemma probe_pools_ok a fresh m missing m' missing' :
  Forall (λ p, in_i64 (pool_of p)) fresh → maps_home a m → Forall in_i64 missing →
  foldl (probe_pool a) (m, missing) fresh = (m', missing') →
  maps_home a m' ∧ Forall in_i64 missing' ∧ (∀ p, p ∈ missing → p ∈ missing') ∧ (∀ p, is_Some (m !! p) → is_Some (m' !! p)) ∧
  (∀ p, p ∈ fresh → is_Some (m' !! pool_of p) ∨ pool_of p ∈ missing').
Proof.
  revert m missing. induction fresh as [|p fresh IH]; intros m missing Hf Hm Hmis; cbn [foldl].
  { intros [= <- <-]. split_and!; try done. by intros p ?%not_elem_of_nil. }
  apply Forall_cons in Hf as [Hp Hf]. destruct (probe_pool a (m, missing) p) as [m1 mis1] eqn:E. intros Hrun.
  assert (maps_home a m1 ∧ Forall in_i64 mis1 ∧ (∀ q, q ∈ missing → q ∈ mis1) ∧ (∀ q, is_Some (m !! q) → is_Some (m1 !! q)) ∧
          (is_Some (m1 !! pool_of p) ∨ pool_of p ∈ mis1)) as (A1 & A2 & A3 & A4 & A5).
  { unfold probe_pool in E. cbn [fst snd] in E. destruct (m !! pool_of p) as [c|] eqn:Em; [injection E as <- <-; split_and!; try done; left; by eexists|].
    unfold probe_fifo_cell in E. destruct (probe_table a (pack_fifo_key_poc (pool_of p))) as [c|c|] eqn:Ep; injection E as <- <-.
    - split_and!; try done; [| |left; rewrite lookup_insert_eq; by eexists].
      + intros q i [[<- <-]|[_ Hq]]%lookup_insert_Some; [done|by apply Hm].
      + intros q Hq. apply lookup_insert_is_Some'. by right.
    - case_decide; split_and!; try done; auto; [by apply Forall_app; auto|..]; intros; try right; apply elem_of_app; [by left|right; by apply list_elem_of_singleton].
    - case_decide; split_and!; try done; auto; [by apply Forall_app; auto|..]; intros; try right; apply elem_of_app; [by left|right; by apply list_elem_of_singleton]. }
  destruct (IH _ _ Hf A1 A2 Hrun) as (B1 & B2 & B3 & B4 & B5). split_and!; [done|done|by auto|by auto|].
  intros q [->|Hq]%elem_of_cons; [|by apply B5]. destruct A5 as [|]; [left|right]; auto.
Qed.
Lemma insert_pools_ok missing m a m' a' :
  arena_wf a → maps_home a m → Forall in_i64 missing → foldl insert_pool (m, a) missing = (m', a') →
  grows a a' ∧ maps_home a' m' ∧ (∀ p, is_Some (m !! p) → is_Some (m' !! p)) ∧
  (∀ p, p ∈ missing → is_Some (m' !! p) ∨ home a' p = Full).
Proof.
  revert m a. induction missing as [|p missing IH]; intros m a Hwf Hm Hmis; cbn [foldl].
  { intros [= <- <-]. split_and!; try done; [by apply arena_grows_refl|by intros p ?%not_elem_of_nil]. }
  apply Forall_cons in Hmis as [Hp Hmis]. unfold insert_pool at 2. cbn [fst snd].
  destruct (insert_fifo_cell a (pack_fifo_key_poc p)) as [r a1] eqn:E. destruct (insert_cell_grows _ _ _ _ Hwf Hp E) as [Hg Hr].
  set (m1 := match r with Some c => <[p := c]> m | None => m end).
  assert (match r with Some cell => (<[p:=cell]> m, a1) | None => (m, a1) end = (m1, a1)) as -> by (by destruct r). intros Hrun.
  assert (maps_home a1 m1 ∧ ∀ q, is_Some (m !! q) → is_Some (m1 !! q)) as [Hm1 Hdom].
  { assert (maps_home a1 m) as Hm0 by (intros q i Hq; destruct (Hm q i Hq); split; [done|by apply (gr_hit _ _ Hg)]).
    unfold m1. destruct r as [c|]; [|done]. split; [|intros q Hq; apply lookup_insert_is_Some'; by right].
    intros q i [[<- <-]|[_ Hq]]%lookup_insert_Some; [done|by apply Hm0]. }
  destruct (IH _ _ (gr_wf _ _ Hg) Hm1 Hmis Hrun) as (B1 & B2 & B3 & B4). split_and!; [by eapply grows_trans|done|by auto|].
  intros q [->|Hq]%elem_of_cons; [|by apply B4]. destruct r as [c|]; [left; apply B3; unfold m1; rewrite lookup_insert_eq; by eexists|].
  right. by apply (gr_full _ _ B1).
Qed.
Lemma find_cells_ok fresh a m a' :
  arena_wf a → Forall (λ p, in_i64 (pool_of p)) fresh → find_cells fresh a = (m, a') →
  grows a a' ∧ maps_home a' m ∧ ∀ p, p ∈ fresh → m !! pool_of p = None → home a' (pool_of p) = Full.
Proof.
  intros Hwf Hf. unfold find_cells. destruct (foldl (probe_pool a) (∅, []) fresh) as [m1 missing] eqn:E.
  destruct (probe_pools_ok _ _ _ _ _ _ Hf ltac:(intros p i Hx; by rewrite lookup_empty in Hx) (Forall_nil_2 _) E) as (A1 & A2 & _ & _ & A5). intros Hrun.
  destruct (insert_pools_ok _ _ _ _ _ Hwf A1 A2 Hrun) as (B1 & B2 & B3 & B4). split_and!; [done|done|].
  intros p Hp Hnone. destruct (A5 p Hp) as [Hs|Hs].
  - apply B3 in Hs as [? Hs]. congruence.
  - destruct (B4 _ Hs) as [[? Hx]|]; [congruence|done].
Qed.

(** * Arenas with the same keys *)
Definition same_keys (a a' : FifoArena) : Prop :=
  ∀ i, fb_occupied (bucket a' i) = fb_occupied (bucket a i) ∧ fb_key_hi (bucket a' i) = fb_key_hi (bucket a i) ∧
       fb_key_lo (bucket a' i) = fb_key_lo (bucket a i).
Lemma same_keys_holds a a' key i : same_keys a a' → holds_key a key i ↔ holds_key a' key i.
Proof. intros H. destruct (H i) as (H1 & H2 & H3). unfold holds_key, occupied, at_key. cbn. by rewrite H1, H2, H3. Qed.
Lemma same_keys_occupied a a' i : same_keys a a' → occupied a i ↔ occupied a' i.
Proof. intros H. destruct (H i) as (H1 & _). unfold occupied. cbn. by rewrite H1. Qed.
Lemma same_keys_wf a a' : same_keys a a' → arena_wf a → arena_wf a'.
Proof.
  intros H [[Hr Ht] Hk]. split; [split|].
  - intros i Hi. by apply Hr, (same_keys_occupied a a').
  - intros i key Hi. apply (same_keys_holds a a') in Hi; [|done]. destruct (Ht i key Hi) as (n & Hn & E & Hb). exists n. split; [done|split; [done|]].
    intros k Hm. destruct (Hb k Hm) as [Ho Ha]. split; [by apply (same_keys_occupied a a')|].
    destruct (H (probe_idx (slot_for key) k)) as (_ & E2 & E3). unfold at_key in *. cbn in *. by rewrite E2, E3.
  - intros i Hi. apply (same_keys_occupied a a') in Hi; [|done]. destruct (Hk i Hi) as (p & Hp & Hh). exists p. split; [done|]. by apply (same_keys_holds a a').
Qed.
Lemma same_keys_home a a' p :
  same_keys a a' → arena_wf a →
  match home a p with Hit i => home a' p = Hit i | Full => home a' p = Full | Vacant _ => ∀ i, home a' p ≠ Hit i end.
Proof.
  intros H Hwf. pose proof (same_keys_wf _ _ H Hwf) as Hwf'. unfold home. set (key := pack_fifo_key_poc p).
  assert (∀ i, probe_table a key = Hit i ↔ probe_table a' key = Hit i) as Hhit.
  { intros i. split; intros [Hx _]%probe_Hit; (apply probe_holds; [by apply aw_table|]); by apply (same_keys_holds a a'). }
  destruct (probe_table a key) as [i|k|] eqn:E.
  - by apply Hhit.
  - intros i Hi%Hhit. done.
  - destruct (probe_table a' key) as [i|k|] eqn:E'; [by destruct (proj2 (Hhit i) eq_refl)| |done]. exfalso.
    destruct (probe_Vacant _ _ _ E') as [Hv Hr]. apply Hv. apply (same_keys_occupied a a'); [done|]. exact (probe_Full _ _ k E Hr).
Qed.
(** The pool of an occupied cell. *)
Lemma occupied_pool a i :
  arena_wf a → occupied a i → ∃ p, in_i64 p ∧ home a p = Hit i ∧ as_i64 (fb_key_hi (bucket a i)) = p ∧ fb_key_lo (bucket a i) = 0.
Proof.
  intros [Hwf Hk] Hi. destruct (Hk i Hi) as (p & Hp & Hh). exists p. split_and!; [done|by apply probe_holds|..].
  - destruct Hh as [_ [Hx _]%at_key_true]. cbn in Hx. rewrite Hx, pack_fifo_key_hi. by apply as_i64_u64.
  - destruct Hh as [_ [_ Hx]%at_key_true]. cbn in Hx. by rewrite Hx, pack_fifo_key_lo.
Qed.
Lemma empty_arena_wf : arena_wf ∅.
Proof.
  assert (∀ i, ¬ occupied (∅ : FifoArena) i) as H by (intros i Hi; apply Hi; unfold bucket; by rewrite lookup_empty).
  split; [apply empty_wf|]. by intros i Hi%H.
Qed.
(** In an empty arena every pool finds a free slot. *)
Lemma vacant_home p : ∃ i, home ∅ p = Vacant i.
Proof.
  destruct (home ∅ p) as [i|i|] eqn:E; [|by exists i|].
  - apply home_Hit_occupied in E. exfalso. apply E. unfold bucket. by rewrite lookup_empty.
  - exfalso. pose proof (probe_Full _ _ 0 E ltac:(done)) as Hx. apply Hx. unfold bucket. by rewrite lookup_empty.
Qed.
Lemma home_probe a p : home a p = probe_table a (pack_fifo_key_poc p).
Proof. done. Qed.
#[global] Opaque home.

(** * Ties *)
(** The tables and the cells tie, with nothing under way. *)
Record ties (arena : FifoArena) (d : FifoDb) (V : Z → CellView) : Prop := {
  ti_books : books_ok (books_of d) (home arena) V (λ _, 0) (consumed_of d);
  ti_used : ∀ i, cv_seeded (V i) = true → occupied arena i;
}.
Lemma ties_grow a a' d V : grows a a' → ties a d V → ties a' d V.
Proof.
  intros [G1 G2 G3 G4 G5 G6] [Hb Hu]. split; [|by auto]. destruct Hb as [H1 H2 H3 H4 H5 H6].
  assert (books_ok (books_of d) (λ p, if decide (in_i64 p) then home a p else home a' p) V (λ _, 0) (consumed_of d)) as Hb.
  { split; try done.
    - intros L lb HL. specialize (H2 L lb HL). unfold tied in *. by rewrite decide_True by apply (H1 L lb HL).
    - intros i L HL. destruct (H3 i L HL) as (lb & Hlb & Hh). exists lb. by rewrite decide_True by apply (H1 _ _ Hlb). }
  eapply books_home; [exact Hb|..]; cbn.
  - intros p i. case_decide; auto.
  - intros p. case_decide; auto.
  - intros p i k. case_decide; [|congruence]. intros Hv Hh. destruct (cv_seeded (V i)) eqn:E; [|done]. exfalso. by eapply (G6 p i k), Hu.
Qed.

(** * Seeds *)
Lemma open_layers_at d p L row :
  cost_layers d !! L = Some row → cl_pool row = p → 0 ≤ cl_qty_remaining row →
  qty_at L (seed_layer <$> seed_rows p d) = cl_qty_remaining row.
Proof.
  intros Hrow Hp Hr. unfold seed_rows. rewrite at_layer_fmap, at_layer_fmap. unfold at_layer, open_layers. rewrite merge_sort_Permutation. cbn.
  assert (∀ l : list (Z * CostLayer), NoDup l.*1 → (L, row) ∈ l →
    sumZ (λ il, if decide (il.1 = L) then cl_qty_remaining il.2 else 0)
      (List.filter (λ il, (cl_pool il.2 =? p) && true && (0 <? cl_qty_remaining il.2)) l) = cl_qty_remaining row) as H.
  { induction l as [|[L' row'] l IH]; intros Hnd Hin; [by apply not_elem_of_nil in Hin|]. apply NoDup_cons in Hnd as [HL' Hnd]. cbn [List.filter].
    apply elem_of_cons in Hin as [[= <- <-]|Hin].
    - assert (sumZ (λ il, if decide (il.1 = L) then cl_qty_remaining il.2 else 0)
        (List.filter (λ il, (cl_pool il.2 =? p) && true && (0 <? cl_qty_remaining il.2)) l) = 0) as E.
      { apply sumZ_zeros. intros [L1 r1] Hx. rewrite list_elem_of_In, filter_In, <-list_elem_of_In in Hx. destruct Hx as [Hx _]. cbn.
        rewrite decide_False; [done|]. intros ->. exact (HL' (list_elem_of_fmap_2 fst l (L, r1) Hx)). }
      cbn. rewrite Hp, Z.eqb_refl. cbn. destruct (Z.ltb_spec 0 (cl_qty_remaining row)); [rewrite sumZ_cons, E; cbn; rewrite decide_True by done; lia|]. rewrite E. lia.
    - assert (L' ≠ L) as Hne by (intros ->; exact (HL' (list_elem_of_fmap_2 fst l (L, row) Hin))).
      destruct (_ && _); [rewrite sumZ_cons; cbn; rewrite decide_False by done|]; by rewrite IH. }
  apply H; [apply NoDup_fst_map_to_list|]. by apply elem_of_map_to_list.
Qed.
Lemma seed_rows_in p d s : s ∈ seed_rows p d → ∃ row, cost_layers d !! sd_layer_id s = Some row ∧ cl_pool row = p ∧ 0 < sd_qty_remaining s.
Proof.
  unfold seed_rows. intros Hs. apply list_elem_of_fmap in Hs as ([L row] & -> & Hx). apply open_layers_in in Hx as (? & ? & ?). by exists row.
Qed.
Lemma seed_cells_ok arena d m fresh :
  let seeds := seed_cells arena d m fresh in
  (∀ i l, seeds !! i = Some l → ∃ p, m !! p = Some i ∧ l = seed_rows p d) ∧
  (∀ p i, p ∈ fresh → m !! pool_of p = Some i → fb_seeded (bucket arena i) = 0 → is_Some (seeds !! i)).
Proof.
  cbn zeta. unfold seed_cells. induction fresh as [|p fresh IH] using rev_ind.
  { split; [intros i l Hx; cbn in Hx; by rewrite lookup_empty in Hx|by intros p i ?%not_elem_of_nil]. }
  rewrite foldl_app. cbn [foldl]. set (s0 := foldl _ _ fresh) in *. destruct IH as [H1 H2].
  destruct (m !! pool_of p) as [c|] eqn:Em.
  2: { split; [done|]. intros q i [Hq|Hq]%elem_of_app; [by apply H2|]. apply list_elem_of_singleton in Hq as ->. congruence. }
  destruct (s0 !! c) as [l0|] eqn:Es.
  { split; [done|]. intros q i [Hq|Hq]%elem_of_app; [by apply H2|]. apply list_elem_of_singleton in Hq as ->. intros ? _. simplify_eq. by eexists. }
  destruct (Z.eqb_spec (fb_seeded (bucket arena c)) 0) as [E|E]; split; [| |done|].
  - intros i l [[<- <-]|[_ Hi]]%lookup_insert_Some; [by exists (pool_of p)|by apply H1].
  - intros q i [Hq|Hq]%elem_of_app Hm Hz; apply lookup_insert_is_Some'; [right; by eapply H2|]. apply list_elem_of_singleton in Hq as ->. left. congruence.
  - intros q i [Hq|Hq]%elem_of_app; [by apply H2|]. apply list_elem_of_singleton in Hq as ->. congruence.
Qed.

(** * Phase 8 *)
Section phase8.
Context (arena : FifoArena) (d : FifoDb) (m : gmap Z Z) (seeds : gmap Z (list SeedLayerSnapshot)).
Hypothesis Hmap : maps_home arena m.
Hypothesis Hseeds : ∀ i l, seeds !! i = Some l → ∃ p, m !! p = Some i ∧ l = seed_rows p d.
(** The work of a cell: envelopes of its pool, which is loaded or can be. *)
Definition cell_work_ok (cw : Z * list Work) : Prop :=
  Forall (work_ok (home arena) cw.1) cw.2 ∧ (fb_seeded (bucket arena cw.1) = 0 → is_Some (seeds !! cw.1)).

Lemma seeds_are_ok : map_Forall (λ _, seeds_ok) seeds.
Proof.
  intros i l Hl. destruct (Hseeds i l Hl) as (p & _ & ->). apply Forall_forall. intros s Hs. apply seed_rows_in in Hs as (? & _ & _ & ?). done.
Qed.
(** Taking the shadow of a cell loads it if need be. *)
Lemma seed_ok V a j :
  acc_ok d (home arena) V a → view_ok (V j) → (cv_seeded (V j) = false → is_Some (seeds !! j)) → fresh_layers d (ac_layers a) →
  acc_ok d (home arena) (<[j := direct_seed (seeds !! j) (V j)]> V) a.
Proof.
  intros [Hb Hpl Hsp] Hok Hsome Hf. destruct (cv_seeded (V j)) eqn:Es.
  { apply (acc_ok_ext _ _ V); [done|]. intros i. unfold direct_seed. rewrite Es. destruct (decide (i = j)) as [->|]; [by rewrite fn_lookup_insert|].
    by rewrite fn_lookup_insert_ne. }
  destruct (Hsome eq_refl) as [l Hl]. destruct (Hseeds j l Hl) as (p & Hp & ->). destruct (Hmap p j Hp) as [Hpi Hph]. rewrite Hl. split.
  - refine (books_seed _ _ _ _ _ j p _ Hb Es (proj1 Hok) Hph (λ q Hq Hh, home_inj arena q p j Hq Hpi Hh Hph) _ _).
    + intros L lb HL Hpool. destruct (books_with_Some _ _ _ _ HL) as [Hold|(q & Hq & ->)].
      * unfold books_of in Hold. rewrite lookup_fmap in Hold. destruct (cost_layers d !! L) as [row|] eqn:Er; [|done]. injection Hold as <-.
        apply open_layers_at; [done|done|]. destruct (bo_range _ _ _ _ _ Hb L _ HL) as [_ Hr]. cbn in Hr. lia.
      * destruct (Hpl _ Hq) as (i & Hi & Hs). cbn in Hpool, Hi. subst p. congruence.
    + intros s Hs. apply seed_rows_in in Hs as (row & Hr & Hrp & _). exists (book_of row). split; [|done]. apply books_with_old.
      * intros Hx. apply list_elem_of_fmap in Hx as (pl & E & Hpl'). apply Hf in Hpl'. congruence.
      * unfold books_of. by rewrite lookup_fmap, Hr.
  - intros pl Hin. apply placed_insert; [unfold direct_seed; by rewrite Es|by apply Hpl].
  - intros sp Hin. apply loose_insert; [|by apply Hsp]. intros _. by apply (bo_blank _ _ _ _ _ Hb j).
Qed.

Lemma apply_cell_ok V a cw s top rest a' s' :
  ss_arena s = arena → ss_frames s = top :: rest → level_ok arena V (merged_frames (top :: rest)) → acc_ok d (home arena) V a → cell_work_ok cw →
  (∀ i, cv_seeded (V i) = true → occupied arena i) → occupied arena cw.1 →
  apply_cell seeds a cw s = (Ok a', s') → fresh_layers d (ac_layers a') →
  ∃ V' top', s' = set_frames (top' :: rest) s ∧ level_ok arena V' (merged_frames (top' :: rest)) ∧ acc_ok d (home arena) V' a' ∧
             (∀ i, cv_seeded (V' i) = true → occupied arena i).
Proof.
  intros Ha Hfr Hl Hacc [Hw Hsome] Hocc Hj H Hf. unfold apply_cell in H. apply SE_bind_Ok in H as (s0 & s0' & [= <- <-] & H). unfold id in H.
  rewrite Ha, Hfr in H. destruct (fifo_acquire_shadow arena seeds cw.1 (top :: rest)) as [sh st] eqn:Eacq.
  destruct (acquire_level _ _ _ _ _ _ _ _ Hl seeds_are_ok Eacq) as (-> & Hview & Hst).
  apply SE_bind_Ok in H as ([] & s1 & [= <-] & H). apply SE_bind_Ok in H as ([sh' a1] & s1 & Hrun & H). injection Hrun as Hrun <-.
  apply SE_bind_Ok in H as ([] & s2 & [= <-] & [= <- <-]). cbn [fst snd set_frames ss_frames fifo_install_shadow].
  assert (view_ok (sview sh)) as Hok by (destruct Hst as [_ Hx]; by rewrite sview_combine in Hx).
  assert (fresh_layers d (ac_layers a)) as Hf0 by (destruct (foldM_layers _ _ _ Hrun) as [more E]; cbn [snd] in *; rewrite E in Hf; by eapply fresh_layers_app).
  assert (acc_ok d (home arena) (<[cw.1 := sview sh]> V) a) as Hacc1.
  { rewrite Hview. apply seed_ok; [done|apply Hl| |done]. intros Es. apply Hsome. destruct (Hl cw.1) as [_ Hv].
    destruct (merged_frames (top :: rest) !! cw.1); [destruct Hv as [Hv _]|]; rewrite Hv in Es; [done|]. cbn in Es. by apply negb_false_iff, Z.eqb_eq in Es. }
  destruct (apply_works_ok _ _ _ _ _ _ _ _ _ Hacc1 Hok Hw Hrun Hf) as (Hacc2 & Hok2 & new & Hnew).
  exists (<[cw.1 := sview sh']> V), (<[cw.1 := sh']> (delete cw.1 top)). split_and!; [done| |done|].
  - intros i. rewrite merged_cons. destruct (decide (cw.1 = i)) as [<-|Hne].
    + rewrite lookup_insert_eq, fn_lookup_insert, sview_combine. split_and!; [done|done|]. by eapply stands_records.
    + rewrite lookup_insert_ne, lookup_delete_ne, fn_lookup_insert_ne by done. specialize (Hl i). by rewrite merged_cons in Hl.
  - intros i. destruct (decide (i = cw.1)) as [->|]; [done|]. rewrite fn_lookup_insert_ne by done. apply Hocc.
Qed.
Lemma apply_cell_layers a cw s a' s' : apply_cell seeds a cw s = (Ok a', s') → ∃ more, ac_layers a' = ac_layers a ++ more.
Proof.
  unfold apply_cell. intros H. apply SE_bind_Ok in H as (s0 & s0' & [= <- <-] & H). destruct (fifo_acquire_shadow _ _ _ _) as [sh st].
  apply SE_bind_Ok in H as ([] & s1 & [= <-] & H). apply SE_bind_Ok in H as ([sh' a1] & s1 & Hrun & H). injection Hrun as Hrun <-.
  apply SE_bind_Ok in H as ([] & s2 & [= <-] & [= <- <-]). by apply (foldM_layers _ _ _ Hrun).
Qed.
Lemma apply_cells_db a cws s r s' : foldS (apply_cell seeds) a cws s = (r, s') → ss_db s' = ss_db s.
Proof.
  revert a s. induction cws as [|cw cws IH]; intros a s; cbn [foldS]; [by intros [= <- <-]|]. unfold mbind, SE_bind at 1.
  destruct (apply_cell seeds a cw s) as [[a1|e] s1] eqn:E; [intros H; rewrite (IH _ _ H)|intros [= <- <-]];
    revert E; unfold apply_cell, mbind, SE_bind, gets, modify, lift, mret, SE_ret; destruct (fifo_acquire_shadow _ _ _ _);
    (destruct (foldM apply_work _ _); intros [= <- <-] || intros [= <-]); done.
Qed.
Lemma apply_cells_layers a cws s a' s' : foldS (apply_cell seeds) a cws s = (Ok a', s') → ∃ more, ac_layers a' = ac_layers a ++ more.
Proof.
  revert a s. induction cws as [|cw cws IH]; intros a s; cbn [foldS]; [intros [= <- <-]; exists []; by rewrite app_nil_r|].
  intros (a1 & s1 & H1 & H2)%SE_bind_Ok. destruct (apply_cell_layers _ _ _ _ _ H1) as [m1 E1]. destruct (IH _ _ H2) as [m2 E2].
  exists (m1 ++ m2). by rewrite E2, E1, app_assoc.
Qed.
Lemma apply_cells_ok V a cws s top rest a' s' :
  ss_arena s = arena → ss_frames s = top :: rest → level_ok arena V (merged_frames (top :: rest)) → acc_ok d (home arena) V a →
  Forall (λ cw, cell_work_ok cw ∧ occupied arena cw.1) cws → (∀ i, cv_seeded (V i) = true → occupied arena i) →
  foldS (apply_cell seeds) a cws s = (Ok a', s') → fresh_layers d (ac_layers a') →
  ∃ V' top', s' = set_frames (top' :: rest) s ∧ level_ok arena V' (merged_frames (top' :: rest)) ∧ acc_ok d (home arena) V' a' ∧
             (∀ i, cv_seeded (V' i) = true → occupied arena i).
Proof.
  revert V a s top. induction cws as [|cw cws IH]; intros V a s top Ha Hfr Hl Hacc Hw Hocc; cbn [foldS].
  { intros [= <- <-] _. exists V, top. split_and!; [by destruct s; cbn in *; subst|done..]. }
  apply Forall_cons in Hw as [[Hw Hj] Hws]. intros (a1 & s1 & H1 & H2)%SE_bind_Ok Hf.
  assert (fresh_layers d (ac_layers a1)) as Hf1.
  { destruct (apply_cells_layers _ _ _ _ _ H2) as [more E]. rewrite E in Hf. by eapply fresh_layers_app. }
  destruct (apply_cell_ok V a cw s top rest a1 s1 Ha Hfr Hl Hacc Hw Hocc Hj H1 Hf1) as (V1 & top1 & -> & Hl1 & Hacc1 & Hocc1).
  destruct (IH V1 a1 (set_frames (top1 :: rest) s) top1 Ha eq_refl Hl1 Hacc1 Hws Hocc1 H2 Hf) as (V2 & top2 & -> & Hl2 & Hacc2 & Hocc2). by exists V2, top2.
Qed.
End phase8.

(** * The batch *)
Lemma number_receipts_in next fresh w : w ∈ number_receipts next fresh → w.1 ∈ fresh.
Proof.
  revert next. induction fresh as [|p fresh IH]; intros next; cbn [number_receipts]; [by intros ?%not_elem_of_nil|].
  destruct (pa_kind p); (intros [->|Hw]%elem_of_cons; [by left|right; by eapply IH]).
Qed.
Lemma cells_to_envelopes_in m works cw w :
  cw ∈ cells_to_envelopes m works → w ∈ cw.2 → w ∈ works ∧ m !! pool_of w.1 = Some cw.1.
Proof.
  unfold cells_to_envelopes. intros Hcw. apply list_elem_of_fmap in Hcw as (c & -> & _). cbn.
  rewrite list_elem_of_In, filter_In, <-list_elem_of_In. intros [Hw Hc]. by apply bool_decide_eq_true in Hc.
Qed.
Lemma cells_to_envelopes_some m works cw : cw ∈ cells_to_envelopes m works → ∃ w, w ∈ works ∧ m !! pool_of w.1 = Some cw.1.
Proof.
  unfold cells_to_envelopes. intros Hcw. apply list_elem_of_fmap in Hcw as (c & -> & Hc). rewrite merge_sort_Permutation in Hc.
  apply elem_of_remove_dups, list_elem_of_omap in Hc as (w & Hw & Hm). by exists w.
Qed.
Lemma durable_only_in m works w : w ∈ durable_only m works → w ∈ works ∧ m !! pool_of w.1 = None.
Proof. unfold durable_only. rewrite list_elem_of_In, filter_In, <-list_elem_of_In. intros [Hw Hc]. by apply bool_decide_eq_true in Hc. Qed.
Lemma parse_all_ok idx arr ps : parse_all idx arr = Ok ps → Forall parsed_ok ps.
Proof.
  revert idx ps. induction arr as [|e arr IH]; intros idx ps; cbn [parse_all]; [by intros [= <-]; constructor|].
  intros (p & Hp & (ps' & Hps & [= <-])%Res_bind_Ok)%Res_bind_Ok. constructor; [|by eapply IH]. clear -Hp.
  unfold parse_fifo in Hp. apply Res_bind_Ok in Hp as (obj & _ & Hp). apply Res_bind_Ok in Hp as (kind & _ & Hp).
  apply Res_bind_Ok in Hp as (debit & Hd & Hp). apply Res_bind_Ok in Hp as (credit & Hc & Hp). apply Res_bind_Ok in Hp as (qty & Hq & Hp).
  apply ok_or_Ok, bind_Some in Hd as (? & _ & [-> Hd]%i64_try_from_Some). apply ok_or_Ok, bind_Some in Hc as (? & _ & [-> Hc]%i64_try_from_Some).
  apply ok_or_Ok, bind_Some in Hq as (? & _ & [-> Hq]%i64_try_from_Some). case_match eqn:E; [done|]. case_match; [done|].
  apply Res_bind_Ok in Hp as (? & _ & Hp). apply Res_bind_Ok in Hp as (? & _ & [= <-]). apply Z.leb_gt in E.
  unfold parsed_ok, pool_of, in_i64 in *. cbn. destruct kind; lia.
Qed.

(** Lowering the durable rows turns what was under way into what is. *)
Lemma books_lowered b b' h V (drain : gmap Z Z) used used' :
  books_ok b h V (λ L, default 0 (drain !! L)) used → (∀ L, b' !! L = lowered drain L <$> b !! L) →
  (∀ L lb, b' !! L = Some lb → is_Some (drain !! L) → 0 ≤ lb_remaining lb ≤ i64_max) → (∀ L, used' L = used L) →
  books_ok b' h V (λ _, 0) used'.
Proof.
  intros [H1 H2 H3 H4 H5 H6] Hlow Hrange Hused.
  assert (∀ L lb', b' !! L = Some lb' → ∃ lb, b !! L = Some lb ∧ lb' = lowered drain L lb) as Hinv.
  { intros L lb' HL. rewrite Hlow in HL. destruct (b !! L) as [lb|]; [|done]. injection HL as <-. by exists lb. }
  split; [| | |done| |done].
  - intros L lb' HL. destruct (Hinv L lb' HL) as (lb & Hb & ->). destruct (H1 L lb Hb) as [Hp Hr]. split; [done|].
    destruct (drain !! L) eqn:E; [apply (Hrange L); [done|by rewrite E]|]. cbn. rewrite E. cbn. lia.
  - intros L lb' HL. destruct (Hinv L lb' HL) as (lb & Hb & ->). specialize (H2 L lb Hb). rewrite Hused. unfold tied, layer_ok in *. cbn.
    destruct (h (lb_pool lb)) as [i|k|]; [|lia|done]. intros Ho. destruct (H2 Ho) as (A1 & A2 & A3). destruct (cv_seeded (V i)); split_and!; lia.
  - intros i L HL. destruct (H3 i L HL) as (lb & Hb & Hh). exists (lowered drain L lb). by rewrite Hlow, Hb.
  - intros L HL. rewrite Hlow, fmap_None in HL. split; [done|]. rewrite Hused. by apply H5.
Qed.

Section batch.
Context {PT : PgText} (hash_order : gmap Z (Z * Z) → list (Z * (Z * Z))) (shared : Shared) (spi_ok : bool).
Lemma ties_no_acc arena d V : ties arena d V → acc_ok d (home arena) V no_acc.
Proof.
  intros [Hb _]. split; [|by intros ? ?%not_elem_of_nil..]. eapply books_loose; [exact Hb|]. intros L. left.
  unfold drain_at, used_at, depleted_at. cbn. rewrite lookup_empty, at_layer_nil. cbn. lia.
Qed.
(** Phases 8 to 9. *)
Lemma phases_ok arena m seeds works s V top rest a s1 a1 a2 ids s2 :
  maps_home arena m → (∀ i l, seeds !! i = Some l → ∃ p, m !! p = Some i ∧ l = seed_rows p (ss_db s)) →
  ss_arena s = arena → ss_frames s = top :: rest → level_ok arena V (merged_frames (top :: rest)) → ties arena (ss_db s) V →
  Forall (λ cw, cell_work_ok arena seeds cw ∧ occupied arena cw.1) (cells_to_envelopes m works) →
  Forall (λ w, home arena (pool_of w.1) = Full ∧ parsed_ok w.1) (durable_only m works) →
  foldS (apply_cell seeds) no_acc (cells_to_envelopes m works) s = (Ok a, s1) → foldM (apply_spill (ss_db s)) a (ac_spills a) = Ok a1 →
  foldM (apply_durable (ss_db s)) a1 (durable_only m works) = Ok a2 → write_rows a2 s1 = (Ok ids, s2) →
  ∃ V' top', ss_arena s2 = arena ∧ ss_frames s2 = top' :: rest ∧ level_ok arena V' (merged_frames (top' :: rest)) ∧ ties arena (ss_db s2) V'.
Proof.
  intros Hmap Hseeds Ha Hfr Hl Ht Hcw Hdo Hcells Hspill Hdur Hw.
  destruct (write_rows_Ok _ _ _ _ Hw) as ((M1 & M2 & M3) & Hf2 & Hbooks & Hrange & Hused).
  assert (ss_db s1 = ss_db s → ∃ V' top', s1 = set_frames (top' :: rest) s ∧ level_ok arena V' (merged_frames (top' :: rest)) ∧
            acc_ok (ss_db s) (home arena) V' a ∧ (∀ i, cv_seeded (V' i) = true → occupied arena i) ∧ fresh_layers (ss_db s) (ac_layers a1)) as Hph.
  { intros Ed. rewrite Ed in *. destruct (durable_layers _ _ _ _ Hdur) as [more Em]. rewrite Em in Hf2. apply fresh_layers_app in Hf2.
    pose proof (spills_layers _ _ _ _ Hspill) as El.
    destruct (apply_cells_ok arena (ss_db s) m seeds Hmap Hseeds V no_acc _ s top rest a s1 Ha Hfr Hl (ties_no_acc _ _ _ Ht) Hcw (ti_used _ _ _ Ht) Hcells)
      as (V' & top' & -> & ? & ? & ?); [by rewrite <-El|]. by exists V', top'. }
  destruct Hph as (V' & top' & -> & Hl' & Hacc & Hocc & Hf1); [by eapply apply_cells_db|]. cbn [set_frames ss_arena ss_frames ss_db] in *.
  exists V', top'. split_and!; [congruence|congruence|done|]. split; [|done].
  destruct (apply_spills_ok _ _ _ _ a a1 (ao_books _ _ _ _ Hacc) (ao_spills _ _ _ _ Hacc)) as [Hb1 El];
    [by rewrite <-(spills_layers _ _ _ _ Hspill)|done|].
  eapply books_lowered; [|exact Hbooks|done|done]. by eapply (apply_durables_ok (ss_db s)).
Qed.
Lemma batch_ok envs s rows s' V Vs :
  arena_wf (ss_arena s) → ties (ss_arena s) (ss_db s) V →
  (∀ a, grows (ss_arena s) a → tracks a (V :: Vs) (ss_frames s)) →
  fifo_apply_batch_maximal hash_order shared spi_ok envs s = (Ok rows, s') →
  grows (ss_arena s) (ss_arena s') ∧ ∃ V', ties (ss_arena s') (ss_db s') V' ∧ tracks (ss_arena s') (V' :: Vs) (ss_frames s').
Proof.
  intros Hwf Ht Htr H. unfold fifo_apply_batch_maximal in H.
  apply SE_bind_Ok in H as (arr & s0 & Harr & H). injection Harr as _ <-. apply SE_bind_Ok in H as (parsed & s0 & Hparse & H). injection Hparse as Hparse <-.
  apply SE_bind_Ok in H as (d & s0 & [= <- <-] & H). apply SE_bind_Ok in H as (replays & s0 & Hrep & H). injection Hrep as _ <-.
  set (fresh := List.filter _ parsed) in H. apply SE_bind_Ok in H as (a0 & s0 & [= <- <-] & H).
  destruct (find_cells fresh (ss_arena s)) as [m arena] eqn:Ecells. cbn [fst snd] in H. apply SE_bind_Ok in H as ([] & s0 & [= <-] & H).
  unfold apply_fresh in H. apply SE_bind_Ok in H as (a0 & s0 & [= <- <-] & H). cbn [set_arena ss_arena] in H.
  apply SE_bind_Ok in H as (next & s0 & [= <- <-] & H). apply SE_bind_Ok in H as ([] & s0 & [= <-] & H).
  set (works := number_receipts _ fresh) in H. set (seeds := seed_cells arena _ m fresh) in H. apply SE_bind_Ok in H as ([] & s0 & [= <-] & H).
  apply SE_bind_Ok in H as (a & s1 & Hcells & H). apply SE_bind_Ok in H as (a1 & s2 & Hspill & H). injection Hspill as Hspill <-.
  apply SE_bind_Ok in H as (a2 & s2 & Hdur & H). injection Hdur as Hdur <-. apply SE_bind_Ok in H as (ids & s2 & Hw & H).
  apply SE_bind_Ok in H as ([] & s3 & [= <-] & [= <- <-]).
  assert (Forall parsed_ok fresh) as Hfresh.
  { apply Forall_forall. intros p Hp. unfold fresh in Hp. rewrite list_elem_of_In, filter_In, <-list_elem_of_In in Hp. destruct Hp as [Hp _].
    pose proof (parse_all_ok _ _ _ Hparse) as Hall. rewrite Forall_forall in Hall. by apply Hall. }
  rewrite Forall_forall in Hfresh.
  assert (Forall (λ p, in_i64 (pool_of p)) fresh) as Hpools by (apply Forall_forall; intros p Hp; by apply Hfresh).
  destruct (find_cells_ok _ _ _ _ Hwf Hpools Ecells) as (Hg & Hmap & Hfull).
  destruct (seed_cells_ok arena (ss_db s) m fresh) as [Hs1 Hs2].
  destruct (tracks_cons _ _ _ _ (Htr _ Hg)) as (top & rest & Efr & Hl & Hback).
  set (s0 := set_frames _ _) in Hcells.
  destruct (phases_ok arena m seeds works s0 V top rest a s1 a1 a2 ids s2 Hmap Hs1 eq_refl Efr Hl (ties_grow _ _ _ _ Hg Ht)) as (V' & top' & A1 & A2 & A3 & A4);
    [| |exact Hcells|exact Hspill|exact Hdur|exact Hw|].
  - apply Forall_forall. intros cw Hcw. destruct (cells_to_envelopes_some _ _ _ Hcw) as (w0 & Hw0 & Hm0). apply number_receipts_in in Hw0.
    destruct (Hmap _ _ Hm0) as [_ Hh0]. split; [split|by eapply home_Hit_occupied].
    + apply Forall_forall. intros w Hin. destruct (cells_to_envelopes_in _ _ _ _ Hcw Hin) as [Hw' Hm]. apply number_receipts_in in Hw'.
      split; [by apply Hmap|by apply Hfresh].
    + intros Hz. by eapply Hs2.
  - apply Forall_forall. intros w Hin. apply durable_only_in in Hin as [Hw' Hm]. apply number_receipts_in in Hw'. split; [by apply Hfull|by apply Hfresh].
  - cbn [set_pending ss_arena ss_frames ss_db]. rewrite A1, A2. split; [done|]. exists V'. split; [done|]. by apply Hback.
Qed.
End batch.
