(* ===== verification/ExtFifoRecon.v ===== *)
(** Transactions and drains keep the books of the FIFO arena: along every run the committed
    tables tie with the cells.  So the reconciliation queries find nothing: no drift in a
    loaded cell that never overflowed, and no layer of such a pool with more depletions than
    it received. *)
From stdpp Require Import functions.
From S2P Require Import Prelude ExtTable ExtBalance ExtRing ExtShadow ExtDeferred ExtFifoBatch ExtFifoBooks ExtFifoTies.

(** * What a batch touches, successful or not *)
Definition same_tail (f f' : list FifoFrame) : Prop := f' = f ∨ ∃ top top' rest, fifo_ensure_top_frame f = top :: rest ∧ f' = top' :: rest.
Definition frames_only (s s' : Session) : Prop := ss_arena s' = ss_arena s ∧ same_tail (ss_frames s) (ss_frames s').
#[global] Instance frames_only_preorder : PreOrder frames_only.
Proof.
  split; [intros s; split; [done|by left]|]. intros s1 s2 s3 [A1 T1] [A2 T2]. split; [congruence|].
  destruct T1 as [E1|(t1 & t1' & r1 & E1 & F1)]; [by rewrite <-E1|]. right. rewrite F1 in T2.
  destruct T2 as [F2|(t2 & t2' & r2 & [= <- <-] & F2)]; [by exists t1, t1', r1|]. by exists t1, t2', r1.
Qed.
Definition tame {A} (c : FM A) : Prop := ∀ s, frames_only s (c s).2.
Lemma tame_bind {A B} (c : FM A) (f : A → FM B) : tame c → (∀ a, tame (f a)) → tame (c ≫= f).
Proof. intros Hc Hf s. unfold mbind, SE_bind. specialize (Hc s). destruct (c s) as [[a|e] s1]; [|done]. by etrans; [|apply Hf]. Qed.
Lemma tame_ret {A} (a : A) : tame (mret a).
Proof. by intros s. Qed.
Lemma tame_lift {A} (r : Res FifoError A) : tame (lift r).
Proof. by intros s. Qed.
Lemma tame_gets {A} (f : Session → A) : tame (gets f).
Proof. by intros s. Qed.
Lemma tame_modify f : (∀ s, frames_only s (f s)) → tame (modify f).
Proof. intros H s. apply H. Qed.
Lemma tame_foldS {A B} (f : B → A → FM B) b l : (∀ b a, tame (f b a)) → tame (foldS f b l).
Proof. intros H. revert b. induction l as [|a l IH]; intros b; [apply tame_ret|]. by apply tame_bind. Qed.
Lemma tame_iterM {A} (f : A → FM unit) l : (∀ a, tame (f a)) → tame (iterM f l).
Proof. intros H. induction l as [|a l IH]; [apply tame_ret|]. by apply tame_bind. Qed.
Lemma tame_statement f : tame (statement f).
Proof. apply tame_bind; [apply tame_gets|]. intros d. apply tame_bind; [apply tame_lift|]. intros d'. apply tame_modify. intros s. split; [done|by left]. Qed.
Ltac tame := repeat (intros; first [apply tame_bind|apply tame_ret|apply tame_lift|apply tame_gets|apply tame_statement|apply tame_foldS|apply tame_iterM
                                   |apply tame_modify; by intros ?; split; [done|left]]).

Lemma acquire_tail arena seeds i f sh f' : fifo_acquire_shadow arena seeds i f = (sh, f') → same_tail f f'.
Proof.
  unfold fifo_acquire_shadow. destruct f as [|top rest]; [intros [= _ <-]; by left|]. destruct (top !! i); intros [= _ <-]; [|by left].
  right. by eexists top, _, rest.
Qed.
Lemma install_tail i sh f : same_tail f (fifo_install_shadow i sh f).
Proof. destruct f as [|top rest]; [by left|]. right. by eexists top, _, rest. Qed.
Lemma tame_apply_cell seeds a cw : tame (apply_cell seeds a cw).
Proof.
  intros s. unfold apply_cell, mbind, SE_bind, gets, modify, lift, id. destruct (fifo_acquire_shadow _ _ _ _) as [sh f] eqn:E. apply acquire_tail in E.
  assert (frames_only s (set_frames f s)) as H1 by (by split). destruct (foldM apply_work _ _) as [[sh' a']|e]; [|done]. cbn [fst snd].
  etrans; [exact H1|]. split; [done|]. apply install_tail.
Qed.
Section batch.
Context {PT : PgText} (hash_order : gmap Z (Z * Z) → list (Z * (Z * Z))) (shared : Shared) (spi_ok : bool).
Lemma tame_write_rows a : tame (write_rows a).
Proof. unfold write_rows, add_posting, add_layer. tame. intros [[[[? ?] ?] ?] ?]. unfold add_depletion. tame. Qed.
Lemma tame_apply_fresh parsed fresh replays m d : tame (apply_fresh hash_order shared spi_ok parsed fresh replays m d).
Proof.
  unfold apply_fresh. do 3 (apply tame_bind; [tame|intros]). apply tame_bind.
  { apply tame_modify. intros s. split; [done|]. cbn. destruct (ss_frames s) as [|top rest]; [right; by exists ∅, ∅, []|by left]. }
  intros _. apply tame_bind; [apply tame_foldS; intros; apply tame_apply_cell|intros]. do 2 (apply tame_bind; [tame|intros]).
  apply tame_bind; [apply tame_write_rows|tame].
Qed.
Lemma batch_touches envs s r s' :
  arena_wf (ss_arena s) → fifo_apply_batch_maximal hash_order shared spi_ok envs s = (r, s') →
  grows (ss_arena s) (ss_arena s') ∧ same_tail (ss_frames s) (ss_frames s').
Proof.
  intros Hwf H. assert (grows (ss_arena s) (ss_arena s) ∧ same_tail (ss_frames s) (ss_frames s)) as Hrefl by (split; [by apply arena_grows_refl|by left]).
  unfold fifo_apply_batch_maximal in H. unfold mbind, SE_bind at 1, lift at 1 in H. destruct (ok_or envs NotArray) as [arr|e]; [|by injection H as <- <-].
  unfold SE_bind at 1, lift at 1 in H. destruct (parse_all 0 arr) as [parsed|e] eqn:Hparse; [|by injection H as <- <-].
  unfold SE_bind at 1, gets at 1 in H. unfold SE_bind at 1, lift at 1 in H. destruct (select_replays _ _) as [replays|e]; [|by injection H as <- <-].
  unfold SE_bind, gets, modify in H. set (fresh := List.filter _ parsed) in H.
  assert (Forall (λ p, in_i64 (pool_of p)) fresh) as Hpools.
  { apply Forall_forall. intros p Hp. unfold fresh in Hp. rewrite list_elem_of_In, filter_In, <-list_elem_of_In in Hp. destruct Hp as [Hp _].
    pose proof (parse_all_ok _ _ _ Hparse) as Hall. rewrite Forall_forall in Hall. by apply Hall. }
  destruct (find_cells fresh (ss_arena s)) as [m arena] eqn:Ecells. destruct (find_cells_ok _ _ _ _ Hwf Hpools Ecells) as (Hg & _ & _).
  pose proof (tame_apply_fresh parsed fresh replays m (ss_db s) (set_arena arena s)) as Ht. cbn [fst snd] in H. rewrite H in Ht.
  destruct Ht as [Ea Ht]. cbn in Ea, Ht. by rewrite Ea.
Qed.
End batch.

(** * Frames over a growing arena *)
Lemma replay_op_view b b' op : bview b = bview b' → bview (fifo_replay_op b op) = bview (fifo_replay_op b' op).
Proof.
  unfold bview. intros [= E1 E2 E3 E4]. destruct op; cbn; rewrite ?E1, ?E2, ?E3, ?E4; try done.
  destruct (push_layer _ _) as [[] ?]; cbn; by rewrite ?E1, ?E2, ?E3, ?E4.
Qed.
Lemma replay_ops_view ops b b' : bview b = bview b' → bview (foldl fifo_replay_op b ops) = bview (foldl fifo_replay_op b' ops).
Proof. revert b b'. induction ops as [|op ops IH]; intros b b' E; [done|]. cbn. by apply IH, replay_op_view. Qed.
Lemma replay_shadow_view sh b b' : bview b = bview b' → bview (replay_shadow sh b) = bview (replay_shadow sh b').
Proof.
  intros E. unfold replay_shadow. apply replay_ops_view. assert ((fb_seeded b =? 0) = (fb_seeded b' =? 0)) as ->.
  { apply (f_equal cv_seeded) in E. cbn in E. by destruct (_ =? 0), (_ =? 0). }
  destruct (_ && _); [|done]. apply (replay_ops_view (sh_seed_ops sh)) in E. unfold bview in *. cbn. by injection E as -> -> -> _.
Qed.
Lemma levels_view a a' vs fs : (∀ i, bview (bucket a' i) = bview (bucket a i)) → levels a vs fs → levels a' vs fs.
Proof.
  intros E. revert fs. induction vs as [|v vs IH]; intros [|f fs]; try done. intros [Hl H]. split; [|by apply IH].
  intros i. destruct (Hl i) as [Hok Hi]. split; [done|]. destruct (merged_frames (f :: fs) !! i) as [M|]; [|by rewrite E].
  destruct Hi as [Hv [Hr Ho]]. split; [done|]. split; [|done]. rewrite <-Hr. by apply replay_shadow_view.
Qed.
Lemma tracks_grow a a' vs fs : grows a a' → tracks a vs fs → tracks a' vs fs.
Proof. intros [_ E _ _ _ _] [H|H]; [left|right]; by eapply levels_view. Qed.
Lemma abort_tracks a V P Vs f f' : tracks a (V :: P :: Vs) f → same_tail f f' → tracks a (P :: Vs) (fifo_subxact_abort_sub f').
Proof.
  intros Ht Hs. destruct (tracks_two _ _ _ _ _ Ht) as [_ [(x & g & rest & -> & Hp & Hback)|(x & -> & -> & Hp)]].
  - assert (∃ y, f' = y :: g :: rest) as [y ->]; [|by apply Hback].
    destruct Hs as [->|(top & top' & r & E & ->)]; [by exists x|]. injection E as <- <-. by exists top'.
  - assert (∃ y, f' = [y]) as [y ->]; [|by left]. destruct Hs as [->|(top & top' & r & E & ->)]; [by exists x|]. injection E as <- <-. by exists top'.
Qed.
Lemma release_tracks a V P Vs f : tracks a (V :: P :: Vs) f → tracks a (V :: Vs) (fifo_subxact_commit_sub f).
Proof.
  intros Ht. destruct (event_tracks a CommitSub (S (length Vs)) (length Vs) (V :: P :: Vs) f [] _ eq_refl eq_refl I Ht eq_refl) as (vs' & [= <-] & _ & H). done.
Qed.

(** * Transactions *)
Definition tracks_under (a : FifoArena) (Vs : list (Z → CellView)) (f : list FifoFrame) : Prop :=
  match Vs with [] => True | _ => tracks a Vs (fifo_subxact_abort_sub f) end.
Record tx_ok (t : Tx) (Vs : list (Z → CellView)) : Prop := {
  tk_wf : arena_wf (ss_arena (tx_session t));
  tk_saves : Forall2 (ties (ss_arena (tx_session t))) (tx_saves t) Vs;
  tk_top : if tx_failed t then tracks_under (ss_arena (tx_session t)) Vs (ss_frames (tx_session t))
           else ∃ V, ties (ss_arena (tx_session t)) (ss_db (tx_session t)) V ∧ tracks (ss_arena (tx_session t)) (V :: Vs) (ss_frames (tx_session t));
}.
Lemma tx_fail_ok t s Vs :
  tx_ok t Vs → grows (ss_arena (tx_session t)) (ss_arena s) → same_tail (ss_frames (tx_session t)) (ss_frames s) → tx_failed t = false →
  tx_ok (tx_fail s t) Vs.
Proof.
  intros [Hwf Hs Ht] Hg Htail Ef. rewrite Ef in Ht. destruct Ht as (V & Ht & Htr). split; cbn.
  - apply (gr_wf _ _ Hg).
  - eapply Forall2_impl; [done|]. intros d V' Hd. by eapply ties_grow.
  - destruct Vs as [|P Vs]; [done|]. cbn. eapply abort_tracks; [|done]. by eapply tracks_grow.
Qed.
Section transactions.
Context {PT : PgText} (hash_order : gmap Z (Z * Z) → list (Z * (Z * Z))) (shared : Shared) (spi_ok : bool).
Lemma tx_event_ok t e Vs :
  tx_ok t Vs → ∃ Vs', tx_ok (tx_event hash_order shared spi_ok t e) Vs' ∧
    grows (ss_arena (tx_session t)) (ss_arena (tx_session (tx_event hash_order shared spi_ok t e))).
Proof.
  intros Hok. pose proof Hok as [Hwf Hs Htop]. pose proof (arena_grows_refl _ Hwf) as Hg. destruct t as [s saves failed]. cbn in *.
  assert (∃ Vs', tx_ok (tx_fail s {| tx_session := s; tx_saves := saves; tx_failed := failed |}) Vs') as Hfail.
  { exists Vs. destruct failed; [by split|]. apply tx_fail_ok; [by split|done|by left|done]. }
  destruct e as [envs| | |]; cbn [tx_event tx_saves tx_session tx_failed].
  - destruct failed; [by exists Vs|]. destruct Htop as (V & Ht & Htr).
    destruct (fifo_apply_batch_maximal hash_order shared spi_ok envs s) as [[rows|e] s'] eqn:E.
    + destruct (batch_ok hash_order shared spi_ok envs s rows s' V Vs Hwf Ht (λ a Ha, tracks_grow _ a _ _ Ha Htr) E) as (Hg' & V' & Ht' & Htr').
      exists Vs. split; [|done]. split; cbn; [apply (gr_wf _ _ Hg')| |by exists V']. eapply Forall2_impl; [done|]. intros d W Hd. by eapply ties_grow.
    + destruct (batch_touches _ _ _ _ _ _ _ Hwf E) as [Hg' Htail]. exists Vs. split; [|done]. apply tx_fail_ok; [split; [done|done|by exists V]|done..].
  - destruct failed; [by exists Vs|]. destruct Htop as (V & Ht & Htr). exists (V :: Vs). split; [|done]. split; cbn; [done|by constructor|].
    exists V. split; [done|]. by apply start_tracks.
  - destruct failed; [destruct saves; by exists Vs|]. destruct saves as [|d saves]; [destruct Hfail as [Vs' ?]; by exists Vs'|].
    destruct Htop as (V & Ht & Htr). destruct Vs as [|P Vs]; [by inversion Hs|]. apply Forall2_cons in Hs as [Hd Hs]. exists Vs. split; [|done].
    split; cbn; [done|done|]. exists V. split; [done|]. by eapply release_tracks.
  - destruct saves as [|d saves]; [destruct Hfail as [Vs' ?]; by exists Vs'|]. destruct Vs as [|P Vs]; [by inversion Hs|]. apply Forall2_cons in Hs as [Hd Hs].
    exists Vs. split; [|done]. split; cbn; [done|done|]. exists P. split; [done|]. destruct failed; [done|].
    destruct Htop as (V & Ht & Htr). eapply abort_tracks; [done|by left].
Qed.
Lemma tx_events_ok es t Vs :
  tx_ok t Vs → ∃ Vs', tx_ok (foldl (tx_event hash_order shared spi_ok) t es) Vs' ∧
    grows (ss_arena (tx_session t)) (ss_arena (tx_session (foldl (tx_event hash_order shared spi_ok) t es))).
Proof.
  revert t Vs. induction es as [|e es IH]; intros t Vs Hok; cbn [foldl]; [exists Vs; split; [done|apply arena_grows_refl, Hok]|].
  destruct (tx_event_ok t e Vs Hok) as (Vs1 & Hok1 & Hg1). destruct (IH _ _ Hok1) as (Vs2 & Hok2 & Hg2). exists Vs2. split; [done|]. by eapply grows_trans.
Qed.
End transactions.

(** * Commit and abort *)
Lemma ties_same_keys a a' d V : same_keys a a' → arena_wf a → ties a d V → ties a' d V.
Proof.
  intros Hk Hwf [Hb Hu]. split; [|intros i Hi; by apply (same_keys_occupied a a'), Hu]. eapply books_home; [exact Hb|..].
  - intros p i E. pose proof (same_keys_home a a' p Hk Hwf) as H. by rewrite E in H.
  - intros p E. pose proof (same_keys_home a a' p Hk Hwf) as H. by rewrite E in H.
  - intros p i k E E'. pose proof (same_keys_home a a' p Hk Hwf) as H. rewrite E in H. by destruct (H i).
Qed.
Lemma ties_alike a d V V' : ties a d V → (∀ i, alike (V i) (V' i)) → ties a d V'.
Proof.
  intros [Hb Hu] Ha. split; [by eapply books_alike|]. intros i Hi. apply Hu. by destruct (Ha i) as (_ & _ & _ & ->).
Qed.
Lemma ties_ext a d V V' : ties a d V → (∀ i, V' i = V i) → ties a d V'.
Proof. intros H E. eapply ties_alike; [done|]. intros i. by rewrite E. Qed.

Definition bucket_keys (b : FifoBucket) : Z * Z * Z := (fb_occupied b, fb_key_hi b, fb_key_lo b).
Lemma same_keys_alt a a' : (∀ i, bucket_keys (bucket a' i) = bucket_keys (bucket a i)) → same_keys a a'.
Proof. intros H i. specialize (H i). unfold bucket_keys in H. by injection H as -> -> ->. Qed.
Lemma replay_op_keys b op : bucket_keys (fifo_replay_op b op) = bucket_keys b.
Proof. destruct op; cbn; [|done..]. by destruct (push_layer _ _) as [[] ?]. Qed.
Lemma replay_ops_keys ops b : bucket_keys (foldl fifo_replay_op b ops) = bucket_keys b.
Proof. revert b. induction ops as [|op ops IH]; intros b; [done|]. cbn. by rewrite IH, replay_op_keys. Qed.
Lemma replay_shadow_keys sh b : bucket_keys (replay_shadow sh b) = bucket_keys b.
Proof.
  unfold replay_shadow. rewrite replay_ops_keys. destruct (_ && _); [|done].
  change (bucket_keys (fb_set_seeded ?x)) with (bucket_keys x). apply replay_ops_keys.
Qed.
Lemma commit_same_keys f a seq : same_keys a (fifo_xact_commit f a seq).1.1.
Proof.
  apply same_keys_alt. intros i. destruct f as [|f fs]; [done|]. cbn [fifo_xact_commit fst]. set (m := merged_frames (f :: fs)).
  set (keys := merge_sort (≤) (map_to_list m).*1). assert (NoDup keys) as Hnd by (unfold keys; rewrite merge_sort_Permutation; apply NoDup_fst_map_to_list).
  pose proof (commit_cells m keys a seq i Hnd) as H. cbn zeta in H. destruct (m !! i) as [sh|]; [|by rewrite H].
  case_decide; [|by rewrite H]. destruct H as [n ->]. apply (replay_shadow_keys sh (bucket a i)).
Qed.
Record world_ok (w : World) : Prop := {
  wk_wf : arena_wf (wd_arena w);
  wk_ties : ties (wd_arena w) (wd_db w) (λ i, bview (bucket (wd_arena w) i));
  wk_views : arena_ok (wd_arena w);
}.
Section world.
Context {PT : PgText} (hash_order : gmap Z (Z * Z) → list (Z * (Z * Z))) (frame_order : Frame → list (Z * PendingEntry)).
Lemma release_all shared spi_ok (l : list FifoDb) t :
  length l = length (tx_saves t) →
  let t' := foldl (λ t _, tx_event hash_order shared spi_ok t TxRelease) t l in tx_failed t' = true ∨ tx_saves t' = [].
Proof.
  revert t. induction l as [|x l IH]; intros t Hlen; [right; cbn in *; by destruct (tx_saves t)|]. cbn [foldl]. destruct (tx_failed t) eqn:Ef.
  - left. assert (tx_event hash_order shared spi_ok t TxRelease = t) as E by (unfold tx_event; by destruct (tx_saves t); rewrite Ef).
    rewrite E. clear -E Ef. induction l as [|y l IH]; [done|]. cbn [foldl]. by rewrite E.
  - apply IH. unfold tx_event. destruct (tx_saves t) as [|d saves]; [done|]. rewrite Ef. cbn in *. lia.
Qed.
Lemma begin_ok used w : world_ok w → tx_ok (tx_begin (if used : bool then [∅] else []) (if used then [∅] else []) w) [].
Proof.
  intros [Hwf Ht Hv]. split; cbn; [done|constructor|]. exists (λ i, bview (bucket (wd_arena w) i)). split; [done|].
  destruct used; [left|right]; (split; [|done]); intros i; split; [apply Hv|done|apply Hv|done].
Qed.
Lemma transaction_ok used spi es commit w : world_ok w → world_ok (transaction hash_order frame_order used spi es commit w).
Proof.
  intros Hw. unfold transaction, tx_run. set (t0 := tx_begin _ _ w). pose proof (begin_ok used w Hw : tx_ok t0 []) as Ht0.
  destruct (tx_events_ok hash_order (wd_shared w) spi es t0 [] Ht0) as (Vs1 & Ht1 & Hg1). set (t1 := foldl _ t0 es) in *.
  pose proof (release_all (wd_shared w) spi (tx_saves t1) t1 eq_refl) as Hrel. cbn zeta in Hrel.
  assert (foldl (λ t _, tx_event hash_order (wd_shared w) spi t TxRelease) t1 (tx_saves t1) =
          foldl (tx_event hash_order (wd_shared w) spi) t1 (replicate (length (tx_saves t1)) TxRelease)) as Erep.
  { generalize (tx_saves t1) as l. intros l. generalize t1. induction l as [|x l IH]; intros t; [done|]. cbn. apply IH. }
  rewrite Erep in *. destruct (tx_events_ok hash_order (wd_shared w) spi (replicate (length (tx_saves t1)) TxRelease) t1 Vs1 Ht1) as (Vs2 & Ht2 & Hg2).
  set (t2 := foldl _ t1 _) in *. pose proof (grows_trans _ _ _ Hg1 Hg2) as Hg. cbn in Hg. destruct Hw as [Hwf Ht Hv].
  destruct (commit && negb (tx_failed t2) && xact_pre_commit (wd_shared w) (ss_pending (tx_session t2))) eqn:Ec.
  - destruct (fifo_xact_commit _ _ _) as [[arena seq] fr] eqn:Ex. apply andb_true_iff in Ec as [[_ Ef%negb_true_iff]%andb_true_iff _].
    destruct Ht2 as [Hwf2 Hs2 Htop]. rewrite Ef in Htop. destruct Hrel as [Hrel|Hrel]; [congruence|]. rewrite Hrel in Hs2. apply Forall2_nil_inv_l in Hs2 as ->.
    destruct Htop as (V & Hties & Htr). pose proof (commit_same_keys (ss_frames (tx_session t2)) (ss_arena (tx_session t2)) (APPLY_SEQ (wd_shared w))) as Hk.
    assert (∀ i, bview (bucket arena i) = V i) as Hview by (intros i; rewrite <-(commit_view _ (APPLY_SEQ (wd_shared w)) V _ i Htr), Ex; done).
    rewrite Ex in Hk. cbn in Hk. split; cbn; [by eapply same_keys_wf| |].
    + eapply ties_ext; [by eapply ties_same_keys|done].
    + intros i. rewrite Hview. destruct (tracks_cons _ _ _ _ Htr) as (top & rest & _ & Hl & _). apply Hl.
  - split; cbn; [apply (gr_wf _ _ Hg)| |].
    + eapply ties_ext; [by eapply ties_grow|]. apply (gr_view _ _ Hg).
    + intros i. rewrite (gr_view _ _ Hg). apply Hv.
Qed.
End world.

(** * The drain tick *)
Lemma count_from_seqZ n i : count_from n i = seqZ i (Z.of_nat n).
Proof.
  revert i. induction n as [|n IH]; intros i; [done|]. rewrite seqZ_cons by lia. cbn [count_from]. rewrite IH. f_equal. f_equal; lia.
Qed.
Lemma slots_NoDup : NoDup slots.
Proof. unfold slots. rewrite count_from_seqZ. apply NoDup_seqZ. Qed.
Definition emptied (b : FifoBucket) : FifoBucket := fb_set_ring (drain_pending_into (fb_ring b)).2 b.
Definition snap (a : FifoArena) (i : Z) : DrainSnapshot := (i, fb_last_seq (bucket a i), (drain_pending_into (fb_ring (bucket a i))).1).
(** Taking the staged entries of distinct cells. *)
Lemma take_pending_all a cells a' snaps :
  NoDup cells → foldl take_pending (a, []) cells = (a', snaps) →
  snaps = snap a <$> cells ∧ ∀ i, bucket a' i = if decide (i ∈ cells) then emptied (bucket a i) else bucket a i.
Proof.
  revert a' snaps. induction cells as [|j cells IH] using rev_ind; intros a' snaps Hnd.
  { intros [= <- <-]. split; [done|]. intros i. by rewrite decide_False by apply not_elem_of_nil. }
  apply NoDup_app in Hnd as (Hnd & Hj & _). rewrite foldl_app. cbn [foldl]. destruct (foldl take_pending (a, []) cells) as [a1 sn1].
  destruct (IH _ _ Hnd eq_refl) as [-> Hb]. unfold take_pending. cbn [fst snd].
  assert (bucket a1 j = bucket a j) as Ej by (rewrite Hb, decide_False; [done|]; intros Hx; apply (Hj _ Hx); by left).
  rewrite Ej. destruct (drain_pending_into (fb_ring (bucket a j))) as [entries ring] eqn:E. intros [= <- <-]. split.
  - rewrite fmap_app. cbn. unfold snap at 3. by rewrite E.
  - intros i. destruct (decide (i = j)) as [->|Hne].
    + rewrite bucket_insert, decide_True by (apply elem_of_app; right; by apply list_elem_of_singleton). unfold emptied. by rewrite E.
    + rewrite bucket_insert_ne, Hb by done. apply decide_ext. rewrite elem_of_app, list_elem_of_singleton. naive_solver.
Qed.
Lemma per_layer_snoc a cells j :
  per_layer (snap a <$> (cells ++ [j])) = add_drains pd_layer_id pd_qty_consumed (drain_pending_into (fb_ring (bucket a j))).1 (per_layer (snap a <$> cells)).
Proof. unfold per_layer, add_drains. rewrite !fmap_app, concat_app, foldl_app. cbn. by rewrite app_nil_r. Qed.

(** The view of a cell once the entries of the [cells] were taken. *)
Definition taken_view (a : FifoArena) (cells : list Z) (i : Z) : CellView := bview (if decide (i ∈ cells) then emptied (bucket a i) else bucket a i).
Lemma taken_books a d cells :
  NoDup cells → arena_ok a → ties a d (λ i, bview (bucket a i)) →
  books_ok (books_of d) (home a) (taken_view a cells) (λ L, default 0 (per_layer (snap a <$> cells) !! L)) (consumed_of d).
Proof.
  intros Hnd Hok [Hb Hu]. induction cells as [|j cells IH] using rev_ind.
  { eapply books_alike; [eapply books_loose; [exact Hb|]|].
    - intros L. left. unfold per_layer. cbn. by rewrite lookup_empty.
    - intros i. unfold taken_view. rewrite decide_False by apply not_elem_of_nil. done. }
  apply NoDup_app in Hnd as (Hnd & Hj & _). specialize (IH Hnd). assert (j ∉ cells) as Hnj by (intros Hx; apply (Hj _ Hx); by left).
  assert (taken_view a cells j = bview (bucket a j)) as Ev by (unfold taken_view; by rewrite decide_False).
  destruct (Hok j) as [Hwf Hpos]. destruct (drain_pending_staged _ Hwf) as (Hwf' & Hst & Hst' & Hq). cbn [bview cv_ring] in *.
  set (v' := bview (emptied (bucket a j))).
  assert (∀ i, alike (<[j := v']> (taken_view a cells) i) (taken_view a (cells ++ [j]) i)) as Halike.
  { intros i. unfold taken_view, v'. destruct (decide (i = j)) as [->|Hne].
    - rewrite fn_lookup_insert, decide_True by (apply elem_of_app; right; by apply list_elem_of_singleton). done.
    - rewrite fn_lookup_insert_ne by done. rewrite (decide_ext (i ∈ cells ++ [j]) (i ∈ cells)); [done|]. rewrite elem_of_app, list_elem_of_singleton. naive_solver. }
  destruct (cv_seeded (bview (bucket a j))) eqn:Es.
  - eapply books_alike; [|exact Halike]. assert (queue (cv_ring v') = queue (cv_ring (taken_view a cells j)) ∧ staged (cv_ring v') = []) as [Eq Est] by (by rewrite Ev).
    pose proof (bo_staged _ _ _ _ _ IH j) as Hnn. rewrite Ev in Hnn. cbn [bview cv_ring] in Hnn.
    apply (books_cell _ _ (taken_view a cells) (λ L, default 0 (per_layer (snap a <$> cells) !! L)) (consumed_of d)); [done|done|by rewrite Est| | |].
    + intros L HL. split; [|done]. rewrite per_layer_snoc, Hst. apply add_drains_other. intros e He <-. apply HL. rewrite Ev.
      apply elem_of_app. right. by apply list_elem_of_fmap_2.
    + intros L HL. apply (bo_owned _ _ _ _ _ IH). unfold ids_of in *. rewrite Eq, Est in HL. rewrite app_nil_r in HL. apply elem_of_app. by left.
    + intros L lb HL Hh Hlay Ho. rewrite Ev in Hlay. specialize (Hlay Ho). change (cv_seeded v') with (cv_seeded (bview (bucket a j))). rewrite Es, Eq, Est in *.
      rewrite Ev in *. destruct Hlay as (H0 & H1 & H2). cbn [bview cv_ring] in *. destruct (bo_range _ _ _ _ _ IH L lb HL) as [_ Hr].
      pose proof (at_layer_nonneg pd_layer_id pd_qty_consumed L _ Hnn).
      assert (0 ≤ qty_at L (queue (fb_ring (bucket a j)))) by
        (apply at_layer_nonneg; eapply Forall_impl; [exact Hpos|]; intros l Hl; cbn in Hl; lia).
      rewrite per_layer_snoc, Hst, add_drains_at, at_layer_nil by (done || lia). split_and!; lia.
  - destruct (bo_blank _ _ _ _ _ Hb j Es) as (Hq0 & Hst0 & Ho0). cbn [bview cv_ring] in *. rewrite per_layer_snoc, Hst, Hst0. cbn [add_drains foldl].
    eapply books_alike; [exact IH|]. intros i. specialize (Halike i). destruct (decide (i = j)) as [->|Hne]; [|by rewrite fn_lookup_insert_ne in Halike].
    rewrite fn_lookup_insert in Halike. rewrite Ev. destruct Halike as (E1 & E2 & E3 & E4). unfold alike. rewrite <-E1, <-E2, <-E3, <-E4.
    cbn [v' emptied bview fb_set_ring fb_ring cv_ring fb_seeded fb_overflow_active cv_overflow cv_seeded]. split_and!; [by rewrite Hq|by rewrite Hst', Hst0|done..].
Qed.

(** Stamping what was written back. *)
Lemma stamp_cells snaps a i : bview (bucket (foldl stamp_cell a snaps) i) = bview (bucket a i) ∧ bucket_keys (bucket (foldl stamp_cell a snaps) i) = bucket_keys (bucket a i).
Proof.
  revert a. induction snaps as [|sn snaps IH]; intros a; [done|]. cbn [foldl]. destruct (IH (stamp_cell a sn)) as [-> ->]. unfold stamp_cell.
  destruct (decide (sn.1.1 = i)) as [<-|Hne]; [by rewrite bucket_insert|by rewrite bucket_insert_ne].
Qed.
(** Putting the entries back. *)
Definition restaged (entries : list PendingDrain) (r : RingFields) : RingFields :=
  foldl (λ r e, (push_pending_drain r (pd_layer_id e) (pd_qty_consumed e)).2) r entries.
Lemma restaged_ok entries r :
  ring_wf r → Z.of_nat (length (staged r ++ entries)) ≤ PENDING_DRAIN_CAP →
  ring_wf (restaged entries r) ∧ staged (restaged entries r) = staged r ++ entries ∧ queue (restaged entries r) = queue r.
Proof.
  revert r. induction entries as [|e entries IH]; intros r Hwf Hlen; cbn [restaged foldl]; [by rewrite app_nil_r|].
  destruct (push_pending_drain r (pd_layer_id e) (pd_qty_consumed e)) as [ok r'] eqn:E. destruct (push_pending_staged _ _ _ _ _ Hwf E) as (Hwf' & Hq & Hst).
  rewrite length_app in Hlen. cbn in Hlen. rewrite bool_decide_eq_true_2 in Hst by lia. injection Hst as -> Hst.
  assert ({| pd_layer_id := pd_layer_id e; pd_qty_consumed := pd_qty_consumed e |} = e) as Ee by (by destruct e). rewrite Ee in Hst.
  destruct (IH r' Hwf') as (H1 & H2 & H3); [rewrite Hst, !length_app; cbn; lia|]. cbn [snd]. fold (restaged entries r'). rewrite H2, H3, Hst, Hq, <-app_assoc. done.
Qed.
Lemma restage_cells a cells a1 i :
  NoDup cells →
  bucket (foldl restage_cell a1 (snap a <$> cells)) i =
    if decide (i ∈ cells) then fb_set_ring (restaged (drain_pending_into (fb_ring (bucket a i))).1 (fb_ring (bucket a1 i))) (bucket a1 i) else bucket a1 i.
Proof.
  intros Hnd. revert a1. induction Hnd as [|j cells Hj Hnd IH]; intros a1; [by rewrite decide_False by apply not_elem_of_nil|].
  cbn [fmap list_fmap foldl]. rewrite IH. assert (∀ k, bucket (restage_cell a1 (snap a j)) k =
    if decide (k = j) then fb_set_ring (restaged (drain_pending_into (fb_ring (bucket a j))).1 (fb_ring (bucket a1 j))) (bucket a1 j) else bucket a1 k) as Hone.
  { intros k. unfold restage_cell, snap. cbn [fst snd]. destruct (drain_pending_into (fb_ring (bucket a j))).1 as [|e l].
    - destruct (decide (k = j)) as [->|]; [by destruct (bucket a1 j)|done].
    - destruct (decide (k = j)) as [->|]; [by rewrite bucket_insert|by rewrite bucket_insert_ne]. }
  rewrite !Hone. destruct (decide (i = j)) as [->|Hne]; [rewrite decide_False by done; by rewrite decide_True by (by left)|].
  apply decide_ext. rewrite elem_of_cons. naive_solver.
Qed.
Lemma ring_room r : ring_wf r → Z.of_nat (length (staged r)) ≤ PENDING_DRAIN_CAP.
Proof. intros [_ _ Hp]. unfold staged. rewrite length_fmap, length_seqZ. lia. Qed.

(** Both ends of a tick. *)
Lemma tick_written a a1 cells d d' :
  NoDup cells → arena_wf a → arena_ok a → ties a d (λ i, bview (bucket a i)) → depletions d' = depletions d →
  (∀ i, bucket a1 i = if decide (i ∈ cells) then emptied (bucket a i) else bucket a i) →
  (∀ L, books_of d' !! L = lowered (per_layer (snap a <$> cells)) L <$> books_of d !! L) →
  (∀ L lb, books_of d' !! L = Some lb → is_Some (per_layer (snap a <$> cells) !! L) → 0 ≤ lb_remaining lb ≤ i64_max) →
  let a2 := foldl stamp_cell a1 (snap a <$> cells) in arena_wf a2 ∧ ties a2 d' (λ i, bview (bucket a2 i)) ∧ arena_ok a2.
Proof.
  intros Hnd Hwf Hok Ht Hdep Ha1 Hlow Hrange a2.
  assert (∀ i, bview (bucket a2 i) = taken_view a cells i) as Hview by (intros i; unfold a2, taken_view; destruct (stamp_cells (snap a <$> cells) a1 i) as [E _]; by rewrite E, Ha1).
  assert (same_keys a a2) as Hk.
  { apply same_keys_alt. intros i. unfold a2. destruct (stamp_cells (snap a <$> cells) a1 i) as [_ E]. rewrite E, Ha1. by case_decide. }
  split_and!; [by eapply same_keys_wf| |].
  - eapply ties_ext; [|exact Hview]. eapply ties_same_keys; [done|done|]. split.
    + eapply books_lowered; [by apply taken_books|done|done|]. intros L. unfold consumed_of. by rewrite Hdep.
    + intros i Hi. apply (ti_used _ _ _ Ht). unfold taken_view in Hi. by case_decide.
  - intros i. rewrite Hview. unfold taken_view. case_decide; [|apply Hok]. destruct (Hok i) as [Hw Hp].
    destruct (drain_pending_staged _ Hw) as (Hw' & _ & _ & Hq). split; cbn in *; [done|by rewrite Hq].
Qed.
Lemma tick_failed a a1 cells d :
  NoDup cells → arena_wf a → arena_ok a → ties a d (λ i, bview (bucket a i)) →
  (∀ i, bucket a1 i = if decide (i ∈ cells) then emptied (bucket a i) else bucket a i) →
  let a2 := foldl restage_cell a1 (snap a <$> cells) in arena_wf a2 ∧ ties a2 d (λ i, bview (bucket a2 i)) ∧ arena_ok a2.
Proof.
  intros Hnd Hwf Hok Ht Ha1 a2.
  assert (∀ i, view_ok (bview (bucket a2 i)) ∧ alike (bview (bucket a i)) (bview (bucket a2 i)) ∧ bucket_keys (bucket a2 i) = bucket_keys (bucket a i)) as Hall.
  { intros i. unfold a2. rewrite restage_cells, Ha1 by done. case_decide; [|by split_and!]. destruct (Hok i) as [Hw Hp]. cbn in Hw, Hp.
    destruct (drain_pending_staged _ Hw) as (Hw' & Hst & Hst' & Hq). pose proof (ring_room _ Hw).
    destruct (restaged_ok (drain_pending_into (fb_ring (bucket a i))).1 (drain_pending_into (fb_ring (bucket a i))).2 Hw') as (H1 & H2 & H3).
    { by rewrite Hst, Hst'. }
    unfold view_ok, alike. cbn. rewrite H2, H3, Hst', Hq. rewrite Hst in H1 |- *. by split_and!. }
  assert (same_keys a a2) as Hk by (apply same_keys_alt; intros i; apply Hall). split_and!; [by eapply same_keys_wf| |intros i; apply Hall].
  eapply ties_same_keys; [done|done|]. eapply ties_alike; [done|]. intros i. apply Hall.
Qed.
Lemma drain_tick_ok spi w : world_ok w → world_ok (drain_tick spi w).
Proof.
  intros [Hwf Ht Hok]. unfold drain_tick, do_fifo_drain_tick. destruct (fifo_dirty_cells (wd_arena w)) as [|j0 dirty0] eqn:Ed; [by split|].
  assert (NoDup (j0 :: dirty0)) as Hnd.
  { rewrite <-Ed. apply NoDup_ListNoDup, List.NoDup_filter, NoDup_ListNoDup, slots_NoDup. }
  destruct (foldl take_pending (wd_arena w, []) (j0 :: dirty0)) as [a1 snaps] eqn:E. destruct (take_pending_all _ _ _ _ Hnd E) as [-> Ha1].
  set (cells := j0 :: dirty0) in *. set (drain := per_layer (snap (wd_arena w) <$> cells)). cbv zeta.
  destruct (if _ =? 0 then _ else _) as [layers|e] eqn:Eo.
  - assert ((∀ L, book_of <$> layers !! L = lowered drain L <$> (book_of <$> cost_layers (wd_db w) !! L)) ∧
            (∀ L l, layers !! L = Some l → is_Some (drain !! L) → 0 ≤ cl_qty_remaining l ≤ i64_max)) as [Hlow Hrange].
    { destruct (Z.eqb_spec (Z.of_nat (length (map_to_list drain))) 0) as [E0|_]; [|destruct spi; [by apply update_remaining_Ok|done]].
      injection Eo as <-. assert (drain = ∅) as -> by (apply map_to_list_empty_iff, length_zero_iff_nil; lia). split.
      - intros L. destruct (_ !! L) as [l|]; [|done]. cbn. unfold lowered, book_of. rewrite lookup_empty. cbn. by rewrite Z.sub_0_r.
      - intros L l _ [? Hx]. by rewrite lookup_empty in Hx. }
    destruct (tick_written (wd_arena w) a1 cells (wd_db w) (set_layers layers (wd_db w))) as (H1 & H2 & H3); try done.
    + intros L. unfold books_of. by rewrite !lookup_fmap, <-Hlow.
    + intros L lb HL Hd. unfold books_of in HL. rewrite lookup_fmap in HL. cbn in HL. destruct (layers !! L) as [l|] eqn:El; [|done]. injection HL as <-. by apply (Hrange L).
  - destruct (tick_failed (wd_arena w) a1 cells (wd_db w)) as (H1 & H2 & H3); try done.
Qed.

(** * Runs *)
(** Tables to start from: rows in range, what is left of a layer is what it received less
    its depletions, and depletions name layers. *)
Record tables_ok (d : FifoDb) : Prop := {
  tb_range : map_Forall (λ _ l, in_i64 (cl_pool l) ∧ 0 ≤ cl_qty_remaining l ≤ i64_max) (cost_layers d);
  tb_received : map_Forall (λ L l, cl_qty_received l = cl_qty_remaining l + consumed_of d L) (cost_layers d);
  tb_depletions : map_Forall (λ _ r, is_Some (cost_layers d !! dp_layer r)) (depletions d);
}.
Lemma start_ok w : wd_arena w = ∅ → tables_ok (wd_db w) → world_ok w.
Proof.
  intros Ea [H1 H2 H3].
  assert (∀ i, bview (bucket (∅ : FifoArena) i) = bview sl_zeroed) as Hb by (intros i; unfold bucket; by rewrite lookup_empty).
  split; rewrite Ea; [apply empty_arena_wf| |].
  - eapply (ties_ext _ _ (λ _, bview sl_zeroed)); [|done]. split; [|done]. split; try done.
    + intros L lb HL. unfold books_of in HL. rewrite lookup_fmap in HL. destruct (_ !! L) as [l|] eqn:El; [|done]. injection HL as <-. by apply (H1 L l).
    + intros L lb HL. unfold books_of in HL. rewrite lookup_fmap in HL. destruct (_ !! L) as [l|] eqn:El; [|done]. injection HL as <-.
      unfold tied. destruct (vacant_home (lb_pool (book_of l))) as [i ->]. split; [done|]. by apply (H2 L l).
    + intros i L HL. by apply not_elem_of_nil in HL.
    + intros L HL. split; [done|]. unfold books_of in HL. rewrite lookup_fmap, fmap_None in HL. apply sumZ_zeros. intros [k r] Hr.
      apply elem_of_map_to_list in Hr. cbn. rewrite decide_False; [done|]. intros <-. specialize (H3 k r Hr). cbn in H3. by rewrite HL in H3.
  - intros i. rewrite Hb. split; [split; cbn; unfold MAX_LAYERS, PENDING_DRAIN_CAP; lia|constructor].
Qed.
Section runs.
Context {PT : PgText} (hash_order : gmap Z (Z * Z) → list (Z * (Z * Z))) (frame_order : Frame → list (Z * PendingEntry)).
Lemma world_run_ok es w : world_ok w → world_ok (foldl (world_event hash_order frame_order) w es).
Proof.
  revert w. induction es as [|e es IH]; intros w Hw; [done|]. cbn [foldl]. apply IH. destruct e; [by apply transaction_ok|by apply drain_tick_ok].
Qed.
End runs.

(** * Reconciliation *)
Lemma saturating_sum {A} (f : A → Z) l acc :
  Forall (λ a, 0 ≤ f a) l → 0 ≤ acc → acc + sumZ f l ≤ i64_max → foldl saturating_add acc (f <$> l) = acc + sumZ f l.
Proof.
  revert acc. induction l as [|a l IH]; intros acc Hl Ha Hm; cbn [fmap list_fmap foldl]; [rewrite sumZ_nil; lia|]. apply Forall_cons in Hl as [Hq Hl].
  rewrite sumZ_cons in Hm |- *. assert (0 ≤ sumZ f l) by (apply sumZ_nonneg; intros x Hx; rewrite Forall_forall in Hl; by apply Hl).
  assert (saturating_add acc (f a) = acc + f a) as -> by (unfold saturating_add, saturate, i64_min, i64_max in *; lia). rewrite IH by (done || lia). lia.
Qed.
Lemma sumZ_fmap {A B} (f : B → Z) (g : A → B) l : sumZ f (g <$> l) = sumZ (λ a, f (g a)) l.
Proof. induction l as [|a l IH]; [done|]. cbn [fmap list_fmap]. by rewrite !sumZ_cons, IH. Qed.
Lemma NoDup_filter_fst {A} (f : Z * A → bool) l : NoDup l.*1 → NoDup (List.filter f l).*1.
Proof.
  induction l as [|a l IH]; intros Hnd; [constructor|]. apply NoDup_cons in Hnd as [Ha Hnd]. cbn [List.filter]. destruct (f a); [|by apply IH].
  apply NoDup_cons. split; [|by apply IH]. intros Hx. apply Ha. apply list_elem_of_fmap in Hx as (x & -> & Hx). apply list_elem_of_fmap_2.
  rewrite list_elem_of_In, filter_In, <-list_elem_of_In in Hx. apply Hx.
Qed.
Section recon.
Context (w : World).
Hypothesis Hw : world_ok w.
Let b (i : Z) := bucket (wd_arena w) i.
(** A pool whose cell is loaded and never overflowed. *)
Definition sound_cell (p i : Z) : Prop := home (wd_arena w) p = Hit i ∧ fb_seeded (b i) ≠ 0 ∧ fb_overflow_active (b i) = 0.
Lemma pool_rows_in p L row : (L, row) ∈ pool_rows (λ _, true) p (wd_db w) ↔ cost_layers (wd_db w) !! L = Some row ∧ cl_pool row = p.
Proof.
  unfold pool_rows. rewrite list_elem_of_In, filter_In, <-list_elem_of_In, elem_of_map_to_list. cbn. rewrite andb_true_r, Z.eqb_eq. done.
Qed.
Lemma sound_row p i L row :
  sound_cell p i → (L, row) ∈ pool_rows (λ _, true) p (wd_db w) →
  cl_qty_remaining row = qty_at L (queue (fb_ring (b i))) + pend_at L (staged (fb_ring (b i))) ∧
  cl_qty_received row = qty_at L (queue (fb_ring (b i))) + consumed_of (wd_db w) L.
Proof.
  intros (Hh & Hs & Ho) [Hrow <-]%pool_rows_in. destruct Hw as [_ [Hb _] _]. pose proof (bo_tied _ _ _ _ _ Hb L (book_of row)) as Ht.
  unfold books_of, tied in Ht. rewrite lookup_fmap, Hrow in Ht. specialize (Ht eq_refl). cbn [book_of lb_pool] in Ht. rewrite Hh in Ht. specialize (Ht Ho).
  assert (cv_seeded (bview (b i)) = true) as E by (cbn; by apply negb_true_iff, Z.eqb_neq). unfold b in *. rewrite E in Ht. cbn in Ht. lia.
Qed.
Lemma sound_owned p i L : in_i64 p → sound_cell p i → L ∈ ids_of (bview (b i)) → L ∈ (pool_rows (λ _, true) p (wd_db w)).*1.
Proof.
  intros Hp (Hh & _ & _) HL. destruct Hw as [_ [Hb _] _]. destruct (bo_owned _ _ _ _ _ Hb i L HL) as (lb & Hlb & Hhome).
  destruct (bo_range _ _ _ _ _ Hb L lb Hlb) as [Hpi _]. pose proof (home_inj _ _ _ _ Hpi Hp Hhome Hh) as E. unfold books_of in Hlb. rewrite lookup_fmap in Hlb.
  destruct (cost_layers (wd_db w) !! L) as [row|] eqn:Er; [|done]. injection Hlb as <-.
  refine (list_elem_of_fmap_2 fst _ (L, row) _). by apply pool_rows_in.
Qed.
Lemma sound_sums p i :
  in_i64 p → sound_cell p i →
  let rows := pool_rows (λ _, true) p (wd_db w) in
  sumZ (λ r, cl_qty_remaining r.2) rows = sumZ ly_qty (queue (fb_ring (b i))) + sumZ pd_qty_consumed (staged (fb_ring (b i))) ∧
  sumZ (λ r, cl_qty_received r.2 - consumed_of (wd_db w) r.1) rows = sumZ ly_qty (queue (fb_ring (b i))).
Proof.
  intros Hp Hc rows. assert (NoDup rows.*1) as Hnd by (apply NoDup_filter_fst, NoDup_fst_map_to_list).
  assert (sumZ (λ L, qty_at L (queue (fb_ring (b i)))) rows.*1 = sumZ ly_qty (queue (fb_ring (b i)))) as Eq.
  { apply sumZ_at_layers; [done|]. intros l Hl. apply (sound_owned p i); [done|done|]. apply elem_of_app. left. by apply list_elem_of_fmap_2. }
  assert (sumZ (λ L, pend_at L (staged (fb_ring (b i)))) rows.*1 = sumZ pd_qty_consumed (staged (fb_ring (b i)))) as Ep.
  { apply sumZ_at_layers; [done|]. intros l Hl. apply (sound_owned p i); [done|done|]. apply elem_of_app. right. by apply list_elem_of_fmap_2. }
  rewrite <-Ep, <-Eq, !sumZ_fmap, <-sumZ_add. split; apply sumZ_ext; intros [L row] Hr; destruct (sound_row p i L row Hc Hr) as [H1 H2]; cbn; lia.
Qed.
(** The query's row of such a cell. *)
Lemma sound_recon_row p i c r :
  in_i64 p → sound_cell p i → recon_cell (wd_arena w) i = Some c → rn_pool c = p → recon_row (wd_db w) c = Some r → rc_drift r = None ∨ rc_drift r = Some 0.
Proof.
  intros Hp Hc Ecell <- Hrow. destruct (sound_sums _ _ Hp Hc) as [Hsum _]. destruct Hc as (_ & _ & Ho). destruct Hw as [_ [Hb _] Hok].
  unfold recon_cell in Ecell. fold (b i) in Ecell. destruct (_ || _); [done|]. injection Ecell as <-. unfold recon_row in Hrow. cbn [rn_pool rn_live rn_pending rn_overflow rn_watermark] in *.
  rewrite Ho in Hrow. cbn [Z.eqb andb] in Hrow. destruct (i64_try_from (pool_sum _ _ _)) as [durable|] eqn:Ed; [|done].
  apply i64_try_from_Some in Ed as [-> Hr]. destruct (Hok i) as [_ Hpos]. pose proof (bo_staged _ _ _ _ _ Hb i) as Hst. cbn in Hpos, Hst.
  unfold pool_sum in *. rewrite Hsum in *. fold (b i) in *.
  assert (0 ≤ sumZ ly_qty (queue (fb_ring (b i))) ∧ 0 ≤ sumZ pd_qty_consumed (staged (fb_ring (b i)))) as [Hq0 Hp0].
  { split; apply sumZ_nonneg; intros x Hx; [pose proof (proj1 (Forall_forall _ _) Hpos x Hx) as H; cbn in H; lia|]. rewrite Forall_forall in Hst. by apply Hst. }
  assert (foldl saturating_add 0 (ly_qty <$> queue (fb_ring (b i))) = sumZ ly_qty (queue (fb_ring (b i)))) as Eq.
  { apply (saturating_sum ly_qty); [|done|unfold in_i64 in Hr; lia]. eapply Forall_impl; [exact Hpos|]. intros x Hx. cbn in *. lia. }
  assert (foldl saturating_add 0 (pd_qty_consumed <$> staged (fb_ring (b i))) = sumZ pd_qty_consumed (staged (fb_ring (b i)))) as Ep.
  { apply (saturating_sum pd_qty_consumed); [done|done|unfold in_i64 in Hr; lia]. }
  rewrite (list_fmap_compose (λ k, ring_layer (fb_ring (b i)) ((rf_head (fb_ring (b i)) + k) `mod` MAX_LAYERS)) ly_qty),
    (list_fmap_compose (ring_pending (fb_ring (b i))) pd_qty_consumed) in Hrow.
  fold (queue (fb_ring (b i))) (staged (fb_ring (b i))) in Hrow. rewrite Eq, Ep in Hrow.
  apply bind_Some in Hrow as (du & [= <-] & Hrow). apply bind_Some in Hrow as (sp & [= <-] & Hrow). apply bind_Some in Hrow as (total & Et & Hrow). apply i64_try_from_Some in Et as [-> _].
  destruct (pool_rows _ _ _); [injection Hrow as <-; by left|]. apply bind_Some in Hrow as (sh & Es & Hrow). apply i64_try_from_Some in Es as [-> _].
  apply bind_Some in Hrow as (dr & Edr & [= <-]). apply i64_try_from_Some in Edr as [-> _]. right. cbn. f_equal. lia.
Qed.
Lemma recon_cell_pool i c : recon_cell (wd_arena w) i = Some c → in_i64 (rn_pool c) ∧ home (wd_arena w) (rn_pool c) = Hit i.
Proof.
  unfold recon_cell. destruct (Z.eqb_spec (fb_occupied (bucket (wd_arena w) i)) 0) as [|Hocc]; [done|]. cbn [orb]. destruct (negb _); [done|]. intros [= <-]. cbn.
  destruct (occupied_pool (wd_arena w) i (wk_wf _ Hw) Hocc) as (p & Hp & Hh & -> & _). done.
Qed.
(** A layer is not depleted beyond what it received, unless its cell overflowed. *)
Lemma consumed_bound L row :
  cost_layers (wd_db w) !! L = Some row →
  match home (wd_arena w) (cl_pool row) with
  | Hit i => fb_overflow_active (b i) = 0 → consumed_of (wd_db w) L ≤ cl_qty_received row
  | Vacant _ => consumed_of (wd_db w) L ≤ cl_qty_received row
  | Full => True
  end.
Proof.
  intros Hrow. destruct Hw as [_ [Hb _] Hok]. assert (books_of (wd_db w) !! L = Some (book_of row)) as Hbk by (unfold books_of; by rewrite lookup_fmap, Hrow).
  pose proof (bo_tied _ _ _ _ _ Hb L _ Hbk) as Ht. destruct (bo_range _ _ _ _ _ Hb L _ Hbk) as [_ Hr]. unfold tied in Ht. cbn [book_of lb_pool lb_remaining lb_received] in *.
  destruct (home _ _) as [i|k|]; [|lia|done]. intros Ho. specialize (Ht Ho). destruct (Hok i) as [_ Hpos]. cbn in Hpos.
  assert (0 ≤ qty_at L (queue (fb_ring (b i)))) by (apply at_layer_nonneg; eapply Forall_impl; [exact Hpos|]; intros l Hl; cbn in Hl; lia).
  unfold b in *. destruct (cv_seeded (bview (bucket (wd_arena w) i))) eqn:Es; cbn in Ht; [lia|].
  destruct (bo_blank _ _ _ _ _ Hb i Es) as (_ & Hst & _). cbn in Hst. rewrite Hst, at_layer_nil in Ht. lia.
Qed.
End recon.
(** The rows of the queries. *)
Lemma recon_row_pool d c r : recon_row d c = Some r → rc_pool r = rn_pool c.
Proof.
  unfold recon_row. intros (du & _ & (sp & _ & (to & _ & H)%bind_Some)%bind_Some)%bind_Some. destruct (pool_rows _ _ _); [by injection H as <-|].
  by apply bind_Some in H as (sh & _ & (dr & _ & [= <-])%bind_Some).
Qed.
Lemma recon_rows_of spi a d r n :
  r ∈ fifo_arena_recon spi a d → rc_drift r = Some n → ∃ i c, recon_cell a i = Some c ∧ recon_row d c = Some r.
Proof.
  unfold fifo_arena_recon. set (cells := omap (recon_cell a) slots).
  destruct (if spi then _ else _) as [rows|] eqn:E; intros Hr Hd.
  - destruct spi; [|done]. rewrite sort_by_key_Permutation in Hr. apply mapM_Some in E. apply list_elem_of_lookup in Hr as [k Hk].
    destruct (Forall2_lookup_r _ _ _ _ _ E Hk) as (c & Hc & Hrow). apply list_elem_of_lookup_2, list_elem_of_omap in Hc as (i & _ & Hi). by exists i, c.
  - apply list_elem_of_fmap in Hr as (c & -> & _). done.
Qed.
Lemma over_rows_of d rows r :
  fifo_overconsume_check d = Some rows → r ∈ rows →
  ∃ L row, cost_layers d !! L = Some row ∧ cl_qty_received row < consumed_of d L ∧ or_layer r = L.
Proof.
  unfold fifo_overconsume_check. intros (rs & E & ->)%fmap_Some Hr. rewrite sort_by_key_Permutation in Hr. apply mapM_Some in E.
  apply list_elem_of_lookup in Hr as [k Hk]. destruct (Forall2_lookup_r _ _ _ _ _ E Hk) as ([L row] & Hc & Hrow). apply list_elem_of_lookup_2 in Hc.
  rewrite list_elem_of_In, filter_In, <-list_elem_of_In, elem_of_map_to_list, Z.ltb_lt in Hc. exists L, row. split_and!; [apply Hc..|].
  unfold over_row in Hrow. by apply bind_Some in Hrow as (t & _ & (o & _ & [= <-])%bind_Some).
Qed.

(** What the claims are about: pools that have a cell, loaded, whose ring never overflowed;
    and pools whose cell, if any, never overflowed while the arena has room for it. *)
Definition loaded (arena : FifoArena) (pool : Z) : bool :=
  match probe_fifo_cell arena (pack_fifo_key_poc pool) with
  | Some i => negb (fb_seeded (bucket arena i) =? 0) && (fb_overflow_active (bucket arena i) =? 0)
  | None => false
  end.
Definition contained (arena : FifoArena) (pool : Z) : bool :=
  match probe_table arena (pack_fifo_key_poc pool) with
  | Hit i => fb_overflow_active (bucket arena i) =? 0
  | Vacant _ => true
  | Full => false
  end.
Lemma loaded_sound w pool : loaded (wd_arena w) pool = true → ∃ i, probe_fifo_cell (wd_arena w) (pack_fifo_key_poc pool) = Some i ∧ sound_cell w pool i.
Proof.
  unfold loaded, sound_cell. destruct (probe_fifo_cell _ _) as [i|] eqn:E; [|done]. intros [Hs%negb_true_iff%Z.eqb_neq Ho%Z.eqb_eq]%andb_true_iff.
  exists i. split_and!; [done| |done..]. rewrite home_probe. unfold probe_fifo_cell in E. destruct (probe_table _ _); congruence.
Qed.

Section claims.
Context {PT : PgText} (hash_order : gmap Z (Z * Z) → list (Z * (Z * Z))) (frame_order : Frame → list (Z * PendingEntry)).
(** C8: however transactions with FIFO batches, savepoints, rollbacks, failed statements
    and drain ticks follow one another on an arena that starts empty over consistent
    tables, [fifo_arena_recon] finds no drift in a pool whose cell is loaded and never
    overflowed: what the ring holds plus what is staged for the drain is exactly what the
    durable rows have left. *)
Theorem fifo_arena_no_drift (es : list WorldEvent) (w : World) (spi : bool) (r : ReconRow) (n : Z) :
  wd_arena w = ∅ → tables_ok (wd_db w) →
  let w' := foldl (world_event hash_order frame_order) w es in
  r ∈ fifo_arena_recon spi (wd_arena w') (wd_db w') → loaded (wd_arena w') (rc_pool r) = true → rc_drift r = Some n → n = 0.
Proof.
  intros Ha Ht w' Hr Hl Hd. pose proof (world_run_ok hash_order frame_order es w (start_ok w Ha Ht) : world_ok w') as Hw.
  destruct (recon_rows_of _ _ _ _ _ Hr Hd) as (i & c & Hc & Hrow). destruct (recon_cell_pool w' Hw i c Hc) as (Hp & Hh).
  rewrite (recon_row_pool _ _ _ Hrow) in Hl. destruct (loaded_sound w' _ Hl) as (k & _ & Hs). assert (k = i) as -> by (destruct Hs; congruence).
  destruct (sound_recon_row w' Hw (rn_pool c) i c r Hp Hs Hc eq_refl Hrow); congruence.
Qed.
(** C18: along the same runs, what the ring of such a cell holds is its pool's stock: the
    quantities its layers received less the depletions recorded against them. *)
Theorem fifo_ring_is_stock (es : list WorldEvent) (w : World) (pool : Z) :
  wd_arena w = ∅ → tables_ok (wd_db w) → in_i64 pool →
  let w' := foldl (world_event hash_order frame_order) w es in
  loaded (wd_arena w') pool = true →
  ∃ i, probe_fifo_cell (wd_arena w') (pack_fifo_key_poc pool) = Some i ∧
    sumZ ly_qty (queue (fb_ring (bucket (wd_arena w') i))) =
      sumZ (λ r, cl_qty_received r.2 - consumed_of (wd_db w') r.1) (pool_rows (λ _, true) pool (wd_db w')).
Proof.
  intros Ha Ht Hp w' Hl. pose proof (world_run_ok hash_order frame_order es w (start_ok w Ha Ht) : world_ok w') as Hw.
  destruct (loaded_sound w' _ Hl) as (i & Hi & Hs). exists i. split; [done|]. symmetry. by apply (sound_sums w' Hw pool i Hp).
Qed.
End claims.
