(* ===== verification/ExtFifoReplay.v ===== *)
(** Replaying a FIFO batch: once a batch succeeded, the same envelopes run again find
    every one of their postings and change nothing. *)
From S2P Require Import Prelude ExtTable ExtBalance ExtRing ExtShadow ExtDeferred ExtFifoBatch.
From S2P Require Import ExtFifoBooks ExtFifoTies.

(** * Every envelope leaves a row *)
(** The keys with a layer or a depletion. *)
Definition noted (a : Acc) : list string :=
  ((λ pl : Parsed * Z, pa_key pl.1) <$> ac_layers a) ++ ((λ dp : Z * string * Z * Z, dp.1.1.2) <$> ac_depletions a).
Definition handled (a : Acc) (k : string) : Prop := k ∈ noted a ∨ ∃ sp, sp ∈ ac_spills a ∧ 0 < sp_shortage sp ∧ pa_key (sp_env sp) = k.
Lemma consume_loop_none todo n t c r res r' : consume_loop todo n t c r = (res, r') → cr_consumed res = [] → c = [] ∧ cr_shortage res = n.
Proof.
  revert n t c r. induction todo as [|todo IH]; intros n t c r; cbn [consume_loop]; [by intros [= <- <-]|].
  destruct (_ && _); [|by intros [= <- <-]]. intros H E. apply IH in H as [H _]; [|done]. by destruct c.
Qed.
Lemma walk_rows_none rows n t c rem cost sl : walk_rows rows n t c = (rem, cost, sl) → sl = [] → c = [] ∧ rem = n.
Proof.
  revert n t c. induction rows as [|[L row] rows IH]; intros n t c; cbn [walk_rows]; [by intros [= <- _ <-]|].
  destruct (n =? 0); [by intros [= <- _ <-]|]. intros H E. apply IH in H as [H _]; [|done]. by destruct c.
Qed.
Lemma noted_receipt p lid amount a k : k ∈ noted (acc_receipt p lid amount a) ↔ k = pa_key p ∨ k ∈ noted a.
Proof. unfold noted. cbn. rewrite fmap_app, !elem_of_app. cbn. rewrite list_elem_of_singleton. naive_solver. Qed.
Lemma noted_slices p slices inline a k : k ∈ noted (acc_slices p slices inline a) ↔ (k = pa_key p ∧ slices ≠ []) ∨ k ∈ noted a.
Proof.
  unfold noted. cbn. rewrite fmap_app, !elem_of_app, <-list_fmap_compose. unfold compose. cbn.
  assert (k ∈ (λ _ : ConsumedSlice, pa_key p) <$> slices ↔ k = pa_key p ∧ slices ≠ []) as ->; [|naive_solver].
  destruct slices as [|s slices]; [split; [by intros ?%not_elem_of_nil|naive_solver]|]. split.
  - intros (x & -> & _)%list_elem_of_fmap. done.
  - intros [-> _]. by left.
Qed.
Lemma noted_issue p cost a : noted (acc_issue p cost a) = noted a.
Proof. done. Qed.
Lemma apply_work_handled st w st' :
  apply_work st w = Ok st' → 0 < pa_qty w.1 → handled st'.2 (pa_key w.1) ∧ ∀ k, handled st.2 k → handled st'.2 k.
Proof.
  destruct st as [sh a]. unfold apply_work, handled. destruct (pa_kind w.1).
  { intros [= <-] _. cbn [snd]. split; [left; apply noted_receipt; by left|]. intros k [Hk|Hk]; [left; apply noted_receipt; by right|by right]. }
  unfold shadow_issue. destruct (consume_from_head (sh_ring sh) (pa_qty w.1)) as [res r] eqn:Ec.
  destruct (foldl stage_slice _ _) as [inline sh']. destruct (Z.ltb_spec 0 (cr_shortage res)) as [Hs|Hs].
  - destruct (_ =? 1); [|done]. intros [= <-] Hq. cbn [snd]. split.
    + right. eexists. split; [apply elem_of_app; right; by left|done].
    + intros k [Hk|(sp & Hsp & Hk)]; [left; by apply (noted_slices w.1 (cr_consumed res) inline); right|].
      right. exists sp. split; [|done]. apply elem_of_app. by left.
  - intros [= <-] Hq. cbn [snd]. rewrite noted_issue. split.
    + left. apply noted_slices. left. split; [done|]. intros E. apply consume_loop_none in Ec as [_ Ec]; [lia|done].
    + intros k [Hk|Hk]; [left; apply noted_slices; by right|by right].
Qed.
Lemma apply_works_handled ws st st' :
  foldM apply_work st ws = Ok st' → Forall (λ w : Work, 0 < pa_qty w.1) ws →
  (∀ w, w ∈ ws → handled st'.2 (pa_key w.1)) ∧ ∀ k, handled st.2 k → handled st'.2 k.
Proof.
  revert st. induction ws as [|w ws IH]; intros st; cbn [foldM]; [intros [= <-] _; split; [by intros w ?%not_elem_of_nil|done]|].
  intros (st1 & H1 & H2)%Res_bind_Ok [Hw Hws]%Forall_cons. destruct (apply_work_handled _ _ _ H1 Hw) as [A1 A2]. destruct (IH _ H2 Hws) as [B1 B2].
  split; [|by auto]. intros x [->|Hx]%elem_of_cons; auto.
Qed.
Lemma apply_cell_handled seeds a cw s a' s' :
  apply_cell seeds a cw s = (Ok a', s') → Forall (λ w : Work, 0 < pa_qty w.1) cw.2 →
  (∀ w, w ∈ cw.2 → handled a' (pa_key w.1)) ∧ ∀ k, handled a k → handled a' k.
Proof.
  unfold apply_cell. intros H. apply SE_bind_Ok in H as (s0 & s0' & [= <- <-] & H). destruct (fifo_acquire_shadow _ _ _ _) as [sh st].
  apply SE_bind_Ok in H as ([] & s1 & [= <-] & H). apply SE_bind_Ok in H as ([sh' a1] & s1 & Hrun & H). injection Hrun as Hrun <-.
  apply SE_bind_Ok in H as ([] & s2 & [= <-] & [= <- <-]). apply (apply_works_handled _ _ _ Hrun).
Qed.
Lemma apply_cells_handled seeds a cws s a' s' :
  foldS (apply_cell seeds) a cws s = (Ok a', s') → Forall (λ cw : Z * list Work, Forall (λ w : Work, 0 < pa_qty w.1) cw.2) cws →
  (∀ cw w, cw ∈ cws → w ∈ cw.2 → handled a' (pa_key w.1)) ∧ ∀ k, handled a k → handled a' k.
Proof.
  revert a s. induction cws as [|cw cws IH]; intros a s; cbn [foldS]; [intros [= <- <-] _; split; [by intros cw w ?%not_elem_of_nil|done]|].
  intros (a1 & s1 & H1 & H2)%SE_bind_Ok [Hw Hws]%Forall_cons. destruct (apply_cell_handled _ _ _ _ _ _ H1 Hw) as [A1 A2]. destruct (IH _ _ H2 Hws) as [B1 B2].
  split; [|by auto]. intros x w [->|Hx]%elem_of_cons Hin; eauto.
Qed.
Lemma apply_spills_noted d sps a a' :
  foldM (apply_spill d) a sps = Ok a' →
  (∀ sp, sp ∈ sps → 0 < sp_shortage sp → pa_key (sp_env sp) ∈ noted a') ∧ ∀ k, k ∈ noted a → k ∈ noted a'.
Proof.
  revert a. induction sps as [|sp sps IH]; intros a; cbn [foldM]; [intros [= <-]; split; [by intros sp ?%not_elem_of_nil|done]|].
  intros (a1 & H1 & H2)%Res_bind_Ok. destruct (IH _ H2) as [B1 B2]. unfold apply_spill in H1.
  destruct (walk_rows _ _ _ _) as [[rem cost] slices] eqn:Ew. destruct (Z.ltb_spec 0 rem) as [|Hrem]; [done|]. injection H1 as <-.
  rewrite noted_issue in B2. split.
  - intros x [->|Hx]%elem_of_cons Hpos; [|by apply B1]. apply B2, noted_slices. left. split; [done|]. intros ->. apply walk_rows_none in Ew as [_ ->]; [lia|done].
  - intros k Hk. apply B2, noted_slices. by right.
Qed.
Lemma apply_durables_noted d ws a a' :
  foldM (apply_durable d) a ws = Ok a' → Forall (λ w : Work, 0 < pa_qty w.1) ws →
  (∀ w, w ∈ ws → pa_key w.1 ∈ noted a') ∧ ∀ k, k ∈ noted a → k ∈ noted a'.
Proof.
  revert a. induction ws as [|w ws IH]; intros a; cbn [foldM]; [intros [= <-] _; split; [by intros w ?%not_elem_of_nil|done]|].
  intros (a1 & H1 & H2)%Res_bind_Ok [Hw Hws]%Forall_cons. destruct (IH _ H2 Hws) as [B1 B2].
  assert (pa_key w.1 ∈ noted a1 ∧ ∀ k, k ∈ noted a → k ∈ noted a1) as [A1 A2].
  { unfold apply_durable in H1. destruct (pa_kind w.1).
    - injection H1 as <-. split; [apply noted_receipt; by left|]. intros k Hk. apply noted_receipt. by right.
    - destruct (walk_rows _ _ _ _) as [[rem cost] slices] eqn:Ew. destruct (Z.ltb_spec 0 rem) as [|Hrem]; [done|]. injection H1 as <-. rewrite noted_issue. split.
      + apply noted_slices. left. split; [done|]. intros ->. apply walk_rows_none in Ew as [_ ->]; [lia|done].
      + intros k Hk. apply noted_slices. by right. }
  split; [|by auto]. intros x [->|Hx]%elem_of_cons; auto.
Qed.

(** * The postings *)
(** UNIQUE (idempotency_key). *)
Definition keys_unique (d : FifoDb) : Prop :=
  ∀ i j a b, posting_lines d !! i = Some a → posting_lines d !! j = Some b → pl_key a = pl_key b → i = j.
Section replay.
Context {PT : PgText}.
(** A posting numbered [id] whose key reads [k]. *)
Definition posted (d : FifoDb) (k : string) (id : Z) : Prop := ∃ pl, posting_lines d !! id = Some pl ∧ uuid_out (pl_key pl) = k.
Definition keeps_postings (s s' : Session) : Prop := posting_lines (ss_db s) ⊆ posting_lines (ss_db s').
Lemma posted_mono d d' k id : posting_lines d ⊆ posting_lines d' → posted d k id → posted d' k id.
Proof. intros H (pl & Hp & Hk). exists pl. split; [by eapply lookup_weaken|done]. Qed.
Lemma add_posting_posted ids row s ids' s' :
  add_posting ids row s = (Ok ids', s') →
  keeps_postings s s' ∧ ∀ k id, ids' !! k = Some id → ids !! k = Some id ∨ posted (ss_db s') k id.
Proof.
  unfold add_posting. intros H. inv_run. match goal with H : statement _ _ = _ |- _ => apply statement_Ok in H as (d & Hd & ->) end.
  unfold insert_posting in Hd. destruct (_ || _); [done|]. destruct (_ || _); [done|].
  destruct (bool_decide (is_Some _)) eqn:En; [done|]. apply bool_decide_eq_false, eq_None_not_Some in En. cbn [orb] in Hd. destruct (bool_decide _); [done|].
  injection Hd as <-. split; [by apply insert_subseteq|]. intros k id [[<- <-]|[_ Hid]]%lookup_insert_Some; [|by left].
  right. eexists. split; [apply lookup_insert_eq|done].
Qed.
Lemma add_postings_posted rows ids s ids' s' :
  foldS add_posting ids rows s = (Ok ids', s') →
  keeps_postings s s' ∧ ∀ k id, ids' !! k = Some id → ids !! k = Some id ∨ posted (ss_db s') k id.
Proof.
  revert ids s. induction rows as [|r rows IH]; intros ids s; cbn [foldS]; [intros [= <- <-]; split; [unfold keeps_postings; reflexivity|by left]|].
  intros (ids1 & s1 & H1 & H2)%SE_bind_Ok. destruct (add_posting_posted _ _ _ _ _ H1) as [K1 P1]. destruct (IH _ _ H2) as [K2 P2].
  split; [unfold keeps_postings in *; by etrans|]. intros k id Hk. destruct (P2 k id Hk) as [Hk1|]; [|by right]. destruct (P1 k id Hk1) as [|Hp]; [by left|right]. by eapply posted_mono.
Qed.
(** Statements on the other tables. *)
Definition postings_alone {A} (c : FM A) : Prop := ∀ s, posting_lines (ss_db (c s).2) = posting_lines (ss_db s).
Lemma alone_bind {A B} (c : FM A) (f : A → FM B) : postings_alone c → (∀ a, postings_alone (f a)) → postings_alone (c ≫= f).
Proof. intros Hc Hf s. unfold mbind, SE_bind. specialize (Hc s). destruct (c s) as [[a|e] s1]; [|done]. cbn in *. by rewrite Hf. Qed.
Lemma alone_iterM {A} (f : A → FM unit) l : (∀ a, postings_alone (f a)) → postings_alone (iterM f l).
Proof. intros H. induction l as [|a l IH]; [by intros s|]. by apply alone_bind. Qed.
Lemma alone_statement f : (∀ d d', f d = Ok d' → posting_lines d' = posting_lines d) → postings_alone (statement f).
Proof. intros H s. unfold statement, mbind, SE_bind, gets, lift, modify. destruct (f (ss_db s)) eqn:E; [|done]. cbn. by apply H. Qed.
Lemma add_layer_alone row : postings_alone (add_layer row).
Proof.
  unfold add_layer. apply alone_bind; [by intros s|]. intros date. apply alone_statement. intros d d' H%insert_layer_Ok. by destruct H as [_ ->].
Qed.
Lemma add_depletion_alone row : postings_alone (add_depletion row).
Proof.
  destruct row as [[[[? ?] ?] ?] ?]. unfold add_depletion. apply alone_bind; [by intros ?|]. intros _. apply alone_bind; [by intros ?|]. intros id.
  apply alone_statement. intros d d' H%insert_depletion_Ok. by destruct H as (_ & _ & ->).
Qed.
Lemma mapR_elem {A B} (f : A → Res FifoError B) l l' a : mapR f l = Ok l' → a ∈ l → ∃ b, f a = Ok b.
Proof.
  revert l'. induction l as [|x l IH]; intros l'; cbn [mapR]; [by intros _ ?%not_elem_of_nil|].
  intros (b & Hb & (bs & H1 & [= <-])%Res_bind_Ok)%Res_bind_Ok [->|Ha]%elem_of_cons; [by exists b|by eapply IH].
Qed.
(** When the rows of a batch are written, every noted key has its posting. *)
Lemma write_rows_posted a s ids s' :
  write_rows a s = (Ok ids, s') →
  keeps_postings s s' ∧ ∀ k, k ∈ noted a → ∃ id, ids !! k = Some id ∧ posted (ss_db s') k id.
Proof.
  intros H. unfold write_rows in H. apply SE_bind_Ok in H as (d0 & s0 & [= <- <-] & H).
  apply SE_bind_Ok in H as (postings & s0 & Hpost & H). injection Hpost as Hpost <-.
  apply SE_bind_Ok in H as (ids' & s1 & (K1 & P1)%add_postings_posted & H).
  apply SE_bind_Ok in H as (layers & s2 & Hlay & H). injection Hlay as Hlay <-.
  apply SE_bind_Ok in H as ([] & s2 & H2 & H). pose proof (alone_iterM add_layer layers add_layer_alone s1) as E2. rewrite H2 in E2.
  apply SE_bind_Ok in H as (depls & s3 & Hdep & H). injection Hdep as Hdep <-.
  apply SE_bind_Ok in H as ([] & s3 & H3 & H). pose proof (alone_iterM add_depletion depls add_depletion_alone s2) as E3. rewrite H3 in E3.
  apply SE_bind_Ok in H as ([] & s4 & Hupd & [= <- <-]). apply statement_Ok in Hupd as (d4 & Hd4 & ->). unfold update_layers in Hd4.
  apply Res_bind_Ok in Hd4 as (m & _ & [= <-]). cbn in E2, E3.
  assert (posting_lines (ss_db (set_db (set_layers m (ss_db s3)) s3)) = posting_lines (ss_db s1)) as Eq by (cbn; congruence).
  split; [unfold keeps_postings; by rewrite Eq|]. intros k Hk.
  assert (∃ id, ids' !! k = Some id) as [id Hid].
  { apply elem_of_app in Hk as [Hk|Hk]; apply list_elem_of_fmap in Hk as (x & -> & Hx).
    - destruct (mapR_elem _ _ _ _ Hlay Hx) as (y & (id & Hid & _)%Res_bind_Ok). exists id. by apply ok_or_Ok in Hid.
    - destruct (mapR_elem _ _ _ _ Hdep Hx) as (y & (id & Hid & _)%Res_bind_Ok). exists id. by apply ok_or_Ok in Hid. }
  exists id. split; [done|]. destruct (P1 k id Hid) as [Hx|Hp]; [by rewrite lookup_empty in Hx|]. eapply posted_mono; [|exact Hp]. by rewrite Eq.
Qed.

(** * The replay lookup *)
Hypothesis canonical : ∀ u, uuid_in (uuid_out u) = Some u.
Lemma uuid_out_inj u v : uuid_out u = uuid_out v → u = v.
Proof. intros H. pose proof (canonical u) as Hu. rewrite H, canonical in Hu. by injection Hu. Qed.
Lemma mapR_casts keys us k u : mapR uuid_cast keys = Ok us → k ∈ keys → uuid_in k = Some u → u ∈ us.
Proof.
  revert us. induction keys as [|x keys IH]; intros us; cbn [mapR]; [by intros _ ?%not_elem_of_nil|].
  intros (b & Hb & (bs & H1 & [= <-])%Res_bind_Ok)%Res_bind_Ok [->|Hk]%elem_of_cons Hu; [|right; by eapply IH].
  apply ok_or_Ok in Hb. rewrite Hb in Hu. injection Hu as ->. by left.
Qed.
Lemma select_replays_in keys d m k id : select_replays keys d = Ok m → m !! k = Some id → posted d k id.
Proof.
  unfold select_replays. intros (us & _ & [= <-])%Res_bind_Ok H%elem_of_list_to_map_2. apply list_elem_of_fmap in H as ([i pl] & [= -> ->] & H).
  rewrite list_elem_of_In, filter_In, <-list_elem_of_In, elem_of_map_to_list in H. exists pl. by destruct H.
Qed.
(** A key of the batch that has a posting is a replay. *)
Lemma select_replays_posted keys d m k id :
  select_replays keys d = Ok m → keys_unique d → k ∈ keys → posted d k id → m !! k = Some id.
Proof.
  unfold select_replays. intros (us & Hus & [= <-])%Res_bind_Ok Huniq Hk (pl & Hpl & <-). apply elem_of_list_to_map_1.
  - rewrite <-list_fmap_compose. apply NoDup_fmap_2_strong; [|apply NoDup_ListNoDup, List.NoDup_filter, NoDup_ListNoDup, NoDup_map_to_list].
    intros [i a] [j b] Ha Hb E%uuid_out_inj. rewrite list_elem_of_In, filter_In, <-list_elem_of_In, elem_of_map_to_list in Ha, Hb. cbn in *.
    assert (i = j) as -> by (by eapply (Huniq i j a b); [apply Ha|apply Hb|]). destruct Ha, Hb. congruence.
  - refine (list_elem_of_fmap_2 (λ il : Z * PostingLine, (uuid_out (pl_key il.2), il.1)) _ (id, pl) _).
    rewrite list_elem_of_In, filter_In, <-list_elem_of_In, elem_of_map_to_list. split; [done|]. apply bool_decide_eq_true. cbn. by eapply mapR_casts.
Qed.

(** * Running a batch again *)
Variable hash_order : gmap Z (Z * Z) → list (Z * (Z * Z)).
Hypothesis hash_perm : ∀ m, hash_order m ≡ₚ map_to_list m.
Lemma number_receipts_has next fresh p : p ∈ fresh → ∃ w, w ∈ number_receipts next fresh ∧ w.1 = p.
Proof.
  revert next. induction fresh as [|q fresh IH]; intros next; cbn [number_receipts]; [by intros ?%not_elem_of_nil|].
  intros [->|Hp]%elem_of_cons; destruct (pa_kind q).
  - exists (q, Some next). split; [by left|done].
  - exists (q, None). split; [by left|done].
  - destruct (IH (next + 1) Hp) as (w & Hw & E). exists w. split; [by right|done].
  - destruct (IH next Hp) as (w & Hw & E). exists w. split; [by right|done].
Qed.
Lemma work_has_cell m works w cell :
  w ∈ works → cell_of_work m w = Some cell → ∃ cw, cw ∈ cells_to_envelopes m works ∧ w ∈ cw.2.
Proof.
  intros Hw Hc. eexists. split.
  - apply list_elem_of_fmap_2. rewrite merge_sort_Permutation. apply elem_of_remove_dups, list_elem_of_omap. by exists w.
  - cbn. rewrite list_elem_of_In, filter_In, <-list_elem_of_In. split; [done|]. by apply bool_decide_eq_true.
Qed.
(** A batch that succeeded has a posting for each of its envelopes. *)
Lemma batch_posted shared spi envs s rows s' arr parsed replays :
  fifo_apply_batch_maximal hash_order shared spi envs s = (Ok rows, s') → envs = Some arr → parse_all 0 arr = Ok parsed →
  select_replays (pa_key <$> parsed) (ss_db s) = Ok replays →
  posting_lines (ss_db s) ⊆ posting_lines (ss_db s') ∧
  ∃ ids, rows = batch_row replays ids <$> parsed ∧
         ∀ p, p ∈ parsed → replays !! pa_key p = None → ∃ id, ids !! pa_key p = Some id ∧ posted (ss_db s') (pa_key p) id.
Proof.
  intros H -> Hparse Hrep. unfold fifo_apply_batch_maximal in H. unfold mbind, SE_bind at 1, lift at 1 in H. cbn [ok_or] in H.
  unfold SE_bind at 1, lift at 1 in H. rewrite Hparse in H. unfold SE_bind at 1, gets at 1 in H. unfold SE_bind at 1, lift at 1 in H. rewrite Hrep in H.
  set (fresh := List.filter _ parsed) in H. apply SE_bind_Ok in H as (a0 & s0 & [= <- <-] & H).
  destruct (find_cells fresh (ss_arena s)) as [m arena]. cbn [fst snd] in H. apply SE_bind_Ok in H as ([] & s0 & [= <-] & H).
  unfold apply_fresh in H. apply SE_bind_Ok in H as (a0 & s0 & [= <- <-] & H).
  apply SE_bind_Ok in H as (next & s0 & [= <- <-] & H). apply SE_bind_Ok in H as ([] & s0 & [= <-] & H).
  set (works := number_receipts _ fresh) in H. apply SE_bind_Ok in H as ([] & s0 & [= <-] & H).
  apply SE_bind_Ok in H as (a & s1 & Hcells & H). apply SE_bind_Ok in H as (a1 & s2 & Hspill & H). injection Hspill as Hspill <-.
  apply SE_bind_Ok in H as (a2 & s2 & Hdur & H). injection Hdur as Hdur <-. apply SE_bind_Ok in H as (ids & s2 & Hw & H).
  apply SE_bind_Ok in H as ([] & s3 & [= <-] & [= <- <-]). apply write_rows_posted in Hw as [Hkeep Hposted].
  apply apply_cells_db in Hcells as Hdb. unfold keeps_postings in Hkeep. rewrite Hdb in Hkeep. split; [exact Hkeep|]. exists ids. split; [done|].
  assert (∀ w, w ∈ works → w.1 ∈ fresh ∧ 0 < pa_qty w.1) as Hpos.
  { intros w Hin. apply number_receipts_in in Hin. split; [done|]. unfold fresh in Hin. rewrite list_elem_of_In, filter_In, <-list_elem_of_In in Hin.
    pose proof (parse_all_ok _ _ _ Hparse) as Hall. rewrite Forall_forall in Hall. apply Hall, Hin. }
  destruct (apply_cells_handled _ _ _ _ _ _ Hcells) as [Hcov _].
  { apply Forall_forall. intros cw Hcw. apply Forall_forall. intros w Hin. apply Hpos. by eapply cells_to_envelopes_in. }
  destruct (apply_spills_noted _ _ _ _ Hspill) as [Hsp Hn1].
  destruct (apply_durables_noted _ _ _ _ Hdur) as [Hdu Hn2].
  { apply Forall_forall. intros w Hin. apply Hpos. by eapply durable_only_in. }
  intros p Hp Hnone. apply Hposted. assert (p ∈ fresh) as Hf.
  { unfold fresh. rewrite list_elem_of_In, filter_In, <-list_elem_of_In. split; [done|]. by apply bool_decide_eq_true. }
  destruct (number_receipts_has _ _ _ Hf : ∃ w, w ∈ works ∧ w.1 = p) as (w & Hw & <-). destruct (cell_of_work m w) as [cell|] eqn:Ec.
  - destruct (work_has_cell _ _ _ _ Hw Ec) as (cw & Hcw & Hin). apply Hn2. destruct (Hcov cw w Hcw Hin) as [Hk|(sp & Hsps & Hpos' & <-)]; [by apply Hn1|by apply Hsp].
  - apply Hdu. unfold durable_only. rewrite list_elem_of_In, filter_In, <-list_elem_of_In. split; [done|]. by apply bool_decide_eq_true.
Qed.
(** With nothing new a batch only looks. *)
Lemma update_nothing layers : update_remaining ∅ layers = Ok layers.
Proof.
  unfold update_remaining. cbn. f_equal. apply map_eq. intros L. rewrite map_lookup_imap. destruct (layers !! L); [|done]. cbn. unfold drained. by rewrite lookup_empty.
Qed.
Lemma apply_nothing shared spi parsed replays d s :
  apply_fresh hash_order shared spi parsed [] replays ∅ d s = (Ok (batch_row replays ∅ <$> parsed), set_frames (fifo_ensure_top_frame (ss_frames s)) s).
Proof.
  assert (hash_order ∅ = []) as Eh by (apply Permutation_nil_r; by rewrite hash_perm).
  assert (set_seqs (bump_layer (count_receipts []) (ss_seqs s)) s = s) as Es.
  { destruct s as [d0 [q1 q2 q3] a f p]. unfold set_seqs, bump_layer. cbn. by rewrite Z.add_0_r. }
  unfold apply_fresh, mbind, SE_bind, gets, modify, lift, stage_balances. rewrite Es.
  change (cells_to_envelopes ∅ _) with (@nil (Z * list Work)). change (durable_only ∅ _) with (@nil Work). cbn [foldS foldM ac_spills no_acc mret SE_ret].
  unfold write_rows, statement, mbind, SE_bind, gets, modify, lift, update_layers. cbn [mapR foldS ac_postings ac_layers ac_depletions ac_drain ac_balances no_acc iterM mret SE_ret].
  rewrite update_nothing. cbn. rewrite Eh. by destruct s as [[ac po la de] q a f p].
Qed.
Definition as_replay (r : BatchRow) : BatchRow :=
  {| br_envelope_idx := br_envelope_idx r; br_status := "idempotent_replay"; br_posting_line_id := br_posting_line_id r |}.
(** C9: a batch is idempotent.  Once it succeeded, running the same envelopes again, in any
    session that sees its postings, answers every envelope with [idempotent_replay] and the
    number of the posting of the first run, and changes no table, sequence, cell or staged
    balance. *)
Theorem fifo_batch_idempotent (shared shared2 : Shared) (spi spi2 : bool) (envs : option (list (option FifoJson))) (s s' s2 : Session) (rows : list BatchRow) :
  fifo_apply_batch_maximal hash_order shared spi envs s = (Ok rows, s') →
  posting_lines (ss_db s') ⊆ posting_lines (ss_db s2) → keys_unique (ss_db s2) →
  fifo_apply_batch_maximal hash_order shared2 spi2 envs s2 = (Ok (as_replay <$> rows), set_frames (fifo_ensure_top_frame (ss_frames s2)) s2).
Proof.
  intros H Hsub Huniq. destruct envs as [arr|]; [|done]. destruct (parse_all 0 arr) as [parsed|e] eqn:Hparse.
  2: { unfold fifo_apply_batch_maximal, mbind, SE_bind, lift in H. cbn in H. by rewrite Hparse in H. }
  destruct (select_replays (pa_key <$> parsed) (ss_db s)) as [replays|e] eqn:Hrep.
  2: { unfold fifo_apply_batch_maximal, mbind, SE_bind, lift, gets in H. cbn in H. by rewrite Hparse, Hrep in H. }
  destruct (batch_posted _ _ _ _ _ _ _ _ _ H eq_refl Hparse Hrep) as (Hkeep & ids & -> & Hposted).
  assert (∃ replays2, select_replays (pa_key <$> parsed) (ss_db s2) = Ok replays2) as [replays2 Hrep2].
  { unfold select_replays in *. apply Res_bind_Ok in Hrep as (us & -> & _). by eexists. }
  assert (∀ p, p ∈ parsed → ∃ id, replays2 !! pa_key p = Some id ∧ br_posting_line_id (batch_row replays ids p) = Some id) as Hall.
  { intros p Hp. unfold batch_row. cbn. destruct (replays !! pa_key p) as [id|] eqn:E.
    - exists id. split; [|done]. eapply select_replays_posted; [done|done|by apply list_elem_of_fmap_2|].
      apply (posted_mono (ss_db s)); [by etrans|]. exact (select_replays_in _ _ _ _ _ Hrep E).
    - destruct (Hposted p Hp E) as (id & Hid & Hpo). exists id. split; [|done]. eapply select_replays_posted; [done|done|by apply list_elem_of_fmap_2|].
      by eapply posted_mono. }
  unfold fifo_apply_batch_maximal, mbind, SE_bind at 1, lift at 1. cbn [ok_or]. unfold SE_bind at 1, lift at 1. rewrite Hparse.
  unfold SE_bind at 1, gets at 1. unfold SE_bind at 1, lift at 1. rewrite Hrep2.
  assert (List.filter (λ p, bool_decide (replays2 !! pa_key p = None)) parsed = []) as ->.
  { destruct (List.filter _ parsed) as [|p l] eqn:E; [done|]. assert (p ∈ p :: l) as Hp by (by left). rewrite <-E, list_elem_of_In, filter_In, <-list_elem_of_In in Hp.
    destruct Hp as [Hp Hx]. apply bool_decide_eq_true in Hx. destruct (Hall p Hp) as (id & Hid & _). congruence. }
  unfold SE_bind, gets, modify. change (find_cells [] ?a) with (∅ : gmap Z Z, a). cbn [fst snd]. rewrite apply_nothing. cbn [set_arena ss_frames].
  f_equal. f_equal. rewrite <-list_fmap_compose. apply list_fmap_ext. intros k p Hk%list_elem_of_lookup_2.
  destruct (Hall p Hk) as (id & Hid & E). unfold compose, as_replay. rewrite E. unfold batch_row. rewrite Hid. cbn. done.
Qed.
End replay.
