(* ===== verification/ExtFifoDispatch.v ===== *)
(** The FIFO dispatcher that prices receipts and issues from the durable layers
    (ledger-extension, lib.rs, [ledger_dispatch_fifo_batch]).  The pools' layers are read
    once; the batch works on its copy, where layers it receives stand behind them under
    negative sentinels.  The SQL that writes the rows it returns is not part of it.  Its
    greedy walk is taking from a queue of layers. *)
From stdpp Require Import functions.
From S2P Require Import Prelude ExtTable ExtBalance ExtDispatch ExtRing ExtShadow ExtFifoBatch.

(** * Layers of a batch *)
Record LayerRec := { lr_sentinel : option Z; lr_layer_id : option Z; lr_qty_remaining : Z; lr_unit_cost : Z }.
Record DeplRec := { dr_sentinel : option Z; dr_layer_id : option Z; dr_qty : Z; dr_cost : Z }.
Definition lr_take (take : Z) (l : LayerRec) : LayerRec :=
  {| lr_sentinel := lr_sentinel l; lr_layer_id := lr_layer_id l; lr_qty_remaining := lr_qty_remaining l - take; lr_unit_cost := lr_unit_cost l |}.
Definition depl_of (take : Z) (l : LayerRec) : DeplRec :=
  {| dr_sentinel := lr_sentinel l; dr_layer_id := lr_layer_id l; dr_qty := take; dr_cost := saturating_mul take (lr_unit_cost l) |}.
(** The greedy walk of an issue: the layers after it, the depletions, what is still
    missing and the cost. *)
Fixpoint walk_recs (layers : list LayerRec) (remaining total_cost : Z) : list LayerRec * list DeplRec * Z * Z :=
  match layers with
  | [] => ([], [], remaining, total_cost)
  | l :: rest =>
      if remaining =? 0 then (layers, [], remaining, total_cost)
      else if lr_qty_remaining l =? 0 then
        let '(rest, depls, remaining, total_cost) := walk_recs rest remaining total_cost in (l :: rest, depls, remaining, total_cost)
      else
        let take := Z.min remaining (lr_qty_remaining l) in
        let '(rest, depls, remaining, total_cost) := walk_recs rest (remaining - take) (saturating_add total_cost (saturating_mul take (lr_unit_cost l))) in
        (lr_take take l :: rest, depl_of take l :: depls, remaining, total_cost)
  end.
(** Pre-existing layers of the pools, in the order of the query. *)
Definition stored_rec (il : Z * CostLayer) : LayerRec :=
  {| lr_sentinel := None; lr_layer_id := Some il.1; lr_qty_remaining := cl_qty_remaining il.2; lr_unit_cost := cl_unit_cost il.2 |}.
Definition fetch_layers (d : FifoDb) (pools : list Z) : gmap Z (list LayerRec) :=
  foldl (λ m pid, match open_layers (λ _, true) pid d with [] => m | rows => <[pid := stored_rec <$> rows]> m end) ∅ pools.
Definition new_rec (sentinel qty unit_cost : Z) : LayerRec :=
  {| lr_sentinel := Some sentinel; lr_layer_id := None; lr_qty_remaining := qty; lr_unit_cost := unit_cost |}.
Definition recs_of (pools : gmap Z (list LayerRec)) (pid : Z) : list LayerRec := default [] (pools !! pid).
Definition next_sentinel (s : Z) : Z := as_i32 (s - 1).

(** * The dispatcher *)
Module FifoDispatch.
Inductive Kind := Transfer | FifoReceipt | FifoIssue.
Record Parsed := {
  pa_envelope_idx : Z; pa_kind : Kind; pa_debit : Z; pa_credit : Z; pa_amount : option Z; pa_qty : option Z; pa_unit_cost : option Z;
}.
Definition fifo_kind (idx : Z) (s : string) : Checked Kind :=
  if decide (s = "transfer"%string) then inr Transfer
  else if decide (s = "fifo_receipt"%string) then inr FifoReceipt
  else if decide (s = "fifo_issue"%string) then inr FifoIssue
  else inl (UnknownKind idx s).
Definition parse_fifo (idx : Z) (env : option EnvelopeJson) : Checked Parsed :=
  let? obj := require (NotAnObject idx) env in
  let? kind := fifo_kind idx (default "transfer"%string (ej_kind obj)) in
  let? debit := require (MissingKey idx "debit_account_id") (ej_debit obj) in
  let? credit := require (MissingKey idx "credit_account_id") (ej_credit obj) in
  let? _ := match kind with
            | Transfer => let? _ := require (MissingKey idx "amount") (ej_amount obj) in inr tt
            | FifoReceipt =>
                let? _ := positive_key (InvalidKey idx "qty") (ej_qty obj) in positive_key (InvalidKey idx "unit_cost") (ej_unit_cost obj)
            | FifoIssue => positive_key (InvalidKey idx "qty") (ej_qty obj)
            end in
  inr {| pa_envelope_idx := as_i32 (default idx (ej_envelope_idx obj)); pa_kind := kind; pa_debit := debit; pa_credit := credit;
         pa_amount := ej_amount obj; pa_qty := ej_qty obj; pa_unit_cost := ej_unit_cost obj |}.
Inductive Row :=
  | LegRow (envelope_idx : Z) (kind : Kind) (debit credit amount : Z) (qty unit_cost layer_sentinel : option Z)
  | DeplRow (envelope_idx : Z) (depl : DeplRec).
Definition issue_pools (parsed : list Parsed) : list Z :=
  remove_dups (omap (λ p, match pa_kind p with FifoIssue => Some (pa_credit p) | _ => None end) parsed).
(** One envelope: rows, legs, and the layers and the next sentinel after it. *)
Definition fifo_price (p : Parsed) (st : gmap Z (list LayerRec) * Z) : Checked (list Row * list Leg * (gmap Z (list LayerRec) * Z)) :=
  let '(pools, sentinel) := st in
  match pa_kind p with
  | Transfer =>
      let amt := default 0 (pa_amount p) in
      inr ([LegRow (pa_envelope_idx p) Transfer (pa_debit p) (pa_credit p) amt None None None],
           [(pa_debit p, amt, 0); (pa_credit p, neg amt, 0)], st)
  | FifoReceipt =>
      let qty := default 0 (pa_qty p) in
      let uc := default 0 (pa_unit_cost p) in
      let amt := saturating_mul qty uc in
      inr ([LegRow (pa_envelope_idx p) FifoReceipt (pa_debit p) (pa_credit p) amt (Some qty) (Some uc) (Some sentinel)],
           [(pa_debit p, amt, qty); (pa_credit p, neg amt, 0)],
           (<[pa_debit p := recs_of pools (pa_debit p) ++ [new_rec sentinel qty uc]]> pools, next_sentinel sentinel))
  | FifoIssue =>
      let qty := default 0 (pa_qty p) in
      let '(layers, depls, remaining, total_cost) := walk_recs (recs_of pools (pa_credit p)) qty 0 in
      if 0 <? remaining then inl (ShortBy (pa_envelope_idx p) remaining (pa_credit p))
      else inr (LegRow (pa_envelope_idx p) FifoIssue (pa_debit p) (pa_credit p) total_cost (Some qty) None None ::
                  (DeplRow (pa_envelope_idx p) <$> depls),
                [(pa_credit p, neg total_cost, neg qty); (pa_debit p, total_cost, 0)],
                (<[pa_credit p := layers]> pools, sentinel))
  end.
Fixpoint fifo_price_all (ps : list Parsed) (st : gmap Z (list LayerRec) * Z) : Checked (list Row * list Leg * (gmap Z (list LayerRec) * Z)) :=
  match ps with
  | [] => inr ([], [], st)
  | p :: ps =>
      let? x := fifo_price p st in
      let? y := fifo_price_all ps x.2 in
      inr (x.1.1 ++ y.1.1, x.1.2 ++ y.1.2, y.2)
  end.
Definition ledger_dispatch_fifo_batch (spi_ok : bool) (s : Shared) (d : FifoDb) (envelopes : option (list (option EnvelopeJson))) (stack : list Frame)
    : Checked (list Row * list Frame) :=
  let? arr := require NotAnArray envelopes in
  let? parsed := traverse parse_fifo 0 arr in
  let? x := fifo_price_all parsed (fetch_layers d (issue_pools parsed), -1) in
  inr (x.1.1, stage_legs spi_ok s x.1.2 stack).
End FifoDispatch.

(** * Against a queue *)
(** The name of a layer: its number, or the negative sentinel of a layer of the batch. *)
Definition rec_name (r : LayerRec) : Z := default (default 0 (lr_sentinel r)) (lr_layer_id r).
Definition depl_name (x : DeplRec) : Z := default (default 0 (dr_sentinel x)) (dr_layer_id x).
Definition rec_layer (r : LayerRec) : Layer := {| ly_qty := lr_qty_remaining r; ly_unit_cost := lr_unit_cost r; ly_layer_id := rec_name r |}.
(** The layers that have something left. *)
Definition live (recs : list LayerRec) : list Layer := rec_layer <$> List.filter (λ r, negb (lr_qty_remaining r =? 0)) recs.
Definition nonneg_recs : list LayerRec → Prop := Forall (λ r, 0 ≤ lr_qty_remaining r).
Definition same_depl (x : DeplRec) (s : ConsumedSlice) : Prop :=
  depl_name x = cs_layer_id s ∧ dr_qty x = cs_qty_consumed s ∧ dr_cost x = saturating_mul (cs_qty_consumed s) (cs_unit_cost s).
Definition cost_from (t : Z) (l : list ConsumedSlice) : Z :=
  foldl (λ t s, saturating_add t (saturating_mul (cs_qty_consumed s) (cs_unit_cost s))) t l.
Lemma live_cons r recs : live (r :: recs) = if lr_qty_remaining r =? 0 then live recs else rec_layer r :: live recs.
Proof. unfold live. cbn. by destruct (_ =? 0). Qed.
Lemma live_positive recs : nonneg_recs recs → positive (live recs).
Proof.
  induction recs as [|r recs IH]; intros H; [constructor|]. apply Forall_cons in H as [Hr H]. rewrite live_cons.
  destruct (Z.eqb_spec (lr_qty_remaining r) 0); [by apply IH|]. constructor; [cbn; lia|by apply IH].
Qed.
Lemma take_zero q : take_from q 0 = ([], 0, q).
Proof. by destruct q. Qed.
Lemma walk_recs_queue recs n t :
  nonneg_recs recs → 0 ≤ n →
  match walk_recs recs n t, take_from (live recs) n with
  | (recs', depls, rem, cost), (c, s, rest) =>
      live recs' = rest ∧ nonneg_recs recs' ∧ Forall2 same_depl depls c ∧ rem = s ∧ cost = cost_from t c
  end.
Proof.
  revert n t. induction recs as [|r recs IH]; intros n t Hnn Hn; [by cbn; split_and!; try done; constructor|].
  apply Forall_cons in Hnn as [Hr Hnn]. cbn [walk_recs]. destruct (Z.eqb_spec n 0) as [->|Hn0].
  { rewrite take_zero. split_and!; try done. by constructor. }
  destruct (Z.eqb_spec (lr_qty_remaining r) 0) as [E0|E0].
  { rewrite live_cons, E0. cbn [Z.eqb]. specialize (IH n t Hnn Hn). destruct (walk_recs recs n t) as [[[recs' ds] rem] cost].
    destruct (take_from (live recs) n) as [[c s] rest]. destruct IH as (H1 & H2 & H3 & H4 & H5). rewrite live_cons, E0. split_and!; try done. by constructor. }
  rewrite live_cons. destruct (Z.eqb_spec (lr_qty_remaining r) 0); [done|]. cbn [take_from]. cbn [rec_layer ly_qty].
  destruct (Z.leb_spec n 0); [lia|]. destruct (Z.ltb_spec n (lr_qty_remaining r)) as [Hlt|Hge].
  - rewrite Z.min_l, Z.sub_diag by lia. specialize (IH 0 (saturating_add t (saturating_mul n (lr_unit_cost r))) Hnn ltac:(lia)).
    destruct (walk_recs recs 0 _) as [[[recs' ds] rem] cost]. rewrite take_zero in IH. destruct IH as (H1 & H2 & H3 & -> & H5).
    rewrite live_cons. cbn [lr_take lr_qty_remaining]. destruct (Z.eqb_spec (lr_qty_remaining r - n) 0); [lia|]. apply Forall2_nil_inv_r in H3 as ->.
    split_and!; [by rewrite <-H1|constructor; [cbn; lia|done]|by repeat constructor|done|done].
  - rewrite Z.min_r by lia. specialize (IH (n - lr_qty_remaining r) (saturating_add t (saturating_mul (lr_qty_remaining r) (lr_unit_cost r))) Hnn ltac:(lia)).
    destruct (walk_recs recs (n - lr_qty_remaining r) _) as [[[recs' ds] rem] cost]. destruct (take_from (live recs) _) as [[c s] rest].
    destruct IH as (H1 & H2 & H3 & H4 & H5). rewrite live_cons. cbn [lr_take lr_qty_remaining]. rewrite Z.sub_diag. cbn [Z.eqb].
    split_and!; [done|constructor; [cbn; lia|done]|by constructor|done|done].
Qed.

(** * The dispatcher against queues *)
Module reference.
Import FifoDispatch.
(** The depletions of a batch on queues of layers: a receipt joins the end of its pool's
    queue, an issue takes from the front; nothing when a pool runs short. *)
Fixpoint depletions_of (ps : list Parsed) (Q : Z → list Layer) (sentinel : Z) : option (list (Z * ConsumedSlice)) :=
  match ps with
  | [] => Some []
  | p :: ps =>
      match pa_kind p with
      | Transfer => depletions_of ps Q sentinel
      | FifoReceipt =>
          let l := {| ly_qty := default 0 (pa_qty p); ly_unit_cost := default 0 (pa_unit_cost p); ly_layer_id := sentinel |} in
          depletions_of ps (<[pa_debit p := Q (pa_debit p) ++ [l]]> Q) (next_sentinel sentinel)
      | FifoIssue =>
          let '(c, short, rest) := take_from (Q (pa_credit p)) (default 0 (pa_qty p)) in
          if 0 <? short then None
          else more ← depletions_of ps (<[pa_credit p := rest]> Q) sentinel; Some (((λ s, (pa_envelope_idx p, s)) <$> c) ++ more)
      end
  end.
Definition depl_row (r : Row) : option (Z * DeplRec) := match r with DeplRow i x => Some (i, x) | LegRow _ _ _ _ _ _ _ _ => None end.
Definition same_row (r : Z * DeplRec) (s : Z * ConsumedSlice) : Prop := r.1 = s.1 ∧ same_depl r.2 s.2.
Lemma depl_rows i (depls : list DeplRec) : omap depl_row (DeplRow i <$> depls) = (λ x, (i, x)) <$> depls.
Proof. induction depls as [|x depls IH]; [done|]. cbn. by f_equal. Qed.
Definition envelope_ok (p : Parsed) : Prop :=
  match pa_kind p with
  | Transfer => True
  | FifoReceipt => 0 < default 0 (pa_qty p) ∧ 0 < default 0 (pa_unit_cost p)
  | FifoIssue => 0 < default 0 (pa_qty p)
  end.
Lemma parse_ok idx env p : parse_fifo idx env = inr p → envelope_ok p.
Proof.
  unfold parse_fifo, bindC, require, positive_key, envelope_ok. intros H. repeat case_match; simplify_eq; cbn; try done;
    repeat match goal with H : (_ <=? _) = false |- _ => apply Z.leb_gt in H end; cbn in *; lia.
Qed.
Lemma traverse_ok {A B} (f : Z → A → Checked B) (P : B → Prop) idx l l' :
  (∀ i a b, f i a = inr b → P b) → traverse f idx l = inr l' → Forall P l'.
Proof.
  intros Hf. revert idx l'. induction l as [|a l IH]; intros idx l'; cbn [traverse]; [intros [= <-]; constructor|]. unfold bindC.
  destruct (f idx a) as [e|b] eqn:E; [done|]. destruct (traverse f (idx + 1) l) as [e|bs] eqn:Et; [done|]. intros [= <-]. constructor; [by eapply Hf|by eapply IH].
Qed.
(** The pools of the batch as queues. *)
Definition queues (pools : gmap Z (list LayerRec)) : Z → list Layer := λ pid, live (recs_of pools pid).
Definition pools_nonneg (pools : gmap Z (list LayerRec)) : Prop := ∀ pid, nonneg_recs (recs_of pools pid).
Lemma recs_insert pools pid recs q : recs_of (<[pid := recs]> pools) q = if decide (pid = q) then recs else recs_of pools q.
Proof. unfold recs_of. destruct (decide (pid = q)) as [->|]; [by rewrite lookup_insert_eq|by rewrite lookup_insert_ne]. Qed.
(** Only the queues of pools that are issued from matter. *)
Lemma depletions_ext ps Q Q' s :
  (∀ p, p ∈ ps → pa_kind p = FifoIssue → Q (pa_credit p) = Q' (pa_credit p)) → depletions_of ps Q s = depletions_of ps Q' s.
Proof.
  revert Q Q' s. induction ps as [|p ps IH]; intros Q Q' s H; [done|]. cbn [depletions_of].
  assert (∀ q, q ∈ ps → pa_kind q = FifoIssue → Q (pa_credit q) = Q' (pa_credit q)) as Htl by (intros q Hq; apply H; by right).
  destruct (pa_kind p) eqn:Ek; [by apply IH|apply IH|].
  - intros q Hq Hk. destruct (decide (pa_credit q = pa_debit p)) as [E|]; [|by rewrite !fn_lookup_insert_ne by done; apply Htl].
    rewrite <-E, !fn_lookup_insert. by rewrite Htl.
  - rewrite (H p) by (by left || done). destruct (take_from _ _) as [[c sh] rest]. destruct (0 <? sh); [done|].
    rewrite (IH _ (<[pa_credit p := rest]> Q')); [done|]. intros q Hq Hk.
    destruct (decide (pa_credit q = pa_credit p)) as [E|]; [by rewrite E, !fn_lookup_insert|by rewrite !fn_lookup_insert_ne by done; apply Htl].
Qed.
Lemma price_all_queue ps pools sentinel :
  Forall envelope_ok ps → pools_nonneg pools →
  match fifo_price_all ps (pools, sentinel), depletions_of ps (queues pools) sentinel with
  | inr (rows, _, _), Some ds => Forall2 same_row (omap depl_row rows) ds
  | inl _, None => True
  | _, _ => False
  end.
Proof.
  revert pools sentinel. induction ps as [|p ps IH]; intros pools sentinel Hps Hnn; [by cbn|]. apply Forall_cons in Hps as [Hp Hps].
  cbn [fifo_price_all depletions_of]. unfold fifo_price, envelope_ok in *. destruct (pa_kind p); cbn [bindC].
  - specialize (IH pools sentinel Hps Hnn). cbn [snd]. destruct (fifo_price_all ps (pools, sentinel)) as [e|[[rows legs] st]], (depletions_of ps _ _); cbn; done.
  - set (pools' := <[pa_debit p := _]> pools). assert (pools_nonneg pools') as Hnn'.
    { intros pid. unfold pools'. rewrite recs_insert. case_decide; [|apply Hnn]. apply Forall_app. split; [apply Hnn|]. repeat constructor. cbn. lia. }
    specialize (IH pools' (next_sentinel sentinel) Hps Hnn'). rewrite (depletions_ext ps _ (queues pools')).
    2: { intros q _ _. generalize (pa_credit q) as i. intros i. unfold queues, pools'. destruct (decide (i = pa_debit p)) as [->|Hne]; [rewrite fn_lookup_insert|rewrite fn_lookup_insert_ne by done]; rewrite recs_insert.
         - rewrite decide_True by done. unfold live. rewrite List.filter_app, fmap_app. f_equal. cbn. destruct (Z.eqb_spec (default 0 (pa_qty p)) 0); [lia|done].
         - by rewrite decide_False by done. }
    cbn [snd]. destruct (fifo_price_all ps (pools', _)) as [e|[[rows legs] st]], (depletions_of ps _ _); cbn; done.
  - pose proof (walk_recs_queue (recs_of pools (pa_credit p)) (default 0 (pa_qty p)) 0 (Hnn _) ltac:(lia)) as Hw. unfold queues at 1.
    destruct (walk_recs _ _ _) as [[[recs' depls] rem] cost], (take_from _ _) as [[c sh] rest]. destruct Hw as (H1 & H2 & H3 & -> & _).
    destruct (0 <? sh); [done|]. cbn [bindC]. set (pools' := <[pa_credit p := recs']> pools).
    assert (pools_nonneg pools') as Hnn' by (intros pid; unfold pools'; rewrite recs_insert; case_decide; [done|apply Hnn]).
    specialize (IH pools' sentinel Hps Hnn'). rewrite (depletions_ext ps _ (queues pools')).
    2: { intros q _ _. generalize (pa_credit q) as i. intros i. unfold queues, pools'. destruct (decide (i = pa_credit p)) as [->|Hne]; [rewrite fn_lookup_insert|rewrite fn_lookup_insert_ne by done]; rewrite recs_insert.
         - by rewrite decide_True by done.
         - by rewrite decide_False by done. }
    cbn [snd]. destruct (fifo_price_all ps (pools', _)) as [e|[[rows legs] st]], (depletions_of ps _ _) as [ds|]; cbn [bindC mbind option_bind fst snd]; try done.
    cbn [app omap list_omap depl_row]. rewrite omap_app. apply Forall2_app; [|done]. rewrite depl_rows. apply Forall2_fmap. eapply Forall2_impl; [exact H3|]. intros x sl Hx. by split.
Qed.

(** The open layers of a pool as a queue. *)
Definition stock (d : FifoDb) (pid : Z) : list Layer :=
  (λ il, {| ly_qty := cl_qty_remaining il.2; ly_unit_cost := cl_unit_cost il.2; ly_layer_id := il.1 |}) <$> open_layers (λ _, true) pid d.
Lemma open_layers_positive keep pid d : Forall (λ il, 0 < cl_qty_remaining il.2) (open_layers keep pid d).
Proof.
  unfold open_layers. rewrite merge_sort_Permutation. apply Forall_forall. intros il Hil. rewrite list_elem_of_In, filter_In in Hil.
  destruct Hil as [_ [_ H%Z.ltb_lt]%andb_true_iff]. done.
Qed.
Lemma fetch_layers_of d pools pid : recs_of (fetch_layers d pools) pid = if decide (pid ∈ pools) then stored_rec <$> open_layers (λ _, true) pid d else [].
Proof.
  unfold fetch_layers. induction pools as [|q pools IH] using rev_ind; [done|]. rewrite foldl_app. cbn [foldl]. set (m := foldl _ _ pools) in *.
  assert (pid ∈ pools ++ [q] ↔ pid ∈ pools ∨ pid = q) as Hin by (by rewrite elem_of_app, list_elem_of_singleton). destruct (decide (pid = q)) as [->|Hne].
  - rewrite (decide_True (P := q ∈ pools ++ [q])) by (apply Hin; by right). destruct (open_layers _ q d) as [|il rows] eqn:E; [|by unfold recs_of; rewrite lookup_insert_eq].
    rewrite IH. by case_decide.
  - rewrite (decide_ext _ _ _ _ Hin). rewrite (decide_ext (pid ∈ pools ∨ pid = q) (pid ∈ pools)) by naive_solver. rewrite <-IH.
    destruct (open_layers _ q d); [done|]. unfold recs_of. by rewrite lookup_insert_ne.
Qed.
Lemma live_stored rows : Forall (λ il, 0 < cl_qty_remaining il.2) rows →
  live (stored_rec <$> rows) = (λ il, {| ly_qty := cl_qty_remaining il.2; ly_unit_cost := cl_unit_cost il.2; ly_layer_id := il.1 |}) <$> rows ∧
  nonneg_recs (stored_rec <$> rows).
Proof.
  induction rows as [|il rows IH]; intros H; [split; [done|constructor]|]. apply Forall_cons in H as [Hl H]. destruct (IH H) as [E1 E2]. cbn [fmap list_fmap].
  rewrite live_cons, E1. cbn [stored_rec lr_qty_remaining]. destruct (Z.eqb_spec (cl_qty_remaining il.2) 0); [lia|]. split; [done|]. constructor; [cbn; lia|done].
Qed.
Lemma fetch_nonneg d pools : pools_nonneg (fetch_layers d pools).
Proof. intros pid. rewrite fetch_layers_of. case_decide; [|constructor]. apply live_stored, open_layers_positive. Qed.
(** C22: the FIFO dispatcher accepts a batch exactly when queues of the pools' open layers,
    oldest first, with the batch's own receipts behind them, cover every issue in turn;
    the depletion rows it returns are then those the queues give, layer by layer, with
    their quantities and costs. *)
Theorem fifo_dispatch_is_queue (spi : bool) (s : Shared) (d : FifoDb) (arr : list (option EnvelopeJson)) (stack : list Frame) (parsed : list Parsed) :
  traverse parse_fifo 0 arr = inr parsed →
  match ledger_dispatch_fifo_batch spi s d (Some arr) stack, depletions_of parsed (stock d) (-1) with
  | inr (rows, _), Some ds => Forall2 same_row (omap depl_row rows) ds
  | inl _, None => True
  | _, _ => False
  end.
Proof.
  intros Hparse. unfold ledger_dispatch_fifo_batch. cbn [require bindC]. rewrite Hparse. cbn [bindC].
  pose proof (price_all_queue parsed (fetch_layers d (issue_pools parsed)) (-1) (traverse_ok _ _ _ _ _ parse_ok Hparse) (fetch_nonneg _ _)) as H.
  rewrite (depletions_ext parsed (stock d) (queues (fetch_layers d (issue_pools parsed)))).
  - destruct (fifo_price_all _ _) as [e|[[rows legs] st]]; [done|]. cbn [bindC fst snd]. done.
  - intros p Hp Hk. unfold queues. rewrite fetch_layers_of, decide_True.
    + symmetry. apply live_stored, open_layers_positive.
    + unfold issue_pools. apply elem_of_remove_dups, list_elem_of_omap. exists p. by rewrite Hk.
Qed.
End reference.
