(* ===== verification/ExtFifoInline.v ===== *)
(** The FIFO batch without shared layers (ledger-extension, lib.rs,
    [fifo_apply_batch_inline]): the layers are read from the durable table, and postings,
    layers, depletions and remainders are written by the batch itself.  Envelopes are
    parsed as in [fifo_apply_batch_maximal].  Layers that were there stay tied to their
    depletions; a layer of the batch itself keeps its full quantity whatever the batch took
    from it. *)
From S2P Require Import Prelude ExtTable ExtBalance ExtRing ExtShadow ExtDeferred ExtFifoBatch ExtFifoBooks ExtFifoTies ExtFifoRecon ExtFifoDispatch.

Record InlineAcc := {
  ia_pools : gmap Z (list LayerRec);
  ia_sentinel : Z;
  ia_postings : list (Parsed * Z * string);
  ia_layers : list (Parsed * Z);
  ia_depletions : list (string * DeplRec);
  ia_drain : gmap Z Z;
  ia_balances : gmap Z (Z * Z);
}.
(** Only layers that were there before the batch are to be lowered. *)
Definition drain_stored (m : gmap Z Z) (depl : DeplRec) : gmap Z Z :=
  match dr_layer_id depl with Some lid => add_drain m lid (dr_qty depl) | None => m end.
Definition inline_issue_pools (fresh : list Parsed) : list Z :=
  remove_dups (pa_credit <$> List.filter (λ p, bool_decide (pa_kind p = FifoIssue)) fresh).
(** Phase 5, one envelope. *)
Definition inline_step (d : FifoDb) (a : InlineAcc) (p : Parsed) : Res FifoError InlineAcc :=
  currency ← ok_or (accounts d !! pa_debit p) (NoCurrency (pa_envelope_idx p) (pa_debit p));
  match pa_kind p with
  | FifoReceipt =>
      let uc := default 0 (pa_unit_cost p) in
      let amt := saturating_mul (pa_qty p) uc in
      Ok {| ia_pools := <[pa_debit p := recs_of (ia_pools a) (pa_debit p) ++ [new_rec (ia_sentinel a) (pa_qty p) uc]]> (ia_pools a);
            ia_sentinel := next_sentinel (ia_sentinel a);
            ia_postings := ia_postings a ++ [(p, amt, currency)];
            ia_layers := ia_layers a ++ [(p, ia_sentinel a)];
            ia_depletions := ia_depletions a; ia_drain := ia_drain a;
            ia_balances := add_balance (pa_credit p) (- amt) 0 (add_balance (pa_debit p) amt (pa_qty p) (ia_balances a)) |}
  | FifoIssue =>
      let '(layers, depls, remaining, total_cost) := walk_recs (recs_of (ia_pools a) (pa_credit p)) (pa_qty p) 0 in
      if 0 <? remaining then Err (ShortDurable (pa_envelope_idx p) remaining (pa_credit p))
      else Ok {| ia_pools := <[pa_credit p := layers]> (ia_pools a);
                 ia_sentinel := ia_sentinel a;
                 ia_postings := ia_postings a ++ [(p, total_cost, currency)];
                 ia_layers := ia_layers a;
                 ia_depletions := ia_depletions a ++ ((λ x, (pa_key p, x)) <$> depls);
                 ia_drain := foldl drain_stored (ia_drain a) depls;
                 ia_balances := add_balance (pa_credit p) (- total_cost) (- pa_qty p) (add_balance (pa_debit p) total_cost 0 (ia_balances a)) |}
  end.
Definition inline_start (d : FifoDb) (fresh : list Parsed) : InlineAcc :=
  {| ia_pools := fetch_layers d (inline_issue_pools fresh); ia_sentinel := -1; ia_postings := []; ia_layers := []; ia_depletions := [];
     ia_drain := ∅; ia_balances := ∅ |}.

Section inline.
Context `{!PgText}.
(** Phase 7: a layer numbered from the sequence, under its sentinel. *)
Definition inline_layer (sentinels : gmap Z Z) (row : Parsed * Z * Z) : FM (gmap Z Z) :=
  _ ← modify (λ s, set_seqs (bump_layer 1 (ss_seqs s)) s);
  id ← gets (λ s, sq_layer (ss_seqs s));
  _ ← add_layer (row.1.1, id, row.2);
  mret (<[row.1.2 := id]> sentinels).
Definition depl_layer (sentinels : gmap Z Z) (x : string * DeplRec) : Res FifoError Z :=
  match dr_layer_id x.2, dr_sentinel x.2 with
  | Some lid, _ => Ok lid
  | None, Some s => ok_or (sentinels !! s) (Invalid s "depletion sentinel")
  | None, None => Err (Invalid 0 "depletion row")
  end.
Definition inline_write (a : InlineAcc) : FM (gmap string Z) :=
  ids ← foldS add_posting ∅ (ia_postings a);
  layers ← lift (mapR (λ pl, id ← posting_id ids (pa_key pl.1); Ok (pl, id)) (ia_layers a));
  sentinels ← foldS inline_layer ∅ layers;
  lids ← lift (mapR (λ x, lid ← depl_layer sentinels x; Ok (x, lid)) (ia_depletions a));
  depls ← lift (mapR (λ xl, id ← posting_id ids xl.1.1; Ok (xl.2, xl.1.1, dr_qty xl.1.2, dr_cost xl.1.2, id)) lids);
  _ ← iterM add_depletion depls;
  _ ← statement (update_layers (ia_drain a));
  mret ids.
Variable hash_order : gmap Z (Z * Z) → list (Z * (Z * Z)).
Variables (shared : Shared) (spi_ok : bool).
Definition fifo_apply_batch_inline (envelopes : option (list (option FifoJson))) : FM (list BatchRow) :=
  arr ← lift (ok_or envelopes NotArray);
  parsed ← lift (parse_all 0 arr);
  d ← gets ss_db;
  replays ← lift (select_replays (pa_key <$> parsed) d);
  let fresh := List.filter (λ p, bool_decide (replays !! pa_key p = None)) parsed in
  a ← lift (foldM (inline_step d) (inline_start d fresh) fresh);
  ids ← inline_write a;
  _ ← modify (λ s, set_pending (stage_balances hash_order shared spi_ok (ia_balances a) (ss_pending s)) s);
  mret (batch_row replays ids <$> parsed).
End inline.

(** * The walk, layer by layer *)
Definition rec_at (L : Z) (recs : list LayerRec) : Z := sumZ (λ r, if decide (lr_layer_id r = Some L) then lr_qty_remaining r else 0) recs.
Definition depl_at (L : Z) (ds : list DeplRec) : Z := sumZ (λ x, if decide (dr_layer_id x = Some L) then dr_qty x else 0) ds.
Lemma rec_at_cons L r recs : rec_at L (r :: recs) = (if decide (lr_layer_id r = Some L) then lr_qty_remaining r else 0) + rec_at L recs.
Proof. done. Qed.
Lemma depl_at_cons L x ds : depl_at L (x :: ds) = (if decide (dr_layer_id x = Some L) then dr_qty x else 0) + depl_at L ds.
Proof. done. Qed.
Lemma depl_at_app L ds ds' : depl_at L (ds ++ ds') = depl_at L ds + depl_at L ds'.
Proof. apply sumZ_app. Qed.
Lemma rec_at_nonneg L recs : nonneg_recs recs → 0 ≤ rec_at L recs.
Proof. intros H. apply sumZ_nonneg. intros r Hr. pose proof (proj1 (Forall_forall _ _) H r Hr) as Hq. cbn in Hq. case_decide; lia. Qed.
Lemma depl_at_nonneg L ds : Forall (λ x, 0 < dr_qty x) ds → 0 ≤ depl_at L ds.
Proof. intros H. apply sumZ_nonneg. intros y Hy. pose proof (proj1 (Forall_forall _ _) H y Hy) as Hq. cbn in Hq. case_decide; lia. Qed.
Lemma walk_recs_at recs n t recs' ds rem cost :
  nonneg_recs recs → 0 ≤ n → walk_recs recs n t = (recs', ds, rem, cost) →
  nonneg_recs recs' ∧ (∀ L, rec_at L recs = depl_at L ds + rec_at L recs') ∧
  Forall (λ x, 0 < dr_qty x ∧ dr_layer_id x ∈ lr_layer_id <$> recs) ds ∧ lr_layer_id <$> recs' = lr_layer_id <$> recs.
Proof.
  revert n t recs' ds rem cost. induction recs as [|r recs IH]; intros n t recs' ds rem cost Hnn Hn; cbn [walk_recs].
  { intros [= <- <- <- <-]. split_and!; [done| |constructor|done]. intros L. done. }
  destruct (Z.eqb_spec n 0) as [->|Hn0]; [intros [= <- <- <- <-]; split_and!; [done| |constructor|done]; intros L; unfold depl_at; rewrite sumZ_nil; lia|].
  apply Forall_cons in Hnn as [Hr Hnn]. assert (∀ l ds, Forall (λ x, 0 < dr_qty x ∧ dr_layer_id x ∈ lr_layer_id <$> recs) ds →
    Forall (λ x, 0 < dr_qty x ∧ dr_layer_id x ∈ l :: (lr_layer_id <$> recs)) ds) as Hmore.
  { intros l ds0 H. eapply Forall_impl; [exact H|]. intros x [? ?]. split; [done|]. by right. }
  destruct (Z.eqb_spec (lr_qty_remaining r) 0) as [E0|E0].
  - destruct (walk_recs recs n t) as [[[rs ds0] rem0] cost0] eqn:E. intros [= <- <- <- <-]. destruct (IH _ _ _ _ _ _ Hnn Hn E) as (H1 & H2 & H3 & H4).
    split_and!; [by constructor| |by apply Hmore|cbn; by rewrite H4]. intros L. rewrite !rec_at_cons, H2. lia.
  - destruct (walk_recs recs _ _) as [[[rs ds0] rem0] cost0] eqn:E. intros [= <- <- <- <-]. destruct (IH (n - Z.min n (lr_qty_remaining r)) _ _ _ _ _ Hnn ltac:(cbn in Hr; lia) E) as (H1 & H2 & H3 & H4).
    split_and!; [constructor; [cbn; lia|done]| |constructor; [split; [cbn; lia|by left]|by apply Hmore]|cbn; by rewrite H4].
    intros L. rewrite !rec_at_cons, depl_at_cons, H2. cbn. case_decide; lia.
Qed.

(** * The accumulators *)
Definition deps (a : InlineAcc) : list DeplRec := snd <$> ia_depletions a.
Record inline_ok (d : FifoDb) (a : InlineAcc) : Prop := {
  io_nonneg : ∀ pid, nonneg_recs (recs_of (ia_pools a) pid);
  io_home : ∀ pid L, Some L ∈ lr_layer_id <$> recs_of (ia_pools a) pid → ∃ row, cost_layers d !! L = Some row ∧ cl_pool row = pid;
  io_at : ∀ L row, cost_layers d !! L = Some row → rec_at L (recs_of (ia_pools a) (cl_pool row)) + depl_at L (deps a) ≤ cl_qty_remaining row;
  io_drain : ∀ L, default 0 (ia_drain a !! L) = depl_at L (deps a);
  io_pos : Forall (λ x, 0 < dr_qty x) (deps a);
  io_stored : ∀ L, Some L ∈ dr_layer_id <$> deps a → is_Some (cost_layers d !! L);
  io_layers : Forall (λ pl, parsed_ok pl.1 ∧ pa_kind pl.1 = FifoReceipt) (ia_layers a);
}.
Lemma drain_stored_at ds m L :
  Forall (λ x, 0 < dr_qty x) ds → 0 ≤ default 0 (m !! L) → default 0 (m !! L) + depl_at L ds ≤ i64_max →
  default 0 (foldl drain_stored m ds !! L) = default 0 (m !! L) + depl_at L ds.
Proof.
  revert m. induction ds as [|x ds IH]; intros m Hpos Hm Hmax; [unfold depl_at; rewrite sumZ_nil; cbn; lia|]. apply Forall_cons in Hpos as [Hx Hpos].
  rewrite depl_at_cons in Hmax |- *.
  pose proof (depl_at_nonneg L ds Hpos).
  cbn [foldl]. unfold drain_stored at 2. destruct (dr_layer_id x) as [lid|] eqn:El; [|case_decide; [done|]; by rewrite IH]. unfold add_drain.
  destruct (decide (lid = L)) as [->|Hne].
  - rewrite decide_True in Hmax |- * by done. assert (wadd (default 0 (m !! L)) (dr_qty x) = default 0 (m !! L) + dr_qty x) as E.
    { unfold wadd. apply wrap_i64_id. unfold in_i64, i64_min, i64_max in *. lia. }
    rewrite IH; rewrite ?lookup_insert_eq; cbn; rewrite ?E; lia || done.
  - rewrite decide_False in Hmax |- * by congruence. rewrite IH; rewrite ?lookup_insert_ne by done; lia || done.
Qed.
Lemma rec_at_app L recs recs' : rec_at L (recs ++ recs') = rec_at L recs + rec_at L recs'.
Proof. apply sumZ_app. Qed.
Lemma depl_at_notin L ds : Some L ∉ dr_layer_id <$> ds → depl_at L ds = 0.
Proof. intros H. apply sumZ_zeros. intros x Hx. rewrite decide_False; [done|]. intros E. apply H. rewrite <-E. by apply list_elem_of_fmap_2. Qed.
Lemma inline_start_ok d fresh : tables_ok d → inline_ok d (inline_start d fresh).
Proof.
  intros Ht. split; cbn [inline_start ia_pools ia_drain ia_depletions ia_layers].
  - apply reference.fetch_nonneg.
  - intros pid L HL. rewrite reference.fetch_layers_of in HL. case_decide; [|by apply not_elem_of_nil in HL].
    apply list_elem_of_fmap in HL as (r & E & Hr). apply list_elem_of_fmap in Hr as ([L' row] & -> & Hr). injection E as <-.
    apply open_layers_in in Hr as (Hrow & Hp & _). by exists row.
  - intros L row Hrow. change (depl_at L _) with 0. rewrite Z.add_0_r, reference.fetch_layers_of.
    destruct (tb_range _ Ht L row Hrow) as [_ Hr]. case_decide; [|unfold rec_at; rewrite sumZ_nil; lia].
    rewrite <-(open_layers_at d (cl_pool row) L row Hrow eq_refl) by lia. unfold rec_at, seed_rows. rewrite at_layer_fmap, at_layer_fmap, sumZ_fmap. unfold at_layer.
    apply Z.eq_le_incl, sumZ_ext. intros il _. cbn. destruct (decide (il.1 = L)) as [->|Hne]; [by rewrite decide_True|]. rewrite decide_False; [done|congruence].
  - intros L. by rewrite lookup_empty.
  - constructor.
  - intros L HL. by apply not_elem_of_nil in HL.
  - constructor.
Qed.
Lemma inline_receipt_ok d a p currency a' :
  inline_ok d a → parsed_ok p → pa_kind p = FifoReceipt → accounts d !! pa_debit p = Some currency → inline_step d a p = Ok a' → inline_ok d a'.
Proof.
  intros [H1 H2 H3 H4 H5 H6 H7] Hp Hk Hc. unfold inline_step. rewrite Hc, Hk. intros [= <-].
  set (recs := recs_of (ia_pools a) (pa_debit p) ++ _). split; cbn [ia_pools ia_drain ia_depletions ia_layers]; [| | |exact H4|exact H5|exact H6|].
  - intros pid. rewrite reference.recs_insert. case_decide; [|apply H1]. apply Forall_app. split; [apply H1|]. repeat constructor. cbn. destruct Hp. lia.
  - intros pid L. rewrite reference.recs_insert. case_decide as E; [subst pid|by apply H2]. unfold recs. rewrite fmap_app, elem_of_app. cbn. rewrite list_elem_of_singleton.
    intros [HL|HL]; [by apply H2|done].
  - intros L row Hrow. rewrite reference.recs_insert. specialize (H3 L row Hrow). case_decide as E; [|done]. rewrite <-E in H3. unfold recs.
    rewrite rec_at_app. change (rec_at L [_]) with 0. rewrite Z.add_0_r. exact H3.
  - apply Forall_app. split; [done|]. by apply Forall_singleton.
Qed.
Lemma inline_issue_ok d a p currency a' :
  tables_ok d → inline_ok d a → parsed_ok p → pa_kind p = FifoIssue → accounts d !! pa_debit p = Some currency → inline_step d a p = Ok a' → inline_ok d a'.
Proof.
  intros Ht [H1 H2 H3 H4 H5 H6 H7] Hp Hk Hc. unfold inline_step. rewrite Hc, Hk. cbn [ok_or mbind Res_bind].
  destruct (walk_recs _ _ _) as [[[recs' ds] rem] cost] eqn:Ew. destruct (0 <? rem); [done|]. intros [= <-].
  destruct (walk_recs_at _ (pa_qty p) _ _ _ _ _ (H1 (pa_credit p)) ltac:(destruct Hp; lia) Ew) as (A1 & A2 & A3 & A4).
  assert (Forall (λ x, 0 < dr_qty x) ds) as Hpos by (eapply Forall_impl; [exact A3|]; by intros x [? _]).
  assert (∀ L, Some L ∈ dr_layer_id <$> ds → ∃ row, cost_layers d !! L = Some row ∧ cl_pool row = pa_credit p) as Hds.
  { intros L HL. apply list_elem_of_fmap in HL as (x & E & Hx). rewrite Forall_forall in A3. destruct (A3 x Hx) as [_ Hin]. rewrite <-E in Hin. by apply H2. }
  match goal with |- inline_ok _ ?a' => assert (deps a' = deps a ++ ds) as Ed end.
  { unfold deps. cbn. rewrite fmap_app, <-list_fmap_compose. f_equal. rewrite <-(list_fmap_id ds) at 2. by apply list_fmap_ext. }
  assert (∀ L row, cost_layers d !! L = Some row →
    rec_at L (recs_of (<[pa_credit p:=recs']> (ia_pools a)) (cl_pool row)) + (depl_at L (deps a) + depl_at L ds) ≤ cl_qty_remaining row) as Hat.
  { intros L row Hrow. specialize (H3 L row Hrow). rewrite reference.recs_insert. case_decide as E; [rewrite <-E, A2 in H3; lia|].
    rewrite (depl_at_notin L ds); [lia|]. intros (row' & Hr & Hp')%Hds. congruence. }
  split; rewrite ?Ed; cbn [ia_pools ia_drain ia_depletions ia_layers]; [| | | | | |done].
  - intros pid. rewrite reference.recs_insert. by case_decide.
  - intros pid L. rewrite reference.recs_insert. case_decide as E; [subst pid; rewrite A4|]; apply H2.
  - intros L row Hrow. rewrite depl_at_app. by apply Hat.
  - intros L. rewrite depl_at_app, <-H4. pose proof (depl_at_nonneg L _ H5) as H0. apply drain_stored_at; [done|by rewrite H4|]. rewrite H4.
    destruct (cost_layers d !! L) as [row|] eqn:Er.
    + specialize (Hat L row Er). destruct (tb_range _ Ht L row Er) as [_ Hr].
      assert (0 ≤ rec_at L (recs_of (<[pa_credit p:=recs']> (ia_pools a)) (cl_pool row))) by (rewrite reference.recs_insert; case_decide; by apply rec_at_nonneg). lia.
    + rewrite !depl_at_notin; [done|intros (? & ? & _)%Hds; congruence|intros [? ?]%H6; congruence].
  - by apply Forall_app.
  - intros L. rewrite fmap_app, elem_of_app. intros [HL|(row & Hr & _)%Hds]; [by apply H6|by rewrite Hr].
Qed.
Lemma inline_steps_ok d fresh a a' :
  tables_ok d → inline_ok d a → Forall parsed_ok fresh → foldM (inline_step d) a fresh = Ok a' → inline_ok d a'.
Proof.
  intros Ht. revert a. induction fresh as [|p fresh IH]; intros a Ha Hf; cbn [foldM]; [by intros [= <-]|]. apply Forall_cons in Hf as [Hp Hf].
  intros (a1 & H1 & H2)%Res_bind_Ok. apply (IH a1); [|done|done]. pose proof H1 as H1'. unfold inline_step in H1'. apply Res_bind_Ok in H1' as (c & Hc%ok_or_Ok & _).
  destruct (pa_kind p) eqn:Ek; [by eapply inline_receipt_ok|by eapply inline_issue_ok].
Qed.

(** A layer of the batch is taken from only when its pool is both received into and
    issued from. *)
Definition apart (ps : list Parsed) : bool :=
  forallb (λ p, forallb (λ q, negb (bool_decide (pa_kind p = FifoIssue) && bool_decide (pa_kind q = FifoReceipt) && (pa_debit q =? pa_credit p))) ps) ps.
Lemma apart_pools ps p q : apart ps = true → p ∈ ps → q ∈ ps → pa_kind p = FifoIssue → pa_kind q = FifoReceipt → pa_debit q ≠ pa_credit p.
Proof.
  intros H Hp Hq Kp Kq E. unfold apart in H. rewrite forallb_forall in H. specialize (H p). rewrite <-list_elem_of_In in H. specialize (H Hp).
  rewrite forallb_forall in H. specialize (H q). rewrite <-list_elem_of_In in H. specialize (H Hq).
  rewrite !bool_decide_eq_true_2, E, Z.eqb_refl in H by done. done.
Qed.
Definition own_recs (ps : list Parsed) (a : InlineAcc) : Prop :=
  (∀ pid, None ∈ lr_layer_id <$> recs_of (ia_pools a) pid → ∃ q, q ∈ ps ∧ pa_kind q = FifoReceipt ∧ pa_debit q = pid) ∧ None ∉ dr_layer_id <$> deps a.
Lemma inline_steps_own d ps fresh a a' :
  apart ps = true → (∀ p, p ∈ fresh → p ∈ ps) → Forall parsed_ok fresh → (∀ pid, nonneg_recs (recs_of (ia_pools a) pid)) →
  own_recs ps a → foldM (inline_step d) a fresh = Ok a' → own_recs ps a'.
Proof.
  intros Hap. revert a. induction fresh as [|p fresh IH]; intros a Hin Hf Hnn [Ho Hd]; cbn [foldM]; [by intros [= <-]|]. apply Forall_cons in Hf as [Hp Hf].
  intros (a1 & H1 & H2)%Res_bind_Ok. assert (p ∈ ps) as Hps by (apply Hin; by left). unfold inline_step in H1. apply Res_bind_Ok in H1 as (c & _ & H1).
  refine (IH a1 (λ q Hq, Hin q (list_elem_of_further q p fresh Hq)) Hf _ _ H2); destruct (pa_kind p) eqn:Ek.
  1, 3: injection H1 as <-. 3, 4: destruct (walk_recs _ _ _) as [[[recs' ds] rem] cost] eqn:Ew; destruct (0 <? rem); [done|]; injection H1 as <-;
    destruct (walk_recs_at _ (pa_qty p) _ _ _ _ _ (Hnn (pa_credit p)) ltac:(destruct Hp; lia) Ew) as (A1 & _ & A3 & A4).
  - intros pid. cbn. rewrite reference.recs_insert. case_decide; [|apply Hnn]. apply Forall_app. split; [apply Hnn|]. repeat constructor. cbn. destruct Hp. lia.
  - split; [|exact Hd]. intros pid. cbn. rewrite reference.recs_insert. case_decide as E; [|apply Ho]. intros _. by exists p.
  - intros pid. cbn. rewrite reference.recs_insert. case_decide; [done|apply Hnn].
  - split.
    + intros pid. cbn. rewrite reference.recs_insert. case_decide as E; [subst pid; rewrite A4|]; apply Ho.
    + unfold deps. cbn. rewrite fmap_app, <-list_fmap_compose, fmap_app, elem_of_app. intros [Hx|Hx]; [by apply Hd|].
      apply list_elem_of_fmap in Hx as (y & E & Hy). apply list_elem_of_fmap in Hy as (x & -> & Hx). cbn in E. rewrite Forall_forall in A3.
      destruct (A3 x Hx) as [_ Hin']. rewrite <-E in Hin'. destruct (Ho _ Hin') as (q & Hq & Kq & Eq). by apply (apart_pools ps p q Hap).
Qed.

(** * The rows *)
Section rows.
Context {PT : PgText}.
Lemma inline_layers_Ok rows sents s sents' s' :
  foldS inline_layer sents rows s = (Ok sents', s') → Forall (λ r : Parsed * Z * Z, parsed_ok r.1.1 ∧ pa_kind r.1.1 = FifoReceipt) rows →
  depletions (ss_db s') = depletions (ss_db s) ∧ (∀ L lb, books_of (ss_db s) !! L = Some lb → books_of (ss_db s') !! L = Some lb) ∧
  (∀ L lb, books_of (ss_db s') !! L = Some lb →
     books_of (ss_db s) !! L = Some lb ∨ (books_of (ss_db s) !! L = None ∧ ∃ p, parsed_ok p ∧ pa_kind p = FifoReceipt ∧ lb = new_book p)) ∧
  (∀ k id, sents' !! k = Some id → sents !! k = Some id ∨ books_of (ss_db s) !! id = None).
Proof.
  revert sents s. induction rows as [|r rows IH]; intros sents s; cbn [foldS]; [intros [= <- <-] _; split_and!; auto|].
  intros (sents1 & s1 & H1 & H2)%SE_bind_Ok [[Hr1 Hr2] Hrs]%Forall_cons. unfold inline_layer in H1. apply SE_bind_Ok in H1 as ([] & s0 & [= <-] & H1).
  apply SE_bind_Ok in H1 as (id & s0 & [= <- <-] & H1). apply SE_bind_Ok in H1 as ([] & s0 & Hadd & [= <- <-]).
  apply add_layer_Ok in Hadd as (_ & D1 & N1 & B1). cbn [fst snd set_seqs ss_db ss_seqs] in *. set (id := sq_layer (ss_seqs s) + 1) in *.
  assert (books_of (ss_db s) !! id = None) as Hnone by (unfold books_of; by rewrite lookup_fmap, N1).
  destruct (IH _ _ H2 Hrs) as (D2 & I1 & I2 & I3). rewrite B1 in *. split_and!; [congruence| | |].
  - intros L lb HL. apply I1. rewrite lookup_insert_ne; [done|]. intros ->. congruence.
  - intros L lb HL. destruct (I2 L lb HL) as [HL1|[HL1 Hp]].
    + apply lookup_insert_Some in HL1 as [[<- <-]|[_ HL1]]; [right; split; [done|by exists r.1.1]|by left].
    + apply lookup_insert_None in HL1 as [HL1 _]. by right.
  - intros k i Hk. destruct (I3 k i Hk) as [Hk1|Hk1].
    + apply lookup_insert_Some in Hk1 as [[_ <-]|[_ Hk1]]; [by right|by left].
    + apply lookup_insert_None in Hk1 as [Hk1 _]. by right.
Qed.
Lemma add_depletions_named rows s s' :
  iterM add_depletion rows s = (Ok tt, s') → map_Forall (λ _ r, is_Some (cost_layers (ss_db s) !! dp_layer r)) (depletions (ss_db s)) →
  map_Forall (λ _ r, is_Some (cost_layers (ss_db s) !! dp_layer r)) (depletions (ss_db s')).
Proof.
  revert s. induction rows as [|r rows IH]; intros s; cbn [iterM]; [by intros [= <-]|]. intros ([] & s1 & H1 & H2)%SE_bind_Ok Hall.
  pose proof (add_depletion_Ok _ _ _ H1) as (_ & C1 & N1 & _). rewrite <-C1. apply (IH s1 H2). rewrite C1. clear IH H2 C1.
  destruct r as [[[[lid key] qty] cost] posting]. unfold add_depletion in H1. inv_run.
  match goal with H : statement _ _ = _ |- _ => apply statement_Ok in H as (d & Hd & ->) end.
  apply insert_depletion_Ok in Hd as (_ & Hl & ->). cbn in *. by apply map_Forall_insert_2.
Qed.
(** Where a depletion is recorded. *)
Lemma mapR_post ids (lids : list (string * DeplRec * Z)) depls :
  mapR (λ xl, id ← posting_id ids xl.1.1; Ok (xl.2, xl.1.1, dr_qty xl.1.2, dr_cost xl.1.2, id)) lids = Ok depls →
  depls.*1 = (λ xl : string * DeplRec * Z, (xl.2, xl.1.1, dr_qty xl.1.2, dr_cost xl.1.2)) <$> lids.
Proof.
  revert depls. induction lids as [|x lids IH]; intros depls; cbn [mapR]; [by intros [= <-]|].
  intros (b & (i & _ & [= <-])%Res_bind_Ok & (bs & H1 & [= <-])%Res_bind_Ok)%Res_bind_Ok. cbn. by rewrite (IH _ H1).
Qed.
Lemma mapR_lids sents xs lids :
  mapR (λ x, lid ← depl_layer sents x; Ok (x, lid)) xs = Ok lids → Forall2 (λ x xl, xl.1 = x ∧ depl_layer sents x = Ok xl.2) xs lids.
Proof.
  revert lids. induction xs as [|x xs IH]; intros lids; cbn [mapR]; [intros [= <-]; constructor|].
  intros (b & (i & Hi & [= <-])%Res_bind_Ok & (bs & H1 & [= <-])%Res_bind_Ok)%Res_bind_Ok. constructor; [done|by apply IH].
Qed.
Lemma depleted_old sents xs lids L :
  Forall2 (λ x xl, xl.1 = x ∧ depl_layer sents x = Ok xl.2) xs lids → (∀ k id, sents !! k = Some id → id ≠ L) →
  depleted_at ((λ xl : string * DeplRec * Z, (xl.2, xl.1.1, dr_qty xl.1.2, dr_cost xl.1.2)) <$> lids) L = depl_at L (snd <$> xs).
Proof.
  intros H Hne. unfold depleted_at. rewrite at_layer_fmap. induction H as [|x xl xs lids [E Hx] Hs IH]; [done|]. rewrite at_layer_cons. cbn [fmap list_fmap].
  rewrite depl_at_cons, IH. f_equal. cbn. rewrite E. unfold depl_layer in Hx. destruct (dr_layer_id x.2) as [lid|].
  - injection Hx as ->. destruct (decide (xl.2 = L)) as [->|]; [by rewrite decide_True|]. rewrite decide_False; [done|congruence].
  - rewrite (decide_False (P := None = Some L)) by done. destruct (dr_sentinel x.2) as [k|]; [|done]. apply ok_or_Ok, Hne in Hx. by rewrite decide_False.
Qed.
Lemma depleted_new sents xs lids L d :
  Forall2 (λ x xl, xl.1 = x ∧ depl_layer sents x = Ok xl.2) xs lids → None ∉ dr_layer_id <$> (snd <$> xs) →
  (∀ L', Some L' ∈ dr_layer_id <$> (snd <$> xs) → is_Some (cost_layers d !! L')) → cost_layers d !! L = None →
  depleted_at ((λ xl : string * DeplRec * Z, (xl.2, xl.1.1, dr_qty xl.1.2, dr_cost xl.1.2)) <$> lids) L = 0.
Proof.
  intros H Hnone Hstored HL. unfold depleted_at. rewrite at_layer_fmap. apply at_layer_notin. intros xl Hxl E. cbn in E.
  apply list_elem_of_lookup in Hxl as [k Hk]. destruct (Forall2_lookup_r _ _ _ _ _ H Hk) as (x & Hx & _ & Hd). apply list_elem_of_lookup_2 in Hx.
  unfold depl_layer in Hd. destruct (dr_layer_id x.2) as [lid|] eqn:El.
  - injection Hd as ->. assert (is_Some (cost_layers d !! xl.2)) as [? Hs]; [|congruence]. apply Hstored. rewrite <-El. by apply (list_elem_of_fmap_2 dr_layer_id), list_elem_of_fmap_2.
  - apply Hnone. rewrite <-El. by apply (list_elem_of_fmap_2 dr_layer_id), list_elem_of_fmap_2.
Qed.
Lemma books_None d L : books_of d !! L = None ↔ cost_layers d !! L = None.
Proof. unfold books_of. by rewrite lookup_fmap, fmap_None. Qed.
Lemma inline_write_Ok a s ids s' :
  tables_ok (ss_db s) → inline_ok (ss_db s) a → inline_write a s = (Ok ids, s') →
  (∀ L lb, books_of (ss_db s') !! L = Some lb →
     match books_of (ss_db s) !! L with
     | Some old => lb = lowered (ia_drain a) L old ∧ consumed_of (ss_db s') L = consumed_of (ss_db s) L + depl_at L (deps a)
     | None => (∃ p, parsed_ok p ∧ pa_kind p = FifoReceipt ∧ lb = new_book p) ∧
               (None ∉ dr_layer_id <$> deps a → consumed_of (ss_db s') L = consumed_of (ss_db s) L)
     end) ∧
  (∀ L lb, books_of (ss_db s') !! L = Some lb → is_Some (ia_drain a !! L) → 0 ≤ lb_remaining lb ≤ i64_max) ∧
  map_Forall (λ _ r, is_Some (cost_layers (ss_db s') !! dp_layer r)) (depletions (ss_db s')).
Proof.
  intros Ht Ha H. unfold inline_write in H. apply SE_bind_Ok in H as (ids' & s1 & (M1 & C1 & D1)%add_postings_Ok & H).
  apply SE_bind_Ok in H as (layers & s2 & Hlay & H). injection Hlay as Hlay <-. apply mapR_fst in Hlay.
  apply SE_bind_Ok in H as (sents & s2 & H2 & H). apply inline_layers_Ok in H2 as (D2 & I1 & I2 & I3).
  2: { pose proof (io_layers _ _ Ha) as Hl. rewrite <-Hlay in Hl. by apply Forall_fmap in Hl. }
  apply SE_bind_Ok in H as (lids & s3 & Hlids & H). injection Hlids as Hlids <-. apply mapR_lids in Hlids.
  apply SE_bind_Ok in H as (depls & s3 & Hdep & H). injection Hdep as Hdep <-. apply mapR_post in Hdep.
  apply SE_bind_Ok in H as ([] & s3 & H3 & H). pose proof (add_depletions_named _ _ _ H3) as Hnamed. apply add_depletions_Ok in H3 as (_ & C3 & N3 & U3).
  apply SE_bind_Ok in H as ([] & s4 & Hupd & [= <- <-]). apply statement_Ok in Hupd as (d4 & Hd4 & ->). unfold update_layers in Hd4.
  apply Res_bind_Ok in Hd4 as (m & Hm & [= <-]). destruct (update_remaining_Ok _ _ _ Hm) as [Hlow Hrange]. rewrite Hdep in U3. cbn [set_db ss_db].
  assert (books_of (ss_db s1) = books_of (ss_db s)) as Eb by (unfold books_of; by rewrite C1).
  assert (∀ L, consumed_of (ss_db s2) L = consumed_of (ss_db s) L) as Ec by (intros L; unfold consumed_of; by rewrite D2, D1).
  assert (∀ L lb, books_of (set_layers m (ss_db s3)) !! L = Some lb → ∃ lb1, books_of (ss_db s2) !! L = Some lb1 ∧ lb = lowered (ia_drain a) L lb1) as Hback.
  { intros L lb HL. unfold books_of in HL. cbn in HL. rewrite lookup_fmap, Hlow in HL. unfold books_of. rewrite lookup_fmap, <-C3.
    destruct (cost_layers (ss_db s3) !! L) as [row|]; [|done]. injection HL as <-. cbn. by eexists. }
  rewrite Eb in *. split_and!.
  - intros L lb HL. destruct (Hback L lb HL) as (lb1 & H1 & ->). change (consumed_of (set_layers m (ss_db s3)) L) with (consumed_of (ss_db s3) L).
    rewrite U3, Ec. destruct (I2 L lb1 H1) as [Hold|(Hnew & p & Hp & Hk & ->)].
    + rewrite Hold. split; [done|]. f_equal. apply (depleted_old sents); [done|]. intros k id [Hk|Hk]%I3; [by rewrite lookup_empty in Hk|congruence].
    + rewrite Hnew. apply books_None in Hnew. split; [exists p; split_and!; [done|done|]|].
      * unfold lowered, new_book. cbn. rewrite (io_drain _ _ Ha), depl_at_notin; [f_equal; lia|]. intros [? ?]%(io_stored _ _ Ha). congruence.
      * intros Hn. rewrite (depleted_new sents _ _ L (ss_db s) Hlids Hn (io_stored _ _ Ha) Hnew). lia.
  - intros L lb HL Hs. unfold books_of in HL. cbn in HL. rewrite lookup_fmap in HL. destruct (m !! L) as [row|] eqn:Er; [|done]. injection HL as <-. by apply (Hrange L).
  - assert (∀ L, is_Some (cost_layers (ss_db s2) !! L) → is_Some (m !! L)) as Hm'.
    { intros L [row Hr]. specialize (Hlow L). rewrite C3, Hr in Hlow. cbn in Hlow. destruct (m !! L); [by eexists|done]. }
    cbn. eapply map_Forall_impl; [apply Hnamed|].
    + eapply map_Forall_impl; [rewrite D2, D1; apply (tb_depletions _ Ht)|]. intros k r [row Hr]. cbn.
      assert (is_Some (books_of (ss_db s2) !! dp_layer r)) as [lb Hlb]; [exists (book_of row); apply I1; unfold books_of; by rewrite lookup_fmap, Hr|].
      unfold books_of in Hlb. rewrite lookup_fmap in Hlb. destruct (cost_layers (ss_db s2) !! dp_layer r); [by eexists|done].
    + intros k r Hr. by apply Hm'.
Qed.
(** Old layers stay tied; new ones are full. *)
Lemma inline_rows a s ids s' :
  tables_ok (ss_db s) → inline_ok (ss_db s) a → inline_write a s = (Ok ids, s') →
  (∀ L row old, cost_layers (ss_db s') !! L = Some row → cost_layers (ss_db s) !! L = Some old →
    cl_pool row = cl_pool old ∧ 0 ≤ cl_qty_remaining row ≤ i64_max ∧ cl_qty_received row = cl_qty_remaining row + consumed_of (ss_db s') L) ∧
  (∀ L row, cost_layers (ss_db s') !! L = Some row → cost_layers (ss_db s) !! L = None →
    in_i64 (cl_pool row) ∧ 0 < cl_qty_received row ≤ i64_max ∧ cl_qty_remaining row = cl_qty_received row ∧
    (None ∉ dr_layer_id <$> deps a → consumed_of (ss_db s') L = 0)).
Proof.
  intros Ht Ha Hw. destruct (inline_write_Ok _ _ _ _ Ht Ha Hw) as (W1 & W2 & W3).
  assert (∀ L row, cost_layers (ss_db s') !! L = Some row → books_of (ss_db s') !! L = Some (book_of row)) as Hbk by (intros L row Hr; unfold books_of; by rewrite lookup_fmap, Hr).
  split.
  - intros L row old Hr Ho. pose proof (W1 L _ (Hbk L row Hr)) as HL. unfold books_of at 1 in HL. rewrite lookup_fmap, Ho in HL. destruct HL as [E Hc].
    pose proof (tb_received _ Ht L old Ho) as Hrec. destruct (tb_range _ Ht L old Ho) as [_ Hrange]. cbn in Hrec. injection E as -> E1 E2.
    rewrite (io_drain _ _ Ha) in E1. split; [done|]. split; [|cbn in *; lia]. destruct (ia_drain a !! L) eqn:Ed; [by eapply (W2 L _ (Hbk L row Hr)); rewrite Ed|].
    pose proof (io_drain _ _ Ha L) as Hd. rewrite Ed in Hd. cbn in *. lia.
  - intros L row Hr Hn. pose proof (W1 L _ (Hbk L row Hr)) as HL. apply books_None in Hn as Hn'. rewrite Hn' in HL. destruct HL as ((p & [Hp1 Hp2] & Hk & E) & Hc).
    injection E as E1 E2 E3. unfold pool_of in Hp1. rewrite Hk in Hp1. rewrite E1, E2, E3. split_and!; [done|lia|lia|done|]. intros Hd. rewrite (Hc Hd).
    apply sumZ_zeros. intros [k r] Hkr. apply elem_of_map_to_list in Hkr. cbn. rewrite decide_False; [done|]. intros <-.
    destruct (tb_depletions _ Ht k r Hkr) as [? Hx]. congruence.
Qed.
End rows.

Section claim.
Context {PT : PgText} (hash_order : gmap Z (Z * Z) → list (Z * (Z * Z))) (shared : Shared) (spi_ok : bool).
(** C21: a successful batch of [fifo_apply_batch_inline] keeps every layer that was there
    before tied to its depletions (received = remaining + depleted, nothing negative); a
    layer the batch itself receives keeps its full quantity as remaining.  So the tables
    stay consistent when no pool of the batch is both received into and issued from. *)
Theorem inline_batch_books (envs : list (option FifoJson)) (parsed : list Parsed) (s s' : Session) (rows : list BatchRow) :
  tables_ok (ss_db s) → parse_all 0 envs = Ok parsed → fifo_apply_batch_inline hash_order shared spi_ok (Some envs) s = (Ok rows, s') →
  (∀ L row, cost_layers (ss_db s') !! L = Some row →
     if decide (is_Some (cost_layers (ss_db s) !! L))
     then 0 ≤ cl_qty_remaining row ∧ cl_qty_received row = cl_qty_remaining row + consumed_of (ss_db s') L
     else 0 < cl_qty_received row ∧ cl_qty_remaining row = cl_qty_received row) ∧
  (apart parsed = true → tables_ok (ss_db s')).
Proof.
  intros Ht Hparse H. unfold fifo_apply_batch_inline in H. apply SE_bind_Ok in H as (arr & s0 & [= <- <-] & H).
  apply SE_bind_Ok in H as (ps & s0 & Hps & H). unfold lift in Hps. rewrite Hparse in Hps. injection Hps as <- <-.
  apply SE_bind_Ok in H as (d & s0 & [= <- <-] & H). apply SE_bind_Ok in H as (replays & s0 & Hrep & H). injection Hrep as _ <-.
  set (fresh := List.filter _ parsed) in H. apply SE_bind_Ok in H as (a & s0 & Hrun & H). injection Hrun as Hrun <-.
  apply SE_bind_Ok in H as (ids & s1 & Hw & H). apply SE_bind_Ok in H as ([] & s2 & [= <-] & [= _ <-]). cbn [set_pending ss_db].
  assert (∀ p, p ∈ fresh → p ∈ parsed) as Hin by (intros p Hp; unfold fresh in Hp; rewrite list_elem_of_In, filter_In, <-list_elem_of_In in Hp; apply Hp).
  assert (Forall parsed_ok fresh) as Hf.
  { apply Forall_forall. intros p Hp%Hin. pose proof (parse_all_ok _ _ _ Hparse) as Hall. rewrite Forall_forall in Hall. by apply Hall. }
  pose proof (inline_start_ok (ss_db s) fresh Ht) as Ha0. pose proof (inline_steps_ok _ _ _ _ Ht Ha0 Hf Hrun) as Ha.
  destruct (inline_write_Ok _ _ _ _ Ht Ha Hw) as (_ & _ & W3).
  destruct (inline_rows _ _ _ _ Ht Ha Hw) as [Hold Hnew].
  split.
  - intros L row Hr. destruct (cost_layers (ss_db s) !! L) as [old|] eqn:Ho; [rewrite decide_True by by eexists|rewrite decide_False by by intros [? ?]].
    + destruct (Hold L row old Hr Ho) as (_ & ? & ?). split; [lia|done].
    + destruct (Hnew L row Hr Ho) as (_ & ? & ? & _). split; [lia|done].
  - intros Hap. destruct (inline_steps_own (ss_db s) parsed fresh _ a Hap Hin Hf (io_nonneg _ _ Ha0)) as [_ Hd]; [|exact Hrun|].
    { split; [|by apply not_elem_of_nil]. intros pid. cbn. rewrite reference.fetch_layers_of. case_decide; [|by intros ?%not_elem_of_nil].
      intros Hx. apply list_elem_of_fmap in Hx as (r & E & Hr). apply list_elem_of_fmap in Hr as (il & -> & _). done. }
    split; [| |exact W3]; intros L row Hr; destruct (cost_layers (ss_db s) !! L) as [old|] eqn:Ho.
    + destruct (Hold L row old Hr Ho) as (-> & ? & _). split; [by apply (tb_range _ Ht L old)|done].
    + destruct (Hnew L row Hr Ho) as (? & ? & ? & _). split; [done|lia].
    + by destruct (Hold L row old Hr Ho) as (_ & _ & ?).
    + destruct (Hnew L row Hr Ho) as (_ & _ & ? & Hz). rewrite (Hz Hd). lia.
Qed.
End claim.
