(* ===== verification/ExtFifoWorld.v ===== *)
(** Runs of FIFO cells, batches, transactions and drains on concrete inputs: witnesses of
    the theorems, and what happens outside them. *)
From stdpp Require Import functions.
From Stdlib Require Import Ascii.
From S2P Require Import Prelude ExtTable ExtBalance ExtDispatch ExtRing ExtShadow ExtDeferred ExtFifoBatch ExtFifoRecon ExtFifoReplay ExtFifoDispatch.
From S2P Require Import ExtFifoInline.

Definition layer (q c i : Z) : Layer := {| ly_qty := q; ly_unit_cost := c; ly_layer_id := i |}.
(** Two layers around the end of the array: 10 at 3, then 5 at 4. *)
Definition wrapped : RingFields :=
  {| rf_head := 255; rf_n_layers := 2; rf_pending_drain_n := 0; rf_layers := {[ 255 := layer 10 3 101; 0 := layer 5 4 102 ]}; rf_pending_drain := ∅ |}.
Definition cell5 : FifoBucket :=
  {| fb_occupied := 1; fb_seeded := 1; fb_overflow_active := 0; fb_key_hi := 7; fb_key_lo := 0; fb_last_seq := 1; fb_drained_seq := 1;
     fb_overflow_first_spilled_layer_id := 0; fb_ring := wrapped |}.
Definition arena : FifoArena := {[ 5 := cell5 ]}.

Lemma wrapped_ok : ring_wf wrapped ∧ positive (queue wrapped) ∧ valued (queue wrapped).
Proof.
  assert (queue wrapped = [layer 10 3 101; layer 5 4 102]) as -> by by vm_compute. split_and!.
  - split; unfold MAX_LAYERS, PENDING_DRAIN_CAP; cbn; lia.
  - repeat constructor.
  - split; [repeat (constructor; [cbn; lia|]); constructor|]. unfold sumZ, i64_max. cbn. lia.
Qed.
Lemma arena_is_ok : arena_ok arena.
Proof.
  intros i. unfold arena, bucket. destruct (decide (i = 5)) as [->|Hne].
  - rewrite lookup_singleton_eq. cbn. by destruct wrapped_ok as (? & ? & _).
  - rewrite lookup_singleton_ne by done. split; [by split; unfold MAX_LAYERS, PENDING_DRAIN_CAP; cbn|constructor].
Qed.

Lemma ring_refines_queue_witness :
  let ops := [Consume 12; PendingDrainPush 101 10; Push (layer 7 5 103); OverflowActivate 104] in
  cell_of (foldl fifo_replay_op cell5 ops) = foldl cell_op (cell_of cell5) ops ∧ ring_wf (fb_ring (foldl fifo_replay_op cell5 ops)).
Proof. apply (ring_refines_queue _ cell5), wrapped_ok. Defined.

Lemma issue_takes_oldest_witness :
  cr_consumed (consume_from_head wrapped 12).1 = [whole (layer 10 3 101); slice_of (layer 5 4 102) 2] ∧
  taken (cr_consumed (consume_from_head wrapped 12).1) + cr_shortage (consume_from_head wrapped 12).1 = 12.
Proof.
  split; [by vm_compute|]. destruct wrapped_ok as (H1 & H2 & H3).
  apply (issue_takes_oldest wrapped 12 _ (consume_from_head wrapped 12).2 H1 H2 H3 eq_refl).
  by destruct (consume_from_head wrapped 12).
Defined.

(** Take 12, receive 7; in a savepoint that is rolled back take 3 more and load cell 6;
    then take 1 from cell 6, loading its durable layer. *)
Definition durable6 : gmap Z (list SeedLayerSnapshot) := {[ 6 := [{| sd_layer_id := 90; sd_qty_remaining := 4; sd_unit_cost := 2 |}] ]}.
Definition txn : list Event :=
  [Batch ∅ [(5, [Issue 12; Receipt (layer 7 5 103)])]; StartSub; Batch durable6 [(5, [Issue 3]); (6, [Issue 2])]; AbortSub;
   Batch durable6 [(6, [Issue 1])]].
Lemma txn_ok : Forall event_ok txn.
Proof.
  assert (map_Forall (λ _, seeds_ok) durable6) as Hs.
  { apply map_Forall_insert_2; [|apply map_Forall_empty]. repeat constructor. }
  repeat constructor; done.
Qed.
Lemma deferred_apply_is_direct_witness :
  queue (fb_ring (bucket (fifo_xact_commit (each (shadow_event arena) txn []).2 arena 1).1.1 5)) = [layer 3 4 102; layer 7 5 103] ∧
  ∃ v, each direct_event txn [λ i, bview (bucket arena i)] = ((each (shadow_event arena) txn []).1, [v]) ∧
       ∀ i, bview (bucket (fifo_xact_commit (each (shadow_event arena) txn []).2 arena 1).1.1 i) = v i.
Proof.
  split; [by vm_compute|].
  apply (deferred_apply_is_direct arena 1 txn _ _ arena_is_ok txn_ok eq_refl). by destruct (each (shadow_event arena) txn []).
Defined.

(** * Batches *)
(** * Text *)
(** Keys are written in the letters a and b; input takes capitals too. *)
Fixpoint pos_text (p : BinNums.positive) : string :=
  match p with xH => "" | xO p => String "a"%char (pos_text p) | xI p => String "b"%char (pos_text p) end.
Fixpoint text_pos (s : string) : option BinNums.positive :=
  match s with
  | EmptyString => Some xH
  | String c s =>
      p ← text_pos s;
      if decide (c = "a"%char ∨ c = "A"%char) then Some (xO p) else if decide (c = "b"%char ∨ c = "B"%char) then Some (xI p) else None
  end.
Definition key_text (z : Z) : string := match z with 0 => "0" | Zpos p => String "+"%char (pos_text p) | Zneg p => String "-"%char (pos_text p) end.
Definition text_key (s : string) : option Z :=
  match s with
  | String "0"%char EmptyString => Some 0
  | String "+"%char s => Zpos <$> text_pos s
  | String "-"%char s => Zneg <$> text_pos s
  | _ => None
  end.
#[export] Instance letters : PgText := {| uuid_in := text_key; uuid_out := key_text; date_in := λ _, Some 0 |}.
Lemma text_pos_text p : text_pos (pos_text p) = Some p.
Proof. induction p as [p IH|p IH|]; cbn; rewrite ?IH; done. Qed.
Lemma letters_canonical u : uuid_in (uuid_out u) = Some u.
Proof. destruct u as [|p|p]; cbn; rewrite ?text_pos_text; done. Qed.

(** * A small company *)
(** Stock 1, supplier 2, cost of sales 3. *)
Definition tables : FifoDb := {| accounts := {[ 1 := "USD"; 2 := "USD"; 3 := "USD" ]}; posting_lines := ∅; cost_layers := ∅; depletions := ∅ |}.
Definition quiet : Shared :=
  {| HASH_TABLE := ∅; OCCUPIED_COUNT := 0; APPLY_SEQ := 0; LEDGER_SHMEM_INSERT_FAILURES := 0; LEDGER_DRAIN_CONSECUTIVE_FAILS := 0;
     LEDGER_DRAIN_TOTAL_FAILURES := 0; account_balances_rollup := ∅ |}.
Definition start : World :=
  {| wd_db := tables; wd_seqs := {| sq_posting := 0; sq_layer := 0; sq_depletion := 0 |}; wd_arena := ∅; wd_shared := quiet;
     wd_counters := {| fc_rows := 0; fc_ticks := 0; fc_consecutive_fails := 0; fc_total_failures := 0 |} |}.
Definition receipt (key : string) (qty cost : Z) : option FifoJson :=
  Some {| fj_kind := Some "fifo_receipt"; fj_envelope_idx := None; fj_debit := Some 1; fj_credit := Some 2; fj_qty := Some qty;
          fj_unit_cost := Some cost; fj_key := Some key; fj_date := Some "2026-01-01" |}.
Definition issue (key : string) (qty : Z) : option FifoJson :=
  Some {| fj_kind := Some "fifo_issue"; fj_envelope_idx := None; fj_debit := Some 3; fj_credit := Some 1; fj_qty := Some qty;
          fj_unit_cost := None; fj_key := Some key; fj_date := Some "2026-01-01" |}.
Definition batch (l : list (option FifoJson)) : TxEvent := TxBatch (Some l).
Definition run : World → list WorldEvent → World := foldl (world_event map_to_list map_to_list).

(** Receive 10 at 3 and 5 at 4, then issue 12; a savepoint issues 2 more and is rolled
    back; a batch that asks for too much fails its transaction; the drain writes back. *)
Definition day : list WorldEvent :=
  [Transact false true [batch [receipt "+a" 10 3; receipt "+b" 5 4]] true;
   Transact true true [batch [issue "+aa" 12]; TxSavepoint; batch [issue "+ab" 2]; TxRollback] true;
   Transact true true [batch [issue "+ba" 100]] true;
   DrainTick false; DrainTick true;
   Transact true true [batch [issue "+bb" 1]] true].
Definition the_row : ReconRow :=
  {| rc_pool := 1; rc_live := 2; rc_pending := 1; rc_total := 3; rc_spilled := 0; rc_durable := Some 3; rc_drift := Some 0 |}.
Lemma start_tables : tables_ok (wd_db start).
Proof. by split; apply map_Forall_empty. Qed.
Example day_recon : fifo_arena_recon true (wd_arena (run start day)) (wd_db (run start day)) = [the_row].
Proof. by vm_compute. Qed.
Example day_layers :
  (λ l, (cl_qty_remaining l, cl_qty_received l)) <$> cost_layers (wd_db (run start day)) = {[ 1 := (0, 10); 2 := (3, 5) ]}.
Proof. by vm_compute. Qed.

(** * Witnesses *)
Lemma fifo_arena_no_drift_witness :
  loaded (wd_arena (run start day)) 1 = true ∧ default 1 (rc_drift the_row) = 0.
Proof.
  split; [by vm_compute|].
  refine (fifo_arena_no_drift map_to_list map_to_list day start true the_row _ eq_refl start_tables _ _ _).
  - change (the_row ∈ fifo_arena_recon true (wd_arena (run start day)) (wd_db (run start day))). rewrite day_recon. by left.
  - by vm_compute.
  - done.
Defined.
Lemma fifo_ring_is_stock_witness :
  ∃ i, probe_fifo_cell (wd_arena (run start day)) (pack_fifo_key_poc 1) = Some i ∧
    sumZ ly_qty (queue (fb_ring (bucket (wd_arena (run start day)) i))) =
      sumZ (λ r, cl_qty_received r.2 - consumed_of (wd_db (run start day)) r.1) (pool_rows (λ _, true) 1 (wd_db (run start day))).
Proof.
  apply (fifo_ring_is_stock map_to_list map_to_list day start 1 eq_refl start_tables); [unfold in_i64, i64_min, i64_max; lia|by vm_compute].
Defined.
Definition row2 : CostLayer :=
  {| cl_pool := 1; cl_qty_remaining := 3; cl_qty_received := 5; cl_unit_cost := 4; cl_receipt_date := 0; cl_receipt_posting := Some 2 |}.

(** The session of the first batch, and the batch again in the session after it. *)
Definition session0 : Session :=
  {| ss_db := tables; ss_seqs := wd_seqs start; ss_arena := ∅; ss_frames := []; ss_pending := [] |}.
Definition two_receipts : option (list (option FifoJson)) := Some [receipt "+a" 10 3; receipt "+b" 5 4].
Definition outcome := fifo_apply_batch_maximal map_to_list quiet true two_receipts session0.
Definition rows_of (r : Res FifoError (list BatchRow)) : list BatchRow := match r with Ok rows => rows | Err _ => [] end.
Lemma outcome_ok : outcome = (Ok (rows_of outcome.1), outcome.2).
Proof. by vm_compute. Qed.
Lemma outcome_unique : keys_unique (ss_db outcome.2).
Proof.
  assert (map_to_list (pl_key <$> posting_lines (ss_db outcome.2)) = [(2, 3); (1, 2)]) as E by by vm_compute.
  assert (∀ i pl, posting_lines (ss_db outcome.2) !! i = Some pl → (i, pl_key pl) ∈ [(2, 3); (1, 2)]) as H.
  { intros i pl Hi. rewrite <-E. apply elem_of_map_to_list. by rewrite lookup_fmap, Hi. }
  intros i j a b Ha%H Hb%H Hk. clear E H. rewrite !elem_of_cons, elem_of_nil in Ha, Hb.
  destruct Ha as [[= -> Ea]|[[= -> Ea]|[]]], Hb as [[= -> Eb]|[[= -> Eb]|[]]]; (reflexivity || lia).
Qed.
Lemma fifo_batch_idempotent_witness :
  br_posting_line_id <$> rows_of outcome.1 = [Some 1; Some 2] ∧
  fifo_apply_batch_maximal map_to_list quiet false two_receipts outcome.2 =
    (Ok (as_replay <$> rows_of outcome.1), set_frames (fifo_ensure_top_frame (ss_frames outcome.2)) outcome.2).
Proof.
  split; [by vm_compute|].
  apply (fifo_batch_idempotent letters_canonical map_to_list (λ m, reflexivity _) quiet quiet true false two_receipts session0 outcome.2);
    [exact outcome_ok|reflexivity|exact outcome_unique].
Defined.

(** * Outside the theorems *)
(** After a restart the layer of 5 is durable; a batch gives its pool a cell and is rolled
    back: the cell stays, never loaded, and reads as drift although nothing is under way. *)
Definition restarted (w : World) : World :=
  {| wd_db := wd_db w; wd_seqs := wd_seqs w; wd_arena := ∅; wd_shared := quiet; wd_counters := wd_counters w |}.
Definition half_day : World := run start [Transact false true [batch [receipt "+a" 5 3]] true].
Definition rolled_back : World := run (restarted half_day) [Transact false true [batch [issue "+b" 1]] false; DrainTick true].
Example rolled_back_cell_drifts : rc_drift <$> fifo_arena_recon true (wd_arena rolled_back) (wd_db rolled_back) = [Some 5].
Proof. by vm_compute. Qed.
(** A restart forgets the staged drains: the unit issued last is back in stock, can be
    issued again, and its layer ends up depleted beyond what it received. *)
Definition reissued : World := run (restarted (run start day)) [Transact false true [batch [issue "+aab" 3]] true; DrainTick true].
Example restart_forgets_staged :
  fifo_overconsume_check (wd_db reissued) =
    Some [{| or_layer := 2; or_pool := 1; or_received := 5; or_consumed := 6; or_overshoot := 1 |}].
Proof. by vm_compute. Qed.
(** 257 durable layers of one unit, the first by number the latest by date: it is the one
    that does not fit, and every layer of the ring is at or past the watermark. *)
Definition unit_layer (date : Z) : CostLayer :=
  {| cl_pool := 1; cl_qty_remaining := 1; cl_qty_received := 1; cl_unit_cost := 3; cl_receipt_date := date; cl_receipt_posting := None |}.
Definition many : FifoDb :=
  set_layers (list_to_map ((1, unit_layer 9) :: ((λ i, (i, unit_layer 0)) <$> seqZ 2 256))) tables.
Definition spilled : World :=
  run {| wd_db := many; wd_seqs := {| sq_posting := 0; sq_layer := 257; sq_depletion := 0 |}; wd_arena := ∅; wd_shared := quiet;
         wd_counters := wd_counters start |} [Transact false true [batch [issue "+a" 257]] true].
Example spill_takes_ring_layers :
  fifo_overconsume_check (wd_db spilled) =
    Some [{| or_layer := 2; or_pool := 1; or_received := 1; or_consumed := 2; or_overshoot := 1 |}].
Proof. by vm_compute. Qed.
(** Filling an empty arena takes every slot, and the sentinels give every slot back. *)
Example sentinels_fill_arena :
  (fifo_force_arena_full ∅).1 = N_BUCKETS ∧ (fifo_release_sentinels (fifo_force_arena_full ∅).2).1 = N_BUCKETS.
Proof. split; by vm_compute. Qed.
(** The key of a posting is compared as text: in capitals it is neither found as a replay
    nor among the numbers of the new postings. *)
Example capital_key_fails : (fifo_apply_batch_maximal map_to_list quiet true (Some [receipt "+A" 10 3]) session0).1 = Err (KeyNotReturned "+A").
Proof. by vm_compute. Qed.
Example capital_replay_fails : (fifo_apply_batch_maximal map_to_list quiet true (Some [receipt "+A" 10 3]) outcome.2).1 = Err (SqlFailed "23505").
Proof. by vm_compute. Qed.

(** * The batches without shared layers *)
Abbreviation inline := (fifo_apply_batch_inline map_to_list quiet true).
(** One layer of 5 at 3 is there; 4 are issued and 10 received into another pool. *)
Definition stocked : Session := {| ss_db := wd_db half_day; ss_seqs := wd_seqs half_day; ss_arena := ∅; ss_frames := []; ss_pending := [] |}.
Definition elsewhere (key : string) (qty cost : Z) : option FifoJson :=
  Some {| fj_kind := Some "fifo_receipt"; fj_envelope_idx := None; fj_debit := Some 3; fj_credit := Some 2; fj_qty := Some qty;
          fj_unit_cost := Some cost; fj_key := Some key; fj_date := Some "2026-01-01" |}.
Definition separate : list (option FifoJson) := [issue "+ba" 4; elsewhere "+bb" 10 2].
Definition separate_parsed : list Parsed := match parse_all 0 separate with Ok ps => ps | Err _ => [] end.
Lemma stocked_tables : tables_ok (ss_db stocked).
Proof.
  assert (cost_layers (ss_db stocked) = {[ 1 := {| cl_pool := 1; cl_qty_remaining := 5; cl_qty_received := 5; cl_unit_cost := 3; cl_receipt_date := 0;
            cl_receipt_posting := Some 1 |} ]}) as E by by vm_compute.
  assert (depletions (ss_db stocked) = ∅) as Ed by by vm_compute.
  assert (consumed_of (ss_db stocked) 1 = 0) as Ec by by vm_compute.
  split; [rewrite E|rewrite E|rewrite Ed; apply map_Forall_empty]; intros L row [<- <-]%lookup_singleton_Some.
  - cbn. unfold in_i64, i64_min, i64_max. lia.
  - by rewrite Ec.
Qed.
Definition after_separate := inline (Some separate) stocked.
Lemma after_separate_ok : after_separate = (Ok (rows_of after_separate.1), after_separate.2).
Proof. by vm_compute. Qed.
Lemma inline_batch_books_witness :
  (λ l, (cl_qty_remaining l, cl_qty_received l)) <$> cost_layers (ss_db after_separate.2) = {[ 1 := (1, 5); 2 := (10, 10) ]} ∧
  tables_ok (ss_db after_separate.2).
Proof.
  split; [by vm_compute|].
  refine (proj2 (inline_batch_books map_to_list quiet true separate separate_parsed stocked after_separate.2 (rows_of after_separate.1) stocked_tables _ after_separate_ok) _);
    by vm_compute.
Defined.
(** A batch that receives 10 and issues 4 of them: the depletion is recorded, the layer
    still shows 10, and the next batch can issue 10. *)
Definition own_receipt := inline (Some [receipt "+a" 10 3; issue "+b" 4]) session0.
Definition reissue := inline (Some [issue "+aa" 10]) own_receipt.2.
Example inline_keeps_own_receipt_full :
  cl_qty_remaining <$> cost_layers (ss_db own_receipt.2) = {[ 1 := 10 ]} ∧ consumed_of (ss_db own_receipt.2) 1 = 4 ∧
  fifo_overconsume_check (ss_db reissue.2) =
    Some [{| or_layer := 1; or_pool := 1; or_received := 10; or_consumed := 14; or_overshoot := 4 |}].
Proof. split_and!; by vm_compute. Qed.

(** The dispatcher on the same layer: 3 received, then 7 issued, the old layer first. *)
Definition envelope (kind : string) (debit credit qty : Z) (cost : option Z) : option EnvelopeJson :=
  Some {| ej_kind := Some kind; ej_envelope_idx := None; ej_debit := Some debit; ej_credit := Some credit; ej_amount := None; ej_qty := Some qty;
          ej_unit_cost := cost |}.
Definition mixed : list (option EnvelopeJson) := [envelope "fifo_receipt" 1 2 3 (Some 4); envelope "fifo_issue" 3 1 7 None].
Definition mixed_parsed : list FifoDispatch.Parsed := match traverse FifoDispatch.parse_fifo 0 mixed with inr ps => ps | inl _ => [] end.
Definition dispatched := FifoDispatch.ledger_dispatch_fifo_batch true quiet (ss_db stocked) (Some mixed) [].
Lemma fifo_dispatch_is_queue_witness :
  match dispatched with
  | inr (rows, _) => omap reference.depl_row rows =
      [(1, {| dr_sentinel := None; dr_layer_id := Some 1; dr_qty := 5; dr_cost := 15 |});
       (1, {| dr_sentinel := Some (-1); dr_layer_id := None; dr_qty := 2; dr_cost := 8 |})]
  | inl _ => False
  end ∧
  match dispatched, reference.depletions_of mixed_parsed (reference.stock (ss_db stocked)) (-1) with
  | inr (rows, _), Some ds => Forall2 reference.same_row (omap reference.depl_row rows) ds
  | inl _, None => True
  | _, _ => False
  end.
Proof. split; [by vm_compute|]. apply (reference.fifo_dispatch_is_queue true quiet (ss_db stocked) mixed [] mixed_parsed). by vm_compute. Defined.
